(* ===== verification/_CoqProject ===== *)
-Q . S2P
Prelude.v
Json.v
Schedule.v
Scheduler.v
SchedulerSpec.v
SchedulerOps.v
Disk.v
Outbox.v
OutboxSpec.v
Goal.v
GoalSpec.v
LineDelta.v
Lease.v
Registry.v
Session.v
HostSessions.v
Bus.v
Inbox.v
BoardDelta.v
Board.v
BoardText.v
BoardFlags.v
BoardOps.v
BoardTree.v
BoardSpec.v
BoardGoals.v
BoardView.v
BoardParse.v
BoardTypes.v
Duty.v
DutyJudge.v
ChatDuties.v
BoardStore.v
Harness.v
Refine.v
RefineSpec.v
FileLock.v
FileLockSpec.v
Turns.v
TurnsSpec.v
QueueWatch.v
RoomData.v
RoomText.v
Rooms.v
RoomsSpec.v
RoomsRows.v
RoomFeed.v
Shell.v
ShellSpec.v
Kill.v
KillSpec.v
Caps.v
CapsSpec.v
Pm2.v
Pm2Spec.v
Paths.v
SieunPi.v
SieunPiSpec.v
Walk.v
WalkSpec.v
PoolTurns.v
PoolWait.v
Wake.v
WakeTree.v
WakeTick.v
WakeTickSpec.v
WakeRuns.v
WakeRead.v
Wire.v
WireSpec.v
