(* ===== verification/Prelude.v ===== *)
(** * A verification of sieun-pi's services

    sieun-pi runs coding agents.  [pi-host] (packages/pi-host) keeps their sessions open, one process per box, and serves
    them on a socket; [pi-rlm] gives an agent its bus to other agents, its inbox and its goal; [pi-pool] vends accounts and
    working slots; [pi-harness] keeps what an agent learned; [sieun-rules] judges the commands an agent runs; and the chat
    server (apps/chat/server) shows all of it to the owner: conversations, rooms, a board of work and duties per chat.
    This library translates the parts of that program that keep state or decide, file by file, and proves what each is
    for.  Everything is under the TypeScript sources of [src/]; a definition carries the name of the function it
    translates, and each file's own header names its sources.

    ** The parts, and where they meet

    - Shared ground.  [Prelude] (this file): outcomes that may throw, strings, JavaScript's insertion-ordered maps and its
      stable sort, numbers as texts, the tactics and the hint database [sieun].  [Json]: JSON values as trees.
    - Time.  [Schedule]: the cron grammar and its next run.  [Scheduler], [SchedulerSpec], [SchedulerOps]: pi-host's jobs,
      their claims on disk and their deliveries in lanes.
    - Sessions.  [Lease]: one writer per session file, between processes.  [Registry]: who is loaded.  [Session]: a
      session's event stream and its clients.  [HostSessions]: opening, killing and unloading, over leases and registry.
    - Between agents.  [Bus]: who may write to whom, over the registry.  [Inbox]: a message from its delivery to the
      transcript.  [Goal], [GoalSpec]: a thread's goal and when it continues by itself.
    - To the owner.  [Disk]: the chat server's write queue, which every file below goes through.  [Outbox], [OutboxSpec]:
      the owner's sends until pi-host has them.  [RoomData], [RoomText], [Rooms], [RoomsSpec], [RoomsRows], [RoomFeed]: channels
      and Solo rooms, with the posts' log, their deliveries to agents' comm threads, and the feed that turns an
      agent's answer there into a post again.  [Turns], [TurnsSpec]: the turns a page shows of a conversation.
      [QueueWatch]: a run's place in line.  [LineDelta]: the relay's stream of messages as deltas.
    - The board.  [Board], [BoardText], [BoardFlags], [BoardOps]: a chat's plan and todos and the ops that change them.
      [BoardParse]: an op from the outside.  [BoardView]: what an agent reads.  [BoardDelta]: a page's copy.  [BoardStore]: the
      cache over the board documents, with requests that cross.  [BoardTree], [BoardSpec], [BoardGoals], [BoardTypes]: theorems.
    - Duties.  [Duty]: what a chat must keep doing.  [DutyJudge]: a run's verdict.  [ChatDuties]: the clock that runs
      them and the check-ins that read the board.
    - What an agent keeps.  [Harness]: its memory store.  [Refine], [RefineSpec]: plans that edit it and their rollback.
      [FileLock], [FileLockSpec]: the lock around both.
    - Waits.  [Wake]: what a session waits for, as a file, a request and a text.  [WakeTree]: the wakes of a session's tree.
      [WakeTick]: the ticker that reads runs, runs checks and hands over what is due.  [WakeTickSpec]: its invariant.
      [WakeRuns]: its theorems and the runs that lose a wake.  [WakeRead]: how a run is read and where a check runs.
    - The pool.  [PoolTurns]: places in the queue of working slots.  [PoolWait]: one run's wait for its slot.
    - The socket.  [Wire], [WireSpec]: command lines, and a client and its connection with the bytes between them.
    - The rules.  [Shell], [ShellSpec]: how a shell text is read.  [Kill], [KillSpec]: the rule against kills by pattern.
      [Caps], [CapsSpec]: the rule against resource caps.  [Pm2], [Pm2Spec]: pm2's home.  [Paths]: a path and the folder it leads to.
      [SieunPi], [SieunPiSpec]: history on a remote.  [Walk], [WalkSpec]: walks of home.

    Components meet where the code calls: [HostSessions] runs on [Lease], [Registry] and [Session]; [Inbox] delivers what
    [Bus] routes; [BoardStore] applies [BoardOps] under its promises' order; [ChatDuties] reads boards and duties; a room's
    text ([RoomText]) comes back as an agent's input ([RoomFeed]), which is where the hop limit of [Rooms] rests on the
    headers being read as they were written.

    ** How the code is modelled

    A component's state is a record, a handler a function of it.  An asynchronous function is cut at its awaits, each stretch
    a function; what is awaited is kept in the state (timers, calls in flight, tasks), and a run is a list of
    events in any order with any answers, so a theorem over runs covers every interleaving that JavaScript's single thread
    allows.  Between processes ([Lease], [FileLock]) each system call is a step.  A crash keeps what is on disk and,
    where writes are queued, loses an arbitrary tail of them.  Objects that the code shares by reference and then mutates
    are named (by index, key or id) and kept in a store.  Errors are values: [result], or the thrown message beside the state
    it leaves.  Where the code does not do what it says, the library states the run that shows it; those theorems
    are named for what happens ([release_during_tries_loses_a_post], [forms_past_the_kill_rule], ...).

    Bounds and fuel.  Every loop that does not recur on its data carries fuel, with a lemma that the fuel given is
    enough: the year of minutes of a cron search, the length of a board's plan, of a text ([lex_ends]) or of a room's log
    ([lead]).  Limits of the code are constants of the same name: [MAX_HOPS], the levels of scripts in scripts a rule reads ([LEVELS]), the bus's caps.

    What is idealised.  A number is an integer, or the fraction a finite double names where the code divides or compares;
    neither overflows in the code's ranges, and widths are written out where they matter.  A string is a list of 8-bit
    units (UTF-16 units and bytes in [LineDelta]).  [JSON.stringify] is compared as equality of trees.  Regular expressions over
    free prose, Node's and pi-host's answers, dates as texts, hashes and random ids are arguments (the classes [HostTime],
    [Rules], [Dates], [Links], [Texts], [RoomTexts], [Node], [Box], [JsonText], [Walk.Disk] and the arguments of steps), with their documented laws as
    hypotheses or class fields; each has an instance that witnesses use.  A directory is removed in one step
    in [FileLock], and [rooms.json] is saved at once.

    ** What the theorems show

    Safety of each protocol (one send per claim, one writer per file, one runtime per session, one lock holder, one
    delivery per reader, no answer past the hop limit, no wake before its time, no message outside the family); invariants of every reachable state
    (jobs, goals, board ids and types, names of channels); that nothing pending is forgotten (sends, followed runs, waits for a
    slot, wakes, requests to the host); recovery and round trips (outbox, deltas, rollback, headers in rooms, quoting in shell texts); refinement (the write
    queue against plain files, board requests one at a time); functional behaviour (cron, refine, turns, places in line,
    what the rules on commands pass and refuse); and the defects found.

    ** Not modelled

    The web pages and the wiki (Svelte), the HTTP routes and sockets of the chat server and its clients, Python and shell
    scripts, and the deployment under [legacy/] that the current packages replaced, but for the wake
    ticker, which the chat server runs: input, output and display around the
    parts above.  pi-durable's workflow modules run inside a vendored runtime that [src/] does not hold in readable
    form, so of them only the goal is here.  Search and history are queries of other engines.  Direct messages repeat
    the rooms' delivery with one reader.  Pages read from a room, the agents' folders, the account loop of the pool
    and the rules that read Python cells, web pages or a checkout's files are left out. *)

From stdpp Require Export base list strings gmap sets pretty sorting.
From Stdlib Require Export ZArith Lia.
From Stdlib Require Ascii String.
Export Ascii.AsciiSyntax.
Delimit Scope char_scope with char.

#[global] Set Default Goal Selector "!".
#[global] Open Scope Z_scope.
#[global] Open Scope list_scope.

Create HintDb sieun discriminated.

(** ** Calls that may throw *)

(** The outcome of a call: a value, or the message of the thrown [Error]. *)
Inductive result (A : Type) : Type :=
| Ok (a : A)
| Throw (message : string).
Arguments Ok {A} a.
Arguments Throw {A} message.

#[export] Instance result_ret : MRet result := fun A a => Ok a.
#[export] Instance result_bind : MBind result := fun A B f m =>
  match m with Ok a => f a | Throw e => Throw e end.
#[export] Instance result_fmap : FMap result := fun A B f m =>
  match m with Ok a => Ok (f a) | Throw e => Throw e end.

#[export] Instance result_eq_dec {A} `{EqDecision A} : EqDecision (result A).
Proof. solve_decision. Defined.

Definition is_ok {A} (r : result A) : bool :=
  match r with Ok _ => true | Throw _ => false end.

Lemma bind_ok {A B} (m : result A) (f : A -> result B) (b : B) :
  (m ≫= f) = Ok b <-> exists a, m = Ok a /\ f a = Ok b.
Proof.
  destruct m as [a|e]; cbn; split.
  - intros H. by exists a.
  - intros (a' & [= ->] & H). done.
  - done.
  - by intros (a' & H & _).
Qed.

(** [guard_throw b e k] is [if (b) throw new Error(e); k]. *)
Definition guard_throw {A} (b : bool) (e : string) (k : result A) : result A :=
  if b then Throw e else k.

Lemma guard_throw_ok {A} b e (k : result A) a :
  guard_throw b e k = Ok a <-> b = false /\ k = Ok a.
Proof. destruct b; cbn; intuition congruence. Qed.

(** [a ?? b] on an optional value. *)
Definition nullish {A} (a : option A) (b : A) : A := default b a.

(** [a ?? b] where [b] is optional too. *)
Definition orelse {A} (a b : option A) : option A :=
  match a with Some _ => a | None => b end.

(** ** Automation *)

Ltac simp_ok :=
  repeat match goal with
  | H : Ok _ = Ok _ |- _ => injection H; clear H; intros; subst
  | H : Ok _ = Throw _ |- _ => discriminate H
  | H : Throw _ = Ok _ |- _ => discriminate H
  | H : Throw _ = Throw _ |- _ => injection H; clear H; intros; subst
  | H : Some _ = Some _ |- _ => injection H; clear H; intros; subst
  | H : Some _ = None |- _ => discriminate H
  | H : None = Some _ |- _ => discriminate H
  | H : guard_throw _ _ _ = Ok _ |- _ => apply guard_throw_ok in H as [? ?]
  | H : andb _ _ = true |- _ => apply andb_true_iff in H as [? ?]
  | H : orb _ _ = false |- _ => apply orb_false_iff in H as [? ?]
  | H : negb _ = true |- _ => apply negb_true_iff in H
  | H : negb _ = false |- _ => apply negb_false_iff in H
  | H : bool_decide _ = true |- _ => apply bool_decide_eq_true in H
  | H : bool_decide _ = false |- _ => apply bool_decide_eq_false in H
  | H : (_ <=? _) = true |- _ => apply Z.leb_le in H
  | H : (_ <=? _) = false |- _ => apply Z.leb_gt in H
  | H : (_ <? _) = true |- _ => apply Z.ltb_lt in H
  | H : (_ <? _) = false |- _ => apply Z.ltb_ge in H
  end.

(** Splits the first [if] or [match] of the goal or of a hypothesis. *)
Ltac split_case :=
  match goal with
  | |- context [match ?x with _ => _ end] => destruct x eqn:?
  | H : context [match ?x with _ => _ end] |- _ => destruct x eqn:?
  end.

Ltac go := repeat (simp_ok; simplify_eq/=; try split_case); simp_ok; eauto with sieun.

(** ** ASCII strings

    The source's strings are sequences of UTF-16 code units.  Every text the
    modelled grammars give a meaning to is ASCII, and a unit above 255 matches
    none of their classes, so strings of 8-bit units are enough. *)

Abbreviation chars := (list Ascii.ascii).
Definition to_chars (s : string) : chars := String.list_ascii_of_string s.
Definition of_chars (l : chars) : string := String.string_of_list_ascii l.

Lemma of_to_chars s : of_chars (to_chars s) = s.
Proof. apply String.string_of_list_ascii_of_string. Qed.
Lemma to_of_chars l : to_chars (of_chars l) = l.
Proof. apply String.list_ascii_of_string_of_list_ascii. Qed.

Definition code (c : Ascii.ascii) : Z := Z.of_N (Ascii.N_of_ascii c).

(** [\s]: tab, line feed, vertical tab, form feed, return, space, no-break space. *)
Definition is_space (c : Ascii.ascii) : bool :=
  ((9 <=? code c) && (code c <=? 13)) || (code c =? 32) || (code c =? 160).
(** [\d]. *)
Definition is_digit (c : Ascii.ascii) : bool := (48 <=? code c) && (code c <=? 57).
(** [toLowerCase] of one unit (ASCII letters only). *)
Definition lower (c : Ascii.ascii) : Ascii.ascii :=
  if (65 <=? code c) && (code c <=? 90) then Ascii.ascii_of_N (Z.to_N (code c + 32)) else c.

Fixpoint drop_while {A} (p : A -> bool) (l : list A) : list A :=
  match l with [] => [] | x :: r => if p x then drop_while p r else l end.
Fixpoint take_while {A} (p : A -> bool) (l : list A) : list A :=
  match l with [] => [] | x :: r => if p x then x :: take_while p r else [] end.

Lemma take_drop_while {A} p (l : list A) : take_while p l ++ drop_while p l = l.
Proof. induction l; cbn; [done|]. destruct (p a); cbn; congruence. Qed.

Lemma take_while_app {A} p (l r : list A) :
  forallb p l = true -> (forall x, head r = Some x -> p x = false) ->
  take_while p (l ++ r) = l /\ drop_while p (l ++ r) = r.
Proof.
  induction l as [|a l IH]; cbn; intros Hl Hr.
  - destruct r as [|x r]; cbn; [done|]. by rewrite (Hr x eq_refl).
  - apply andb_true_iff in Hl as [-> Hl]. destruct (IH Hl Hr) as [-> ->]. done.
Qed.

(** [String.prototype.trim]. *)
Definition trim_chars (l : chars) : chars := reverse (drop_while is_space (reverse (drop_while is_space l))).
Definition trim (s : string) : string := of_chars (trim_chars (to_chars s)).
(** [text.replace(/\s+/g, " ")]. *)
Fixpoint collapse (inside : bool) (l : chars) : chars :=
  match l with
  | [] => []
  | c :: r => if is_space c then if inside then collapse true r else " "%char :: collapse true r else c :: collapse false r
  end.
Definition to_lower (s : string) : string := of_chars (map lower (to_chars s)).

Lemma trim_chars_id l c d :
  head l = Some c -> last l = Some d -> is_space c = false -> is_space d = false -> trim_chars l = l.
Proof.
  intros Hc Hd Hsc Hsd. unfold trim_chars. destruct l as [|a l]; [done|]. cbn in Hc. simplify_eq.
  cbn [drop_while]. rewrite Hsc. rewrite <- (reverse_involutive (c :: l)) in Hd.
  destruct (reverse (c :: l)) as [|e r] eqn:E.
  - by apply (f_equal length) in E; rewrite length_reverse in E.
  - rewrite reverse_cons, last_snoc in Hd. simplify_eq. cbn [drop_while]. by rewrite Hsd, <- E, reverse_involutive.
Qed.

Fixpoint starts_with {A} `{EqDecision A} (p l : list A) : bool :=
  match p, l with
  | [], _ => true
  | c :: p', d :: l' => bool_decide (c = d) && starts_with p' l'
  | _, _ => false
  end.
Definition ends_with (p l : chars) : bool := starts_with (reverse p) (reverse l).

(** Case-insensitive equality with a lower-case literal, the [i] flag. *)
Definition eq_ci (l : chars) (lit : string) : bool := bool_decide (map lower l = to_chars lit).

(** [s.split(c)] for a one-unit separator; never empty. *)
Fixpoint split_on (c : Ascii.ascii) (l : chars) : list chars :=
  match l with
  | [] => [[]]
  | d :: r =>
      if bool_decide (d = c) then [] :: split_on c r
      else match split_on c r with [] => [[d]] | w :: ws => (d :: w) :: ws end
  end.

(** [parts.join(c)] for a one-unit separator. *)
Fixpoint join_with (c : Ascii.ascii) (ws : list chars) : chars :=
  match ws with
  | [] => []
  | [w] => w
  | w :: ws' => w ++ c :: join_with c ws'
  end.

Lemma split_on_nonempty c l : split_on c l <> [].
Proof. destruct l; cbn; [done|]. case_bool_decide; [done|]. by destruct (split_on c l). Qed.

(** Joining what a split made gives the text back. *)
Lemma join_split c l : join_with c (split_on c l) = l.
Proof.
  induction l as [|d l IH]; [done|]. cbn. case_bool_decide as Hd.
  - subst. pose proof (split_on_nonempty c l). destruct (split_on c l); [done|]. cbn in *. congruence.
  - pose proof (split_on_nonempty c l). destruct (split_on c l) as [|w [|w' ws]]; cbn in *; congruence.
Qed.

(** Splitting what a join made gives the parts back, when no part holds the separator. *)
Lemma split_join c ws :
  ws <> [] -> Forall (fun w => c ∉ w) ws -> split_on c (join_with c ws) = ws.
Proof.
  intros Hne HF. induction HF as [|w ws Hw HF IH]; [done|]. clear Hne.
  assert (Hpre : forall w r, c ∉ w ->
    split_on c (w ++ r) = match split_on c r with [] => [w] | x :: xs => (w ++ x) :: xs end).
  { clear. induction w as [|d w IH]; intros r Hc; cbn.
    - pose proof (split_on_nonempty c r). by destruct (split_on c r).
    - rewrite bool_decide_eq_false_2 by set_solver. rewrite IH by set_solver.
      pose proof (split_on_nonempty c r). by destruct (split_on c r). }
  destruct ws as [|w' ws].
  - cbn. rewrite <- (app_nil_r w) at 1. rewrite Hpre by done. cbn. by rewrite app_nil_r.
  - change (join_with c (w :: w' :: ws)) with (w ++ c :: join_with c (w' :: ws)).
    rewrite Hpre by done. cbn [split_on]. rewrite bool_decide_eq_true_2 by done.
    rewrite IH by done. by rewrite app_nil_r.
Qed.

(** The value of a run of decimal digits, [Number.parseInt(s, 10)]. *)
Definition digit_value (c : Ascii.ascii) : Z := code c - 48.
Definition digits_value (l : chars) : Z := fold_left (fun acc c => 10 * acc + digit_value c) l 0.

Lemma is_digit_value c : is_digit c = true -> 0 <= digit_value c <= 9.
Proof. unfold is_digit, digit_value. intros. simp_ok. lia. Qed.

Lemma digits_value_nonneg l : forallb is_digit l = true -> 0 <= digits_value l.
Proof.
  unfold digits_value. intros Hl.
  assert (forall a, 0 <= a -> 0 <= fold_left (fun acc c => 10 * acc + digit_value c) l a) as H; [|apply H; lia].
  induction l as [|c l IH]; cbn in *; intros a Ha; [done|].
  simp_ok. apply IH; [done|]. pose proof (is_digit_value c). intuition lia.
Qed.

(** ** Insertion-ordered maps, JavaScript's [Map]

    [set] keeps the place of a key that is there and appends a new one, [del]
    removes it, so the list is the iteration order. *)

Module OMap.
Section OMap.
Context {K V : Type} `{EqDecision K}.
Implicit Types (m : list (K * V)) (k : K) (v : V).

Fixpoint get k m : option V :=
  match m with
  | [] => None
  | (k', v) :: r => if decide (k = k') then Some v else get k r
  end.
Fixpoint set k v m : list (K * V) :=
  match m with
  | [] => [(k, v)]
  | (k', w) :: r => if decide (k = k') then (k, v) :: r else (k', w) :: set k v r
  end.
Fixpoint del k m : list (K * V) :=
  match m with
  | [] => []
  | (k', w) :: r => if decide (k = k') then del k r else (k', w) :: del k r
  end.
Definition has k m : bool := match get k m with Some _ => true | None => false end.
Definition keys m : list K := map fst m.
Definition vals m : list V := map snd m.

Lemma get_set_eq k v m : get k (set k v m) = Some v.
Proof. induction m as [|[k' w] m IH]; cbn; repeat (case_decide; cbn); done. Qed.
Lemma get_set_ne k k' v m : k <> k' -> get k (set k' v m) = get k m.
Proof. intros Hk. induction m as [|[k'' w] m IH]; cbn; repeat (case_decide; cbn); congruence. Qed.
Lemma get_set k k' v m : get k (set k' v m) = if decide (k = k') then Some v else get k m.
Proof. case_decide; [subst; apply get_set_eq|by apply get_set_ne]. Qed.
Lemma get_del_eq k m : get k (del k m) = None.
Proof. induction m as [|[k' w] m IH]; cbn; repeat (case_decide; cbn); congruence. Qed.
Lemma get_del_ne k k' m : k <> k' -> get k (del k' m) = get k m.
Proof. intros Hk. induction m as [|[k'' w] m IH]; cbn; repeat (case_decide; cbn); congruence. Qed.
Lemma get_del k k' m : get k (del k' m) = if decide (k = k') then None else get k m.
Proof. case_decide; [subst; apply get_del_eq|by apply get_del_ne]. Qed.

Lemma get_None k m : get k m = None <-> k ∉ keys m.
Proof.
  induction m as [|[k' w] m IH]; cbn; [set_solver|].
  case_decide; subst; [set_solver|]. rewrite IH. set_solver.
Qed.
Lemma get_elem k v m : get k m = Some v -> (k, v) ∈ m.
Proof. induction m as [|[k' w] m IH]; cbn; [done|]. case_decide; intros; simplify_eq; set_solver. Qed.
Lemma elem_get k v m : NoDup (keys m) -> (k, v) ∈ m -> get k m = Some v.
Proof.
  induction m as [|[k' w] m IH]; cbn; [set_solver|].
  intros Hnd [Heq|Hin]%elem_of_cons; apply NoDup_cons in Hnd as [Hn Hnd].
  - simplify_eq. by rewrite decide_True.
  - rewrite decide_False; [by apply IH|]. intros ->. apply Hn, list_elem_of_fmap. by exists (k', v).
Qed.

Lemma elem_keys_set k k' v m : k ∈ keys (set k' v m) <-> k = k' \/ k ∈ keys m.
Proof.
  induction m as [|[k'' w] m IH]; cbn; [set_solver|].
  case_decide; subst; cbn; [set_solver|]. rewrite !elem_of_cons, IH. naive_solver.
Qed.
Lemma elem_keys_del k k' m : k ∈ keys (del k' m) <-> k <> k' /\ k ∈ keys m.
Proof.
  induction m as [|[k'' w] m IH]; cbn; [set_solver|].
  case_decide; subst; cbn; rewrite ?elem_of_cons, IH; naive_solver.
Qed.
Lemma set_NoDup k v m : NoDup (keys m) -> NoDup (keys (set k v m)).
Proof.
  induction m as [|[k' w] m IH]; cbn; intros Hnd.
  - apply NoDup_singleton.
  - apply NoDup_cons in Hnd as [Hn Hnd]. case_decide; subst; cbn; apply NoDup_cons; [done|].
    split; [|by apply IH]. fold (keys (set k v m)). rewrite elem_keys_set. naive_solver.
Qed.
Lemma del_NoDup k m : NoDup (keys m) -> NoDup (keys (del k m)).
Proof.
  induction m as [|[k' w] m IH]; cbn; intros Hnd; [done|].
  apply NoDup_cons in Hnd as [Hn Hnd]. case_decide; subst; cbn; [by apply IH|].
  apply NoDup_cons. split; [|by apply IH]. fold (keys (del k m)). rewrite elem_keys_del. naive_solver.
Qed.
Lemma set_app_new k v m : get k m = None -> set k v m = m ++ [(k, v)].
Proof.
  induction m as [|[k' w] m IH]; cbn; [done|]. case_decide; [done|]. intros. by rewrite IH.
Qed.
Lemma set_length k v m : length (set k v m) = if has k m then length m else S (length m).
Proof.
  unfold has. induction m as [|[k' w] m IH]; cbn; [done|].
  case_decide; cbn; [done|]. rewrite IH. by destruct (get k m).
Qed.
Lemma del_not_in k m : get k m = None -> del k m = m.
Proof. induction m as [|[k' w] m IH]; cbn; [done|]. case_decide; [done|]. intros. by rewrite IH. Qed.
Lemma elem_set k v m x : x ∈ set k v m -> x = (k, v) \/ x ∈ m.
Proof.
  induction m as [|[k' w'] m IH]; cbn; intros H.
  - apply elem_of_cons in H as [H|H]; auto.
  - case_decide; apply elem_of_cons in H as [H|H]; rewrite elem_of_cons; auto. destruct (IH H); auto.
Qed.
Lemma elem_del k m x : x ∈ del k m -> x ∈ m.
Proof.
  induction m as [|[k' w'] m IH]; cbn; intros H; [done|].
  case_decide; [right; auto|]. apply elem_of_cons in H as [H|H]; rewrite elem_of_cons; auto.
Qed.
End OMap.
#[global] Arguments get {K V _} k m : simpl nomatch.
#[global] Arguments set {K V _} k v m : simpl nomatch.
#[global] Arguments del {K V _} k m : simpl nomatch.
End OMap.

(** ** [Array.prototype.sort]: a stable insertion sort by a comparator

    [le x y] is [compare(x, y) <= 0]. *)

Section Sort.
Context {A : Type} (le : A -> A -> bool).

Fixpoint insert_by (x : A) (l : list A) : list A :=
  match l with
  | [] => [x]
  | y :: r => if le x y then x :: l else y :: insert_by x r
  end.
Definition sort_by (l : list A) : list A := foldr insert_by [] l.

Lemma insert_by_perm x l : Permutation (insert_by x l) (x :: l).
Proof. induction l as [|y l IH]; cbn; [done|]. destruct (le x y); [done|]. rewrite IH. constructor. Qed.
Lemma sort_by_perm l : Permutation (sort_by l) l.
Proof. induction l as [|x l IH]; cbn; [done|]. by rewrite insert_by_perm, IH. Qed.
Lemma elem_sort_by x l : x ∈ sort_by l <-> x ∈ l.
Proof. by rewrite sort_by_perm. Qed.
Lemma sort_by_length l : length (sort_by l) = length l.
Proof. apply Permutation_length, sort_by_perm. Qed.

Context (Htotal : forall x y, le x y = false -> le y x = true).
Context (Htrans : forall x y z, le x y = true -> le y z = true -> le x z = true).

Lemma insert_by_sorted x l : StronglySorted (fun a b => le a b = true) l ->
  StronglySorted (fun a b => le a b = true) (insert_by x l).
Proof.
  induction 1 as [|y l Hl IH Hy]; cbn; [repeat constructor|].
  destruct (le x y) eqn:E.
  - constructor; [by constructor|]. constructor; [done|].
    eapply Forall_impl; [exact Hy|]. cbn. intros z Hz. by apply (Htrans x y z).
  - constructor; [done|]. rewrite insert_by_perm. constructor; [by apply Htotal|done].
Qed.
(** A sorted array is sorted, and by [sort_by_perm] holds the same elements. *)
Lemma sort_by_sorted l : StronglySorted (fun a b => le a b = true) (sort_by l).
Proof. induction l; cbn; [constructor|]. by apply insert_by_sorted. Qed.
End Sort.

(** ** Lists *)

(** The index of the first element with [p], [Array.prototype.findIndex]. *)
Fixpoint find_index {A} (p : A -> bool) (l : list A) : option nat :=
  match l with
  | [] => None
  | x :: r => if p x then Some O else S <$> find_index p r
  end.

Lemma find_index_Some {A} (p : A -> bool) l i :
  find_index p l = Some i -> exists x, l !! i = Some x /\ p x = true.
Proof.
  revert i. induction l as [|x l IH]; cbn; intros i; [done|].
  destruct (p x) eqn:E; [naive_solver|].
  destruct (find_index p l) as [j|]; cbn; intros; simplify_eq. cbn. by apply IH.
Qed.

Lemma nodup_key {A B} (f : A -> B) l x y : NoDup (map f l) -> x ∈ l -> y ∈ l -> f x = f y -> x = y.
Proof.
  induction l as [|z l IH]; cbn; [intros _ Hx; by apply elem_of_nil in Hx|]. intros [Hn Hnd]%NoDup_cons Hx Hy Hf.
  assert (forall w, w ∈ l -> f z = f w -> False) as Hno by (intros w Hw Hz; apply Hn, list_elem_of_fmap; by exists w).
  apply elem_of_cons in Hx as [->|Hx], Hy as [->|Hy]; [done|by destruct (Hno y)|by destruct (Hno x)|by apply IH].
Qed.

(** [[...new Set(l)]]: the first of each value, in order. *)
Definition unique {A} `{EqDecision A} (l : list A) : list A := reverse (remove_dups (reverse l)).
Lemma elem_unique {A} `{EqDecision A} (l : list A) x : x ∈ unique l <-> x ∈ l.
Proof. unfold unique. by rewrite elem_of_reverse, elem_of_remove_dups, elem_of_reverse. Qed.
Lemma NoDup_unique {A} `{EqDecision A} (l : list A) : NoDup (unique l).
Proof. unfold unique. rewrite reverse_Permutation. apply NoDup_remove_dups. Qed.

(** The last element, [a.at(-1)]. *)
Definition last_of {A} (l : list A) : option A := last l.

(** [String(n)] of an integer. *)
Definition string_of_Z (n : Z) : string := pretty n.

Infix "+:+" := String.append (at level 60, right associativity) : string_scope.

Lemma to_chars_app a b : to_chars (a +:+ b)%string = to_chars a ++ to_chars b.
Proof. induction a as [|c a IH]; [done|]. change (to_chars (String.String c a +:+ b)%string) with (c :: to_chars (a +:+ b)%string). by rewrite IH. Qed.

(** A line feed, and the quote character. *)
Definition nl : string := String.String "010"%char String.EmptyString.
Definition dquote : string := String.String "034"%char String.EmptyString.

(** The decimal text of a number reads back as it. *)

Lemma digit_char r : (r < 10)%N -> is_digit (pretty_N_char r) = true /\ digit_value (pretty_N_char r) = Z.of_N r.
Proof.
  intros Hr. assert (r = 0 \/ r = 1 \/ r = 2 \/ r = 3 \/ r = 4 \/ r = 5 \/ r = 6 \/ r = 7 \/ r = 8 \/ r = 9)%N as H by lia.
  by destruct H as [->|[->|[->|[->|[->|[->|[->|[->|[->| ->]]]]]]]]].
Qed.
Lemma pretty_go_digits x s : exists ds, to_chars (pretty_N_go x s) = ds ++ to_chars s /\ forallb is_digit ds = true /\ digits_value ds = Z.of_N x /\ ((0 < x)%N -> ds <> []).
Proof.
  revert s. induction (N.lt_wf_0 x) as [x _ IH]. intros s. destruct (decide (x = 0)%N) as [->|Hx].
  - exists []. rewrite pretty_N_go_0. split_and!; [done|done|done|lia].
  - rewrite pretty_N_go_step by lia. destruct (IH (x `div` 10)%N ltac:(apply N.div_lt; lia) (String.String (pretty_N_char (x `mod` 10)) s)) as (ds & H1 & H2 & H3 & _).
    destruct (digit_char (x `mod` 10)) as [Hd Hv]; [apply N.mod_lt; lia|].
    exists (ds ++ [pretty_N_char (x `mod` 10)%N]). rewrite H1, <- app_assoc. split_and!.
    + done.
    + rewrite forallb_app, H2. cbn. by rewrite Hd.
    + unfold digits_value in *. rewrite fold_left_app, H3. cbn [fold_left]. rewrite Hv. pose proof (N.div_mod' x 10). lia.
    + intros _ ?%(f_equal length). rewrite length_app in *. cbn in *. lia.
Qed.
Lemma string_of_Z_digits n : 0 <= n -> forallb is_digit (to_chars (string_of_Z n)) = true /\ digits_value (to_chars (string_of_Z n)) = n /\ to_chars (string_of_Z n) <> [].
Proof.
  intros Hn. destruct n as [|x|x]; [done| |lia]. change (string_of_Z (Z.pos x)) with (pretty_N_go (N.pos x) String.EmptyString).
  destruct (pretty_go_digits (N.pos x) String.EmptyString) as (ds & -> & H2 & H3 & H4). cbn [to_chars String.list_ascii_of_string]. rewrite app_nil_r. split_and!; [done|done|by apply H4].
Qed.

#[export] Hint Resolve OMap.get_set_eq OMap.get_del_eq OMap.set_NoDup OMap.del_NoDup : sieun.
