(* ===== verification/Json.v ===== *)
(** * JSON values

    A parsed JSON text as a tree, with its fields in the order of the text.  Numbers are rationals; two values
    compare as their [JSON.stringify] texts do, field by field in order. *)

From S2P Require Import Prelude.
From Stdlib Require Import QArith.QArith_base.
#[local] Open Scope string_scope.
#[local] Open Scope list_scope.
#[local] Open Scope Z_scope.

Inductive json := JNull | JBool (b : bool) | JNum (n : Q) | JStr (s : string) | JArr (l : list json) | JObj (fs : list (string * json)).

(** [value.field]. *)
Definition field (fs : list (string * json)) (k : string) : option json := OMap.get k fs.
(** [x ?? undefined]. *)
Definition not_null (v : option json) : option json := match v with Some JNull => None | _ => v end.

Lemma field_cons k k' v fs : field ((k', v) :: fs) k = if String.eqb k k' then Some v else field fs k.
Proof.
  unfold field. change (OMap.get k ((k', v) :: fs)) with (if decide (k = k') then Some v else OMap.get k fs).
  destruct (String.eqb_spec k k') as [->|Hne]; case_decide; congruence.
Qed.
(** Looks up the fields of an object whose names are literals. *)
Ltac lookups := repeat (rewrite field_cons; cbn [String.eqb Ascii.eqb Bool.eqb]).

Definition as_string (v : option json) : option string := match v with Some (JStr s) => Some s | _ => None end.
Definition as_object (v : option json) : option (list (string * json)) := match v with Some (JObj fs) => Some fs | _ => None end.
Definition as_array (v : option json) : option (list json) := match v with Some (JArr l) => Some l | _ => None end.

(** [JSON.stringify(a) === JSON.stringify(b)]. *)
Fixpoint json_eqb (a b : json) : bool :=
  let fix all (l r : list json) := match l, r with [], [] => true | x :: l, y :: r => json_eqb x y && all l r | _, _ => false end in
  let fix fields (l r : list (string * json)) :=
    match l, r with
    | [], [] => true
    | (k, x) :: l, (k', y) :: r => bool_decide (k = k') && json_eqb x y && fields l r
    | _, _ => false
    end in
  match a, b with
  | JNull, JNull => true
  | JBool a, JBool b => Bool.eqb a b
  | JNum a, JNum b => Qeq_bool a b
  | JStr a, JStr b => bool_decide (a = b)
  | JArr l, JArr r => all l r
  | JObj l, JObj r => fields l r
  | _, _ => false
  end.
Definition fields_eqb (l r : list (string * json)) : bool := json_eqb (JObj l) (JObj r).

(** [Number.isInteger] of a number, with the integer. *)
Definition integer_of (q : Q) : option Z := if Z.eqb (Qnum q mod Zpos (Qden q)) 0 then Some (Qnum q / Zpos (Qden q)) else None.
Lemma integer_of_Z z : integer_of (inject_Z z) = Some z.
Proof. unfold integer_of. cbn. by rewrite Z.mod_1_r, Z.div_1_r. Qed.

Section Ind.
Context (P : json -> Prop).
Context (Pnull : P JNull) (Pbool : forall b, P (JBool b)) (Pnum : forall q, P (JNum q)) (Pstr : forall s, P (JStr s)).
Context (Parr : forall l, Forall P l -> P (JArr l)) (Pobj : forall fs, Forall (fun f => P f.2) fs -> P (JObj fs)).
(** Induction with the hypothesis for every element and every field. *)
Fixpoint json_induction (v : json) : P v :=
  match v with
  | JNull => Pnull
  | JBool b => Pbool b
  | JNum q => Pnum q
  | JStr s => Pstr s
  | JArr l => Parr l ((fix all l := match l return Forall P l with [] => Forall_nil_2 _ | x :: l => Forall_cons_2 _ x l (json_induction x) (all l) end) l)
  | JObj fs => Pobj fs ((fix all l := match l return Forall (fun f => P f.2) l with [] => Forall_nil_2 _ | x :: l => Forall_cons_2 _ x l (json_induction x.2) (all l) end) fs)
  end.
End Ind.

Lemma json_eqb_refl v : json_eqb v v = true.
Proof.
  induction v as [| b | q | s | l IH | fs IH] using json_induction; cbn.
  - done.
  - by destruct b.
  - by apply Qeq_bool_refl.
  - by rewrite bool_decide_true.
  - induction IH as [|x l Hx _ IH]; [done|]. by rewrite Hx.
  - induction IH as [|[k x] l Hx _ IH]; [done|]. cbn in Hx. by rewrite bool_decide_true, Hx by done.
Qed.
