(* ===== verification/Schedule.v ===== *)
(** * The schedule grammar and the job record

    [packages/pi-host/src/schedule.ts]: the [Schedule] and [Job] records, the
    parsers of schedules, cron fields and [/heartbeat] arguments, the search for
    the next cron minute and the rule that defers a heartbeat on a busy session.

    A [Date] is its time value in milliseconds, and the ISO texts a job keeps
    are the instants they name ([toISOString] and [Date.parse] invert each other
    on them); [to_iso] keeps the one thing [toISOString] adds, the [RangeError]
    of an invalid date.  The host's clock reaches the code through [HostTime]:
    the local calendar fields of an instant, [setSeconds(0, 0)],
    [setMinutes(getMinutes() + 1)] and [Date.parse].  [utc] is the host whose
    zone is UTC, which the examples and witnesses run on. *)

From S2P Require Import Prelude.
Local Open Scope Z_scope.
Local Open Scope list_scope.

(** ** The host's clock *)

Class HostTime := {
  date_parse : string -> option Z;
  floor_minute : Z -> Z;
  next_minute : Z -> Z;
  minute_of : Z -> Z;
  hour_of : Z -> Z;
  date_of : Z -> Z;
  month_of : Z -> Z;
  weekday_of : Z -> Z
}.

(** A host zone of whole-minute offsets with no clock change in the range used. *)
Class HostTimeLaws `{HostTime} := {
  floor_minute_spec t : floor_minute t = t - t mod 60000;
  next_minute_spec t : next_minute t = t + 60000
}.

(** ** Data *)

Inductive JobStatus := Active | Paused | Completed | Cancelled.
Inductive JobSource := SrcCron | SrcHeartbeat | SrcRlmHeartbeat.
Inductive DeliveryMode := Steer | FollowUp.
Inductive ScheduleKind := KOnce | KCron | KInterval.
Inductive RuntimeKind := TopLevel | Subagent.

#[export] Instance JobStatus_eq : EqDecision JobStatus.
Proof. solve_decision. Defined.
#[export] Instance JobSource_eq : EqDecision JobSource.
Proof. solve_decision. Defined.
#[export] Instance DeliveryMode_eq : EqDecision DeliveryMode.
Proof. solve_decision. Defined.
#[export] Instance ScheduleKind_eq : EqDecision ScheduleKind.
Proof. solve_decision. Defined.
#[export] Instance RuntimeKind_eq : EqDecision RuntimeKind.
Proof. solve_decision. Defined.

Record Schedule := mkSchedule {
  kind : ScheduleKind;
  expression : string;
  intervalMs : option Z
}.

#[export] Instance Schedule_eq : EqDecision Schedule.
Proof. solve_decision. Defined.

Record Job := mkJob {
  job_id : string;
  job_status : JobStatus;
  job_source : JobSource;
  job_runtimeKind : option RuntimeKind;
  job_deliveryMode : option DeliveryMode;
  job_activeSessionId : string;
  job_sessionId : string;
  job_sessionFile : string;
  job_cwd : string;
  job_label : option string;
  job_prompt : string;
  job_schedule : Schedule;
  job_createdAt : Z;
  job_updatedAt : Z;
  job_nextRunAt : option Z;
  job_lastRunAt : option Z;
  job_lastSkippedAt : option Z;
  job_lastError : option string;
  job_runCount : Z;
  job_claimedAt : option Z;
  job_rootSessionId : option string
}.

#[export] Instance Job_eq : EqDecision Job.
Proof. solve_decision. Defined.

Definition DEFAULT_HEARTBEAT_SCHEDULE : string := "every 5m".
Definition SECOND : Z := 1000.
Definition MINUTE : Z := 60000.

Definition isHeartbeat (job : Job) : bool :=
  bool_decide (job_source job = SrcHeartbeat) || bool_decide (job_source job = SrcRlmHeartbeat).
Definition isLive (job : Job) : bool :=
  bool_decide (job_status job = Active) || bool_decide (job_status job = Paused).

(** The time values an ECMAScript [Date] holds. *)
Definition max_time : Z := 8640000000000000.
(** [date.toISOString()]: a [RangeError] for an invalid date. *)
Definition to_iso (t : Z) : result Z :=
  if (- max_time <=? t) && (t <=? max_time) then Ok t else Throw "Invalid time value".

(** ** Cron fields *)

Definition number (value : chars) (min max : Z) : result Z :=
  if negb (match value with [] => false | _ => forallb is_digit value end)
  then Throw ("Invalid cron number: " +:+ of_chars value)
  else
    let parsed := digits_value value in
    if (parsed <? min) || (max <? parsed)
    then Throw ("Cron number out of range: " +:+ of_chars value)
    else Ok parsed.

(** [for (let value = start; value <= end; value += step) values.add(value)]. *)
Fixpoint step_loop (fuel : nat) (value stop step : Z) : list Z :=
  match fuel with
  | O => []
  | S f => if value <=? stop then value :: step_loop f (value + step) stop step else []
  end.

(** One comma part of a field: [*], [a-b] or [a], with an optional [/step]. *)
Definition field_part (text part : chars) (min max : Z) : result (list Z) :=
  match part with
  | [] => Throw ("Invalid cron field: " +:+ of_chars text)
  | _ =>
      let ps := split_on "/"%char part in
      let range := hd [] ps in
      step ← match tl ps with [] => Ok 1 | stepText :: _ => number stepText 1 max end;
      '(start, stop) ←
        (if bool_decide (range = ["*"%char]) then Ok (min, max)
         else if existsb (fun c => bool_decide (c = "-"%char)) range then
           let ab := split_on "-"%char range in
           a ← number (hd [] ab) min max;
           b ← number (hd [] (tl ab)) min max;
           if b <? a then Throw ("Invalid cron range: " +:+ of_chars range) else Ok (a, b)
         else v ← number range min max; Ok (v, v));
      Ok (step_loop (Z.to_nat (stop - start + 1)) start stop step)
  end.

Fixpoint field_parts (text : chars) (parts : list chars) (min max : Z) : result (list Z) :=
  match parts with
  | [] => Ok []
  | p :: ps => vs ← field_part text p min max; ws ← field_parts text ps min max; Ok (vs ++ ws)
  end.

Definition field (text : chars) (min max : Z) : result (list Z) :=
  field_parts text (split_on ","%char text) min max.

Record CronFields := mkCron {
  minute : list Z; hour : list Z; day : list Z; month : list Z; weekday : list Z
}.

(** [s.trim().split(/\s+/)] of a trimmed text. *)
Fixpoint words_fuel (fuel : nat) (l : chars) : list chars :=
  match fuel with
  | O => []
  | S f =>
      let w := take_while (fun c => negb (is_space c)) l in
      match drop_while (fun c => negb (is_space c)) l with
      | [] => [w]
      | r => w :: words_fuel f (drop_while is_space r)
      end
  end.
Definition words (l : chars) : list chars := words_fuel (S (length l)) l.

Definition CRON_USAGE : string :=
  "Unsupported cron schedule. Use 'in 10m', 'at <ISO date>', @hourly, or five fields: minute hour day month weekday".

Definition parseCron (expr : string) : result CronFields :=
  match words (trim_chars (to_chars expr)) with
  | [mi; ho; da; mo; wd] =>
      mi ← field mi 0 59; ho ← field ho 0 23; da ← field da 1 31; mo ← field mo 1 12; wd ← field wd 0 7;
      Ok (mkCron mi ho da mo wd)
  | _ => Throw CRON_USAGE
  end.

Definition has (vs : list Z) (v : Z) : bool := existsb (Z.eqb v) vs.

Section WithHost.
Context `{HostTime}.

(** The test of [nextCronRun]'s loop body. *)
Definition cron_matches (f : CronFields) (t : Z) : bool :=
  if has (minute f) (minute_of t) then
    if has (hour f) (hour_of t) then
      if has (day f) (date_of t) then
        if has (month f) (month_of t + 1) then
          has (weekday f) (weekday_of t) || ((weekday_of t =? 0) && has (weekday f) 7)
        else false
      else false
    else false
  else false.

Fixpoint cron_search (fuel : nat) (f : CronFields) (deadline candidate : Z) : option Z :=
  match fuel with
  | O => None
  | S n =>
      if candidate <=? deadline then
        if cron_matches f candidate then Some candidate
        else cron_search n f deadline (next_minute candidate)
      else None
  end.

(** The minutes of the search window: the loop runs at most this often. *)
Definition cron_window : Z := 366 * 24 * 60.

Definition nextCronRun (expr : string) (after : Z) : result Z :=
  f ← parseCron expr;
  let candidate := next_minute (floor_minute after) in
  let deadline := candidate + cron_window * MINUTE in
  match cron_search (Z.to_nat (cron_window + 1)) f deadline candidate with
  | Some t => Ok t
  | None => Throw ("Cron schedule did not match within one year: " +:+ expr)
  end.

(** ** Schedules *)

Definition CRON_ALIASES : list (string * string) :=
  [("@hourly", "0 * * * *"); ("@daily", "0 0 * * *"); ("@weekly", "0 0 * * 0"); ("@monthly", "0 0 1 * *")]%string.

Definition stripQuotes (value : chars) : chars :=
  let quoted q := bool_decide (head value = Some q) && bool_decide (last value = Some q) in
  if (2 <=? length value)%nat && (quoted "034"%char || quoted "'"%char)
  then removelast (tl value) else value.

Definition minute_units : list string := ["m"; "min"; "mins"; "minute"; "minutes"]%string.
Definition hour_units : list string := ["h"; "hr"; "hrs"; "hour"; "hours"]%string.
Definition day_units : list string := ["d"; "day"; "days"]%string.
Definition second_units : list string := ["s"; "sec"; "secs"; "second"; "seconds"]%string.

(** [/^(?:<kw>)\s+(\d+)\s*(<units>)$/i]: the number and the lower-case unit. *)
Definition match_amount (kws units : list string) (text : chars) : option (Z * chars) :=
  let after_kw := omap (fun kw =>
    let n := String.length kw in
    if eq_ci (take n text) kw then Some (drop n text) else None) kws in
  match after_kw with
  | (c :: r) :: _ =>
      if is_space c then
        let rest := drop_while is_space r in
        let ds := take_while is_digit rest in
        let unit := map lower (drop_while is_space (drop_while is_digit rest)) in
        if negb (bool_decide (ds = [])) && existsb (fun u => bool_decide (unit = to_chars u)) units
        then Some (digits_value ds, unit) else None
      else None
  | _ => None
  end.

Definition unit_starts (c : Ascii.ascii) (unit : chars) : bool := bool_decide (head unit = Some c).

Definition parseSchedule (input : string) (now : Z) : result (Schedule * Z) :=
  let text := stripQuotes (trim_chars (to_chars input)) in
  let expr := of_chars text in
  if bool_decide (text = []) then Throw "Cron schedule cannot be empty"
  else match match_amount ["in"%string] (minute_units ++ hour_units ++ day_units) text with
  | Some (n, unit) =>
      let ms := if unit_starts "m"%char unit then MINUTE
                else if unit_starts "h"%char unit then 60 * MINUTE else 24 * 60 * MINUTE in
      Ok (mkSchedule KOnce expr None, now + n * ms)
  | None =>
  match match_amount ["every"; "each"]%string (second_units ++ minute_units ++ hour_units) text with
  | Some (n, unit) =>
      let intervalMs := n * (if unit_starts "s"%char unit then SECOND
                             else if unit_starts "m"%char unit then MINUTE else 60 * MINUTE) in
      if intervalMs <? 10 * SECOND then Throw "Recurring interval must be at least 10 seconds"
      else Ok (mkSchedule KInterval expr (Some intervalMs), now + intervalMs)
  | None =>
  if eq_ci (take 3 text) "at " then
    match date_parse (of_chars (trim_chars (drop 3 text))) with
    | None => Throw "Invalid one-shot schedule. Use: at <ISO date>"
    | Some when =>
        if when <=? now then Throw "One-shot schedule must be in the future"
        else Ok (mkSchedule KOnce expr None, when)
    end
  else
    let expr := nullish (OMap.get expr CRON_ALIASES) expr in
    t ← nextCronRun expr now; Ok (mkSchedule KCron expr None, t)
  end end.

(** The next tick after [after]; [None] for a one-shot schedule. *)
Definition nextRunAfter (s : Schedule) (after : Z) : result (option Z) :=
  match kind s with
  | KOnce => Ok None
  | KInterval =>
      match intervalMs s with
      | Some ms => if ms <=? 0 then Throw ("Invalid interval schedule: " +:+ expression s) else Ok (Some (after + ms))
      | None => Throw ("Invalid interval schedule: " +:+ expression s)
      end
  | KCron => t ← nextCronRun (expression s) after; Ok (Some t)
  end.

End WithHost.

(** ** The UTC host *)

Module Utc.
  (** The civil date of a day number counted from 1970-01-01: year, month from 1, day from 1. *)
Definition civil (days : Z) : Z * Z * Z :=
  let z := days + 719468 in
  let era := z / 146097 in
  let doe := z - era * 146097 in
  let yoe := (doe - doe / 1460 + doe / 36524 - doe / 146096) / 365 in
  let doy := doe - (365 * yoe + yoe / 4 - yoe / 100) in
  let mp := (5 * doy + 2) / 153 in
  let d := doy - (153 * mp + 2) / 5 + 1 in
  let m := if mp <? 10 then mp + 3 else mp - 9 in
  (yoe + era * 400 + (if m <=? 2 then 1 else 0), m, d).
Definition day_of (t : Z) : Z := t / 86400000.

(** [date.toISOString()] of a valid date of the years 0 to 9999. *)
Definition pad (width : nat) (n : Z) : string :=
  let d := string_of_Z n in of_chars (repeat "0"%char (width - String.length d)) +:+ d.
Definition iso (t : Z) : string :=
  let '(y, m, d) := civil (day_of t) in
  pad 4 y +:+ "-" +:+ pad 2 m +:+ "-" +:+ pad 2 d +:+ "T" +:+ pad 2 ((t / 3600000) mod 24) +:+ ":" +:+
  pad 2 ((t / 60000) mod 60) +:+ ":" +:+ pad 2 ((t / 1000) mod 60) +:+ "." +:+ pad 3 (t mod 1000) +:+ "Z".

(** A host whose zone is UTC; its [Date.parse] is a parameter. *)
Definition host (parse : string -> option Z) : HostTime := {|
  date_parse := parse;
  floor_minute t := t - t mod 60000;
  next_minute t := t + 60000;
  minute_of t := (t / 60000) mod 60;
  hour_of t := (t / 3600000) mod 24;
  date_of t := (civil (day_of t)).2;
  month_of t := (civil (day_of t)).1.2 - 1;
  weekday_of t := (day_of t + 4) mod 7
|}.
#[export] Instance laws parse : @HostTimeLaws (host parse).
Proof. split; reflexivity. Qed.
End Utc.

(** ** Heartbeats *)

Definition interval_units : list string := second_units ++ minute_units ++ hour_units.

(** [/^\d+\s*(<units>)$/i.test(text)]. *)
Definition is_bare_interval (text : chars) : bool :=
  negb (bool_decide (take_while is_digit text = [])) &&
  existsb (eq_ci (drop_while is_space (drop_while is_digit text))) interval_units.

Definition normalizeHeartbeatSchedule (input : option string) : string :=
  match trim_chars <$> (to_chars <$> input) with
  | None | Some [] => DEFAULT_HEARTBEAT_SCHEDULE
  | Some text => if is_bare_interval text then "every " +:+ of_chars text else of_chars text
  end.

(** A JSON value as a payload field holds it. *)
Inductive json :=
| JUndefined | JNull | JBool (b : bool) | JNum (n : Z) | JFrac | JStr (s : string) | JOther.

Definition DELIVERY_MODE_USAGE : string :=
  "Heartbeat delivery mode must be " +:+ dquote +:+ "steer" +:+ dquote +:+ " or " +:+ dquote +:+ "follow_up" +:+ dquote.

Definition parseDeliveryMode (value : json) : result (option DeliveryMode) :=
  match value with
  | JUndefined | JNull => Ok None
  | JStr s => if bool_decide (s = "steer"%string) then Ok (Some Steer)
              else if bool_decide (s = "follow_up"%string) then Ok (Some FollowUp)
              else Throw DELIVERY_MODE_USAGE
  | _ => Throw DELIVERY_MODE_USAGE
  end.

Inductive HeartbeatCommand :=
| CmdStatus | CmdPause | CmdResume | CmdClear
| CmdSet (schedule instruction : string) (deliveryMode : option DeliveryMode).

#[export] Instance HeartbeatCommand_eq : EqDecision HeartbeatCommand.
Proof. solve_decision. Defined.

Definition is_word (c : Ascii.ascii) : bool :=
  is_digit c || ((97 <=? code (lower c)) && (code (lower c) <=? 122)) || (code c =? 95).

(** The flags [--steer], [--follow-up] and [--follow_up], in any letter case. *)
Definition flag_words : list (string * DeliveryMode) :=
  [("--steer", Steer); ("--follow-up", FollowUp); ("--follow_up", FollowUp)]%string.

(** The [lead] match of [takeFlags]: a flag, then spaces or the end, then the rest. *)
Definition lead_flag (rest : chars) : option (DeliveryMode * chars) :=
  head (omap (fun '(w, mode) =>
    let n := String.length w in
    if eq_ci (take n rest) w then
      match drop n rest with
      | [] => Some (mode, [])
      | c :: r => if is_space c then Some (mode, drop_while is_space r) else None
      end
    else None) flag_words).

(** The [trail] match: spaces and a flag at the end; the prefix still holds the spaces, which the caller trims. *)
Definition trail_flag (rest : chars) : option (DeliveryMode * chars) :=
  head (omap (fun '(w, mode) =>
    let n := (length rest - String.length w)%nat in
    if (String.length w <? length rest)%nat && eq_ci (drop n rest) w then
      match last (take n rest) with
      | Some c => if is_space c then Some (mode, take n rest) else None
      | None => None
      end
    else None) flag_words).

(** [takeFlags]: strips leading and trailing flags, the last one read deciding. *)
Fixpoint takeFlags (fuel : nat) (mode : option DeliveryMode) (rest : chars) : option DeliveryMode * chars :=
  match fuel with
  | O => (mode, rest)
  | S f =>
      match lead_flag rest with
      | Some (m, r) => takeFlags f (Some m) (trim_chars r)
      | None =>
          match trail_flag rest with
          | Some (m, r) => takeFlags f (Some m) (trim_chars r)
          | None => (mode, rest)
          end
      end
  end.

(** A value that must be followed by spaces or the end: the rest after the spaces. *)
Definition value_end (l : chars) : option chars :=
  match l with [] => Some [] | c :: r => if is_space c then Some (drop_while is_space r) else None end.

(** A quoted value, [q([^q]+)q], followed by spaces or the end. *)
Definition quoted_value (q : Ascii.ascii) (l : chars) : option (chars * chars) :=
  match l with
  | c :: r =>
      if bool_decide (c = q) then
        let v := take_while (fun d => negb (bool_decide (d = q))) r in
        match drop_while (fun d => negb (bool_decide (d = q))) r with
        | _ :: r' => if bool_decide (v = []) then None else pair v <$> value_end r'
        | [] => None
        end
      else None
  | [] => None
  end.

Definition is_letter (c : Ascii.ascii) : bool := (97 <=? code (lower c)) && (code (lower c) <=? 122).

(** [(\d+\s*[a-z]+)] followed by spaces or the end. *)
Definition amount_value (l : chars) : option (chars * chars) :=
  let ds := take_while is_digit l in
  let r1 := drop_while is_digit l in
  let sp := take_while is_space r1 in
  let r2 := drop_while is_space r1 in
  let us := take_while is_letter r2 in
  if bool_decide (ds = []) || bool_decide (us = []) then None
  else pair (ds ++ sp ++ us) <$> value_end (drop_while is_letter r2).

(** [(\S+)], which always runs up to spaces or the end. *)
Definition bare_value (l : chars) : option (chars * chars) :=
  let v := take_while (fun c => negb (is_space c)) l in
  if bool_decide (v = []) then None
  else pair v <$> value_end (drop_while (fun c => negb (is_space c)) l).

(** The [option] match: [--every] with [=] or spaces, then one of the four value forms in the source's order. *)
Definition every_option (rest : chars) : option (chars * chars) :=
  if eq_ci (take 7 rest) "--every" then
    match drop 7 rest with
    | c :: r =>
        let value := if bool_decide (c = "="%char) then Some r
                     else if is_space c then Some (drop_while is_space r) else None in
        v ← value;
        orelse (quoted_value "034"%char v) (orelse (quoted_value "'"%char v) (orelse (amount_value v) (bare_value v)))
    | [] => None
    end
  else None.

(** [/^(every|each)\s+\d+\s*(?:<units>)\b/i]: the matched text and what follows it. *)
Definition leading_every (rest : chars) : option (chars * chars) :=
  head (omap (fun kw : string =>
    let n := String.length kw in
    if eq_ci (take n rest) kw then
      let r0 := drop n rest in
      let sp := take_while is_space r0 in
      let r1 := drop_while is_space r0 in
      let ds := take_while is_digit r1 in
      let r2 := drop_while is_digit r1 in
      let sp' := take_while is_space r2 in
      let r3 := drop_while is_space r2 in
      let unit := take_while is_word r3 in
      if negb (bool_decide (sp = [])) && negb (bool_decide (ds = [])) && existsb (eq_ci unit) interval_units
      then Some (take n rest ++ sp ++ ds ++ sp' ++ unit, drop_while is_word r3)
      else None
    else None) ["every"; "each"]%string).

(** [.replace(/^--(?=\s|$)/, "")]. *)
Definition drop_dashes (l : chars) : chars :=
  match l with
  | c :: d :: r =>
      if bool_decide (c = "-"%char) && bool_decide (d = "-"%char) &&
         match r with [] => true | e :: _ => is_space e end
      then r else l
  | _ => l
  end.

(** [.replace(/^\/heartbeat\b/, "")]. *)
Definition drop_command (l : chars) : chars :=
  let w := to_chars "/heartbeat" in
  if starts_with w l && match drop (length w) l with [] => true | c :: _ => negb (is_word c) end
  then drop (length w) l else l.

Definition HEARTBEAT_USAGE : string :=
  "Usage: /heartbeat [every <interval>|--every <interval>] [--steer|--follow-up] <instruction>".

Definition parseHeartbeatCommand (input : string) : result HeartbeatCommand :=
  let text := trim_chars (drop_command (to_chars input)) in
  let same w := bool_decide (text = to_chars w) in
  if bool_decide (text = []) || same "status"%string then Ok CmdStatus
  else if same "pause"%string then Ok CmdPause
  else if same "resume"%string then Ok CmdResume
  else if same "clear"%string || same "stop"%string then Ok CmdClear
  else
    let '(mode, rest) := takeFlags (S (length text)) None text in
    let '(sched, rest) :=
      match every_option rest with
      | Some (v, r) => (normalizeHeartbeatSchedule (Some (of_chars v)), trim_chars r)
      | None =>
          match leading_every rest with
          | Some (m, r) => (normalizeHeartbeatSchedule (Some (of_chars m)), trim_chars (drop_dashes (trim_chars r)))
          | None => (DEFAULT_HEARTBEAT_SCHEDULE, rest)
          end
      end in
    let '(mode, rest) := takeFlags (S (length rest)) mode rest in
    if bool_decide (rest = []) then Throw HEARTBEAT_USAGE
    else Ok (CmdSet sched (of_chars rest) mode).

(** ** Deferral and messages *)

Record Activity := mkActivity { streaming : bool; compacting : bool; retrying : bool; pending : bool }.

Definition defers (job : Job) (activity : Activity) : bool :=
  if negb (isHeartbeat job) then false
  else if compacting activity || retrying activity || pending activity then true
  else bool_decide (nullish (job_deliveryMode job) Steer = FollowUp) && streaming activity.

(** A heartbeat's custom message or a cron prompt's text. *)
Inductive ScheduledMessage :=
| HeartbeatPrompt (content jobId expression : string) (status : JobStatus) (runCount : Z) (nextRunAt lastRunAt : option Z)
| CronText (text : string).

(** [.replace(/[\r\n\]]+/g, " ")]. *)
Fixpoint collapse_breaks (inside : bool) (l : chars) : chars :=
  match l with
  | [] => []
  | c :: r =>
      if (code c =? 13) || (code c =? 10) || bool_decide (c = "]"%char)
      then if inside then collapse_breaks true r else " "%char :: collapse_breaks true r
      else c :: collapse_breaks false r
  end.

Definition heartbeatMessage (job : Job) : ScheduledMessage :=
  HeartbeatPrompt
    ("[heartbeat: " +:+ of_chars (collapse_breaks false (to_chars (expression (job_schedule job)))) +:+
     " run#" +:+ string_of_Z (job_runCount job) +:+ "]" +:+ nl +:+ nl +:+ job_prompt job)
    (job_id job) (expression (job_schedule job)) (job_status job) (job_runCount job) (job_nextRunAt job) (job_lastRunAt job).

(** ** The cron search *)

Section CronSearch.
Context `{HostTimeLaws}.

Lemma cron_search_Some f fuel deadline c t :
  cron_search fuel f deadline c = Some t ->
  c <= t <= deadline /\ (t - c) mod 60000 = 0 /\ cron_matches f t = true /\
  forall u, c <= u < t -> (u - c) mod 60000 = 0 -> cron_matches f u = false.
Proof.
  revert c. induction fuel as [|n IH]; cbn; intros c; [done|].
  destruct (c <=? deadline) eqn:Hd; [|done]. simp_ok.
  destruct (cron_matches f c) eqn:Hm; intros Hs.
  - simplify_eq. rewrite Z.sub_diag. split_and!; [lia|lia|done|done|intros; lia].
  - apply IH in Hs as (Hle & Hmod & Hmt & Hno). rewrite next_minute_spec in *.
    replace (t - c) with ((t - (c + 60000)) + 1 * 60000) by lia. rewrite Z.mod_add by lia.
    split_and!; [lia|lia|done|done|]. intros u Hu Humod.
    destruct (decide (u = c)) as [->|Hne]; [done|]. apply Hno.
    + apply Z.mod_divide in Humod as [q Hq]; [|lia]. nia.
    + replace (u - (c + 60000)) with ((u - c) + (-1) * 60000) by lia. by rewrite Z.mod_add by lia.
Qed.

Lemma cron_search_None f fuel deadline c u :
  cron_search fuel f deadline c = None -> deadline < c + Z.of_nat fuel * 60000 ->
  c <= u <= deadline -> (u - c) mod 60000 = 0 -> cron_matches f u = false.
Proof.
  revert c. induction fuel as [|n IH]; cbn [cron_search]; intros c; [lia|].
  destruct (c <=? deadline) eqn:Hd; simp_ok; [|lia].
  destruct (cron_matches f c) eqn:Hm; [done|]. intros Hs Hf Hu Humod.
  destruct (decide (u = c)) as [->|Hne]; [done|].
  apply Z.mod_divide in Humod as [q Hq]; [|lia].
  eapply IH; [exact Hs|rewrite next_minute_spec; lia|rewrite next_minute_spec; nia|].
  rewrite next_minute_spec. apply Z.mod_divide; [lia|]. exists (q - 1). lia.
Qed.

(** The first candidate is the first whole minute after the given instant. *)
Lemma first_candidate after :
  next_minute (floor_minute after) = (after / 60000 + 1) * 60000.
Proof. rewrite next_minute_spec, floor_minute_spec. pose proof (Z.div_mod after 60000). lia. Qed.

Lemma whole_minute_from after u :
  u mod 60000 = 0 -> after < u ->
  next_minute (floor_minute after) <= u /\ (u - next_minute (floor_minute after)) mod 60000 = 0.
Proof.
  rewrite first_candidate. intros Hu Hlt. apply Z.mod_divide in Hu as [q ->]; [|lia].
  pose proof (Z.div_mod after 60000) as Hd. pose proof (Z.mod_pos_bound after 60000).
  split; [nia|]. apply Z.mod_divide; [lia|]. exists (q - (after / 60000 + 1)). lia.
Qed.

Lemma nextCronRun_ok expr after t :
  nextCronRun expr after = Ok t ->
  exists f, parseCron expr = Ok f /\ after < t /\ t mod 60000 = 0 /\ cron_matches f t = true /\
    forall u, after < u < t -> u mod 60000 = 0 -> cron_matches f u = false.
Proof.
  unfold nextCronRun. intros Hn. apply bind_ok in Hn as (f & Hf & Hn).
  destruct (cron_search _ _ _ _) as [t'|] eqn:Hs; simp_ok.
  apply cron_search_Some in Hs as (Hle & Hmod & Hm & Hno).
  pose proof (first_candidate after) as Hc.
  pose proof (Z.div_mod after 60000). pose proof (Z.mod_pos_bound after 60000).
  exists f. split_and!; [done|lia| |done|].
  - apply Z.mod_divide in Hmod as [q Hq]; [|lia]. apply Z.mod_divide; [lia|].
    exists (q + (after / 60000 + 1)). lia.
  - intros u Hu Hu0. destruct (whole_minute_from after u) as [Hge Hum]; [done|lia|]. apply Hno; [lia|done].
Qed.

Lemma nextCronRun_bound expr after t :
  nextCronRun expr after = Ok t -> (after / 60000 + 1) * 60000 <= t <= (after / 60000 + 1) * 60000 + cron_window * MINUTE.
Proof.
  unfold nextCronRun. intros Hn. apply bind_ok in Hn as (f & Hf & Hn).
  destruct (cron_search _ _ _ _) as [t'|] eqn:Hs; simp_ok. apply cron_search_Some in Hs as (Hle & _).
  rewrite first_candidate in Hle. lia.
Qed.
End CronSearch.

(** A next tick is always after the instant it was asked for. *)
Lemma nextRunAfter_later `{HostTimeLaws} s after t :
  nextRunAfter s after = Ok (Some t) -> after < t.
Proof.
  unfold nextRunAfter. destruct (kind s); intros Hn.
  - done.
  - apply bind_ok in Hn as (u & Hu & Hn). simp_ok. by apply nextCronRun_ok in Hu as (? & _ & ? & _).
  - destruct (intervalMs s) as [ms|]; [|done]. destruct (ms <=? 0) eqn:E; simp_ok. lia.
Qed.
#[export] Hint Resolve nextRunAfter_later : sieun.

(** ** Cron fields *)

Lemma elem_step_loop fuel v value stop step :
  1 <= step -> stop - value < Z.of_nat fuel ->
  v ∈ step_loop fuel value stop step <-> value <= v <= stop /\ (v - value) mod step = 0.
Proof.
  revert value. induction fuel as [|n IH]; intros value Hstep Hf; cbn [step_loop].
  - rewrite elem_of_nil. lia.
  - destruct (value <=? stop) eqn:E; simp_ok; [|rewrite elem_of_nil; lia].
    rewrite elem_of_cons, IH by lia. split.
    + intros [->|[Hv Hm]].
      * rewrite Z.sub_diag, Z.mod_0_l by lia. lia.
      * split; [lia|]. replace (v - value) with ((v - (value + step)) + 1 * step) by lia.
        by rewrite Z.mod_add by lia.
    + intros [Hv Hm]. destruct (decide (v = value)) as [->|Hne]; [by left|right].
      apply Z.mod_divide in Hm as [q Hq]; [|lia]. assert (1 <= q) by nia. split; [nia|].
      apply Z.mod_divide; [lia|]. exists (q - 1). lia.
Qed.

Lemma number_ok value min max n :
  number value min max = Ok n -> min <= n <= max.
Proof. unfold number. intros Hn. destruct (negb _); [done|]. destruct (_ || _) eqn:E; simp_ok. lia. Qed.

Lemma field_part_bounds text part min max vs v :
  0 <= min <= max -> field_part text part min max = Ok vs -> v ∈ vs -> min <= v <= max.
Proof.
  intros Hmm Hp Hv. unfold field_part in Hp. destruct part as [|c part]; [done|].
  apply bind_ok in Hp as (step & Hstep & Hp). apply bind_ok in Hp as ([start stop] & Hrange & Hp). simp_ok.
  assert (1 <= step).
  { destruct (tl _) as [|st l]; simp_ok; [lia|]. apply number_ok in Hstep. lia. }
  apply elem_step_loop in Hv as [Hv _]; [|done|lia].
  assert (min <= start /\ stop <= max); [|lia].
  destruct (bool_decide _); simp_ok; [lia|].
  destruct (existsb _ _); repeat (apply bind_ok in Hrange as (? & ?%number_ok & Hrange)).
  - destruct (_ <? _); simp_ok. lia.
  - simp_ok. lia.
Qed.

Lemma field_bounds text min max vs v :
  0 <= min <= max -> field text min max = Ok vs -> v ∈ vs -> min <= v <= max.
Proof.
  unfold field. intros Hmm. revert vs. generalize (split_on ","%char text) as parts.
  induction parts as [|p ps IH]; cbn; intros vs Hp Hv; [simp_ok; set_solver|].
  apply bind_ok in Hp as (vs1 & H1 & Hp). apply bind_ok in Hp as (vs2 & H2 & Hp). simp_ok.
  apply elem_of_app in Hv as [Hv|Hv]; [by eapply field_part_bounds|by eapply IH].
Qed.

(** ** Properties of the grammar *)

Lemma match_amount_plain kw ds unit units :
  forallb is_digit ds = true -> ds <> [] ->
  map lower kw = kw -> Forall (fun c => is_space c = false) kw ->
  unit ∈ units -> map lower (to_chars unit) = to_chars unit ->
  (forall c, head (to_chars unit) = Some c -> is_digit c = false /\ is_space c = false) ->
  match_amount [of_chars kw] units (kw ++ " "%char :: ds ++ to_chars unit) = Some (digits_value ds, to_chars unit).
Proof.
  intros Hds Hne Hkw _ Hu Hlow Hhead. unfold match_amount. cbn [omap list_omap].
  assert (Hlen : String.length (of_chars kw) = length kw).
  { clear. induction kw; cbn; [done|]. by f_equal. }
  rewrite Hlen, take_app_length. unfold eq_ci. rewrite to_of_chars, Hkw, bool_decide_eq_true_2 by done.
  rewrite drop_app_length. cbn [is_space code]. change (is_space " "%char) with true. cbn [negb].
  assert (Hsp : drop_while is_space (ds ++ to_chars unit) = ds ++ to_chars unit).
  { destruct ds as [|d ds]; [done|]. cbn in *. simp_ok.
    assert (is_space d = false) as ->; [|done]. unfold is_digit, is_space in *. simp_ok.
    repeat match goal with |- context [?a <=? ?b] => destruct (Z.leb_spec a b) end;
      repeat match goal with |- context [?a =? ?b] => destruct (Z.eqb_spec a b) end; cbn; lia || done. }
  rewrite Hsp. destruct (take_while_app is_digit ds (to_chars unit) Hds) as [-> ->].
  { intros c Hc. by apply Hhead. }
  assert (drop_while is_space (to_chars unit) = to_chars unit) as ->.
  { destruct (to_chars unit) as [|c l]; [done|]. cbn. destruct (Hhead c) as [_ ->]; done. }
  rewrite Hlow, bool_decide_eq_false_2 by done.
  assert (existsb (fun u => bool_decide (to_chars unit = to_chars u)) units = true) as ->; [|done].
  apply existsb_exists. exists unit. rewrite bool_decide_eq_true_2 by done. split; [|done].
  by apply list_elem_of_In.
Qed.

(** The keyword, number and unit of [every 10m]. *)
Definition every_text (ds : chars) (unit : string) : chars := to_chars "every" ++ " "%char :: ds ++ to_chars unit.

Definition unit_ms (unit : string) : Z :=
  if existsb (fun u => bool_decide (u = unit)) second_units then SECOND
  else if existsb (fun u => bool_decide (u = unit)) minute_units then MINUTE else 60 * MINUTE.

Lemma match_every ds unit :
  forallb is_digit ds = true -> ds <> [] -> unit ∈ interval_units ->
  match_amount ["every"; "each"]%string interval_units (every_text ds unit) = Some (digits_value ds, to_chars unit).
Proof.
  intros Hds Hne Hu.
  assert (forall kws, match_amount ["every"%string] interval_units (every_text ds unit) = Some kws ->
    match_amount ["every"; "each"]%string interval_units (every_text ds unit) = Some kws) as H.
  { intros r. unfold match_amount, every_text. cbn. done. }
  apply H. unfold every_text. apply (match_amount_plain (to_chars "every")); try done.
  - repeat constructor.
  - cbv [interval_units second_units minute_units hour_units] in Hu. cbn [app] in Hu.
    repeat (apply elem_of_cons in Hu as [->|Hu]; [done|]). by apply elem_of_nil in Hu.
  - cbv [interval_units second_units minute_units hour_units] in Hu. cbn [app] in Hu.
    intros c Hc. repeat (apply elem_of_cons in Hu as [->|Hu]; [cbn in Hc; simplify_eq; done|]). by apply elem_of_nil in Hu.
Qed.

Lemma unit_last unit :
  unit ∈ interval_units -> exists c, last (to_chars unit) = Some c /\ is_space c = false /\ c <> "034"%char /\ c <> "'"%char.
Proof.
  cbv [interval_units second_units minute_units hour_units]. cbn [app]. intros Hu.
  repeat (apply elem_of_cons in Hu as [->|Hu]; [eexists; split_and!; [reflexivity|reflexivity|done|done]|]).
  by apply elem_of_nil in Hu.
Qed.

Lemma every_text_clean ds unit :
  unit ∈ interval_units -> stripQuotes (trim_chars (every_text ds unit)) = every_text ds unit.
Proof.
  intros Hu. destruct (unit_last unit Hu) as (c & Hc & Hs & Hq1 & Hq2).
  assert (Hlast : last (every_text ds unit) = Some c).
  { unfold every_text. change (" "%char :: ds ++ to_chars unit) with ((" "%char :: ds) ++ to_chars unit).
    by rewrite !last_app, Hc. }
  rewrite (trim_chars_id _ "e"%char c) by done. unfold stripQuotes.
  rewrite Hlast. rewrite (bool_decide_eq_false_2 (Some c = Some _)) by congruence.
  rewrite (bool_decide_eq_false_2 (Some c = Some "'"%char)) by congruence. by rewrite !andb_false_r.
Qed.

(** an interval text, [every <n><unit>] for every unit word of the grammar,
    reads as an interval schedule of that many milliseconds whose first tick is one
    interval after now, and is refused exactly when the interval is under ten seconds. *)
Theorem parse_every `{HostTime} ds unit now :
  forallb is_digit ds = true -> ds <> [] -> unit ∈ interval_units ->
  let ms := digits_value ds * unit_ms unit in
  parseSchedule (of_chars (every_text ds unit)) now =
    if ms <? 10000 then Throw "Recurring interval must be at least 10 seconds"
    else Ok (mkSchedule KInterval (of_chars (every_text ds unit)) (Some ms), now + ms).
Proof.
  intros Hds Hne Hu ms. unfold parseSchedule. rewrite to_of_chars, every_text_clean by done.
  rewrite bool_decide_eq_false_2 by done.
  change (second_units ++ minute_units ++ hour_units) with interval_units.
  rewrite match_every by done.
  assert (match_amount ["in"%string] (minute_units ++ hour_units ++ day_units) (every_text ds unit) = None) as -> by done.
  assert ((if unit_starts "s"%char (to_chars unit) then SECOND
           else if unit_starts "m"%char (to_chars unit) then MINUTE else 60 * MINUTE) = unit_ms unit) as ->; [|done].
  cbv [interval_units second_units minute_units hour_units] in Hu. cbn [app] in Hu.
  repeat (apply elem_of_cons in Hu as [->|Hu]; [done|]). by apply elem_of_nil in Hu.
Qed.

Lemma parse_every_witness :
  @parseSchedule (Utc.host (fun _ => None)) "every 90secs" 1000 =
    Ok (mkSchedule KInterval "every 90secs" (Some 90000), 91000).
Proof.
  apply (@parse_every (Utc.host (fun _ => None)) (to_chars "90") "secs" 1000); [done|done|].
  apply list_elem_of_In. cbn. tauto.
Defined.



(** every value a parsed cron expression holds is in its field's range, so a
    match never depends on a value no calendar field can take. *)
Theorem parseCron_bounds expr f :
  parseCron expr = Ok f ->
  (forall v, v ∈ minute f -> 0 <= v <= 59) /\ (forall v, v ∈ hour f -> 0 <= v <= 23) /\
  (forall v, v ∈ day f -> 1 <= v <= 31) /\ (forall v, v ∈ month f -> 1 <= v <= 12) /\
  (forall v, v ∈ weekday f -> 0 <= v <= 7).
Proof.
  unfold parseCron. destruct (words _) as [|a [|b [|c [|d [|e [|? ?]]]]]]; try done.
  intros Hp. repeat (apply bind_ok in Hp as (? & ? & Hp)). simp_ok. cbn.
  split_and!; intros v Hv; (eapply field_bounds; [|eassumption|exact Hv]; lia).
Qed.

Lemma parseCron_bounds_witness :
  parseCron "*/15 8-18/2 1,15 * 0" = Ok (mkCron [0; 15; 30; 45] [8; 10; 12; 14; 16; 18] [1; 15] (step_loop 12 1 12 1) [0]) /\
  (forall v, v ∈ [0; 15; 30; 45] -> 0 <= v <= 59).
Proof.
  assert (parseCron "*/15 8-18/2 1,15 * 0" = Ok (mkCron [0; 15; 30; 45] [8; 10; 12; 14; 16; 18] [1; 15] (step_loop 12 1 12 1) [0])) as Hp
    by (vm_compute; reflexivity).
  split; [exact Hp|]. exact (proj1 (parseCron_bounds _ _ Hp)).
Defined.
