(* ===== verification/Scheduler.v ===== *)
(** * The scheduler

    [packages/pi-host/src/scheduler.ts], class [Scheduler]: the jobs file, the
    clock, claims and delivery.

    - [s_jobs] is the array [this.jobs].  The code only pushes to it, so a job
      object is named by its index, and [patch] through a held reference is a
      write at that index.
    - [s_disk] is the jobs file as [write] last left it; [construct] reads it back.
    - [s_lanes] holds, per session, the deliveries chained on its promise: the head
      is the running one, and the flag says that it awaits [deps.reopen].
    - [s_trace] records, in order, what the outside sees: claims, sends, reopens and
      [heartbeats_changed].  No code reads it.

    One call of [this.now()] stands for all of an operation's calls.  The world an
    operation consults (whether a session file exists, what a handle reports, whether
    its [send] throws, how [deps.reopen] ends) is an argument of the step.  *)

From S2P Require Import Prelude Schedule.
Local Open Scope Z_scope.
Local Open Scope list_scope.

Definition MAX_TIMEOUT_MS : Z := 2147483647.

(** ** Patches: [Object.assign] of a [Partial<Job>], an [undefined] value deleting the field *)

Inductive FieldSet :=
| FStatus (v : JobStatus)
| FDeliveryMode (v : option DeliveryMode)
| FLabel (v : option string)
| FPrompt (v : string)
| FSchedule (v : Schedule)
| FUpdatedAt (v : Z)
| FNextRunAt (v : option Z)
| FLastRunAt (v : option Z)
| FLastSkippedAt (v : option Z)
| FLastError (v : option string)
| FRunCount (v : Z)
| FClaimedAt (v : option Z).

Definition set_field (f : FieldSet) (j : Job) : Job :=
  match f with
  | FStatus v => mkJob 
      (job_id j) v (job_source j) (job_runtimeKind j) (job_deliveryMode j) (job_activeSessionId j) (job_sessionId j)
      (job_sessionFile j) (job_cwd j) (job_label j) (job_prompt j) (job_schedule j) (job_createdAt j)
      (job_updatedAt j) (job_nextRunAt j) (job_lastRunAt j) (job_lastSkippedAt j) (job_lastError j) (job_runCount j)
      (job_claimedAt j) (job_rootSessionId j)
  | FDeliveryMode v => mkJob 
      (job_id j) (job_status j) (job_source j) (job_runtimeKind j) v (job_activeSessionId j) (job_sessionId j)
      (job_sessionFile j) (job_cwd j) (job_label j) (job_prompt j) (job_schedule j) (job_createdAt j)
      (job_updatedAt j) (job_nextRunAt j) (job_lastRunAt j) (job_lastSkippedAt j) (job_lastError j) (job_runCount j)
      (job_claimedAt j) (job_rootSessionId j)
  | FLabel v => mkJob 
      (job_id j) (job_status j) (job_source j) (job_runtimeKind j) (job_deliveryMode j) (job_activeSessionId j)
      (job_sessionId j) (job_sessionFile j) (job_cwd j) v (job_prompt j) (job_schedule j) (job_createdAt j)
      (job_updatedAt j) (job_nextRunAt j) (job_lastRunAt j) (job_lastSkippedAt j) (job_lastError j) (job_runCount j)
      (job_claimedAt j) (job_rootSessionId j)
  | FPrompt v => mkJob 
      (job_id j) (job_status j) (job_source j) (job_runtimeKind j) (job_deliveryMode j) (job_activeSessionId j)
      (job_sessionId j) (job_sessionFile j) (job_cwd j) (job_label j) v (job_schedule j) (job_createdAt j)
      (job_updatedAt j) (job_nextRunAt j) (job_lastRunAt j) (job_lastSkippedAt j) (job_lastError j) (job_runCount j)
      (job_claimedAt j) (job_rootSessionId j)
  | FSchedule v => mkJob 
      (job_id j) (job_status j) (job_source j) (job_runtimeKind j) (job_deliveryMode j) (job_activeSessionId j)
      (job_sessionId j) (job_sessionFile j) (job_cwd j) (job_label j) (job_prompt j) v (job_createdAt j)
      (job_updatedAt j) (job_nextRunAt j) (job_lastRunAt j) (job_lastSkippedAt j) (job_lastError j) (job_runCount j)
      (job_claimedAt j) (job_rootSessionId j)
  | FUpdatedAt v => mkJob 
      (job_id j) (job_status j) (job_source j) (job_runtimeKind j) (job_deliveryMode j) (job_activeSessionId j)
      (job_sessionId j) (job_sessionFile j) (job_cwd j) (job_label j) (job_prompt j) (job_schedule j)
      (job_createdAt j) v (job_nextRunAt j) (job_lastRunAt j) (job_lastSkippedAt j) (job_lastError j)
      (job_runCount j) (job_claimedAt j) (job_rootSessionId j)
  | FNextRunAt v => mkJob 
      (job_id j) (job_status j) (job_source j) (job_runtimeKind j) (job_deliveryMode j) (job_activeSessionId j)
      (job_sessionId j) (job_sessionFile j) (job_cwd j) (job_label j) (job_prompt j) (job_schedule j)
      (job_createdAt j) (job_updatedAt j) v (job_lastRunAt j) (job_lastSkippedAt j) (job_lastError j)
      (job_runCount j) (job_claimedAt j) (job_rootSessionId j)
  | FLastRunAt v => mkJob 
      (job_id j) (job_status j) (job_source j) (job_runtimeKind j) (job_deliveryMode j) (job_activeSessionId j)
      (job_sessionId j) (job_sessionFile j) (job_cwd j) (job_label j) (job_prompt j) (job_schedule j)
      (job_createdAt j) (job_updatedAt j) (job_nextRunAt j) v (job_lastSkippedAt j) (job_lastError j)
      (job_runCount j) (job_claimedAt j) (job_rootSessionId j)
  | FLastSkippedAt v => mkJob 
      (job_id j) (job_status j) (job_source j) (job_runtimeKind j) (job_deliveryMode j) (job_activeSessionId j)
      (job_sessionId j) (job_sessionFile j) (job_cwd j) (job_label j) (job_prompt j) (job_schedule j)
      (job_createdAt j) (job_updatedAt j) (job_nextRunAt j) (job_lastRunAt j) v (job_lastError j) (job_runCount j)
      (job_claimedAt j) (job_rootSessionId j)
  | FLastError v => mkJob 
      (job_id j) (job_status j) (job_source j) (job_runtimeKind j) (job_deliveryMode j) (job_activeSessionId j)
      (job_sessionId j) (job_sessionFile j) (job_cwd j) (job_label j) (job_prompt j) (job_schedule j)
      (job_createdAt j) (job_updatedAt j) (job_nextRunAt j) (job_lastRunAt j) (job_lastSkippedAt j) v
      (job_runCount j) (job_claimedAt j) (job_rootSessionId j)
  | FRunCount v => mkJob 
      (job_id j) (job_status j) (job_source j) (job_runtimeKind j) (job_deliveryMode j) (job_activeSessionId j)
      (job_sessionId j) (job_sessionFile j) (job_cwd j) (job_label j) (job_prompt j) (job_schedule j)
      (job_createdAt j) (job_updatedAt j) (job_nextRunAt j) (job_lastRunAt j) (job_lastSkippedAt j)
      (job_lastError j) v (job_claimedAt j) (job_rootSessionId j)
  | FClaimedAt v => mkJob 
      (job_id j) (job_status j) (job_source j) (job_runtimeKind j) (job_deliveryMode j) (job_activeSessionId j)
      (job_sessionId j) (job_sessionFile j) (job_cwd j) (job_label j) (job_prompt j) (job_schedule j)
      (job_createdAt j) (job_updatedAt j) (job_nextRunAt j) (job_lastRunAt j) (job_lastSkippedAt j)
      (job_lastError j) (job_runCount j) v (job_rootSessionId j)
  end.

Definition patch (fields : list FieldSet) (job : Job) : Job := fold_left (fun j f => set_field f j) fields job.

(** ** State *)

Inductive SendMode := MStart | MSteer | MFollowUp.

(** One loaded session; [h_serial] is the identity of the handle object. *)
Record SessionHandle := mkHandle {
  h_serial : nat;
  h_sessionId : string;
  h_sessionFile : option string;
  h_cwd : string;
  h_child : bool;
  h_rootSessionId : option string
}.

Inductive Event :=
| EvClaim (job : nat)
| EvSend (job : nat) (session : string) (message : ScheduledMessage) (mode : SendMode)
| EvReopen (job : nat)
| EvChanged.

Record Lane := mkLane { lane_queue : list nat; lane_reopening : bool }.

Record Sched := mkSched {
  s_jobs : list Job;
  s_disk : list Job;
  s_handles : gmap string SessionHandle;
  s_lanes : gmap string Lane;
  s_timer : option Z;
  s_stopped : bool;
  s_trace : list Event
}.

Definition with_jobs (js : list Job) (s : Sched) : Sched :=
  mkSched js (s_disk s) (s_handles s) (s_lanes s) (s_timer s) (s_stopped s) (s_trace s).
Definition with_disk (js : list Job) (s : Sched) : Sched :=
  mkSched (s_jobs s) js (s_handles s) (s_lanes s) (s_timer s) (s_stopped s) (s_trace s).
Definition with_handles (hs : gmap string SessionHandle) (s : Sched) : Sched :=
  mkSched (s_jobs s) (s_disk s) hs (s_lanes s) (s_timer s) (s_stopped s) (s_trace s).
Definition with_lanes (ls : gmap string Lane) (s : Sched) : Sched :=
  mkSched (s_jobs s) (s_disk s) (s_handles s) ls (s_timer s) (s_stopped s) (s_trace s).
Definition with_timer (t : option Z) (s : Sched) : Sched :=
  mkSched (s_jobs s) (s_disk s) (s_handles s) (s_lanes s) t (s_stopped s) (s_trace s).
Definition with_stopped (b : bool) (s : Sched) : Sched :=
  mkSched (s_jobs s) (s_disk s) (s_handles s) (s_lanes s) (s_timer s) b (s_trace s).
Definition emit (ev : list Event) (s : Sched) : Sched :=
  mkSched (s_jobs s) (s_disk s) (s_handles s) (s_lanes s) (s_timer s) (s_stopped s) (s_trace s ++ ev).

(** [this.patch(job, fields)] through the reference [i]. *)
Definition patch_at (i : nat) (fields : list FieldSet) (js : list Job) : list Job := alter (patch fields) i js.

(** [this.write()]. *)
Definition write (s : Sched) : Sched := with_disk (s_jobs s) s.

(** The catalog fields a client shows. *)
Definition catalog_row (j : Job) :=
  (job_id j, job_status j, job_source j, job_deliveryMode j, job_activeSessionId j, job_label j, job_prompt j, job_schedule j).
Definition catalogSignature (js : list Job) :=
  map catalog_row (filter (fun j => isHeartbeat j && isLive j = true) js).

(** ** The constructor *)

Inductive JobsFile := NoFile | FileJobs (js : list Job) | BadFile.

(** [read()]: the rows with a string id; a file that does not parse is moved aside. *)
Definition read (f : JobsFile) : list Job :=
  match f with FileJobs js => js | NoFile | BadFile => [] end.

Definition interrupt_job (j : Job) : Job :=
  match job_claimedAt j with
  | Some c => patch [FClaimedAt None; FLastError (Some
      ("interrupted: pi-host stopped before the tick claimed at " +:+ Utc.iso c +:+ " was delivered")%string)] j
  | None => j
  end.

(** A new host on the file an earlier one left: no handles, no lanes, stopped.  The trace runs on. *)
Definition construct (f : JobsFile) (trace : list Event) : Sched :=
  let js := map interrupt_job (read f) in
  mkSched js js ∅ ∅ None true trace.

(** ** The timer *)

Definition is_due_candidate (j : Job) : bool :=
  bool_decide (job_status j = Active) && bool_decide (job_claimedAt j = None).

(** The instants [arm] takes the minimum of. *)
Definition next_runs (js : list Job) : list Z :=
  omap (fun j => if is_due_candidate j then job_nextRunAt j else None) js.

Definition min_list (l : list Z) : option Z :=
  match l with [] => None | x :: r => Some (fold_left Z.min r x) end.

Definition arm (now : Z) (s : Sched) : Sched :=
  if s_stopped s then s
  else with_timer
    (t ← min_list (next_runs (s_jobs s)); Some (now + Z.min (Z.max 0 (t - now)) MAX_TIMEOUT_MS)) s.

Definition mutate (now : Z) (edit : list Job -> list Job) (s : Sched) : Sched :=
  let js := edit (s_jobs s) in
  let s' := write (with_jobs js s) in
  arm now (if decide (catalogSignature js = catalogSignature (s_jobs s)) then s' else emit [EvChanged] s').

Definition start (now : Z) (s : Sched) : Sched := arm now (with_stopped false s).
Definition stop (s : Sched) : Sched := with_timer None (with_stopped true s).

(** ** Sessions *)

Definition attach (h : SessionHandle) (s : Sched) : Sched := with_handles (<[h_sessionId h := h]> (s_handles s)) s.

(** The closure [attach] returns: it removes the handle only while it is still the session's. *)
Definition detach (h : SessionHandle) (s : Sched) : Sched :=
  match s_handles s !! h_sessionId h with
  | Some h' => if bool_decide (h_serial h' = h_serial h) then with_handles (delete (h_sessionId h) (s_handles s)) s else s
  | None => s
  end.

Definition owner (sessionId : string) (s : Sched) : result (SessionHandle * string) :=
  match s_handles s !! sessionId with
  | None => Throw ("Session " +:+ sessionId +:+ " is not loaded in pi-host, so it cannot own a schedule now.")
  | Some h =>
      match h_sessionFile h with
      | None | Some String.EmptyString => Throw "Schedules need a persisted session file."
      | Some f => Ok (h, f)
      end
  end.

(** ** Reads *)

(** [a.localeCompare(b) <= 0] on the ISO text of an instant, or on the tilde that
    stands for none: ISO texts of the years 0 to 9999 sort as their instants, and in
    the collation order of [localeCompare] a tilde sorts before every digit. *)
Definition next_le (a b : Job) : bool :=
  match job_nextRunAt a, job_nextRunAt b with
  | None, _ => true
  | Some _, None => false
  | Some x, Some y => x <=? y
  end.

Definition list_jobs (sessionId : option string) (includeInactive : bool) (source : option JobSource) (s : Sched) : list Job :=
  let any := match sessionId with None | Some String.EmptyString => true | _ => false end in
  sort_by next_le (filter (fun j =>
    (includeInactive || isLive j) && (any || bool_decide (Some (job_activeSessionId j) = sessionId)) &&
    (match source with None => true | Some src => bool_decide (job_source j = src) end) = true) (s_jobs s)).

Definition heartbeat (sessionId : string) (s : Sched) : option Job :=
  head (sort_by (fun a b => job_updatedAt b <=? job_updatedAt a) (list_jobs (Some sessionId) false (Some SrcHeartbeat) s)).

Definition find_job (id : string) (s : Sched) : option nat :=
  find_index (fun j => bool_decide (job_id j = id)) (s_jobs s).

Section Operations.
Context `{HostTime}.

Record CreateInput := mkCreate {
  c_schedule : string; c_prompt : string; c_label : option string; c_deliveryMode : option DeliveryMode; c_recurring : bool
}.

Definition nonempty (s : string) : option string := if bool_decide (s = String.EmptyString) then None else Some s.

Definition create (uuid : string) (now : Z) (sessionId : string) (source : JobSource) (input : CreateInput) (s : Sched) : result Job :=
  '(h, file) ← owner sessionId s;
  let prompt := trim (c_prompt input) in
  if bool_decide (prompt = String.EmptyString)
  then Throw (if bool_decide (source = SrcCron) then "Cron job prompt cannot be empty" else "Heartbeat instruction cannot be empty")
  else
    '(sched, next) ← parseSchedule (c_schedule input) now;
    if c_recurring input && bool_decide (kind sched = KOnce) then Throw "Heartbeat schedule must be recurring"
    else
      next ← to_iso next;
      Ok (mkJob uuid Active source (Some (if h_child h then Subagent else TopLevel))
            (if bool_decide (source = SrcCron) then None else Some (nullish (c_deliveryMode input) Steer))
            sessionId sessionId file (h_cwd h) ((trim <$> c_label input) ≫= nonempty) prompt sched
            now now (Some next) None None None 0 None (h_rootSessionId h ≫= nonempty)).

(** ** User heartbeats and cron *)

Definition cancel_fields (at_ : Z) : list FieldSet := [FStatus Cancelled; FNextRunAt None; FUpdatedAt at_].

Definition is_live_heartbeat_of (sessionId : string) (j : Job) : bool :=
  bool_decide (job_activeSessionId j = sessionId) && bool_decide (job_source j = SrcHeartbeat) && isLive j.

Definition setHeartbeat (uuid : string) (now : Z) (sessionId schedule prompt : string) (mode : option DeliveryMode) (s : Sched) : result (Job * Sched) :=
  let previous := heartbeat sessionId s in
  job ← create uuid now sessionId SrcHeartbeat
          (mkCreate (normalizeHeartbeatSchedule (Some schedule)) prompt None (orelse mode (previous ≫= job_deliveryMode)) true) s;
  Ok (job, mutate now (fun js =>
    map (fun old => if is_live_heartbeat_of sessionId old then patch (cancel_fields (job_createdAt job)) old else old) js ++ [job]) s).

Inductive ManageAction := MPause | MResume | MStop.

Definition manage (now : Z) (sessionId id : string) (action : ManageAction) (s : Sched) : result (option Job * Sched) :=
  match find_job id s with
  | None => Ok (None, s)
  | Some i =>
      match s_jobs s !! i with
      | None => Ok (None, s)
      | Some job =>
          if negb (bool_decide (job_activeSessionId job = sessionId)) || negb (isHeartbeat job) || negb (isLive job)
          then Ok (None, s)
          else
            fields ←
              match action with
              | MPause => Ok [FStatus Paused; FNextRunAt None]
              | MStop => Ok [FStatus Cancelled; FNextRunAt None]
              | MResume =>
                  next ← nextRunAfter (job_schedule job) now;
                  match next with
                  | None => Throw "Cannot read properties of undefined (reading 'toISOString')"
                  | Some t => t ← to_iso t; Ok [FStatus Active; FNextRunAt (Some t)]
                  end
              end;
            let fs := fields ++ [FUpdatedAt now] in
            Ok (Some (patch fs job), mutate now (patch_at i fs) s)
      end
  end.

Inductive HeartbeatAction := APause | AResume | AClear.

Definition updateHeartbeat (now : Z) (sessionId : string) (action : HeartbeatAction) (s : Sched) : result (option Job * Sched) :=
  match heartbeat sessionId s with
  | None => Ok (None, s)
  | Some current =>
      manage now sessionId (job_id current) (match action with AClear => MStop | APause => MPause | AResume => MResume end) s
  end.

Definition addCron (uuid : string) (now : Z) (sessionId schedule prompt : string) (s : Sched) : result (Job * Sched) :=
  job ← create uuid now sessionId SrcCron (mkCreate schedule prompt None None false) s;
  Ok (job, mutate now (fun js => js ++ [job]) s).

Definition cancel (now : Z) (id : string) (s : Sched) : option Job * Sched :=
  match find_job id s with
  | None => (None, s)
  | Some i =>
      match s_jobs s !! i with
      | None => (None, s)
      | Some job =>
          if bool_decide (job_status job = Cancelled) then (None, s)
          else (Some (patch (cancel_fields now) job), mutate now (patch_at i (cancel_fields now)) s)
      end
  end.

Definition is_live_of (sessionId : string) (j : Job) : bool :=
  bool_decide (job_activeSessionId j = sessionId) && isLive j.

Definition cancelSession (now : Z) (sessionId : string) (s : Sched) : list Job * Sched :=
  if existsb (is_live_of sessionId) (s_jobs s) then
    (map (patch (cancel_fields now)) (filter (fun j => is_live_of sessionId j = true) (s_jobs s)),
     mutate now (map (fun j => if is_live_of sessionId j then patch (cancel_fields now) j else j)) s)
  else ([], s).

(** The session ids of a tree, as the [Set] lists them. *)
Definition tree_ids (sessionId : string) (js : list Job) : list string :=
  remove_dups (map job_activeSessionId (filter (fun j =>
    bool_decide (job_activeSessionId j = sessionId) || bool_decide (job_rootSessionId j = Some sessionId) = true) js)).

Definition cancelTree (now : Z) (sessionId : string) (s : Sched) : list Job * Sched :=
  fold_left (fun acc id => let '(js, s') := cancelSession now id acc.2 in (acc.1 ++ js, s'))
    (tree_ids sessionId (s_jobs s)) ([], s).

(** ** RLM heartbeats *)

Definition createRlmHeartbeat (uuid : string) (now : Z) (sessionId instruction : string) (interval label : option string)
    (mode : option DeliveryMode) (s : Sched) : result (Job * Sched) :=
  job ← create uuid now sessionId SrcRlmHeartbeat (mkCreate (normalizeHeartbeatSchedule interval) instruction label mode true) s;
  Ok (job, mutate now (fun js => js ++ [job]) s).

Record RlmUpdate := mkRlmUpdate {
  u_instruction : option string; u_interval : option string; u_label : option string; u_status : option ManageAction;
  u_deliveryMode : option DeliveryMode
}.

(** The [next] patch of [updateRlmHeartbeat]; the [status] of the update is pause or resume. *)
Definition rlm_update_fields (now : Z) (job : Job) (u : RlmUpdate) : result (list FieldSet) :=
  let f_label := match u_label u with Some l => [FLabel (nonempty (trim l))] | None => [] end in
  let f_mode := match u_deliveryMode u with Some m => [FDeliveryMode (Some m)] | None => [] end in
  f_prompt ← match u_instruction u with
             | None => Ok []
             | Some i => if bool_decide (trim i = String.EmptyString) then Throw "RLM heartbeat instruction cannot be empty"
                         else Ok [FPrompt (trim i)]
             end;
  let status := match u_status u with Some MPause => Paused | Some MResume => Active | _ => job_status job end in
  '(f_sched, sched) ←
    match u_interval u with
    | None => Ok ([], job_schedule job)
    | Some i =>
        '(sc, next) ← parseSchedule (normalizeHeartbeatSchedule (Some i)) now;
        if bool_decide (kind sc = KOnce) then Throw "RLM heartbeat schedule must be recurring"
        else next ← to_iso next; Ok ([FSchedule sc; FNextRunAt (Some next)], sc)
    end;
  f_next ←
    (if bool_decide (status = Paused) then Ok [FNextRunAt None]
     else match u_status u with
          | Some MResume =>
              next ← nextRunAfter sched now;
              match next with
              | None => Throw "Cannot read properties of undefined (reading 'toISOString')"
              | Some t => t ← to_iso t; Ok [FNextRunAt (Some t)]
              end
          | _ => Ok []
          end);
  Ok (f_label ++ f_mode ++ f_prompt ++ f_sched ++ [FStatus status] ++ f_next ++ [FUpdatedAt now]).

Definition updateRlmHeartbeat (now : Z) (sessionId id : string) (u : RlmUpdate) (s : Sched) : result (option Job * Sched) :=
  match find_job id s with
  | None => Ok (None, s)
  | Some i =>
      match s_jobs s !! i with
      | None => Ok (None, s)
      | Some job =>
          if negb (bool_decide (job_activeSessionId job = sessionId)) || negb (bool_decide (job_source job = SrcRlmHeartbeat)) || negb (isLive job)
          then Ok (None, s)
          else
            fs ← rlm_update_fields now job u;
            Ok (Some (patch fs job), mutate now (patch_at i fs) s)
      end
  end.

Definition deleteRlmHeartbeat (now : Z) (sessionId id : string) (s : Sched) : option Job * Sched :=
  match find_job id s with
  | None => (None, s)
  | Some i =>
      match s_jobs s !! i with
      | None => (None, s)
      | Some job =>
          if negb (bool_decide (job_activeSessionId job = sessionId)) || negb (bool_decide (job_source job = SrcRlmHeartbeat))
          then (None, s)
          else (Some (patch (cancel_fields now) job), mutate now (patch_at i (cancel_fields now)) s)
      end
  end.

(** ** The clock *)

(** The jobs [runDue] claims, by index. *)
Definition is_due (now : Z) (j : Job) : bool :=
  is_due_candidate j && match job_nextRunAt j with Some t => t <=? now | None => false end.
Definition due_indices (now : Z) (js : list Job) : list nat :=
  omap (fun ij => if is_due now ij.2 then Some ij.1 else None) (imap pair js).

(** The instant a claim moves its job to. *)
Definition claim_next (now : Z) (j : Job) : result (option Z) :=
  next ← nextRunAfter (job_schedule j) (if bool_decide (kind (job_schedule j) = KCron) then now + 1 else now);
  match next with None => Ok None | Some t => t ← to_iso t; Ok (Some t) end.

(** The claim loop: the jobs as far as it came, and the exception that ended it. *)
Fixpoint claim_all (now : Z) (due : list nat) (js : list Job) : list Job * option string :=
  match due with
  | [] => (js, None)
  | i :: due' =>
      match js !! i with
      | None => claim_all now due' js
      | Some j =>
          match claim_next now j with
          | Throw e => (js, Some e)
          | Ok next => claim_all now due' (patch_at i [FClaimedAt (Some now); FNextRunAt next] js)
          end
      end
  end.

(** [queue(job)]: chains the delivery on the session's lane. *)
Definition queue (i : nat) (s : Sched) : Sched :=
  match s_jobs s !! i with
  | None => s
  | Some j =>
      let lane := job_activeSessionId j in
      let l := default (mkLane [] false) (s_lanes s !! lane) in
      with_lanes (<[lane := mkLane (lane_queue l ++ [i]) (lane_reopening l)]> (s_lanes s)) s
  end.

(** [runDue()], called from the timer or by hand.  An exception leaves the claims made
    so far in memory, unwritten and unqueued, and does not re-arm the timer. *)
Definition runDue (now : Z) (s : Sched) : result nat * Sched :=
  match due_indices now (s_jobs s) with
  | [] => (Ok O, arm now s)
  | due =>
      match claim_all now due (s_jobs s) with
      | (js, Some e) => (Throw e, with_jobs js s)
      | (js, None) =>
          let s1 := emit (map EvClaim due) (write (with_jobs js s)) in
          (Ok (length due), arm now (fold_left (fun s i => queue i s) due s1))
      end
  end.

(** The timer's callback: [this.timer = undefined], then [runDue]. *)
Definition fire (now : Z) (s : Sched) : result nat * Sched := runDue now (with_timer None s).

(** ** Delivery *)

Inductive Outcome := Ran | Skipped.
#[export] Instance Outcome_eq : EqDecision Outcome.
Proof. solve_decision. Defined.

(** The [finally] block of [dispatch]. *)
Definition finish_fields (now : Z) (job : Job) (outcome : Outcome) (error : option string) : list FieldSet :=
  [FClaimedAt None; FUpdatedAt now] ++
  (match outcome with
   | Ran => [FRunCount (job_runCount job + 1); FLastRunAt (Some now); FLastError error]
   | Skipped => [FLastSkippedAt (Some now); FLastError error]
   end) ++
  (if bool_decide (kind (job_schedule job) = KOnce) && bool_decide (job_status job = Active) && bool_decide (outcome = Ran)
   then [FStatus Completed; FNextRunAt None] else []).

Definition finish (now : Z) (i : nat) (outcome : Outcome) (error : option string) (s : Sched) : Sched :=
  mutate now (fun js =>
    match js !! i with
    | Some job => patch_at i (finish_fields now job outcome error) js
    | None => js
    end) s.

(** What the session answers: its activity, and the message its [send] throws, if it does. *)
Record World := mkWorld { w_file_exists : bool; w_activity : Activity; w_send_throws : option string }.

(** The rest of [dispatch] once a handle is there: defer, or send. *)
Definition deliver (now : Z) (i : nat) (job : Job) (w : World) (s : Sched) : Sched :=
  if defers job (w_activity w) then finish now i Skipped None s
  else
    let busy := streaming (w_activity w) in
    let '(msg, mode) :=
      if isHeartbeat job then
        (heartbeatMessage (patch [FRunCount (job_runCount job + 1)] job),
         if busy then if bool_decide (job_deliveryMode job = Some FollowUp) then MFollowUp else MSteer else MStart)
      else (CronText (job_prompt job), if busy then MFollowUp else MStart) in
    match w_send_throws w with
    | Some e => finish now i Ran (Some e) s
    | None => finish now i Ran None (emit [EvSend i (job_activeSessionId job) msg mode] s)
    end.

(** The head delivery of a lane reported back: the next one runs, an empty lane goes. *)
Definition lane_done (lane : string) (s : Sched) : Sched :=
  match s_lanes s !! lane with
  | Some (mkLane (_ :: []) _) | Some (mkLane [] _) => with_lanes (delete lane (s_lanes s)) s
  | Some (mkLane (_ :: q) _) => with_lanes (<[lane := mkLane q false]> (s_lanes s)) s
  | None => s
  end.

(** [dispatch] of the lane's head, up to its end or to [await this.deps.reopen(job)]. *)
Definition dispatch_start (now : Z) (lane : string) (w : World) (s : Sched) : Sched :=
  match s_lanes s !! lane with
  | Some (mkLane (i :: q) false) =>
      match s_jobs s !! i with
      | None => s
      | Some job =>
          if negb (bool_decide (job_status job = Active)) then lane_done lane (finish now i Skipped None s)
          else match s_handles s !! job_activeSessionId job with
          | Some _ => lane_done lane (deliver now i job w s)
          | None =>
              if negb (w_file_exists w) then
                let error := ("session file " +:+ job_sessionFile job +:+ " is gone; the job was cancelled")%string in
                lane_done lane (finish now i Skipped (Some error)
                  (with_jobs (patch_at i [FStatus Cancelled; FNextRunAt None] (s_jobs s)) s))
              else with_lanes (<[lane := mkLane (i :: q) true]> (s_lanes s)) (emit [EvReopen i] s)
          end
      end
  | _ => s
  end.

(** The rest of [dispatch] after the await; [reopen] is the message [deps.reopen] rejected with, if it did. *)
Definition dispatch_resume (now : Z) (lane : string) (reopen : option string) (w : World) (s : Sched) : Sched :=
  match s_lanes s !! lane with
  | Some (mkLane (i :: _) true) =>
      match s_jobs s !! i with
      | None => s
      | Some job =>
          match reopen with
          | Some e => lane_done lane (finish now i Ran (Some e) s)
          | None =>
              match s_handles s !! job_activeSessionId job with
              | None => lane_done lane (finish now i Ran (Some ("session " +:+ job_activeSessionId job +:+
                  " opened but attached no scheduler handle; is the scheduler extension loaded?")%string) s)
              | Some _ => lane_done lane (deliver now i job w s)
              end
          end
      end
  | _ => s
  end.

(** ** The scheduler as a transition system *)

Inductive step : Sched -> Sched -> Prop :=
| step_attach h s : step s (attach h s)
| step_detach h s : step s (detach h s)
| step_setHeartbeat uuid now sid sched prompt mode s job s' :
    setHeartbeat uuid now sid sched prompt mode s = Ok (job, s') -> step s s'
| step_manage now sid id action s r s' : manage now sid id action s = Ok (r, s') -> step s s'
| step_updateHeartbeat now sid action s r s' : updateHeartbeat now sid action s = Ok (r, s') -> step s s'
| step_addCron uuid now sid sched prompt s job s' : addCron uuid now sid sched prompt s = Ok (job, s') -> step s s'
| step_cancel now id s : step s (cancel now id s).2
| step_cancelSession now sid s : step s (cancelSession now sid s).2
| step_cancelTree now sid s : step s (cancelTree now sid s).2
| step_createRlm uuid now sid instr interval label mode s job s' :
    createRlmHeartbeat uuid now sid instr interval label mode s = Ok (job, s') -> step s s'
| step_updateRlm now sid id u s r s' : updateRlmHeartbeat now sid id u s = Ok (r, s') -> step s s'
| step_deleteRlm now sid id s : step s (deleteRlmHeartbeat now sid id s).2
| step_start now s : step s (start now s)
| step_stop s : step s (stop s)
| step_runDue now s : step s (runDue now s).2
| step_fire now s : step s (fire now s).2
| step_dispatch_start now lane w s : step s (dispatch_start now lane w s)
| step_dispatch_resume now lane r w s : step s (dispatch_resume now lane r w s)
| step_crash s : step s (construct (FileJobs (s_disk s)) (s_trace s)).

(** The states of a host whose data folder started empty. *)
Inductive reachable : Sched -> Prop :=
| reach_init : reachable (construct NoFile [])
| reach_step s s' : reachable s -> step s s' -> reachable s'.

End Operations.
