(* ===== verification/SchedulerSpec.v ===== *)
(** * What the scheduler promises

    Theorems about [Scheduler.v]: the invariant of every reachable state (jobs well
    formed, one live user heartbeat per session, every queued delivery claimed on
    disk, at most one send per claim), the behaviour of claims and of the timer, and
    the functional behaviour of the operations. *)

From S2P Require Import Prelude Schedule Scheduler.
Local Open Scope Z_scope.
Local Open Scope list_scope.

(** ** Well-formed jobs *)

Definition recurs (sc : Schedule) : Prop :=
  match kind sc with
  | KOnce => False
  | KInterval => exists ms, intervalMs sc = Some ms /\ 0 < ms
  | KCron => True
  end.

(** A parked job has no next tick, and a heartbeat has a schedule that recurs. *)
Record job_ok (j : Job) : Prop := mkJobOk {
  ok_parked : job_status j <> Active -> job_nextRunAt j = None;
  ok_recurs : isHeartbeat j = true -> recurs (job_schedule j)
}.

(** What an edit keeps of a job object. *)
Record keeps (j j' : Job) : Prop := mkKeeps {
  k_id : job_id j' = job_id j;
  k_session : job_activeSessionId j' = job_activeSessionId j;
  k_source : job_source j' = job_source j;
  k_ok : job_ok j -> job_ok j';
  k_live : isLive j' = true -> isLive j = true
}.
(** A held claim stays held. *)
Definition keeps_claim (j j' : Job) : Prop := keeps j j' /\ job_claimedAt j' = job_claimedAt j.

#[export] Instance keeps_refl : Reflexive keeps.
Proof. intros j. by split. Qed.
#[export] Instance keeps_claim_refl : Reflexive keeps_claim.
Proof. intros j. by split. Qed.
#[export] Instance keeps_trans : Transitive keeps.
Proof. intros j1 j2 j3 [] []. split; try congruence; auto. Qed.
#[export] Instance keeps_claim_trans : Transitive keeps_claim.
Proof. intros j1 j2 j3 [? ?] [? ?]. split; [by etrans|congruence]. Qed.

Lemma isHeartbeat_source j j' : job_source j' = job_source j -> isHeartbeat j' = isHeartbeat j.
Proof. unfold isHeartbeat. by intros ->. Qed.

(** An edit of the job list: every old object kept, new well-formed unclaimed ones at the end. *)
Definition edit_ok (js js' : list Job) : Prop :=
  exists old new, js' = old ++ new /\ Forall2 keeps_claim js old /\
    Forall (fun j => job_ok j /\ job_claimedAt j = None) new.

Lemma Forall2_refl_on {A} (R : A -> A -> Prop) `{!Reflexive R} l : Forall2 R l l.
Proof. induction l; by constructor. Qed.

Lemma edit_ok_refl js : edit_ok js js.
Proof. exists js, []. rewrite app_nil_r. split_and!; [done|by apply Forall2_refl_on, _|done]. Qed.

Lemma Forall2_alter {A} (R : A -> A -> Prop) `{!Reflexive R} (f : A -> A) i l :
  (forall x, l !! i = Some x -> R x (f x)) -> Forall2 R l (alter f i l).
Proof.
  revert i. induction l as [|x l IH]; intros [|i] Hf; cbn; [constructor..| |].
  - constructor; [by apply Hf|by apply Forall2_refl_on].
  - constructor; [done|]. by apply IH.
Qed.

Lemma Forall2_map_r {A} (R : A -> A -> Prop) (f : A -> A) l :
  (forall x, x ∈ l -> R x (f x)) -> Forall2 R l (map f l).
Proof. intros Hf. induction l; cbn; constructor; [apply Hf; set_solver|]. apply IHl. set_solver. Qed.

Lemma edit_ok_patch_at i fs js :
  (forall j, js !! i = Some j -> keeps_claim j (patch fs j)) -> edit_ok js (patch_at i fs js).
Proof.
  intros Hf. exists (patch_at i fs js), []. rewrite app_nil_r.
  split_and!; [done|by apply Forall2_alter; [apply _|]|done].
Qed.

Lemma keeps_claim_cancel now j : keeps_claim j (patch (cancel_fields now) j).
Proof. destruct j. split; [split|done]; try done. intros [_ Hr]. split; [done|exact Hr]. Qed.
#[export] Hint Resolve keeps_claim_cancel : sieun.

(** ** Lanes, claims and sends *)

Definition is_send (i : nat) (e : Event) : bool := match e with EvSend k _ _ _ => bool_decide (k = i) | _ => false end.
Definition is_claim (i : nat) (e : Event) : bool := match e with EvClaim k => bool_decide (k = i) | _ => false end.
Definition sends (i : nat) (tr : list Event) : nat := length (filter (fun e => is_send i e = true) tr).
Definition claims (i : nat) (tr : list Event) : nat := length (filter (fun e => is_claim i e = true) tr).

#[global] Arguments sends : simpl never.
#[global] Arguments claims : simpl never.

Lemma sends_app i t1 t2 : sends i (t1 ++ t2) = (sends i t1 + sends i t2)%nat.
Proof. unfold sends. by rewrite filter_app, length_app. Qed.
Lemma claims_app i t1 t2 : claims i (t1 ++ t2) = (claims i t1 + claims i t2)%nat.
Proof. unfold claims. by rewrite filter_app, length_app. Qed.

Definition queued (i : nat) (s : Sched) : Prop :=
  exists lane l, s_lanes s !! lane = Some l /\ i ∈ lane_queue l.

(** The live user heartbeats of a session. *)
Definition live_heartbeats (sid : string) (js : list Job) : list Job :=
  filter (fun j => is_live_heartbeat_of sid j = true) js.

(** A queued delivery's job: claimed, in memory and on disk, and of the lane's session. *)
Definition delivery_ok (s : Sched) (lane : string) (i : nat) : Prop :=
  exists j d, s_jobs s !! i = Some j /\ s_disk s !! i = Some d /\
    job_activeSessionId j = lane /\ is_Some (job_claimedAt j) /\ is_Some (job_claimedAt d).

Record Inv (s : Sched) : Prop := mkInv {
  inv_jobs : Forall job_ok (s_jobs s);
  inv_disk : Forall job_ok (s_disk s);
  inv_ids : map job_id (s_disk s) = map job_id (s_jobs s);
  inv_hb : forall sid, (length (live_heartbeats sid (s_jobs s)) <= 1)%nat;
  inv_hb_disk : forall sid, (length (live_heartbeats sid (s_disk s)) <= 1)%nat;
  inv_lane : forall lane l i, s_lanes s !! lane = Some l -> i ∈ lane_queue l -> delivery_ok s lane i;
  inv_nodup : forall lane l, s_lanes s !! lane = Some l -> NoDup (lane_queue l);
  inv_sends : forall i, (sends i (s_trace s) <= claims i (s_trace s))%nat /\
                        (queued i s -> (sends i (s_trace s) < claims i (s_trace s))%nat)
}.

Lemma live_heartbeats_keeps sid js js' :
  Forall2 keeps js js' -> (length (live_heartbeats sid js') <= length (live_heartbeats sid js))%nat.
Proof.
  unfold live_heartbeats. induction 1 as [|j j' js js' Hk _ IH]; [done|].
  assert (is_live_heartbeat_of sid j' = true -> is_live_heartbeat_of sid j = true) as Hi.
  { unfold is_live_heartbeat_of. rewrite (k_session _ _ Hk), (k_source _ _ Hk).
    intros [H1 H2]%andb_true_iff. rewrite H1. by apply (k_live _ _ Hk). }
  rewrite !filter_cons. destruct (decide (is_live_heartbeat_of sid j' = true)) as [Hj'|Hj'].
  - rewrite decide_True by auto. cbn. lia.
  - case_decide; cbn; lia.
Qed.

Lemma keeps_claim_keeps js js' : Forall2 keeps_claim js js' -> Forall2 keeps js js'.
Proof. intros HF. eapply Forall2_impl; [exact HF|]. by intros ? ? [? _]. Qed.

Lemma keeps_ids js js' : Forall2 keeps js js' -> map job_id js' = map job_id js.
Proof. induction 1 as [|? ? ? ? Hk _ IH]; cbn; [done|]. by rewrite (k_id _ _ Hk), IH. Qed.

Lemma keeps_ok js js' : Forall2 keeps js js' -> Forall job_ok js -> Forall job_ok js'.
Proof. induction 1 as [|? ? ? ? Hk _ IH]; intros Hf; inversion Hf; subst; constructor; [by apply Hk|by apply IH]. Qed.

(** ** Preservation: the shapes of state change *)

Lemma arm_same now s :
  s_jobs (arm now s) = s_jobs s /\ s_disk (arm now s) = s_disk s /\ s_lanes (arm now s) = s_lanes s /\
  s_trace (arm now s) = s_trace s /\ s_handles (arm now s) = s_handles s /\ s_stopped (arm now s) = s_stopped s.
Proof. unfold arm. destruct (s_stopped s) eqn:E; cbn; rewrite ?E; split_and!; reflexivity. Qed.

(** The fields of [mutate]'s result; the trace grows by [heartbeats_changed] at most. *)
Lemma mutate_same now edit s :
  exists ev, (ev = [] \/ ev = [EvChanged]) /\
    s_jobs (mutate now edit s) = edit (s_jobs s) /\ s_disk (mutate now edit s) = edit (s_jobs s) /\
    s_lanes (mutate now edit s) = s_lanes s /\ s_trace (mutate now edit s) = s_trace s ++ ev /\
    s_handles (mutate now edit s) = s_handles s.
Proof.
  unfold mutate. cbv zeta.
  destruct (decide (catalogSignature (edit (s_jobs s)) = catalogSignature (s_jobs s))).
  - exists []. pose proof (arm_same now (write (with_jobs (edit (s_jobs s)) s))) as (-> & -> & -> & -> & -> & _).
    cbn. rewrite app_nil_r. split_and!; auto.
  - exists [EvChanged]. pose proof (arm_same now (emit [EvChanged] (write (with_jobs (edit (s_jobs s)) s)))) as (-> & -> & -> & -> & -> & _).
    cbn. split_and!; auto.
Qed.

Lemma quiet_counts i ev : ev = [] \/ ev = [EvChanged] -> sends i ev = O /\ claims i ev = O.
Proof. by intros [->| ->]. Qed.

(** A state with the same lanes and no new sends or claims, whose jobs were edited and written. *)
Lemma Inv_edit s s' ev :
  Inv s -> s_disk s' = s_jobs s' -> s_lanes s' = s_lanes s -> s_trace s' = s_trace s ++ ev ->
  (forall i, sends i ev = O /\ claims i ev = O) ->
  edit_ok (s_jobs s) (s_jobs s') -> (forall sid, (length (live_heartbeats sid (s_jobs s')) <= 1)%nat) -> Inv s'.
Proof.
  intros [Hj Hd Hids Hhb Hhbd Hl Hn Hs] Hdisk Hlanes Htr Hq (old & new & Hjs & Hold & Hnew) Hhb'.
  assert (Forall job_ok (s_jobs s')) as Hok.
  { rewrite Hjs. apply Forall_app. split.
    - eapply keeps_ok; [by apply keeps_claim_keeps|done].
    - eapply Forall_impl; [exact Hnew|]. by intros ? [? _]. }
  split; rewrite ?Hdisk; try done.
  - intros lane l i Hlane Hin. rewrite Hlanes in Hlane.
    destruct (Hl _ _ _ Hlane Hin) as (j & d & Hji & _ & Hsess & Hcl & _).
    eapply Forall2_lookup_l in Hold as (j' & Hj' & Hk & Hc); [|exact Hji].
    exists j', j'. rewrite Hdisk, Hjs, lookup_app_l by (by eapply lookup_lt_Some). rewrite Hc, (k_session _ _ Hk). done.
  - rewrite Hlanes. done.
  - intros i. rewrite Htr, sends_app, claims_app. destruct (Hq i) as [-> ->]. rewrite !Nat.add_0_r.
    destruct (Hs i) as [Hle Hlt]. split; [done|]. unfold queued in *. rewrite Hlanes. done.
Qed.

Lemma Inv_mutate now edit s :
  Inv s -> edit_ok (s_jobs s) (edit (s_jobs s)) ->
  (forall sid, (length (live_heartbeats sid (edit (s_jobs s))) <= 1)%nat) -> Inv (mutate now edit s).
Proof.
  intros HI He Hhb. destruct (mutate_same now edit s) as (ev & Hev & Hj & Hd & Hl & Ht & _).
  eapply (Inv_edit s _ ev); rewrite ?Hj, ?Hd, ?Hl; try done. intros i. by apply quiet_counts.
Qed.

(** An edit with no new user heartbeat keeps the bound on live ones. *)
Lemma edit_hb js js' sid :
  (exists old new, js' = old ++ new /\ Forall2 keeps js old /\ live_heartbeats sid new = []) ->
  (length (live_heartbeats sid js') <= length (live_heartbeats sid js))%nat.
Proof.
  intros (old & new & -> & Hk & Hn). unfold live_heartbeats in *. rewrite filter_app, length_app, Hn. cbn.
  pose proof (live_heartbeats_keeps sid _ _ Hk) as H. unfold live_heartbeats in H. lia.
Qed.

Lemma Inv_mutate_patch now i fs s :
  Inv s -> (forall j, s_jobs s !! i = Some j -> keeps_claim j (patch fs j)) -> Inv (mutate now (patch_at i fs) s).
Proof.
  intros HI Hk. apply Inv_mutate; [done|by apply edit_ok_patch_at|].
  intros sid. etrans; [|apply (inv_hb _ HI sid)]. apply live_heartbeats_keeps.
  apply keeps_claim_keeps, Forall2_alter; [apply _|done].
Qed.

Lemma Inv_mutate_map now f s :
  Inv s -> (forall j, keeps_claim j (f j)) -> Inv (mutate now (map f) s).
Proof.
  intros HI Hk. assert (Forall2 keeps_claim (s_jobs s) (map f (s_jobs s))) as HF by (apply Forall2_map_r; auto).
  apply Inv_mutate; [done| |].
  - exists (map f (s_jobs s)), []. by rewrite app_nil_r.
  - intros sid. etrans; [|apply (inv_hb _ HI sid)]. by apply live_heartbeats_keeps, keeps_claim_keeps.
Qed.

(** ** Every operation preserves the invariant *)

Section Ops.
Context `{HostTime}.

Lemma parseSchedule_recurs input now sc t :
  parseSchedule input now = Ok (sc, t) -> kind sc <> KOnce -> recurs sc.
Proof.
  unfold parseSchedule. intros Hp Hk. destruct (bool_decide _); [done|].
  destruct (match_amount ["in"%string] _ _) as [[n u]|]; [by simp_ok|].
  destruct (match_amount _ _ _) as [[n u]|].
  - destruct (_ <? _) eqn:E; simp_ok. cbn. eexists. split; [done|]. unfold SECOND in *. lia.
  - destruct (eq_ci _ _).
    + destruct (date_parse _); [|done]. destruct (_ <=? _); by simp_ok.
    + apply bind_ok in Hp as (u & _ & Hp). by simp_ok.
Qed.

Lemma create_spec uuid now sid source input s j :
  create uuid now sid source input s = Ok j -> (source = SrcCron \/ c_recurring input = true) ->
  job_ok j /\ job_claimedAt j = None /\ job_activeSessionId j = sid /\ job_source j = source /\
  job_status j = Active /\ job_id j = uuid /\ job_createdAt j = now /\ job_updatedAt j = now.
Proof.
  unfold create. intros Hc Hr. apply bind_ok in Hc as ([h file] & _ & Hc).
  destruct (bool_decide (trim _ = _)); [done|].
  apply bind_ok in Hc as ([sc next] & Hp & Hc).
  destruct (_ && _) eqn:E; [done|]. apply bind_ok in Hc as (n & _ & Hc). simp_ok. cbn.
  split_and!; try done. split; [done|]. intros Hh. cbn in *. eapply parseSchedule_recurs; [exact Hp|].
  intros Hk. destruct Hr as [->|Hr]; [done|]. rewrite Hr in E. cbn in E. by simp_ok.
Qed.

Lemma is_live_cancelled now j : isLive (patch (cancel_fields now) j) = false.
Proof. by destruct j. Qed.

Lemma Inv_append now j s :
  Inv s -> job_ok j -> job_claimedAt j = None -> job_source j <> SrcHeartbeat ->
  Inv (mutate now (fun js => js ++ [j]) s).
Proof.
  intros HI Hok Hc Hsrc. apply Inv_mutate; [done| |].
  - exists (s_jobs s), [j]. split_and!; [done|by apply Forall2_refl_on, _|by apply Forall_singleton].
  - intros sid. etrans; [|apply (inv_hb _ HI sid)]. apply edit_hb. exists (s_jobs s), [j].
    split_and!; [done|by apply Forall2_refl_on, _|].
    unfold live_heartbeats. rewrite filter_cons_False; [done|]. unfold is_live_heartbeat_of.
    rewrite (bool_decide_eq_false_2 (job_source j = _)) by done. by rewrite andb_false_r.
Qed.

Definition cancel_live (sid : string) (at_ : Z) (old : Job) : Job :=
  if is_live_heartbeat_of sid old then patch (cancel_fields at_) old else old.

Lemma cancel_live_keeps sid at_ j : keeps_claim j (cancel_live sid at_ j).
Proof. unfold cancel_live. destruct (is_live_heartbeat_of _ _); eauto with sieun. reflexivity. Qed.

Lemma cancel_live_none sid at_ js : live_heartbeats sid (map (cancel_live sid at_) js) = [].
Proof.
  unfold live_heartbeats. induction js as [|j js IH]; [done|]. cbn [map]. rewrite filter_cons_False; [done|].
  unfold cancel_live. destruct (is_live_heartbeat_of sid j) eqn:E; [|congruence].
  unfold is_live_heartbeat_of. by rewrite is_live_cancelled, andb_false_r.
Qed.

Lemma Inv_setHeartbeat uuid now sid sched prompt mode s job s' :
  Inv s -> setHeartbeat uuid now sid sched prompt mode s = Ok (job, s') -> Inv s'.
Proof.
  intros HI Hs. apply bind_ok in Hs as (j & Hc & Hs). simp_ok.
  apply create_spec in Hc as (Hok & Hcl & Hsess & Hsrc & _); [|by right].
  change (Inv (mutate now (fun js => map (cancel_live sid (job_createdAt job)) js ++ [job]) s)).
  assert (forall js, Forall2 keeps_claim js (map (cancel_live sid (job_createdAt job)) js)) as HF.
  { intros js. apply Forall2_map_r. intros ? _. apply cancel_live_keeps. }
  apply Inv_mutate; [done| |].
  - eexists _, [job]. split_and!; [reflexivity|apply HF|by apply Forall_singleton].
  - intros sid'. destruct (decide (sid' = sid)) as [->|Hne].
    + unfold live_heartbeats. rewrite filter_app. fold (live_heartbeats sid (map (cancel_live sid (job_createdAt job)) (s_jobs s))).
      rewrite cancel_live_none, app_nil_l, filter_cons, filter_nil. case_decide; cbn; lia.
    + etrans; [|apply (inv_hb _ HI sid')]. apply edit_hb. eexists _, [job].
      split_and!; [reflexivity|apply keeps_claim_keeps, HF|].
      unfold live_heartbeats. rewrite filter_cons_False; [done|]. unfold is_live_heartbeat_of.
      rewrite bool_decide_eq_false_2 by congruence. done.
Qed.

Lemma live_keep j : isLive j = true -> forall b : bool, b = true -> isLive j = true.
Proof. done. Qed.

Lemma Inv_manage now sid id action s r s' :
  Inv s -> manage now sid id action s = Ok (r, s') -> Inv s'.
Proof.
  intros HI. unfold manage. destruct (find_job id s) as [i|]; [|by intros; simp_ok].
  destruct (s_jobs s !! i) as [job|] eqn:Hi; [|by intros; simp_ok].
  destruct (_ || _ || _) eqn:Hg; [by intros; simp_ok|].
  assert (isLive job = true) as Hl by (simp_ok; done). clear Hg.
  intros Hm. apply bind_ok in Hm as (fields & Hf & Hm). simp_ok.
  apply Inv_mutate_patch; [done|]. intros j Hj. rewrite Hi in Hj. injection Hj as <-. clear Hi.
  assert (exists st n, fields = [FStatus st; FNextRunAt n] /\ (st <> Active -> n = None)) as (st & n & -> & Hst).
  { destruct action; [simp_ok; eauto| |simp_ok; eauto].
    apply bind_ok in Hf as ([t|] & _ & Hf); [|done]. apply bind_ok in Hf as (u & _ & Hf). simp_ok. by do 2 eexists. }
  clear Hf. destruct job. split; [split|done]; try done. intros [_ Hr]. by split.
Qed.

Lemma rlm_fields_keep now job u fs :
  isLive job = true -> rlm_update_fields now job u = Ok fs -> keeps_claim job (patch fs job).
Proof.
  intros Hlive. unfold rlm_update_fields. intros Hu.
  apply bind_ok in Hu as (fp & Hp & Hu). apply bind_ok in Hu as ([f_s sc] & Hs & Hu).
  apply bind_ok in Hu as (fn & Hn & Hu). simp_ok.
  assert (fp = [] \/ exists p, fp = [FPrompt p]) as Hfp.
  { destruct (u_instruction u); [|simp_ok; by left]. destruct (bool_decide _); [done|]. simp_ok. right. by eexists. }
  assert ((f_s = [] /\ sc = job_schedule job) \/ exists n, f_s = [FSchedule sc; FNextRunAt (Some n)] /\ recurs sc) as Hfs.
  { destruct (u_interval u) as [iv|]; [|simp_ok; by left].
    apply bind_ok in Hs as ([sc' n] & Hps & Hs). destruct (bool_decide (kind sc' = KOnce)) eqn:E; [done|].
    apply bind_ok in Hs as (n' & _ & Hs). simp_ok. right. exists n'. split; [done|].
    eapply parseSchedule_recurs; [done|]. by simp_ok. }
  set (status := match u_status u with Some MPause => Paused | Some MResume => Active | _ => job_status job end) in *.
  assert (status = Paused /\ fn = [FNextRunAt None] \/ status = Active /\ (fn = [] \/ exists t, fn = [FNextRunAt (Some t)])) as Hfn.
  { destruct (bool_decide (status = Paused)) eqn:E; simp_ok; [by left|]. right. split.
    - subst status. unfold isLive in Hlive. destruct (u_status u) as [[]|]; try done;
        destruct (job_status job); done.
    - destruct (u_status u) as [[]|]; simp_ok; try by left.
      apply bind_ok in Hn as ([t|] & _ & Hn); [|done]. apply bind_ok in Hn as (v & _ & Hn). simp_ok. right. by eexists. }
  clearbody status. clear -Hfp Hfs Hfn Hlive.
  destruct job. unfold patch. rewrite !fold_left_app.
  destruct (u_label u), (u_deliveryMode u), Hfp as [->|[p ->]], Hfs as [[-> ->]|(n & -> & Hr)],
    Hfn as [[-> ->]|[-> [->|[t ->]]]];
    (split; [split; try done; try (intros _; exact Hlive)|done]).
  all: intros [Hpk Hrec]; split; cbn in *; try done; try exact Hrec; intros _; exact Hr.
Qed.

Lemma Inv_updateRlm now sid id u s r s' :
  Inv s -> updateRlmHeartbeat now sid id u s = Ok (r, s') -> Inv s'.
Proof.
  intros HI. unfold updateRlmHeartbeat. destruct (find_job id s) as [i|]; [|by intros; simp_ok].
  destruct (s_jobs s !! i) as [job|] eqn:Hi; [|by intros; simp_ok].
  destruct (_ || _ || _) eqn:Hg; [by intros; simp_ok|].
  intros Hm. apply bind_ok in Hm as (fields & Hf & Hm). simp_ok.
  apply Inv_mutate_patch; [done|]. intros j Hj. rewrite Hi in Hj. injection Hj as <-.
  by eapply rlm_fields_keep.
Qed.

(** The operations that stop jobs write [cancel_fields] only. *)
Lemma Inv_cancel now i s : Inv s -> Inv (mutate now (patch_at i (cancel_fields now)) s).
Proof. intros HI. apply Inv_mutate_patch; [done|]. intros j _. apply keeps_claim_cancel. Qed.

Lemma Inv_cancelSession now sid s : Inv s -> Inv (cancelSession now sid s).2.
Proof.
  intros HI. unfold cancelSession. destruct (existsb _ _); [|done]. cbn.
  apply Inv_mutate_map; [done|]. intros j. destruct (is_live_of sid j); [apply keeps_claim_cancel|reflexivity].
Qed.

Lemma cancelTree_ind (P : Sched -> Prop) now sid s :
  P s -> (forall id s', P s' -> P (cancelSession now id s').2) -> P (cancelTree now sid s).2.
Proof.
  intros Hs Hstep. unfold cancelTree.
  assert (forall ids acc, P acc.2 -> P (fold_left (fun acc id => let '(js, s') := cancelSession now id acc.2 in (acc.1 ++ js, s')) ids acc).2) as Hf.
  { induction ids as [|id ids IH]; intros acc Ha; [done|]. cbn. apply IH.
    pose proof (Hstep id acc.2 Ha) as Hc. by destruct (cancelSession now id acc.2). }
  by apply Hf.
Qed.

(** ** Claims *)

Lemma imap_pair_elem {A} (l : list A) i x : (i, x) ∈ imap pair l <-> l !! i = Some x.
Proof.
  rewrite list_elem_of_lookup. split.
  - intros [k Hk]. rewrite list_lookup_imap in Hk. destruct (l !! k) eqn:E; cbn in Hk; by simplify_eq.
  - intros Hl. exists i. by rewrite list_lookup_imap, Hl.
Qed.

Lemma due_indices_elem now js i :
  i ∈ due_indices now js <-> exists j, js !! i = Some j /\ is_due now j = true.
Proof.
  unfold due_indices. rewrite list_elem_of_omap. split.
  - intros ([k j] & Hin & Hf). apply imap_pair_elem in Hin. cbn in Hf.
    destruct (is_due now j) eqn:E; [|done]. simp_ok. eauto.
  - intros (j & Hj & Hd). exists (i, j). rewrite imap_pair_elem. cbn. by rewrite Hd.
Qed.

Lemma imap_pair_sorted {A} (l : list A) k :
  NoDup (imap (fun n x => ((k + n)%nat, x)) l).*1.
Proof.
  revert k. induction l as [|x l IH]; intros k; [constructor|]. cbn. constructor.
  - rewrite list_elem_of_fmap. intros ([n y] & Hn & Hin). cbn in Hn. subst.
    apply list_elem_of_lookup in Hin as [m Hm]. rewrite list_lookup_imap in Hm.
    destruct (l !! m); cbn in Hm; simplify_eq. lia.
  - specialize (IH (S k)). erewrite imap_ext; [exact IH|]. intros n y _. cbn. f_equal. lia.
Qed.

Lemma due_indices_NoDup now js : NoDup (due_indices now js).
Proof.
  unfold due_indices. pose proof (imap_pair_sorted js 0) as Hnd.
  change (fun (n : nat) (x : Job) => ((0 + n)%nat, x)) with (@pair nat Job) in Hnd.
  induction (imap pair js) as [|[i j] l IH]; [constructor|]. cbn in *.
  apply NoDup_cons in Hnd as [Hn Hnd]. destruct (is_due now j); [|by apply IH].
  apply NoDup_cons. split; [|by apply IH]. rewrite list_elem_of_omap. intros ([k y] & Hin & Hk). cbn in Hk.
  destruct (is_due now y); simp_ok. apply Hn, list_elem_of_fmap. by exists (i, y).
Qed.

Definition claim_fields (now : Z) (next : option Z) : list FieldSet := [FClaimedAt (Some now); FNextRunAt next].

(** What the claim loop did to one job. *)
Lemma claim_all_lookup now due js js' e i j' :
  NoDup due -> claim_all now due js = (js', e) -> js' !! i = Some j' ->
  exists j, js !! i = Some j /\
    ((j' = j /\ (i ∈ due -> e <> None)) \/
     (i ∈ due /\ exists next, claim_next now j = Ok next /\ j' = patch (claim_fields now next) j)).
Proof.
  revert js. induction due as [|k due IH]; intros js Hnd Hc Hi; cbn [claim_all] in Hc.
  - simplify_eq. exists j'. split; [done|]. left. split; [done|]. set_solver.
  - apply NoDup_cons in Hnd as [Hk Hnd]. destruct (js !! k) as [jk|] eqn:Hjk.
    + destruct (claim_next now jk) as [next|err] eqn:Hn.
      * destruct (IH _ Hnd Hc Hi) as (j & Hj & Hcase). unfold patch_at in Hj.
        destruct (decide (i = k)) as [->|Hne].
        -- rewrite list_lookup_alter_eq, Hjk in Hj. cbn in Hj. simplify_eq. exists jk. split; [done|].
           destruct Hcase as [[-> _]|[Hin _]]; [|done]. right. split; [set_solver|]. eauto.
        -- rewrite list_lookup_alter_ne in Hj by done. exists j. split; [done|].
           destruct Hcase as [[-> Hd]|[Hin Hr]]; [left|right; set_solver]. split; [done|]. set_solver.
      * simplify_eq. exists j'. split; [done|]. by left.
    + destruct (IH _ Hnd Hc Hi) as (j & Hj & Hcase). exists j. split; [done|].
      assert (i <> k) by congruence.
      destruct Hcase as [[-> Hd]|[Hin Hr]]; [left|right; set_solver]. split; [done|]. set_solver.
Qed.

Lemma claim_all_length now due js : length (claim_all now due js).1 = length js.
Proof.
  revert js. induction due as [|k due IH]; intros js; [done|]. cbn.
  destruct (js !! k); [|apply IH]. destruct (claim_next now j); [|done]. rewrite IH. apply length_alter.
Qed.

Lemma claim_all_keeps now due js :
  NoDup due -> (forall i j, i ∈ due -> js !! i = Some j -> job_status j = Active) ->
  Forall2 keeps js (claim_all now due js).1.
Proof.
  intros Hnd Hact. apply Forall2_same_length_lookup. split; [by rewrite claim_all_length|].
  intros i j j' Hj Hj'. destruct (claim_all now due js) as [js' e] eqn:E. cbn in Hj'.
  destruct (claim_all_lookup _ _ _ _ _ _ _ Hnd E Hj') as (j0 & Hj0 & Hc).
  rewrite Hj in Hj0. injection Hj0 as <-. destruct Hc as [[-> _]|[Hin (next & _ & ->)]]; [reflexivity|].
  pose proof (Hact _ _ Hin Hj). destruct j; cbn in *. split; try done. intros [_ Hr]. by split.
Qed.

(** ** The queue *)

Definition ready (i : nat) (s : Sched) : Prop :=
  exists j d, s_jobs s !! i = Some j /\ s_disk s !! i = Some d /\ is_Some (job_claimedAt j) /\ is_Some (job_claimedAt d).

Lemma Inv_queue i s :
  Inv s -> ready i s -> ~ queued i s -> (sends i (s_trace s) < claims i (s_trace s))%nat -> Inv (queue i s).
Proof.
  intros [Hj Hd Hids Hhb Hhbd Hl Hn Hs] (j & d & Hji & Hdi & Hcj & Hcd) Hnq Hlt.
  unfold queue. rewrite Hji. set (lane := job_activeSessionId j).
  set (old := default (mkLane [] false) (s_lanes s !! lane)).
  assert (forall k, k ∈ lane_queue old -> queued k s) as Hold.
  { intros k Hk. subst old. destruct (s_lanes s !! lane) as [l|] eqn:E; cbn in Hk; [by exists lane, l|set_solver]. }
  split; cbn; try done.
  - intros lane' l k. rewrite lookup_insert. case_decide as Hlane.
    + intros ? Hk. simp_ok. cbn in Hk. apply elem_of_app in Hk as [Hk|Hk%list_elem_of_singleton].
      * subst old. destruct (s_lanes s !! lane) as [l|] eqn:E; cbn in Hk; [by apply (Hl lane l)|set_solver].
      * subst k. by exists j, d.
    + intros Hlk Hk. by apply (Hl lane' l).
  - intros lane' l. rewrite lookup_insert. case_decide; intros; simp_ok; [|by eapply Hn].
    cbn. apply NoDup_app. split_and!.
    + subst old. destruct (s_lanes s !! lane) eqn:E; cbn; [by eapply Hn|constructor].
    + intros k Hk ->%list_elem_of_singleton. by apply Hnq, Hold.
    + apply NoDup_singleton.
  - intros k. destruct (Hs k) as [Hle Hq]. split; [done|]. intros (lane' & l & Hlk & Hk). cbn in Hlk.
    rewrite lookup_insert in Hlk. case_decide; simp_ok; [|apply Hq; by exists lane', l].
    cbn in Hk. apply elem_of_app in Hk as [Hk| ->%list_elem_of_singleton]; [by apply Hq, Hold|done].
Qed.

Lemma queue_same i s :
  s_jobs (queue i s) = s_jobs s /\ s_disk (queue i s) = s_disk s /\ s_trace (queue i s) = s_trace s /\
  s_timer (queue i s) = s_timer s /\ s_stopped (queue i s) = s_stopped s.
Proof. unfold queue. by destruct (s_jobs s !! i). Qed.

Lemma queued_queue k i s : queued k (queue i s) -> queued k s \/ k = i.
Proof.
  unfold queue. destruct (s_jobs s !! i) as [j|]; [|by left].
  intros (lane & l & Hl & Hk). cbn in Hl. rewrite lookup_insert in Hl. case_decide as Hd; simp_ok; [|left; by exists lane, l].
  cbn in Hk. apply elem_of_app in Hk as [Hk|Hk%list_elem_of_singleton]; [|by right]. left.
  destruct (s_lanes s !! job_activeSessionId j) as [l|] eqn:E; cbn in Hk; [by eexists _, l|set_solver].
Qed.

Lemma Inv_queue_all due s :
  Inv s -> NoDup due ->
  (forall i, i ∈ due -> ready i s /\ ~ queued i s /\ (sends i (s_trace s) < claims i (s_trace s))%nat) ->
  Inv (fold_left (fun s i => queue i s) due s).
Proof.
  revert s. induction due as [|i due IH]; intros s HI Hnd Hpre; [done|]. cbn.
  apply NoDup_cons in Hnd as [Hi Hnd]. destruct (Hpre i) as (Hr & Hq & Hlt); [set_solver|].
  apply IH; [by apply Inv_queue|done|]. intros k Hk. destruct (Hpre k) as (Hrk & Hqk & Hltk); [set_solver|].
  unfold ready in *. destruct (queue_same i s) as (-> & -> & -> & _). split_and!; [done| |done].
  intros [Hq'|Heq]%queued_queue; [done|]. congruence.
Qed.

Lemma claims_map_claim i due : NoDup due -> claims i (map EvClaim due) = if decide (i ∈ due) then 1%nat else O.
Proof.
  induction due as [|k due IH]; intros Hnd; [done|]. apply NoDup_cons in Hnd as [Hk Hnd].
  unfold claims in *. cbn [map]. rewrite filter_cons. cbn [is_claim].
  destruct (decide (i = k)) as [->|Hne].
  - rewrite decide_True by (by apply bool_decide_eq_true). rewrite decide_True by set_solver. cbn.
    rewrite IH by done. by rewrite decide_False.
  - rewrite decide_False by (rewrite bool_decide_eq_true; congruence). rewrite IH by done.
    repeat case_decide; set_solver.
Qed.

Lemma sends_map_claim i due : sends i (map EvClaim due) = O.
Proof. induction due; [done|]. unfold sends in *. cbn [map]. by rewrite filter_cons_False. Qed.

(** The state after the claims are written and before they are queued. *)
Lemma Inv_claimed now s js :
  Inv s -> claim_all now (due_indices now (s_jobs s)) (s_jobs s) = (js, None) ->
  let due := due_indices now (s_jobs s) in
  let s1 := emit (map EvClaim due) (write (with_jobs js s)) in
  Inv s1 /\ forall i, i ∈ due -> ready i s1 /\ ~ queued i s1 /\ (sends i (s_trace s1) < claims i (s_trace s1))%nat.
Proof.
  intros HI Hc due s1. pose proof (due_indices_NoDup now (s_jobs s)) as Hnd. fold due in Hnd, Hc.
  assert (forall i, i ∈ due -> exists j, s_jobs s !! i = Some j /\ job_status j = Active /\ job_claimedAt j = None) as Hdue.
  { intros i (j & Hj & Hd)%due_indices_elem. exists j. unfold is_due, is_due_candidate in Hd. by simp_ok. }
  assert (Forall2 keeps (s_jobs s) js) as HF.
  { pose proof (claim_all_keeps now due (s_jobs s) Hnd) as HF. rewrite Hc in HF. apply HF.
    intros i j Hi Hj. destruct (Hdue i Hi) as (j' & Hj' & Hact & _). congruence. }
  assert (forall i, i ∈ due -> ~ queued i s) as Hnq.
  { intros i Hi (lane & l & Hl & Hin). destruct (Hdue i Hi) as (j & Hj & _ & Hnone).
    destruct (inv_lane _ HI _ _ _ Hl Hin) as (j' & _ & Hj' & _ & _ & [c Hcl] & _). congruence. }
  split.
  - destruct HI as [Hj Hd Hids Hhb Hhbd Hl Hn Hs].
    assert (forall sid, (length (live_heartbeats sid js) <= 1)%nat) as Hhb'.
    { intros sid. etrans; [|apply (Hhb sid)]. by apply live_heartbeats_keeps. }
    split; cbn; try done; [by eapply keeps_ok|by eapply keeps_ok| |].
    + intros lane l i Hlane Hin. destruct (Hl _ _ _ Hlane Hin) as (j & d & Hji & _ & Hsess & Hcl & _).
      destruct (Forall2_lookup_l _ _ _ _ _ HF Hji) as (j' & Hj' & Hk).
      destruct (claim_all_lookup _ _ _ _ _ _ _ Hnd Hc Hj') as (j0 & Hj0 & Hcase).
      rewrite Hji in Hj0. injection Hj0 as <-.
      destruct Hcase as [[-> _]|[Hdu _]]; [|exfalso; apply (Hnq i Hdu); by exists lane, l].
      by exists j, j.
    + intros i. rewrite sends_app, claims_app, sends_map_claim, claims_map_claim by done.
      destruct (Hs i) as [Hle Hq]. split; [lia|]. intros Hqi. specialize (Hq Hqi). lia.
  - intros i Hi. destruct (Hdue i Hi) as (j & Hji & _ & _).
    destruct (Forall2_lookup_l _ _ _ _ _ HF Hji) as (j' & Hj' & Hk).
    destruct (claim_all_lookup _ _ _ _ _ _ _ Hnd Hc Hj') as (j0 & Hj0 & Hcase).
    rewrite Hji in Hj0. injection Hj0 as <-.
    destruct Hcase as [[_ Hno]|[_ (next & _ & ->)]]; [by destruct (Hno Hi)|].
    split_and!.
    + eexists _, _. split_and!; [exact Hj'|exact Hj'|by eexists|by eexists].
    + exact (Hnq i Hi).
    + unfold s1. cbn. rewrite sends_app, claims_app, sends_map_claim, claims_map_claim, decide_True by done.
      destruct (inv_sends _ HI i). lia.
Qed.

Lemma Inv_arm now s : Inv s -> Inv (arm now s).
Proof.
  intros HI. destruct (arm_same now s) as (Hj & Hd & Hl & Ht & _).
  destruct HI. split; rewrite ?Hj, ?Hd, ?Hl, ?Ht; try done.
  - intros lane l i Hlane Hi. unfold delivery_ok. rewrite Hj, Hd. by apply inv_lane0 with l.
  - unfold queued. rewrite Hl. done.
Qed.

Lemma Inv_runDue now s : Inv s -> Inv (runDue now s).2.
Proof.
  intros HI. unfold runDue. destruct (due_indices now (s_jobs s)) as [|i0 due0] eqn:Ed; [by apply Inv_arm|].
  rewrite <- Ed. destruct (claim_all now (due_indices now (s_jobs s)) (s_jobs s)) as [js [e|]] eqn:Hc; cbn.
  - (* an exception: the claims made stay in memory only *)
    pose proof (due_indices_NoDup now (s_jobs s)) as Hnd.
    assert (Forall2 keeps (s_jobs s) js) as HF.
    { pose proof (claim_all_keeps now _ (s_jobs s) Hnd) as HF. rewrite Hc in HF. apply HF.
      intros i j (j' & Hj' & Hd)%due_indices_elem Hj. unfold is_due, is_due_candidate in Hd. simp_ok. congruence. }
    destruct HI as [Hj Hd Hids Hhb Hhbd Hl Hn Hs]. split; cbn; try done; [by eapply keeps_ok| | |].
    + rewrite (keeps_ids _ _ HF). done.
    + intros sid. etrans; [|apply (Hhb sid)]. by apply live_heartbeats_keeps.
    + intros lane l i Hlane Hin. destruct (Hl _ _ _ Hlane Hin) as (j & d & Hji & Hdi & Hsess & Hcl & Hcd).
      destruct (Forall2_lookup_l _ _ _ _ _ HF Hji) as (j' & Hj' & Hk). exists j', d. cbn.
      split_and!; try done; [by rewrite (k_session _ _ Hk)|].
      destruct (claim_all_lookup _ _ _ _ _ _ _ Hnd Hc Hj') as (j0 & Hj0 & Hcase).
      rewrite Hji in Hj0. injection Hj0 as <-. destruct Hcase as [[-> _]|[_ (next & _ & ->)]]; [done|by eexists].
  - apply Inv_arm. destruct (Inv_claimed now s js HI Hc) as [H1 H2].
    apply Inv_queue_all; [done|apply due_indices_NoDup|done].
Qed.

(** ** Deliveries that report back *)

Definition pop_lane (lane : string) (q : list nat) (ls : gmap string Lane) : gmap string Lane :=
  match q with [] => delete lane ls | _ => <[lane := mkLane q false]> ls end.

Lemma Inv_report s s' lane i q b ev :
  Inv s -> s_lanes s !! lane = Some (mkLane (i :: q) b) ->
  s_disk s' = s_jobs s' -> Forall2 keeps (s_jobs s) (s_jobs s') ->
  (forall k, k <> i -> s_jobs s' !! k = s_jobs s !! k) ->
  s_lanes s' = pop_lane lane q (s_lanes s) -> s_trace s' = s_trace s ++ ev ->
  (forall k, claims k ev = O /\ (sends k ev <= if decide (k = i) then 1 else 0)%nat) -> Inv s'.
Proof.
  intros [Hj Hd Hids Hhb Hhbd Hl Hn Hs] Hlane Hdisk HF Hother Hlanes Htr Hev.
  assert (forall lane' l k, s_lanes s' !! lane' = Some l -> k ∈ lane_queue l ->
    k <> i /\ exists l0, s_lanes s !! lane' = Some l0 /\ k ∈ lane_queue l0) as Hstill.
  { intros lane' l k Hl' Hk. rewrite Hlanes in Hl'. pose proof (Hn _ _ Hlane) as Hnd. cbn in Hnd.
    apply NoDup_cons in Hnd as [Hiq _]. destruct (decide (lane' = lane)) as [->|Hne].
    - destruct q as [|k0 q]; cbn in Hl'; [by rewrite lookup_delete_eq in Hl'|].
      rewrite lookup_insert_eq in Hl'. simp_ok. cbn in Hk. split; [congruence|].
      eexists. split; [exact Hlane|]. cbn. set_solver.
    - assert (s_lanes s !! lane' = Some l) as Hl0.
      { destruct q; cbn in Hl'; [by rewrite lookup_delete_ne in Hl'|by rewrite lookup_insert_ne in Hl']. }
      split; [|by exists l]. intros ->.
      destruct (Hl _ _ _ Hl0 Hk) as (j1 & _ & Hj1 & _ & Hs1 & _).
      destruct (Hl _ _ i Hlane) as (j2 & _ & Hj2 & _ & Hs2 & _); [cbn; set_solver|]. congruence. }
  assert (forall sid, (length (live_heartbeats sid (s_jobs s')) <= 1)%nat) as Hhb'.
  { intros sid. etrans; [|apply (Hhb sid)]. by apply live_heartbeats_keeps. }
  split; rewrite ?Hdisk; try done; try by eapply keeps_ok.
  - intros lane' l k Hl' Hk. destruct (Hstill _ _ _ Hl' Hk) as (Hne & l0 & Hl0 & Hk0).
    destruct (Hl _ _ _ Hl0 Hk0) as (j & d & Hjk & _ & Hsess & Hc & _).
    exists j, j. by rewrite Hdisk, Hother.
  - intros lane' l Hl'. rewrite Hlanes in Hl'. pose proof (Hn _ _ Hlane) as Hnd. cbn in Hnd.
    apply NoDup_cons in Hnd as [_ Hnd]. destruct (decide (lane' = lane)) as [->|Hne].
    + destruct q; cbn in Hl'; [by rewrite lookup_delete_eq in Hl'|].
      rewrite lookup_insert_eq in Hl'. by simp_ok.
    + apply (Hn lane'). destruct q; cbn in Hl'; [by rewrite lookup_delete_ne in Hl'|by rewrite lookup_insert_ne in Hl'].
  - intros k. rewrite Htr, sends_app, claims_app. destruct (Hev k) as [-> Hsk].
    destruct (Hs k) as [Hle Hlt]. assert (sends k ev = O \/ queued k s) as Hcase.
    { case_decide as Hki; [subst; right; exists lane, (mkLane (i :: q) b); split; [done|cbn; set_solver]|left; lia]. }
    split.
    + destruct Hcase as [->|Hq]; [lia|]. specialize (Hlt Hq). case_decide; lia.
    + intros (lane' & l & Hl' & Hk). destruct (Hstill _ _ _ Hl' Hk) as (Hne & l0 & Hl0 & Hk0).
      rewrite decide_False in Hsk by done. assert (queued k s) as Hq by (by exists lane', l0).
      specialize (Hlt Hq). lia.
Qed.

Lemma finish_fields_keep now j out err : keeps j (patch (finish_fields now j out err) j).
Proof.
  unfold finish_fields, patch. rewrite !fold_left_app. destruct j as [? st]; cbn.
  destruct out, (bool_decide (kind _ = KOnce)), (bool_decide (st = Active)); cbn;
    (split; cbn; try done; intros [Hp Hr]; split; [by cbn in *|exact Hr]).
Qed.

Lemma lane_done_same lane s :
  s_jobs (lane_done lane s) = s_jobs s /\ s_disk (lane_done lane s) = s_disk s /\ s_trace (lane_done lane s) = s_trace s.
Proof. unfold lane_done. by destruct (s_lanes s !! lane) as [[[|? [|? ?]] ?]|]. Qed.

Lemma lane_done_lanes lane i q b s :
  s_lanes s !! lane = Some (mkLane (i :: q) b) -> s_lanes (lane_done lane s) = pop_lane lane q (s_lanes s).
Proof. unfold lane_done. intros ->. by destruct q. Qed.

(** The head delivery [i] reports back on a state [s1] that differs from the
    invariant one in job [i] and in the events [ev] of this delivery. *)
Lemma Inv_finish now lane i q b s s1 ev out err :
  Inv s -> s_lanes s !! lane = Some (mkLane (i :: q) b) ->
  s_lanes s1 = s_lanes s -> s_trace s1 = s_trace s ++ ev ->
  Forall2 keeps (s_jobs s) (s_jobs s1) -> (forall k, k <> i -> s_jobs s1 !! k = s_jobs s !! k) ->
  (forall k, claims k ev = O /\ (sends k ev <= if decide (k = i) then 1 else 0)%nat) ->
  Inv (lane_done lane (finish now i out err s1)).
Proof.
  intros HI Hlane Hl1 Ht1 HF Hother Hev. unfold finish.
  set (edit := fun js => match js !! i with Some job => patch_at i (finish_fields now job out err) js | None => js end).
  destruct (mutate_same now edit s1) as (ev' & Hev' & Hj & Hd & Hl & Ht & _).
  destruct (lane_done_same lane (mutate now edit s1)) as (Hj2 & Hd2 & Ht2).
  apply (Inv_report s _ lane i q b (ev ++ ev') HI Hlane).
  - by rewrite Hj2, Hd2, Hd, Hj.
  - rewrite Hj2, Hj. etrans; [exact HF|]. unfold edit. destruct (s_jobs s1 !! i) as [j1|] eqn:Hj1.
    + apply Forall2_alter; [apply _|]. intros j Hji. rewrite Hj1 in Hji. injection Hji as <-. apply finish_fields_keep.
    + by apply Forall2_refl_on, _.
  - intros k Hk. rewrite Hj2, Hj, <- (Hother k Hk). unfold edit. destruct (s_jobs s1 !! i); [|done].
    by apply list_lookup_alter_ne.
  - rewrite (lane_done_lanes _ i q b); [by rewrite Hl, Hl1|by rewrite Hl, Hl1].
  - rewrite Ht2, Ht, Ht1. by rewrite app_assoc.
  - intros k. rewrite sends_app, claims_app. destruct (quiet_counts k ev' Hev') as [-> ->].
    destruct (Hev k) as [-> ?]. rewrite !Nat.add_0_r. done.
Qed.

Lemma sends_one k i sid msg mode :
  claims k [EvSend i sid msg mode] = O /\ (sends k [EvSend i sid msg mode] <= if decide (k = i) then 1 else 0)%nat.
Proof.
  split; [done|]. unfold sends. rewrite filter_cons, filter_nil. cbn [is_send].
  destruct (decide (k = i)) as [->|Hne]; [case_decide; cbn; lia|].
  rewrite decide_False by (rewrite bool_decide_eq_true; congruence). done.
Qed.

Lemma Inv_deliver now lane i q b job w s :
  Inv s -> s_lanes s !! lane = Some (mkLane (i :: q) b) -> Inv (lane_done lane (deliver now i job w s)).
Proof.
  intros HI Hlane.
  assert (forall out err, Inv (lane_done lane (finish now i out err s))) as Hquiet.
  { intros out err. apply (Inv_finish now lane i q b s s [] out err); try done; [by rewrite app_nil_r|].
    intros k. split; [done|]. unfold sends. rewrite filter_nil. cbn. lia. }
  assert (forall err sid msg mode, Inv (lane_done lane (finish now i Ran err (emit [EvSend i sid msg mode] s)))) as Hsend.
  { intros. eapply (Inv_finish now lane i q b s _ [EvSend i sid msg mode]); try done.
    intros k. apply sends_one. }
  unfold deliver. destruct (defers job _); [done|]. destruct (isHeartbeat job), (w_send_throws w); auto.
Qed.

Lemma Inv_dispatch_start now lane w s : Inv s -> Inv (dispatch_start now lane w s).
Proof.
  intros HI. unfold dispatch_start. destruct (s_lanes s !! lane) as [[[|i q] []]|] eqn:Hlane; try done.
  destruct (s_jobs s !! i) as [job|] eqn:Hi; [|done].
  assert (forall k, claims k [] = O /\ (sends k [] <= if decide (k = i) then 1 else 0)%nat) as Hnil.
  { intros k. split; [done|]. unfold sends. rewrite filter_nil. cbn. lia. }
  destruct (negb (bool_decide (job_status job = Active))).
  { apply (Inv_finish now lane i q false s s []); try done; by rewrite app_nil_r. }
  destruct (s_handles s !! _); [by eapply Inv_deliver|].
  destruct (negb (w_file_exists w)).
  - eapply (Inv_finish now lane i q false s _ []); try done; [by rewrite app_nil_r| |].
    + apply Forall2_alter; [apply _|]. intros j _. destruct j. split; try done. intros [_ Hr]. by split.
    + intros k Hk. by apply list_lookup_alter_ne.
  - destruct HI as [Hj Hd Hids Hhb Hhbd Hl Hn Hs]. split; cbn; try done.
    + intros lane' l k. rewrite lookup_insert. case_decide; intros; simp_ok; [|by apply (Hl lane' l)].
      apply (Hl _ _ _ Hlane). done.
    + intros lane' l. rewrite lookup_insert. case_decide; intros; simp_ok; [apply (Hn _ _ Hlane)|by apply (Hn lane')].
    + intros k. rewrite sends_app, claims_app. change (sends k [EvReopen i]) with O. change (claims k [EvReopen i]) with O.
      rewrite !Nat.add_0_r.
      destruct (Hs k) as [Hle Hlt]. split; [done|]. intros (lane' & l & Hl' & Hk). apply Hlt. cbn in Hl'.
      rewrite lookup_insert in Hl'. case_decide; simp_ok; [by eexists _, _|by exists lane', l].
Qed.

Lemma Inv_dispatch_resume now lane r w s : Inv s -> Inv (dispatch_resume now lane r w s).
Proof.
  intros HI. unfold dispatch_resume. destruct (s_lanes s !! lane) as [[[|i q] []]|] eqn:Hlane; try done.
  destruct (s_jobs s !! i) as [job|] eqn:Hi; [|done].
  assert (forall out err, Inv (lane_done lane (finish now i out err s))) as Hquiet.
  { intros out err. apply (Inv_finish now lane i q true s s [] out err); try done; [by rewrite app_nil_r|].
    intros k. split; [done|]. unfold sends. rewrite filter_nil. cbn. lia. }
  destruct r; [done|]. destruct (s_handles s !! _); [by eapply Inv_deliver|done].
Qed.

(** ** Restarts, and the invariant of every reachable state *)

Lemma interrupt_keeps j : keeps j (interrupt_job j).
Proof.
  unfold interrupt_job. destruct j as [? ? ? ? ? ? ? ? ? ? ? ? ? ? ? ? ? ? ? [c|]]; cbn; [|reflexivity].
  split; try done. intros [Hp Hr]. by split.
Qed.

Lemma Inv_construct s : Inv s -> Inv (construct (FileJobs (s_disk s)) (s_trace s)).
Proof.
  intros [Hj Hd Hids Hhb Hhbd Hl Hn Hs].
  assert (Forall2 keeps (s_disk s) (map interrupt_job (s_disk s))) as HF.
  { apply Forall2_map_r. intros j _. apply interrupt_keeps. }
  assert (forall sid, (length (live_heartbeats sid (map interrupt_job (s_disk s))) <= 1)%nat) as Hhb'.
  { intros sid. etrans; [|apply (Hhbd sid)]. by apply live_heartbeats_keeps. }
  split; cbn; try done; try by eapply keeps_ok.
  intros i. destruct (Hs i) as [Hle _]. split; [done|]. intros (lane & l & Hl' & _). cbn in Hl'. by apply lookup_empty_Some in Hl'.
Qed.

Lemma Inv_handles hs s : Inv s -> Inv (with_handles hs s).
Proof. by intros []. Qed.

Lemma Inv_step s s' : Inv s -> step s s' -> Inv s'.
Proof.
  intros HI. destruct 1.
  - by apply Inv_handles.
  - unfold detach. destruct (s_handles s !! _); [|done]. destruct (bool_decide _); [by apply Inv_handles|done].
  - by eapply Inv_setHeartbeat.
  - by eapply Inv_manage.
  - unfold updateHeartbeat in *. destruct (heartbeat sid s); [by eapply Inv_manage|by simp_ok].
  - match goal with Hr : _ = Ok _ |- _ => apply bind_ok in Hr as (j & Hc & Hr) end. simp_ok.
    apply create_spec in Hc as (? & ? & ? & Hsrc & _); [|by left]. by apply Inv_append; rewrite ?Hsrc.
  - unfold cancel. destruct (find_job id s); [|done]. destruct (s_jobs s !! n); [|done].
    destruct (bool_decide _); [done|by apply Inv_cancel].
  - by apply Inv_cancelSession.
  - apply cancelTree_ind; [done|]. intros id s' HI'. by apply Inv_cancelSession.
  - match goal with Hr : _ = Ok _ |- _ => apply bind_ok in Hr as (j & Hc & Hr) end. simp_ok.
    apply create_spec in Hc as (? & ? & ? & Hsrc & _); [|by right]. by apply Inv_append; rewrite ?Hsrc.
  - by eapply Inv_updateRlm.
  - unfold deleteRlmHeartbeat. destruct (find_job id s); [|done]. destruct (s_jobs s !! n); [|done].
    destruct (_ || _); [done|by apply Inv_cancel].
  - apply Inv_arm. by destruct HI.
  - by destruct HI.
  - by apply Inv_runDue.
  - apply Inv_runDue. by destruct HI.
  - by apply Inv_dispatch_start.
  - by apply Inv_dispatch_resume.
  - by apply Inv_construct.
Qed.

Lemma Inv_reachable s : reachable s -> Inv s.
Proof.
  induction 1 as [|s s' _ IH Hstep]; [|by eapply Inv_step].
  split; cbn; try done.
  - intros sid. unfold live_heartbeats. cbn. lia.
  - intros sid. unfold live_heartbeats. cbn. lia.
  - intros i. split; [unfold sends, claims; cbn; lia|].
    intros (lane & l & Hl & _). cbn in Hl. by apply lookup_empty_Some in Hl.
Qed.
End Ops.
#[export] Hint Resolve Inv_reachable Inv_step : sieun.

(** ** A concrete run, for the witnesses *)

Module Ex.
#[export] Instance host : HostTime := Utc.host (fun _ => None).
Definition t0 : Z := 1793088000000.
Definition handle : SessionHandle := mkHandle 1 "sess" (Some "/sessions/a.jsonl"%string) "/work" false None.
Definition world : World := mkWorld true (mkActivity false false false false) None.
Definition default_state : Sched := construct NoFile [].
Definition after {A} (r : result (A * Sched)) : Sched := match r with Ok (_, s) => s | Throw _ => default_state end.

(** A session attaches, sets a heartbeat, and the clock starts. *)
Definition s1 : Sched := attach handle default_state.
Definition job1 : Job :=
  mkJob "hb-1" Active SrcHeartbeat (Some TopLevel) (Some Steer) "sess" "sess" "/sessions/a.jsonl" "/work" None "check the deploy"
    (mkSchedule KInterval "every 5m" (Some 300000)) t0 t0 (Some (t0 + 300000)) None None None 0 None None.
Definition s2 : Sched := after (setHeartbeat "hb-1" t0 "sess" "5m" "check the deploy" None s1).
Definition s3 : Sched := start t0 s2.
(** The timer fires five minutes later; the delivery is queued, then sent. *)
Definition s4 : Sched := (fire (t0 + 300000) s3).2.
Definition s5 : Sched := dispatch_start (t0 + 300001) "sess" world s4.

Lemma set_ok : setHeartbeat "hb-1" t0 "sess" "5m" "check the deploy" None s1 = Ok (job1, s2).
Proof. vm_compute. reflexivity. Qed.

Lemma reachable_s3 : reachable s3.
Proof.
  eapply reach_step; [|apply step_start]. eapply reach_step; [|].
  - eapply reach_step; [apply reach_init|apply (step_attach handle)].
  - apply (step_setHeartbeat _ _ _ _ _ _ _ _ _ set_ok).
Qed.
Lemma reachable_s4 : reachable s4.
Proof. eapply reach_step; [exact reachable_s3|apply step_fire]. Qed.
Lemma reachable_s5 : reachable s5.
Proof. eapply reach_step; [exact reachable_s4|apply step_dispatch_start]. Qed.

Example s5_sent : s_trace s5 =
  [EvChanged; EvClaim 0;
   EvSend 0 "sess" (HeartbeatPrompt ("[heartbeat: every 5m run#1]" +:+ nl +:+ nl +:+ "check the deploy")
     "hb-1" "every 5m" Active 1 (Some (t0 + 600000)) None) MStart].
Proof. vm_compute. reflexivity. Qed.
End Ex.
#[local] Existing Instance Ex.host.

(** ** Safety of delivery *)



Lemma interrupt_lookup js i d c :
  js !! i = Some d -> job_claimedAt d = Some c ->
  map interrupt_job js !! i = Some (patch [FClaimedAt None; FLastError (Some
    ("interrupted: pi-host stopped before the tick claimed at " +:+ Utc.iso c +:+ " was delivered")%string)] d).
Proof. intros Hi Hc. rewrite list_lookup_fmap, Hi. cbn. unfold interrupt_job. by rewrite Hc. Qed.

(** a delivery that a crash cuts short is recorded as interrupted and not
    replayed: its claim is on disk before it is queued, so the next host finds the job
    there, clears the claim, keeps the next tick the claim moved it to, and queues nothing. *)
Theorem crash_records_interruption `{HostTime} s i :
  reachable s -> queued i s ->
  let s' := construct (FileJobs (s_disk s)) (s_trace s) in
  s_lanes s' = ∅ /\
  exists d c j', s_disk s !! i = Some d /\ job_claimedAt d = Some c /\ s_jobs s' !! i = Some j' /\
    job_id j' = job_id d /\ job_claimedAt j' = None /\ job_nextRunAt j' = job_nextRunAt d /\
    job_runCount j' = job_runCount d /\
    job_lastError j' = Some ("interrupted: pi-host stopped before the tick claimed at " +:+ Utc.iso c +:+ " was delivered")%string.
Proof.
  intros Hr (lane & l & Hl & Hi) s'. split; [done|].
  destruct (inv_lane s (Inv_reachable _ Hr) _ _ _ Hl Hi) as (j & d & _ & Hd & _ & _ & [c Hc]).
  exists d, c. eexists. split_and!; [done|done|by apply interrupt_lookup|..]; by destruct d.
Qed.

Lemma crash_records_interruption_witness :
  queued 0 Ex.s4 /\ s_lanes (construct (FileJobs (s_disk Ex.s4)) (s_trace Ex.s4)) = ∅.
Proof.
  assert (queued 0 Ex.s4) as Hq.
  { exists "sess"%string, (mkLane [0%nat] false). split; [vm_compute; reflexivity|]. apply list_elem_of_singleton. reflexivity. }
  split; [exact Hq|]. exact (proj1 (crash_records_interruption Ex.s4 0 Ex.reachable_s4 Hq)).
Defined.

(** every reachable state's jobs, in memory and on disk, are well formed: a job
    that is not active has no next tick, and a heartbeat's schedule recurs (a positive
    interval or a cron expression). *)
Theorem jobs_well_formed `{HostTime} s :
  reachable s -> Forall job_ok (s_jobs s) /\ Forall job_ok (s_disk s) /\ map job_id (s_disk s) = map job_id (s_jobs s).
Proof. intros Hr%Inv_reachable. by destruct Hr. Qed.

Lemma jobs_well_formed_witness : Forall job_ok (s_jobs Ex.s5) /\ length (s_jobs Ex.s5) = 1%nat.
Proof. split; [exact (proj1 (jobs_well_formed Ex.s5 Ex.reachable_s5))|vm_compute; reflexivity]. Defined.

(** C3: a session never has two live user heartbeats, in memory or on disk. *)
Theorem one_live_heartbeat `{HostTime} s sid :
  reachable s ->
  (length (live_heartbeats sid (s_jobs s)) <= 1)%nat /\ (length (live_heartbeats sid (s_disk s)) <= 1)%nat.
Proof. intros Hr%Inv_reachable. split; [apply (inv_hb s Hr)|apply (inv_hb_disk s Hr)]. Qed.

Lemma one_live_heartbeat_witness : (length (live_heartbeats "sess" (s_jobs Ex.s5)) <= 1)%nat.
Proof. exact (proj1 (one_live_heartbeat Ex.s5 "sess" Ex.reachable_s5)). Defined.

(** ** Claims *)

Lemma not_due_claimed now j : is_Some (job_claimedAt j) -> is_due now j = false.
Proof. intros [c Hc]. unfold is_due, is_due_candidate. rewrite Hc. by destruct (bool_decide (job_status j = Active)). Qed.

Lemma claim_next_later `{HostTimeLaws} now j t : claim_next now j = Ok (Some t) -> now < t.
Proof.
  unfold claim_next. intros Hn. apply bind_ok in Hn as ([u|] & Hu & Hn); [|done].
  apply bind_ok in Hn as (v & Hv & Hn). simp_ok. unfold to_iso in Hv. destruct (_ && _); simp_ok.
  apply nextRunAfter_later in Hu. case_bool_decide; lia.
Qed.

Lemma fold_queue_same due s :
  s_jobs (fold_left (fun s i => queue i s) due s) = s_jobs s /\ s_disk (fold_left (fun s i => queue i s) due s) = s_disk s.
Proof.
  revert s. induction due as [|i due IH]; intros s; [done|]. cbn. destruct (IH (queue i s)) as [-> ->].
  by destruct (queue_same i s) as (-> & -> & _).
Qed.

Lemma runDue_ok_jobs `{HostTime} now s n s' :
  runDue now s = (Ok n, s') ->
  exists js, claim_all now (due_indices now (s_jobs s)) (s_jobs s) = (js, None) /\ s_jobs s' = js /\
    (n <> O -> s_disk s' = js) /\ n = length (due_indices now (s_jobs s)).
Proof.
  unfold runDue. destruct (due_indices now (s_jobs s)) as [|i due] eqn:Ed.
  - intros. simplify_eq. exists (s_jobs s). destruct (arm_same now s) as (-> & _). done.
  - rewrite <- Ed. destruct (claim_all _ _ _) as [js [e|]] eqn:Hc; [done|]. intros Hr.
    injection Hr as Hn Hs. exists js. rewrite <- Hs.
    destruct (arm_same now (fold_left (fun s i => queue i s) (due_indices now (s_jobs s)) (emit (map EvClaim (due_indices now (s_jobs s))) (write (with_jobs js s))))) as (-> & -> & _).
    destruct (fold_queue_same (due_indices now (s_jobs s)) (emit (map EvClaim (due_indices now (s_jobs s))) (write (with_jobs js s)))) as [-> ->].
    cbn. by rewrite <- Hn, Ed.
Qed.

(** [runDue] claims exactly the due jobs: each is marked claimed now, with its next
    tick strictly later than now, every other job is untouched, and afterwards nothing is
    due at this instant, so a missed tick comes due once however long the host was down. *)
Theorem runDue_claims_due `{HostTimeLaws} now s n s' :
  runDue now s = (Ok n, s') ->
  n = length (due_indices now (s_jobs s)) /\ length (s_jobs s') = length (s_jobs s) /\
  (forall i j, s_jobs s !! i = Some j ->
     if is_due now j
     then exists next, s_jobs s' !! i = Some (patch (claim_fields now next) j) /\ (forall t, next = Some t -> now < t)
     else s_jobs s' !! i = Some j) /\
  (forall i j', s_jobs s' !! i = Some j' -> is_due now j' = false).
Proof.
  intros Hr. apply runDue_ok_jobs in Hr as (js & Hc & -> & _ & ->).
  pose proof (due_indices_NoDup now (s_jobs s)) as Hnd.
  assert (length js = length (s_jobs s)) as Hlen.
  { pose proof (claim_all_length now (due_indices now (s_jobs s)) (s_jobs s)) as Hl. by rewrite Hc in Hl. }
  assert (forall i j j', s_jobs s !! i = Some j -> js !! i = Some j' ->
    if is_due now j then exists next, j' = patch (claim_fields now next) j /\ (forall t, next = Some t -> now < t) else j' = j) as Hcase.
  { intros i j j' Hj Hj'. destruct (claim_all_lookup _ _ _ _ _ _ _ Hnd Hc Hj') as (j0 & Hj0 & Hcs).
    rewrite Hj in Hj0. injection Hj0 as <-. destruct (is_due now j) eqn:Hd.
    - assert (i ∈ due_indices now (s_jobs s)) as Hin by (apply due_indices_elem; eauto).
      destruct Hcs as [[_ Hno]|[_ (next & Hn & ->)]]; [by destruct (Hno Hin)|]. exists next. split; [done|].
      intros t ->. by eapply claim_next_later.
    - destruct Hcs as [[-> _]|[Hin _]]; [done|]. apply due_indices_elem in Hin as (j1 & Hj1 & Hd1). congruence. }
  split_and!; [done|done| |].
  - intros i j Hj. destruct (lookup_lt_is_Some_2 js i) as [j' Hj'].
    { rewrite Hlen. by eapply lookup_lt_Some. }
    specialize (Hcase i j j' Hj Hj'). destruct (is_due now j); [|congruence].
    destruct Hcase as (next & -> & Hlt). eauto.
  - intros i j' Hj'. destruct (lookup_lt_is_Some_2 (s_jobs s) i) as [j Hj].
    { rewrite <- Hlen. by eapply lookup_lt_Some. }
    specialize (Hcase i j j' Hj Hj'). destruct (is_due now j) eqn:Hd; [|congruence].
    destruct Hcase as (next & -> & _). apply not_due_claimed. by destruct j; eexists.
Qed.

Lemma runDue_claims_due_witness :
  (runDue (Ex.t0 + 300000) Ex.s3).1 = Ok 1%nat /\
  (forall i j', s_jobs (runDue (Ex.t0 + 300000) Ex.s3).2 !! i = Some j' -> is_due (Ex.t0 + 300000) j' = false).
Proof.
  assert (runDue (Ex.t0 + 300000) Ex.s3 = (Ok 1%nat, (runDue (Ex.t0 + 300000) Ex.s3).2)) as Hr by (vm_compute; reflexivity).
  split; [vm_compute; reflexivity|].
  destruct (@runDue_claims_due Ex.host (Utc.laws _) _ _ _ _ Hr) as (_ & _ & _ & Hno). exact Hno.
Defined.
