(* ===== verification/SchedulerOps.v ===== *)
(** * What the scheduler's operations promise

    The operations' effects on the job list of a reachable scheduler
    ([setHeartbeat], [cancelTree]), the timer ([arm]), and the behaviours in which
    [scheduler.ts] departs from its own comments: the claim loop's exception, the
    order of [list], the reopened delivery and the notification of a cancel. *)

From S2P Require Import Prelude Schedule Scheduler SchedulerSpec.
Local Open Scope Z_scope.
Local Open Scope list_scope.
#[local] Existing Instance Ex.host.

(** ** The user heartbeat *)

Lemma live_heartbeats_app sid js js' : live_heartbeats sid (js ++ js') = live_heartbeats sid js ++ live_heartbeats sid js'.
Proof. unfold live_heartbeats. by rewrite filter_app. Qed.

Lemma live_heartbeats_other sid sid' at_ js :
  sid' <> sid -> live_heartbeats sid' (map (cancel_live sid at_) js) = live_heartbeats sid' js.
Proof.
  intros Hne. unfold live_heartbeats. induction js as [|j js IH]; [done|]. cbn [map].
  assert (is_live_heartbeat_of sid' (cancel_live sid at_ j) = is_live_heartbeat_of sid' j /\
          (is_live_heartbeat_of sid' j = true -> cancel_live sid at_ j = j)) as [Heq Hid].
  { unfold cancel_live. destruct (is_live_heartbeat_of sid j) eqn:E; [|done].
    unfold is_live_heartbeat_of in *. simp_ok. rewrite is_live_cancelled, !andb_false_r.
    replace (job_activeSessionId j) with sid. by rewrite bool_decide_eq_false_2. }
  rewrite !filter_cons, Heq. case_decide as Hd; [|done]. by rewrite Hid, IH.
Qed.

(** [heartbeat] is the newest of the session's live heartbeats. *)
Lemma heartbeat_candidates sid s :
  sid <> String.EmptyString ->
  Permutation (list_jobs (Some sid) false (Some SrcHeartbeat) s) (live_heartbeats sid (s_jobs s)).
Proof.
  intros Hne. unfold list_jobs. rewrite sort_by_perm. destruct sid as [|c r]; [done|]. cbn [orb].
  unfold live_heartbeats. erewrite list_filter_iff; [reflexivity|]. intros j. unfold is_live_heartbeat_of.
  rewrite !andb_true_iff, !bool_decide_eq_true. cbn [orb].
  split; [intros [[? ?] ?]|intros [[? ?] ?]]; split_and!; try done; congruence.
Qed.

Lemma heartbeat_one sid s j :
  sid <> String.EmptyString -> live_heartbeats sid (s_jobs s) = [j] -> heartbeat sid s = Some j.
Proof.
  intros Hne Hl. unfold heartbeat. pose proof (heartbeat_candidates sid s Hne) as Hp. rewrite Hl in Hp.
  symmetry in Hp. apply Permutation_length_1_inv in Hp as ->. done.
Qed.

(** after [setHeartbeat] the session's one live user heartbeat is the new job, in
    memory and on disk, which [heartbeat] then reports; every older one of the session is
    cancelled, and no other session's live heartbeats change. *)
Theorem setHeartbeat_spec `{HostTime} uuid now sid sched prompt mode s job s' :
  sid <> String.EmptyString ->
  setHeartbeat uuid now sid sched prompt mode s = Ok (job, s') ->
  job_id job = uuid /\ job_status job = Active /\ recurs (job_schedule job) /\
  live_heartbeats sid (s_jobs s') = [job] /\ s_disk s' = s_jobs s' /\ heartbeat sid s' = Some job /\
  forall sid', sid' <> sid -> live_heartbeats sid' (s_jobs s') = live_heartbeats sid' (s_jobs s).
Proof.
  intros Hne Hs. apply bind_ok in Hs as (j & Hc & Hs). simp_ok.
  apply create_spec in Hc as ([_ Hrec] & _ & Hsess & Hsrc & Hst & Hid & _); [|by right].
  destruct (mutate_same now (fun js => map (cancel_live sid (job_createdAt job)) js ++ [job]) s) as (ev & _ & Hj & Hd & _).
  cbv beta in Hj, Hd. unfold cancel_live in Hj at 1. unfold cancel_live in Hd at 1.
  assert (is_live_heartbeat_of sid job = true) as Hlive.
  { unfold is_live_heartbeat_of, isLive. rewrite Hsess, Hsrc, Hst. by rewrite (bool_decide_eq_true_2 (sid = sid)). }
  assert (live_heartbeats sid (map (cancel_live sid (job_createdAt job)) (s_jobs s) ++ [job]) = [job]) as Hone.
  { rewrite live_heartbeats_app, cancel_live_none. unfold live_heartbeats. by rewrite filter_cons_True. }
  match goal with |- context [s_jobs ?m] => set (s1 := m) in * end.
  change (s_jobs s1 = map (cancel_live sid (job_createdAt job)) (s_jobs s) ++ [job]) in Hj.
  change (s_disk s1 = map (cancel_live sid (job_createdAt job)) (s_jobs s) ++ [job]) in Hd.
  split_and!; [done|done| |by rewrite Hj|congruence| |].
  - apply Hrec. unfold isHeartbeat. by rewrite Hsrc.
  - apply heartbeat_one; [done|]. by rewrite Hj.
  - intros sid' Hsid'. rewrite Hj, live_heartbeats_app, live_heartbeats_other by done.
    unfold live_heartbeats at 2. rewrite filter_cons_False; [by rewrite app_nil_r|].
    unfold is_live_heartbeat_of. rewrite bool_decide_eq_false_2 by congruence. done.
Qed.

Definition again_ex : Job * Sched :=
  match setHeartbeat "hb-2" (Ex.t0 + 400000) "sess" "1h" "look again" None Ex.s5 with Ok r => r | Throw _ => (Ex.job1, Ex.s5) end.

Lemma setHeartbeat_spec_witness :
  heartbeat "sess" again_ex.2 = Some again_ex.1 /\ length (s_jobs again_ex.2) = 2%nat.
Proof.
  split; [|vm_compute; reflexivity].
  assert (setHeartbeat "hb-2" (Ex.t0 + 400000) "sess" "1h" "look again" None Ex.s5 = Ok (again_ex.1, again_ex.2)) as Hs
    by (vm_compute; reflexivity).
  assert ("sess"%string <> String.EmptyString) as Hne by done.
  exact (proj1 (proj2 (proj2 (proj2 (proj2 (proj2 (setHeartbeat_spec _ _ _ _ _ _ _ _ _ Hne Hs))))))).
Defined.

(** ** Cancelling a tree *)

Definition in_tree (sid : string) (j : Job) : bool :=
  bool_decide (job_activeSessionId j = sid) || bool_decide (job_rootSessionId j = Some sid).

Lemma existsb_False {A} (p : A -> bool) l : existsb p l = false -> forall x, x ∈ l -> p x = false.
Proof.
  induction l as [|a l IH]; cbn; intros H x Hx; [by apply elem_of_nil in Hx|].
  simp_ok. apply elem_of_cons in Hx as [->|Hx]; [done|by apply IH].
Qed.

(** What [cancelSession] leaves: a session's live jobs are cancelled, every other job is as it was. *)
Definition cancel_job (sid : string) (now : Z) (j : Job) : Job :=
  if is_live_of sid j then patch (cancel_fields now) j else j.

Lemma cancelSession_jobs now sid s : s_jobs (cancelSession now sid s).2 = map (cancel_job sid now) (s_jobs s).
Proof.
  unfold cancelSession. destruct (existsb _ _) eqn:E; cbn.
  - destruct (mutate_same now (map (cancel_job sid now)) s) as (ev & _ & Hj & _). exact Hj.
  - symmetry. transitivity (map id (s_jobs s)); [|apply list_fmap_id]. apply map_ext_in. intros j Hj.
    unfold cancel_job. rewrite (existsb_False _ _ E); [done|]. by apply list_elem_of_In.
Qed.

(** Cancelling each session of a list cancels the live jobs of all of them. *)
Definition cancel_in (ids : list string) (now : Z) (j : Job) : Job :=
  if isLive j && bool_decide (job_activeSessionId j ∈ ids) then patch (cancel_fields now) j else j.

Lemma cancel_in_cons id ids now j : cancel_in ids now (cancel_job id now j) = cancel_in (id :: ids) now j.
Proof.
  unfold cancel_in, cancel_job, is_live_of. destruct (isLive j) eqn:E; [|by rewrite !andb_false_r, E].
  rewrite andb_true_r. case_bool_decide as Hid.
  - rewrite is_live_cancelled. cbn. rewrite bool_decide_eq_true_2 by set_solver. done.
  - rewrite E. cbn. case_bool_decide; case_bool_decide; [done|set_solver..|done].
Qed.

Lemma cancelTree_jobs now sid s :
  s_jobs (cancelTree now sid s).2 = map (cancel_in (tree_ids sid (s_jobs s)) now) (s_jobs s).
Proof.
  unfold cancelTree. generalize (tree_ids sid (s_jobs s)) as ids. intros ids.
  change s with (([] : list Job, s).2) at 2. generalize ([] : list Job, s) as acc.
  induction ids as [|id ids IH]; intros acc; cbn [fold_left].
  - symmetry. transitivity (map id (s_jobs acc.2)); [|apply list_fmap_id]. apply map_ext. intros j.
    unfold cancel_in. rewrite bool_decide_eq_false_2 by set_solver. by rewrite andb_false_r.
  - rewrite IH. pose proof (cancelSession_jobs now id acc.2) as Hc. destruct (cancelSession now id acc.2) as [js s'].
    cbn [snd fst] in *. rewrite Hc, map_map. apply map_ext. intros j. apply cancel_in_cons.
Qed.

Lemma tree_ids_elem sid js id : id ∈ tree_ids sid js <-> exists j, j ∈ js /\ in_tree sid j = true /\ job_activeSessionId j = id.
Proof.
  unfold tree_ids. rewrite elem_of_remove_dups, list_elem_of_fmap. split.
  - intros (j & -> & Hj). apply list_elem_of_filter in Hj as [Ht Hj]. by exists j.
  - intros (j & Hj & Ht & <-). exists j. split; [done|]. by apply list_elem_of_filter.
Qed.

(** after [cancelTree] no job of the session, nor of any session one of whose jobs
    names it as its root, is live, and the jobs of every other session are as they were. *)
Theorem cancelTree_spec now sid s :
  (forall j, j ∈ s_jobs s -> in_tree sid j = true ->
     forall j', j' ∈ s_jobs (cancelTree now sid s).2 -> job_activeSessionId j' = job_activeSessionId j -> isLive j' = false) /\
  (forall i j, s_jobs s !! i = Some j ->
     (forall k, k ∈ s_jobs s -> in_tree sid k = true -> job_activeSessionId k <> job_activeSessionId j) ->
     s_jobs (cancelTree now sid s).2 !! i = Some j).
Proof.
  rewrite cancelTree_jobs. split.
  - intros j Hj Ht j' Hj' Hs. apply list_elem_of_fmap in Hj' as (j0 & -> & Hj0).
    unfold cancel_in in *. destruct (isLive j0) eqn:E; cbn in *; [|done].
    case_bool_decide as Hin; [apply is_live_cancelled|]. destruct Hin. rewrite Hs. apply tree_ids_elem. eauto.
  - intros i j Hi Hno. rewrite list_lookup_fmap, Hi. cbn. unfold cancel_in.
    rewrite (bool_decide_eq_false_2 (_ ∈ _)); [by rewrite andb_false_r|].
    intros (k & Hk & Ht & Hks)%tree_ids_elem. by apply (Hno k).
Qed.

Definition cron_root : SessionHandle := mkHandle 2 "kid" (Some "/sessions/k.jsonl"%string) "/work" true (Some "sess"%string).
Definition tree_state : Sched :=
  Ex.after (addCron "c-1" (Ex.t0 + 10) "kid" "in 5 minutes" "look" (attach cron_root Ex.s5)).

Example cancelTree_both : map job_status (s_jobs (cancelTree (Ex.t0 + 20) "sess" tree_state).2) = [Cancelled; Cancelled].
Proof. vm_compute. reflexivity. Qed.

(** ** The timer *)

Lemma min_list_spec l :
  match min_list l with None => l = [] | Some t => t ∈ l /\ forall x, x ∈ l -> t <= x end.
Proof.
  destruct l as [|a l]; [done|]. unfold min_list.
  assert (forall l a, fold_left Z.min l a ∈ a :: l /\ forall x, x ∈ a :: l -> fold_left Z.min l a <= x) as H; [|apply H].
  clear. induction l as [|b l IH]; intros a; cbn [fold_left].
  - split; [set_solver|]. intros x ->%list_elem_of_singleton. lia.
  - destruct (IH (Z.min a b)) as [Hin Hle]. split.
    + apply elem_of_cons in Hin as [->|Hin]; [|set_solver].
      destruct (Z.min_spec a b) as [[_ ->]|[_ ->]]; set_solver.
    + intros x Hx. pose proof (Hle (Z.min a b)) as Hm.
      apply elem_of_cons in Hx as [->|Hx]; [set_unfold; lia|].
      apply elem_of_cons in Hx as [->|Hx]; [|apply Hle; set_solver]. set_unfold. lia.
Qed.

Lemma next_runs_elem js t : t ∈ next_runs js <-> exists j, j ∈ js /\ is_due_candidate j = true /\ job_nextRunAt j = Some t.
Proof.
  unfold next_runs. rewrite list_elem_of_omap. split.
  - intros (j & Hj & Hd). destruct (is_due_candidate j) eqn:E; [|done]. by exists j.
  - intros (j & Hj & Hd & Hn). exists j. by rewrite Hd.
Qed.

(** [arm] never misses a tick: on a running scheduler it sets the timer when, and only
    when, some active unclaimed job has a next tick; the timer is then due within the bound
    of [setTimeout], no earlier than now, and no later than any such tick that is still ahead. *)
Theorem arm_spec now s :
  s_stopped s = false ->
  match s_timer (arm now s) with
  | None => forall j, j ∈ s_jobs s -> is_due_candidate j = true -> job_nextRunAt j = None
  | Some at_ =>
      now <= at_ <= now + MAX_TIMEOUT_MS /\
      (forall j t, j ∈ s_jobs s -> is_due_candidate j = true -> job_nextRunAt j = Some t -> at_ <= Z.max now t) /\
      exists j t, j ∈ s_jobs s /\ is_due_candidate j = true /\ job_nextRunAt j = Some t /\
        at_ = Z.min (Z.max now t) (now + MAX_TIMEOUT_MS)
  end.
Proof.
  intros Hs. unfold arm. rewrite Hs. cbn. pose proof (min_list_spec (next_runs (s_jobs s))) as Hm.
  destruct (min_list _) as [t|]; cbn.
  - destruct Hm as [(j & Hj & Hd & Hn)%next_runs_elem Hle]. unfold MAX_TIMEOUT_MS. split_and!; [lia|lia| |].
    + intros j' t' Hj' Hd' Hn'. specialize (Hle t'). rewrite next_runs_elem in Hle.
      assert (t <= t') by (apply Hle; eauto). lia.
    + exists j, t. split_and!; [done..|lia].
  - intros j Hj Hd. destruct (job_nextRunAt j) as [t|] eqn:E; [|done].
    exfalso. apply (not_elem_of_nil t). rewrite <- Hm. apply next_runs_elem. by exists j.
Qed.

Lemma arm_spec_witness : s_timer (arm Ex.t0 Ex.s3) = Some (Ex.t0 + 300000) /\ s_stopped Ex.s3 = false /\ Ex.t0 <= Ex.t0 + 300000.
Proof.
  assert (s_stopped Ex.s3 = false) as Hs by (vm_compute; reflexivity).
  assert (s_timer (arm Ex.t0 Ex.s3) = Some (Ex.t0 + 300000)) as Ha by (vm_compute; reflexivity).
  split; [exact Ha|]. split; [exact Hs|]. pose proof (arm_spec Ex.t0 Ex.s3 Hs) as Hsp. rewrite Ha in Hsp.
  exact (proj1 (proj1 Hsp)).
Defined.

(** ** Where the code departs from its comments *)

(** The order of [list]: next ticks ascending. *)
Definition sooner (a b : Job) : Prop :=
  match job_nextRunAt a, job_nextRunAt b with Some x, Some y => x <= y | _, _ => False end.

(** [list] answers with exactly the jobs its filter asks for, each as often as the
    file holds it.  It is documented as soonest first, and the jobs with a next tick are
    in that order, but every job without one (a paused one) comes before all of them,
    because the tilde put in for a missing instant collates before the digits. *)
Theorem list_jobs_spec sid inactive src s :
  Permutation (list_jobs sid inactive src s) (filter (fun j =>
    (inactive || isLive j) &&
    (match sid with None | Some String.EmptyString => true | _ => bool_decide (Some (job_activeSessionId j) = sid) end) &&
    (match src with None => true | Some k => bool_decide (job_source j = k) end) = true) (s_jobs s)) /\
  exists parked ahead, list_jobs sid inactive src s = parked ++ ahead /\
    Forall (fun a => job_nextRunAt a = None) parked /\ Forall (fun a => job_nextRunAt a <> None) ahead /\
    StronglySorted sooner ahead.
Proof.
  split.
  { unfold list_jobs. rewrite sort_by_perm. erewrite list_filter_iff; [reflexivity|].
    intros j. by destruct sid as [[|c r]|]. }
  assert (StronglySorted (fun a b => next_le a b = true) (list_jobs sid inactive src s)) as Hsorted.
  { apply sort_by_sorted; unfold next_le.
    - intros x y. destruct (job_nextRunAt x), (job_nextRunAt y); try done. intros. simp_ok. apply Z.leb_le. lia.
    - intros x y z. destruct (job_nextRunAt x), (job_nextRunAt y), (job_nextRunAt z); try done.
      intros. simp_ok. apply Z.leb_le. lia. }
  induction Hsorted as [|a js Hs (l1 & l2 & -> & H1 & H2 & Hso) Ha]; [exists [], []; split_and!; (done || constructor)|].
  destruct (job_nextRunAt a) as [t|] eqn:E.
  - exists [], (a :: l1 ++ l2). apply Forall_app in Ha as [Ha1 Ha2].
    assert (l1 = []) as ->.
    { destruct l1 as [|b l1]; [done|]. apply Forall_cons in Ha1 as [Ha1 _]. apply Forall_cons in H1 as [H1 _].
      unfold next_le in Ha1. by rewrite E, H1 in Ha1. }
    split_and!; [done|done|constructor; [congruence|done]|]. constructor; [done|].
    rewrite Forall_forall in Ha2, H2. apply Forall_forall. intros b Hb. specialize (Ha2 b Hb). specialize (H2 b Hb).
    unfold next_le, sooner in *. rewrite E in *. destruct (job_nextRunAt b); [|done]. by simp_ok.
  - exists (a :: l1), l2. split_and!; [done|by constructor|done|done].
Qed.

Example list_paused_first :
  map job_status (list_jobs (Some "sess"%string) false None
    (Ex.after (r ← manage (Ex.t0 + 400001) "sess" "hb-2" MPause
        (Ex.after (addCron "c-1" (Ex.t0 + 400000) "sess" "in 5 minutes" "look" again_ex.2)); Ok r))) = [Paused; Active].
Proof. vm_compute. reflexivity. Qed.

(** a delivery that waited for its session to reopen does not look at the job's status
    again: a job paused or cancelled during the wait is sent all the same, when the session
    reopens and is idle. *)
Theorem resume_ignores_cancel now lane i q s job h w :
  s_lanes s !! lane = Some (mkLane (i :: q) true) -> s_jobs s !! i = Some job ->
  job_status job <> Active -> s_handles s !! job_activeSessionId job = Some h ->
  w_activity w = mkActivity false false false false -> w_send_throws w = None ->
  sends i (s_trace (dispatch_resume now lane None w s)) = S (sends i (s_trace s)).
Proof.
  intros Hl Hj _ Hh Ha Hw. unfold dispatch_resume. rewrite Hl, Hj, Hh. unfold deliver.
  assert (defers job (w_activity w) = false) as ->.
  { rewrite Ha. unfold defers. by destruct (job_deliveryMode job) as [[]|], (isHeartbeat job). }
  rewrite Ha, Hw. cbn [streaming].
  assert (forall s' ev out err, s_trace s' = s_trace s ++ [ev] -> is_send i ev = true ->
    sends i (s_trace (lane_done lane (finish now i out err s'))) = S (sends i (s_trace s))) as Hone.
  { intros s' ev out err Ht Hev. destruct (lane_done_same lane (finish now i out err s')) as (_ & _ & ->).
    unfold finish. destruct (mutate_same now (fun js => match js !! i with
      | Some job => patch_at i (finish_fields now job out err) js | None => js end) s') as (e & He & _ & _ & _ & -> & _).
    rewrite Ht, !sends_app. destruct (quiet_counts i e He) as [-> _].
    unfold sends at 2. rewrite filter_cons_True by done. cbn. lia. }
  destruct (isHeartbeat job); (eapply Hone; [reflexivity|]); cbn; by rewrite bool_decide_eq_true_2.
Qed.

(** The session detaches, its heartbeat falls due, the reopen begins, the job is cancelled. *)
Definition reopening : Sched := dispatch_start (Ex.t0 + 300001) "sess" Ex.world (fire (Ex.t0 + 300000) (detach Ex.handle Ex.s3)).2.
Definition cancelled_meanwhile : Sched := attach Ex.handle (cancel (Ex.t0 + 300002) "hb-1" reopening).2.

Lemma resume_ignores_cancel_witness :
  (exists job, s_jobs cancelled_meanwhile !! 0%nat = Some job /\ job_status job = Cancelled) /\
  sends 0 (s_trace cancelled_meanwhile) = O /\
  sends 0 (s_trace (dispatch_resume (Ex.t0 + 300003) "sess" None Ex.world cancelled_meanwhile)) = 1%nat.
Proof.
  assert (exists job, s_jobs cancelled_meanwhile !! 0%nat = Some job /\ job_status job = Cancelled /\
    s_handles cancelled_meanwhile !! job_activeSessionId job = Some Ex.handle) as (job & Hj & Hst & Hh)
    by (eexists; split_and!; vm_compute; reflexivity).
  assert (s_lanes cancelled_meanwhile !! "sess"%string = Some (mkLane [0%nat] true)) as Hl by (vm_compute; reflexivity).
  split; [exists job; split; [exact Hj|exact Hst]|]. split; [vm_compute; reflexivity|].
  assert (job_status job <> Active) as Hna by (rewrite Hst; discriminate).
  rewrite (resume_ignores_cancel _ _ _ _ _ _ _ Ex.world Hl Hj Hna Hh eq_refl eq_refl). vm_compute. reflexivity.
Defined.

Lemma catalog_alter i f js :
  (forall j, js !! i = Some j -> isHeartbeat (f j) && isLive (f j) = isHeartbeat j && isLive j /\
     (isHeartbeat j && isLive j = true -> catalog_row (f j) = catalog_row j)) ->
  catalogSignature (alter f i js) = catalogSignature js.
Proof.
  unfold catalogSignature. revert i. induction js as [|j js IH]; intros i Hf; [done|].
  destruct i as [|i]; cbn [alter list_alter].
  - destruct (Hf j eq_refl) as [Heq Hrow]. rewrite !filter_cons, Heq. case_decide; [|done]. cbn. by rewrite Hrow.
  - change (list_alter f i js) with (alter f i js). rewrite !filter_cons. case_decide; cbn; [f_equal|]; by apply IH.
Qed.

(** the scheduler's dependency [changed] is documented to hear of every heartbeat that
    is cancelled.  A delivery that finds its session's file gone cancels the job, in memory
    and on disk, and sends no [heartbeats_changed]. *)
Theorem gone_cancels_silently now lane i q job w s :
  s_lanes s !! lane = Some (mkLane (i :: q) false) -> s_jobs s !! i = Some job ->
  job_status job = Active -> s_handles s !! job_activeSessionId job = None -> w_file_exists w = false ->
  exists job', s_jobs (dispatch_start now lane w s) !! i = Some job' /\
    s_disk (dispatch_start now lane w s) = s_jobs (dispatch_start now lane w s) /\
    job_status job' = Cancelled /\ job_nextRunAt job' = None /\ job_claimedAt job' = None /\
    job_lastError job' = Some ("session file " +:+ job_sessionFile job +:+ " is gone; the job was cancelled")%string /\
    s_trace (dispatch_start now lane w s) = s_trace s.
Proof.
  intros Hl Hj Ha Hh Hw. unfold dispatch_start. rewrite Hl, Hj, Hh, Hw, Ha. cbn [negb bool_decide decide].
  rewrite bool_decide_eq_true_2 by done. cbn [negb].
  set (err := Some _). set (s1 := with_jobs _ s).
  destruct (lane_done_same lane (finish now i Skipped err s1)) as (-> & -> & ->). unfold finish.
  set (edit := fun js : list Job => _).
  assert (s_jobs s1 !! i = Some (patch [FStatus Cancelled; FNextRunAt None] job)) as Hi.
  { unfold s1, patch_at. cbn. rewrite list_lookup_alter_eq. by rewrite Hj. }
  assert (edit (s_jobs s1) = alter (patch (finish_fields now (patch [FStatus Cancelled; FNextRunAt None] job) Skipped err)) i (s_jobs s1)) as He.
  { unfold edit. by rewrite Hi. }
  assert (catalogSignature (edit (s_jobs s1)) = catalogSignature (s_jobs s1)) as Hc.
  { rewrite He. apply catalog_alter. intros j Hji. rewrite Hi in Hji. injection Hji as <-.
    unfold finish_fields. cbn. destruct job as [? st ? ? ? ? ? ? ? ? ? [k ? ?] ? ? ? ? ? ? ? ? ?].
    cbn in *. destruct (bool_decide (k = KOnce)); cbn; done. }
  unfold mutate. rewrite Hc, decide_True by done.
  destruct (arm_same now (write (with_jobs (edit (s_jobs s1)) s1))) as (-> & -> & _ & -> & _). cbn [write with_jobs with_disk s_jobs s_disk s_trace].
  rewrite He, list_lookup_alter_eq, Hi. eexists. split_and!; [done|done|..]; unfold finish_fields; try done;
  destruct job as [? st ? ? ? ? ? ? ? ? ? [k ? ?] ? ? ? ? ? ? ? ? ?]; cbn in *; destruct (bool_decide (k = KOnce)); done.
Qed.

Lemma gone_cancels_silently_witness :
  let s := (fire (Ex.t0 + 300000) (detach Ex.handle Ex.s3)).2 in
  let w := mkWorld false (mkActivity false false false false) None in
  s_trace (dispatch_start (Ex.t0 + 300001) "sess" w s) = s_trace s /\
  catalogSignature (s_jobs (dispatch_start (Ex.t0 + 300001) "sess" w s)) <> catalogSignature (s_jobs s).
Proof.
  intros s w.
  assert (exists job, s_jobs s !! 0%nat = Some job /\ job_status job = Active /\
    s_handles s !! job_activeSessionId job = None) as (job & Hj & Hst & Hh)
    by (eexists; split_and!; vm_compute; reflexivity).
  assert (s_lanes s !! "sess"%string = Some (mkLane [0%nat] false)) as Hl by (vm_compute; reflexivity).
  destruct (gone_cancels_silently (Ex.t0 + 300001) _ _ _ _ w _ Hl Hj Hst Hh eq_refl) as (job' & _ & _ & _ & _ & _ & _ & Ht).
  split; [exact Ht|]. vm_compute. discriminate.
Defined.

(** ** The clock stops *)

(** a due job whose next tick cannot be computed stops the whole clock: the timer's
    callback then writes nothing, queues nothing, sends nothing and leaves the timer unset. *)
Theorem fire_exception `{HostTime} now s e s' :
  fire now s = (Throw e, s') ->
  s_timer s' = None /\ s_disk s' = s_disk s /\ s_lanes s' = s_lanes s /\ s_trace s' = s_trace s.
Proof.
  unfold fire, runDue. destruct (due_indices _ _); [done|]. destruct (claim_all _ _ _) as [js [e'|]]; [|done].
  intros. by simplify_eq.
Qed.

(** A cron job for the leap day, due on 29 February 2028: no later minute within the
    search window has that date. *)
Definition leap_due : Z := 1835395200000.
Definition leap_job : Job :=
  mkJob "c-leap" Active SrcCron (Some TopLevel) None "sess" "sess" "/sessions/a.jsonl" "/work" None "leap"
    (mkSchedule KCron "0 0 29 2 *" None) (leap_due - 86400000) (leap_due - 86400000) (Some leap_due) None None None 0 None None.
Definition leap_state : Sched := start (leap_due - 1) (construct (FileJobs [leap_job]) []).
Definition leap_cron : CronFields := mkCron [0] [0] [29] [2] (step_loop 8 0 7 1).

Lemma leap_fields : parseCron "0 0 29 2 *" = Ok leap_cron.
Proof. vm_compute. reflexivity. Qed.

Definition is_leap_day (day : Z) : bool := let '(_, m, d) := Utc.civil day in (m =? 2) && (d =? 29).

Lemma leap_days_free : forallb (fun k => negb (is_leap_day (21244 + Z.of_nat k))) (seq 0 367) = true.
Proof. vm_compute. reflexivity. Qed.

Lemma leap_day_free day : 21244 <= day < 21244 + 367 -> is_leap_day day = false.
Proof.
  intros Hday. pose proof leap_days_free as Hall. rewrite forallb_forall in Hall.
  specialize (Hall (Z.to_nat (day - 21244))). rewrite in_seq, negb_true_iff in Hall.
  rewrite Z2Nat.id in Hall by lia. replace (21244 + (day - 21244)) with day in Hall by lia.
  apply Hall. lia.
Qed.

Lemma leap_no_match u : leap_due + 60000 <= u < (21244 + 367) * 86400000 -> cron_matches leap_cron u = false.
Proof.
  intros Hu. unfold leap_due in Hu. destruct (decide (u / 86400000 = 21243)) as [Hd|Hd].
  - unfold cron_matches, has, leap_cron. cbn [existsb minute hour minute_of hour_of Ex.host Utc.host].
    destruct (_ =? 0) eqn:E1; [|done]. destruct (_ =? 0) eqn:E2 in |- *; [|done]. exfalso.
    apply Z.eqb_eq in E1, E2. Z.to_euclidean_division_equations. lia.
  - assert (is_leap_day (u / 86400000) = false) as Hl.
    { apply leap_day_free. Z.to_euclidean_division_equations. lia. }
    unfold cron_matches. destruct (has (minute leap_cron) (minute_of u)), (has (hour leap_cron) (hour_of u)); try done.
    unfold is_leap_day in Hl. cbn [date_of month_of Ex.host Utc.host]. unfold Utc.day_of.
    destruct (Utc.civil (u / 86400000)) as [[y m] d]. cbn [fst snd]. unfold has, leap_cron. cbn [existsb day month].
    rewrite !orb_false_r. replace (m - 1 + 1) with m by lia.
    destruct (d =? 29); [|done]. rewrite andb_true_r in Hl. by rewrite Hl.
Qed.

Lemma leap_no_run t : nextCronRun "0 0 29 2 *" (leap_due + 1) <> Ok t.
Proof.
  intros E. destruct (@nextCronRun_ok Ex.host (Utc.laws _) _ _ _ E) as (f & Hf & Hlt & Hmod & Hm & _).
  rewrite leap_fields in Hf. injection Hf as <-.
  destruct (@nextCronRun_bound Ex.host (Utc.laws _) _ _ _ E) as [Hge Hle].
  rewrite leap_no_match in Hm; [discriminate Hm|].
  assert ((leap_due + 1) / 60000 = 30589920) as Hq by reflexivity. rewrite Hq in Hge, Hle. clear - Hge Hle.
  change (cron_window * MINUTE) with 31622400000 in Hle. unfold leap_due. lia.
Qed.

Lemma leap_throws : exists e, nextCronRun "0 0 29 2 *" (leap_due + 1) = Throw e.
Proof.
  pose proof leap_no_run as Hno. revert Hno. generalize (nextCronRun "0 0 29 2 *" (leap_due + 1)).
  intros [t|e] Hno; [destruct (Hno t eq_refl)|exists e; reflexivity].
Qed.

Lemma fire_exception_witness :
  exists e s', fire leap_due leap_state = (Throw e, s') /\
    s_timer leap_state = Some leap_due /\ s_timer s' = None /\ s_disk s' = s_disk leap_state /\ s_trace s' = [].
Proof.
  destruct leap_throws as [e He]. exists e.
  assert (exists s', fire leap_due leap_state = (Throw e, s')) as [s' Hf].
  { unfold fire, runDue.
    change (due_indices leap_due (s_jobs (with_timer None leap_state))) with [0%nat].
    change (s_jobs (with_timer None leap_state)) with [leap_job]. cbn [claim_all lookup list_lookup].
    unfold claim_next, nextRunAfter. cbn [kind expression job_schedule leap_job].
    rewrite bool_decide_eq_true_2 by reflexivity. rewrite He. eexists. reflexivity. }
  exists s'. destruct (fire_exception leap_due leap_state e s' Hf) as (Ht & Hd & _ & Htr).
  split; [exact Hf|]. split; [vm_compute; reflexivity|]. split; [exact Ht|]. split; [exact Hd|exact Htr].
Defined.
