(* ===== verification/Disk.v ===== *)
(** * The chat server's write queue

    [apps/chat/server/disk.ts]: writes queued in order, a file replaced again
    before its write started written once in the later place, appends to the tail
    merged, and [readLatest], the file as the queue will leave it.

    - An [Op] is one queue entry; [op_serial] is the identity of its promise, and
      [op_promises] lists the promises its [settle] settles: its own, and those of the
      replaced writes whose [done] it took over.
    - [current] is the write that runs, with the part of its text an append has put on
      disk so far; a replace is on disk only when its rename is.
    - [abs] is what the program means by a file: the text every write so far leaves. *)

From S2P Require Import Prelude.
Local Open Scope Z_scope.
Local Open Scope list_scope.

Inductive OpKind := Replace | Append.
#[export] Instance OpKind_eq : EqDecision OpKind.
Proof. solve_decision. Defined.

Record Op := mkOp { op_serial : nat; op_kind : OpKind; op_path : string; op_text : chars; op_promises : list nat }.

Record Disk := mkDisk {
  files : gmap string chars;
  queue : list Op;
  current : option (Op * chars);
  lastFor : gmap string nat;
  settled : list nat;
  next_serial : nat
}.

Definition op (kind : OpKind) (path : string) (text : chars) (settles : list nat) (s : Disk) : Op :=
  mkOp (next_serial s) kind path text (settles ++ [next_serial s]).

Definition is_replace_of (path : string) (o : Op) : bool :=
  bool_decide (op_kind o = Replace) && bool_decide (op_path o = path).

(** The first element with [p] and the list without it, [findIndex] and [splice]. *)
Fixpoint extract {A} (p : A -> bool) (l : list A) : option (A * list A) :=
  match l with
  | [] => None
  | x :: r => if p x then Some (x, r) else '(y, r') ← extract p r; Some (y, x :: r')
  end.

Definition push (o : Op) (rest : list Op) (s : Disk) : Disk :=
  mkDisk (files s) (rest ++ [o]) (current s) (<[op_path o := op_serial o]> (lastFor s)) (settled s) (S (next_serial s)).

Definition replaceLater (path : string) (text : chars) (s : Disk) : Disk :=
  match extract (is_replace_of path) (queue s) with
  | Some (old, rest) => push (op Replace path text (op_promises old) s) rest s
  | None => push (op Replace path text [] s) (queue s) s
  end.

Definition appendLater (path : string) (text : chars) (s : Disk) : Disk :=
  match last (queue s) with
  | Some t =>
      if bool_decide (op_kind t = Append) && bool_decide (op_path t = path)
      then mkDisk (files s) (removelast (queue s) ++ [mkOp (op_serial t) Append path (op_text t ++ text) (op_promises t)])
             (current s) (lastFor s) (settled s) (next_serial s)
      else push (op Append path text [] s) (queue s) s
  | None => push (op Append path text [] s) (queue s) s
  end.

(** One write's effect on the text of its file. *)
Definition apply (o : Op) (text : option chars) : option chars :=
  match op_kind o with Replace => Some (op_text o) | Append => Some (default [] text ++ op_text o) end.
Definition apply_for (path : string) (text : option chars) (o : Op) : option chars :=
  if bool_decide (op_path o = path) then apply o text else text.

Definition readLatest (path : string) (s : Disk) : option chars :=
  fold_left (apply_for path) ((match current s with Some (o, _) => [o] | None => [] end) ++ queue s) (files s !! path).

(** The promise [written] answers with: a queued write's, or [None] for one already settled. *)
Definition written (path : string) (s : Disk) : option nat := lastFor s !! path.

(** [run]: one write leaves the queue and starts. *)
Definition run_start (s : Disk) : Disk :=
  match current s, queue s with
  | None, o :: rest => mkDisk (files s) rest (Some (o, [])) (lastFor s) (settled s) (next_serial s)
  | _, _ => s
  end.

Definition set_file (path : string) (text : chars) (fs : gmap string chars) : gmap string chars := <[path := text]> fs.

(** A running append puts its next [n] units on disk. *)
Definition run_progress (n : nat) (s : Disk) : Disk :=
  match current s with
  | Some (o, done) =>
      match op_kind o with
      | Append =>
          let part := take n (drop (length done) (op_text o)) in
          mkDisk (set_file (op_path o) (default [] (files s !! op_path o) ++ part) (files s)) (queue s)
            (Some (o, done ++ part)) (lastFor s) (settled s) (next_serial s)
      | Replace => s
      end
  | None => s
  end.

(** The write ends, with its whole effect ([ok]) or with an error that is logged, and its promises settle. *)
Definition run_end (ok : bool) (s : Disk) : Disk :=
  match current s with
  | None => s
  | Some (o, done) =>
      let fs :=
        if ok then
          match op_kind o with
          | Replace => set_file (op_path o) (op_text o) (files s)
          | Append => set_file (op_path o) (default [] (files s !! op_path o) ++ drop (length done) (op_text o)) (files s)
          end
        else files s in
      mkDisk fs (queue s) None
        (if bool_decide (lastFor s !! op_path o = Some (op_serial o)) then delete (op_path o) (lastFor s) else lastFor s)
        (settled s ++ op_promises o) (next_serial s)
  end.

(** [flushSync] when each write succeeds: every write that has not started is made, in order. *)
Definition flush_one (s : Disk) (o : Op) : Disk :=
  mkDisk (match apply o (files s !! op_path o) with Some t => set_file (op_path o) t (files s) | None => files s end)
    (queue s) (current s) (lastFor s) (settled s ++ op_promises o) (next_serial s).
Definition flushSync (s : Disk) : Disk :=
  fold_left flush_one (queue s) (mkDisk (files s) [] (current s) (lastFor s) (settled s) (next_serial s)).

Definition empty (fs : gmap string chars) : Disk := mkDisk fs [] None ∅ [] 0.

(** ** The meaning: what each file holds once every write queued so far is made *)

Definition rest_of (c : Op * chars) : Op :=
  match op_kind c.1 with
  | Replace => c.1
  | Append => mkOp (op_serial c.1) Append (op_path c.1) (drop (length c.2) (op_text c.1)) (op_promises c.1)
  end.

(** The writes still to be made, the running one's remainder first. *)
Definition pending (s : Disk) : list Op := (match current s with Some c => [rest_of c] | None => [] end) ++ queue s.

Definition abs (s : Disk) (path : string) : option chars := fold_left (apply_for path) (pending s) (files s !! path).

(** A call, and what it means to the files. *)
Inductive Call := CReplace (path : string) (text : chars) | CAppend (path : string) (text : chars).
Definition call (c : Call) (s : Disk) : Disk :=
  match c with CReplace p t => replaceLater p t s | CAppend p t => appendLater p t s end.
Definition means (c : Call) (f : string -> option chars) (path : string) : option chars :=
  match c with
  | CReplace p t => if bool_decide (p = path) then Some t else f path
  | CAppend p t => if bool_decide (p = path) then Some (default [] (f path) ++ t) else f path
  end.

(** A step and its label: a call, or none; whether the write it ends failed. *)
Inductive step : Disk -> list Call * bool -> Disk -> Prop :=
| step_call c s : step s ([c], false) (call c s)
| step_start s : step s ([], false) (run_start s)
| step_progress n s : step s ([], false) (run_progress n s)
| step_end ok s : step s ([], negb ok) (run_end ok s).

(** A run of the process: the calls it made, and whether a write failed. *)
Inductive run : Disk -> list Call * bool -> Disk -> Prop :=
| run_refl s : run s ([], false) s
| run_step s s' s'' cs b c b' : run s (cs, b) s' -> step s' (c, b') s'' -> run s (cs ++ c, b || b') s''.

(** ** The refinement *)

Lemma fold_other path l t : Forall (fun o => op_path o <> path) l -> fold_left (apply_for path) l t = t.
Proof.
  intros HF. revert t. induction HF as [|o l Ho HF IH]; intros t; cbn; [done|].
  unfold apply_for at 2. rewrite bool_decide_eq_false_2 by done. apply IH.
Qed.

Lemma extract_Some {A} (p : A -> bool) l x r :
  extract p l = Some (x, r) -> exists l1 l2, l = l1 ++ x :: l2 /\ r = l1 ++ l2 /\ p x = true /\ Forall (fun y => p y = false) l1.
Proof.
  revert x r. induction l as [|a l IH]; cbn; intros x r; [done|].
  destruct (p a) eqn:E; [intros; simplify_eq; by exists [], r|].
  destruct (extract p l) as [[y r']|] eqn:E'; cbn; intros; simplify_eq.
  destruct (IH _ _ eq_refl) as (l1 & l2 & -> & -> & Hp & HF). exists (a :: l1), l2. split_and!; [done|done|done|by constructor].
Qed.
Lemma extract_None {A} (p : A -> bool) l : extract p l = None -> Forall (fun y => p y = false) l.
Proof.
  induction l as [|a l IH]; cbn; [done|]. destruct (p a) eqn:E; [done|].
  destruct (extract p l) as [[y r']|]; [done|]. intros. constructor; auto.
Qed.

Lemma apply_for_other path o t : op_path o <> path -> apply_for path t o = t.
Proof. unfold apply_for. intros. by rewrite bool_decide_eq_false_2. Qed.

Lemma take_drop_length {A} n (l : list A) : take n l ++ drop (length (take n l)) l = l.
Proof.
  replace (drop (length (take n l)) l) with (drop n l); [apply take_drop|].
  rewrite <- (take_drop n l) at 3. by rewrite drop_app_length.
Qed.

Lemma files_run_end s p : 
  (match current s with Some c => apply_for p (files s !! p) (rest_of c) | None => files s !! p end) = files (run_end true s) !! p.
Proof.
  unfold run_end. destruct (current s) as [[o dn]|]; [|done]. unfold rest_of, apply_for, apply, set_file. cbn.
  destruct (op_kind o) eqn:Ek; cbn; rewrite ?Ek; case_bool_decide; subst; rewrite ?lookup_insert_eq, ?lookup_insert_ne by done; done.
Qed.

Lemma abs_call c s p : abs (call c s) p = means c (abs s) p.
Proof.
  destruct c as [q t|q t]; cbn [call means].
  - unfold replaceLater. destruct (extract _ (queue s)) as [[old rest]|] eqn:E.
    + apply extract_Some in E as (l1 & l2 & Hq & -> & Hp & _). unfold abs, pending. cbn. rewrite Hq.
      rewrite !fold_left_app. cbn [fold_left]. set (t0 := fold_left _ _ (files s !! p)). cbv iota.
      unfold apply_for at 1, apply; cbn [op_path op_kind op_text op]. case_bool_decide as Hqp; [done|].
      f_equal. unfold is_replace_of in Hp. simp_ok. by rewrite (apply_for_other p old) by congruence.
    + unfold abs, pending. cbn. rewrite !fold_left_app. cbn [fold_left].
      unfold apply_for at 1, apply; cbn [op_path op_kind op_text op]. by case_bool_decide.
  - assert (forall o, op_path o = q -> op_kind o = Append -> op_text o = t ->
      fold_left (apply_for p) (pending s ++ [o]) (files s !! p) = means (CAppend q t) (abs s) p) as Hnew.
    { intros o Hop Hok Hot. rewrite fold_left_app. cbn [fold_left means]. fold (abs s p). unfold apply_for, apply. rewrite Hop, Hok, Hot. done. }
    unfold appendLater. destruct (last (queue s)) as [tl|] eqn:El.
    2: { unfold abs at 1, pending. cbn. rewrite app_assoc. by apply Hnew. }
    destruct (bool_decide (op_kind tl = Append) && _) eqn:Eb.
    2: { unfold abs at 1, pending. cbn. rewrite app_assoc. by apply Hnew. }
    simp_ok. subst q.
    apply last_Some in El as [l Hq]. unfold abs, pending. cbn [means current queue files]. rewrite Hq, removelast_last.
    rewrite !fold_left_app. cbn [fold_left].
    set (t0 := fold_left _ l _). unfold apply_for, apply. cbn [op_path op_kind op_text].
    destruct (op_kind tl) eqn:Ek; [done|]. case_bool_decide; [|done]. cbn. by rewrite app_assoc.
Qed.

Lemma abs_step s cs s' p : step s (cs, false) s' -> abs s' p = fold_left (fun f c => means c f) cs (abs s) p.
Proof.
  remember (cs, false) as lbl eqn:El. intros Hs. revert El.
  destruct Hs as [c s|s|n s|ok s]; intros El; injection El; clear El; intros; subst cs; cbn [fold_left]; try (destruct ok; [|done]).
  - apply abs_call.
  - unfold run_start. destruct (current s) eqn:Ec; [done|]. destruct (queue s) as [|o q] eqn:Eq; [done|].
    unfold abs, pending. rewrite Ec, Eq. cbn. f_equal. unfold apply_for, apply, rest_of. cbn. by destruct (op_kind o) eqn:Ek; cbn; rewrite ?Ek.
  - unfold run_progress. destruct (current s) as [[o dn]|] eqn:Ec; [|done]. destruct (op_kind o) eqn:Ek; [done|].
    unfold abs, pending. rewrite Ec. cbn. f_equal. unfold apply_for, apply, rest_of, set_file. cbn. rewrite Ek. cbn.
    case_bool_decide as Hp; [|by rewrite lookup_insert_ne].
    subst. rewrite lookup_insert_eq. cbn. f_equal. rewrite <- app_assoc. f_equal.
    rewrite length_app, <- drop_drop. by rewrite take_drop_length.
  - unfold abs at 1, pending. pose proof (files_run_end s p) as Hf.
    assert (current (run_end true s) = None /\ queue (run_end true s) = queue s) as [-> ->].
    { unfold run_end. by destruct (current s) as [[o dn]|] eqn:Ec; cbn. }
    cbn [app]. rewrite <- Hf. unfold abs, pending. by destruct (current s).
Qed.

Lemma means_ext c f g : (forall p, f p = g p) -> forall p, means c f p = means c g p.
Proof. intros Hfg p. destruct c; cbn; by rewrite Hfg. Qed.
Lemma means_fold_ext cs : forall f g, (forall p, f p = g p) ->
  forall p, fold_left (fun f c => means c f) cs f p = fold_left (fun f c => means c f) cs g p.
Proof. induction cs as [|c cs IH]; cbn; intros f g Hfg; [done|]. apply IH, means_ext, Hfg. Qed.

Lemma abs_run s cs s' p : run s (cs, false) s' -> abs s' p = fold_left (fun f c => means c f) cs (abs s) p.
Proof.
  remember (cs, false) as lbl eqn:El. intros Hr. revert cs El p.
  induction Hr as [s|s s' s'' cs b c b' Hr IH Hs]; intros cs' [= <-] p; [done|].
  match goal with H : _ || _ = false |- _ => apply orb_false_iff in H as [-> ->] end.
  rewrite (abs_step _ _ _ _ Hs), fold_left_app. apply means_fold_ext. intros q. by apply IH.
Qed.

(** ** Order: what lands, lands in the order it was queued *)

(** What the order of writes is about: serials, paths and promises. *)
Definition shape (s : Disk) : list (nat * string * list nat) := map (fun o => (op_serial o, op_path o, op_promises o)) (pending s).

Inductive sstep (s s' : Disk) : Prop :=
| sstep_same : shape s' = shape s -> settled s' = settled s -> next_serial s' = next_serial s -> lastFor s' = lastFor s -> sstep s s'
| sstep_push l1 old l2 p pr :
    shape s = l1 ++ old ++ l2 -> (old = [] /\ pr = [] \/ exists n, old = [(n, p, pr)]) ->
    shape s' = l1 ++ l2 ++ [(next_serial s, p, pr ++ [next_serial s])] ->
    settled s' = settled s -> next_serial s' = S (next_serial s) -> lastFor s' = <[p := next_serial s]> (lastFor s) -> sstep s s'
| sstep_land n p pr l :
    shape s = (n, p, pr) :: l -> shape s' = l -> settled s' = settled s ++ pr -> next_serial s' = next_serial s ->
    lastFor s' = (if bool_decide (lastFor s !! p = Some n) then delete p (lastFor s) else lastFor s) -> sstep s s'.

Lemma step_sstep s lbl s' : step s lbl s' -> sstep s s'.
Proof.
  set (sh := fun o : Op => (op_serial o, op_path o, op_promises o)).
  destruct 1 as [[p t|p t] s|s|n s|ok s].
  - cbn. unfold replaceLater. destruct (extract _ (queue s)) as [[old rest]|] eqn:E.
    + apply extract_Some in E as (l1 & l2 & Hq & -> & Hp & _).
      eapply (sstep_push _ _ (map sh (match current s with Some c => [rest_of c] | None => [] end ++ l1)) [sh old] (map sh l2) p (op_promises old)); try done.
      * unfold shape, pending. rewrite Hq. by rewrite !map_app, <- !app_assoc.
      * right. exists (op_serial old). unfold sh. unfold is_replace_of in Hp. simp_ok. congruence.
      * unfold shape, pending. cbn. by rewrite !map_app, <- !app_assoc.
    + eapply (sstep_push _ _ (shape s) [] [] p []); try done; [by rewrite app_nil_r|by left|].
      unfold shape, pending. cbn. by rewrite !map_app, <- !app_assoc.
  - assert (sstep s (push (op Append p t [] s) (queue s) s)) as Hpush.
    { eapply (sstep_push _ _ (shape s) [] [] p []); try done; [by rewrite app_nil_r|by left|].
      unfold shape, pending. cbn. by rewrite !map_app, <- !app_assoc. }
    cbn. unfold appendLater. destruct (last (queue s)) as [tl|] eqn:El; [|done].
    destruct (_ && _) eqn:Eb; [|done]. simp_ok. apply sstep_same; try done.
    apply last_Some in El as [l Hq]. unfold shape, pending. cbn. rewrite Hq, removelast_last, !map_app. cbn.
    by rewrite H0.
  - unfold run_start. destruct (current s) eqn:Ec; [by apply sstep_same|].
    destruct (queue s) as [|o q] eqn:Eq; [by apply sstep_same|]. apply sstep_same; try done.
    unfold shape, pending. rewrite Ec, Eq. cbn. unfold rest_of. cbn. by destruct (op_kind o).
  - unfold run_progress. destruct (current s) as [[o dn]|] eqn:Ec; [|by apply sstep_same].
    destruct (op_kind o) eqn:Ek; [by apply sstep_same|]. apply sstep_same; try done.
    unfold shape, pending. rewrite Ec. unfold rest_of. cbn. by rewrite Ek.
  - unfold run_end. destruct (current s) as [[o dn]|] eqn:Ec; [|by apply sstep_same].
    eapply (sstep_land _ _ (op_serial o) (op_path o) (op_promises o)); try done.
    unfold shape, pending. rewrite Ec. cbn. unfold rest_of. cbn. by destruct (op_kind o).
Qed.

Definition serial (x : nat * string * list nat) : nat := x.1.1.
Definition path_of (x : nat * string * list nat) : string := x.1.2.

Record Ordered (s : Disk) : Prop := mkOrdered {
  ord_sorted : StronglySorted (fun x y => (serial x < serial y)%nat) (shape s);
  ord_next : forall x, x ∈ shape s -> (serial x < next_serial s)%nat /\ forall m, m ∈ x.2 -> (m <= serial x)%nat;
  ord_settled : forall m x, m ∈ settled s -> x ∈ shape s -> (m < serial x)%nat;
  ord_settled_next : forall m, m ∈ settled s -> (m < next_serial s)%nat;
  ord_last : forall p, match lastFor s !! p with
    | Some n => (exists pr, (n, p, pr) ∈ shape s) /\ forall x, x ∈ shape s -> path_of x = p -> (serial x <= n)%nat
    | None => forall x, x ∈ shape s -> path_of x <> p end
}.

Lemma sorted_drop_mid {A} (R : A -> A -> Prop) l1 m l2 : StronglySorted R (l1 ++ m ++ l2) -> StronglySorted R (l1 ++ l2).
Proof.
  intros Hs. induction l1 as [|a l1 IH]; cbn in *.
  - induction m as [|b m IHm]; [done|]. apply IHm. by inversion Hs.
  - inversion Hs as [|? ? Hs' Ha]; subst. constructor; [by apply IH|].
    rewrite !Forall_app in *. naive_solver.
Qed.

Lemma sorted_snoc {A} (R : A -> A -> Prop) l x : StronglySorted R l -> Forall (fun y => R y x) l -> StronglySorted R (l ++ [x]).
Proof.
  induction 1 as [|a l Hs IH Ha]; intros HF; cbn; [repeat constructor|].
  apply Forall_cons in HF as [Hax HF]. constructor; [by apply IH|]. rewrite Forall_app. split; [done|by constructor].
Qed.

Lemma Ordered_push s s' l1 old l2 p pr :
  Ordered s -> shape s = l1 ++ old ++ l2 -> (old = [] /\ pr = [] \/ exists n, old = [(n, p, pr)]) ->
  shape s' = l1 ++ l2 ++ [(next_serial s, p, pr ++ [next_serial s])] ->
  settled s' = settled s -> next_serial s' = S (next_serial s) -> lastFor s' = <[p := next_serial s]> (lastFor s) -> Ordered s'.
Proof.
  intros [Hs Hn Ht Htn Hl] Hsh Hold Hsh' Hset Hnext Hlast.
  assert (forall x, x ∈ l1 ++ l2 -> x ∈ shape s) as Hsub by (intros x; rewrite Hsh; set_solver).
  assert (forall m, m ∈ pr -> (m < next_serial s)%nat) as Hpr.
  { destruct Hold as [[_ ->]|[n ->]]; [set_solver|]. intros m Hm.
    destruct (Hn (n, p, pr)) as [Hlt Hle]; [rewrite Hsh; set_solver|]. specialize (Hle m Hm). cbn in *. lia. }
  assert (forall x, x ∈ shape s' -> x ∈ shape s \/ x = (next_serial s, p, pr ++ [next_serial s])) as Hin.
  { intros x. rewrite Hsh', app_assoc, elem_of_app, list_elem_of_singleton. intros [Hx|Hx]; auto. }
  split.
  - rewrite Hsh', app_assoc. apply sorted_snoc; [eapply sorted_drop_mid; by rewrite <- Hsh|].
    apply Forall_forall. intros x Hx. by destruct (Hn x (Hsub x Hx)).
  - intros x [Hx|Hx]%Hin; rewrite Hnext.
    + destruct (Hn x Hx). split; [lia|done].
    + subst. cbn. split; [lia|]. intros m [Hm|Hm]%elem_of_app; [by apply Nat.lt_le_incl, Hpr|].
      apply list_elem_of_singleton in Hm. lia.
  - intros m x Hm. rewrite Hset in Hm. intros [Hx|Hx]%Hin; [by apply Ht|]. subst. by apply Htn.
  - intros m Hm. rewrite Hset in Hm. rewrite Hnext. specialize (Htn m Hm). lia.
  - intros q. rewrite Hlast, lookup_insert. case_decide as Hq.
    + subst q. split; [exists (pr ++ [next_serial s]); rewrite Hsh'; set_solver|]. intros x [Hx|Hx]%Hin _; [|by subst].
      destruct (Hn x Hx). lia.
    + specialize (Hl q). destruct (lastFor s !! q) as [n|].
      * destruct Hl as [[pr' Hpr'] Hmax]. split.
        -- exists pr'. rewrite Hsh'. rewrite Hsh in Hpr'.
           destruct Hold as [[-> _]|[n' ->]]; set_unfold; naive_solver.
        -- intros x [Hx|Hx]%Hin Hp; [by apply Hmax|]. by subst.
      * intros x [Hx|Hx]%Hin; [by apply Hl|]. by subst.
Qed.

Lemma Ordered_land s s' n p pr l :
  Ordered s -> shape s = (n, p, pr) :: l -> shape s' = l -> settled s' = settled s ++ pr -> next_serial s' = next_serial s ->
  lastFor s' = (if bool_decide (lastFor s !! p = Some n) then delete p (lastFor s) else lastFor s) -> Ordered s'.
Proof.
  intros [Hs Hn Ht Htn Hl] Hsh Hsh' Hset Hnext Hlast. subst l.
  rewrite Hsh in Hs. apply StronglySorted_inv in Hs as [Hs Hhead]. rewrite Forall_forall in Hhead.
  destruct (Hn (n, p, pr)) as [Hlt Hpr]; [rewrite Hsh; set_solver|]. cbn in Hlt, Hpr.
  assert (forall x, x ∈ shape s' -> x ∈ shape s) as Hsub by (intros x; rewrite Hsh; set_solver).
  split.
  - done.
  - intros x Hx. rewrite Hnext. exact (Hn x (Hsub x Hx)).
  - intros m x Hm Hx. rewrite Hset in Hm. apply elem_of_app in Hm as [Hm|Hm]; [by apply Ht, Hsub|].
    specialize (Hhead x Hx). specialize (Hpr m Hm). unfold serial at 1 in Hhead. cbn in Hhead. lia.
  - intros m Hm. rewrite Hset in Hm. rewrite Hnext. apply elem_of_app in Hm as [Hm|Hm]; [by apply Htn|].
    specialize (Hpr m Hm). lia.
  - intros q. rewrite Hlast. pose proof (Hl q) as Hq. case_bool_decide as Hp.
    + destruct (decide (q = p)) as [->|Hne].
      * rewrite lookup_delete_eq. rewrite Hp in Hq. destruct Hq as [_ Hmax]. intros x Hx Hxp.
        specialize (Hmax x (Hsub x Hx) Hxp). specialize (Hhead x Hx). unfold serial at 1 in Hhead. cbn in Hhead. lia.
      * rewrite lookup_delete_ne by done. destruct (lastFor s !! q) as [k|]; [|by intros x Hx; apply Hq, Hsub].
        destruct Hq as [[pr' Hpr'] Hmax]. split; [|by intros x Hx; apply Hmax, Hsub].
        exists pr'. rewrite Hsh in Hpr'. apply elem_of_cons in Hpr' as [?|?]; [congruence|done].
    + destruct (lastFor s !! q) as [k|] eqn:Ek; [|by intros x Hx; apply Hq, Hsub].
      destruct Hq as [[pr' Hpr'] Hmax]. split; [|by intros x Hx; apply Hmax, Hsub].
      exists pr'. rewrite Hsh in Hpr'. apply elem_of_cons in Hpr' as [?|?]; [|done]. simplify_eq.
Qed.

Lemma Ordered_same s s' :
  Ordered s -> shape s' = shape s -> settled s' = settled s -> next_serial s' = next_serial s -> lastFor s' = lastFor s -> Ordered s'.
Proof. intros [] H1 H2 H3 H4. split; rewrite ?H1, ?H2, ?H3, ?H4; done. Qed.

Lemma Ordered_step s lbl s' : Ordered s -> step s lbl s' -> Ordered s'.
Proof.
  intros HO [| |]%step_sstep; [by eapply Ordered_same|by eapply Ordered_push|by eapply Ordered_land].
Qed.

Lemma Ordered_empty fs : Ordered (empty fs).
Proof. split; unfold shape, empty; cbn; [constructor|set_solver..|]. intros p. rewrite lookup_empty. set_solver. Qed.

Lemma Ordered_run s lbl s' : Ordered s -> run s lbl s' -> Ordered s'.
Proof. intros HO Hr. induction Hr as [|s s' s'' cs b c b' Hr IH Hs]; [done|]. eapply Ordered_step; [by apply IH|done]. Qed.

(** What a promise taken at [n] for [p], when the next serial was [m], says of a later state. *)
Definition covers (p : string) (n m : nat) (s : Disk) : Prop :=
  (forall x y, x ∈ shape s -> y ∈ shape s -> n ∈ x.2 -> path_of y = p -> (serial y < m)%nat -> (serial y <= serial x)%nat) /\
  (n ∈ settled s -> forall y, y ∈ shape s -> path_of y = p -> (m <= serial y)%nat).

Lemma covers_step p n m s lbl s' :
  Ordered s -> (m <= next_serial s)%nat -> (n < m)%nat -> covers p n m s -> step s lbl s' -> covers p n m s'.
Proof.
  intros HO Hm Hnm [Hc Hd] Hs. apply step_sstep in Hs as [Hsh Hset _ _|l1 old l2 q pr Hsh Hold Hsh' Hset _ _|k q pr l Hsh Hsh' Hset _ _].
  - unfold covers. by rewrite Hsh, Hset.
  - assert (forall x, x ∈ shape s' -> x ∈ shape s \/ x = (next_serial s, q, pr ++ [next_serial s])) as Hin.
    { intros x. rewrite Hsh', Hsh. set_unfold. naive_solver. }
    split.
    + intros x y [Hx|Hx]%Hin [Hy|Hy]%Hin Hnx Hp Hlt; subst; cbn in *; [by apply Hc|lia|lia|lia].
    + rewrite Hset. intros Hns y [Hy|Hy]%Hin Hp; [by apply Hd|]. by subst.
  - pose proof (ord_sorted _ HO) as Hso. rewrite Hsh in Hso. apply StronglySorted_inv in Hso as [_ Hhead].
    rewrite Forall_forall in Hhead. subst l.
    assert (forall x, x ∈ shape s' -> x ∈ shape s) as Hsub by (intros x; rewrite Hsh; set_solver).
    split; [intros x y Hx Hy; apply Hc; by apply Hsub|].
    rewrite Hset. intros [Hn|Hn]%elem_of_app y Hy Hp; [by apply Hd; [done|apply Hsub|]|].
    destruct (decide (m <= serial y)%nat) as [|Hlt]; [done|]. exfalso.
    assert ((k, q, pr) ∈ shape s) as Hk by (rewrite Hsh; set_solver).
    specialize (Hc (k, q, pr) y Hk (Hsub _ Hy) Hn Hp ltac:(lia)). specialize (Hhead y Hy). lia.
Qed.

Lemma step_next s lbl s' : step s lbl s' -> (next_serial s <= next_serial s')%nat.
Proof. intros [| |]%step_sstep; lia. Qed.

Lemma covers_run p n s lbl s' :
  Ordered s -> covers p n (next_serial s) s -> (n < next_serial s)%nat -> run s lbl s' -> covers p n (next_serial s) s'.
Proof.
  intros HO Hc Hn Hr. 
  cut (covers p n (next_serial s) s' /\ (next_serial s <= next_serial s')%nat); [by intros []|].
  induction Hr as [s|s s' s'' cs b c b' Hr IH Hs]; [done|].
  destruct (IH HO Hc Hn) as [Hc' Hle]. pose proof (step_next _ _ _ Hs). split; [|lia].
  eapply covers_step; [by eapply Ordered_run|exact Hle|exact Hn|exact Hc'|exact Hs].
Qed.

(** ** Properties *)

(** C4: the queue is the file system it stands for.  A process that made the calls [cs]
    and had no failed write will leave each file as making those writes at once, in call
    order, would have: [abs] says so at every moment, whatever has landed, and once the
    queue is empty the files themselves do. *)
Theorem queue_refines_files fs cs s :
  run (empty fs) (cs, false) s ->
  (forall p, abs s p = fold_left (fun f c => means c f) cs (fun p => fs !! p) p) /\
  (queue s = [] -> current s = None -> forall p, files s !! p = fold_left (fun f c => means c f) cs (fun p => fs !! p) p).
Proof.
  intros Hr. assert (forall p, abs s p = fold_left (fun f c => means c f) cs (fun p => fs !! p) p) as Ha.
  { intros p. by rewrite (abs_run _ _ _ p Hr). }
  split; [done|]. intros Hq Hc p. rewrite <- Ha. unfold abs, pending. by rewrite Hq, Hc.
Qed.

Definition log_path : string := "/data/outbox.jsonl".
Definition rooms_path : string := "/data/rooms.json".
Definition txt (s : string) : chars := to_chars s.
Definition ex_calls : list Call :=
  [CReplace rooms_path (txt "{1}"); CAppend log_path (txt "a"); CAppend log_path (txt "b"); CReplace rooms_path (txt "{2}")].
Definition ex_queued : Disk := fold_left (fun s c => call c s) ex_calls (empty ∅).
Definition ex_done : Disk := run_end true (run_start (run_end true (run_progress 1 (run_start ex_queued)))).

Lemma ex_queued_run : run (empty ∅) (ex_calls, false) ex_queued.
Proof.
  assert (forall l s s' cs, run s (cs, false) s' -> run s (cs ++ l, false) (fold_left (fun s c => call c s) l s')) as Hf.
  { induction l as [|c l IH]; intros s s' cs Hr; cbn; [by rewrite app_nil_r|].
    replace (cs ++ c :: l) with ((cs ++ [c]) ++ l) by (by rewrite <- app_assoc). apply IH.
    exact (run_step _ _ _ _ _ _ _ Hr (step_call c s')). }
  exact (Hf ex_calls _ _ [] (run_refl _)).
Qed.

Lemma ex_done_run : run (empty ∅) (ex_calls, false) ex_done.
Proof.
  pose proof ex_queued_run as Hr.
  pose proof (run_step _ _ _ _ _ _ _ Hr (step_start _)) as Hr1.
  pose proof (run_step _ _ _ _ _ _ _ Hr1 (step_progress 1 _)) as Hr2.
  pose proof (run_step _ _ _ _ _ _ _ Hr2 (step_end true _)) as Hr3.
  pose proof (run_step _ _ _ _ _ _ _ Hr3 (step_start _)) as Hr4.
  exact (run_step _ _ _ _ _ _ _ Hr4 (step_end true _)).
Qed.

Lemma queue_refines_files_witness :
  length (queue ex_queued) = 2%nat /\ files ex_done !! log_path = Some (txt "ab") /\ files ex_done !! rooms_path = Some (txt "{2}").
Proof.
  destruct (queue_refines_files ∅ ex_calls ex_done ex_done_run) as [_ Hf].
  assert (queue ex_done = []) as Hq by (vm_compute; reflexivity).
  assert (current ex_done = None) as Hc by (vm_compute; reflexivity).
  split; [vm_compute; reflexivity|]. split; [rewrite (Hf Hq Hc)|rewrite (Hf Hq Hc)]; vm_compute; reflexivity.
Defined.

(** writes land in the order they were queued, across files and through failures: a
    write whose promise has settled was queued before every write still to be made, so a
    cursor in one file never lands before the posts in another that were queued first. *)
Theorem writes_land_in_order fs cs b s :
  run (empty fs) (cs, b) s ->
  (forall m o, m ∈ settled s -> o ∈ pending s -> (m < op_serial o)%nat) /\
  StronglySorted (fun x y => (op_serial x < op_serial y)%nat) (pending s).
Proof.
  intros Hr. pose proof (Ordered_run _ _ _ (Ordered_empty fs) Hr) as [Hs _ Ht _ _]. split.
  - intros m o Hm Ho. apply (Ht m (op_serial o, op_path o, op_promises o) Hm). unfold shape. apply list_elem_of_fmap. eauto.
  - unfold shape in Hs. clear - Hs. induction (pending s) as [|o l IH]; [constructor|].
    cbn in Hs. apply StronglySorted_inv in Hs as [Hs Ho]. constructor; [by apply IH|].
    apply Forall_forall. intros y Hy. rewrite Forall_forall in Ho.
    apply (Ho (op_serial y, op_path y, op_promises y)). apply list_elem_of_fmap. eauto.
Qed.

Lemma writes_land_in_order_witness :
  settled (run_end true (run_start ex_queued)) = [1%nat] /\
  (forall o, o ∈ pending (run_end true (run_start ex_queued)) -> (1 < op_serial o)%nat).
Proof.
  pose proof (run_step _ _ _ _ _ _ _ (run_step _ _ _ _ _ _ _ ex_queued_run (step_start _)) (step_end true _)) as Hr.
  assert (settled (run_end true (run_start ex_queued)) = [1%nat]) as Hset by (vm_compute; reflexivity).
  split; [exact Hset|]. intros o Ho.
  apply (proj1 (writes_land_in_order _ _ _ _ Hr) 1%nat o); [|exact Ho].
  change (1%nat ∈ settled (run_end true (run_start ex_queued))). rewrite Hset. apply list_elem_of_singleton. reflexivity.
Defined.

(** what [written] promises.  When it answers with a settled promise, no write for the
    path is still to be made; when it answers with the promise [n] and that settles later,
    every write for the path still to be made then was queued after the call (a failed
    write settles too, as documented). *)
Theorem written_durable fs cs b s p :
  run (empty fs) (cs, b) s ->
  match written p s with
  | None => forall o, o ∈ pending s -> op_path o <> p
  | Some n => (n ∉ settled s) /\ forall cs' b' s', run s (cs', b') s' -> n ∈ settled s' ->
      forall o, o ∈ pending s' -> op_path o = p -> (next_serial s <= op_serial o)%nat
  end.
Proof.
  intros Hr. pose proof (Ordered_run _ _ _ (Ordered_empty fs) Hr) as HO. pose proof (ord_last _ HO p) as Hl. unfold written.
  assert (forall s o, o ∈ pending s -> (op_serial o, op_path o, op_promises o) ∈ shape s) as Hsh.
  { intros s' o Ho. unfold shape. apply list_elem_of_fmap. eauto. }
  destruct (lastFor s !! p) as [n|].
  - destruct Hl as [[pr Hpr] Hmax].
    destruct (ord_next _ HO _ Hpr) as [Hn Hprs]. cbn in Hn, Hprs.
    assert (n ∉ settled s) as Hns by (intros Hns; pose proof (ord_settled _ HO _ _ Hns Hpr) as Hlt; cbn in Hlt; lia).
    split; [done|].
    intros cs' b' s' Hr' Hset o Ho Hp.
    assert (covers p n (next_serial s) s) as Hc.
    { split; [|done]. intros x y Hx Hy Hnx Hpy _. destruct (ord_next _ HO x Hx) as [_ Hle].
      specialize (Hle n Hnx). specialize (Hmax y Hy Hpy). lia. }
    destruct (covers_run _ _ _ _ _ HO Hc Hn Hr') as [_ Hd].
    apply (Hd Hset _ (Hsh _ _ Ho) Hp).
  - intros o Ho. apply (Hl _ (Hsh _ _ Ho)).
Qed.

Lemma written_durable_witness :
  written rooms_path ex_queued = Some 2%nat /\ 2%nat ∉ settled ex_queued.
Proof.
  pose proof (written_durable _ _ _ _ rooms_path ex_queued_run) as Hw.
  assert (written rooms_path ex_queued = Some 2%nat) as He by (vm_compute; reflexivity).
  rewrite He in Hw. split; [exact He|exact (proj1 Hw)].
Defined.

(** [readLatest] is the file as the queue will leave it, unless an append to it is
    running with a part on disk: then it reads that part twice, before the whole text. *)
Theorem readLatest_spec p s :
  (match current s with Some (o, done) => op_path o <> p \/ op_kind o = Replace \/ done = [] | None => True end ->
   readLatest p s = abs s p) /\
  (forall o done base, current s = Some (o, done) -> op_path o = p -> op_kind o = Append -> files s !! p = Some (base ++ done) ->
   readLatest p s = fold_left (apply_for p) (queue s) (Some (base ++ done ++ op_text o))).
Proof.
  split.
  - intros Hc. unfold readLatest, abs, pending. destruct (current s) as [[o dn]|] eqn:E; [|done]. cbn. f_equal.
    destruct (decide (op_path o = p)) as [Hp|Hp].
    + destruct Hc as [?|[Hk| ->]]; [done|..]; unfold rest_of; cbn; [by rewrite Hk|].
      unfold apply_for, apply. by destruct (op_kind o) eqn:Ek; cbn; rewrite ?Ek.
    + rewrite !apply_for_other; [done| |done]. unfold rest_of. by destruct (op_kind _).
  - intros o dn base Hcur Hp Hk Hf. unfold readLatest. rewrite Hcur, Hf. cbn. f_equal.
    unfold apply_for, apply. rewrite Hp, Hk. rewrite bool_decide_eq_true_2 by done. cbn. by rewrite app_assoc.
Qed.

Lemma readLatest_spec_witness :
  readLatest log_path (run_progress 1 (run_start ex_queued)) = Some (txt "aab") /\
  readLatest log_path ex_queued = abs ex_queued log_path.
Proof.
  split; [|apply (proj1 (readLatest_spec log_path ex_queued)); vm_compute; exact I].
  rewrite (proj2 (readLatest_spec log_path (run_progress 1 (run_start ex_queued)))
    (mkOp 1 Append log_path (txt "ab") [1%nat]) (txt "a") []); vm_compute; reflexivity.
Defined.

(** [flushSync] on a queue with nothing running makes every queued write: it leaves
    the queue empty, each file as the queue would have left it and every promise settled. *)
Theorem flushSync_spec s :
  current s = None ->
  queue (flushSync s) = [] /\ (forall p, files (flushSync s) !! p = abs s p) /\
  settled (flushSync s) = settled s ++ concat (map op_promises (queue s)).
Proof.
  intros Hc. unfold flushSync, abs, pending. rewrite Hc. cbn [app].
  set (s0 := mkDisk _ _ _ _ _ _). change (files s) with (files s0). change (settled s) with (settled s0).
  assert (queue s0 = []) as Hq by done. revert Hq. generalize s0 as s'. clear s0. generalize (queue s) as l.
  induction l as [|o l IH]; intros s' Hq; cbn; [by rewrite app_nil_r|].
  destruct (IH (flush_one s' o)) as (H1 & H2 & H3); [done|]. split_and!; [done| |].
  - intros p. rewrite H2. f_equal. unfold flush_one, apply_for, apply, set_file. cbn.
    destruct (op_kind o); case_bool_decide; subst; by rewrite ?lookup_insert_eq, ?lookup_insert_ne.
  - rewrite H3. cbn. by rewrite app_assoc.
Qed.

Lemma flushSync_spec_witness : files (flushSync ex_queued) !! log_path = Some (txt "ab").
Proof.
  assert (current ex_queued = None) as Hc by (vm_compute; reflexivity).
  rewrite (proj1 (proj2 (flushSync_spec ex_queued Hc)) log_path). vm_compute. reflexivity.
Defined.
