(* ===== verification/Outbox.v ===== *)
(** * The owner's outbox

    [apps/chat/server/outbox.ts], class [Outbox]: the owner's sends to a thread, held
    on disk and shown on every watching page until pi-host has them.

    - [o_file] is [outbox.jsonl] as the write queue leaves it (see [Disk]), a list of
      lines; [o_base] counts the lines of its last rewrite, which one rename puts there.
    - A row object is named by its request id: [add] makes one only for an id that is
      neither open nor done.  [o_inflight] keeps the row a submit started from, because a
      row can land before pi-host's answer comes back.
    - The asynchronous [deliver], [mention] and [sweep] are split at their awaits; the
      answers of pi-host are arguments of the steps, and [o_trace] records what leaves. *)

From S2P Require Import Prelude.
Local Open Scope Z_scope.
Local Open Scope list_scope.

Inductive SendState := Sending | Sent | Failed.
Inductive WhenBusy := BusySteer | BusyFollowUp.
#[export] Instance SendState_eq : EqDecision SendState.
Proof. solve_decision. Defined.

Definition MAX_BACKOFF_MS : Z := 30000.
Definition SENT_TTL_MS : Z := 6 * 3600000.
Definition DONE_TTL_MS : Z := 24 * 3600000.
Definition LAND_SLACK_MS : Z := 10000.

Definition retryWait (attempts : Z) : Z := Z.min MAX_BACKOFF_MS (250 * 2 ^ Z.min attempts 10).

(** [/a|b|.../i.test(text)] for lower-case literals. *)
Fixpoint contains_ci (lit text : chars) : bool :=
  starts_with lit (map lower text) || match text with [] => false | _ :: r => contains_ci lit r end.
Definition FATAL : list string := ["no thread"; "no conversation"; "needs text"; "archived"]%string.
Definition refusedForGood (message : string) : bool :=
  existsb (fun lit => contains_ci (to_chars lit) (to_chars message)) FATAL.

Definition sameText (a b : string) : bool := bool_decide (trim a = trim b).

(** pi-host's entries, as far as the sweep reads them. *)
Inductive Block := BText (text : string) | BOther.
Inductive Content := CText (text : string) | CBlocks (bs : list Block) | CNone.
Record Message := mkMessage { m_role : string; m_content : Content; m_timestamp : option Z }.
Record EntryRecord := mkEntry { e_id : Z; e_kind : string; e_model : option Message }.

Definition INPUT_KINDS : list string := ["pi.user"; "agent.message"; "prime.custom"]%string.
Definition TURN_KINDS : list string := ["pi.assistant"; "pi.tool-result"]%string.
Definition isInput (entry : EntryRecord) : bool :=
  if bool_decide (e_kind entry ∈ INPUT_KINDS) then true
  else match e_model entry with Some m => bool_decide (m_role m = "user"%string) | None => false end
       && negb (bool_decide (e_kind entry ∈ TURN_KINDS)).
Definition ownerInput (entry : EntryRecord) : bool := isInput entry && negb (bool_decide (e_kind entry = "agent.message"%string)).

Definition entryText (entry : EntryRecord) : string :=
  match e_model entry with
  | Some (mkMessage _ (CText t) _) => t
  | Some (mkMessage _ (CBlocks bs) _) =>
      of_chars (join_with "010"%char (omap (fun b => match b with BText t => Some (to_chars t) | BOther => None end) bs))
  | _ => String.EmptyString
  end.

(** An owner input as [land] reads it. *)
Record Landing := mkLanding { i_id : string; i_text : string; i_at : Z }.

Definition landing_of (e : EntryRecord) : Landing :=
  mkLanding ("e" +:+ string_of_Z (e_id e)) (entryText e) (default 0 (e_model e ≫= m_timestamp)).

(** An item of pi-host's conversation page, as [reconcile] reads it. *)
Record HostItem := mkHostItem { hi_message : bool; hi_id : string; hi_author : string; hi_text : string; hi_at : Z }.

Section Outbox.
Context {Delivery : Type}.

Record OutboxRow := mkRow {
  requestId : string; conversation : string; text : string; images : list (string * string); mentions : list string;
  whenBusy : WhenBusy; at_ : Z; state : SendState; attempts : Z; error : option string; sentAt : option Z;
  deliveries : list Delivery; mentioned : option bool
}.

(** A [set] patch; [PError None] is the [error: null] that clears the field. *)
Inductive Patch :=
| PState (v : SendState) | PAttempts (v : Z) | PError (v : option string) | PSentAt (v : Z)
| PDeliveries (v : list Delivery) | PMentioned (v : bool).

Definition patch_field (r : OutboxRow) (p : Patch) : OutboxRow :=
  let '(mkRow id c t im me wb a st att err sent del mtd) := r in
  match p with
  | PState v => mkRow id c t im me wb a v att err sent del mtd
  | PAttempts v => mkRow id c t im me wb a st v err sent del mtd
  | PError v => mkRow id c t im me wb a st att v sent del mtd
  | PSentAt v => mkRow id c t im me wb a st att err (Some v) del mtd
  | PDeliveries v => mkRow id c t im me wb a st att err sent v mtd
  | PMentioned v => mkRow id c t im me wb a st att err sent del (Some v)
  end.
Definition patch (r : OutboxRow) (change : list Patch) : OutboxRow := fold_left patch_field change r.

(** A line of the file; [LTorn] is one that does not parse. *)
Inductive Line := LRow (row : OutboxRow) | LSet (id : string) (change : list Patch) | LDone (id : string) (at_ : option Z) | LTorn.

(** What a page shows of a row. *)
Record Item := mkItem {
  it_id : string; it_at : Z; it_text : string; it_images : list (string * string); it_mentions : list string;
  it_deliveries : list Delivery; it_send : SendState; it_requestId : string; it_sendError : option string
}.
Definition nonempty (s : string) : option string := if bool_decide (s = String.EmptyString) then None else Some s.
Definition item_id (id : string) : string := ("r:" +:+ id)%string.
Definition item (r : OutboxRow) : Item :=
  mkItem (item_id (requestId r)) (at_ r) (text r) (images r) (mentions r) (deliveries r) (state r) (requestId r) (error r ≫= nonempty).

Inductive Event :=
| EvChanged (conversation : string) (items : list Item) (removed : list string)
| EvSubmit (id : string)
| EvSubmitted (id : string)
| EvMention (id : string).

(** Where an in-flight [deliver] waits. *)
Inductive Phase := Submitting | Mentioning.

Record Outbox := mkOutbox {
  o_rows : list (string * OutboxRow);
  o_done : list (string * Z);
  o_timers : gmap string Z;
  o_inflight : gmap string (OutboxRow * Phase);
  o_mentioning : list string;
  o_matched : gmap string (list string);
  o_swept : gmap string Z;
  o_sweeping : option (list (string * list string));
  o_started : bool;
  o_stopped : bool;
  o_file : list Line;
  o_base : nat;
  o_trace : list Event
}.

Definition with_rows rs (s : Outbox) : Outbox := mkOutbox rs (o_done s) (o_timers s) (o_inflight s) (o_mentioning s) (o_matched s)
  (o_swept s) (o_sweeping s) (o_started s) (o_stopped s) (o_file s) (o_base s) (o_trace s).
Definition with_done d (s : Outbox) : Outbox := mkOutbox (o_rows s) d (o_timers s) (o_inflight s) (o_mentioning s) (o_matched s)
  (o_swept s) (o_sweeping s) (o_started s) (o_stopped s) (o_file s) (o_base s) (o_trace s).
Definition with_timers t (s : Outbox) : Outbox := mkOutbox (o_rows s) (o_done s) t (o_inflight s) (o_mentioning s) (o_matched s)
  (o_swept s) (o_sweeping s) (o_started s) (o_stopped s) (o_file s) (o_base s) (o_trace s).
Definition with_inflight i (s : Outbox) : Outbox := mkOutbox (o_rows s) (o_done s) (o_timers s) i (o_mentioning s) (o_matched s)
  (o_swept s) (o_sweeping s) (o_started s) (o_stopped s) (o_file s) (o_base s) (o_trace s).
Definition with_mentioning m (s : Outbox) : Outbox := mkOutbox (o_rows s) (o_done s) (o_timers s) (o_inflight s) m (o_matched s)
  (o_swept s) (o_sweeping s) (o_started s) (o_stopped s) (o_file s) (o_base s) (o_trace s).
Definition with_matched m (s : Outbox) : Outbox := mkOutbox (o_rows s) (o_done s) (o_timers s) (o_inflight s) (o_mentioning s) m
  (o_swept s) (o_sweeping s) (o_started s) (o_stopped s) (o_file s) (o_base s) (o_trace s).
Definition with_swept w (s : Outbox) : Outbox := mkOutbox (o_rows s) (o_done s) (o_timers s) (o_inflight s) (o_mentioning s) (o_matched s)
  w (o_sweeping s) (o_started s) (o_stopped s) (o_file s) (o_base s) (o_trace s).
Definition with_sweeping w (s : Outbox) : Outbox := mkOutbox (o_rows s) (o_done s) (o_timers s) (o_inflight s) (o_mentioning s) (o_matched s)
  (o_swept s) w (o_started s) (o_stopped s) (o_file s) (o_base s) (o_trace s).
Definition with_running started stopped (s : Outbox) : Outbox := mkOutbox (o_rows s) (o_done s) (o_timers s) (o_inflight s) (o_mentioning s)
  (o_matched s) (o_swept s) (o_sweeping s) started stopped (o_file s) (o_base s) (o_trace s).
Definition with_file f b (s : Outbox) : Outbox := mkOutbox (o_rows s) (o_done s) (o_timers s) (o_inflight s) (o_mentioning s) (o_matched s)
  (o_swept s) (o_sweeping s) (o_started s) (o_stopped s) f b (o_trace s).
Definition emit ev (s : Outbox) : Outbox := mkOutbox (o_rows s) (o_done s) (o_timers s) (o_inflight s) (o_mentioning s) (o_matched s)
  (o_swept s) (o_sweeping s) (o_started s) (o_stopped s) (o_file s) (o_base s) (o_trace s ++ ev).

(** ** The file *)

Definition replay_line (now : Z) (m : list (string * OutboxRow) * list (string * Z)) (l : Line) :=
  match l with
  | LRow r => (OMap.set (requestId r) r m.1, m.2)
  | LSet id change => match OMap.get id m.1 with Some r => (OMap.set id (patch r change) m.1, m.2) | None => m end
  | LDone id a => (OMap.del id m.1, OMap.set id (default now a) m.2)
  | LTorn => m
  end.
Definition replay (now : Z) (ls : list Line) := fold_left (replay_line now) ls ([], []).

Definition write (l : Line) (s : Outbox) : Outbox := with_file (o_file s ++ [l]) (o_base s) s.

Definition fresh (now : Z) (d : list (string * Z)) : list (string * Z) := filter (fun ia => (now - ia.2 <=? DONE_TTL_MS) = true) d.

Definition compact (now : Z) (s : Outbox) : Outbox :=
  let d := fresh now (o_done s) in
  let ls := map (fun ia : string * Z => LDone ia.1 (Some ia.2)) d ++ map (fun ir : string * OutboxRow => LRow ir.2) (o_rows s) in
  with_file ls (length ls) (with_done d s).

(** The constructor: a process that finds the lines [f]. *)
Definition load (now : Z) (f : option (list Line)) (trace : list Event) : Outbox :=
  match f with
  | None => mkOutbox [] [] ∅ ∅ [] ∅ ∅ None false false [] 0 trace
  | Some ls =>
      let '(rows, d) := replay now ls in
      compact now (mkOutbox rows d ∅ ∅ [] ∅ ∅ None false false ls (length ls) trace)
  end.

(** ** Rows *)

Definition schedule (now delay : Z) (id : string) (s : Outbox) : Outbox :=
  if o_stopped s then s else with_timers (<[id := now + delay]> (o_timers s)) s.

(** [set(row, change)]. *)
Definition set (id : string) (change : list Patch) (s : Outbox) : Outbox :=
  match OMap.get id (o_rows s) with
  | None => s
  | Some r =>
      let r' := patch r change in
      emit [EvChanged (conversation r') [item r'] []] (write (LSet id change) (with_rows (OMap.set id r' (o_rows s)) s))
  end.

(** [finish(row)]; its answer is [item_id id]. *)
Definition finish (now : Z) (id : string) (s : Outbox) : Outbox :=
  let s1 := write (LDone id (Some now))
    (with_done (OMap.set id now (o_done s)) (with_rows (OMap.del id (o_rows s)) (with_timers (delete id (o_timers s)) s))) in
  if bool_decide (o_rows s1 = []) && (500 <? length (o_done s1))%nat then compact now s1 else s1.

Definition retry (now : Z) (id : string) (s : Outbox) : option Item * Outbox :=
  match OMap.get id (o_rows s) with
  | None => (None, s)
  | Some r =>
      let s1 := if bool_decide (state r = Failed) then set id [PState Sending; PError None] s else s in
      match OMap.get id (o_rows s1) with
      | None => (None, s1)
      | Some r1 => (Some (item r1), if bool_decide (state r1 = Sending) then schedule now 0 id s1 else s1)
      end
  end.

Record Input := mkInput {
  in_requestId : string; in_conversation : string; in_text : string; in_images : list (string * string);
  in_mentions : list string; in_whenBusy : WhenBusy
}.

Definition row_of (now : Z) (i : Input) (st : SendState) (att : Z) : OutboxRow :=
  mkRow (in_requestId i) (in_conversation i) (in_text i) (in_images i) (in_mentions i) (in_whenBusy i) now st att None None [] None.

Definition add (now : Z) (i : Input) (s : Outbox) : Item * Outbox :=
  match OMap.get (in_requestId i) (o_rows s) with
  | Some r =>
      if bool_decide (state r = Failed)
      then let '(it, s1) := retry now (in_requestId i) s in (default (item r) it, s1)
      else (item r, s)
  | None =>
      if OMap.has (in_requestId i) (o_done s) then (item (row_of now i Sent 1), s)
      else
        let r := row_of now i Sending 0 in
        (item r, schedule now 0 (requestId r)
          (emit [EvChanged (conversation r) [item r] []] (write (LRow r) (with_rows (OMap.set (requestId r) r (o_rows s)) s))))
  end.

(** The rows of one conversation, oldest first. *)
Definition open (c : string) (s : Outbox) : list OutboxRow :=
  sort_by (fun a b => at_ a <=? at_ b) (filter (fun r => conversation r = c) (OMap.vals (o_rows s))).
Definition items (c : string) (s : Outbox) : list Item := map item (open c s).

Definition discard (now : Z) (id : string) (s : Outbox) : bool * Outbox :=
  match OMap.get id (o_rows s) with
  | None => (false, s)
  | Some r => (true, emit [EvChanged (conversation r) [] [item_id id]] (finish now id s))
  end.

(** ** Landing *)

Definition matches (used : list string) (r : OutboxRow) (i : Landing) : bool :=
  negb (bool_decide (i_id i ∈ used)) && sameText (i_text i) (text r) && (at_ r - LAND_SLACK_MS <=? i_at i).

(** The pairing loop of [land]: the used inputs, and the rows that found theirs. *)
Fixpoint pair_rows (rows : list OutboxRow) (inputs : list Landing) (used : list string) : list string * list (OutboxRow * Landing) :=
  match rows with
  | [] => (used, [])
  | r :: rest =>
      match find_index (matches used r) inputs ≫= fun k => inputs !! k with
      | None => pair_rows rest inputs used
      | Some i => let '(u, ps) := pair_rows rest inputs (used ++ [i_id i]) in (u, (r, i) :: ps)
      end
  end.

(** [new Set([...used].slice(-100))] of a set that grew past 200. *)
Definition trim_used (used : list string) : list string :=
  if (200 <? length used)%nat then drop (length used - 100) used else used.

Definition finish_all (now : Z) (ids : list string) (s : Outbox) : Outbox := fold_left (fun s id => finish now id s) ids s.

Definition land (now : Z) (c : string) (rows : list OutboxRow) (inputs : list Landing) (s : Outbox) : Outbox :=
  let '(used, ps) := pair_rows rows inputs (default [] (o_matched s !! c)) in
  let ids := map (fun p => requestId p.1) ps in
  let s1 := with_matched (<[c := trim_used used]> (o_matched s)) (finish_all now ids s) in
  match ids with [] => s1 | _ => emit [EvChanged c [] (map item_id ids)] s1 end.

Definition host_inputs (page : list HostItem) : list Landing :=
  map (fun h => mkLanding (hi_id h) (hi_text h) (hi_at h))
    (filter (fun h => hi_message h && negb (starts_with (to_chars "r:") (to_chars (hi_id h))) &&
                      bool_decide (hi_author h = "owner"%string) = true) page).

Definition reconcile (now : Z) (c : string) (page : list HostItem) (s : Outbox) : Outbox :=
  match filter (fun r => state r <> Failed) (open c s) with
  | [] => s
  | rows => land now c rows (host_inputs page) s
  end.

(** ** Delivery *)

(** The timer of [id] fires: [deliver] up to [await host.submit]. *)
Definition deliver_start (id : string) (s : Outbox) : Outbox :=
  let s1 := with_timers (delete id (o_timers s)) s in
  match OMap.get id (o_rows s1), o_inflight s1 !! id with
  | Some r, None =>
      if o_stopped s1 || negb (bool_decide (state r = Sending)) then s1
      else emit [EvSubmit id] (with_inflight (<[id := (r, Submitting)]> (o_inflight s1)) s1)
  | _, _ => s1
  end.

(** The [catch] block of [deliver], and its [finally]. *)
Definition deliver_failed (now : Z) (id message : string) (s : Outbox) : Outbox :=
  let s' :=
    match OMap.get id (o_rows s) with
    | None => s
    | Some r =>
        let att := attempts r + 1 in
        if refusedForGood message then set id [PState Failed; PAttempts att; PError (Some message)] s
        else schedule now (retryWait att) id (set id (PAttempts att :: if 3 <=? att then [PError (Some message)] else []) s)
    end in
  with_inflight (delete id (o_inflight s')) s'.

(** pi-host's answer: it took the send, and [deps.submitted] may throw; or it refused. *)
Inductive Answer := Accepted (submitted_throws : option string) | Rejected (message : string).

Definition deliver_answer (now : Z) (id : string) (a : Answer) (s : Outbox) : Outbox :=
  match o_inflight s !! id with
  | Some (r0, Submitting) =>
      match a with
      | Rejected message => deliver_failed now id message s
      | Accepted throws =>
          let s1 :=
            match OMap.get id (o_rows s) with
            | Some r => set id [PState Sent; PSentAt now; PAttempts (attempts r + 1); PError None] s
            | None => s
            end in
          let s2 := emit [EvSubmitted id] s1 in
          match throws with
          | Some message => deliver_failed now id message s2
          | None =>
              match mentions r0 with
              | [] => with_inflight (delete id (o_inflight s2)) s2
              | _ => emit [EvMention id] (with_inflight (<[id := (r0, Mentioning)]> (o_inflight s2)) s2)
              end
          end
      end
  | _ => s
  end.

(** The end of [mention]: the deliveries, or an error that is logged. *)
Definition mention_set (id : string) (res : option (list Delivery)) (s : Outbox) : Outbox :=
  match res with
  | None => s
  | Some ds => if OMap.has id (o_rows s) then set id [PDeliveries ds; PMentioned true] s else s
  end.
Definition mention_end (id : string) (res : option (list Delivery)) (s : Outbox) : Outbox :=
  match o_inflight s !! id with
  | Some (_, Mentioning) => let s1 := mention_set id res s in with_inflight (delete id (o_inflight s1)) s1
  | _ => s
  end.
(** The end of a [mention] that [start] made. *)
Definition mention_started_end (id : string) (res : option (list Delivery)) (s : Outbox) : Outbox :=
  if bool_decide (id ∈ o_mentioning s)
  then mention_set id res (with_mentioning (filter (fun x => x <> id) (o_mentioning s)) s) else s.

(** ** Start, stop and the sweep *)

Definition start_row (now : Z) (s : Outbox) (ir : string * OutboxRow) : Outbox :=
  match state ir.2 with
  | Sending => schedule now 0 ir.1 s
  | Sent =>
      if negb (bool_decide (mentions ir.2 = [])) && negb (default false (mentioned ir.2))
      then emit [EvMention ir.1] (with_mentioning (o_mentioning s ++ [ir.1]) s) else s
  | Failed => s
  end.
Definition start (now : Z) (s : Outbox) : Outbox :=
  fold_left (start_row now) (o_rows s) (with_running true false s).
Definition stop (s : Outbox) : Outbox := with_timers ∅ (with_running (o_started s) true s).

(** The grouping loop of [sweep], which also drops the rows whose time is up. *)
Definition group_row (now : Z) (acc : Outbox * list (string * list string)) (ir : string * OutboxRow) :=
  let '(s, groups) := acc in
  let '(id, r) := ir in
  if bool_decide (state r = Failed) || (bool_decide (state r = Sending) && (attempts r =? 0)) then (s, groups)
  else if bool_decide (state r = Sent) && (SENT_TTL_MS <? now - default (at_ r) (sentAt r))
  then (emit [EvChanged (conversation r) [] [item_id id]] (finish now id s), groups)
  else (s, OMap.set (conversation r) (default [] (OMap.get (conversation r) groups) ++ [id]) groups).
Definition sweep_start (now : Z) (s : Outbox) : Outbox :=
  match o_sweeping s with
  | Some _ => s
  | None => let '(s1, groups) := fold_left (group_row now) (o_rows s) (s, []) in with_sweeping (Some groups) s1
  end.

(** pi-host's answer for the sweep's next conversation: a page of entries, or an error. *)
Definition sweep_page (now : Z) (page : option (list EntryRecord)) (s : Outbox) : Outbox :=
  match o_sweeping s with
  | Some ((c, ids) :: rest) =>
      let s0 := with_sweeping (Some rest) s in
      match page with
      | None => s0
      | Some entries =>
          let entries := sort_by (fun a b => e_id a <=? e_id b) entries in
          let s1 := match last_of entries with
                    | Some e => with_swept (<[c := Z.max (default 0 (o_swept s0 !! c)) (e_id e)]> (o_swept s0)) s0
                    | None => s0
                    end in
          let rows := sort_by (fun a b => at_ a <=? at_ b) (omap (fun id => OMap.get id (o_rows s1)) ids) in
          land now c rows (map landing_of (filter (fun e => ownerInput e = true) entries)) s1
      end
  | Some [] => with_sweeping None s
  | None => s
  end.

(** ** The outbox as a transition system *)

Inductive step : Outbox -> Outbox -> Prop :=
| step_add now i s : step s (add now i s).2
| step_retry now id s : step s (retry now id s).2
| step_discard now id s : step s (discard now id s).2
| step_reconcile now c page s : step s (reconcile now c page s)
| step_timer id t s : o_timers s !! id = Some t -> step s (deliver_start id s)
| step_answer now id a s : step s (deliver_answer now id a s)
| step_mention id res s : step s (mention_end id res s)
| step_mention_started id res s : step s (mention_started_end id res s)
| step_sweep_start now s : o_started s = true -> o_stopped s = false -> step s (sweep_start now s)
| step_sweep_page now page s : step s (sweep_page now page s)
| step_start now s : step s (start now s)
| step_stop s : step s (stop s).

(** A crash leaves any part of the file's lines from the last rewrite on, and the last of
    them may be torn; the next process loads what is there. *)
Definition crash_lines (k : nat) (torn : bool) (s : Outbox) : list Line := take k (o_file s) ++ (if torn then [LTorn] else []).

(** A step does not forget the id of a send whose answer is still out: finished ids are
    kept for a day, and no answer takes that long. *)
Definition known (id : string) (s : Outbox) : Prop := OMap.has id (o_rows s) = true \/ OMap.has id (o_done s) = true.
Definition keeps_inflight (s s' : Outbox) : Prop := forall id, is_Some (o_inflight s !! id) -> known id s -> known id s'.

Inductive reachable : Outbox -> Prop :=
| reach_init : reachable (load 0 None [])
| reach_step s s' : reachable s -> step s s' -> keeps_inflight s s' -> reachable s'
| reach_crash now k torn s : reachable s -> (o_base s <= k)%nat -> reachable (load now (Some (crash_lines k torn s)) (o_trace s)).
End Outbox.
#[global] Arguments Outbox : clear implicits.
#[global] Arguments OutboxRow : clear implicits.
#[global] Arguments Line : clear implicits.
