(* ===== verification/OutboxSpec.v ===== *)
(** * What the outbox promises

    The invariant of every reachable [Outbox] (the file replays to the rows in memory,
    an id is never open and done, every send under way is driven) and the theorems on
    recovery, repeated sends, landing and the retry wait. *)

From S2P Require Import Prelude Outbox.
Local Open Scope Z_scope.
Local Open Scope list_scope.

Section Spec.
Context {Delivery : Type}.
Implicit Types (s : Outbox Delivery) (ls : list (Line Delivery)).

(** ** The two maps *)

Abbreviation maps := (list (string * OutboxRow Delivery) * list (string * Z))%type.

Record wf (m : maps) : Prop := mkWf {
  wf_rows : NoDup (OMap.keys m.1);
  wf_done : NoDup (OMap.keys m.2);
  wf_id : forall id r, OMap.get id m.1 = Some r -> requestId r = id;
  wf_disjoint : forall id, OMap.has id m.1 = true -> OMap.has id m.2 = true -> False
}.

Definition stamped (l : Line Delivery) : Prop := match l with LDone _ None => False | _ => True end.

Lemma replay_app now ls l : replay now (ls ++ [l]) = replay_line now (replay now ls) l.
Proof. unfold replay. by rewrite fold_left_app. Qed.

Lemma replay_now now now' ls : Forall stamped ls -> replay now ls = replay now' ls.
Proof.
  unfold replay. generalize ([] : list (string * OutboxRow Delivery), [] : list (string * Z)) as m.
  intros m HF. revert m. induction HF as [|l ls Hl HF IH]; intros m; cbn; [done|].
  rewrite IH. f_equal. destruct l as [r|id c|id [a|]|]; done.
Qed.

Lemma replay_torn now ls : replay now (ls ++ [LTorn]) = replay now ls.
Proof. by rewrite replay_app. Qed.

Lemma has_false {V} id (m : list (string * V)) : OMap.has id m = false <-> OMap.get id m = None.
Proof. unfold OMap.has. by destruct (OMap.get id m). Qed.
Lemma has_true {V} id (m : list (string * V)) : OMap.has id m = true <-> is_Some (OMap.get id m).
Proof. unfold OMap.has. destruct (OMap.get id m); split; naive_solver. Qed.

Lemma has_set {V} id id' v (m : list (string * V)) : OMap.has id (OMap.set id' v m) = bool_decide (id = id') || OMap.has id m.
Proof. unfold OMap.has. rewrite OMap.get_set. destruct (decide (id = id')); case_bool_decide; try done; congruence. Qed.
Lemma has_del {V} id id' (m : list (string * V)) : OMap.has id (OMap.del id' m) = negb (bool_decide (id = id')) && OMap.has id m.
Proof. unfold OMap.has. rewrite OMap.get_del. destruct (decide (id = id')); case_bool_decide; try done; congruence. Qed.

(** Folding [set] over a map's entries rebuilds it behind what is there. *)
Lemma fold_set_app {A V} (key : A -> string) (val : A -> V) l acc :
  NoDup (OMap.keys acc ++ map key l) ->
  fold_left (fun m a => OMap.set (key a) (val a) m) l acc = acc ++ map (fun a => (key a, val a)) l.
Proof.
  revert acc. induction l as [|a l IH]; intros acc Hnd; cbn; [by rewrite app_nil_r|].
  assert (OMap.get (key a) acc = None) as Hn.
  { apply OMap.get_None. intros Hin. apply NoDup_app in Hnd as (_ & Hd & _). apply (Hd _ Hin). cbn. set_solver. }
  rewrite OMap.set_app_new by done. rewrite IH; [by rewrite <- app_assoc|].
  unfold OMap.keys in *. rewrite map_app, <- app_assoc. done.
Qed.

Lemma fold_lines_done now d (m2 : list (string * Z)) :
  fold_left (replay_line now) (map (fun ia : string * Z => LDone ia.1 (Some ia.2) : Line Delivery) d) ([], m2) =
  ([], fold_left (fun x ia => OMap.set ia.1 ia.2 x) d m2).
Proof. revert m2. induction d as [|[id a] d IH]; intros m2; cbn; [done|]. apply IH. Qed.

Lemma fold_lines_rows now rs (m : maps) :
  fold_left (replay_line now) (map (fun ir : string * OutboxRow Delivery => LRow ir.2) rs) m =
  (fold_left (fun x ir => OMap.set (requestId ir.2) ir.2 x) rs m.1, m.2).
Proof. revert m. induction rs as [|[id r] rs IH]; intros [m1 m2]; cbn; [done|]. apply IH. Qed.

(** What [compact] writes replays to the maps. *)
Lemma replay_compact now (m : maps) :
  wf m ->
  replay now (map (fun ia => LDone ia.1 (Some ia.2)) m.2 ++ map (fun ir => LRow ir.2) m.1) = m.
Proof.
  intros [Hr Hd Hid _]. unfold replay. rewrite fold_left_app, (fold_lines_done now m.2 []).
  rewrite fold_set_app by done. rewrite fold_lines_rows. cbn [fst snd].
  assert (map (fun ir => requestId ir.2) m.1 = OMap.keys m.1) as Hk.
  { apply map_ext_in. intros [id r] Hin%list_elem_of_In. cbn. apply Hid. by apply OMap.elem_get. }
  rewrite fold_set_app by (by rewrite Hk). cbn [app].
  destruct m as [rs d]. cbn in *. f_equal.
  - rewrite <- (map_id rs) at 2. apply map_ext_in. intros [id r] Hin%list_elem_of_In. cbn. f_equal.
    apply Hid. by apply OMap.elem_get.
  - rewrite <- (map_id d) at 2. apply map_ext. by intros [].
Qed.

Lemma wf_nil : wf ([], []).
Proof. split; cbn; try constructor; done. Qed.

Lemma wf_set_row m id r : wf m -> requestId r = id -> OMap.has id m.2 = false -> wf (OMap.set id r m.1, m.2).
Proof.
  intros [Hr Hd Hid Hdj] Hreq Hno. split; cbn; [by apply OMap.set_NoDup|done| |].
  - intros id' r'. rewrite OMap.get_set. case_decide; [intros; by simp_ok; subst|apply Hid].
  - intros id'. rewrite has_set. case_bool_decide; cbn; [subst; congruence|apply Hdj].
Qed.

Lemma wf_finish m id a : wf m -> wf (OMap.del id m.1, OMap.set id a m.2).
Proof.
  intros [Hr Hd Hid Hdj]. split; cbn; [by apply OMap.del_NoDup|by apply OMap.set_NoDup| |].
  - intros id' r'. rewrite OMap.get_del. case_decide; [done|apply Hid].
  - intros id'. rewrite has_del, has_set. case_bool_decide; cbn; [done|apply Hdj].
Qed.

Lemma fresh_keys now d : OMap.keys (fresh now d) `sublist_of` OMap.keys d.
Proof. unfold OMap.keys. apply fmap_sublist. apply sublist_filter. Qed.

Lemma wf_fresh now m : wf m -> wf (m.1, fresh now m.2).
Proof.
  intros [Hr Hd Hid Hdj]. pose proof (fresh_keys now m.2) as Hs. split; cbn; [done|by eapply sublist_NoDup|done|].
  intros id H1 H2. apply (Hdj id H1). rewrite has_true in *. destruct H2 as [a Ha].
  destruct (OMap.get id m.2) as [b|] eqn:E; [by eexists|]. exfalso. apply OMap.get_None in E. apply E.
  eapply elem_of_sublist; [|exact Hs]. apply OMap.get_elem in Ha. apply list_elem_of_fmap. by exists (id, a).
Qed.

(** ** The file *)

Record FileOk s : Prop := mkFileOk {
  fo_wf : wf (o_rows s, o_done s);
  fo_replay : replay 0 (o_file s) = (o_rows s, o_done s);
  fo_stamped : Forall stamped (o_file s);
  fo_base : (o_base s <= length (o_file s))%nat;
  fo_prefix : forall k, (o_base s <= k)%nat -> wf (replay 0 (take k (o_file s)))
}.

(** States that agree on what the file is about. *)
Definition same_file s s' : Prop :=
  o_rows s' = o_rows s /\ o_done s' = o_done s /\ o_file s' = o_file s /\ o_base s' = o_base s.
Lemma FileOk_same s s' : FileOk s -> same_file s s' -> FileOk s'.
Proof. intros [] (H1 & H2 & H3 & H4). split; rewrite ?H1, ?H2, ?H3, ?H4; done. Qed.

Ltac keep_file := match goal with H : FileOk _ |- _ => apply (FileOk_same _ _ H); repeat split end.

(** A line written with its effect on the maps. *)
Lemma FileOk_write s s' l :
  FileOk s -> stamped l -> replay_line 0 (o_rows s, o_done s) l = (o_rows s', o_done s') -> wf (o_rows s', o_done s') ->
  o_file s' = o_file s ++ [l] -> o_base s' = o_base s -> FileOk s'.
Proof.
  intros [Hwf Hr Hst Hb Hp] Hl Heff Hwf' Hf Hbase.
  assert (replay 0 (o_file s ++ [l]) = (o_rows s', o_done s')) as Hr' by (by rewrite replay_app, Hr).
  split; [done|by rewrite Hf|rewrite Hf; apply Forall_app; split; [done|by constructor]|rewrite Hf, Hbase, length_app; cbn; lia|].
  intros k Hk. rewrite Hbase in Hk. rewrite Hf. destruct (decide (k <= length (o_file s))%nat).
  - rewrite take_app_le by done. by apply Hp.
  - rewrite take_ge by (rewrite length_app; cbn; lia). by rewrite Hr'.
Qed.

Lemma FileOk_compact now s : wf (o_rows s, o_done s) -> FileOk (compact now s).
Proof.
  intros Hwf. pose proof (wf_fresh now _ Hwf) as Hfr. cbn in Hfr.
  assert (Forall stamped (o_file (compact now s))) as Hst.
  { cbn. apply Forall_app. split; apply Forall_forall; intros l Hl; apply list_elem_of_fmap in Hl as (x & -> & _); done. }
  pose proof (replay_compact 0 (o_rows s, fresh now (o_done s)) Hfr) as Hr. cbn [fst snd] in Hr.
  split; [done|exact Hr|done|cbn; lia|].
  intros k Hk. cbn in Hk. rewrite take_ge by (cbn; lia).
  change (wf (replay 0 (o_file (compact now s)))). unfold compact. cbn [o_file with_file]. by rewrite Hr.
Qed.

Lemma FileOk_set id c s : FileOk s -> FileOk (set id c s).
Proof.
  intros HF. unfold set. destruct (OMap.get id (o_rows s)) as [r|] eqn:E; [|done].
  destruct (fo_wf _ HF) as [Hr Hd Hid Hdj]. cbn in *.
  assert (requestId (patch r c) = id) as Hreq.
  { rewrite <- (Hid id r E). clear. unfold patch. revert r. induction c as [|p c IH]; intros r; cbn; [done|].
    rewrite IH. by destruct r, p. }
  assert (OMap.has id (o_done s) = false) as Hno.
  { destruct (OMap.has id (o_done s)) eqn:Ed; [|done]. exfalso. apply (Hdj id); [|done]. unfold OMap.has. by rewrite E. }
  eapply (FileOk_write s _ (LSet id c)); [done|done| | |done|done]; cbn.
  - by rewrite E.
  - by apply (wf_set_row (o_rows s, o_done s)); [apply HF| |].
Qed.

Lemma FileOk_finish now id s : FileOk s -> FileOk (finish now id s).
Proof.
  intros HF. unfold finish. set (s1 := write _ _).
  assert (wf (o_rows s1, o_done s1)) as Hwf by (apply (wf_finish (o_rows s, o_done s)); apply HF).
  destruct (_ && _); [by apply FileOk_compact|].
  by eapply (FileOk_write s s1 (LDone id (Some now))).
Qed.

Lemma FileOk_add_row r s :
  FileOk s -> OMap.get (requestId r) (o_rows s) = None -> OMap.has (requestId r) (o_done s) = false ->
  FileOk (write (LRow r) (with_rows (OMap.set (requestId r) r (o_rows s)) s)).
Proof.
  intros HF Hn Hd. eapply (FileOk_write s _ (LRow r)); [done|done|done| |done|done].
  apply (wf_set_row (o_rows s, o_done s)); [apply HF|done|done].
Qed.
(** ** Every send under way is driven *)

(** What drives one id: its row, its timer, its submit. *)
Definition view : Type := option (OutboxRow Delivery) * option Z * option (OutboxRow Delivery * Phase) * (bool * bool).
Definition look (id : string) s : view := (OMap.get id (o_rows s), o_timers s !! id, o_inflight s !! id, (o_started s, o_stopped s)).

Definition driven (v : view) : Prop :=
  let '(rw, tm, fl, (st, sp)) := v in
  (st = true -> sp = false -> forall r, rw = Some r -> state r = Sending -> is_Some tm \/ exists r0, fl = Some (r0, Submitting)) /\
  (forall r0 r, fl = Some (r0, Mentioning) -> rw = Some r -> state r = Sent).

Lemma driven_gone tm fl b : driven (None, tm, fl, b).
Proof. destruct b. by split. Qed.

Definition Live s : Prop := (forall id, driven (look id s)) /\ (forall id, is_Some (o_inflight s !! id) -> known id s).

(** A step that leaves [id] as it was, or takes its row away. *)
Definition drops s s' : Prop :=
  o_inflight s' = o_inflight s /\ forall id, look id s' = look id s \/ OMap.get id (o_rows s') = None.

Lemma drops_refl s : drops s s.
Proof. split; [done|by left]. Qed.
Lemma drops_trans s1 s2 s3 : drops s1 s2 -> drops s2 s3 -> drops s1 s3.
Proof.
  intros [Hi1 H1] [Hi2 H2]. split; [congruence|]. intros id. destruct (H2 id) as [E|E]; [|by right].
  destruct (H1 id) as [E'|E']; [left; congruence|right]. unfold look in E. congruence.
Qed.

Lemma Live_drops s s' : Live s -> drops s s' -> keeps_inflight s s' -> Live s'.
Proof.
  intros [HL HK] [Hi HD] Hk. split.
  - intros id. destruct (HD id) as [->|E]; [apply HL|]. unfold look. rewrite E. apply driven_gone.
  - intros id. rewrite Hi. intros H. by apply Hk; [|apply HK].
Qed.

Lemma look_set_ne id id' c s : id' <> id -> look id' (set id c s) = look id' s.
Proof.
  intros Hne. unfold look, set. destruct (OMap.get id (o_rows s)); [|done]. cbn. by rewrite OMap.get_set_ne.
Qed.
Lemma look_set_eq id c s :
  look id (set id c s) = ((fun r => patch r c) <$> OMap.get id (o_rows s), o_timers s !! id, o_inflight s !! id, (o_started s, o_stopped s)).
Proof. unfold look, set. destruct (OMap.get id (o_rows s)) eqn:E; cbn; [by rewrite OMap.get_set_eq|by rewrite E]. Qed.

Lemma finish_fields now id s :
  o_rows (finish now id s) = OMap.del id (o_rows s) /\ o_inflight (finish now id s) = o_inflight s /\
  o_timers (finish now id s) = delete id (o_timers s) /\ o_started (finish now id s) = o_started s /\
  o_stopped (finish now id s) = o_stopped s /\ o_sweeping (finish now id s) = o_sweeping s /\ o_matched (finish now id s) = o_matched s.
Proof. unfold finish. by destruct (_ && _). Qed.

Lemma drops_finish now id s : drops s (finish now id s).
Proof.
  destruct (finish_fields now id s) as (Hr & Hi & Ht & Hst & Hsp & _). split; [done|]. intros id'.
  unfold look. rewrite Hr, Hi, Ht, Hst, Hsp. destruct (decide (id' = id)) as [->|Hne].
  - right. by rewrite OMap.get_del_eq.
  - left. by rewrite OMap.get_del_ne, lookup_delete_ne.
Qed.
Lemma drops_finish_all now ids s : drops s (finish_all now ids s).
Proof.
  unfold finish_all. revert s. induction ids as [|id ids IH]; intros s; cbn; [apply drops_refl|].
  eapply drops_trans; [apply drops_finish|apply IH].
Qed.
Lemma FileOk_finish_all now ids s : FileOk s -> FileOk (finish_all now ids s).
Proof. unfold finish_all. revert s. induction ids as [|id ids IH]; intros s HF; cbn; [done|]. by apply IH, FileOk_finish. Qed.

Lemma land_shape now c rows inputs s :
  exists ids m tr, land now c rows inputs s = emit tr (with_matched m (finish_all now ids s)).
Proof.
  unfold land. destruct (pair_rows _ _ _) as [used ps]. set (ids := map _ ps).
  exists ids, (<[c := trim_used used]> (o_matched s)).
  destruct ids; [exists []|eexists]; [|done]. unfold emit. cbn. by rewrite app_nil_r.
Qed.

Lemma drops_land now c rows inputs s : drops s (land now c rows inputs s).
Proof. destruct (land_shape now c rows inputs s) as (ids & m & tr & ->). apply (drops_finish_all now ids s). Qed.
Lemma FileOk_land now c rows inputs s : FileOk s -> FileOk (land now c rows inputs s).
Proof.
  intros HF. destruct (land_shape now c rows inputs s) as (ids & m & tr & ->).
  apply (FileOk_same _ _ (FileOk_finish_all now ids s HF)); repeat split.
Qed.

(** The grouping loop of the sweep only drops rows. *)
Lemma group_rows_ok now rows acc :
  FileOk acc.1 -> FileOk (fold_left (group_row now) rows acc).1 /\ drops acc.1 (fold_left (group_row now) rows acc).1.
Proof.
  revert acc. induction rows as [|[id r] rows IH]; intros [s g] HF; cbn [fold_left fst]; [split; [done|apply drops_refl]|].
  assert (FileOk (group_row now (s, g) (id, r)).1 /\ drops s (group_row now (s, g) (id, r)).1) as [HF' HD].
  { unfold group_row. destruct (_ || _); [split; [done|apply drops_refl]|].
    destruct (_ && _); [|split; [done|apply drops_refl]]. split; [apply (FileOk_same _ _ (FileOk_finish now id s HF)); repeat split|].
    apply (drops_finish now id s). }
  destruct (IH _ HF') as [HF'' HD']. split; [done|by eapply drops_trans].
Qed.

Lemma Live_known s s' : (forall id, is_Some (o_inflight s' !! id) -> is_Some (o_inflight s !! id)) ->
  Live s -> keeps_inflight s s' -> forall id, is_Some (o_inflight s' !! id) -> known id s'.
Proof. intros Hsub [_ HK] Hk id Hi. by apply Hk; [apply Hsub|apply HK, Hsub]. Qed.

Definition Inv s : Prop := FileOk s /\ Live s.
(** ** Each operation keeps the invariant *)

Lemma look_schedule_ne now d id id' s : id' <> id -> look id' (schedule now d id s) = look id' s.
Proof. intros Hne. unfold look, schedule. destruct (o_stopped s) eqn:E; [by rewrite E|]. cbn. by rewrite lookup_insert_ne, E. Qed.

Lemma driven_schedule now d id s :
  (forall r r0, OMap.get id (o_rows s) = Some r -> o_inflight s !! id = Some (r0, Mentioning) -> state r = Sent) ->
  driven (look id (schedule now d id s)).
Proof.
  intros H. unfold look, schedule. destruct (o_stopped s) eqn:E; cbn; rewrite ?E; (split; [|by intros; eapply H]).
  - done.
  - intros _ _ r _ _. left. rewrite lookup_insert_eq. by eexists.
Qed.

Lemma FileOk_schedule now d id s : FileOk s -> FileOk (schedule now d id s).
Proof. intros HF. unfold schedule. destruct (o_stopped s); [done|]. by keep_file. Qed.

Lemma schedule_same now d id s :
  o_rows (schedule now d id s) = o_rows s /\ o_inflight (schedule now d id s) = o_inflight s /\
  o_done (schedule now d id s) = o_done s /\ o_started (schedule now d id s) = o_started s /\
  o_stopped (schedule now d id s) = o_stopped s.
Proof. unfold schedule. destruct (o_stopped s) eqn:E; cbn; rewrite ?E; done. Qed.

Lemma set_same id c s :
  o_inflight (set id c s) = o_inflight s /\ o_done (set id c s) = o_done s /\ o_timers (set id c s) = o_timers s /\
  o_stopped (set id c s) = o_stopped s.
Proof. unfold set. by destruct (OMap.get id (o_rows s)). Qed.

Lemma get_set_patch id c s : OMap.get id (o_rows (set id c s)) = (fun r => patch r c) <$> OMap.get id (o_rows s).
Proof. unfold set. destruct (OMap.get id (o_rows s)) eqn:E; cbn; [by rewrite OMap.get_set_eq|by rewrite E]. Qed.

(** An id looked at elsewhere stays as it was: enough to check the one an operation is about. *)
Lemma Live_at id s s' :
  Live s -> keeps_inflight s s' -> (forall i, is_Some (o_inflight s' !! i) -> is_Some (o_inflight s !! i)) ->
  (forall i, i <> id -> driven (look i s) -> driven (look i s')) -> driven (look id s') -> Live s'.
Proof.
  intros HL Hk Hsub Hne Hid. split; [|by eapply Live_known].
  intros i. destruct (decide (i = id)) as [->|Hi]; [done|]. apply Hne; [done|apply HL].
Qed.

Lemma Inv_retry now id s : Inv s -> keeps_inflight s (retry now id s).2 -> Inv (retry now id s).2.
Proof.
  intros [HF HL] Hk. unfold retry in *. destruct (OMap.get id (o_rows s)) as [r|] eqn:E; [|done].
  set (s1 := if bool_decide (state r = Failed) then _ else s) in *.
  assert (FileOk s1) as HF1 by (unfold s1; case_bool_decide; [by apply FileOk_set|done]).
  assert (o_inflight s1 = o_inflight s) as Hi1 by (unfold s1; case_bool_decide; [apply set_same|done]).
  assert (forall i, i <> id -> look i s1 = look i s) as Hne by (intros i Hi; unfold s1; case_bool_decide; [by apply look_set_ne|done]).
  assert (exists r1, OMap.get id (o_rows s1) = Some r1 /\ (state r = Failed /\ state r1 = Sending \/ r1 = r /\ state r <> Failed)) as (r1 & E1 & Hr1).
  { unfold s1. case_bool_decide; [|by exists r; auto]. rewrite get_set_patch, E. eexists. split; [done|]. left. by destruct r. }
  rewrite E1 in *. cbn [snd] in *. case_bool_decide as Hs.
  - split; [by apply FileOk_schedule|]. destruct (schedule_same now 0 id s1) as (Hrs & His & _).
    eapply (Live_at id); [done|done|by rewrite His, Hi1| |].
    + intros i Hi. by rewrite look_schedule_ne, Hne.
    + apply driven_schedule. intros r' r0 Hr' Hm. rewrite E1 in Hr'. injection Hr' as <-. rewrite Hi1 in Hm.
      destruct HL as [HL _]. specialize (HL id). unfold look in HL. rewrite E in HL. destruct HL as [_ HL].
      specialize (HL _ _ Hm eq_refl). destruct Hr1 as [[? ?]|[-> _]]; [congruence|done].
  - split; [done|]. destruct Hr1 as [[? ?]|[-> Hnf]]; [congruence|].
    assert (s1 = s) as -> by (unfold s1; by rewrite bool_decide_eq_false_2). done.
Qed.

Lemma Inv_add now i s : Inv s -> keeps_inflight s (add now i s).2 -> Inv (add now i s).2.
Proof.
  intros HI Hk. unfold add in *. destruct (OMap.get (in_requestId i) (o_rows s)) as [r|] eqn:E.
  { case_bool_decide; [|done]. pose proof (Inv_retry now (in_requestId i) s HI) as HR.
    destruct (retry now (in_requestId i) s) as [it s1]. by apply HR. }
  destruct (OMap.has _ (o_done s)) eqn:Ed; [done|]. destruct HI as [HF HL]. cbn [snd] in *.
  change (requestId (row_of now i Sending 0)) with (in_requestId i) in *. set (r := row_of now i Sending 0) in *.
  assert (o_inflight s !! in_requestId i = None) as Hno.
  { destruct (o_inflight s !! in_requestId i) eqn:Ei; [|done]. exfalso.
    destruct (proj2 HL (in_requestId i) ltac:(by eexists)) as [Hh|Hh]; [|congruence].
    unfold OMap.has in Hh. by rewrite E in Hh. }
  set (s1 := emit _ _) in *.
  assert (FileOk s1) as HF1.
  { apply (FileOk_same (write (LRow r) (with_rows (OMap.set (requestId r) r (o_rows s)) s))); [by apply FileOk_add_row|repeat split]. }
  split; [by apply FileOk_schedule|]. destruct (schedule_same now 0 (in_requestId i) s1) as (_ & His & _).
  eapply (Live_at (in_requestId i)); [done|done|by rewrite His| |].
  - intros j Hj. rewrite look_schedule_ne by done. unfold look, s1. cbn. by rewrite OMap.get_set_ne.
  - apply driven_schedule. intros r' r0 _ Hm. cbn in Hm. congruence.
Qed.

Lemma Inv_deliver_start id s : Inv s -> keeps_inflight s (deliver_start id s) -> Inv (deliver_start id s).
Proof.
  intros [HF HL] Hk. pose proof (proj1 HL id) as Hd. unfold deliver_start in *. set (s1 := with_timers _ s) in *.
  assert (forall i, i <> id -> look i s1 = look i s) as Hne.
  { intros i Hi. unfold look, s1. cbn. by rewrite lookup_delete_ne. }
  assert (FileOk s1) as HF1 by keep_file.
  assert (driven (look id s1) -> Inv s1) as Hs1.
  { intros Hd1. split; [done|]. eapply (Live_at id); [done|by intros i _|done| |done]. intros i Hi. by rewrite Hne. }
  unfold look in Hd. change (o_rows s1) with (o_rows s) in *. change (o_inflight s1) with (o_inflight s) in *.
  destruct (OMap.get id (o_rows s)) as [r|] eqn:E.
  2: { apply Hs1. unfold look, s1. cbn. rewrite E. apply (driven_gone _ _ (_, _)). }
  destruct (o_inflight s !! id) as [[r0 ph]|] eqn:Ei.
  { apply Hs1. unfold look, s1. cbn. rewrite E, Ei. destruct Hd as [_ Hd]. split; [|done].
    intros _ _ r' Hr' Hs. injection Hr' as <-. right. exists r0. destruct ph; [done|]. specialize (Hd _ _ eq_refl eq_refl). congruence. }
  change (o_stopped s1) with (o_stopped s) in *.
  destruct (o_stopped s || _) eqn:Eb.
  - apply Hs1. unfold look, s1. cbn. rewrite E, Ei. split; [|done].
    intros _ Hsp r' Hr' Hs. injection Hr' as <-. rewrite Hsp in Eb. cbn in Eb. by rewrite bool_decide_eq_true_2 in Eb.
  - split; [by keep_file|]. split.
    + intros i. destruct (decide (i = id)) as [->|Hi].
      * unfold look. cbn. rewrite E, lookup_insert_eq. split; [intros; right; by eexists|done].
      * pose proof (proj1 HL i) as HLi. rewrite <- Hne in HLi by done. unfold look in *. cbn. by rewrite lookup_insert_ne.
    + intros i. cbn. destruct (decide (i = id)) as [->|Hi].
      * intros _. left. unfold OMap.has. cbn. by rewrite E.
      * rewrite lookup_insert_ne by done. apply HL.
Qed.

Lemma Inv_with_inflight_del id s :
  FileOk s -> (forall i, i <> id -> driven (look i s)) -> (forall i, i <> id -> is_Some (o_inflight s !! i) -> known i s) ->
  driven (OMap.get id (o_rows s), o_timers s !! id, None, (o_started s, o_stopped s)) ->
  Inv (with_inflight (delete id (o_inflight s)) s).
Proof.
  intros HF Hne Hk Hd. split; [by keep_file|]. split; intros i; destruct (decide (i = id)) as [->|Hi].
  - unfold look. cbn. by rewrite lookup_delete_eq.
  - pose proof (Hne i Hi) as H. unfold look in *. cbn. by rewrite lookup_delete_ne.
  - cbn. rewrite lookup_delete_eq. by intros [].
  - cbn. rewrite lookup_delete_ne by done. by apply Hk.
Qed.

Lemma known_set i id c s : known i s -> known i (set id c s).
Proof.
  unfold known. destruct (set_same id c s) as (_ & -> & _). intros [H|H]; [left|by right].
  unfold set. destruct (OMap.get id (o_rows s)); [|done]. cbn. rewrite has_set, H. by rewrite orb_true_r.
Qed.

Lemma Inv_deliver_failed now id message s :
  FileOk s -> (forall i, i <> id -> driven (look i s)) -> (forall i, is_Some (o_inflight s !! i) -> known i s) ->
  Inv (deliver_failed now id message s).
Proof.
  intros HF Hne Hk. unfold deliver_failed. destruct (OMap.get id (o_rows s)) as [r|] eqn:E.
  2: { apply Inv_with_inflight_del; [done|done|by auto|]. rewrite E. apply (driven_gone _ _ (_, _)). }
  destruct (refusedForGood message).
  - set (s1 := set id _ s). destruct (set_same id [PState Failed; PAttempts (attempts r + 1); PError (Some message)] s) as (Hi & _).
    apply Inv_with_inflight_del; [by apply FileOk_set| | |].
    + intros i Hii. unfold s1. rewrite look_set_ne by done. by apply Hne.
    + intros i _. fold s1 in Hi. rewrite Hi. intros H. by apply known_set, Hk.
    + unfold s1. rewrite get_set_patch, E. cbn. split; [|done]. intros _ _ r' Hr'. injection Hr' as <-. by destruct r.
  - set (c := PAttempts _ :: _). set (s1 := set id c s). destruct (set_same id c s) as (Hi & _). fold s1 in Hi.
    destruct (schedule_same now (retryWait (attempts r + 1)) id s1) as (Hsr & Hsi & Hsd & _).
    apply Inv_with_inflight_del; [by apply FileOk_schedule, FileOk_set| | |].
    + intros i Hii. rewrite look_schedule_ne by done. unfold s1. rewrite look_set_ne by done. by apply Hne.
    + intros i _. rewrite Hsi, Hi. intros H. unfold known. rewrite Hsr, Hsd. by apply known_set, Hk.
    + unfold schedule. destruct (o_stopped s1) eqn:Es; cbn; rewrite ?Es; (split; [|done]); [done|].
      intros _ _ r' _ _. left. rewrite lookup_insert_eq. by eexists.
Qed.

Lemma Inv_deliver_answer now id a s : Inv s -> Inv (deliver_answer now id a s).
Proof.
  intros [HF HL]. unfold deliver_answer. destruct (o_inflight s !! id) as [[r0 [|]]|] eqn:Ei; [|done|done].
  destruct a as [throws|message].
  2: { apply Inv_deliver_failed; [done|intros i _; apply HL|apply HL]. }
  set (s1 := match OMap.get id (o_rows s) with Some _ => _ | None => s end).
  assert (FileOk s1) as HF1 by (unfold s1; destruct (OMap.get id (o_rows s)); [by apply FileOk_set|done]).
  assert (forall i, i <> id -> look i s1 = look i s) as Hne
    by (intros i Hi; unfold s1; destruct (OMap.get id (o_rows s)); [by apply look_set_ne|done]).
  assert (forall i, is_Some (o_inflight s1 !! i) -> known i s1) as Hk.
  { intros i Hi. unfold s1 in *. destruct (OMap.get id (o_rows s)); [|by apply HL].
    rewrite (proj1 (set_same _ _ _)) in Hi. by apply known_set, HL. }
  assert (forall r, OMap.get id (o_rows s1) = Some r -> state r = Sent) as Hsent.
  { intros r. unfold s1. destruct (OMap.get id (o_rows s)) as [r'|] eqn:E; [|by rewrite E].
    rewrite get_set_patch, E. cbn. intros [= <-]. by destruct r'. }
  assert (FileOk (emit [EvSubmitted id] s1)) as HF2 by keep_file.
  assert (forall i, i <> id -> driven (look i (emit [EvSubmitted id] s1))) as Hne2.
  { intros i Hi. change (driven (look i s1)). rewrite Hne by done. apply HL. }
  assert (driven (OMap.get id (o_rows s1), o_timers s1 !! id, None, (o_started s1, o_stopped s1))) as Hgone.
  { split; [|done]. intros _ _ r Hr Hs. rewrite (Hsent r Hr) in Hs. done. }
  destruct throws as [message|]; [by apply Inv_deliver_failed|].
  destruct (mentions r0) as [|m ms]; [apply Inv_with_inflight_del; [exact HF2|exact Hne2|intros i _; apply Hk|exact Hgone]|].
  split; [by keep_file|]. split.
  - intros i. destruct (decide (i = id)) as [->|Hi].
    + unfold look. cbn. rewrite lookup_insert_eq. split; [intros _ _ r Hr Hs; rewrite (Hsent r Hr) in Hs; done|].
      intros _ r _ Hr. by apply Hsent.
    + pose proof (Hne2 i Hi) as H. unfold look in *. cbn in *. by rewrite lookup_insert_ne.
  - intros i. cbn. destruct (decide (i = id)) as [->|Hi].
    + intros _. apply Hk. unfold s1. destruct (OMap.get id (o_rows s)); [rewrite (proj1 (set_same _ _ _))|]; rewrite Ei; by eexists.
    + rewrite lookup_insert_ne by done. apply Hk.
Qed.
Lemma mention_set_cases id res s :
  mention_set id res s = s \/ exists ds, mention_set id res s = set id [PDeliveries ds; PMentioned true] s.
Proof. unfold mention_set. destruct res; [destruct (OMap.has _ _)|]; eauto. Qed.

Lemma look_mention_set id res s i :
  exists rw, look i (mention_set id res s) = (rw, o_timers s !! i, o_inflight s !! i, (o_started s, o_stopped s)) /\
    (rw = OMap.get i (o_rows s) \/ exists r r', OMap.get i (o_rows s) = Some r /\ rw = Some r' /\ state r' = state r).
Proof.
  destruct (mention_set_cases id res s) as [->|[ds ->]]; [by eauto|].
  destruct (decide (i = id)) as [->|Hi]; [|rewrite look_set_ne by done; by eauto].
  rewrite look_set_eq. eexists. split; [done|]. destruct (OMap.get id (o_rows s)) as [r|] eqn:E; [right|by left].
  exists r. eexists. split_and!; [done|done|]. by destruct r.
Qed.

Lemma driven_same_state rw rw' tm fl b :
  (rw' = rw \/ exists r r', rw = Some r /\ rw' = Some r' /\ state r' = state r) -> driven (rw, tm, fl, b) -> driven (rw', tm, fl, b).
Proof.
  intros [->|(r & r' & -> & -> & Hs)]; [done|]. destruct b. intros [H1 H2]. split.
  - intros Ha Hb x Hx Hx'. injection Hx as <-. apply (H1 Ha Hb r); [done|congruence].
  - intros r0 x Hf Hx. injection Hx as <-. rewrite Hs. by eapply H2.
Qed.

Lemma FileOk_mention_set id res s : FileOk s -> FileOk (mention_set id res s).
Proof. intros HF. destruct (mention_set_cases id res s) as [->|[ds ->]]; [done|by apply FileOk_set]. Qed.
Lemma driven_mention_set id res s i : driven (look i s) -> driven (look i (mention_set id res s)).
Proof. intros Hd. destruct (look_mention_set id res s i) as (rw & -> & Hrw). by eapply driven_same_state. Qed.
Lemma known_mention_set id res s i : known i s -> known i (mention_set id res s).
Proof. destruct (mention_set_cases id res s) as [->|[ds ->]]; [done|apply known_set]. Qed.
Lemma inflight_mention_set id res s : o_inflight (mention_set id res s) = o_inflight s.
Proof. destruct (mention_set_cases id res s) as [->|[ds ->]]; [done|apply set_same]. Qed.

Lemma Inv_mention_end id res s : Inv s -> Inv (mention_end id res s).
Proof.
  intros [HF HL]. unfold mention_end. destruct (o_inflight s !! id) as [[r0 [|]]|] eqn:Ei; [done| |done].
  apply Inv_with_inflight_del; [by apply FileOk_mention_set|intros i _; apply driven_mention_set, HL| |].
  - intros i _. rewrite inflight_mention_set. intros Hi. by apply known_mention_set, HL.
  - split; [|done]. intros _ _ r Hr Hs. pose proof (proj1 HL id) as Hd. unfold look in Hd. rewrite Ei in Hd. destruct Hd as [_ Hd].
    destruct (look_mention_set id res s id) as (rw & Hl & Hrw). unfold look in Hl. rewrite Hr in Hl. injection Hl as <- _ _ _.
    destruct Hrw as [Hrw|(x & x' & Hx & Hx' & Hst)].
    + specialize (Hd r0 r eq_refl (eq_sym Hrw)). congruence.
    + specialize (Hd r0 x eq_refl Hx). injection Hx' as <-. congruence.
Qed.

Lemma Live_mention_set id res s : Live s -> Live (mention_set id res s).
Proof.
  intros HL. split; [intros i; apply driven_mention_set, HL|]. intros i. rewrite inflight_mention_set. intros Hi.
  by apply known_mention_set, HL.
Qed.

Lemma Inv_mention_started id res s : Inv s -> Inv (mention_started_end id res s).
Proof.
  intros [HF HL]. unfold mention_started_end. case_bool_decide; [|done]. split.
  - apply FileOk_mention_set. by keep_file.
  - by apply Live_mention_set.
Qed.

(** [start] sets a timer for every row that is still to be sent. *)
Lemma start_rows now rows s :
  o_stopped s = false ->
  let s' := fold_left (start_row now) rows s in
  same_file s s' /\ o_inflight s' = o_inflight s /\ o_started s' = o_started s /\ o_stopped s' = false /\
  (forall id, is_Some (o_timers s !! id) -> is_Some (o_timers s' !! id)) /\
  (forall id r, (id, r) ∈ rows -> state r = Sending -> is_Some (o_timers s' !! id)).
Proof.
  revert s. induction rows as [|[id r] rows IH]; intros s Hs; cbn [fold_left].
  { split_and!; try done. intros id r Hin. by apply elem_of_nil in Hin. }
  assert (same_file s (start_row now s (id, r)) /\ o_inflight (start_row now s (id, r)) = o_inflight s /\
    o_started (start_row now s (id, r)) = o_started s /\ o_stopped (start_row now s (id, r)) = false /\
    (forall i, is_Some (o_timers s !! i) -> is_Some (o_timers (start_row now s (id, r)) !! i)) /\
    (state r = Sending -> is_Some (o_timers (start_row now s (id, r)) !! id))) as (Hf & Hi & Hst & Hsp & Ht & Hr).
  { unfold start_row, schedule. cbn. destruct (state r); rewrite ?Hs; [|destruct (_ && _)|]; cbn; split_and!; try done; try (by repeat split).
    - intros i Hi. destruct (decide (i = id)) as [->|]; [rewrite lookup_insert_eq; by eexists|by rewrite lookup_insert_ne].
    - intros _. rewrite lookup_insert_eq. by eexists. }
  destruct (IH _ Hsp) as (Hf' & Hi' & Hst' & Hsp' & Ht' & Hr').
  split_and!; [|congruence|congruence|done|by auto|].
  - destruct Hf as (?&?&?&?), Hf' as (?&?&?&?). repeat split; congruence.
  - intros i x [Hx|Hx]%elem_of_cons Hsx; [injection Hx as -> ->; by apply Ht', Hr|by eapply Hr'].
Qed.

Lemma Inv_start now s : Inv s -> Inv (start now s).
Proof.
  intros [HF HL]. unfold start. set (s0 := with_running true false s).
  destruct (start_rows now (o_rows s) s0 eq_refl) as (Hf & Hi & _ & Hsp & _ & Hr). split; [by apply (FileOk_same s0); [keep_file|]|].
  destruct Hf as (Hrows & Hdone & _). split; intros id.
  - pose proof (proj1 HL id) as Hd. unfold look in *. destruct (o_started _), (o_stopped (fold_left _ _ _)) eqn:E; try done.
    all: destruct Hd as [_ Hd]; rewrite Hrows, Hi; split; [|exact Hd]; intros _ _ r Hg Hsr; left.
    all: eapply Hr; [by apply OMap.get_elem|done].
  - rewrite Hi. intros Hin. unfold known. rewrite Hrows, Hdone. by apply HL.
Qed.

Lemma Inv_stop s : Inv s -> Inv (stop s).
Proof.
  intros [HF HL]. split; [by keep_file|]. split; intros id; [|apply HL].
  pose proof (proj1 HL id) as Hd. unfold look in *. cbn. by destruct Hd as [_ Hd].
Qed.

Lemma Inv_fresh_process s : FileOk s -> o_inflight s = ∅ -> o_started s = false -> Inv s.
Proof.
  intros HF Hi Hst. split; [done|]. split; intros id.
  - unfold look. rewrite Hi, Hst, lookup_empty. by split.
  - rewrite Hi, lookup_empty. by intros [].
Qed.

Lemma replay_crash now k torn s :
  FileOk s -> replay now (crash_lines k torn s) = replay 0 (take k (o_file s)) /\ Forall stamped (crash_lines k torn s).
Proof.
  intros HF. assert (Forall stamped (take k (o_file s))) as Ht by (apply Forall_take, HF).
  unfold crash_lines. destruct torn.
  - rewrite replay_torn. split; [by apply replay_now|]. apply Forall_app. split; [done|by repeat constructor].
  - rewrite app_nil_r. split; [by apply replay_now|done].
Qed.

Lemma load_some now ls tr : load now (Some ls) tr =
  compact now (mkOutbox (replay now ls).1 (replay now ls).2 ∅ ∅ [] ∅ ∅ None false false ls (length ls) tr).
Proof. unfold load. by destruct (replay now ls). Qed.

Lemma Inv_crash now k torn s : Inv s -> (o_base s <= k)%nat -> Inv (load now (Some (crash_lines k torn s)) (o_trace s)).
Proof.
  intros [HF HL] Hk. rewrite load_some. destruct (replay_crash now k torn s HF) as [-> _].
  apply Inv_fresh_process; [|done|done]. apply FileOk_compact. cbn. rewrite <- surjective_pairing. by apply HF.
Qed.

Lemma Inv_drops s s' : Inv s -> drops s s' -> FileOk s' -> keeps_inflight s s' -> Inv s'.
Proof. intros [_ HL] Hd HF Hk. split; [done|by eapply Live_drops]. Qed.

Lemma sweep_page_ok now page s : FileOk s -> FileOk (sweep_page now page s) /\ drops s (sweep_page now page s).
Proof.
  intros HF. unfold sweep_page. destruct (o_sweeping s) as [[|[c ids] rest]|]; [split; [by keep_file|split; [done|by left]]| |split; [done|apply drops_refl]].
  set (s0 := with_sweeping _ s). assert (FileOk s0 /\ drops s s0) as [HF0 HD0] by (split; [by keep_file|split; [done|by left]]).
  destruct page as [es|]; [|done]. set (s1 := match last_of _ with Some _ => _ | None => s0 end).
  assert (FileOk s1 /\ drops s s1) as [HF1 HD1].
  { unfold s1. destruct (last_of _); [|done]. split; [apply (FileOk_same _ _ HF0); repeat split|].
    eapply drops_trans; [exact HD0|]. split; [done|by left]. }
  split; [by apply FileOk_land|eapply drops_trans; [exact HD1|apply drops_land]].
Qed.

Lemma sweep_start_ok now s : FileOk s -> FileOk (sweep_start now s) /\ drops s (sweep_start now s).
Proof.
  intros HF. unfold sweep_start. destruct (o_sweeping s); [split; [done|apply drops_refl]|].
  pose proof (group_rows_ok now (o_rows s) (s, []) HF) as [HF' HD]. destruct (fold_left _ _ _) as [s1 g]. cbn in *.
  split; [by keep_file|]. eapply drops_trans; [exact HD|]. split; [done|by left].
Qed.

Lemma outbox_Inv_step s s' : Inv s -> step s s' -> keeps_inflight s s' -> Inv s'.
Proof.
  intros HI Hs Hk. pose proof HI as [HF HL]. destruct Hs.
  - by apply Inv_add.
  - by apply Inv_retry.
  - unfold discard in *. destruct (OMap.get id (o_rows s)) as [r|]; [|done].
    eapply Inv_drops; [done| | |done]; cbn.
    + eapply drops_trans; [apply (drops_finish now id s)|]. split; [done|by left].
    + apply (FileOk_same _ _ (FileOk_finish now id s HF)). repeat split.
  - unfold reconcile in *. destruct (filter _ _); [done|].
    eapply Inv_drops; [done|apply drops_land|by apply FileOk_land|done].
  - by apply Inv_deliver_start.
  - by apply Inv_deliver_answer.
  - by apply Inv_mention_end.
  - by apply Inv_mention_started.
  - destruct (sweep_start_ok now s HF). by eapply Inv_drops.
  - destruct (sweep_page_ok now page s HF). by eapply Inv_drops.
  - by apply Inv_start.
  - by apply Inv_stop.
Qed.

Lemma outbox_Inv s : reachable s -> Inv s.
Proof.
  induction 1 as [|s s' _ IH Hs Hk|now k torn s _ IH Hk].
  - apply Inv_fresh_process; [|done|done]. split; [apply wf_nil|done|constructor|done|].
    intros k _. cbn. rewrite take_nil. apply wf_nil.
  - by eapply outbox_Inv_step.
  - by apply Inv_crash.
Qed.
End Spec.
#[export] Hint Resolve outbox_Inv : sieun.

(** ** Landing *)

Lemma find_index_None {A} (p : A -> bool) l : find_index p l = None -> forall x, x ∈ l -> p x = false.
Proof.
  induction l as [|a l IH]; cbn; intros Hf x Hx; [by apply elem_of_nil in Hx|].
  destruct (p a) eqn:E; [done|]. destruct (find_index p l) as [k|]; [done|].
  apply elem_of_cons in Hx as [->|Hx]; [done|by apply IH].
Qed.

Section Landing.
Context {Delivery : Type}.
Implicit Types (rows : list (OutboxRow Delivery)).

(** What [pair_rows] answers with. *)
Record pairing (rows : list (OutboxRow Delivery)) (inputs : list Landing) (used used' : list string) (ps : list (OutboxRow Delivery * Landing)) : Prop := mkPairing {
  pg_rows : map fst ps `sublist_of` rows;
  pg_used : used' = used ++ map (fun p => i_id p.2) ps;
  pg_once : NoDup (map (fun p => i_id p.2) ps);
  pg_fresh : forall p, p ∈ ps -> i_id p.2 ∉ used;
  pg_match : forall p, p ∈ ps -> p.2 ∈ inputs /\ sameText (i_text p.2) (text p.1) = true /\ at_ p.1 - LAND_SLACK_MS <= i_at p.2;
  pg_rest : forall r, r ∈ rows -> r ∉ map fst ps -> forall i, i ∈ inputs -> sameText (i_text i) (text r) = true ->
    at_ r - LAND_SLACK_MS <= i_at i -> i_id i ∈ used'
}.

Lemma matches_true used (r : OutboxRow Delivery) i :
  matches used r i = true <-> (i_id i ∉ used) /\ sameText (i_text i) (text r) = true /\ at_ r - LAND_SLACK_MS <= i_at i.
Proof. unfold matches. rewrite !andb_true_iff, negb_true_iff, bool_decide_eq_false, Z.leb_le. tauto. Qed.

Lemma pair_rows_ok rows inputs used used' ps :
  pair_rows rows inputs used = (used', ps) -> pairing rows inputs used used' ps.
Proof.
  revert used used' ps. induction rows as [|r rows IH]; intros used used' ps; cbn [pair_rows].
  { intros [= <- <-]. split; cbn; try done; try constructor; [by rewrite app_nil_r|..]; set_solver. }
  destruct (find_index (matches used r) inputs) as [k|] eqn:Ef.
  - destruct (find_index_Some _ _ _ Ef) as (i & Hi & Hm). cbn [mbind option_bind]. rewrite Hi.
    apply matches_true in Hm as (Hnu & Ht & Hat).
    destruct (pair_rows rows inputs (used ++ [i_id i])) as [u qs] eqn:Ep. intros [= <- <-].
    destruct (IH _ _ _ Ep) as [H1 H2 H3 H4 H5 H6]. split; cbn.
    + by constructor.
    + rewrite H2. by rewrite <- app_assoc.
    + apply NoDup_cons. split; [|done]. intros Hin. apply list_elem_of_fmap in Hin as (p & Hp & Hpin). specialize (H4 p Hpin). set_solver.
    + intros p [->|Hp]%elem_of_cons; [done|]. specialize (H4 p Hp). set_solver.
    + intros p [->|Hp]%elem_of_cons; [|by apply H5]. cbn. split_and!; [by eapply list_elem_of_lookup_2|done|done].
    + intros r' [->|Hr']%elem_of_cons Hno; [set_solver|]. apply H6; set_solver.
  - cbn [mbind option_bind]. intros Ep. destruct (IH _ _ _ Ep) as [H1 H2 H3 H4 H5 H6]. split; try done.
    + by apply sublist_cons.
    + intros r' [->|Hr']%elem_of_cons Hno i Hi Ht Hat; [|by apply (H6 r')].
      pose proof (find_index_None _ _ Ef i Hi) as Hf. rewrite H2. apply elem_of_app. left.
      destruct (decide (i_id i ∈ used)) as [|Hnu]; [done|]. exfalso.
      assert (matches used r i = true) as Hmt by by apply matches_true. congruence.
Qed.

Lemma get_finish_all now ids (s : Outbox Delivery) id :
  OMap.get id (o_rows (finish_all now ids s)) = if bool_decide (id ∈ ids) then None else OMap.get id (o_rows s).
Proof.
  unfold finish_all. revert s. induction ids as [|i ids IH]; intros s; cbn [fold_left]; [done|].
  rewrite IH. destruct (finish_fields now i s) as (-> & _). rewrite OMap.get_del.
  destruct (decide (id = i)) as [->|Hne].
  - rewrite (bool_decide_eq_true_2 (i ∈ i :: ids)) by set_solver. by case_bool_decide.
  - assert (bool_decide (id ∈ i :: ids) = bool_decide (id ∈ ids)) as ->; [|done].
    apply bool_decide_ext. rewrite elem_of_cons. tauto.
Qed.

Lemma start_mentions now (rows : list (string * OutboxRow Delivery)) (s : Outbox Delivery) x :
  x ∈ o_mentioning (fold_left (start_row now) rows s) -> x ∈ o_mentioning s \/ x ∈ OMap.keys rows.
Proof.
  revert s. induction rows as [|[id r] rows IH]; intros s; cbn [fold_left]; [by left|].
  intros [Hx|Hx]%IH; [|right; cbn; set_solver]. unfold start_row, schedule in Hx. cbn in Hx.
  destruct (state r); [destruct (o_stopped s)|destruct (_ && _)|]; cbn in *; set_solver.
Qed.
End Landing.

(** ** Properties *)

(** C5: in every reachable state a send that still has to reach pi-host is being driven:
    while the outbox runs, a row in state [sending] has a timer set or a submit whose
    answer is out, through retries, failures, restarts and repeated sends. *)
Theorem sending_is_driven {Delivery} (s : Outbox Delivery) id r :
  reachable s -> o_started s = true -> o_stopped s = false -> OMap.get id (o_rows s) = Some r -> state r = Sending ->
  is_Some (o_timers s !! id) \/ exists r0, o_inflight s !! id = Some (r0, Submitting).
Proof.
  intros Hr Hst Hsp Hg Hs. destruct (outbox_Inv s Hr) as [_ [HL _]]. specialize (HL id).
  unfold look in HL. rewrite Hst, Hsp in HL. destruct HL as [HL _]. by eapply HL.
Qed.


(** a request id lands once.  In every reachable state no id is both open and done, a
    row sits under its own id, and adding a send again changes nothing: not the rows, not
    the file, not the timers, not what was sent. *)
Theorem add_once {Delivery} (s : Outbox Delivery) :
  reachable s ->
  (forall id, OMap.has id (o_rows s) = true -> OMap.has id (o_done s) = false) /\
  (forall id r, OMap.get id (o_rows s) = Some r -> requestId r = id) /\
  (forall now now' i, (add now' i (add now i s).2).2 = (add now i s).2) /\
  (forall now i, OMap.get (in_requestId i) (o_rows s) = None -> OMap.has (in_requestId i) (o_done s) = false ->
     let r := row_of now i Sending 0 in
     OMap.get (in_requestId i) (o_rows (add now i s).2) = Some r /\ last (o_file (add now i s).2) = Some (LRow r) /\
     (o_stopped s = false -> o_timers (add now i s).2 !! in_requestId i = Some (now + 0))).
Proof.
  intros [[[Hr Hd Hid Hdj] _ _ _ _] _]%outbox_Inv. cbn in *. split_and!.
  - intros id Ho. destruct (OMap.has id (o_done s)) eqn:E; [|done]. by destruct (Hdj id Ho E).
  - done.
  - intros now now' i. unfold add at 2 3. destruct (OMap.get (in_requestId i) (o_rows s)) as [r|] eqn:E.
    + case_bool_decide as Hf; [|cbn [snd]; unfold add; by rewrite E, bool_decide_eq_false_2].
      destruct (retry now (in_requestId i) s) as [it s1] eqn:Er. cbn [snd]. unfold retry in Er. rewrite E, bool_decide_eq_true_2 in Er by done.
      rewrite get_set_patch, E in Er. cbn [fmap option_fmap option_map] in Er. injection Er as _ <-.
      set (r1 := patch r [PState Sending; PError None]) in *. assert (state r1 = Sending) as Hs1 by (unfold r1; by destruct r).
      rewrite bool_decide_eq_true_2 by done. unfold add.
      destruct (schedule_same now 0 (in_requestId i) (set (in_requestId i) [PState Sending; PError None] s)) as (-> & _).
      rewrite get_set_patch, E. cbn [fmap option_fmap option_map]. fold r1. by rewrite bool_decide_eq_false_2 by congruence.
    + destruct (OMap.has _ (o_done s)) eqn:Ed; [cbn [snd]; unfold add; by rewrite E, Ed|]. cbn [snd].
      set (r := row_of now i Sending 0). change (requestId r) with (in_requestId i). unfold add.
      destruct (schedule_same now 0 (in_requestId i) (emit [EvChanged (conversation r) [item r] []] (write (LRow r) (with_rows (OMap.set (in_requestId i) r (o_rows s)) s)))) as (-> & _).
      cbn. by rewrite OMap.get_set_eq.
  - intros now i Hn Hnd. set (r := row_of now i Sending 0). unfold add. rewrite Hn, Hnd. cbn [snd]. fold r. change (requestId r) with (in_requestId i).
    unfold schedule. destruct (o_stopped s) eqn:E; cbn; rewrite E; cbn; rewrite OMap.get_set_eq, last_snoc; split_and!; try done.
    by rewrite lookup_insert_eq.
Qed.

(** [land] pairs rows with inputs, each input at most once ever, each pair of one text
    and not older than the slack; exactly the paired rows go, and a row stays only when
    every input that fits it is taken. *)
Theorem land_spec {Delivery} now c rows inputs (s : Outbox Delivery) :
  exists used' ps,
    pairing rows inputs (default [] (o_matched s !! c)) used' ps /\
    o_matched (land now c rows inputs s) !! c = Some (trim_used used') /\
    forall id, OMap.get id (o_rows (land now c rows inputs s)) =
      if bool_decide (id ∈ map (fun p => requestId p.1) ps) then None else OMap.get id (o_rows s).
Proof.
  unfold land. destruct (pair_rows rows inputs (default [] (o_matched s !! c))) as [used' ps] eqn:Ep.
  exists used', ps. split; [by apply pair_rows_ok|]. set (ids := map _ ps). split.
  - destruct ids; cbn; by rewrite lookup_insert_eq.
  - intros id. rewrite <- (get_finish_all now ids s id). by destruct ids.
Qed.

(** the waits between tries grow from a quarter second on and never pass the bound. *)
Theorem retryWait_spec a b :
  0 <= a <= b -> 250 <= retryWait a <= MAX_BACKOFF_MS /\ retryWait a <= retryWait b /\
  (a <= 6 -> retryWait a = 250 * 2 ^ a) /\ (7 <= a -> retryWait a = MAX_BACKOFF_MS).
Proof.
  intros Hab. unfold retryWait, MAX_BACKOFF_MS.
  assert (forall n m, 0 <= n <= m -> 1 <= 2 ^ n <= 2 ^ m) as Hp.
  { intros n m Hnm. split; [|apply Z.pow_le_mono_r; lia]. change 1 with (2 ^ 0). apply Z.pow_le_mono_r; lia. }
  pose proof (Hp (Z.min a 10) (Z.min b 10)). split_and!; [lia|lia|lia| |].
  - intros H6. rewrite Z.min_l with (m := 10) by lia. pose proof (Hp a 6). change (2 ^ 6) with 64 in *. lia.
  - intros H7. pose proof (Hp 7 (Z.min a 10)). change (2 ^ 7) with 128 in *. lia.
Qed.

(** mentions are lost when the process ends between a row's landing and its mentions:
    a landed row is done, so the next process has no row left to send them for, whether or
    not they went out. *)
Theorem landed_mentions_lost {Delivery} (s : Outbox Delivery) now id :
  reachable s -> OMap.get id (o_rows s) = None ->
  let s' := start now (load now (Some (o_file s)) (o_trace s)) in
  (id ∉ o_mentioning s') /\ o_inflight s' = ∅ /\ OMap.get id (o_rows s') = None.
Proof.
  intros Hr Hn s'. pose proof (outbox_Inv s Hr) as [HF _].
  assert (o_rows (load now (Some (o_file s)) (o_trace s)) = o_rows s) as Hrows.
  { rewrite load_some, (replay_now now 0 _ (fo_stamped _ HF)), (fo_replay _ HF). done. }
  unfold s', start. rewrite Hrows. set (s0 := with_running true false _).
  destruct (start_rows now (o_rows s) s0 eq_refl) as ((Hr' & _) & Hi & _). split_and!.
  - intros [Hx|Hx]%start_mentions; [unfold s0 in Hx; rewrite load_some in Hx; by apply elem_of_nil in Hx|]. by apply OMap.get_None in Hn.
  - rewrite Hi. unfold s0. by rewrite load_some.
  - rewrite Hr'. change (o_rows s0) with (o_rows (load now (Some (o_file s)) (o_trace s))). by rewrite Hrows.
Qed.

(** ** A concrete run, for the witnesses *)

Module Ex.
Definition input : Input := mkInput "q1" "t1" "ship it" [] ["scout"%string] BusySteer.
Definition e0 : Outbox string := load 0 None [].
Definition e1 : Outbox string := start 1000 e0.
Definition e2 : Outbox string := (add 1000 input e1).2.
Definition e3 : Outbox string := deliver_start "q1" e2.
Definition e4 : Outbox string := deliver_answer 1200 "q1" (Accepted None) e3.
Definition e5 : Outbox string := reconcile 1300 "t1" [mkHostItem true "e7" "owner" " ship it " 1100] e4.

Lemma keeps_none (s s' : Outbox string) : o_inflight s = ∅ -> keeps_inflight s s'.
Proof. intros Hi id. rewrite Hi, lookup_empty. by intros []. Qed.

Lemma known_keys (s : Outbox string) id : known id s -> id ∈ OMap.keys (o_rows s) ++ OMap.keys (o_done s).
Proof.
  intros [H|H]; apply elem_of_app; [left|right]; apply has_true in H as [v Hv]; apply OMap.get_elem in Hv;
    apply list_elem_of_fmap; by exists (id, v).
Qed.
Lemma keeps_one (s s' : Outbox string) id : OMap.keys (o_rows s) ++ OMap.keys (o_done s) = [id] -> known id s' -> keeps_inflight s s'.
Proof. intros Hk Hn i _ Hi%known_keys. rewrite Hk in Hi. by apply list_elem_of_singleton in Hi as ->. Qed.

Lemma reachable_e2 : reachable e2.
Proof.
  assert (reachable e1) as H1 by exact (reach_step e0 e1 reach_init (step_start 1000 e0) (keeps_none e0 e1 eq_refl)).
  assert (o_inflight e1 = ∅) as Hi by (vm_compute; reflexivity).
  exact (reach_step e1 e2 H1 (step_add 1000 input e1) (keeps_none e1 e2 Hi)).
Qed.
Lemma reachable_e4 : reachable e4.
Proof.
  assert (o_inflight e2 = ∅) as Hi by (vm_compute; reflexivity).
  assert (o_timers e2 !! "q1"%string = Some 1000) as Ht by (vm_compute; reflexivity).
  pose proof (reach_step e2 e3 reachable_e2 (step_timer "q1" 1000 e2 Ht) (keeps_none e2 e3 Hi)) as H3.
  apply (reach_step e3 e4 H3 (step_answer 1200 "q1" (Accepted None) e3)).
  apply (keeps_one _ _ "q1"); [vm_compute; reflexivity|left; vm_compute; reflexivity].
Qed.
Lemma reachable_e5 : reachable e5.
Proof.
  apply (reach_step e4 e5 reachable_e4 (step_reconcile 1300 "t1" [mkHostItem true "e7" "owner" " ship it " 1100] e4)).
  apply (keeps_one _ _ "q1"); [vm_compute; reflexivity|right; vm_compute; reflexivity].
Qed.
End Ex.

Lemma sending_is_driven_witness :
  state (row_of 1000 Ex.input Sending 0 : OutboxRow string) = Sending /\
  (is_Some (o_timers Ex.e2 !! "q1"%string) \/ exists r0, o_inflight Ex.e2 !! "q1"%string = Some (r0, Submitting)).
Proof.
  split; [reflexivity|].
  apply (sending_is_driven Ex.e2 "q1" (row_of 1000 Ex.input Sending 0) Ex.reachable_e2); vm_compute; reflexivity.
Defined.


Lemma add_once_witness :
  (forall now now' i, (add now' i (add now i Ex.e4).2).2 = (add now i Ex.e4).2) /\ OMap.has "q1" (o_rows Ex.e4) = true.
Proof. split; [exact (proj1 (proj2 (proj2 (add_once Ex.e4 Ex.reachable_e4))))|vm_compute; reflexivity]. Defined.

Lemma retryWait_spec_witness : retryWait 3 = 2000 /\ retryWait 3 <= retryWait 9.
Proof.
  assert (0 <= 3 <= 9) as H by lia.
  split; [vm_compute; reflexivity|exact (proj1 (proj2 (retryWait_spec 3 9 H)))].
Defined.

(** The row of the run names an agent; pi-host's page shows it before the mention is out. *)
Lemma landed_mentions_lost_witness :
  (exists r, OMap.get "q1" (o_rows Ex.e4) = Some r /\ mentions r = ["scout"%string] /\ mentioned r = None) /\
  "q1"%string ∉ o_mentioning (start 9000 (load 9000 (Some (o_file Ex.e5)) (o_trace Ex.e5))).
Proof.
  split; [eexists; split; [vm_compute; reflexivity|split; reflexivity]|].
  assert (OMap.get "q1" (o_rows Ex.e5) = None) as Hn by (vm_compute; reflexivity).
  exact (proj1 (landed_mentions_lost Ex.e5 9000 "q1" Ex.reachable_e5 Hn)).
Defined.
