(* ===== verification/GoalSpec.v ===== *)
(** * What the goal promises

    The invariant of [GoalState] under every operation, the [/goal] command on an
    invalid objective, and the durable module: entries counted once, continuations
    never repeated, and two ways its clock and its continuations go wrong. *)

From S2P Require Import Prelude Schedule Goal.
Local Open Scope Z_scope.
Local Open Scope list_scope.

(** ** The state of a goal *)

(** Running exactly while active, active only under its budget, counters from zero up. *)
Record goal_ok (g : Goal) : Prop := mkGoalOk {
  gk_clock : status g = GActive <-> is_Some (active_since g);
  gk_budget : status g = GActive -> spent g = false;
  gk_tokens : 0 <= tokens_used g;
  gk_time : 0 <= time_used_seconds g;
  gk_cont : 0 <= continuations_used g
}.
Definition state_ok (s : GoalState) : Prop := forall g, goal s = Some g -> goal_ok g.

(** The operations of a live state; a new goal gets a fresh id. *)
Definition fresh_id (uuid : string) (s : GoalState) : Prop := forall g, goal s = Some g -> goal_id g <> uuid.
Inductive gstep (s : GoalState) : GoalState -> Prop :=
| gs_account now m : gstep s (account now m s).2
| gs_terminal now m : gstep s (terminal now m s).2
| gs_create now uuid p v s' : create now uuid p s = Ok (v, s') -> fresh_id uuid s -> gstep s s'
| gs_complete now v s' : complete now s = Ok (v, s') -> gstep s s'
| gs_pause now : gstep s (pause now s)
| gs_resume now : gstep s (resume now s)
| gs_clear now : gstep s (clear now s)
| gs_continuation now : gstep s (continuation now s).2
| gs_command now uuid args : fresh_id uuid s -> gstep s (command now uuid args s).2.

(** What no operation takes back from a goal that stays. *)
Definition grows (g g' : Goal) : Prop :=
  objective g' = objective g /\ token_budget g' = token_budget g /\ created_at g' = created_at g /\
  tokens_used g <= tokens_used g' /\ time_used_seconds g <= time_used_seconds g' /\ continuations_used g <= continuations_used g'.

(** The effect every operation has: nothing, or a change that is persisted. *)
Record effect (s s' : GoalState) : Prop := mkEffect {
  ef_ok : state_ok s -> state_ok s';
  ef_saved : s' = s \/ exists l, gs_saved s' = gs_saved s ++ l /\ last l = Some (goal s');
  ef_grows : forall g g', goal s = Some g -> goal s' = Some g' -> goal_id g' = goal_id g -> grows g g'
}.

Lemma grows_refl g : grows g g.
Proof. unfold grows. split_and!; try done; lia. Qed.

Lemma effect_refl s : effect s s.
Proof. split; [done|by left|]. intros g g' -> [= ->] _. apply grows_refl. Qed.

Lemma effect_save now s g :
  (state_ok s -> goal_ok g) -> (forall g0, goal s = Some g0 -> goal_id g = goal_id g0 -> grows g0 g) ->
  effect s (save now (mkGoalState (Some g) (gs_saved s))).
Proof.
  intros Hok Hg. split.
  - intros Hs g' [= <-]. by destruct (Hok Hs).
  - right. by exists [Some (stamp now g)].
  - intros g0 g' Hg0 [= <-] Hid. by apply (Hg g0 Hg0).
Qed.

Lemma floor_mono now t : 0 <= Z.max 0 ((now - t) / 1000).
Proof. lia. Qed.

Lemma goal_ok_set now st reason g :
  goal_ok g -> (st = GActive -> spent g = false) -> goal_ok (set_goal now st reason g).
Proof.
  intros [Hc Hb Ht Htm Hcn] Hst. split; cbn.
  - case_bool_decide; (split; [first [done|by eexists]|first [done|by intros []]]).
  - intros ->. by apply Hst.
  - done.
  - destruct (active_since g); lia.
  - done.
Qed.

Lemma grows_set now st reason g : grows g (set_goal now st reason g).
Proof. unfold grows. cbn. split_and!; try done; try lia. destruct (active_since g); lia. Qed.

Lemma effect_set now st reason s g g1 :
  goal s = Some g -> grows g g1 -> (state_ok s -> goal_ok (set_goal now st reason g1)) ->
  effect s (set now st reason (mkGoalState (Some g1) (gs_saved s))).
Proof.
  intros Hg Hgr Hok. unfold set. cbn [goal gs_saved fmap option_fmap option_map].
  apply effect_save; [done|]. intros g0 Hg0 _. rewrite Hg in Hg0. injection Hg0 as <-.
  pose proof (grows_set now st reason g1) as (?&?&?&?&?&?). destruct Hgr as (?&?&?&?&?&?).
  unfold grows. split_and!; try congruence; lia.
Qed.

Lemma goal_state_eta s g : goal s = Some g -> s = mkGoalState (Some g) (gs_saved s).
Proof. destruct s. by intros [= ->]. Qed.

Lemma effect_set_self now st reason s :
  (st = GActive -> forall g, goal s = Some g -> spent g = false) -> goal s <> None -> effect s (set now st reason s).
Proof.
  intros Hst Hn. destruct (goal s) as [g|] eqn:E; [|done]. rewrite (goal_state_eta s g E) at 2.
  apply (effect_set now st reason s g g E (grows_refl g)). intros Hok. apply goal_ok_set; [by apply Hok|]. intros Ha. by apply Hst.
Qed.

Lemma effect_account now m s : effect s (account now m s).2.
Proof.
  unfold account. destruct (goal s) as [g|] eqn:E; [|apply effect_refl].
  destruct (negb (bool_decide (status g = GActive)) || failed m) eqn:Eg; [apply effect_refl|]. apply orb_false_iff in Eg as [Ea _].
  apply negb_false_iff, bool_decide_eq_true in Ea.
  destruct (delta_of m =? 0); [apply effect_refl|].
  assert (0 <= delta_of m) as Hd by (unfold delta_of; lia).
  assert (grows g (spend (delta_of m) g)) as Hgr by (unfold grows; cbn; split_and!; try done; lia).
  assert (spent (spend (delta_of m) g) = false -> state_ok s -> goal_ok (spend (delta_of m) g)) as Hok.
  { intros Hsp Hs. destruct (Hs g E) as [Hc Hb Ht Htm Hcn]. split; cbn; try done. lia. }
  destruct (token_budget (spend (delta_of m) g)) as [b|] eqn:Eb.
  2: { apply effect_save; [apply Hok; unfold spent; by rewrite Eb|]. intros g0 Hg0 _. rewrite E in Hg0. by injection Hg0 as <-. }
  destruct (b <=? _) eqn:El; cbn [snd].
  - apply (effect_set now GBudgetLimited _ s g _ E Hgr). intros Hs. destruct (Hs g E) as [Hc Hb Ht Htm Hcn].
    split; cbn; [split; [done|by intros []]|done|lia|destruct (active_since g); lia|done].
  - apply effect_save; [apply Hok; unfold spent; by rewrite Eb|]. intros g0 Hg0 _. rewrite E in Hg0. by injection Hg0 as <-.
Qed.

Lemma effect_terminal now m s : effect s (terminal now m s).2.
Proof.
  unfold terminal. destruct (negb (failed m)); [apply effect_refl|]. cbn [snd].
  destruct (active s && _) eqn:E; [|apply effect_refl]. apply andb_true_iff in E as [Ea _]. unfold active in Ea.
  apply effect_set_self; [done|]. by destruct (goal s).
Qed.

Lemma create_ok now uuid p s v s' :
  create now uuid p s = Ok (v, s') -> exists obj budget,
    create_check p s = Ok (obj, budget) /\ (forall b, budget = Some b -> 0 < b) /\
    s' = save now (mkGoalState (Some (mkGoal uuid obj GActive budget 0 0 0 now now (Some now) None)) (gs_saved s)).
Proof.
  intros Hc. apply bind_ok in Hc as ([obj budget] & Hcheck & Hc). exists obj, budget. split; [done|].
  cbv beta iota zeta in Hc. split; [|by injection Hc as _ <-]. revert Hcheck. unfold create_check. destruct (p_objective p); try done.
  destruct (goal s ≫= _); [by destruct (p_token_budget p)|].
  destruct (bool_decide _); [by destruct (p_token_budget p)|]. destruct (_ <? _); [by destruct (p_token_budget p)|].
  destruct (p_token_budget p) as [| | |n| | |]; try done; [by intros [= _ <-]|by intros [= _ <-]|].
  destruct (n <=? 0) eqn:E; [done|]. intros [= _ <-] b [= <-]. simp_ok. lia.
Qed.

Lemma effect_create now uuid p s v s' : create now uuid p s = Ok (v, s') -> fresh_id uuid s -> effect s s'.
Proof.
  intros (obj & budget & _ & Hb & ->)%create_ok Hf. apply effect_save.
  - intros _. split; cbn; [split; [by eexists|done]| |lia|lia|lia].
    intros _. unfold spent. cbn. destruct budget as [b|]; [|done]. specialize (Hb b eq_refl). apply Z.leb_gt. lia.
  - intros g0 Hg0 Hid. cbn in Hid. by destruct (Hf g0 Hg0).
Qed.

Lemma effect_clear now s : effect s (clear now s).
Proof.
  unfold clear. destruct (goal s) eqn:E; [|apply effect_refl]. split; [done| |done].
  right. by exists [None].
Qed.

Lemma effect_pause now s : effect s (pause now s).
Proof.
  unfold pause. destruct (active s) eqn:E; [|apply effect_refl]. apply effect_set_self; [done|].
  unfold active in E. by destruct (goal s).
Qed.

Lemma effect_resume now s : effect s (resume now s).
Proof.
  unfold resume. destruct (goal s) as [g|] eqn:E; [|apply effect_refl].
  destruct (_ && _); [apply effect_refl|]. destruct (spent g) eqn:Es; [apply effect_refl|].
  apply effect_set_self; [|by rewrite E]. intros _ g' Hg'. rewrite E in Hg'. by injection Hg' as <-.
Qed.

Lemma effect_continuation now s : effect s (continuation now s).2.
Proof.
  unfold continuation. destruct (goal s) as [g|] eqn:E; cbn [snd fmap option_fmap option_map].
  - apply effect_save.
    + intros Hok. destruct (Hok g E) as [Hc Hb Ht Htm Hcn]. split; cbn; try done. lia.
    + intros g0 Hg0 _. rewrite E in Hg0. injection Hg0 as <-. unfold grows. cbn. split_and!; try done; lia.
  - split; [done|right; by exists [None]|]. intros g g'. by rewrite E.
Qed.

Lemma effect_trans s1 s2 s3 : goal s2 = None -> effect s1 s2 -> effect s2 s3 ->
  (forall g g', goal s1 = Some g -> goal s3 = Some g' -> goal_id g' <> goal_id g) -> effect s1 s3.
Proof.
  intros Hn [H1 H2 H3] [H4 H5 H6] Hid. split; [by auto| |].
  - destruct H5 as [->|(l & Hl & Hlast)]; [done|]. right.
    destruct H2 as [->|(l0 & Hl0 & _)]; [by exists l|]. exists (l0 ++ l). rewrite Hl, Hl0, app_assoc. split; [done|].
    by rewrite last_app, Hlast.
  - intros g g' Hg Hg' Heq. by destruct (Hid g g' Hg Hg').
Qed.

Lemma clear_none now s : goal (clear now s) = None.
Proof. unfold clear. by destruct (goal s) eqn:E. Qed.

Lemma effect_command now uuid args s : fresh_id uuid s -> effect s (command now uuid args s).2.
Proof.
  intros Hf. unfold command. destruct (_ || _); [apply effect_refl|]. destruct (bool_decide _); [apply effect_pause|].
  destruct (bool_decide _); [apply effect_resume|]. destruct (_ || _); [apply effect_clear|].
  set (p := mkPayload _ _). set (s1 := match goal s with Some g => _ | None => s end).
  assert (s1 = s \/ s1 = clear now s) as Hs1 by (unfold s1; destruct (goal s); [destruct (_ && _)|]; auto).
  assert (effect s s1) as He1 by (destruct Hs1 as [->| ->]; [apply effect_refl|apply effect_clear]).
  destruct (create now uuid p s1) as [[v s2]|e] eqn:Ec; [|done]. cbn [snd].
  destruct Hs1 as [Heq|Heq]; [rewrite Heq in Ec; by eapply effect_create|].
  apply (effect_trans s s1 s2); [rewrite Heq; apply clear_none|done| |].
  - eapply effect_create; [exact Ec|]. intros g. by rewrite Heq, clear_none.
  - intros g g' Hg Hg'. apply create_ok in Ec as (obj & budget & _ & _ & ->). injection Hg' as <-. cbn.
    intros Hid. by apply (Hf g Hg).
Qed.

Lemma gstep_effect s s' : gstep s s' -> effect s s'.
Proof.
  destruct 1.
  - apply effect_account.
  - apply effect_terminal.
  - by eapply effect_create.
  - unfold complete in *. destruct (goal s) eqn:E; [|done]. simp_ok. apply effect_set_self; [done|by rewrite E].
  - apply effect_pause.
  - apply effect_resume.
  - apply effect_clear.
  - apply effect_continuation.
  - by apply effect_command.
Qed.
#[export] Hint Resolve gstep_effect : sieun.

Definition ex_payload : Payload := mkPayload (JStr " ship the release ") (JNum 100).
Definition ex_created : GoalState := match create 1000 "g-1" ex_payload (mkGoalState None []) with Ok (_, s) => s | Throw _ => mkGoalState None [] end.
Definition ex_turn : Assistant := mkAssistant (Some "stop"%string) None (Some 60) (Some 50).

(** C7: every operation on a goal keeps it well formed (its clock runs exactly while it is
    active, and it is active only under its budget), persists each change it makes, and
    never lowers the tokens, time or continuations of a goal or touches its objective. *)
Theorem goal_operations s s' :
  gstep s s' ->
  (state_ok s -> state_ok s') /\
  (s' = s \/ exists l, gs_saved s' = gs_saved s ++ l /\ last l = Some (goal s')) /\
  (forall g g', goal s = Some g -> goal s' = Some g' -> goal_id g' = goal_id g -> grows g g').
Proof. intros Hs. by destruct (gstep_effect s s' Hs). Qed.

Lemma goal_operations_witness :
  gstep ex_created (account 9000 ex_turn ex_created).2 /\
  (state_ok ex_created -> state_ok (account 9000 ex_turn ex_created).2) /\
  (status <$> goal (account 9000 ex_turn ex_created).2) = Some GBudgetLimited.
Proof.
  pose proof (gs_account ex_created 9000 ex_turn) as Hs. split; [exact Hs|].
  split; [exact (proj1 (goal_operations _ _ Hs))|vm_compute; reflexivity].
Defined.

(** a [/goal] command that throws leaves the session without a goal when one was
    pending: it clears the old goal, and persists that, before [create] checks the new
    objective and budget. *)
Theorem command_clears_first now uuid args s g e :
  goal s = Some g -> PENDING (status g) <> None -> (command now uuid args s).1 = Throw e ->
  goal (command now uuid args s).2 = None /\ gs_saved (command now uuid args s).2 = gs_saved s ++ [None].
Proof.
  intros Hg Hp. unfold command. destruct (_ || _); [done|]. destruct (bool_decide _); [done|].
  destruct (bool_decide _); [done|]. destruct (_ || _); [done|]. rewrite Hg.
  assert (negb (bool_decide (status g = GComplete)) && negb (bool_decide (status g = GError)) = true) as ->.
  { destruct (status g); try done. }
  destruct (create _ _ _ _) as [[v s2]|e']; [done|]. intros _. cbn [snd].
  unfold clear. by rewrite Hg.
Qed.

Lemma command_clears_first_witness :
  active ex_created = true /\
  (command 2000 "g-2" "--budget 0 tidy up" ex_created).1 = Throw "Goal token budget must be a positive integer." /\
  goal (command 2000 "g-2" "--budget 0 tidy up" ex_created).2 = None.
Proof.
  assert ((command 2000 "g-2" "--budget 0 tidy up" ex_created).1 = Throw "Goal token budget must be a positive integer.") as He
    by (vm_compute; reflexivity).
  assert (exists g, goal ex_created = Some g /\ PENDING (status g) <> None) as (g & Hg & Hp)
    by (eexists; split; [vm_compute; reflexivity|discriminate]).
  split; [vm_compute; reflexivity|]. split; [exact He|exact (proj1 (command_clears_first _ _ _ _ _ _ Hg Hp He))].
Defined.

(** ** The durable module: counting *)

Lemma entries_from_all min log : (forall e, e ∈ log -> e.1 < min) -> entries_from min log = [].
Proof.
  unfold entries_from. induction log as [|e log IH]; cbn; intros Hall; [done|].
  rewrite (proj2 (Z.leb_gt min e.1)); [|apply Hall; set_solver]. apply IH. set_solver.
Qed.

Lemma count_accounted now es c :
  c_accounted c <= c_accounted (fold_left (count_entry now) es c) /\
  forall e, e ∈ es -> e.1 <= c_accounted (fold_left (count_entry now) es c).
Proof.
  revert c. induction es as [|e es IH]; intros c; cbn [fold_left]; [split; [lia|set_solver]|].
  destruct (IH (count_entry now c e)) as [Hle Hall].
  assert (c_accounted (count_entry now c e) = Z.max (c_accounted c) e.1) as Hacc.
  { unfold count_entry. destruct e as [id [m|]]; cbn; [|done]. by destruct (account now m (c_state c)). }
  rewrite Hacc in Hle. split; [lia|]. intros e' [->|He']%elem_of_cons; [lia|by apply Hall].
Qed.

Lemma counted_covers now log d e : e ∈ log -> e.1 <= c_accounted (counted now log d).
Proof.
  intros He. unfold counted. set (c := mkCounting _ _ _ _).
  destruct (count_accounted now (entries_from (accounted (doc d) + 1) log) c) as [Hle Hall].
  destruct (decide (accounted (doc d) + 1 <= e.1)) as [Hm|Hm].
  - apply Hall. unfold entries_from. apply list_elem_of_In, filter_In. split; [by apply list_elem_of_In|by apply Z.leb_le].
  - cbn in Hle. lia.
Qed.

(** The tokens of a list of entries, as far as a goal without a budget counts them. *)
Definition entry_tokens (e : Entry) : Z := match e.2 with Some m => if failed m then 0 else delta_of m | None => 0 end.
Definition total (es : list Entry) : Z := foldr (fun e n => entry_tokens e + n) 0 es.

Lemma count_total now es c g :
  goal (c_state c) = Some g -> status g = GActive -> token_budget g = None ->
  exists g', goal (c_state (fold_left (count_entry now) es c)) = Some g' /\ status g' = GActive /\ token_budget g' = None /\
    tokens_used g' = tokens_used g + total es /\ c_budget (fold_left (count_entry now) es c) = c_budget c.
Proof.
  revert c g. induction es as [|[id m] es IH]; intros c g Hg Ha Hb; cbn [fold_left total foldr].
  { exists g. split_and!; try done. lia. }
  assert (exists g1, goal (c_state (count_entry now c (id, m))) = Some g1 /\ status g1 = GActive /\ token_budget g1 = None /\
    tokens_used g1 = tokens_used g + entry_tokens (id, m) /\ c_budget (count_entry now c (id, m)) = c_budget c) as (g1 & H1 & H2 & H3 & H4 & H5).
  { unfold count_entry, entry_tokens. cbn [snd fst]. destruct m as [m|]; cbn [c_state c_budget].
    2: { exists g. split_and!; try done. lia. }
    unfold account. rewrite Hg, Ha. cbn [negb bool_decide decide orb]. rewrite bool_decide_eq_true_2 by done. cbn [negb orb].
    destruct (failed m) eqn:Ef; cbn [c_state c_budget]; [exists g; split_and!; try done; lia|].
    destruct (delta_of m =? 0) eqn:Ed; cbn [c_state c_budget].
    { exists g. apply Z.eqb_eq in Ed. split_and!; try done. lia. }
    cbn [token_budget spend]. rewrite Hb. cbn. eexists. split_and!; done. }
  destruct (IH _ _ H1 H2 H3) as (g' & H1' & H2' & H3' & H4' & H5'). exists g'. split_and!; try done; [|congruence].
  unfold total in *. lia.
Qed.

(** an assistant message is charged to the goal once.  A request or settle that goes
    through leaves every entry of the log counted, so the next one starts from the document
    and counts none of them again; and what it counted is, for an active goal without a
    budget, exactly the tokens of the entries after the last mark. *)
Theorem entries_counted_once {A} now log change d (a : A) d' :
  update now log change d = (Ok a, d') ->
  accounted (doc d) <= accounted (doc d') /\
  (forall now', counted now' log d' = mkCounting (opened now' d') (accounted (doc d')) None None) /\
  (forall g, goal (opened now d) = Some g -> status g = GActive -> token_budget g = None ->
     exists g', goal (c_state (counted now log d)) = Some g' /\ status g' = GActive /\
       tokens_used g' = tokens_used g + total (entries_from (accounted (doc d) + 1) log)).
Proof.
  unfold update. destruct (change (counted now log d)) as [[[[a' s] dec] cont]|e]; [|done]. intros [= _ <-]. split_and!.
  - cbn [doc accounted]. unfold counted. set (c := mkCounting _ _ _ _). apply (count_accounted now _ c).
  - intros now'. unfold counted at 1. cbn [doc accounted]. rewrite entries_from_all; [done|].
    intros e He. pose proof (counted_covers now log d e He). lia.
  - intros g Hg Ha Hb. unfold counted. set (c := mkCounting _ _ _ _).
    destruct (count_total now (entries_from (accounted (doc d) + 1) log) c g Hg Ha Hb) as (g' & H1 & H2 & _ & H4 & _).
    by exists g'.
Qed.

(** A conversation whose goal was created before its second turn. *)
Definition ex_log : list Entry := [(3, Some ex_turn); (4, None); (7, Some ex_turn)].
Definition ex_d0 : DState := mkDState empty_record false [].
Definition ex_d1 : DState := (request 1000 [(3, Some ex_turn)] (GoalCreate "g-1" (mkPayload (JStr "ship") JNull)) ex_d0).2.
Definition ex_d2 : DState := (request 5000 ex_log GoalGet ex_d1).2.

Lemma entries_counted_once_witness :
  (tokens_used <$> r_goal (doc ex_d2)) = Some 110 /\ accounted (doc ex_d2) = 7 /\
  counted 6000 ex_log ex_d2 = mkCounting (opened 6000 ex_d2) 7 None None.
Proof.
  assert (exists v, request 5000 ex_log GoalGet ex_d1 = (Ok v, ex_d2)) as [v Hr] by (eexists; vm_compute; reflexivity).
  split; [vm_compute; reflexivity|]. split; [vm_compute; reflexivity|].
  exact (proj1 (proj2 (entries_counted_once 5000 ex_log _ ex_d1 v ex_d2 Hr)) 6000).
Defined.

(** ** Continuations *)

Definition conts (ss : list Send) : list (string * Z) :=
  omap (fun x => match x with SendContinuation g n _ => Some (g, n) | SendBudget _ _ => None end) ss.

(** A goal's id is new when it is created. *)
Definition unused (uuid : string) (d : DState) : Prop :=
  (forall n, (uuid, n) ∉ conts (sent d)) /\ forall g, r_goal (doc d) = Some g -> goal_id g <> uuid.

Inductive dstep (d : DState) : DState -> Prop :=
| ds_request now log r : (forall uuid p, r = GoalCreate uuid p -> unused uuid d) -> dstep d (request now log r d).2
| ds_settled now log running workOut : dstep d (settled now log running workOut d)
| ds_restart : dstep d (mkDState (doc d) false (sent d)).
Inductive dreachable : DState -> Prop :=
| dr_init : dreachable (mkDState empty_record false [])
| dr_step d d' : dreachable d -> dstep d d' -> dreachable d'.

(** What counting leaves of a goal: its id and its continuations. *)
Definition same_goal (x y : option Goal) : Prop :=
  match x, y with
  | None, None => True
  | Some g, Some g' => goal_id g' = goal_id g /\ continuations_used g' = continuations_used g
  | _, _ => False
  end.
#[local] Instance same_goal_refl : Reflexive same_goal.
Proof. intros [g|]; done. Qed.
#[local] Instance same_goal_trans : Transitive same_goal.
Proof. intros [x|] [y|] [z|]; cbn; try done. intros [] []; split; congruence. Qed.

Lemma same_goal_account now m s : same_goal (goal s) (goal (account now m s).2).
Proof.
  unfold account. destruct (goal s) as [g|] eqn:E; [|cbn; by rewrite E].
  destruct (_ || _); [cbn; by rewrite E|]. destruct (_ =? 0); [cbn; by rewrite E|].
  destruct (token_budget _) as [b|]; [destruct (b <=? _)|]; done.
Qed.

Lemma same_goal_counted now log d : same_goal (r_goal (doc d)) (goal (c_state (counted now log d))).
Proof.
  transitivity (goal (opened now d)).
  { unfold opened. cbn. destruct (loaded d); [reflexivity|]. destruct (r_goal (doc d)) as [g|]; [|done]. cbn. by case_bool_decide. }
  unfold counted. set (c := mkCounting _ _ _ _). change (opened now d) with (c_state c). generalize (entries_from (accounted (doc d) + 1) log) as es.
  intros es. generalize c. induction es as [|[id m] es IH]; intros c'; cbn [fold_left]; [reflexivity|].
  etrans; [|apply IH]. unfold count_entry. cbn [snd fst]. destruct m as [m|]; [|reflexivity].
  pose proof (same_goal_account now m (c_state c')) as Hs. by destruct (account now m (c_state c')).
Qed.

Record DInv (d : DState) : Prop := mkDInv {
  di_nodup : NoDup (conts (sent d));
  di_bound : forall g n, r_goal (doc d) = Some g -> (goal_id g, n) ∈ conts (sent d) -> n <= continuations_used g
}.

Lemma conts_app a b : conts (a ++ b) = conts a ++ conts b.
Proof. apply omap_app. Qed.
Lemma conts_budget t g : conts (match t with Some x => [SendBudget g x] | None => [] end) = [].
Proof. by destruct t. Qed.

(** A change that sends no continuation and keeps the goal, or replaces it by a new one. *)
Lemma DInv_quiet d r_ acc dec l ss :
  DInv d -> conts ss = [] ->
  (same_goal (r_goal (doc d)) r_ \/ exists g, r_ = Some g /\ forall n, (goal_id g, n) ∉ conts (sent d)) ->
  DInv (mkDState (mkGoalRecord r_ acc dec) l (sent d ++ ss)).
Proof.
  intros [Hn Hb] Hss Hg. split; cbn; rewrite conts_app, Hss, app_nil_r; [done|].
  intros g n -> Hin. destruct Hg as [Hs|(g' & [= <-] & Hno)]; [|by destruct (Hno n)].
  destruct (r_goal (doc d)) as [g0|] eqn:E; [|done]. destruct Hs as [Hid Hc]. rewrite Hc. apply (Hb g0); [done|congruence].
Qed.

Lemma DInv_request now log r d : (forall uuid p, r = GoalCreate uuid p -> unused uuid d) -> DInv d -> DInv (request now log r d).2.
Proof.
  intros Hun HI. unfold request, update. pose proof (same_goal_counted now log d) as Hs.
  set (c := counted now log d) in *.
  assert (DInv (mkDState (doc d) true (sent d))) as Hthrow by by destruct HI.
  assert (forall (v : View) s, (same_goal (r_goal (doc d)) (goal s) \/ exists g, goal s = Some g /\ forall n, (goal_id g, n) ∉ conts (sent d)) ->
    DInv (mkDState (mkGoalRecord (goal s) (c_accounted c) (decided (doc d))) true
      (sent d ++ match goal s with None => [] | Some g => match c_budget c with Some t => [SendBudget (goal_id g) t] | None => [] end ++ [] end))) as Hok.
  { intros v s Hg. apply DInv_quiet; [done| |done]. destruct (goal s); [|done]. by rewrite conts_app, conts_budget. }
  destruct r as [|uuid p| |type]; cbn [snd].
  - apply (Hok (view now false (c_state c))). by left.
  - destruct (create now uuid p (c_state c)) as [[v s]|e] eqn:Ec; cbn [mbind result_bind snd]; [|done].
    apply (Hok v). right. apply create_ok in Ec as (obj & b & _ & _ & ->). eexists. split; [done|]. cbn. apply (Hun uuid p eq_refl).
  - unfold complete. destruct (goal (c_state c)) as [g|] eqn:E; cbn [mbind result_bind snd]; [|done].
    apply (Hok (view now true (c_state c))). left. unfold set, save. cbn. rewrite E. cbn. by destruct (r_goal (doc d)).
  - done.
Qed.

Lemma DInv_settled now log running workOut d : DInv d -> DInv (settled now log running workOut d).
Proof.
  intros HI. unfold settled. destruct (r_goal (doc d)) as [g0|] eqn:E0; [|done].
  unfold update. pose proof (same_goal_counted now log d) as Hs. set (c := counted now log d) in *.
  assert (forall s dec, same_goal (r_goal (doc d)) (goal s) ->
    DInv (mkDState (mkGoalRecord (goal s) (c_accounted c) dec) true
      (sent d ++ match goal s with None => [] | Some g => match c_budget c with Some t => [SendBudget (goal_id g) t] | None => [] end ++ [] end))) as Hq.
  { intros s dec Hg. apply DInv_quiet; [done| |by left]. destruct (goal s); [|done]. by rewrite conts_app, conts_budget. }
  unfold settle_change. destruct (c_newest c) as [[id m]|]; [|by apply Hq].
  destruct (_ || running); [by apply Hq|].
  destruct (terminal now m (c_state c)) as [t s1] eqn:Et.
  assert (same_goal (goal (c_state c)) (goal s1) /\ (t = false -> s1 = c_state c)) as [Hs1 Ht].
  { unfold terminal in Et. destruct (negb (failed m)); [injection Et as <- <-; split; [reflexivity|done]|].
    destruct (_ && _); injection Et as <- <-; (split; [|done]); [|reflexivity]. unfold set, save. cbn. by destruct (goal (c_state c)). }
  destruct (t || workOut) eqn:Eb; [apply Hq; by etrans|]. apply orb_false_iff in Eb as [-> _]. rewrite (Ht eq_refl) in *.
  rewrite E0 in Hs. destruct (goal (c_state c)) as [g|] eqn:Eg; [|done]. destruct Hs as [Hid Hc].
  unfold continuation, save. cbn [goal gs_saved]. rewrite Eg. cbn [fmap option_fmap option_map goal snd].
  destruct HI as [Hn Hb]. split; cbn [sent doc]; rewrite conts_app, conts_app, conts_budget; cbn [conts app].
  - apply NoDup_app. split_and!; [done| |apply NoDup_singleton].
    intros [g' n] Hin Hin'. apply list_elem_of_singleton in Hin'. injection Hin' as -> ->. cbn in Hin. rewrite Hid in Hin.
    specialize (Hb g0 _ E0 Hin). lia.
  - intros g' n [= <-] Hin. cbn in *. apply elem_of_app in Hin as [Hin|Hin].
    + rewrite Hid in Hin. specialize (Hb g0 n E0 Hin). lia.
    + apply list_elem_of_singleton in Hin. injection Hin as ->. lia.
Qed.

Lemma DInv_reachable d : dreachable d -> DInv d.
Proof.
  induction 1 as [|d d' _ IH Hs]; [split; cbn; [constructor|set_solver]|]. destruct Hs.
  - by apply DInv_request.
  - by apply DInv_settled.
  - by destruct IH.
Qed.

(** C8: no continuation is sent twice: across requests, settles, failures and restarts, in
    any order, the goal id and number in a continuation's request id never repeat, and a
    settle sends at most one, for an assistant entry newer than any it decided on before. *)
Theorem continuations_never_repeat d now log running workOut :
  dreachable d ->
  NoDup (conts (sent d)) /\
  (conts (sent (settled now log running workOut d)) = conts (sent d) \/
   exists g n id, conts (sent (settled now log running workOut d)) = conts (sent d) ++ [(g, n)] /\
     decided (doc d) < id /\ decided (doc (settled now log running workOut d)) = id /\ running = false /\ workOut = false).
Proof.
  intros Hr. split; [by apply DInv_reachable|]. unfold settled. destruct (r_goal (doc d)) as [g0|]; [|by left].
  unfold update. set (c := counted now log d).
  assert (forall s : GoalState, conts (sent d ++ match goal s with None => [] | Some g => match c_budget c with Some t => [SendBudget (goal_id g) t] | None => [] end ++ [] end) = conts (sent d)) as Hq.
  { intros s. rewrite conts_app. destruct (goal s); rewrite ?conts_app, ?conts_budget; by rewrite app_nil_r. }
  unfold settle_change. destruct (c_newest c) as [[id m]|]; [|left; apply Hq].
  destruct (_ || running) eqn:Eb; [left; apply Hq|]. apply orb_false_iff in Eb as [Eb ->]. apply orb_false_iff in Eb as [_ Hid].
  apply Z.leb_gt in Hid. destruct (terminal now m (c_state c)) as [t s1].
  destruct (t || workOut) eqn:Ew; [left; apply Hq|]. apply orb_false_iff in Ew as [_ ->].
  unfold continuation, save. cbn [goal gs_saved]. destruct (goal s1) as [g|]; cbn [fmap option_fmap option_map goal snd sent doc decided].
  - right. exists (goal_id g), (continuations_used g + 1), id. rewrite conts_app, conts_app, conts_budget. by split_and!.
  - left. cbn. by rewrite app_nil_r.
Qed.

Lemma ex_reachable : dreachable ex_d1.
Proof.
  apply (dr_step ex_d0 ex_d1 dr_init). apply ds_request. intros uuid p [= <- _]. split; [intros n Hn; by apply elem_of_nil in Hn|done].
Qed.

Lemma continuations_never_repeat_witness :
  conts (sent (settled 8000 ex_log false false ex_d1)) = [("g-1"%string, 1)] /\
  NoDup (conts (sent (settled 8000 ex_log false false ex_d1))).
Proof.
  assert (dreachable (settled 8000 ex_log false false ex_d1)) as Hr by exact (dr_step _ _ ex_reachable (ds_settled ex_d1 8000 ex_log false false)).
  split; [vm_compute; reflexivity|].
  exact (proj1 (continuations_never_repeat _ 9000 ex_log false false Hr)).
Defined.

(** a goal stalls when a request counts the run's last entries before the settle: the
    settle looks only at the entries its own count reads, so it finds no newest message,
    sends no continuation and decides on nothing, though the goal is active and the run over. *)
Theorem counted_entries_stall now log workOut d :
  (forall e, e ∈ log -> e.1 <= accounted (doc d)) ->
  sent (settled now log false workOut d) = sent d /\ decided (doc (settled now log false workOut d)) = decided (doc d) /\
  (r_goal (doc d) <> None -> r_goal (doc (settled now log false workOut d)) = goal (opened now d)).
Proof.
  intros Hall. unfold settled. destruct (r_goal (doc d)) as [g|] eqn:E; [|by rewrite E].
  unfold update, settle_change, counted. rewrite entries_from_all by (intros e He; specialize (Hall e He); lia).
  cbn. rewrite ?E. destruct (if loaded d then _ else _); cbn; rewrite app_nil_r; done.
Qed.

Lemma counted_entries_stall_witness :
  conts (sent (settled 8000 ex_log false false ex_d1)) = [("g-1"%string, 1)] /\
  sent (settled 8000 ex_log false false ex_d2) = [] /\
  (status <$> r_goal (doc (settled 8000 ex_log false false ex_d2))) = Some GActive.
Proof.
  assert (forall e, e ∈ ex_log -> e.1 <= accounted (doc ex_d2)) as Hall.
  { change (accounted (doc ex_d2)) with 7. intros e He. unfold ex_log in He.
    repeat (apply elem_of_cons in He as [->|He]; [cbn; lia|]). by apply elem_of_nil in He. }
  split; [vm_compute; reflexivity|]. split; [exact (proj1 (counted_entries_stall 8000 ex_log false ex_d2 Hall))|vm_compute; reflexivity].
Defined.

(** the first read after a restart is meant to restart an active goal's clock.  When
    that request throws, nothing is written but the read counts as done, so the next one
    starts from the clock of the process before, and the time the host was down is charged. *)
Theorem failed_first_read_keeps_clock now log r d e d' :
  loaded d = false -> request now log r d = (Throw e, d') ->
  forall now', opened now' d' = mkGoalState (r_goal (doc d)) [].
Proof.
  intros _ Hr now'. unfold request, update in Hr. destruct (match r with GoalGet => _ | _ => _ end) as [[[[? ?] ?] ?]|?]; [done|].
  by injection Hr as _ <-.
Qed.

(** The host goes down a second after the goal was set, for an hour. *)
Definition ex_restarted : DState := mkDState (doc ex_d1) false (sent ex_d1).
Definition ex_failed : DState := (request 3602000 [(3, Some ex_turn)] (GoalCreate "g-2" (mkPayload (JStr "other") JNull)) ex_restarted).2.

Lemma failed_first_read_keeps_clock_witness :
  opened 3603000 ex_failed = mkGoalState (r_goal (doc ex_d1)) [] /\
  (time_used_seconds <$> r_goal (doc (request 3603000 [(3, Some ex_turn)] GoalComplete ex_failed).2)) = Some 3602 /\
  (time_used_seconds <$> r_goal (doc (request 3603000 [(3, Some ex_turn)] GoalComplete ex_restarted).2)) = Some 0.
Proof.
  assert (exists e, request 3602000 [(3, Some ex_turn)] (GoalCreate "g-2" (mkPayload (JStr "other") JNull)) ex_restarted = (Throw e, ex_failed)) as [e He]
    by (eexists; vm_compute; reflexivity).
  assert (loaded ex_restarted = false) as Hl by reflexivity.
  split; [exact (failed_first_read_keeps_clock _ _ _ _ _ _ Hl He 3603000)|]. split; vm_compute; reflexivity.
Defined.
