(* ===== verification/LineDelta.v ===== *)
(** * Line deltas of the relay stream

    [components/prime-relay/line-delta.ts]: a stream whose [message_update] lines go
    as copies of the session's previous update and inserted text, and the client that
    rebuilds the same bytes.

    A [Buffer] is a list of bytes, a string the list of its UTF-16 code units.  What the code takes from
    Node ([Buffer.toString], [Buffer.from], [JSON.stringify] of a delta's operations and
    [JSON.parse]) is the class [Node], with the documented facts the round trip needs.
    A [Transform] is its state and one step per chunk; its output is the bytes pushed. *)

From S2P Require Import Prelude.
From Stdlib Require Import Lia.
Local Open Scope nat_scope.
Local Open Scope list_scope.

Definition HEAD_BYTES : nat := 160.
Definition ANCHOR : nat := 16.
Definition SKIP_WINDOW : nat := 256.
Definition MAX_OPS : nat := 64.
Definition NEWLINE : Ascii.ascii := "010"%char.

(** ** Differences of two lines *)

(** A JavaScript string: its UTF-16 code units. *)
Abbreviation units := (list Z).
Definition to_units (s : string) : units := map code (to_chars s).

Inductive DeltaOp := Copy (start length : nat) | Insert (text : units).
#[export] Instance DeltaOp_eq : EqDecision DeltaOp.
Proof. solve_decision. Defined.

(** [s.slice(from, to)] for [from <= to]. *)
Definition slice (from to : nat) (s : units) : units := take (to - from) (drop from s).

(** The length of the common prefix of two texts. *)
Fixpoint common (a b : units) : nat :=
  match a, b with
  | x :: a', y :: b' => if bool_decide (x = y) then S (common a' b') else 0
  | _, _ => 0
  end.

Definition sameRun (base : units) (from baseEnd : nat) (line : units) (at_ lineEnd : nat) : nat :=
  common (slice from baseEnd base) (slice at_ lineEnd line).

(** [s.indexOf(pat, start)]. *)
Fixpoint index_of (pat s : units) : option nat :=
  if starts_with pat s then Some 0 else match s with [] => None | _ :: r => S <$> index_of pat r end.
Definition index_from (pat s : units) (start : nat) : option nat := (fun k => start + k) <$> index_of pat (drop start s).

(** The loop of [resync] over [skip], 4 at a time. *)
Fixpoint skip_search (fuel : nat) (base : units) (from baseEnd : nat) (line : units) (at_ lineEnd skip : nat) : option (nat * nat) :=
  match fuel with
  | O => None
  | S n =>
      if (skip <=? SKIP_WINDOW) && (at_ + skip + ANCHOR <=? lineEnd) then
        match index_from (slice (at_ + skip) (at_ + skip + ANCHOR) line) base from with
        | Some found => if found + ANCHOR <=? baseEnd then Some (at_ + skip, found)
                        else skip_search n base from baseEnd line at_ lineEnd (skip + 4)
        | None => skip_search n base from baseEnd line at_ lineEnd (skip + 4)
        end
      else None
  end.

Definition resync (base : units) (from baseEnd : nat) (line : units) (at_ lineEnd : nat) : option (nat * nat) :=
  let search := skip_search 66 base from baseEnd line at_ lineEnd 0 in
  if from + ANCHOR <=? baseEnd then
    match index_from (slice from (from + ANCHOR) base) line at_ with
    | Some found => if found + ANCHOR <=? lineEnd then Some (found, from) else search
    | None => search
    end
  else search.

(** The main loop of [diffLine]; [None] when the fuel runs out. *)
Fixpoint diff_loop (fuel : nat) (base : units) (baseEnd : nat) (line : units) (lineEnd at_ from : nat) (ops : list DeltaOp) : option (list DeltaOp) :=
  match fuel with
  | O => None
  | S n =>
      if at_ <? lineEnd then
        let run := sameRun base from baseEnd line at_ lineEnd in
        if (ANCHOR <=? run) || ((0 <? run) && (at_ =? 0))
        then diff_loop n base baseEnd line lineEnd (at_ + run) (from + run) (ops ++ [Copy from run])
        else
          match (if length ops <? MAX_OPS then resync base from baseEnd line at_ lineEnd else None) with
          | None => Some (ops ++ [Insert (slice at_ lineEnd line)])
          | Some (hat, hfrom) =>
              diff_loop n base baseEnd line lineEnd hat hfrom (if at_ <? hat then ops ++ [Insert (slice at_ hat line)] else ops)
          end
      else Some ops
  end.

Definition suffix_of (base line : units) : nat := common (reverse base) (reverse line).

Definition diffLine (base line : units) : option (list DeltaOp) :=
  let suffix := suffix_of base line in
  ops ← diff_loop (2 * length line + 2) base (length base - suffix) line (length line - suffix) 0 0 [];
  Some (ops ++ if 0 <? suffix then [Copy (length base - suffix) suffix] else []).

Definition apply_op (base : units) (op : DeltaOp) : units :=
  match op with Insert text => text | Copy start length => slice start (start + length) base end.
Definition applyOps (base : units) (ops : list DeltaOp) : units := flat_map (apply_op base) ops.

(** ** The newline-framed transform *)

Inductive Mode := MStart | MPass | MHold.
#[export] Instance Mode_eq : EqDecision Mode.
Proof. solve_decision. Defined.

(** The chunk's pieces, each up to and with a newline; the flag says whether it has one. *)
Fixpoint pieces (data : chars) : list (chars * bool) :=
  match data with
  | [] => []
  | c :: r =>
      if bool_decide (c = NEWLINE) then ([c], true) :: pieces r
      else match pieces r with
           | [] => [([c], false)]
           | (p, e) :: ps => (c :: p, e) :: ps
           end
  end.

Section Transform.
Context {St : Type} (wants : chars -> bool) (swap : St -> chars -> result (St * chars)).

Record Frame := mkFrame { mode : Mode; pending : chars; st : St; out : chars }.

Definition push_piece (f : Frame) (pe : chars * bool) : result Frame :=
  let '(piece, ended) := pe in
  match mode f with
  | MPass => Ok (mkFrame (if ended then MStart else MPass) (pending f) (st f) (out f ++ piece))
  | _ =>
      let all := pending f ++ piece in
      if ended then
        if bool_decide (mode f = MHold) || wants (take HEAD_BYTES all)
        then '(s, line) ← swap (st f) all; Ok (mkFrame MStart [] s (out f ++ line))
        else Ok (mkFrame MStart [] (st f) (out f ++ all))
      else if bool_decide (mode f = MStart) && (HEAD_BYTES <=? length all) then
        if wants (take HEAD_BYTES all) then Ok (mkFrame MHold all (st f) (out f))
        else Ok (mkFrame MPass [] (st f) (out f ++ all))
      else Ok (mkFrame (mode f) all (st f) (out f))
  end.

Fixpoint push_pieces (f : Frame) (ps : list (chars * bool)) : result Frame :=
  match ps with [] => Ok f | p :: r => f' ← push_piece f p; push_pieces f' r end.

(** [transform(data)], for each chunk in turn; then [flush]. *)
Fixpoint push_chunks (f : Frame) (chunks : list chars) : result Frame :=
  match chunks with [] => Ok f | c :: r => f' ← push_pieces f (pieces c); push_chunks f' r end.

Definition flush (f : Frame) : chars := out f ++ pending f.

Definition lineTransform (s : St) (chunks : list chars) : result chars :=
  f ← push_chunks (mkFrame MStart [] s []) chunks; Ok (flush f).

(** What it means: each whole line swapped when its head is wanted, the unfinished rest as it is. *)
Fixpoint by_lines (s : St) (o : chars) (ps : list (chars * bool)) : result chars :=
  match ps with
  | [] => Ok o
  | (line, true) :: r => if wants (take HEAD_BYTES line) then '(s', l) ← swap s line; by_lines s' (o ++ l) r else by_lines s (o ++ line) r
  | (tail, false) :: _ => Ok (o ++ tail)
  end.
End Transform.
#[global] Arguments mkFrame {St}.
#[global] Arguments Frame : clear implicits.

(** ** The two ends of the stream *)

(** What the code uses of Node's [Buffer] and [JSON]; [json_delta id ops] is
    [JSON.stringify({ type: DELTA_TYPE, activeSessionId: id, ops })]. *)
Class Node := {
  utf8_decode : chars -> units;
  utf8_encode : units -> chars;
  json_delta : units -> list DeltaOp -> units;
  json_parse : units -> option (units * list DeltaOp)
}.

(** A unit that is neither a quote nor a backslash. *)
Definition QUOTE : Z := 34.
Definition is_id (c : Z) : bool := negb (bool_decide (c = QUOTE)) && negb (bool_decide (c = 92%Z)).

Definition strip (p l : units) : option units := if starts_with p l then Some (drop (length p) l) else None.
Definition q : string := dquote.
Definition SESSION_PREFIX : units := to_units ("{" +:+ q +:+ "type" +:+ q +:+ ":" +:+ q +:+ "session_event" +:+ q +:+ "," +:+ q +:+ "activeSessionId" +:+ q +:+ ":" +:+ q)%string.
Definition EVENT_PREFIX : units := to_units (q +:+ "," +:+ q +:+ "event" +:+ q +:+ ":{" +:+ q +:+ "type" +:+ q +:+ ":" +:+ q)%string.
Definition DELTA_PREFIX : units := to_units ("{" +:+ q +:+ "type" +:+ q +:+ ":" +:+ q +:+ "prime_relay_line_delta" +:+ q +:+ "," +:+ q +:+ "activeSessionId" +:+ q +:+ ":" +:+ q)%string.

Inductive Update := UUpdate | UEnd.
#[export] Instance Update_eq : EqDecision Update.
Proof. solve_decision. Defined.

(** [SESSION_LINE.exec(head)]: the session id and the event's kind. *)
Definition SESSION_LINE (head : units) : option (units * Update) :=
  rest ← strip SESSION_PREFIX head;
  let id := take_while is_id rest in
  if bool_decide (id = []) then None
  else
    kind ← strip EVENT_PREFIX (drop_while is_id rest);
    if starts_with (to_units ("message_update" +:+ q)%string) kind then Some (id, UUpdate)
    else if starts_with (to_units ("message_end" +:+ q)%string) kind then Some (id, UEnd) else None.

(** [DELTA_LINE.test(head)]. *)
Definition DELTA_LINE (text : units) : bool :=
  match strip DELTA_PREFIX text with
  | Some rest => negb (bool_decide (take_while is_id rest = [])) && bool_decide (head (drop_while is_id rest) = Some QUOTE)
  | None => false
  end.

Section Stream.
Context `{Node}.

Definition Bases : Type := gmap units units.
Definition ends_line (line : chars) : bool := bool_decide (last line = Some NEWLINE).

Definition encode_wants (bytes : chars) : bool := match SESSION_LINE (utf8_decode bytes) with Some _ => true | None => false end.

Definition encode_swap (bases : Bases) (line : chars) : result (Bases * chars) :=
  let m := SESSION_LINE (utf8_decode (take HEAD_BYTES line)) in
  let id := match m with Some (id, _) => id | None => [] end in
  let is_end := match m with Some (_, UEnd) => true | _ => false end in
  if is_end || negb (ends_line line) then Ok (delete id bases, line)
  else
    let text := utf8_decode (removelast line) in
    let bases' := <[id := text]> bases in
    match bases !! id with
    | None => Ok (bases', line)
    | Some base =>
        if negb (bool_decide (utf8_encode text = removelast line)) then Ok (bases', line)
        else match diffLine base text with
             | None => Throw "diffLine does not end"
             | Some ops =>
                 let delta := json_delta id ops in
                 Ok (bases', if (length delta <? length text) && bool_decide (applyOps base ops = text)
                             then utf8_encode (delta ++ [code NEWLINE]) else line)
             end
    end.
Definition encodeLineDeltas (chunks : list chars) : result chars := lineTransform encode_wants encode_swap ∅ chunks.

Definition decode_wants (bytes : chars) : bool :=
  DELTA_LINE (utf8_decode bytes) || match SESSION_LINE (utf8_decode bytes) with Some _ => true | None => false end.

Definition decode_swap (bases : Bases) (line : chars) : result (Bases * chars) :=
  match SESSION_LINE (utf8_decode (take HEAD_BYTES line)) with
  | Some (id, kind) =>
      Ok (if bool_decide (kind = UEnd) || negb (ends_line line) then delete id bases
          else <[id := utf8_decode (removelast line)]> bases, line)
  | None =>
      match json_parse (utf8_decode line) with
      | None => Throw "Unexpected token in JSON"
      | Some (id, ops) =>
          match bases !! id with
          | None => Throw ("a line delta for session " +:+ of_chars (utf8_encode id) +:+ " came with no earlier update to apply it to")
          | Some base => let text := applyOps base ops in Ok (<[id := text]> bases, utf8_encode (text ++ [code NEWLINE]))
          end
      end
  end.
Definition decodeLineDeltas (chunks : list chars) : result chars := lineTransform decode_wants decode_swap ∅ chunks.
End Stream.

(** A session id as the daemon names sessions: printable ASCII. *)
Definition plain (c : Z) : bool := (32 <=? c)%Z && (c <=? 126)%Z && is_id c.
Definition ascii (c : Ascii.ascii) : bool := (code c <=? 127)%Z.

(** Documented facts of UTF-8 conversion and of JSON. *)
Class NodeLaws `{Node} := {
  decode_ascii a b : forallb ascii a = true -> utf8_decode (a ++ b) = map code a ++ utf8_decode b;
  encode_ascii a b : forallb ascii a = true -> utf8_encode (map code a ++ b) = a ++ utf8_encode b;
  decode_length b : length (utf8_decode b) <= length b;
  encode_newline s : utf8_encode (s ++ [code NEWLINE]) = utf8_encode s ++ [NEWLINE];
  json_head id ops : forallb plain id = true -> exists rest, json_delta id ops = DELTA_PREFIX ++ id ++ QUOTE :: rest;
  json_one_line id ops : forallb plain id = true -> NEWLINE ∉ utf8_encode (json_delta id ops);
  json_round_trip id ops : forallb plain id = true ->
    json_parse (utf8_decode (utf8_encode (json_delta id ops) ++ [NEWLINE])) = Some (id, ops)
}.

(** ** The difference is exact *)

Lemma common_spec (a b : units) : take (common a b) a = take (common a b) b /\ common a b <= length a /\ common a b <= length b.
Proof.
  revert b. induction a as [|x a IH]; intros [|y b]; cbn; try (split; [done|lia]).
  case_bool_decide; subst; cbn; [|split; [done|lia]]. destruct (IH b) as (-> & ? & ?). split; [done|lia].
Qed.

Lemma common_prefix (p a b : units) : length p <= common (p ++ a) (p ++ b).
Proof. induction p as [|x p IH]; cbn; [lia|]. rewrite bool_decide_eq_true_2 by done. lia. Qed.

Lemma slice_length from to (s : units) : to <= length s -> length (slice from to s) = to - from.
Proof. intros. unfold slice. rewrite length_take, length_drop. lia. Qed.

Lemma take_slice at_ to (s : units) : at_ <= to -> to <= length s -> take at_ s ++ slice at_ to s = take to s.
Proof.
  intros Hle Hl. unfold slice. replace to with (at_ + (to - at_)) at 2 by lia.
  by rewrite <- take_take_drop.
Qed.

Lemma starts_with_spec {A} `{EqDecision A} (p s : list A) : starts_with p s = true <-> exists r, s = p ++ r.
Proof.
  revert s. induction p as [|x p IH]; intros s; cbn.
  { split; [by exists s|done]. }
  destruct s as [|y s]; [split; [done|by intros [r Hr]]|].
  rewrite andb_true_iff, bool_decide_eq_true, IH. split; [intros [-> [r ->]]; by exists r|intros [r [= -> ->]]; eauto].
Qed.

Lemma index_of_spec pat s k : index_of pat s = Some k -> exists r, drop k s = pat ++ r.
Proof.
  revert k. induction s as [|x s IH]; cbn; intros k.
  - destruct (starts_with pat []) eqn:E; [|done]. intros [= <-]. by apply starts_with_spec.
  - destruct (starts_with pat (x :: s)) eqn:E; [intros [= <-]; by apply starts_with_spec|].
    destruct (index_of pat s) as [j|]; [|done]. intros [= <-]. cbn. by apply IH.
Qed.

Lemma index_from_spec pat s start k : index_from pat s start = Some k -> start <= k /\ exists r, drop k s = pat ++ r.
Proof.
  unfold index_from. destruct (index_of pat (drop start s)) as [j|] eqn:E; [|done]. intros [= <-]. split; [lia|].
  apply index_of_spec in E as [r Hr]. exists r. by rewrite <- drop_drop.
Qed.

(** Where [resync] lands, base and line agree for [ANCHOR] units. *)
Definition agree (base : units) (from : nat) (line : units) (at_ : nat) : Prop :=
  slice from (from + ANCHOR) base = slice at_ (at_ + ANCHOR) line.

Lemma slice_at (k n : nat) (s pat r : units) : drop k s = pat ++ r -> length pat = n -> slice k (k + n) s = pat.
Proof. intros Hd <-. unfold slice. replace (k + length pat - k) with (length pat) by lia. by rewrite Hd, take_app_length. Qed.

Lemma skip_search_ok fuel base from baseEnd line at_ lineEnd skip h f :
  lineEnd <= length line ->
  skip_search fuel base from baseEnd line at_ lineEnd skip = Some (h, f) ->
  at_ <= h /\ from <= f /\ h + ANCHOR <= lineEnd /\ f + ANCHOR <= baseEnd /\ agree base f line h.
Proof.
  intros Hl. revert skip. induction fuel as [|n IH]; cbn [skip_search]; intros skip; [done|].
  destruct ((skip <=? SKIP_WINDOW) && _) eqn:E; [|done]. apply andb_true_iff in E as [_ E]. apply Nat.leb_le in E.
  destruct (index_from _ base from) as [found|] eqn:Ei; [|apply IH].
  destruct (found + ANCHOR <=? baseEnd) eqn:Ef; [|apply IH]. intros [= <- <-]. apply Nat.leb_le in Ef.
  apply index_from_spec in Ei as [Hge [r Hr]]. split_and!; [lia|lia|lia|lia|].
  unfold agree. apply (slice_at found ANCHOR _ _ r Hr). rewrite slice_length by lia. lia.
Qed.

Lemma resync_ok base from baseEnd line at_ lineEnd h f :
  baseEnd <= length base -> lineEnd <= length line ->
  resync base from baseEnd line at_ lineEnd = Some (h, f) ->
  at_ <= h /\ from <= f /\ h + ANCHOR <= lineEnd /\ f + ANCHOR <= baseEnd /\ agree base f line h.
Proof.
  intros Hb Hl. unfold resync. destruct (from + ANCHOR <=? baseEnd) eqn:E; [|by apply skip_search_ok]. apply Nat.leb_le in E.
  destruct (index_from _ line at_) as [found|] eqn:Ei; [|by apply skip_search_ok].
  destruct (found + ANCHOR <=? lineEnd) eqn:Ef; [|by apply skip_search_ok]. apply Nat.leb_le in Ef. intros [= <- <-].
  apply index_from_spec in Ei as [Hge [r Hr]]. split_and!; [lia|lia|lia|lia|].
  unfold agree. symmetry. apply (slice_at found ANCHOR _ _ r Hr). rewrite slice_length by lia. lia.
Qed.

Lemma agree_run base from baseEnd line at_ lineEnd :
  from + ANCHOR <= baseEnd -> baseEnd <= length base -> at_ + ANCHOR <= lineEnd -> lineEnd <= length line ->
  agree base from line at_ -> ANCHOR <= sameRun base from baseEnd line at_ lineEnd.
Proof.
  intros Hf Hb Ha Hl Hag. unfold sameRun.
  assert (forall k to s, k + ANCHOR <= to -> to <= length s -> slice k to s = slice k (k + ANCHOR) s ++ slice (k + ANCHOR) to s) as Hsplit.
  { intros k to s H1 H2. unfold slice. replace (k + ANCHOR - k) with ANCHOR by lia. rewrite <- drop_drop.
    replace (to - k) with (ANCHOR + (to - (k + ANCHOR))) by lia. by rewrite take_take_drop. }
  rewrite (Hsplit from baseEnd base), (Hsplit at_ lineEnd line) by lia. rewrite Hag.
  etrans; [|apply common_prefix]. rewrite slice_length; lia.
Qed.

Lemma applyOps_app base a b : applyOps base (a ++ b) = applyOps base a ++ applyOps base b.
Proof. apply flat_map_app. Qed.

(** Every round of the loop copies a run or reaches one, so twice the line is enough fuel. *)
Lemma diff_loop_ok fuel base baseEnd line lineEnd at_ from ops :
  baseEnd <= length base -> lineEnd <= length line -> at_ <= lineEnd ->
  applyOps base ops = take at_ line ->
  2 * (lineEnd - at_) + (if ANCHOR <=? sameRun base from baseEnd line at_ lineEnd then 0 else 1) < fuel ->
  exists ops', diff_loop fuel base baseEnd line lineEnd at_ from ops = Some ops' /\ applyOps base ops' = take lineEnd line.
Proof.
  intros Hb Hl. revert at_ from ops. induction fuel as [|n IH]; intros at_ from ops Hat Happ Hfuel; [lia|].
  cbn [diff_loop]. destruct (at_ <? lineEnd) eqn:Ea.
  2: { apply Nat.ltb_ge in Ea. exists ops. split; [done|]. by replace lineEnd with at_ by lia. }
  apply Nat.ltb_lt in Ea. set (run := sameRun base from baseEnd line at_ lineEnd) in *.
  destruct ((ANCHOR <=? run) || _) eqn:Er.
  - assert (0 < run) as Hrun.
    { apply orb_true_iff in Er as [Er|Er]; [apply Nat.leb_le in Er; unfold ANCHOR in Er; lia|].
      apply andb_true_iff in Er as [Er _]. by apply Nat.ltb_lt in Er. }
    destruct (common_spec (slice from baseEnd base) (slice at_ lineEnd line)) as (Heq & H1 & H2).
    fold (sameRun base from baseEnd line at_ lineEnd) in Heq, H1, H2. fold run in Heq, H1, H2.
    assert (length (slice from baseEnd base) <= baseEnd - from) by (unfold slice; rewrite length_take; lia).
    rewrite slice_length in H2 by lia.
    assert (forall k to s, run <= to - k -> slice k (k + run) s = take run (slice k to s)) as Hs.
    { intros k to s Hk. unfold slice. rewrite take_take. f_equal. lia. }
    apply IH; [lia| |].
    + rewrite applyOps_app, Happ. cbn. rewrite app_nil_r. rewrite (Hs from baseEnd) by lia. rewrite Heq, <- (Hs at_ lineEnd) by lia.
      apply take_slice; lia.
    + destruct (ANCHOR <=? sameRun _ _ _ _ (at_ + run) _); lia.
  - destruct (if length ops <? MAX_OPS then _ else _) as [[h f]|] eqn:Eh.
    + assert (resync base from baseEnd line at_ lineEnd = Some (h, f)) as Hr by by destruct (length ops <? MAX_OPS).
      destruct (resync_ok _ _ _ _ _ _ _ _ Hb Hl Hr) as (Hh & Hf & Hh' & Hf' & Hag).
      pose proof (agree_run base f baseEnd line h lineEnd Hf' Hb Hh' Hl Hag) as Hrun.
      apply IH; [unfold ANCHOR in *; lia| |].
      * destruct (at_ <? h) eqn:E; [|apply Nat.ltb_ge in E; by replace h with at_ by lia].
        apply Nat.ltb_lt in E. rewrite applyOps_app, Happ. cbn. rewrite app_nil_r. apply take_slice; [lia|unfold ANCHOR in *; lia].
      * rewrite (proj2 (Nat.leb_le _ _) Hrun). apply orb_false_iff in Er as [Er _]. rewrite Er in Hfuel. lia.
    + eexists. split; [done|]. rewrite applyOps_app, Happ. cbn. rewrite app_nil_r. apply take_slice; lia.
Qed.

Lemma suffix_spec base line :
  drop (length base - suffix_of base line) base = drop (length line - suffix_of base line) line /\
  suffix_of base line <= length base /\ suffix_of base line <= length line.
Proof.
  unfold suffix_of. destruct (common_spec (reverse base) (reverse line)) as (Heq & H1 & H2). rewrite !length_reverse in *.
  split; [|done]. apply (f_equal reverse) in Heq.
  assert (forall n (s : units), reverse (take n (reverse s)) = drop (length s - n) s) as Hr.
  { intros n s. unfold reverse. by rewrite <- !rev_alt, firstn_rev, rev_involutive. }
  by rewrite !Hr in Heq.
Qed.

Lemma diffLine_exact base line : exists ops, diffLine base line = Some ops /\ applyOps base ops = line.
Proof.
  unfold diffLine. destruct (suffix_spec base line) as (Hs & H1 & H2). set (suffix := suffix_of base line) in *.
  destruct (diff_loop_ok (2 * length line + 2) base (length base - suffix) line (length line - suffix) 0 0 []) as (ops & -> & Happ);
    [lia|lia|lia|done|destruct (ANCHOR <=? _); lia|].
  eexists. split; [done|]. rewrite applyOps_app, Happ. destruct (0 <? suffix) eqn:E.
  - cbn. rewrite app_nil_r. unfold slice. replace (length base - suffix + suffix - (length base - suffix)) with suffix by lia.
    rewrite Hs, (take_ge (drop _ line)) by (rewrite length_drop; lia). apply take_drop.
  - apply Nat.ltb_ge in E. cbn. rewrite app_nil_r, take_ge; [done|lia].
Qed.

Lemma common_after a b : common (drop (common a b) a) (drop (common a b) b) = 0.
Proof.
  revert b. induction a as [|x a IH]; intros [|y b]; cbn; try done. case_bool_decide as E; cbn; [apply IH|].
  by rewrite bool_decide_eq_false_2.
Qed.

Lemma sameRun_after base from baseEnd line at_ lineEnd :
  let run := sameRun base from baseEnd line at_ lineEnd in sameRun base (from + run) baseEnd line (at_ + run) lineEnd = 0.
Proof.
  intros run. assert (forall k to (s : units), slice (k + run) to s = drop run (slice k to s)) as Hs.
  { intros k to s. unfold slice. rewrite <- drop_drop, skipn_firstn_comm. f_equal. lia. }
  unfold sameRun. rewrite !Hs. apply common_after.
Qed.

(** Only a run that starts at an anchor adds an operation past [MAX_OPS]. *)
Lemma diff_loop_short fuel base baseEnd line lineEnd at_ from ops ops' :
  length ops <= S MAX_OPS -> (0 < sameRun base from baseEnd line at_ lineEnd -> length ops <= MAX_OPS) ->
  diff_loop fuel base baseEnd line lineEnd at_ from ops = Some ops' -> length ops' <= MAX_OPS + 2.
Proof.
  revert at_ from ops. induction fuel as [|n IH]; cbn [diff_loop]; intros at_ from ops H1 H2; [done|].
  destruct (at_ <? lineEnd); [|intros [= <-]; lia]. destruct ((ANCHOR <=? _) || _) eqn:Er.
  - assert (length ops <= MAX_OPS) as H3.
    { apply H2. apply orb_true_iff in Er as [Er%Nat.leb_le|Er]; [unfold ANCHOR in Er; lia|].
      apply andb_true_iff in Er as [Er%Nat.ltb_lt _]. done. }
    apply IH; rewrite length_app; cbn [length]; [lia|]. rewrite sameRun_after. lia.
  - destruct (length ops <? MAX_OPS) eqn:El; [|intros [= <-]; rewrite length_app; cbn [length]; lia].
    apply Nat.ltb_lt in El. destruct (resync _ _ _ _ _ _) as [[h f]|]; [|intros [= <-]; rewrite length_app; cbn [length]; lia].
    apply IH; destruct (at_ <? h); rewrite ?length_app; cbn [length]; lia.
Qed.

(** [diffLine] always ends, what it returns applied to the base is the line again, and it is at most [MAX_OPS + 3] operations long. *)
Theorem diffLine_spec base line :
  exists ops, diffLine base line = Some ops /\ applyOps base ops = line /\ length ops <= MAX_OPS + 3.
Proof.
  destruct (diffLine_exact base line) as (ops & Hops & Happ). exists ops. split_and!; [done|done|].
  unfold diffLine in Hops. destruct (diff_loop _ _ _ _ _ _ _ _) as [ops'|] eqn:E; [|done]. injection Hops as <-.
  apply diff_loop_short in E; [|cbn; lia|cbn; lia]. rewrite length_app. destruct (0 <? _); cbn [length]; lia.
Qed.

(** ** The transform does not depend on the chunks *)

Lemma pieces_cons c x e ps :
  pieces c = (x, e) :: ps ->
  exists c', c = x ++ c' /\ ps = pieces c' /\
    (if e then exists b, x = b ++ [NEWLINE] /\ NEWLINE ∉ b else c' = [] /\ NEWLINE ∉ x).
Proof.
  revert x e ps. induction c as [|y c IH]; cbn; intros x e ps; [done|]. case_bool_decide as Hy.
  - intros [= <- <- <-]. exists c. split_and!; [done|done|]. exists []. subst. split; [done|set_solver].
  - destruct (pieces c) as [|[p e'] ps'] eqn:E.
    + intros [= <- <- <-]. exists []. assert (c = []) as ->.
      { destruct c as [|z c]; [done|]. cbn in E. case_bool_decide; [done|]. by destruct (pieces c) as [|[? ?] ?]. }
      split_and!; [done|done|done|]. rewrite list_elem_of_singleton. done.
    + intros [= <- <- <-]. destruct (IH _ _ _ eq_refl) as (c' & -> & -> & Hc). exists c'. split_and!; [done|done|].
      destruct e'; [destruct Hc as (b & -> & Hb); exists (y :: b); split; [done|set_solver]|destruct Hc; split; [done|set_solver]].
Qed.

Lemma pieces_line b r : NEWLINE ∉ b -> pieces (b ++ NEWLINE :: r) = (b ++ [NEWLINE], true) :: pieces r.
Proof.
  induction b as [|y b IH]; intros Hb; cbn; [by rewrite ?bool_decide_eq_true_2|].
  rewrite bool_decide_eq_false_2 by set_solver. by rewrite IH by set_solver.
Qed.

Lemma pieces_tail b : b <> [] -> NEWLINE ∉ b -> pieces b = [(b, false)].
Proof.
  induction b as [|y b IH]; intros Hne Hb; [done|]. cbn. rewrite bool_decide_eq_false_2 by set_solver.
  destruct b as [|z b]; [done|]. by rewrite IH by set_solver.
Qed.

Section Chunks.
Context {St : Type} (wants : chars -> bool) (swap : St -> chars -> result (St * chars)).

(** The frame of a transform that has put out [o] for whole lines and read [p] of the next. *)
Definition framed (f : Frame St) (s : St) (o p : chars) : Prop :=
  (NEWLINE ∉ p) /\ st f = s /\
  match mode f with
  | MStart => pending f = p /\ out f = o /\ length p < HEAD_BYTES
  | MHold => pending f = p /\ out f = o /\ HEAD_BYTES <= length p /\ wants (take HEAD_BYTES p) = true
  | MPass => pending f = [] /\ out f = o ++ p /\ HEAD_BYTES <= length p /\ wants (take HEAD_BYTES p) = false
  end.

Lemma push_unended f s o p x :
  framed f s o p -> NEWLINE ∉ x -> exists f', push_piece wants swap f (x, false) = Ok f' /\ framed f' s o (p ++ x).
Proof.
  intros (Hp & Hs & Hm) Hx. assert (NEWLINE ∉ p ++ x) as Hpx by set_solver. unfold push_piece.
  assert (HEAD_BYTES <= length p -> take HEAD_BYTES (p ++ x) = take HEAD_BYTES p) as Htake by (intros; by rewrite take_app_le).
  destruct (mode f) eqn:Em; cbn [mode pending st out].
  - destruct Hm as (-> & -> & Hl). rewrite bool_decide_eq_true_2 by done. cbn [andb].
    destruct (HEAD_BYTES <=? length (p ++ x)) eqn:E.
    + apply Nat.leb_le in E. destruct (wants _) eqn:Ew; eexists; (split; [done|]); by split_and!.
    + apply Nat.leb_gt in E. eexists. split; [done|]. by split_and!.
  - destruct Hm as (Hpe & -> & Hl & Hw). eexists. split; [done|]. split_and!; cbn [mode pending st out]; try done.
    split_and!; [done|by rewrite app_assoc|rewrite length_app; lia|by rewrite Htake].
  - destruct Hm as (-> & -> & Hl & Hw). rewrite (bool_decide_eq_false_2 (MHold = MStart)) by done. cbn [andb].
    eexists. split; [done|]. split_and!; cbn [mode pending st out]; try done.
    split_and!; [done|done|rewrite length_app; lia|by rewrite Htake].
Qed.

(** A line that ends: the transform does what [by_lines] does with it. *)
Definition line_step (s : St) (o line : chars) : result (St * chars) :=
  if wants (take HEAD_BYTES line) then '(s', l) ← swap s line; Ok (s', o ++ l) else Ok (s, o ++ line).

Lemma push_ended f s o p b :
  framed f s o p -> NEWLINE ∉ b ->
  match line_step s o (p ++ b ++ [NEWLINE]) with
  | Ok (s', o') => exists f', push_piece wants swap f (b ++ [NEWLINE], true) = Ok f' /\ framed f' s' o' []
  | Throw e => push_piece wants swap f (b ++ [NEWLINE], true) = Throw e
  end.
Proof.
  intros (Hp & Hs & Hm) Hb. unfold line_step, push_piece.
  assert (HEAD_BYTES <= length p -> take HEAD_BYTES (p ++ b ++ [NEWLINE]) = take HEAD_BYTES p) as Htake by (intros; by rewrite take_app_le).
  assert (forall s' o', framed (mkFrame MStart [] s' o') s' o' []) as Hnew.
  { intros. unfold framed. cbn. unfold HEAD_BYTES. split_and!; [set_solver|done|done|done|lia]. }
  destruct (mode f) eqn:Em.
  - destruct Hm as (-> & -> & Hl). rewrite Hs. rewrite (bool_decide_eq_false_2 (MStart = MHold)) by done. cbn [orb].
    destruct (wants _); [|eexists; split; [done|apply Hnew]].
    destruct (swap s _) as [[s' l]|e]; cbn; [eexists; split; [done|apply Hnew]|done].
  - destruct Hm as (Hpe & -> & Hl & Hw). rewrite Htake, Hw by done. rewrite Hs, Hpe. eexists. split; [done|].
    rewrite <- app_assoc. apply Hnew.
  - destruct Hm as (-> & -> & Hl & Hw). rewrite Htake, Hw by done. rewrite Hs, bool_decide_eq_true_2 by done. cbn [orb].
    destruct (swap s _) as [[s' l]|e]; cbn; [eexists; split; [done|apply Hnew]|done].
Qed.

Lemma by_lines_line s o b r : NEWLINE ∉ b ->
  by_lines wants swap s o (pieces (b ++ NEWLINE :: r)) =
  '(s', o') ← line_step s o (b ++ [NEWLINE]); by_lines wants swap s' o' (pieces r).
Proof.
  intros Hb. rewrite pieces_line by done. cbn [by_lines]. unfold line_step. destruct (wants _); [|done].
  by destruct (swap s _) as [[s' l]|e].
Qed.

Lemma push_chunk f s o p c :
  framed f s o p ->
  match push_pieces wants swap f (pieces c) with
  | Ok f' => exists s' o' p', framed f' s' o' p' /\
      forall rest, by_lines wants swap s o (pieces (p ++ c ++ rest)) = by_lines wants swap s' o' (pieces (p' ++ rest))
  | Throw e => forall rest, by_lines wants swap s o (pieces (p ++ c ++ rest)) = Throw e
  end.
Proof.
  remember (pieces c) as ps eqn:Hps. revert c f s o p Hps.
  induction ps as [|[x e] ps IH]; intros c f s o p Hps Hf; symmetry in Hps.
  - cbn. exists s, o, p. split; [done|]. intros rest. assert (c = []) as ->; [|done].
    destruct c as [|y c]; [done|]. cbn in Hps. case_bool_decide; [done|]. by destruct (pieces c) as [|[? ?] ?].
  - apply pieces_cons in Hps as (c' & -> & -> & Hx). cbn [push_pieces]. destruct e.
    + destruct Hx as (b & -> & Hb). pose proof (push_ended f s o p b Hf Hb) as Hpe.
      assert (NEWLINE ∉ p ++ b) as Hpb by (destruct Hf; set_solver).
      assert (forall rest, by_lines wants swap s o (pieces (p ++ ((b ++ [NEWLINE]) ++ c') ++ rest)) =
        '(s', o') ← line_step s o (p ++ b ++ [NEWLINE]); by_lines wants swap s' o' (pieces (c' ++ rest))) as Heq.
      { intros rest. rewrite (app_assoc p b [NEWLINE]). rewrite <- (by_lines_line s o (p ++ b) (c' ++ rest) Hpb).
        f_equal. f_equal. by rewrite <- !app_assoc. }
      destruct (line_step s o _) as [[s' o']|e].
      * destruct Hpe as (f' & -> & Hf'). cbn [mbind result_bind] in *.
        specialize (IH c' f' s' o' [] eq_refl Hf'). destruct (push_pieces wants swap f' (pieces c')) as [f''|e'].
        -- destruct IH as (s'' & o'' & p'' & Hf'' & Heq'). exists s'', o'', p''. split; [done|]. intros rest. by rewrite Heq, <- Heq'.
        -- intros rest. by rewrite Heq, <- IH with (rest := rest).
      * rewrite Hpe. cbn [mbind result_bind] in *. done.
    + destruct Hx as [-> Hx]. destruct (push_unended f s o p x Hf Hx) as (f' & -> & Hf'). cbn.
      exists s, o, (p ++ x). split; [done|]. intros rest. by rewrite app_nil_r, <- app_assoc.
Qed.

(** The transform's output is a matter of the lines alone. *)
Lemma lineTransform_lines s chunks : lineTransform wants swap s chunks = by_lines wants swap s [] (pieces (concat chunks)).
Proof.
  unfold lineTransform. assert (framed (mkFrame MStart [] s []) s [] []) as Hf.
  { unfold framed. cbn. unfold HEAD_BYTES. split_and!; [set_solver|done|done|done|lia]. }
  revert Hf. generalize (mkFrame MStart [] s [] : Frame St) as f. intros f Hf.
  change (concat chunks) with ([] ++ concat chunks). revert Hf. generalize ([] : chars) at 2 4 as p. generalize ([] : chars) as o. revert f s.
  induction chunks as [|c chunks IH]; intros f s o p Hf; cbn [push_chunks concat].
  - cbn. unfold flush. destruct Hf as (Hp & Hs & Hm). rewrite app_nil_r.
    destruct p as [|y p].
    + destruct (mode f); [destruct Hm as (-> & -> & _)|destruct Hm as (_ & _ & Hl & _)|destruct Hm as (_ & _ & Hl & _)]; cbn in *; [by rewrite app_nil_r|unfold HEAD_BYTES in *; lia..].
    + rewrite (pieces_tail (y :: p)) by done. cbn.
      destruct (mode f); [destruct Hm as (-> & -> & _)|destruct Hm as (-> & -> & _)|destruct Hm as (-> & -> & _)]; by rewrite ?app_nil_r.
  - pose proof (push_chunk f s o p c Hf) as Hc. destruct (push_pieces wants swap f (pieces c)) as [f'|e]; cbn [mbind result_bind].
    + destruct Hc as (s' & o' & p' & Hf' & Heq). rewrite Heq. by apply IH.
    + by rewrite Hc.
Qed.
End Chunks.

(** ** The stream *)

Lemma strip_Some p l r : strip p l = Some r <-> l = p ++ r.
Proof.
  unfold strip. destruct (starts_with p l) eqn:E.
  - apply starts_with_spec in E as [x ->]. rewrite drop_app_length. split; [by intros [= ->]|intros H; by simplify_list_eq].
  - split; [done|]. intros ->. assert (starts_with p (p ++ r) = true) by (apply starts_with_spec; by exists r). congruence.
Qed.

(** A session line's head names the id between two fixed texts. *)
Lemma session_head h id kind :
  SESSION_LINE h = Some (id, kind) -> id <> [] /\ exists r, h = SESSION_PREFIX ++ id ++ EVENT_PREFIX ++ r.
Proof.
  unfold SESSION_LINE. destruct (strip SESSION_PREFIX h) as [rest|] eqn:E; [|done]. apply strip_Some in E as ->. cbn [mbind option_bind].
  case_bool_decide as Hid; [done|]. destruct (strip EVENT_PREFIX _) as [k|] eqn:E; [|done]. apply strip_Some in E. cbn [mbind option_bind].
  intros Hk. assert (take_while is_id rest = id) as <- by (destruct (starts_with _ k); [congruence|destruct (starts_with _ k); congruence]).
  split; [done|]. exists k. by rewrite <- E, take_drop_while.
Qed.

Lemma delta_not_session r : SESSION_LINE (DELTA_PREFIX ++ r) = None.
Proof. reflexivity. Qed.

Lemma plain_is_id id : forallb plain id = true -> forallb is_id id = true.
Proof.
  intros H. apply forallb_forall. intros c Hc. apply (proj1 (forallb_forall _ _) H) in Hc.
  unfold plain in Hc. by apply andb_true_iff in Hc as [_ ?].
Qed.

Lemma delta_line_head id r : id <> [] -> forallb plain id = true -> DELTA_LINE (DELTA_PREFIX ++ id ++ QUOTE :: r) = true.
Proof.
  intros Hne Hid. unfold DELTA_LINE. rewrite (proj2 (strip_Some DELTA_PREFIX _ (id ++ QUOTE :: r)) eq_refl).
  destruct (take_while_app is_id id (QUOTE :: r)) as [-> ->]; [by apply plain_is_id|by intros x [= <-]|].
  rewrite bool_decide_eq_false_2 by done. reflexivity.
Qed.

(** The bytes of printable ASCII units. *)
Definition to_byte (c : Z) : Ascii.ascii := Ascii.ascii_of_N (Z.to_N c).
Definition printable (c : Z) : bool := (32 <=? c)%Z && (c <=? 126)%Z.

Lemma printable_byte l : forallb printable l = true -> map code (map to_byte l) = l /\ forallb ascii (map to_byte l) = true.
Proof.
  induction l as [|c l IH]; [done|]. cbn. intros H. apply andb_true_iff in H as [Hc H]. destruct (IH H) as [-> ->].
  assert (code (to_byte c) = c) as Hcode.
  { unfold code, to_byte. unfold printable in Hc. apply andb_true_iff in Hc as [H1%Z.leb_le H2%Z.leb_le].
    rewrite Ascii.N_ascii_embedding; lia. }
  unfold ascii. rewrite Hcode. split; [done|]. unfold printable in Hc. apply andb_true_iff in Hc as [_ H2%Z.leb_le]. rewrite andb_true_r. apply Z.leb_le. lia.
Qed.

Section RoundTrip.
Context `{NodeLaws}.

(** A line of the daemon: the session it names is plain, and it is no delta line itself. *)
Definition daemon_line (line : chars) : bool :=
  let head := utf8_decode (take HEAD_BYTES line) in
  negb (DELTA_LINE head) && match SESSION_LINE head with Some (id, _) => forallb plain id | None => true end.

Lemma delta_head id ops :
  id <> [] -> forallb plain id = true -> length DELTA_PREFIX + length id + 1 <= HEAD_BYTES ->
  exists r, utf8_decode (take HEAD_BYTES (utf8_encode (json_delta id ops) ++ [NEWLINE])) = DELTA_PREFIX ++ id ++ QUOTE :: r.
Proof.
  intros Hne Hid Hlen. destruct (json_head id ops Hid) as [rest ->].
  assert (forallb printable (DELTA_PREFIX ++ id ++ [QUOTE]) = true) as Hp.
  { rewrite !forallb_app. change (forallb printable DELTA_PREFIX) with true. cbn [andb forallb].
    change (printable QUOTE) with true. rewrite andb_true_r. apply forallb_forall. intros c Hc.
    apply (proj1 (forallb_forall _ _) Hid) in Hc. unfold plain in Hc. by apply andb_true_iff in Hc as [? _]. }
  destruct (printable_byte _ Hp) as [Hcode Hasc]. set (P := map to_byte _) in *.
  replace (DELTA_PREFIX ++ id ++ QUOTE :: rest) with (map code P ++ rest) by (rewrite Hcode, <- !app_assoc; done).
  rewrite encode_ascii by done. rewrite <- app_assoc.
  assert (length P <= HEAD_BYTES) as HP.
  { unfold P. rewrite length_map, !length_app. cbn [length]. lia. }
  rewrite take_app_ge by done. rewrite decode_ascii by done. rewrite Hcode. eexists. rewrite <- !app_assoc. done.
Qed.

Lemma session_fits line id kind :
  SESSION_LINE (utf8_decode (take HEAD_BYTES line)) = Some (id, kind) ->
  id <> [] /\ length DELTA_PREFIX + length id + 1 <= HEAD_BYTES.
Proof.
  intros Hs. apply session_head in Hs as [Hne [r Hr]]. split; [done|].
  pose proof (decode_length (take HEAD_BYTES line)) as Hl. rewrite Hr, !length_app, length_take in Hl.
  change (length DELTA_PREFIX) with 52. change (length SESSION_PREFIX) with 43 in Hl. change (length EVENT_PREFIX) with 19 in Hl. lia.
Qed.

(** One whole line: the encoder's line makes the decoder give back the bytes and keep the same base. *)
Lemma line_relay s o b :
  daemon_line (b ++ [NEWLINE]) = true -> NEWLINE ∉ b ->
  exists s' b', (NEWLINE ∉ b') /\
    line_step encode_wants encode_swap s o (b ++ [NEWLINE]) = Ok (s', o ++ b' ++ [NEWLINE]) /\
    forall o2, line_step decode_wants decode_swap s o2 (b' ++ [NEWLINE]) = Ok (s', o2 ++ b ++ [NEWLINE]).
Proof.
  intros Hd Hb. set (line := b ++ [NEWLINE]) in *. unfold daemon_line in Hd. apply andb_true_iff in Hd as [Hnd%negb_true_iff Hp].
  assert (ends_line line = true) as Hend by (unfold ends_line, line; by rewrite last_snoc, bool_decide_eq_true_2).
  assert (removelast line = b) as Hrl by apply removelast_last.
  unfold line_step. destruct (SESSION_LINE (utf8_decode (take HEAD_BYTES line))) as [[id kind]|] eqn:Es.
  2: { exists s, b. fold line. split; [done|]. unfold encode_wants, decode_wants. rewrite Es, Hnd. done. }
  destruct (session_fits _ _ _ Es) as [Hne Hfit].
  assert (decode_wants (take HEAD_BYTES line) = true) as Hdw by (unfold decode_wants; rewrite Es; apply orb_true_r).
  assert (encode_wants (take HEAD_BYTES line) = true) as -> by (unfold encode_wants; by rewrite Es).
  assert (forall o2, (if decode_wants (take HEAD_BYTES line) then '(s', l) ← decode_swap s line; Ok (s', o2 ++ l) else Ok (s, o2 ++ line)) =
    Ok (if bool_decide (kind = UEnd) then delete id s else <[id := utf8_decode b]> s, o2 ++ line)) as Hwhole.
  { intros o2. rewrite Hdw. unfold decode_swap. rewrite Es, Hend, Hrl. cbn [negb]. by rewrite orb_false_r. }
  unfold encode_swap. rewrite Es, Hend, Hrl. cbn [negb]. rewrite orb_false_r.
  destruct kind; cbn [mbind result_bind].
  2: { eexists _, b. fold line. split; [done|]. split; [done|]. exact Hwhole. }
  change (bool_decide (UUpdate = UEnd)) with false in Hwhole. cbn iota in Hwhole.
  destruct (s !! id) as [base|] eqn:Eb; [|eexists _, b; fold line; by split_and!].
  case_bool_decide as Henc; cbn [negb]; [|eexists _, b; fold line; by split_and!].
  destruct (diffLine_exact base (utf8_decode b)) as (ops & -> & Hops). cbn [mbind result_bind].
  destruct ((length (json_delta id ops) <? _) && _); [|eexists _, b; fold line; by split_and!].
  rewrite encode_newline. eexists _, (utf8_encode (json_delta id ops)). split; [by apply json_one_line|]. split; [done|].
  intros o2. destruct (delta_head id ops Hne Hp Hfit) as [r Hr].
  unfold decode_wants, decode_swap. rewrite Hr, delta_line_head, delta_not_session, json_round_trip, Eb by done. cbn [orb mbind result_bind].
  rewrite Hops, encode_newline, Henc. done.
Qed.

Lemma relay_lines ps : forall src s o,
  pieces src = ps -> Forall (fun pe => pe.2 = true -> daemon_line pe.1 = true) ps ->
  exists res, by_lines encode_wants encode_swap s o ps = Ok (o ++ res) /\
    forall o2, by_lines decode_wants decode_swap s o2 (pieces res) = Ok (o2 ++ src).
Proof.
  induction ps as [|[x e] ps IH]; intros src s o Hps HF.
  - destruct src as [|y c]; [exists []; split; cbn; intros; by rewrite app_nil_r|].
    cbn in Hps. case_bool_decide; [done|]. by destruct (pieces c) as [|[? ?] ?].
  - pose proof Hps as Hps'. apply pieces_cons in Hps' as (c' & -> & -> & Hx). apply Forall_cons in HF as [Hx' HF]. destruct e.
    + destruct Hx as (b & -> & Hb). destruct (line_relay s o b (Hx' eq_refl) Hb) as (s' & b' & Hb' & He & Hdec).
      destruct (IH c' s' (o ++ b' ++ [NEWLINE]) eq_refl HF) as (res & Hres & Hback).
      exists (b' ++ NEWLINE :: res). split.
      * rewrite <- Hps, <- app_assoc. cbn [app]. rewrite by_lines_line, He by done. cbn [mbind result_bind]. rewrite Hres.
        by rewrite <- !app_assoc.
      * intros o2. rewrite by_lines_line, Hdec by done. cbn [mbind result_bind]. rewrite Hback. by rewrite <- !app_assoc.
    + destruct Hx as [-> Hx]. exists x. split; [done|]. intros o2.
      rewrite app_nil_r in *. by rewrite Hps.
Qed.

(** C9: the relay's delta stream loses nothing.  Whatever bytes the daemon sends, in whatever chunks,
    when its session ids are printable and it sends no delta lines of its own: the encoder never
    fails, and the decoder, fed the encoder's output in any other chunks, gives the daemon's bytes back exactly. *)
Theorem delta_stream_roundtrip chunks :
  Forall (fun pe => pe.2 = true -> daemon_line pe.1 = true) (pieces (concat chunks)) ->
  exists relayed, encodeLineDeltas chunks = Ok relayed /\
    forall received, concat received = relayed -> decodeLineDeltas received = Ok (concat chunks).
Proof.
  intros HF. unfold encodeLineDeltas, decodeLineDeltas.
  destruct (relay_lines _ (concat chunks) ∅ [] eq_refl HF) as (res & Hres & Hback).
  exists res. rewrite lineTransform_lines. split; [done|]. intros received <-. rewrite lineTransform_lines. apply (Hback []).
Qed.
End RoundTrip.

(** A Node whose texts are Latin-1 and whose JSON spells a delta's operations in binary digits. *)
Definition DeltaOp_sum (op : DeltaOp) : (nat * nat) + units := match op with Copy a n => inl (a, n) | Insert t => inr t end.
Definition DeltaOp_of (x : (nat * nat) + units) : DeltaOp := match x with inl (a, n) => Copy a n | inr t => Insert t end.
#[export] Instance DeltaOp_countable : Countable DeltaOp.
Proof. refine (inj_countable' DeltaOp_sum DeltaOp_of _). by intros []. Defined.

Fixpoint bits (p : positive) : units := match p with xH => [] | xO p => 48%Z :: bits p | xI p => 49%Z :: bits p end.
Fixpoint of_bits (u : units) : option positive :=
  match u with
  | 48 :: r => xO <$> of_bits r
  | 49 :: r => xI <$> of_bits r
  | [125; 10] => Some xH
  | _ => None
  end%Z.

#[export] Instance latin1 : Node := {
  utf8_decode := map code;
  utf8_encode := map to_byte;
  json_delta id ops := DELTA_PREFIX ++ id ++ QUOTE :: bits (encode ops) ++ [125%Z];
  json_parse u :=
    rest ← strip DELTA_PREFIX u;
    p ← of_bits (tail (drop_while is_id rest));
    ops ← decode p; Some (take_while is_id rest, ops)
}.

Lemma of_bits_bits p : of_bits (bits p ++ [125; 10]%Z) = Some p.
Proof. induction p as [p IH|p IH|]; cbn; [by rewrite IH|by rewrite IH|done]. Qed.
Lemma bits_printable p : forallb printable (bits p) = true.
Proof. by induction p. Qed.
Lemma code_byte b : to_byte (code b) = b.
Proof. unfold to_byte, code. by rewrite N2Z.id, Ascii.ascii_N_embedding. Qed.
Lemma latin1_printable id ops : forallb plain id = true -> forallb printable (json_delta id ops) = true.
Proof.
  intros Hid. cbn [json_delta latin1]. rewrite !forallb_app. cbn [forallb]. rewrite forallb_app, bits_printable.
  change (forallb printable DELTA_PREFIX) with true. cbn [andb]. change (printable QUOTE && (forallb printable [125%Z])) with true.
  rewrite andb_true_r. apply forallb_forall. intros c Hc. apply (proj1 (forallb_forall _ _) Hid) in Hc. unfold plain in Hc. by apply andb_true_iff in Hc as [? _].
Qed.

#[export] Instance latin1_laws : NodeLaws.
Proof.
  split.
  - intros a b _. apply map_app.
  - intros a b _. cbn. rewrite map_app, map_map. f_equal. induction a; cbn; [done|]. by rewrite code_byte, IHa.
  - intros b. cbn. by rewrite length_map.
  - intros s. cbn. by rewrite map_app.
  - intros id ops _. by eexists.
  - intros id ops Hid Hin. apply (list_elem_of_fmap_1 to_byte) in Hin as (c & Hc & Hin).
    pose proof (latin1_printable id ops Hid) as Hp. apply list_elem_of_In in Hin. apply (proj1 (forallb_forall _ _) Hp) in Hin.
    apply andb_true_iff in Hin as [H1%Z.leb_le H2%Z.leb_le].
    assert (code (to_byte c) = c) as E; [|rewrite <- Hc in E; change (code NEWLINE) with 10%Z in E; lia].
    unfold code, to_byte. rewrite Ascii.N_ascii_embedding; lia.
  - intros id ops Hid. change (utf8_encode ?x) with (map to_byte x). change (utf8_decode ?x) with (map code x).
    rewrite map_app. destruct (printable_byte _ (latin1_printable id ops Hid)) as [-> _]. cbn [json_parse json_delta latin1].
    rewrite <- !app_assoc. cbn [app]. rewrite (proj2 (strip_Some _ _ _) eq_refl). cbn [mbind option_bind].
    destruct (take_while_app is_id id (QUOTE :: (bits (encode ops) ++ [125%Z]) ++ map code [NEWLINE])) as [-> ->];
      [by apply plain_is_id|by intros x [= <-]|].
    cbn [tail]. rewrite <- app_assoc. change ([125%Z] ++ map code [NEWLINE]) with [125; 10]%Z. rewrite of_bits_bits. cbn [mbind option_bind].
    by rewrite decode_encode.
Qed.

(** Two updates of one session, cut in the middle of lines: the second goes as a delta. *)
Definition update_line (body : string) : chars :=
  to_chars ("{" +:+ q +:+ "type" +:+ q +:+ ":" +:+ q +:+ "session_event" +:+ q +:+ "," +:+ q +:+ "activeSessionId" +:+ q +:+ ":" +:+ q
    +:+ "s1" +:+ q +:+ "," +:+ q +:+ "event" +:+ q +:+ ":{" +:+ q +:+ "type" +:+ q +:+ ":" +:+ q +:+ "message_update" +:+ q +:+ "," +:+ body)%string.
Definition filler : string := of_chars (replicate 250 "x"%char).
Definition two_updates : list chars :=
  [update_line ("one" +:+ filler +:+ "}}" +:+ nl)%string ++ take 40 (update_line ("two" +:+ filler +:+ "}}" +:+ nl)%string);
   drop 40 (update_line ("two" +:+ filler +:+ "}}" +:+ nl)%string) ++ to_chars "rest"].

Lemma delta_stream_roundtrip_witness :
  exists relayed, encodeLineDeltas two_updates = Ok relayed /\ length relayed < length (concat two_updates) /\
    decodeLineDeltas (map (fun c => [c]) relayed) = Ok (concat two_updates).
Proof.
  assert (Forall (fun pe => pe.2 = true -> daemon_line pe.1 = true) (pieces (concat two_updates))) as HF.
  { repeat (apply Forall_cons; split; [vm_compute; done|]). apply Forall_nil_2. }
  destruct (delta_stream_roundtrip two_updates HF) as (relayed & He & Hd). exists relayed. split; [done|]. split.
  - vm_compute in He. injection He as <-. vm_compute. lia.
  - apply Hd. clear. induction relayed as [|c r IH]; cbn; [done|]. by rewrite IH.
Defined.
