(* ===== verification/Lease.v ===== *)
(** * Session leases

    [packages/pi-host/src/lease.ts]: one writer per session file.  [takeLock] is a loop of
    system calls, so it is a machine with one step per call ([tstep]); run alone it is the
    function [takeLock], and two of them interleaved are a schedule of steps.  [Leases] is the
    map of one host process, [leaseExtension] the held path of one CLI process, and [World]
    puts processes that start, take, release and die around one file system.

    The lock files are a map from path to the open file they name, with its inode number: a
    write through a descriptor reaches the file it was opened for, even after an unlink.
    Errors of the file system other than [EEXIST] and [ENOENT] are outside the model. *)

From S2P Require Import Prelude.

Record LockRecord := mkLock { lk_pid : Z; lk_owner : string; lk_sessionId : string; lk_at : Z }.
#[export] Instance LockRecord_eq : EqDecision LockRecord.
Proof. solve_decision. Defined.

(** [Torn] is the empty file between [openSync] and [writeSync]: it does not parse. *)
Inductive Content := Torn | Written (r : LockRecord).
#[export] Instance Content_eq : EqDecision Content.
Proof. solve_decision. Defined.

Record FS := mkFS { locks : gmap string (nat * Content); next_inode : nat }.

Definition lockPathOf (sessionPath : string) : string := (sessionPath +:+ ".lock")%string.

Definition readLock (sessionPath : string) (fs : FS) : option LockRecord :=
  match locks fs !! lockPathOf sessionPath with Some (_, Written r) => Some r | _ => None end.

Definition unlink (path : string) (fs : FS) : FS := mkFS (delete path (locks fs)) (next_inode fs).

Section TakeLock.
(** [alive] of every other process, this process's id, the file and the record. *)
Context (running : Z -> bool) (pid : Z) (sessionPath : string) (record : LockRecord) (ownedHere : bool).

Definition alive (p : Z) : bool := (p =? pid) || running p.

Definition stale (holder : option LockRecord) : bool :=
  match holder with
  | None => true
  | Some h => negb (alive (lk_pid h)) || ((lk_pid h =? pid) && negb ownedHere)
  end.

Inductive Phase :=
| POpen (attempt : nat)
| PWrite (inode : nat)
| PExists (attempt : nat)
| PUnlink (attempt : nat)
| PTaken
| PLocked (holder : option LockRecord).

(** One system call of [takeLock]. *)
Definition tstep (p : Phase) (fs : FS) : Phase * FS :=
  let lock := lockPathOf sessionPath in
  match p with
  | POpen attempt =>
      if (attempt <? 3)%nat then
        match locks fs !! lock with
        | None => (PWrite (next_inode fs), mkFS (<[lock := (next_inode fs, Torn)]> (locks fs)) (S (next_inode fs)))
        | Some _ => (PExists attempt, fs)
        end
      else (PLocked (readLock sessionPath fs), fs)
  | PWrite inode =>
      (PTaken, match locks fs !! lock with
               | Some (i, _) => if bool_decide (i = inode) then mkFS (<[lock := (i, Written record)]> (locks fs)) (next_inode fs) else fs
               | None => fs
               end)
  | PExists attempt =>
      let holder := readLock sessionPath fs in
      if stale holder then (PUnlink attempt, fs) else (PLocked holder, fs)
  | PUnlink attempt => (POpen (S attempt), unlink lock fs)
  | PTaken | PLocked _ => (p, fs)
  end.

Fixpoint trun (fuel : nat) (p : Phase) (fs : FS) : Phase * FS :=
  match fuel with O => (p, fs) | S n => let '(p', fs') := tstep p fs in trun n p' fs' end.

(** Three attempts of at most three calls, and the read of the last error: [TAKE_FUEL] steps reach the end. *)
Definition TAKE_FUEL : nat := 10.
Definition takeLock (fs : FS) : Phase * FS := trun TAKE_FUEL (POpen 0) fs.
End TakeLock.

Definition dropLock (pid : Z) (sessionPath : string) (fs : FS) : FS :=
  match readLock sessionPath fs with
  | Some h => if negb (lk_pid h =? pid) then fs else unlink (lockPathOf sessionPath) fs
  | None => unlink (lockPathOf sessionPath) fs
  end.

(** ** The lease map of one host process *)

Section Leases.
Context (running : Z -> bool) (pid now : Z) (real : string -> string) (owner : string).

Inductive Refusal := AlreadyOpen (sessionId : string) | OpenElsewhere (holder : option LockRecord).
#[export] Instance Refusal_eq : EqDecision Refusal.
Proof. solve_decision. Defined.

Definition acquire (sessionPath sessionId : string) (held : gmap string string) (fs : FS) : (Refusal + string) * gmap string string * FS :=
  let r := real sessionPath in
  match held !! r with
  | Some holder => (inl (AlreadyOpen holder), held, fs)
  | None =>
      match takeLock running pid r (mkLock pid owner sessionId now) false fs with
      | (PTaken, fs') => (inr r, <[r := sessionId]> held, fs')
      | (PLocked h, fs') => (inl (OpenElsewhere h), held, fs')
      | (_, fs') => (inl (OpenElsewhere None), held, fs')
      end
  end.

Definition holderOf (dir_exists : bool) (sessionPath : string) (held : gmap string string) : option string :=
  if dir_exists then held !! real sessionPath else None.

Definition release (realPath : string) (held : gmap string string) (fs : FS) : gmap string string * FS :=
  match held !! realPath with
  | None => (held, fs)
  | Some _ => (delete realPath held, dropLock pid realPath fs)
  end.

Definition releaseAll (held : gmap string string) (fs : FS) : gmap string string * FS :=
  fold_left (fun hf path => release path hf.1 hf.2) (map fst (map_to_list held)) (held, fs).

(** [session_start] and [session_shutdown] of [leaseExtension]; the notice is the refusal. *)
Definition session_start (file : option string) (sessionId : string) (held : option string) (fs : FS) : option (option LockRecord) * option string * FS :=
  match file with
  | None => (None, held, fs)
  | Some f =>
      match takeLock running pid (real f) (mkLock pid "pi-cli" sessionId now) false fs with
      | (PTaken, fs') => (None, Some (real f), fs')
      | (PLocked h, fs') => (Some h, held, fs')
      | (_, fs') => (Some None, held, fs')
      end
  end.

Definition session_shutdown (held : option string) (fs : FS) : option string * FS :=
  match held with Some p => (None, dropLock pid p fs) | None => (None, fs) end.
End Leases.

(** ** Processes around one file system *)

Inductive Process := Host (held : gmap string string) | Cli (held : option string).

Record World := mkWorld { procs : gmap Z Process; disk : FS }.

Definition running (w : World) (p : Z) : bool := bool_decide (is_Some (procs w !! p)).

Definition holds (w : World) (p : Z) (path : string) : Prop :=
  match procs w !! p with
  | Some (Host held) => is_Some (held !! path)
  | Some (Cli held) => held = Some path
  | None => False
  end.

Section System.
Context (real : string -> string).

Inductive wstep : World -> World -> Prop :=
| w_spawn w p pr : procs w !! p = None -> pr = Host ∅ \/ pr = Cli None -> wstep w (mkWorld (<[p := pr]> (procs w)) (disk w))
| w_die w p : wstep w (mkWorld (delete p (procs w)) (disk w))
| w_acquire w p now owner path sid held r held' fs' :
    procs w !! p = Some (Host held) -> acquire (running w) p now real owner path sid held (disk w) = (r, held', fs') ->
    wstep w (mkWorld (<[p := Host held']> (procs w)) fs')
| w_release w p path held held' fs' :
    procs w !! p = Some (Host held) -> release p path held (disk w) = (held', fs') ->
    wstep w (mkWorld (<[p := Host held']> (procs w)) fs')
| w_releaseAll w p held held' fs' :
    procs w !! p = Some (Host held) -> releaseAll p held (disk w) = (held', fs') ->
    wstep w (mkWorld (<[p := Host held']> (procs w)) fs')
| w_start w p now file sid held r held' fs' :
    procs w !! p = Some (Cli held) -> session_start (running w) p now real file sid held (disk w) = (r, held', fs') ->
    wstep w (mkWorld (<[p := Cli held']> (procs w)) fs')
| w_shutdown w p held held' fs' :
    procs w !! p = Some (Cli held) -> session_shutdown p held (disk w) = (held', fs') ->
    wstep w (mkWorld (<[p := Cli held']> (procs w)) fs').

(** Any lock files may be lying around when the first process starts. *)
Inductive wreachable : World -> Prop :=
| w_init fs : wreachable (mkWorld ∅ fs)
| w_step w w' : wreachable w -> wstep w w' -> wreachable w'.
End System.

(** ** One opener at a time *)

Lemma lockPathOf_inj a b : lockPathOf a = lockPathOf b -> a = b.
Proof.
  unfold lockPathOf. assert (forall s t, to_chars (s +:+ t) = to_chars s ++ to_chars t) as Happ.
  { intros s t. induction s as [|c s IH]; [done|].
    change (to_chars (String.String c s +:+ t)) with (c :: to_chars (s +:+ t)%string). by rewrite IH. }
  intros H%(f_equal to_chars). rewrite !Happ in H. apply app_inv_tail in H. by rewrite <- (of_to_chars a), H, of_to_chars.
Qed.

Section Alone.
Context (run : Z -> bool) (pid : Z) (path : string) (record : LockRecord) (own : bool).

Definition taken (fs : FS) : FS := mkFS (<[lockPathOf path := (next_inode fs, Written record)]> (locks fs)) (S (next_inode fs)).

Lemma trun_S n p fs : trun run pid path record own (S n) p fs = let '(p', fs') := tstep run pid path record own p fs in trun run pid path record own n p' fs'.
Proof. done. Qed.
Lemma trun_end n p fs : (match p with PTaken | PLocked _ => True | _ => False end) -> trun run pid path record own n p fs = (p, fs).
Proof. intros Hp. induction n as [|n IH]; [done|]. by destruct p. Qed.

Lemma open_absent n attempt fs : (attempt < 3)%nat -> locks fs !! lockPathOf path = None ->
  trun run pid path record own (S (S n)) (POpen attempt) fs = (PTaken, taken fs).
Proof.
  intros Ha Hl. cbn [trun tstep]. rewrite (proj2 (Nat.ltb_lt _ _) Ha), Hl. cbn [trun tstep locks next_inode].
  rewrite lookup_insert_eq, bool_decide_eq_true_2, insert_insert_eq by done. by apply trun_end.
Qed.

(** [takeLock] with no other opener at work: a free file is taken, a stale lock is replaced, and another's stands. *)
Lemma takeLock_alone fs :
  takeLock run pid path record own fs =
    match locks fs !! lockPathOf path with
    | None => (PTaken, taken fs)
    | Some _ => if stale run pid own (readLock path fs) then (PTaken, taken fs) else (PLocked (readLock path fs), fs)
    end.
Proof.
  unfold takeLock, TAKE_FUEL. destruct (locks fs !! lockPathOf path) as [c|] eqn:El.
  2: { apply (open_absent 8); [lia|done]. }
  rewrite trun_S. cbn [tstep Nat.ltb Nat.leb]. rewrite El, trun_S. cbn [tstep].
  destruct (stale _ _ _ _); [|by apply trun_end].
  rewrite trun_S. cbn [tstep]. rewrite (open_absent 5); [|lia|apply lookup_delete_eq]. f_equal. unfold taken, unlink. cbn. by rewrite insert_delete_eq.
Qed.
End Alone.

Definition owned (fs : FS) (p : Z) (path : string) : Prop :=
  exists i r, locks fs !! lockPathOf path = Some (i, Written r) /\ lk_pid r = p.

Lemma owned_readLock fs p path : owned fs p path -> exists r, readLock path fs = Some r /\ lk_pid r = p.
Proof. intros (i & r & Hl & Hp). exists r. unfold readLock. by rewrite Hl. Qed.

Lemma taken_owned fs path r : owned (taken path r fs) (lk_pid r) path.
Proof. eexists _, r. split; [apply lookup_insert_eq|done]. Qed.

(** What a [takeLock] that took the file leaves of the others' locks. *)
Lemma takeLock_result run pid path r fs :
  (exists fs', takeLock run pid path r false fs = (PTaken, fs') /\ fs' = taken path r fs /\
     forall q path', owned fs q path' -> run q = true -> q <> pid \/ path' <> path -> owned fs' q path') \/
  (exists h, takeLock run pid path r false fs = (PLocked h, fs)).
Proof.
  rewrite takeLock_alone.
  assert (forall q path', owned fs q path' -> path' <> path -> owned (taken path r fs) q path') as Hne.
  { intros q path' (i & r' & Hl & Hp) Hpath. exists i, r'. split; [|done]. unfold taken. cbn [locks]. rewrite lookup_insert_ne; [done|].
    intros E%lockPathOf_inj. congruence. }
  destruct (locks fs !! lockPathOf path) as [c|] eqn:El.
  2: { left. eexists. split_and!; [done|done|]. intros q path' Ho Hq Hd. apply Hne; [done|]. intros ->. destruct Ho as (i & r' & Ho & _). congruence. }
  destruct (stale run pid false (readLock path fs)) eqn:Es; [left|right; by eexists].
  eexists. split_and!; [done|done|]. intros q path' Ho Hq Hd. apply Hne; [done|]. intros ->.
  apply owned_readLock in Ho as (r' & Hr & Hp). rewrite Hr in Es. cbn in Es. unfold alive in Es. rewrite Hp, Hq, orb_true_r in Es. cbn in Es.
  rewrite andb_true_r in Es. apply Z.eqb_eq in Es. destruct Hd; congruence.
Qed.

Lemma owned_drop pid path fs q path' : owned fs q path' -> q <> pid \/ path' <> path -> owned (dropLock pid path fs) q path'.
Proof.
  intros (i & r & Hl & Hp) Hd. unfold dropLock.
  destruct (decide (path' = path)) as [->|Hne].
  - unfold readLock. rewrite Hl. destruct Hd as [Hd|]; [|done]. rewrite (proj2 (Z.eqb_neq _ _)) by congruence. by exists i, r.
  - assert (owned (unlink (lockPathOf path) fs) q path').
    { exists i, r. split; [|done]. cbn. rewrite lookup_delete_ne; [done|]. intros E%lockPathOf_inj. congruence. }
    destruct (readLock path fs); [|done]. destruct (negb _); [by exists i, r|done].
Qed.

Definition process_holds (pr : Process) (path : string) : Prop :=
  match pr with Host held => is_Some (held !! path) | Cli held => held = Some path end.

Definition lease_Inv (w : World) : Prop := forall p path, holds w p path -> owned (disk w) p path.

Lemma holds_process w p pr path : procs w !! p = Some pr -> process_holds pr path -> holds w p path.
Proof. unfold holds. by intros ->. Qed.

Lemma lease_frame w p pr fs' :
  lease_Inv w ->
  (forall q path, q <> p -> running w q = true -> owned (disk w) q path -> owned fs' q path) ->
  (forall path, process_holds pr path -> owned fs' p path) ->
  lease_Inv (mkWorld (<[p := pr]> (procs w)) fs').
Proof.
  intros HI Hothers Hown q path. unfold holds. cbn [procs disk]. destruct (decide (q = p)) as [->|Hq].
  - rewrite lookup_insert_eq. apply Hown.
  - rewrite lookup_insert_ne by done. intros Hh. apply Hothers; [done| |by apply HI].
    unfold running. apply bool_decide_eq_true. destruct (procs w !! q); [by eexists|done].
Qed.

Lemma release_keeps pid path held fs held' fs' :
  release pid path held fs = (held', fs') ->
  (forall p, is_Some (held !! p) -> owned fs pid p) ->
  (forall p, is_Some (held' !! p) -> owned fs' pid p) /\ (forall q p, q <> pid -> owned fs q p -> owned fs' q p).
Proof.
  unfold release. destruct (held !! path) eqn:E; intros [= <- <-] Hown; [|split; [done|done]]. split.
  - intros p [y Hy]. destruct (decide (p = path)) as [->|Hne]; [by rewrite lookup_delete_eq in Hy|].
    rewrite lookup_delete_ne in Hy by done. apply owned_drop; [apply Hown; by eexists|by right].
  - intros q p Hq Ho. apply owned_drop; [done|by left].
Qed.

Lemma releaseAll_keeps pid paths : forall held fs held' fs',
  fold_left (fun hf path => release pid path hf.1 hf.2) paths (held, fs) = (held', fs') ->
  (forall p, is_Some (held !! p) -> owned fs pid p) ->
  (forall p, is_Some (held' !! p) -> owned fs' pid p) /\ (forall q p, q <> pid -> owned fs q p -> owned fs' q p).
Proof.
  induction paths as [|path paths IH]; cbn [fold_left]; intros held fs held' fs' Hf Hown; [by injection Hf as <- <-|].
  cbn [fst snd] in Hf. destruct (release pid path held fs) as [held1 fs1] eqn:E.
  destruct (release_keeps _ _ _ _ _ _ E Hown) as [H1 H2]. destruct (IH _ _ _ _ Hf H1) as [H3 H4]. split; [done|]. intros q p Hq Ho. by apply H4, H2.
Qed.

Ltac lease_same := apply lease_frame; [assumption|done|assumption].

Lemma lease_step real w w' : lease_Inv w -> wstep real w w' -> lease_Inv w'.
Proof.
  intros HI Hs. destruct Hs as [w p pr Hp Hpr|w p|w p now owner path sid held r held' fs' Hp Ha|w p path held held' fs' Hp Hr
    |w p held held' fs' Hp Hr|w p now file sid held r held' fs' Hp Hr|w p held held' fs' Hp Hr];
    try (pose proof (fun path Hx => HI p path (holds_process w p _ path Hp Hx)) as Hmine; cbn [process_holds] in Hmine).
  - apply lease_frame; [done|done|]. intros path Hh. destruct Hpr as [-> | ->]; cbn in Hh; [by apply lookup_empty_is_Some in Hh|done].
  - intros q path Hh. unfold holds in Hh. cbn in *. destruct (decide (q = p)) as [->|Hq]; [by rewrite lookup_delete_eq in Hh|].
    rewrite lookup_delete_ne in Hh by done. by apply HI.
  - unfold acquire in Ha. destruct (held !! real path) eqn:E; [injection Ha as <- <- <-; lease_same|].
    destruct (takeLock_result (running w) p (real path) (mkLock p owner sid now) (disk w)) as [(fs1 & Ht & -> & Hk)|[h Ht]];
      rewrite Ht in Ha; injection Ha as <- <- <-; [|lease_same].
    apply lease_frame; [done|intros q x Hq Hrun Ho; apply Hk; [done|done|by left]|].
    intros x [y Hy]. destruct (decide (x = real path)) as [->|Hne]; [apply (taken_owned _ _ (mkLock p owner sid now))|].
    rewrite lookup_insert_ne in Hy by done. apply Hk; [apply Hmine; by eexists|unfold running; rewrite Hp; done|by right].
  - destruct (release_keeps _ _ _ _ _ _ Hr Hmine) as [H1 H2]. apply lease_frame; [done|intros q x Hq _; by apply H2|exact H1].
  - destruct (releaseAll_keeps _ _ _ _ _ _ Hr Hmine) as [H1 H2]. apply lease_frame; [done|intros q x Hq _; by apply H2|exact H1].
  - unfold session_start in Hr. destruct file as [f|]; [|injection Hr as <- <- <-; lease_same].
    destruct (takeLock_result (running w) p (real f) (mkLock p "pi-cli" sid now) (disk w)) as [(fs1 & Ht & -> & Hk)|[h Ht]];
      rewrite Ht in Hr; injection Hr as <- <- <-; [|lease_same].
    apply lease_frame; [done|intros q x Hq Hrun Ho; apply Hk; [done|done|by left]|].
    intros x Hx. cbn in Hx. injection Hx as <-. apply (taken_owned _ _ (mkLock p "pi-cli" sid now)).
  - unfold session_shutdown in Hr. destruct held as [path|]; injection Hr as <- <-; [|lease_same].
    apply lease_frame; [done|intros q x Hq _ Ho; apply owned_drop; [done|by left]|intros x Hx; done].
Qed.

Lemma lease_reach real w : wreachable real w -> lease_Inv w.
Proof.
  induction 1 as [fs|w w' _ IH Hs]; [|by eapply lease_step]. intros p path. unfold holds. cbn. by rewrite lookup_empty.
Qed.


(** Two openers inside [takeLock] at once: whose step is next is the schedule. *)
Fixpoint race (run : Z -> bool) (path : string) (a b : LockRecord) (sched : list bool) (pa pb : Phase) (fs : FS) : Phase * Phase * FS :=
  match sched with
  | [] => (pa, pb, fs)
  | true :: r => let '(pa', fs') := tstep run (lk_pid a) path a false pa fs in race run path a b r pa' pb fs'
  | false :: r => let '(pb', fs') := tstep run (lk_pid b) path b false pb fs in race run path a b r pa pb' fs'
  end.

(** two live openers of a file nobody holds can both take it.  The second reads the lock file the first has
    created and not yet written, takes what does not parse for a stale lock and removes it; the first then writes
    through its descriptor to a file that has no name any more.  Both return as the writer. *)
Theorem racing_openers_both_write run path a b fs :
  locks fs !! lockPathOf path = None ->
  exists sched fs', race run path a b sched (POpen 0) (POpen 0) fs = (PTaken, PTaken, fs') /\ readLock path fs' = Some b.
Proof.
  intros Hl. exists [true; false; false; false; false; false; true].
  set (lock := lockPathOf path). set (n := next_inode fs).
  set (fs1 := mkFS (<[lock := (n, Torn)]> (locks fs)) (S n)). set (fs2 := mkFS (<[lock := (S n, Torn)]> (locks fs)) (S (S n))).
  set (fs3 := mkFS (<[lock := (S n, Written b)]> (locks fs)) (S (S n))).
  assert (tstep run (lk_pid a) path a false (POpen 0) fs = (PWrite n, fs1)) as E1 by (cbn; by rewrite Hl).
  assert (tstep run (lk_pid b) path b false (POpen 0) fs1 = (PExists 0, fs1)) as E2 by (cbn; by rewrite lookup_insert_eq).
  assert (tstep run (lk_pid b) path b false (PExists 0) fs1 = (PUnlink 0, fs1)) as E3.
  { cbn. unfold readLock. cbn. by rewrite lookup_insert_eq. }
  assert (tstep run (lk_pid b) path b false (PUnlink 0) fs1 = (POpen 1, mkFS (locks fs) (S n))) as E4.
  { cbn. unfold unlink. cbn. by rewrite delete_insert_eq, delete_id. }
  assert (tstep run (lk_pid b) path b false (POpen 1) (mkFS (locks fs) (S n)) = (PWrite (S n), fs2)) as E5 by (cbn; by rewrite Hl).
  assert (tstep run (lk_pid b) path b false (PWrite (S n)) fs2 = (PTaken, fs3)) as E6.
  { cbn. rewrite lookup_insert_eq, bool_decide_eq_true_2, insert_insert_eq by done. done. }
  assert (tstep run (lk_pid a) path a false (PWrite n) fs3 = (PTaken, fs3)) as E7.
  { cbn. rewrite lookup_insert_eq, bool_decide_eq_false_2 by lia. done. }
  exists fs3. cbn [race]. rewrite E1, E2, E3, E4, E5, E6, E7. split; [done|]. unfold readLock. cbn. by rewrite lookup_insert_eq.
Qed.

Lemma racing_openers_both_write_witness :
  exists sched fs', race (fun _ => true) "s.jsonl" (mkLock 1 "pi-host" "s" 0) (mkLock 2 "pi-cli" "s" 0) sched (POpen 0) (POpen 0) (mkFS ∅ 0) =
    (PTaken, PTaken, fs') /\ readLock "s.jsonl" fs' = Some (mkLock 2 "pi-cli" "s" 0).
Proof. apply racing_openers_both_write. reflexivity. Defined.

(** A host that dies holding a file, and the CLI that takes it over. *)
Definition w_spawned : World := mkWorld (<[1 := Host ∅]> ∅) (mkFS ∅ 0).
Definition w_holding : World :=
  let '(_, held, fs) := acquire (running w_spawned) 1 0 id "pi-host" "s" "s" ∅ (disk w_spawned) in mkWorld (<[1 := Host held]> (procs w_spawned)) fs.
Definition w_died : World := mkWorld (delete 1 (procs w_holding)) (disk w_holding).
Definition w_cli : World := mkWorld (<[2 := Cli None]> (procs w_died)) (disk w_died).
Definition handed_over : World :=
  let '(_, held, fs) := session_start (running w_cli) 2 5 id (Some "s"%string) "s" None (disk w_cli) in mkWorld (<[2 := Cli held]> (procs w_cli)) fs.

