(* ===== verification/Registry.v ===== *)
(** * The agent registry

    [packages/pi-family/registry.ts]: the process-wide store of identities, loaded agents
    and dormant rows, and the walk over an agent's descendants that
    [packages/pi-host/src/session.ts] sends with a snapshot.  The maps keep insertion
    order, as JavaScript's do; what a listener does with a notice is outside, so each
    operation returns the notices it sends.  An entry's closures are the files that
    register it; [activity()] is the field as it stands at the call. *)

From S2P Require Import Prelude.

Inductive AgentRole := RRoot | RChild.
#[export] Instance AgentRole_eq : EqDecision AgentRole.
Proof. solve_decision. Defined.
Inductive AgentActivity := AIdle | AWorking | AEnded.
#[export] Instance AgentActivity_eq : EqDecision AgentActivity.
Proof. solve_decision. Defined.

Record Identity := mkIdentity { i_name : string; i_role : AgentRole; i_parentId : option string; i_depth : Z }.
Record AgentEntry := mkEntry { a_identity : Identity; a_id : string; a_cwd : string; a_sessionFile : option string; a_activity : AgentActivity }.
Record DormantAgent := mkDormant { d_identity : Identity; d_id : string; d_cwd : string; d_sessionFile : option string; d_firstMessage : option string }.

Inductive Notice := Registered (id : string) | Unregistered (id : string).

Record Store := mkStore {
  identities : gmap string Identity;
  agents : list (string * AgentEntry);
  dormants : list (string * DormantAgent)
}.

Definition assignIdentity (sessionId : string) (i : Identity) (s : Store) : Store := mkStore (<[sessionId := i]> (identities s)) (agents s) (dormants s).
Definition identityOf (sessionId fallbackName : string) (s : Store) : Identity :=
  nullish (identities s !! sessionId) (mkIdentity fallbackName RRoot None 0).

Definition register (e : AgentEntry) (s : Store) : list Notice * Store :=
  ([Registered (a_id e)], mkStore (identities s) (OMap.set (a_id e) e (agents s)) (dormants s)).
Definition unregister (sessionId : string) (s : Store) : list Notice * Store :=
  if negb (OMap.has sessionId (agents s)) then ([], s)
  else ([Unregistered sessionId], mkStore (delete sessionId (identities s)) (OMap.del sessionId (agents s)) (dormants s)).

Definition get (sessionId : string) (s : Store) : option AgentEntry := OMap.get sessionId (agents s).
Definition list_agents (s : Store) : list AgentEntry := OMap.vals (agents s).
Definition childrenOf (parentId : string) (s : Store) : list AgentEntry :=
  base.filter (fun a => i_parentId (a_identity a) = Some parentId) (list_agents s).

Definition registerDormant (row : DormantAgent) (s : Store) : Store := mkStore (identities s) (agents s) (OMap.set (d_id row) row (dormants s)).
Definition unregisterDormant (sessionId : string) (s : Store) : Store := mkStore (identities s) (agents s) (OMap.del sessionId (dormants s)).
Definition dormant (s : Store) : list DormantAgent := base.filter (fun r => OMap.has (d_id r) (agents s) = false) (OMap.vals (dormants s)).
Definition dormantOf (sessionId : string) (s : Store) : option DormantAgent :=
  if OMap.has sessionId (agents s) then None else OMap.get sessionId (dormants s).

(** ** The walk over the descendants *)

Record ChildSnapshot := mkChild { c_id : string; c_parentId : string; c_name : string; c_status : string; c_dir : string }.

Definition child_snapshot (parentId : string) (child : AgentEntry) : ChildSnapshot :=
  mkChild (a_id child) parentId (i_name (a_identity child))
    (match a_activity child with AWorking => "running" | AEnded => "completed" | AIdle => "idle" end)%string (a_cwd child).

(** [walk]; [None] is the recursion that does not end. *)
Fixpoint walk (fuel : nat) (s : Store) (parentId : string) : option (list ChildSnapshot) :=
  match fuel with
  | O => None
  | S n =>
      foldr (fun child rest => r ← rest; sub ← walk n s (a_id child); Some (child_snapshot parentId child :: sub ++ r))
        (Some []) (childrenOf parentId s)
  end.

Definition children (s : Store) (id : string) : option (list ChildSnapshot) := walk (S (length (agents s))) s id.

(** ** What the walk finds *)

(** The stores the operations make: an entry sits under its own id, once. *)
Definition keyed (s : Store) : Prop :=
  NoDup (OMap.keys (agents s)) /\ (forall k e, (k, e) ∈ agents s -> a_id e = k) /\ (forall k r, (k, r) ∈ dormants s -> d_id r = k).

Definition is_child (s : Store) (p d : string) : Prop := exists e, e ∈ list_agents s /\ a_id e = d /\ i_parentId (a_identity e) = Some p.
Inductive descendant (s : Store) : string -> string -> Prop :=
| desc_child p d : is_child s p d -> descendant s p d
| desc_step p c d : is_child s p c -> descendant s c d -> descendant s p d.

(** Identities as [pi-rlm] assigns them: a child is deeper than its parent. *)
Definition ranked (s : Store) (rank : string -> nat) : Prop := forall p d, is_child s p d -> (rank p < rank d)%nat.

(** Every operation keeps the store keyed. *)
Lemma store_keyed s :
  keyed s ->
  (forall e, keyed (register e s).2) /\ (forall id, keyed (unregister id s).2) /\
  (forall r, keyed (registerDormant r s)) /\ (forall id, keyed (unregisterDormant id s)) /\ (forall id i, keyed (assignIdentity id i s)).
Proof.
  intros (Hnd & Ha & Hd). split_and!.
  - intros e. split_and!; cbn; [by apply OMap.set_NoDup|intros k e' [[= -> ->]|H]%OMap.elem_set; [done|by apply Ha]|done].
  - intros id. unfold unregister. destruct (negb _); [done|]. split_and!; cbn; [by apply OMap.del_NoDup|intros k e' H%OMap.elem_del; by apply Ha|done].
  - intros r. split_and!; cbn; [done|done|]. intros k e' [[= -> ->]|H]%OMap.elem_set; [done|by apply Hd].
  - intros id. split_and!; cbn; [done|done|]. intros k e' H%OMap.elem_del; by apply Hd.
  - done.
Qed.

Lemma keyed_ids s : keyed s -> map a_id (list_agents s) = OMap.keys (agents s).
Proof.
  intros (_ & Ha & _). unfold list_agents, OMap.vals, OMap.keys. rewrite map_map. apply map_ext_in.
  intros [k e] H%list_elem_of_In. by apply Ha.
Qed.

Section Walk.
Context (s : Store) (rank : string -> nat) (Hs : keyed s) (Hr : ranked s rank).

Lemma childrenOf_spec p e : e ∈ childrenOf p s <-> e ∈ list_agents s /\ i_parentId (a_identity e) = Some p.
Proof. unfold childrenOf. rewrite list_elem_of_filter. naive_solver. Qed.

Lemma same_entry e e' : e ∈ list_agents s -> e' ∈ list_agents s -> a_id e = a_id e' -> e = e'.
Proof.
  unfold list_agents, OMap.vals. intros ([k x] & -> & Hx)%list_elem_of_fmap ([k' x'] & -> & Hx')%list_elem_of_fmap Heq.
  destruct Hs as (Hnd & Ha & _). cbn in *. rewrite (Ha _ _ Hx), (Ha _ _ Hx') in Heq. subst k'.
  pose proof (OMap.elem_get _ _ _ Hnd Hx). pose proof (OMap.elem_get _ _ _ Hnd Hx'). congruence.
Qed.

Lemma one_parent p p' d : is_child s p d -> is_child s p' d -> p = p'.
Proof. intros (e & He & <- & Hp) (e' & He' & Hd & Hp'). pose proof (same_entry _ _ He' He Hd). congruence. Qed.

Lemma desc_rank p d : descendant s p d -> (rank p < rank d)%nat.
Proof. induction 1 as [p d H|p c d H _ IH]; apply Hr in H; lia. Qed.

Lemma desc_trans a b c : descendant s a b -> descendant s b c -> descendant s a c.
Proof. induction 1; intros; [by eapply desc_step|eapply desc_step; eauto]. Qed.

Lemma desc_snoc p d : descendant s p d -> exists m, is_child s m d /\ (m = p \/ descendant s p m).
Proof.
  induction 1 as [p d H|p c d H _ (m & Hm & Hc)]; [by exists p; split; [|left]|].
  exists m. split; [done|]. right. destruct Hc as [->|Hc]; [by apply desc_child|by eapply desc_step].
Qed.

Lemma desc_line a b d : descendant s a d -> descendant s b d -> a = b \/ descendant s a b \/ descendant s b a.
Proof.
  remember (rank d) as n eqn:En. assert (rank d <= n)%nat as Hn by lia. clear En. revert d Hn.
  induction n as [|n IH]; intros d Hn Ha Hb.
  - apply desc_rank in Ha. lia.
  - apply desc_snoc in Ha as (m & Hm & Ha). apply desc_snoc in Hb as (m' & Hm' & Hb).
    pose proof (one_parent _ _ _ Hm Hm'). subst m'. apply Hr in Hm.
    destruct Ha as [->|Ha], Hb as [->|Hb]; [by left|by right; right|by right; left|]. apply (IH m); [lia|done|done].
Qed.

Lemma siblings_apart p c c' d : is_child s p c -> is_child s p c' -> c <> c' ->
  d = c \/ descendant s c d -> d = c' \/ descendant s c' d -> False.
Proof.
  intros Hc Hc' Hne Hd Hd'.
  assert (forall x y, is_child s p x -> is_child s p y -> descendant s x y -> False) as Hno.
  { intros x y Hx Hy Hxy. apply desc_snoc in Hxy as (m & Hm & Hd0). pose proof (one_parent _ _ _ Hy Hm). subst m. apply Hr in Hx.
    destruct Hd0 as [->|Hd0]; [lia|]. apply desc_rank in Hd0. lia. }
  destruct Hd as [->|Hd], Hd' as [->|Hd']; [done|by eapply (Hno c' c)|by eapply (Hno c c')|].
  destruct (desc_line _ _ _ Hd Hd') as [->|[H|H]]; [done|by eapply (Hno c c')|by eapply (Hno c' c)].
Qed.

(** The agents deeper than [p]: each level of the walk leaves at least one out. *)
Definition below (p : string) : list AgentEntry := base.filter (fun e => (rank p < rank (a_id e))%nat) (list_agents s).

Lemma below_child p e : e ∈ childrenOf p s -> (length (below (a_id e)) < length (below p))%nat.
Proof.
  intros [He Hp]%childrenOf_spec. assert (rank p < rank (a_id e))%nat as Hlt by (apply Hr; by exists e).
  unfold below. revert He. generalize (list_agents s) as l. induction l as [|x l IH]; intros He; [by apply elem_of_nil in He|].
  assert (forall l', length (base.filter (fun e0 => (rank (a_id e) < rank (a_id e0))%nat) l') <= length (base.filter (fun e0 => (rank p < rank (a_id e0))%nat) l'))%nat as Hle.
  { clear -Hlt. induction l' as [|y l' IH']; [done|]. rewrite !filter_cons. repeat case_decide; cbn [length]; lia. }
  rewrite !filter_cons. apply elem_of_cons in He as [<-|He].
  - rewrite decide_False by lia. rewrite decide_True by done. cbn [length]. specialize (Hle l). lia.
  - specialize (IH He). repeat case_decide; cbn [length]; lia.
Qed.

Definition walked (p : string) (out : list ChildSnapshot) : Prop :=
  NoDup (map c_id out) /\ (forall d, d ∈ map c_id out <-> descendant s p d) /\ (forall c, c ∈ out -> is_child s (c_parentId c) (c_id c)).

Lemma walk_ok fuel p : (length (below p) < fuel)%nat -> exists out, walk fuel s p = Some out /\ walked p out.
Proof.
  revert p. induction fuel as [|n IH]; intros p Hf; [lia|]. cbn [walk].
  assert (forall l, (forall e, e ∈ l -> e ∈ childrenOf p s) -> NoDup (map a_id l) ->
    exists out, foldr (fun child rest => r ← rest; sub ← walk n s (a_id child); Some (child_snapshot p child :: sub ++ r)) (Some []) l = Some out /\
      NoDup (map c_id out) /\ (forall d, d ∈ map c_id out <-> exists e, e ∈ l /\ (d = a_id e \/ descendant s (a_id e) d)) /\
      (forall c, c ∈ out -> is_child s (c_parentId c) (c_id c))) as Hfold.
  { induction l as [|e l IHl]; intros Hl Hnd.
    - exists []. split_and!; [done|apply NoDup_nil_2| |set_solver]. intros d. split; [set_solver|]. intros (e & He & _). set_solver.
    - apply NoDup_cons in Hnd as [Hni Hnd]. destruct IHl as (out & Hout & Hndo & Hdo & Hco); [set_solver|done|].
      assert (e ∈ childrenOf p s) as He by set_solver.
      destruct (IH (a_id e)) as (sub & Hsub & Hnds & Hds & Hcs); [pose proof (below_child p e He); lia|].
      assert (is_child s p (a_id e)) as Hpe by (apply childrenOf_spec in He as [? ?]; by exists e).
      exists (child_snapshot p e :: sub ++ out). cbn [foldr]. rewrite Hout, Hsub. split_and!; [done| | |].
      + cbn. rewrite map_app. apply NoDup_cons. split.
        * rewrite elem_of_app. intros [H|H]; [apply Hds in H; apply desc_rank in H; lia|].
          apply Hdo in H as (e' & He' & Hd). assert (is_child s p (a_id e')) as Hpe'.
          { assert (e' ∈ childrenOf p s) as [? ?]%childrenOf_spec by set_solver. by exists e'. }
          apply (siblings_apart p (a_id e) (a_id e') (a_id e)); [done|done| |by left|done].
          intros Heq. apply Hni. rewrite Heq. apply list_elem_of_fmap. by exists e'.
        * apply NoDup_app. split_and!; [done| |done]. intros d Hd H. apply Hds in Hd. apply Hdo in H as (e' & He' & Hd').
          assert (is_child s p (a_id e')) as Hpe'.
          { assert (e' ∈ childrenOf p s) as [? ?]%childrenOf_spec by set_solver. by exists e'. }
          apply (siblings_apart p (a_id e) (a_id e') d); [done|done| |by right|done].
          intros Heq. apply Hni. rewrite Heq. apply list_elem_of_fmap. by exists e'.
      + intros d. cbn. rewrite map_app, elem_of_cons, elem_of_app, Hds, Hdo. split.
        * intros [->|[Hd|(e' & He' & Hd)]]; [exists e; set_solver|exists e; split; [set_solver|by right]|exists e'; split; [set_solver|done]].
        * intros (e' & [->|He']%elem_of_cons & Hd); [destruct Hd; tauto|]. right. right. by exists e'.
      + intros c [->|[H|H]%elem_of_app]%elem_of_cons; [done|by apply Hcs|by apply Hco]. }
  destruct (Hfold (childrenOf p s)) as (out & Hout & Hnd & Hd & Hc); [done| |].
  - unfold childrenOf. pose proof (keyed_ids s Hs) as Hk. destruct Hs as (Hnd & _). rewrite <- Hk in Hnd.
    eapply sublist_NoDup; [exact Hnd|]. apply fmap_sublist, sublist_filter.
  - exists out. split; [done|]. split_and!; [done| |done]. intros d. rewrite Hd. split.
    + intros (e & [He Hp]%childrenOf_spec & [->|Hde]); [apply desc_child; by exists e|eapply desc_step; [by exists e|done]].
    + intros Hde. inversion Hde as [? ? (e & He & Hid & Hp)|? c ? (e & He & Hid & Hp) Hcd]; subst.
      * exists e. split; [by apply childrenOf_spec|by left].
      * exists e. split; [by apply childrenOf_spec|by right].
Qed.
End Walk.

(** when every child is deeper than its parent, the walk of a session's children ends and lists each of its
    descendants exactly once, each under its own parent; the fuel is the number of agents. *)
Theorem children_spec s rank id :
  keyed s -> ranked s rank ->
  exists out, children s id = Some out /\ NoDup (map c_id out) /\
    (forall d, d ∈ map c_id out <-> descendant s id d) /\ (forall c, c ∈ out -> is_child s (c_parentId c) (c_id c)).
Proof.
  intros Hs Hr. destruct (walk_ok s rank Hs Hr (S (length (agents s))) id) as (out & Hout & Hw); [|by exists out].
  unfold below, list_agents, OMap.vals. pose proof (length_filter (fun e => (rank id < rank (a_id e))%nat) (map snd (agents s))) as Hl.
  rewrite length_map in Hl. lia.
Qed.

(** A root with two children, the first of which has one of its own. *)
Definition agent (id : string) (parent : option string) (depth : Z) (a : AgentActivity) : AgentEntry :=
  mkEntry (mkIdentity id (match parent with Some _ => RChild | None => RRoot end) parent depth) id "/" None a.
Definition family : Store :=
  fold_left (fun s e => (register e s).2)
    [agent "root" None 0 AIdle; agent "b" (Some "root"%string) 1 AWorking; agent "c" (Some "root"%string) 1 AIdle; agent "d" (Some "b"%string) 2 AEnded]%string
    (mkStore ∅ [] []).
Definition family_rank (id : string) : nat := if bool_decide (id = "root") then 0 else if bool_decide (id = "d") then 2 else 1.

Lemma children_spec_witness :
  exists out, children family "root" = Some out /\ map c_id out = ["b"; "d"; "c"]%string /\ NoDup (map c_id out) /\
    (forall d, d ∈ map c_id out <-> descendant family "root" d).
Proof.
  assert (keyed family) as Hk.
  { unfold family. cbn [fold_left]. do 4 apply store_keyed. split_and!; [apply NoDup_nil_2|intros k e H; by apply elem_of_nil in H..]. }
  assert (ranked family family_rank) as Hr.
  { intros p d (e & He & <- & Hp). vm_compute in He.
    repeat (apply elem_of_cons in He as [->|He]; [cbn in Hp; try discriminate Hp; injection Hp as <-; vm_compute; lia|]). by apply elem_of_nil in He. }
  destruct (children_spec family family_rank "root" Hk Hr) as (out & Hout & Hnd & Hd & _).
  exists out. split_and!; [done| |done|done]. vm_compute in Hout. injection Hout as <-. reflexivity.
Defined.
