(* ===== verification/Session.v ===== *)
(** * A hosted session's event stream

    [packages/pi-host/src/session.ts] and the [attach] handler of
    [packages/pi-host/src/host.ts]: one session's sequence, replay buffer and attached
    clients, and what a client is written from its attach on.  [wire] is what the
    session wrote to each client, [lines] what it handed to the host's [onLine]; Pi's
    runtime is the record [Runtime], read at each summary.  Handlers run without an
    await in between, so a history is a list of operations. *)

From S2P Require Import Prelude Registry.

(** ** Messages and events *)

Inductive Part := PartText (text : string) | PartOther.
Inductive MessageContent := ContentText (text : string) | ContentParts (parts : list Part) | ContentOther.
Record Message := mkMessage { m_role : string; m_content : MessageContent }.
Record Event := mkEvent { ev_type : string; ev_message : option Message }.

Definition textOf (m : option Message) : string :=
  match m with
  | None => ""
  | Some m =>
      match m_content m with
      | ContentText t => t
      | ContentParts ps => String.concat "" (map (fun p => match p with PartText t => t | PartOther => "" end) ps)
      | ContentOther => ""
      end
  end%string.

Definition DROPPED_EVENTS : list string := ["entry_appended"]%string.

Record Line := mkLine { l_event : Event; l_id : string; l_generation : string; l_sequence : Z; l_emittedAt : Z; l_replayed : bool }.

(** ** What goes to a client *)

Inductive ReplayStatus := RComplete (from : option Z) | RBufferExceeded (from : Z) | RGenerationChanged (from : Z).
Inductive Outbound :=
| OLine (l : Line)
| OAttached (status : ReplayStatus) (toSequence : Z) (messages : option (list Message)) (snapshot : list Message)
| OBegin (messageCount : nat)
| OChunk (index : nat) (messages : list Message)
| OEnd (chunkCount : nat) (lastEventSequence : Z)
| OExtensionError.

Record HostedSession := mkSession {
  s_id : string;
  s_generation : string;
  sequence : Z;
  buffer : list Line;
  sinks : list (string * unit);
  streamingMessage : option Message;
  runningTools : Z;
  lastActivityAt : Z;
  firstMessage : option string;
  lines : list Line;
  wire : gmap string (list Outbound)
}.

Definition open_session (now : Z) (id generation : string) : HostedSession :=
  mkSession id generation 0 [] [] None 0 now None [] ∅.

Definition write_to (c : string) (o : list Outbound) (w : gmap string (list Outbound)) : gmap string (list Outbound) := <[c := default [] (w !! c) ++ o]> w.
Definition write_all (cs : list string) (o : Outbound) (w : gmap string (list Outbound)) : gmap string (list Outbound) := foldl (fun w c => write_to c [o] w) w cs.

Definition meta_id (id : string) (sequence : Z) : string := (id +:+ ":" +:+ string_of_Z sequence)%string.

(** [emit]; [replayLimit] lines are kept. *)
Definition emit (replayLimit : nat) (now : Z) (e : Event) (s : HostedSession) : HostedSession :=
  let seq := sequence s + 1 in
  let line := mkLine e (meta_id (s_id s) seq) (s_generation s) seq now false in
  let pushed := buffer s ++ [line] in
  let kept := if (replayLimit <? length pushed)%nat then drop (length pushed - replayLimit) pushed else pushed in
  mkSession (s_id s) (s_generation s) seq kept (sinks s) (streamingMessage s) (runningTools s) (lastActivityAt s) (firstMessage s)
    (lines s ++ [line]) (write_all (OMap.keys (sinks s)) (OLine line) (wire s)).

Definition with_turn (m : option Message) (tools now : Z) (s : HostedSession) : HostedSession :=
  mkSession (s_id s) (s_generation s) (sequence s) (buffer s) (sinks s) m tools now (firstMessage s) (lines s) (wire s).

Definition is_event (e : Event) (t : string) : bool := bool_decide (ev_type e = t).

Definition onEvent (replayLimit : nat) (now : Z) (e : Event) (s : HostedSession) : HostedSession :=
  let '(m, tools) :=
    if is_event e "message_start" || is_event e "message_update" then
      (match ev_message e with
       | Some m => if bool_decide (m_role m = "assistant"%string) then Some m else streamingMessage s
       | None => streamingMessage s
       end, runningTools s)
    else if is_event e "message_end" || is_event e "agent_end" then (None, runningTools s)
    else if is_event e "tool_execution_start" then (streamingMessage s, runningTools s + 1)
    else if is_event e "tool_execution_end" then (streamingMessage s, Z.max 0 (runningTools s - 1))
    else (streamingMessage s, runningTools s) in
  let tools := if is_event e "agent_end" then 0 else tools in
  let s' := with_turn m tools now s in
  if bool_decide (ev_type e ∈ DROPPED_EVENTS) then s' else emit replayLimit now e s'.

Definition replayed (l : Line) : Line := mkLine (l_event l) (l_id l) (l_generation l) (l_sequence l) (l_emittedAt l) true.

Definition replayAfter (n : Z) (s : HostedSession) : option (list Line) :=
  if sequence s <? n then None
  else if n =? sequence s then Some []
  else match head (buffer s) with
       | None => None
       | Some first =>
           if n + 1 <? l_sequence first then None
           else Some (map replayed (base.filter (fun l => n < l_sequence l) (buffer s)))
       end.

(** ** Attach *)

(** The chunks of a snapshot: a chunk is flushed before the message that would pass [chunkBytes]. *)
Fixpoint chunk_loop (size : Message -> Z) (chunkBytes : Z) (ms chunk : list Message) (bytes : Z) (out : list (list Message)) : list (list Message) * list Message :=
  match ms with
  | [] => (out, chunk)
  | m :: r =>
      if (0 <? length chunk)%nat && (chunkBytes <? bytes + size m)
      then chunk_loop size chunkBytes r [m] (size m) (out ++ [chunk])
      else chunk_loop size chunkBytes r (chunk ++ [m]) (bytes + size m) out
  end.
Definition snapshot_chunks (size : Message -> Z) (chunkBytes : Z) (ms : list Message) : list (list Message) :=
  let '(out, chunk) := chunk_loop size chunkBytes ms [] 0 [] in
  if (0 <? length chunk)%nat || (length out =? 0)%nat then out ++ [chunk] else out.

Definition snapshot_stream (size : Message -> Z) (chunkBytes : Z) (ms : list Message) (seq : Z) : list Outbound :=
  let cs := snapshot_chunks size chunkBytes ms in
  OBegin (length ms) :: imap OChunk cs ++ [OEnd (length cs) seq].

(** A client's cursor: the generation, when it names one, and the sequence. *)
Record Cursor := mkCursor { cu_generation : option string; cu_sequence : option Z }.

Definition attach_replay (resume : option Cursor) (s : HostedSession) : ReplayStatus * list Line :=
  match resume with
  | Some (mkCursor gen (Some n)) =>
      let sameGeneration := match gen with None => true | Some g => bool_decide (g = s_generation s) end in
      match (if sameGeneration then replayAfter n s else None) with
      | Some ls => (RComplete (Some n), ls)
      | None => (if sameGeneration then RBufferExceeded n else RGenerationChanged n, [])
      end
  | _ => (RComplete None, [])
  end.

Definition with_sinks (ks : list (string * unit)) (w : gmap string (list Outbound)) (s : HostedSession) : HostedSession :=
  mkSession (s_id s) (s_generation s) (sequence s) (buffer s) ks (streamingMessage s) (runningTools s) (lastActivityAt s) (firstMessage s) (lines s) w.

(** What [attach] writes before the replay. *)
Definition handshake (size : Message -> Z) (chunkBytes : Z) (chunked slim : bool) (resume : option Cursor) (ms : list Message) (s : HostedSession) : list Outbound :=
  OAttached (attach_replay resume s).1 (sequence s) (if slim then None else Some ms) (if chunked then [] else ms) :: (if chunked then snapshot_stream size chunkBytes ms (sequence s) else []).

Definition attach (size : Message -> Z) (chunkBytes : Z) (chunked slim : bool) (clientId : string) (resume : option Cursor) (ms : list Message) (s : HostedSession) : HostedSession :=
  with_sinks (OMap.set clientId tt (sinks s))
    (write_to clientId (handshake size chunkBytes chunked slim resume ms s ++ map OLine (attach_replay resume s).2) (wire s)) s.

Definition detach (clientId : string) (s : HostedSession) : HostedSession := with_sinks (OMap.del clientId (sinks s)) (wire s) s.
Definition dispose (s : HostedSession) : HostedSession := with_sinks [] (wire s) s.
Definition extensionError (s : HostedSession) : HostedSession := with_sinks (sinks s) (write_all (OMap.keys (sinks s)) OExtensionError (wire s)) s.

(** ** The roster's view *)

(** What the summary reads of Pi's session and its manager. *)
Record Runtime := mkRuntime {
  isStreaming : bool; isCompacting : bool; isBashRunning : bool;
  steering : list string; followUps : list string; pendingMessageCount : Z; messages : list Message;
  sessionFile : option string; sessionName : option string; cwd : string
}.

Definition busy (rt : Runtime) : bool := isStreaming rt || isCompacting rt || isBashRunning rt.
Definition actions (rt : Runtime) : nat := length (steering rt) + length (followUps rt).

(** [firstUserText], which remembers the text once there is one. *)
Definition firstUserText (rt : Runtime) (s : HostedSession) : string * HostedSession :=
  let first :=
    match firstMessage s with
    | Some t => Some t
    | None => (fun m => of_chars (take 500 (to_chars (textOf (Some m))))) <$> head (base.filter (fun m => m_role m = "user"%string) (messages rt))
    end in
  (default ""%string first,
   mkSession (s_id s) (s_generation s) (sequence s) (buffer s) (sinks s) (streamingMessage s) (runningTools s) (lastActivityAt s) first (lines s) (wire s)).

Inductive Activity := Compacting | Bash | Tool | Model | Idle.
#[export] Instance Activity_eq : EqDecision Activity.
Proof. solve_decision. Defined.

Definition activity (rt : Runtime) (s : HostedSession) : Activity :=
  if isCompacting rt then Compacting else if isBashRunning rt then Bash else if 0 <? runningTools s then Tool else if isStreaming rt then Model else Idle.

Record Summary := mkSummary {
  y_id : string; y_file : option string; y_name : option string; y_cwd : string; y_activity : Activity; y_isSessionActive : bool;
  y_subagent : bool; y_depth : Z; y_isRunningTools : bool; y_hasRunningRlmChildren : bool; y_attachedClients : nat; y_messageCount : nat;
  y_unfinishedActionCount : nat; y_streamingMessage : option Message; y_lastActivityAt : Z; y_firstMessage : string; y_parent : option string;
  y_running : bool
}.

Definition summary (rt : Runtime) (identity : Identity) (store : Store) (s : HostedSession) : Summary :=
  mkSummary (s_id s) (sessionFile rt) (sessionName rt) (cwd rt) (activity rt s) (busy rt)
    (bool_decide (i_role identity = RChild)) (i_depth identity) (0 <? runningTools s)
    (existsb (fun c => bool_decide (a_activity c = AWorking)) (childrenOf (s_id s) store))
    (length (sinks s)) (length (messages rt)) (actions rt) (streamingMessage s) (lastActivityAt s) (firstUserText rt s).1 (i_parentId identity)
    (busy rt).

(** ** Histories *)

Inductive Op :=
| OpEvent (now : Z) (e : Event)
| OpNotice (now : Z) (e : Event)
| OpAttach (size : Message -> Z) (chunkBytes : Z) (chunked slim : bool) (clientId : string) (resume : option Cursor) (ms : list Message)
| OpDetach (clientId : string)
| OpDispose
| OpExtensionError.

Definition apply (replayLimit : nat) (s : HostedSession) (o : Op) : HostedSession :=
  match o with
  | OpEvent now e => onEvent replayLimit now e s
  | OpNotice now e => emit replayLimit now e s
  | OpAttach size cb chunked slim c resume ms => attach size cb chunked slim c resume ms s
  | OpDetach c => detach c s
  | OpDispose => dispose s
  | OpExtensionError => extensionError s
  end.

Definition history (replayLimit : nat) (s : HostedSession) (ops : list Op) : HostedSession := fold_left (apply replayLimit) ops s.

(** The operations that leave client [c]'s own attachment alone. *)
Definition leaves (c : string) (o : Op) : bool :=
  match o with
  | OpAttach _ _ _ _ c' _ _ | OpDetach c' => negb (bool_decide (c' = c))
  | OpDispose => false
  | _ => true
  end.

(** ** The buffer is the end of the stream *)

Record stream_Inv (limit : nat) (s : HostedSession) : Prop := {
  sv_sequence : sequence s = Z.of_nat (length (lines s));
  sv_numbered : forall i l, lines s !! i = Some l -> l_sequence l = Z.of_nat i + 1 /\ l_replayed l = false;
  sv_buffer : buffer s = drop (length (lines s) - limit) (lines s);
  sv_sinks : NoDup (OMap.keys (sinks s))
}.

Lemma stream_open limit now id gen : stream_Inv limit (open_session now id gen).
Proof. split; cbn; [done|by intros i l Hl; rewrite lookup_nil in Hl|by rewrite drop_nil|apply NoDup_nil_2]. Qed.

Lemma stream_emit limit now e s : stream_Inv limit s -> stream_Inv limit (emit limit now e s).
Proof.
  intros [Hs Hn Hb Hk]. split; cbn [emit sequence lines buffer sinks].
  - rewrite length_app. cbn [length]. lia.
  - intros i l Hl. apply lookup_app_Some in Hl as [Hl|[Hge Hl]]; [by apply Hn|].
    apply list_lookup_singleton_Some in Hl as [Hi <-]. cbn. split; [lia|done].
  - rewrite !length_app. cbn [length]. rewrite Hb, length_drop.
    set (line := mkLine _ _ _ _ _ _). set (n := length (lines s)) in *.
    rewrite <- (drop_app_le (lines s) [line] (n - limit)) by (unfold n; lia).
    destruct (limit <? _)%nat eqn:E; [apply Nat.ltb_lt in E|apply Nat.ltb_ge in E; f_equal; lia].
    rewrite drop_drop. f_equal. lia.
  - done.
Qed.

Lemma stream_apply limit s o : stream_Inv limit s -> stream_Inv limit (apply limit s o).
Proof.
  intros H. destruct o; cbn [apply].
  - unfold onEvent. set (mt := if is_event e "message_start" || _ then _ else _). destruct mt as [m tools].
    assert (stream_Inv limit (with_turn m (if is_event e "agent_end" then 0 else tools) now s)) as H' by (destruct H; by split).
    destruct (bool_decide _); [done|by apply stream_emit].
  - by apply stream_emit.
  - destruct H. split; cbn; try done. by apply OMap.set_NoDup.
  - destruct H. split; cbn; try done. by apply OMap.del_NoDup.
  - destruct H. split; cbn; try done. apply NoDup_nil_2.
  - by destruct H.
Qed.

Lemma stream_history limit ops : forall s, stream_Inv limit s -> stream_Inv limit (history limit s ops).
Proof. induction ops as [|o ops IH]; cbn; intros s H; [done|]. by apply IH, stream_apply. Qed.

(** The lines after a sequence number, of all the session ever emitted. *)
Definition after (n : Z) (s : HostedSession) : list Line := base.filter (fun l => n < l_sequence l) (lines s).

Lemma filter_numbered_from (k : nat) (ls : list Line) (n : Z) :
  (forall i l, ls !! i = Some l -> l_sequence l = Z.of_nat (k + i) + 1) ->
  base.filter (fun l => n < l_sequence l) ls = drop (Z.to_nat (n - Z.of_nat k)) ls.
Proof.
  revert k. induction ls as [|l ls IH]; intros k Hn; [by rewrite drop_nil|].
  pose proof (Hn 0%nat l eq_refl) as Hl. rewrite filter_cons. rewrite (IH (S k)).
  2: { intros i x Hx. rewrite (Hn (S i) x Hx). lia. }
  case_decide.
  - replace (Z.to_nat (n - Z.of_nat k)) with 0%nat by lia. replace (Z.to_nat (n - Z.of_nat (S k))) with 0%nat by lia. done.
  - replace (Z.to_nat (n - Z.of_nat k)) with (S (Z.to_nat (n - Z.of_nat (S k)))) by lia. done.
Qed.

Lemma after_drop limit s n : stream_Inv limit s -> after n s = drop (Z.to_nat n) (lines s).
Proof.
  intros [_ Hn _ _]. unfold after. rewrite (filter_numbered_from 0); [by rewrite Z.sub_0_r|]. intros i l Hl. by apply Hn in Hl as [-> _].
Qed.

(** The replay answers exactly when the buffer reaches back, and then with every line after the cursor. *)
Lemma replayAfter_spec limit s n :
  stream_Inv limit s ->
  replayAfter n s =
    if (Z.max 0 (sequence s - Z.of_nat limit) <=? n) && (n <=? sequence s) then Some (map replayed (after n s)) else None.
Proof.
  intros H. pose proof H as [Hs Hn Hb _]. unfold replayAfter.
  destruct (sequence s <? n) eqn:E1; [apply Z.ltb_lt in E1; rewrite (proj2 (Z.leb_gt n _)) by lia; by rewrite andb_false_r|].
  apply Z.ltb_ge in E1. rewrite (proj2 (Z.leb_le n _)) by lia. rewrite andb_true_r.
  destruct (n =? sequence s) eqn:E2.
  { apply Z.eqb_eq in E2. rewrite (proj2 (Z.leb_le _ n)) by lia. rewrite (after_drop limit) by done. rewrite drop_ge; [done|lia]. }
  apply Z.eqb_neq in E2.
  set (k := (length (lines s) - limit)%nat) in *.
  assert (forall i l, buffer s !! i = Some l -> l_sequence l = Z.of_nat (k + i) + 1) as Hbn.
  { intros i l Hl. rewrite Hb, lookup_drop in Hl. by apply Hn in Hl as [-> _]. }
  destruct (head (buffer s)) as [first|] eqn:Eh.
  - assert (buffer s !! 0%nat = Some first) as H0 by (destruct (buffer s); [done|by injection Eh as ->]).
    rewrite (Hbn _ _ H0). assert (k < length (lines s))%nat as Hk.
    { apply lookup_lt_Some in H0. rewrite Hb, length_drop in H0. unfold k in *. lia. }
    destruct (n + 1 <? _) eqn:E3.
    + apply Z.ltb_lt in E3. rewrite (proj2 (Z.leb_gt _ n)) by (unfold k in *; lia). done.
    + apply Z.ltb_ge in E3. rewrite (proj2 (Z.leb_le _ n)) by (unfold k in *; lia). f_equal. f_equal.
      rewrite (filter_numbered_from k) by done. rewrite (after_drop limit) by done. rewrite Hb, drop_drop. f_equal. lia.
  - assert (length (buffer s) = 0%nat) as Hl by (by destruct (buffer s)). rewrite Hb, length_drop in Hl.
    rewrite (proj2 (Z.leb_gt _ n)); [done|]. unfold k in *. destruct limit; lia.
Qed.

(** ** What a client is written *)

Definition wire_of (c : string) (s : HostedSession) : list Outbound := default [] (wire s !! c).

(** The session's lines among what a client was written, with the replay mark off. *)
Definition fresh (l : Line) : Line := mkLine (l_event l) (l_id l) (l_generation l) (l_sequence l) (l_emittedAt l) false.
Definition lines_of (o : list Outbound) : list Line := omap (fun x => match x with OLine l => Some (fresh l) | _ => None end) o.

Lemma lines_of_app a b : lines_of (a ++ b) = lines_of a ++ lines_of b.
Proof. apply omap_app. Qed.

Lemma lines_of_replay ls : Forall (fun l => l_replayed l = false) ls -> lines_of (map OLine (map replayed ls)) = ls.
Proof. induction 1 as [|l ls Hl _ IH]; [done|]. cbn. f_equal; [|exact IH]. unfold fresh, replayed. cbn. rewrite <- Hl. by destruct l. Qed.

Lemma write_to_other c c' o w : c' <> c -> write_to c o w !! c' = w !! c'.
Proof. intros. unfold write_to. by rewrite lookup_insert_ne. Qed.

Lemma write_all_out c cs o : forall w, c ∉ cs -> write_all cs o w !! c = w !! c.
Proof.
  induction cs as [|c' cs IH]; cbn; intros w Hc; [done|]. unfold write_all in IH. rewrite IH by set_solver. apply write_to_other. set_solver.
Qed.

Lemma write_all_in c cs o : forall w, NoDup cs -> c ∈ cs -> default [] (write_all cs o w !! c) = default [] (w !! c) ++ [o].
Proof.
  induction cs as [|c' cs IH]; cbn; intros w Hnd Hc; [by apply elem_of_nil in Hc|]. apply NoDup_cons in Hnd as [Hni Hnd].
  apply elem_of_cons in Hc as [->|Hc].
  - fold (write_all cs o (write_to c' [o] w)). rewrite write_all_out by done. unfold write_to. by rewrite lookup_insert_eq.
  - fold (write_all cs o (write_to c' [o] w)). rewrite IH by done. rewrite write_to_other; [done|]. intros ->. done.
Qed.

(** One operation of somebody else: the client gets exactly the lines the session adds. *)
Lemma wire_step limit c s o :
  stream_Inv limit s -> c ∈ OMap.keys (sinks s) -> leaves c o = true ->
  c ∈ OMap.keys (sinks (apply limit s o)) /\
  exists out, wire_of c (apply limit s o) = wire_of c s ++ out /\ lines (apply limit s o) = lines s ++ lines_of out.
Proof.
  intros Hs Hc Ho. pose proof (sv_sinks _ _ Hs) as Hnd. unfold wire_of.
  assert (forall now e s', sinks s' = sinks s -> wire s' = wire s -> lines s' = lines s ->
    c ∈ OMap.keys (sinks (emit limit now e s')) /\
    exists out, default [] (wire (emit limit now e s') !! c) = default [] (wire s !! c) ++ out /\ lines (emit limit now e s') = lines s ++ lines_of out) as Hemit.
  { intros now e s' H1 H2 H3. cbn [emit sinks wire lines]. rewrite H1, H2, H3. split; [done|].
    eexists [OLine _]. split; [by apply write_all_in|]. cbn. reflexivity. }
  destruct o as [now e|now e|size cb chunked slim c' resume ms|c'| |]; cbn [apply leaves] in *.
  - unfold onEvent. set (mt := if is_event e "message_start" || _ then _ else _). destruct mt as [m tools].
    destruct (bool_decide _); [|by apply Hemit]. cbn. split; [done|]. exists []. by rewrite !app_nil_r.
  - by apply Hemit.
  - apply negb_true_iff, bool_decide_eq_false in Ho. split; [apply OMap.elem_keys_set; by right|]. exists []. cbn.
    rewrite write_to_other, !app_nil_r by congruence. done.
  - apply negb_true_iff, bool_decide_eq_false in Ho. split; [apply OMap.elem_keys_del; split; [congruence|done]|]. exists []. cbn. by rewrite !app_nil_r.
  - done.
  - split; [done|]. exists [OExtensionError]. split; [by apply write_all_in|]. cbn. by rewrite app_nil_r.
Qed.

Lemma wire_history limit c ops : forall s,
  stream_Inv limit s -> c ∈ OMap.keys (sinks s) -> forallb (leaves c) ops = true ->
  exists out, wire_of c (history limit s ops) = wire_of c s ++ out /\ lines (history limit s ops) = lines s ++ lines_of out.
Proof.
  induction ops as [|o ops IH]; cbn [history fold_left forallb]; intros s Hs Hc Ho.
  - exists []. by rewrite !app_nil_r.
  - apply andb_true_iff in Ho as [Ho Hos]. destruct (wire_step limit c s o Hs Hc Ho) as (Hc' & out & Hw & Hl).
    destruct (IH (apply limit s o) (stream_apply _ _ _ Hs) Hc' Hos) as (out' & Hw' & Hl'). exists (out ++ out').
    unfold history in Hw', Hl'. rewrite Hw', Hl', Hw, Hl, lines_of_app, !app_assoc. done.
Qed.

(** Where the lines a client gets begin: after its cursor when the replay is complete, after the snapshot otherwise. *)
Definition resume_point (r : ReplayStatus) (s : HostedSession) : Z :=
  match r with RComplete (Some n) => n | _ => sequence s end.

(** a client that attaches misses no event and gets none twice.  Whatever the session did before, and for
    everything it does until the client leaves, what the client is written is the attach's answer and then every line after the resume
    point, in order, once each; and the attach resumes at the client's cursor exactly when the cursor is of this
    generation and within the replay buffer. *)
Theorem attach_continues limit now id gen ops size chunkBytes chunked slim c resume ms ops' :
  let s := history limit (open_session now id gen) ops in
  let s' := history limit (attach size chunkBytes chunked slim c resume ms s) ops' in
  forallb (leaves c) ops' = true ->
  (exists stream, wire_of c s' = wire_of c s ++ handshake size chunkBytes chunked slim resume ms s ++ stream /\
     lines_of stream = after (resume_point (attach_replay resume s).1 s) s') /\
  match resume with
  | Some (mkCursor g (Some n)) =>
      (attach_replay resume s).1 = RComplete (Some n) <->
      (g = None \/ g = Some (s_generation s)) /\ Z.max 0 (sequence s - Z.of_nat limit) <= n <= sequence s
  | _ => True
  end.
Proof.
  intros s s' Hops. assert (stream_Inv limit s) as Hs by apply stream_history, stream_open.
  set (a := attach size chunkBytes chunked slim c resume ms s) in *.
  assert (stream_Inv limit a) as Ha by exact (stream_apply limit s (OpAttach size chunkBytes chunked slim c resume ms) Hs).
  destruct (wire_history limit c ops' a Ha) as (out & Hw & Hl); [apply OMap.elem_keys_set; by left|done|].
  assert (lines a = lines s) as Hla by done.
  assert (wire_of c a = wire_of c s ++ handshake size chunkBytes chunked slim resume ms s ++ map OLine (attach_replay resume s).2) as Hwa.
  { unfold wire_of, a, attach. cbn. unfold write_to. by rewrite lookup_insert_eq. }
  assert (stream_Inv limit s') as Hs' by by apply stream_history.
  assert (forall n, 0 <= n <= sequence s -> after n s ++ lines_of out = after n s') as Hafter.
  { intros n Hn. rewrite (after_drop limit s), (after_drop limit s') by done. unfold s'. rewrite Hl, Hla, drop_app_le; [done|].
    rewrite (sv_sequence _ _ Hs) in Hn. lia. }
  assert (after (sequence s) s = []) as Hend by (rewrite (after_drop limit) by done; apply drop_ge; rewrite (sv_sequence _ _ Hs); lia).
  assert (lines_of out = after (sequence s) s') as Hnone.
  { rewrite <- Hafter by (rewrite (sv_sequence _ _ Hs); lia). by rewrite Hend. }
  split.
  - exists (map OLine (attach_replay resume s).2 ++ out). split; [unfold s'; rewrite Hw, Hwa, <- !app_assoc; done|].
    rewrite lines_of_app. unfold attach_replay. destruct resume as [[g [n|]]|]; [|exact Hnone|exact Hnone].
    destruct (match g with None => true | Some g' => bool_decide (g' = s_generation s) end); [|exact Hnone].
    rewrite (replayAfter_spec limit) by done. destruct ((_ <=? n) && _) eqn:E; [|exact Hnone]. simp_ok. cbn [fst snd resume_point].
    rewrite lines_of_replay; [apply Hafter; lia|]. apply Forall_forall. intros l Hin. unfold after in Hin.
    apply list_elem_of_filter in Hin as [_ Hin]. apply list_elem_of_lookup in Hin as [i Hi]. by apply (sv_numbered _ _ Hs) in Hi as [_ ?].
  - destruct resume as [[g [n|]]|]; [|done|done]. unfold attach_replay. rewrite (replayAfter_spec limit) by done.
    assert ((match g with None => true | Some g' => bool_decide (g' = s_generation s) end) = true <-> g = None \/ g = Some (s_generation s)) as Hg.
    { destruct g as [g|]; [rewrite bool_decide_eq_true; naive_solver|naive_solver]. }
    destruct (match g with None => true | Some g' => bool_decide (g' = s_generation s) end).
    + destruct ((_ <=? n) && _) eqn:E; cbn; [simp_ok; split; [intros _; split; [by apply Hg|lia]|done]|].
      split; [done|]. intros [_ Hn]. exfalso. rewrite !(proj2 (Z.leb_le _ _)) in E by lia. done.
    + cbn. split; [done|]. intros [Hg' _]. apply Hg in Hg'. done.
Qed.

Lemma attach_continues_witness :
  let u t := mkEvent t None in
  let ops := [OpEvent 1 (u "a"); OpEvent 2 (u "entry_appended"); OpEvent 3 (u "b"); OpEvent 4 (u "c")]%string in
  let s := history 2 (open_session 0 "s" "g") ops in
  let s' := history 2 (attach (fun _ => 1) 10 false false "me" (Some (mkCursor (Some "g") (Some 1))) [] s) [OpEvent 5 (u "d")] in
  (exists stream, wire_of "me" s' = wire_of "me" s ++ handshake (fun _ => 1) 10 false false (Some (mkCursor (Some "g") (Some 1))) [] s ++ stream /\
    lines_of stream = after 1 s') /\ map (fun l => ev_type (l_event l)) (after 1 s') = ["b"; "c"; "d"]%string.
Proof.
  intros u ops s s'. split; [|reflexivity].
  apply (attach_continues 2 0 "s" "g" ops (fun _ => 1) 10 false false "me" (Some (mkCursor (Some "g"%string) (Some 1))) [] [OpEvent 5 (u "d"%string)]).
  reflexivity.
Defined.

(** ** The chunks of a snapshot *)

Definition total (size : Message -> Z) (ms : list Message) : Z := foldr (fun m n => size m + n) 0 ms.
Definition fits (size : Message -> Z) (chunkBytes : Z) (ms : list Message) : Prop := total size ms <= chunkBytes \/ length ms = 1%nat.

Lemma total_app size a b : total size (a ++ b) = total size a + total size b.
Proof. unfold total. induction a as [|m a IH]; cbn; [done|]. rewrite IH. lia. Qed.

Lemma chunk_loop_spec size chunkBytes ms : forall chunk bytes out,
  bytes = total size chunk -> fits size chunkBytes chunk \/ chunk = [] -> Forall (fun c => c <> [] /\ fits size chunkBytes c) out ->
  let '(out', chunk') := chunk_loop size chunkBytes ms chunk bytes out in
  concat out' ++ chunk' = concat out ++ chunk ++ ms /\ Forall (fun c => c <> [] /\ fits size chunkBytes c) out' /\
  (fits size chunkBytes chunk' \/ chunk' = []) /\ (ms <> [] -> chunk' <> []) /\ (ms = [] -> chunk' = chunk /\ out' = out).
Proof.
  induction ms as [|m ms IH]; cbn [chunk_loop]; intros chunk bytes out Hb Hc Ho; [by rewrite app_nil_r|].
  destruct ((0 <? length chunk)%nat && _) eqn:E.
  - apply andb_true_iff in E as [E _]. apply Nat.ltb_lt in E. assert (chunk <> []) by (intros ->; cbn in E; lia).
    specialize (IH [m] (size m) (out ++ [chunk])). destruct (chunk_loop _ _ _ _ _ _) as [out' chunk'].
    destruct IH as (H1 & H2 & H3 & H4 & H5); [cbn; lia|by left; right|apply Forall_app; split; [done|]; apply Forall_singleton; destruct Hc; by split|].
    split_and!; [|done|done| |done].
    + rewrite H1, concat_app. cbn. by rewrite app_nil_r, <- !app_assoc.
    + intros _. destruct ms; [by destruct H5 as [-> _]|by apply H4].
  - specialize (IH (chunk ++ [m]) (bytes + size m) out). destruct (chunk_loop _ _ _ _ _ _) as [out' chunk'].
    destruct IH as (H1 & H2 & H3 & H4 & H5); [rewrite total_app; cbn; lia| |done|].
    { left. destruct chunk as [|x chunk]; [by right|]. left. rewrite total_app. cbn [length Nat.ltb Nat.leb andb] in E. apply Z.ltb_ge in E. cbn. cbn in Hb. lia. }
    split_and!; [|done|done| |done].
    + rewrite H1. by rewrite <- !app_assoc.
    + intros _. destruct ms; [destruct H5 as [-> _]; [done|]; by destruct chunk|by apply H4].
Qed.

(** a chunked snapshot is the snapshot: at least one chunk goes out, the chunks in order are the messages, no chunk of a
    snapshot with messages is empty, and a chunk is over [chunkBytes] only when one message alone is. *)
Theorem snapshot_chunks_spec size chunkBytes ms :
  snapshot_chunks size chunkBytes ms <> [] /\ concat (snapshot_chunks size chunkBytes ms) = ms /\
  (ms <> [] -> Forall (fun c => c <> [] /\ fits size chunkBytes c) (snapshot_chunks size chunkBytes ms)).
Proof.
  unfold snapshot_chunks. pose proof (chunk_loop_spec size chunkBytes ms [] 0 [] eq_refl (or_intror eq_refl) (Forall_nil_2 _)) as H.
  destruct (chunk_loop _ _ _ _ _ _) as [out chunk]. destruct H as (H1 & H2 & H3 & H4 & H5). cbn [app concat] in H1.
  destruct ms as [|m ms].
  - destruct H5 as [-> ->]; [done|]. split_and!; done.
  - assert (chunk <> []) by by apply H4. destruct (0 <? length chunk)%nat eqn:E; [|destruct chunk; done]. cbn [orb]. split_and!.
    + by destruct out.
    + rewrite concat_app. cbn. by rewrite app_nil_r.
    + intros _. apply Forall_app. split; [done|]. apply Forall_singleton. split; [done|]. by destruct H3.
Qed.
