(* ===== verification/HostSessions.v ===== *)
(** * Opening and closing sessions in a host

    The session lifecycle of [packages/pi-host/src/host.ts]: [openSession], [openFresh],
    [kill] and [unloadIdle], over the leases of [Lease].  The code awaits Pi three times in an
    open (the runtime, the extensions, the model) and once in a kill (the dispose); each
    stretch between two awaits is one function here, and a task is what waits.  Pi's
    answers, the ids it gives and what other processes do to the lock files are the steps' choice.

    [runtimes] is not a field of the host: it is the runtimes Pi has made and nobody has
    disposed, each with the file it writes. *)

From S2P Require Import Prelude Registry Session Lease.

Inductive OpenPhase := Creating | Binding (runtime : nat) | SettingModel (runtime : nat).
Record Opening := mkOpening { o_path : option string; o_id : string; o_real : option string; o_phase : OpenPhase }.
Record Killing := mkKilling { k_real : option string; k_runtime : nat }.
Inductive Task := TOpening (o : Opening) | TKilling (k : Killing).

(** A session in the map: its runtime and the real path of its file. *)
Record Held := mkHeld { h_real : option string; h_runtime : nat }.

Record Host := mkHost {
  h_sessions : gmap string Held;
  h_held : gmap string string;
  h_fs : FS;
  h_opening : gmap string nat;
  h_tasks : gmap nat Task;
  h_next : nat;
  h_closing : bool;
  runtimes : gmap nat (option string)
}.

Definition with_leases (held : gmap string string) (fs : FS) (h : Host) : Host :=
  mkHost (h_sessions h) held fs (h_opening h) (h_tasks h) (h_next h) (h_closing h) (runtimes h).
Definition with_sessions (ss : gmap string Held) (h : Host) : Host :=
  mkHost ss (h_held h) (h_fs h) (h_opening h) (h_tasks h) (h_next h) (h_closing h) (runtimes h).
Definition with_tasks (ts : gmap nat Task) (h : Host) : Host :=
  mkHost (h_sessions h) (h_held h) (h_fs h) (h_opening h) ts (h_next h) (h_closing h) (runtimes h).
Definition with_runtimes (rs : gmap nat (option string)) (h : Host) : Host :=
  mkHost (h_sessions h) (h_held h) (h_fs h) (h_opening h) (h_tasks h) (h_next h) (h_closing h) rs.
Definition with_opening (os : gmap string nat) (h : Host) : Host :=
  mkHost (h_sessions h) (h_held h) (h_fs h) os (h_tasks h) (h_next h) (h_closing h) (runtimes h).
Definition bump (h : Host) : Host :=
  mkHost (h_sessions h) (h_held h) (h_fs h) (h_opening h) (h_tasks h) (S (h_next h)) (h_closing h) (runtimes h).

Definition start_task (t : Task) (h : Host) : Host := bump (with_tasks (<[h_next h := t]> (h_tasks h)) h).
Definition end_task (t : nat) (h : Host) : Host := with_tasks (delete t (h_tasks h)) h.

Section Host.
(** Which other processes run, this one's id, the file system's real paths. *)
Context (running : Z -> bool) (pid : Z) (real : string -> string).

(** What the caller of [openSession] waits for. *)
Inductive OpenResult := OThrow (message : string) | OLoaded (sessionId : string) | OTask (task : nat).

(** [openFresh] up to the await of [createRuntime]: the manager's session id and file are given. *)
Definition openFresh (now : Z) (path : option string) (exists_ : bool) (sessionId : string) (file : option string) (h : Host) : OpenResult * Host :=
  if (match path with Some _ => negb exists_ | None => false end)
  then (OThrow ("No session file at " +:+ default ""%string path +:+ ".")%string, h)
  else
    match file with
    | None => (OTask (h_next h), start_task (TOpening (mkOpening path sessionId None Creating)) h)
    | Some f =>
        match acquire running pid now real "pi-host" f sessionId (h_held h) (h_fs h) with
        | (inl _, held, fs) => (OThrow "session_already_active", with_leases held fs h)
        | (inr r, held, fs) => (OTask (h_next h), start_task (TOpening (mkOpening path sessionId (Some r) Creating)) (with_leases held fs h))
        end
    end.

Definition openSession (now : Z) (path : option string) (dir_exists exists_ : bool) (sessionId : string) (file : option string) (h : Host) : OpenResult * Host :=
  if h_closing h then (OThrow "pi-host is shutting down.", h)
  else
    let loaded := p ← path; holder ← holderOf real dir_exists p (h_held h); _ ← h_sessions h !! holder; Some holder in
    match loaded with
    | Some id => (OLoaded id, h)
    | None =>
        match (p ← path; h_opening h !! p) with
        | Some t => (OTask t, h)
        | None =>
            match openFresh now path exists_ sessionId file h with
            | (OTask t, h') => (OTask t, match path with Some p => with_opening (<[p := t]> (h_opening h')) h' | None => h' end)
            | r => r
            end
        end
    end.

(** The open settles: [openSession]'s [finally]. *)
Definition settle (t : nat) (o : Opening) (h : Host) : Host :=
  let h' := end_task t h in
  match o_path o with Some p => with_opening (delete p (h_opening h')) h' | None => h' end.

(** The [catch] of [openFresh]. *)
Definition open_failed (t : nat) (o : Opening) (h : Host) : Host :=
  let h1 := with_sessions (delete (o_id o) (h_sessions h)) h in
  let h2 := match o_real o with
            | Some r => let '(held, fs) := release pid r (h_held h1) (h_fs h1) in with_leases held fs h1
            | None => h1
            end in
  settle t o h2.

(** [createRuntime] answers: the session enters the map, and the extensions are bound. *)
Definition runtime_created (t : nat) (h : Host) : Host :=
  match h_tasks h !! t with
  | Some (TOpening (mkOpening path id r Creating)) =>
      let n := h_next h in
      bump (with_tasks (<[t := TOpening (mkOpening path id r (Binding n))]> (h_tasks h))
        (with_sessions (<[id := mkHeld r n]> (h_sessions h)) (with_runtimes (<[n := r]> (runtimes h)) h)))
  | _ => h
  end.

(** An await of the open rejects. *)
Definition open_rejected (t : nat) (h : Host) : Host :=
  match h_tasks h !! t with Some (TOpening o) => open_failed t o h | _ => h end.

(** [bindExtensions] resolves; [asks] is whether the host's default model is to be set. *)
Definition extensions_bound (asks : bool) (t : nat) (h : Host) : Host :=
  match h_tasks h !! t with
  | Some (TOpening (mkOpening path id r (Binding n))) =>
      if asks then with_tasks (<[t := TOpening (mkOpening path id r (SettingModel n))]> (h_tasks h)) h
      else settle t (mkOpening path id r (Binding n)) h
  | _ => h
  end.

Definition model_set (t : nat) (h : Host) : Host :=
  match h_tasks h !! t with
  | Some (TOpening (mkOpening path id r (SettingModel n))) => settle t (mkOpening path id r (SettingModel n)) h
  | _ => h
  end.

(** [kill] up to the await of [session.dispose()], and after it, whether it resolved or rejected. *)
Definition kill (sessionId : string) (h : Host) : Host :=
  match h_sessions h !! sessionId with
  | None => h
  | Some (mkHeld r n) => start_task (TKilling (mkKilling r n)) (with_sessions (delete sessionId (h_sessions h)) h)
  end.

Definition disposed (t : nat) (h : Host) : Host :=
  match h_tasks h !! t with
  | Some (TKilling (mkKilling r n)) =>
      let h1 := with_runtimes (delete n (runtimes h)) h in
      let h2 := match r with
                | Some p => let '(held, fs) := release pid p (h_held h1) (h_fs h1) in with_leases held fs h1
                | None => h1
                end in
      end_task t h2
  | _ => h
  end.

(** One round of [unloadIdle]: the session's state as the round reads it. *)
Definition idle (now limit : Z) (rt : Runtime) (store : Store) (s : HostedSession) : bool :=
  negb (busy rt || (0 <? Z.of_nat (length (sinks s))) || (0 <? pendingMessageCount rt))
  && negb (existsb (fun c => bool_decide (a_activity c = AWorking)) (childrenOf (s_id s) store))
  && negb (now - lastActivityAt s <? limit).
Definition unload_one (now limit : Z) (rt : Runtime) (store : Store) (s : HostedSession) (h : Host) : Host :=
  if idle now limit rt store s then kill (s_id s) h else h.

Inductive hstep : Host -> Host -> Prop :=
| h_open now path dir_exists exists_ id file h : hstep h (openSession now path dir_exists exists_ id file h).2
| h_created t h : hstep h (runtime_created t h)
| h_unmade t o h : h_tasks h !! t = Some (TOpening o) -> o_phase o = Creating -> hstep h (open_rejected t h)
| h_bound asks t h : hstep h (extensions_bound asks t h)
| h_model t h : hstep h (model_set t h)
| h_kill id h : hstep h (kill id h)
| h_idle now limit rt store s h : hstep h (unload_one now limit rt store s h)
| h_disposed t h : hstep h (disposed t h)
| h_close h : hstep h (mkHost (h_sessions h) (h_held h) (h_fs h) (h_opening h) (h_tasks h) (h_next h) true (runtimes h))
| h_others fs h : hstep h (with_leases (h_held h) fs h).

(** The hosts no open of which failed once its runtime was made. *)
Inductive hreachable : Host -> Prop :=
| hr_init fs : hreachable (mkHost ∅ ∅ fs ∅ ∅ 0 false ∅)
| hr_step h h' : hreachable h -> hstep h h' -> hreachable h'.
End Host.

(** ** One runtime per file *)

(** Who may write the file [p]: an open that waits for its runtime, or a live runtime. *)
Definition token (h : Host) (p : string) (x : nat + nat) : Prop :=
  match x with
  | inl t => exists o, h_tasks h !! t = Some (TOpening o) /\ o_phase o = Creating /\ o_real o = Some p
  | inr n => runtimes h !! n = Some (Some p)
  end.

(** Who will dispose the runtime [n]: the session in the map, or the kill under way. *)
Definition handle (h : Host) (n : nat) (r : option string) (y : string + nat) : Prop :=
  match y with
  | inl id => h_sessions h !! id = Some (mkHeld r n)
  | inr t => h_tasks h !! t = Some (TKilling (mkKilling r n))
  end.

Record host_Inv (h : Host) : Prop := {
  hi_leased : forall p x, token h p x -> is_Some (h_held h !! p);
  hi_one : forall p x y, token h p x -> token h p y -> x = y;
  hi_live : forall n r y, handle h n r y -> runtimes h !! n = Some r;
  hi_disposer : forall n r r' y y', handle h n r y -> handle h n r' y' -> y = y';
  hi_fresh : forall k, (h_next h <= k)%nat -> h_tasks h !! k = None /\ runtimes h !! k = None
}.

Lemma release_held pid p held fs q held' fs' :
  release pid p held fs = (held', fs') -> q <> p -> is_Some (held !! q) -> is_Some (held' !! q).
Proof. unfold release. destruct (held !! p); intros [= <- <-]; [|done]. intros. by rewrite lookup_delete_ne. Qed.

(** Steps that keep the leases, the runtimes and who may write: they only move what disposes them. *)
Lemma inv_same h h' :
  host_Inv h -> h_held h' = h_held h -> runtimes h' = runtimes h -> (h_next h <= h_next h')%nat ->
  (forall k o, h_tasks h' !! k = Some (TOpening o) -> o_phase o = Creating -> h_tasks h !! k = Some (TOpening o)) ->
  (forall n r y, handle h' n r y -> exists z, handle h n r z) ->
  (forall n r r' y y', handle h' n r y -> handle h' n r' y' -> y = y') ->
  (forall k, (h_next h' <= k)%nat -> h_tasks h' !! k = None) ->
  host_Inv h'.
Proof.
  intros [H1 H2 H3 H4 H5] Hheld Hrun Hnext Hopen Hhandle Hone Hfresh.
  assert (forall p x, token h' p x -> token h p x) as Htok.
  { intros p [t|n]; cbn; [intros (o & Ho & Hp & Hr); exists o; split_and!; [by apply Hopen|done..]|by rewrite Hrun]. }
  split.
  - intros p x Hx. rewrite Hheld. by eapply H1, Htok.
  - intros p x y Hx Hy. by apply (H2 p); apply Htok.
  - intros n r y Hy. rewrite Hrun. destruct (Hhandle _ _ _ Hy) as [z Hz]. by eapply H3.
  - done.
  - intros k Hk. split; [by apply Hfresh|]. rewrite Hrun. apply H5. lia.
Qed.

Ltac lookups := repeat match goal with
  | H : <[_ := _]> _ !! _ = Some _ |- _ => apply lookup_insert_Some in H as [[? ?]|[? ?]]; simplify_eq
  | H : delete _ _ !! _ = Some _ |- _ => apply lookup_delete_Some in H as [? ?]
  end.

(** An open that ends without leaving a writer. *)
Lemma inv_settle t o h : host_Inv h -> host_Inv (settle t o h).
Proof.
  intros H. unfold settle. assert (host_Inv (end_task t h)) as He.
  { apply (inv_same h); cbn; [done|done|done|lia|intros; by lookups| | |].
    - intros n r [id|k]; cbn; intros Hy; lookups; [by exists (inl id)|by exists (inr k)].
    - intros n r r' y y' Hy Hy'. apply (hi_disposer h H n r r'); [destruct y|destruct y']; cbn in *; by lookups.
    - intros k Hk. apply lookup_delete_None. right. by apply (hi_fresh h H). }
  destruct (o_path o); [|done]. destruct He. by split.
Qed.

(** The lease of a path nobody may write any more goes. *)
Lemma inv_release pid p h held fs :
  host_Inv h -> (forall x, token h p x -> False) -> release pid p (h_held h) (h_fs h) = (held, fs) -> host_Inv (with_leases held fs h).
Proof.
  intros [H1 H2 H3 H4 H5] Hno Hr. split; cbn; [|done..]. intros q x Hx. pose proof (H1 q x Hx) as Hq.
  eapply release_held; [exact Hr| |exact Hq]. intros ->. by apply (Hno x).
Qed.

Lemma inv_acquired running pid now real f id h r held fs t o :
  host_Inv h -> acquire running pid now real "pi-host" f id (h_held h) (h_fs h) = (inr r, held, fs) ->
  t = TOpening o -> o_real o = Some r -> host_Inv (start_task t (with_leases held fs h)).
Proof.
  intros [H1 H2 H3 H4 H5] Ha -> Hr.
  assert (h_held h !! r = None /\ held = <[r := id]> (h_held h)) as [Hnone ->].
  { unfold acquire in Ha. destruct (h_held h !! real f) eqn:E; [done|]. destruct (takeLock _ _ _ _ _ _) as [[] ?]; by simplify_eq. }
  destruct (H5 (h_next h)) as [Ht Hn]; [lia|].
  assert (forall p x, token (start_task (TOpening o) (with_leases (<[r := id]> (h_held h)) fs h)) p x -> (x = inl (h_next h) /\ p = r) \/ (token h p x /\ p <> r)) as Htok.
  { assert (forall p x, token h p x -> p <> r) as Hne by (intros p x Hx ->; apply H1 in Hx; rewrite Hnone in Hx; by destruct Hx).
    intros p [t|n]; cbn.
    - intros (o' & Ho & Hp & Hr'). lookups; [left; by simplify_eq|]. right. assert (token h p (inl t)) as Hx by by exists o'. split; [done|by eapply Hne].
    - intros Hx. right. split; [done|]. by eapply (Hne p (inr n)). }
  assert (forall n r' y, handle (start_task (TOpening o) (with_leases (<[r := id]> (h_held h)) fs h)) n r' y -> handle h n r' y) as Hhan.
  { intros n r' [i|t]; cbn; [done|]. intros Hx. by lookups. }
  split.
  - intros p x Hx. cbn. destruct (Htok p x Hx) as [[_ ->]|[Hx' Hne]]; [rewrite lookup_insert_eq; by eexists|].
    rewrite lookup_insert_ne by done. by eapply H1.
  - intros p x y Hx Hy. destruct (Htok p x Hx) as [[-> ->]|[Hx' Hne]], (Htok _ y Hy) as [[-> ?]|[Hy' ?]]; try done. by eapply H2.
  - intros n r' y Hy. cbn. by eapply H3, Hhan.
  - intros n r1 r2 y y' Hy Hy'. eapply H4; by apply Hhan.
  - intros k Hk. cbn in Hk. cbn. rewrite lookup_insert_ne by lia. apply H5. lia.
Qed.

Lemma inv_created t h : host_Inv h -> host_Inv (runtime_created t h).
Proof.
  intros H. unfold runtime_created. destruct (h_tasks h !! t) as [[[path id r []]|]|] eqn:Et; try done.
  destruct H as [H1 H2 H3 H4 H5]. set (n := h_next h). destruct (H5 n) as [Htn Hrn]; [done|].
  set (h' := bump _). assert (t <> n) as Htne by (intros ->; congruence).
  assert (forall p x, token h' p x -> (x = inr n /\ r = Some p) \/ (token h p x /\ x <> inl t)) as Htok.
  { intros p [k|k]; cbn.
    - intros (o & Ho & Hp & Hr). lookups. right. split; [by exists o|congruence].
    - intros Hx. lookups; [by left|]. right. done. }
  assert (forall p, r = Some p -> token h p (inl t)) as Hmine by (intros p ->; by eexists).
  assert (forall m r' y, handle h' m r' y -> (m = n /\ r' = r /\ y = inl id) \/ (handle h m r' y /\ y <> inl id)) as Hhan.
  { intros m r' [i|k]; cbn; intros Hx; lookups; [by left|right; split; [done|congruence]|by right]. }
  assert (forall r' y, ~ handle h n r' y) as Hnot by (intros r' y Hy; apply H3 in Hy; congruence).
  split.
  - intros p x Hx. change (h_held h') with (h_held h). destruct (Htok p x Hx) as [[_ Hr]|[Hx' _]]; [by eapply H1, Hmine|by eapply H1].
  - intros p x y Hx Hy. destruct (Htok p x Hx) as [[-> Hr]|[Hx' Hnx]], (Htok p y Hy) as [[-> Hr']|[Hy' Hny]]; [done| | |by eapply H2].
    + destruct Hny. by eapply (H2 p); [|apply Hmine].
    + destruct Hnx. by eapply (H2 p); [|apply Hmine].
  - intros m r' y Hy. cbn. destruct (Hhan m r' y Hy) as [(-> & -> & _)|[Hy' _]]; [apply lookup_insert_eq|].
    rewrite lookup_insert_ne; [by eapply H3|]. intros <-. by eapply Hnot.
  - intros m r1 r2 y y' Hy Hy'. destruct (Hhan m r1 y Hy) as [(-> & -> & ->)|[Hy1 _]], (Hhan _ r2 y' Hy') as [(? & -> & ->)|[Hy2 _]]; subst; try done.
    + by apply Hnot in Hy2.
    + by apply Hnot in Hy1.
    + by eapply H4.
  - intros k Hk. assert (S (h_next h) <= k)%nat as Hk' by exact Hk. destruct (H5 k) as [Hk1 Hk2]; [lia|].
    cbn. rewrite lookup_insert_ne by congruence. rewrite lookup_insert_ne by (unfold n; lia). done.
Qed.

Lemma inv_kill id h : host_Inv h -> host_Inv (kill id h).
Proof.
  intros H. unfold kill. destruct (h_sessions h !! id) as [[r n]|] eqn:Es; [|done].
  destruct (hi_fresh h H (h_next h)) as [Hfree _]; [done|].
  assert (forall m r' y, handle (start_task (TKilling (mkKilling r n)) (with_sessions (delete id (h_sessions h)) h)) m r' y ->
    (m = n /\ r' = r /\ y = inr (h_next h)) \/ (handle h m r' y /\ y <> inl id)) as Hhan.
  { intros m r' [i|k]; cbn; intros Hx; lookups; [right; split; [done|congruence]|by left|right; done]. }
  assert (handle h n r (inl id)) as Hme by done.
  apply (inv_same h); cbn; [done|done|done|lia| | | |].
  - intros k o Ho _. lookups. done.
  - intros m r' y Hy. destruct (Hhan m r' y Hy) as [(-> & -> & _)|[Hy' _]]; by eexists.
  - intros m r1 r2 y y' Hy Hy'. destruct (Hhan m r1 y Hy) as [(-> & -> & ->)|[Hy1 Hne]], (Hhan _ r2 y' Hy') as [(? & -> & ->)|[Hy2 Hne']]; subst; try done.
    + destruct Hne'. by eapply (hi_disposer h H n r2 r).
    + destruct Hne. by eapply (hi_disposer h H n r1 r).
    + by eapply (hi_disposer h H m r1 r2).
  - intros k Hk. rewrite lookup_insert_ne by lia. apply (hi_fresh h H). lia.
Qed.

Lemma inv_disposed pid t h : host_Inv h -> host_Inv (disposed pid t h).
Proof.
  intros H. unfold disposed. destruct (h_tasks h !! t) as [[|[r n]]|] eqn:Et; try done.
  assert (handle h n r (inr t)) as Hme by done. pose proof (hi_live h H _ _ _ Hme) as Hlive.
  set (h1 := end_task t (with_runtimes (delete n (runtimes h)) h)).
  assert (host_Inv h1 /\ forall p x, r = Some p -> token h1 p x -> False) as [Hi1 Hno].
  { destruct H as [H1 H2 H3 H4 H5].
    assert (forall p x, token h1 p x -> token h p x /\ x <> inr n) as Htok.
    { intros p [k|k]; cbn; [intros (o & Ho & Hp & Hr); lookups; split; [by exists o|done]|intros Hx; lookups; split; [done|congruence]]. }
    assert (forall m r' y, handle h1 m r' y -> handle h m r' y /\ y <> inr t) as Hhan.
    { intros m r' [i|k]; cbn; intros Hx; lookups; (split; [done|congruence]). }
    split; [split|].
    - intros p x Hx. apply Htok in Hx as [Hx _]. by eapply H1.
    - intros p x y Hx Hy. apply Htok in Hx as [Hx _], Hy as [Hy _]. by eapply H2.
    - intros m r' y Hy. apply Hhan in Hy as [Hy Hne]. cbn. rewrite lookup_delete_ne; [by eapply H3|]. intros <-. destruct Hne. by eapply H4.
    - intros m r1 r2 y y' Hy Hy'. apply Hhan in Hy as [Hy _], Hy' as [Hy' _]. by eapply H4.
    - intros k Hk. cbn. rewrite !lookup_delete_None. destruct (H5 k Hk). tauto.
    - intros p x -> Hx. apply Htok in Hx as [Hx Hne]. destruct Hne. by eapply (H2 p). }
  destruct r as [p|]; [|exact Hi1].
  change (h_held (with_runtimes (delete n (runtimes h)) h)) with (h_held h1). change (h_fs (with_runtimes (delete n (runtimes h)) h)) with (h_fs h1).
  destruct (release pid p (h_held h1) (h_fs h1)) as [held fs] eqn:Er.
  exact (inv_release pid p h1 held fs Hi1 (fun x Hx => Hno p x eq_refl Hx) Er).
Qed.

Section Safety.
Context (running : Z -> bool) (pid : Z) (real : string -> string).

Lemma acquire_refused now f id held fs x held' fs' :
  acquire running pid now real "pi-host" f id held fs = (inl x, held', fs') -> held' = held.
Proof. unfold acquire. destruct (held !! real f); [by intros [= _ <- _]|]. destruct (takeLock _ _ _ _ _ _) as [[] ?]; by intros [= _ <- _]. Qed.

Lemma inv_others h fs : host_Inv h -> host_Inv (with_leases (h_held h) fs h).
Proof. intros H. by destruct H. Qed.

Lemma inv_openFresh now path exists_ id file h : host_Inv h -> host_Inv (openFresh running pid real now path exists_ id file h).2.
Proof.
  intros H. unfold openFresh. destruct (match path with Some _ => _ | None => _ end); [done|]. destruct file as [f|].
  - destruct (acquire _ _ _ _ _ _ _ _ _) as [[[x|r] held] fs] eqn:E; cbn.
    + apply acquire_refused in E as ->. by apply inv_others.
    + by eapply inv_acquired.
  - destruct H as [H1 H2 H3 H4 H5]. set (h' := start_task _ h).
    assert (forall p x, token h' p x -> token h p x) as Htok.
    { intros p [k|k]; cbn; [|done]. intros (o & Ho & Hp & Hr). lookups. by exists o. }
    assert (forall n r y, handle h' n r y -> handle h n r y) as Hhan by (intros n r [i|k]; cbn; [done|intros Hx; by lookups]).
    split.
    + intros p x Hx. by eapply H1, Htok.
    + intros p x y Hx Hy. by apply (H2 p); apply Htok.
    + intros n r y Hy. by eapply H3, Hhan.
    + intros n r r' y y' Hy Hy'. eapply H4; by apply Hhan.
    + intros k Hk. assert (S (h_next h) <= k)%nat as Hk' by exact Hk. destruct (H5 k) as [Hk1 Hk2]; [lia|].
      cbn. by rewrite lookup_insert_ne by lia.
Qed.

Lemma inv_failed t o h : host_Inv h -> h_tasks h !! t = Some (TOpening o) -> o_phase o = Creating -> host_Inv (open_failed pid t o h).
Proof.
  intros H Ht Ho. unfold open_failed. set (h1 := with_sessions (delete (o_id o) (h_sessions h)) h).
  assert (host_Inv h1) as Hd.
  { apply (inv_same h); cbn; [done|done|done|lia|done| | |].
    - intros n r [i|k]; cbn; intros Hy; lookups; [by exists (inl i)|by exists (inr k)].
    - intros n r r' y y' Hy Hy'. apply (hi_disposer h H n r r'); [destruct y|destruct y']; cbn in *; by lookups.
    - intros k Hk. by apply (hi_fresh h H). }
  pose proof (inv_settle t o h1 Hd) as Hset. destruct (o_real o) as [p|] eqn:Er; [|done].
  destruct (release pid p (h_held h1) (h_fs h1)) as [held fs] eqn:E.
  assert (settle t o (with_leases held fs h1) = with_leases held fs (settle t o h1)) as -> by (unfold settle; by destruct (o_path o)).
  eapply inv_release; [done| |unfold settle; destruct (o_path o); exact E].
  assert (token h1 p (inl t)) as Hme by by exists o.
  intros x Hx. assert (token h1 p x /\ x <> inl t) as [Hx' Hne]; [|destruct Hne; by eapply (hi_one h1 Hd p)].
  revert Hx. unfold settle. destruct x as [k|k]; destruct (o_path o); cbn; intros Hx; try done;
    destruct Hx as (o' & Hx & Hp); lookups; (split; [by exists o'|congruence]).
Qed.

Lemma inv_step h h' : host_Inv h -> hstep running pid real h h' -> host_Inv h'.
Proof.
  intros H Hs. destruct Hs as [now path dir_exists exists_ id file h|t h|t o h Ht Ho|asks t h|t h|id h|now limit rt store s h|t h|h|fs h].
  - unfold openSession. destruct (h_closing h); [done|]. cbn zeta. destruct (p ← path; holder ← _; _ ← _; Some holder); [done|].
    destruct (p ← path; h_opening h !! p); [done|]. pose proof (inv_openFresh now path exists_ id file h H) as Hf.
    destruct (openFresh _ _ _ _ _ _ _ _ _) as [[m|i|t] h1]; cbn in *; [done|done|]. destruct path; [|done]. destruct Hf. by split.
  - by apply inv_created.
  - unfold open_rejected. rewrite Ht. by apply inv_failed.
  - unfold extensions_bound. destruct (h_tasks h !! t) as [[[path id r [|n|]]|]|] eqn:Et; try done. destruct asks; [|by apply inv_settle].
    assert (forall n' r' y, handle (with_tasks (<[t := TOpening (mkOpening path id r (SettingModel n))]> (h_tasks h)) h) n' r' y -> handle h n' r' y) as Hhan.
    { intros n' r' [i|k]; cbn; [done|intros Hx; by lookups]. }
    apply (inv_same h); cbn; [done|done|done|lia|intros k o Ho Hp; by lookups|intros n' r' y Hy; eexists; by apply Hhan| |].
    + intros n' r1 r2 y y' Hy Hy'. apply (hi_disposer h H n' r1 r2); by apply Hhan.
    + intros k Hk. destruct (hi_fresh h H k Hk) as [Hk' _]. rewrite lookup_insert_ne; [done|congruence].
  - unfold model_set. destruct (h_tasks h !! t) as [[[path id r []]|]|]; try done. by apply inv_settle.
  - by apply inv_kill.
  - unfold unload_one. destruct (idle _ _ _ _ _); [by apply inv_kill|done].
  - by apply inv_disposed.
  - destruct H. by split.
  - by apply inv_others.
Qed.

Lemma inv_reach h : hreachable running pid real h -> host_Inv h.
Proof.
  induction 1 as [fs|h h' _ IH Hs]; [|by eapply inv_step]. split; cbn.
  - intros p [t|n]; cbn; [intros (o & Ho & _)|]; by rewrite lookup_empty in *.
  - intros p [t|n]; cbn; [intros y (o & Ho & _)|intros y]; by rewrite lookup_empty in *.
  - intros n r [id|t]; cbn; by rewrite lookup_empty.
  - intros n r r' [id|t] y'; cbn; by rewrite lookup_empty.
  - intros k _. by rewrite !lookup_empty.
Qed.

(** C11: a host never has two runtimes on one session file, and a live runtime's file is leased, in every
    interleaving of opens, kills, idle unloads and their awaits, as long as no open fails after its runtime was made. *)
Theorem one_runtime_per_file h n n' p :
  hreachable running pid real h -> runtimes h !! n = Some (Some p) -> runtimes h !! n' = Some (Some p) ->
  n = n' /\ is_Some (h_held h !! p).
Proof.
  intros Hh Hn Hn'. destruct (inv_reach h Hh) as [H1 H2 _ _ _].
  pose proof (H2 p (inr n) (inr n') Hn Hn') as [= ->]. split; [done|]. by apply (H1 p (inr n')).
Qed.

(** an open that fails once its runtime is made, in the extensions or in the model, gives its lease up and forgets the session, and leaves the
    runtime alive with no one to dispose it; the next open of the file then passes the lease map. *)
Theorem failed_open_leaks_runtime h t o n p :
  h_tasks h !! t = Some (TOpening o) -> o_phase o = Binding n \/ o_phase o = SettingModel n -> o_real o = Some p ->
  runtimes h !! n = Some (Some p) -> is_Some (h_held h !! p) ->
  let h' := open_rejected pid t h in
  runtimes h' !! n = Some (Some p) /\ h_sessions h' !! o_id o = None /\ h_tasks h' !! t = None /\ h_held h' !! p = None.
Proof.
  intros Ht _ Hr Hn [id Hid] h'. unfold h', open_rejected. rewrite Ht. unfold open_failed. rewrite Hr. unfold release. cbn. rewrite Hid.
  unfold settle. destruct (o_path o); cbn; split_and!; try done; by rewrite lookup_delete_eq.
Qed.
End Safety.

(** A host with two opens of one file, the first of which failed in its extensions: two runtimes write the file. *)
Definition opens (h : Host) : Host := (openSession (fun _ => false) 1 id 0 (Some "/s"%string) true true "s" (Some "/s"%string) h).2.
Definition empty_host : Host := mkHost ∅ ∅ (mkFS ∅ 0) ∅ ∅ 0 false ∅.
Definition bound_once : Host := runtime_created 0 (opens empty_host).

Lemma failed_open_leaks_runtime_witness :
  (let h' := open_rejected 1 0 bound_once in
   runtimes h' !! 1%nat = Some (Some "/s"%string) /\ h_sessions h' !! "s"%string = None /\ h_tasks h' !! 0%nat = None /\ h_held h' !! "/s"%string = None) /\
  let h'' := runtime_created 2 (opens (open_rejected 1 0 bound_once)) in
  runtimes h'' !! 1%nat = Some (Some "/s"%string) /\ runtimes h'' !! 3%nat = Some (Some "/s"%string).
Proof.
  split; [|split; vm_compute; reflexivity].
  apply (failed_open_leaks_runtime 1 bound_once 0 (mkOpening (Some "/s"%string) "s" (Some "/s"%string) (Binding 1)) 1 "/s");
    [reflexivity|by left|reflexivity|reflexivity|by eexists].
Defined.

Lemma one_runtime_per_file_witness :
  hreachable (fun _ => false) 1 id bound_once /\ (1%nat = 1%nat /\ is_Some (h_held bound_once !! "/s"%string)).
Proof.
  assert (hreachable (fun _ => false) 1 id bound_once) as Hh.
  { apply (hr_step _ _ _ (opens empty_host)); [|apply h_created]. apply (hr_step _ _ _ empty_host); [apply hr_init|apply h_open]. }
  split; [done|]. apply (one_runtime_per_file _ _ _ bound_once 1 1 "/s" Hh); reflexivity.
Defined.
