(* ===== verification/Bus.v ===== *)
(** * The agent bus

    [packages/pi-rlm/src/core/bus]: who may write to whom ([family.ts]), the soft caps
    ([limits.ts]), the shapes of a message and its receipt ([message.ts]), the process-wide
    state ([state.ts]) and the two ways to send ([route.ts]).  What a delivery does in the
    target session is [Inbox]; here it is the argument [deliver], which answers or throws.
    [localeCompare] is the argument [name_le], SHA-256 the argument [sha256], and [members]
    what [allMembers] found. *)

From S2P Require Import Prelude Registry.

(** ** The family *)

Inductive Relationship := Parent | Sibling | Child.
#[export] Instance Relationship_eq : EqDecision Relationship.
Proof. solve_decision. Defined.

Record Member := mkMember { mb_id : string; mb_name : string; mb_role : AgentRole; mb_parentId : option string; mb_depth : Z }.

Definition relationship (self other : Member) : option Relationship :=
  if bool_decide (mb_id self = mb_id other) then None
  else if bool_decide (mb_parentId self = Some (mb_id other)) then Some Parent
  else if bool_decide (mb_parentId other = Some (mb_id self)) then Some Child
  else if negb (bool_decide (mb_depth self = mb_depth other)) then None
  else match mb_parentId self, mb_parentId other with
       | Some p, Some p' => if bool_decide (p = p') then Some Sibling else None
       | None, None => if bool_decide (mb_depth self = 0) then Some Sibling else None
       | _, _ => None
       end.

Definition ORDER (r : Relationship) : Z := match r with Parent => 0 | Sibling => 1 | Child => 2 end.

(** A member and the way to it; a remote root goes to another process. *)
Inductive Known := KLive (m : Member) | KDormant (m : Member) | KRemote (m : Member).
Definition member_of (k : Known) : Member := match k with KLive m | KDormant m | KRemote m => m end.

Section Family.
Context (name_le : string -> string -> bool).

Definition roster_le (a b : Relationship * Known) : bool :=
  if ORDER a.1 =? ORDER b.1 then name_le (mb_name (member_of a.2)) (mb_name (member_of b.2)) else ORDER a.1 <? ORDER b.1.

(** The first row of each id, with what it is to [self]. *)
Fixpoint relatives (self : Member) (seen : list string) (items : list Known) : list (Relationship * Known) :=
  match items with
  | [] => []
  | k :: r =>
      let id := mb_id (member_of k) in
      if bool_decide (id ∈ seen) then relatives self seen r
      else match relationship self (member_of k) with
           | Some rel => (rel, k) :: relatives self (id :: seen) r
           | None => relatives self (id :: seen) r
           end
  end.

Definition family (self : Member) (items : list Known) : list (Relationship * Known) := sort_by roster_le (relatives self [] items).
End Family.

(** ** Messages and receipts *)

Inductive DeliveryMode := Auto | Steer | FollowUp.
#[export] Instance DeliveryMode_eq : EqDecision DeliveryMode.
Proof. solve_decision. Defined.
Inductive Delivery := Started | Queued.
#[export] Instance Delivery_eq : EqDecision Delivery.
Proof. solve_decision. Defined.

(** A JSON value of a kernel request. *)
Inductive Val := VUndefined | VNull | VString (s : string) | VOther.

Record Endpoint := mkEndpoint { en_id : string; en_name : string; en_subagent : bool; en_clientId : option string }.
Record BusMessage := mkBus { b_id : string; b_from : string * string * string; b_text : string; b_mode : DeliveryMode; b_sentAt : Z }.
Record Receipt := mkReceipt {
  rc_id : string; rc_target : Endpoint; rc_from : Endpoint; rc_message : string; rc_delivery : Delivery; rc_at : Z;
  rc_followUp : bool; rc_overLimit : list string; rc_duplicate : bool
}.

(** A role as it stands in a message: [role] of a member, [host] of a client. *)
Definition role_text (r : AgentRole) : string := match r with RRoot => "root" | RChild => "child" end.

Definition endpoint (id name role : string) (clientId : option string) : Endpoint :=
  mkEndpoint id name (bool_decide (role = "child")) (match clientId with Some c => if bool_decide (c = ""%string) then None else Some c | None => None end).
Definition endpointOf (m : Member) (clientId : option string) : Endpoint := endpoint (mb_id m) (mb_name m) (role_text (mb_role m)) clientId.

Definition relationship_text (r : Relationship) : string := match r with Parent => "parent" | Sibling => "sibling" | Child => "child" end.

Definition header (fromName : string) (rel : option Relationship) : string :=
  let flat := trim (of_chars (map (fun c => if bool_decide (c = "]"%char) || bool_decide (c = "010"%char) then " "%char else c) (to_chars fromName))) in
  let name := if bool_decide (flat = ""%string) then "unknown"%string else flat in
  ("[agent-message from " +:+ (match rel with Some r => relationship_text r +:+ ":" +:+ name | None => name end) +:+ "]")%string.

Definition receipt (now : Z) (bus : BusMessage) (from target : Endpoint) (d : Delivery) (overLimit : list string) : Receipt :=
  mkReceipt (b_id bus) target from (b_text bus) d now (bool_decide (b_mode bus = FollowUp)) overLimit false.

Definition parseMode (v : Val) : result DeliveryMode :=
  match v with
  | VUndefined | VNull => Ok Auto
  | VString s =>
      if bool_decide (s = "auto"%string) then Ok Auto
      else if bool_decide (s = "steer"%string) then Ok Steer
      else if bool_decide (s = "follow_up"%string) then Ok FollowUp
      else Throw "agent_message.send mode must be auto, steer, or follow_up"
  | VOther => Throw "agent_message.send mode must be auto, steer, or follow_up"
  end.

(** [h.slice(from, to)], and the variant digit of a UUID. *)
Definition sub (from to : nat) (h : chars) : chars := take (to - from) (drop from h).
Definition hex_value (c : Ascii.ascii) : Z := if is_digit c then code c - 48 else code c - 87.
Definition hex_digit (n : Z) : Ascii.ascii := Ascii.ascii_of_N (Z.to_N (if n <? 10 then n + 48 else n + 87)).

Definition keyedMessageId (sha256 : string -> chars) (targetId key : string) : string :=
  let h := sha256 (targetId +:+ nl +:+ key)%string in
  let variant := match h !! 16%nat with Some c => [hex_digit (Z.lor (Z.land (hex_value c) 3) 8)] | None => to_chars "NaN" end in
  of_chars (to_chars "agentmsg_" ++ sub 0 8 h ++ to_chars "-" ++ sub 8 12 h ++ to_chars "-5" ++ sub 13 16 h ++ to_chars "-" ++ variant ++ sub 17 20 h ++ to_chars "-" ++ sub 20 32 h).

(** ** The state of the process *)

Record Bucket := mkBucket { tokens : Z; updatedAt : Z }.

(** A loaded session: the messages queued and not started, and every message it holds. *)
Record LiveSession := mkLive { pending : gset string; seen : gset string }.

(** [st_world] is what the deliveries keep besides the live sessions ([Inbox]); [st_log] is every call
    of a target's [deliver], with the target's id. *)
Record State {W : Type} := mkState {
  st_live : gmap string LiveSession;
  st_buckets : gmap string Bucket;
  st_replied : gmap string bool;
  st_receipts : list (string * Receipt);
  st_log : list (string * BusMessage);
  st_world : W
}.
#[global] Arguments State : clear implicits.
#[global] Arguments mkState {W}.

Section State.
Context {W : Type}.
Implicit Types s : State W.

Definition RECEIPTS_KEPT : nat := Z.to_nat 10000.
Definition repliedSinceTask (childId : string) s : bool := default false (st_replied s !! childId).
Definition pendingCount (sessionId : string) s : Z :=
  match st_live s !! sessionId with Some l => Z.of_nat (size (pending l)) | None => 0 end.

Definition set_replied (id : string) (b : bool) s : State W := mkState (st_live s) (st_buckets s) (<[id := b]> (st_replied s)) (st_receipts s) (st_log s) (st_world s).

Definition rememberReceipt (id : string) (r : Receipt) s : State W :=
  let rs := OMap.set id r (OMap.del id (st_receipts s)) in
  mkState (st_live s) (st_buckets s) (st_replied s) (drop (length rs - RECEIPTS_KEPT) rs) (st_log s) (st_world s).

(** ** The soft caps *)

Definition MAX_MESSAGE_CHARS : Z := 16384.
Definition MAX_PENDING : Z := 20.
Definition RATE_CAPACITY : Z := 3.
Definition RATE_REFILL_MS : Z := 1000.

(** The bucket after [now]'s refills, and the wait when it is empty. *)
Definition consume_bucket (now : Z) (b : Bucket) : Bucket * option Z :=
  let refills := Z.max 0 (now - updatedAt b) / RATE_REFILL_MS in
  let b1 := if 0 <? refills then mkBucket (Z.min RATE_CAPACITY (tokens b + refills)) (updatedAt b + refills * RATE_REFILL_MS) else b in
  if tokens b1 <=? 0 then (b1, Some (Z.max 1 (updatedAt b1 + RATE_REFILL_MS - now))) else (mkBucket (tokens b1 - 1) (updatedAt b1), None).

Definition consumeRate (key : string) (now : Z) s : option Z * State W :=
  let '(b, wait) := consume_bucket now (default (mkBucket RATE_CAPACITY now) (st_buckets s !! key)) in
  (wait, mkState (st_live s) (<[key := b]> (st_buckets s)) (st_replied s) (st_receipts s) (st_log s) (st_world s)).

Definition overLimits (now nchars npending : Z) (rateKey : string) s : list string * State W :=
  let '(wait, s') := consumeRate rateKey now s in
  ((if MAX_MESSAGE_CHARS <? nchars then ["message is " +:+ string_of_Z nchars +:+ " chars, the target is " +:+ string_of_Z MAX_MESSAGE_CHARS]%string else []) ++
   (if MAX_PENDING <=? npending then ["target has " +:+ string_of_Z npending +:+ " unfinished messages, the target is " +:+ string_of_Z MAX_PENDING]%string else []) ++
   (match wait with
    | Some w => ["sender is over " +:+ string_of_Z RATE_CAPACITY +:+ " messages a second to this target, next token in " +:+ string_of_Z w +:+ "ms"]%string
    | None => []
    end), s').

End State.

(** ** Sending *)

Definition cleanText (v : Val) : result string :=
  match v with
  | VString s => if bool_decide (trim s = ""%string) then Throw "Agent session message cannot be empty" else Ok (trim s)
  | _ => Throw "agent_message.send message must be a string"
  end.

Section Route.
(** The world of a send: the clock, fresh ids, the delivery to a local target (its wake included)
    and the send through another process. *)
Context {W : Type} (name_le : string -> string -> bool) (sha256 : string -> chars)
  (deliver : Member -> BusMessage -> gmap string LiveSession -> W -> result Delivery * gmap string LiveSession * W)
  (hostSend : Member -> string -> DeliveryMode -> result Receipt).
Implicit Types s : State W.

(** The call of the target's [deliver]. *)
Definition call_deliver (m : Member) (bus : BusMessage) s : result Delivery * State W :=
  let '(o, live, w) := deliver m bus (st_live s) (st_world s) in
  (o, mkState live (st_buckets s) (st_replied s) (st_receipts s) (st_log s ++ [(mb_id m, bus)]) w).

Definition rate_key (from to : string) : string := (from +:+ "->" +:+ to)%string.

Definition note_reply (rel : option Relationship) (from target : string) s : State W :=
  match rel with Some Parent => set_replied from true s | Some Child => set_replied target false s | _ => s end.

(** [deliverFrom]; a delivery that throws leaves the rate token spent. *)
Definition deliverFrom (now : Z) (newId : string) (self : Member) (rel : Relationship) (target : Known) (message : Val) (mode : DeliveryMode) s : result Receipt * State W :=
  match cleanText message with
  | Throw e => (Throw e, s)
  | Ok text =>
      match target with
      | KRemote m => (hostSend m text mode, s)
      | KLive m | KDormant m =>
          let bus := mkBus newId (mb_id self, mb_name self, role_text (mb_role self)) text mode now in
          let '(over, s1) := overLimits now (Z.of_nat (String.length text)) (pendingCount (mb_id m) s) (rate_key (mb_id self) (mb_id m)) s in
          match call_deliver m bus s1 with
          | (Throw e, s2) => (Throw e, s2)
          | (Ok d, s2) => (Ok (receipt now bus (endpointOf self (Some "agent"%string)) (endpointOf m None) d over), note_reply (Some rel) (mb_id self) (mb_id m) s2)
          end
      end
  end.

Record SendPayload := mkPayload { p_message : Val; p_target : Val; p_receiver_role : Val; p_receiver_name : Val; p_mode : Val }.

Inductive SendResult := One (r : Receipt) | Broadcast (rs : list (Receipt + string * string)).

Definition nullish_val (v : Val) : bool := match v with VUndefined | VNull => true | _ => false end.
Definition role_of (v : Val) : option Relationship :=
  match v with
  | VString s => if bool_decide (s = "parent"%string) then Some Parent else if bool_decide (s = "sibling"%string) then Some Sibling
                 else if bool_decide (s = "child"%string) then Some Child else None
  | _ => None
  end.

(** The broadcast's deliveries, each with its own id; one that throws is its error. *)
Fixpoint broadcast (now : Z) (ids : list string) (self : Member) (ms : list (Relationship * Known)) (message : Val) (mode : DeliveryMode) s : list (Receipt + string * string) * State W :=
  match ms with
  | [] => ([], s)
  | (rel, k) :: r =>
      let '(o, s1) := deliverFrom now (default ""%string (head ids)) self rel k message mode s in
      let '(os, s2) := broadcast now (tail ids) self r message mode s1 in
      ((match o with Ok rc => inl rc | Throw e => inr (mb_id (member_of k), e) end) :: os, s2)
  end.

Definition wanted_name (v : Val) : option string := match v with VString n => Some (trim n) | _ => None end.
Definition selects (role : Relationship) (wanted : option string) (x : Relationship * Known) : bool :=
  bool_decide (x.1 = role) && (bool_decide (role = Parent) || bool_decide (Some (mb_name (member_of x.2)) = wanted) || bool_decide (Some (mb_id (member_of x.2)) = wanted)).

(** The rest of [send] without a [target]: the one member that the role and the name select. *)
Definition send_role (now : Z) (ids : list string) (self : Member) (members : list Known) (p : SendPayload) (mode : DeliveryMode) s : result SendResult * State W :=
  match role_of (p_receiver_role p) with
  | None => (Throw "agent_message.send receiver_role must be parent, sibling, or child", s)
  | Some role =>
      if bool_decide (role = Parent) && negb (nullish_val (p_receiver_name p)) then (Throw "agent_message.send receiver_name must be omitted for parent messages", s)
      else if negb (bool_decide (role = Parent)) && (match wanted_name (p_receiver_name p) with Some n => bool_decide (n = ""%string) | None => true end)
      then (Throw "agent_message.send receiver_name is required for sibling and child messages", s)
      else
        match base.filter (fun x => selects role (wanted_name (p_receiver_name p)) x = true) (family name_le self members) with
        | [(rel, k)] => let '(o, s') := deliverFrom now (default ""%string (head ids)) self rel k (p_message p) mode s in (r ← o; Ok (One r), s')
        | [] => (Throw "No agent matches", s)
        | _ => (Throw "selector is ambiguous", s)
        end
  end.

Definition send (now : Z) (ids : list string) (self : option Member) (members : list Known) (p : SendPayload) s : result SendResult * State W :=
  match self, parseMode (p_mode p), p_message p with
  | None, _, _ => (Throw "agent messaging is not available", s)
  | _, Throw e, _ => (Throw e, s)
  | Some self, Ok mode, VString _ =>
      match p_target p with
      | VString t =>
          if negb (bool_decide (t = "all"%string)) then (Throw "positional agent_message.send targets are not supported; use receiver_role and receiver_name", s)
          else if negb (nullish_val (p_receiver_role p)) || negb (nullish_val (p_receiver_name p)) then (Throw "agent_message.send broadcast cannot be combined with receiver_role/receiver_name", s)
          else let '(rs, s') := broadcast now ids self (family name_le self members) (p_message p) mode s in (Ok (Broadcast rs), s')
      | _ => send_role now ids self members p mode s
      end
  | _, _, _ => (Throw "agent_message.send message must be a string", s)
  end.

(** [sendFromClient]: [target] is what [resolveById] found, [registered] whether it has an entry here,
    [sender] what the registry knows of [from]. *)
Record ClientSend := mkClient { cs_message : Val; cs_mode : Val; cs_clientId : option string; cs_from : option (string * option string); cs_key : option string }.
Definition REACH_ERROR : string := "Agent reach is limited to parent, siblings, and children".

Definition sendFromClient (now : Z) (newId : string) (target : option Member) (sender : option Member) (req : ClientSend) s : result Receipt * State W :=
  match cleanText (cs_message req), parseMode (cs_mode req) with
  | Throw e, _ | Ok _, Throw e => (Throw e, s)
  | Ok text, Ok mode =>
      match target with
      | None => (Throw "sending to this session needs pi-host", s)
      | Some target =>
          let who :=
            match cs_from req with
            | Some (id, name) =>
                let m := default (mkMember id (nullish name id) RRoot None 0) sender in
                match relationship m target with
                | Some rel => Ok (mb_id m, mb_name m, role_text (mb_role m), Some rel)
                | None => Throw REACH_ERROR
                end
            | None => let client := nullish (cs_clientId req) "client"%string in Ok ("client:" +:+ client, client, "host", None)%string
            end in
          match who with
          | Throw e => (Throw e, s)
          | Ok (fid, fname, frole, rel) =>
              let key := match cs_key req with Some k => if bool_decide (k = ""%string) then None else Some k | None => None end in
              let bus := mkBus (match key with Some k => keyedMessageId sha256 (mb_id target) k | None => newId end) (fid, fname, frole) text mode now in
              let fromE := endpoint fid fname frole (match cs_from req with Some _ => Some "agent"%string | None => Some (nullish (cs_clientId req) "client"%string) end) in
              let held := match key with Some _ => match st_live s !! mb_id target with Some l => bool_decide (b_id bus ∈ seen l) | None => false end | None => false end in
              if held then
                let first := nullish (OMap.get (b_id bus) (st_receipts s)) (receipt now bus fromE (endpointOf target None) Queued []) in
                (Ok (mkReceipt (rc_id first) (rc_target first) (rc_from first) (rc_message first) (rc_delivery first) (rc_at first) (rc_followUp first) (rc_overLimit first) true), s)
              else
                let '(over, s1) := overLimits now (Z.of_nat (String.length text)) (pendingCount (mb_id target) s) (rate_key fid (mb_id target)) s in
                match call_deliver target bus s1 with
                | (Throw e, s2) => (Throw e, s2)
                | (Ok d, s2) =>
                    let out := receipt now bus fromE (endpointOf target None) d over in
                    let s3 := note_reply rel fid (mb_id target) s2 in
                    (Ok out, match key with Some _ => rememberReceipt (b_id bus) out s3 | None => s3 end)
                end
          end
      end
  end.
End Route.

(** ** Reach *)

Definition rid (x : Relationship * Known) : string := mb_id (member_of x.2).

Lemma relatives_spec self items : forall seen,
  NoDup (map rid (relatives self seen items)) /\
  (forall x, x ∈ relatives self seen items -> x.2 ∈ items /\ relationship self (member_of x.2) = Some x.1 /\ rid x ∉ seen).
Proof.
  induction items as [|k items IH]; intros seen; cbn [relatives]; [split; [apply NoDup_nil_2|intros x Hx; by apply elem_of_nil in Hx]|].
  case_bool_decide as Hin.
  - destruct (IH seen) as [H1 H2]. split; [done|]. intros x Hx. destruct (H2 x Hx) as (? & ? & ?). split_and!; [by right|done..].
  - destruct (IH (mb_id (member_of k) :: seen)) as [H1 H2].
    assert (forall x, x ∈ relatives self (mb_id (member_of k) :: seen) items -> x.2 ∈ k :: items /\ relationship self (member_of x.2) = Some x.1 /\ rid x ∉ seen) as H3.
    { intros x Hx. destruct (H2 x Hx) as (? & ? & Hn). split_and!; [by right|done|]. intros Hs. apply Hn. by right. }
    destruct (relationship self (member_of k)) as [rel|] eqn:E; [|done]. split.
    + cbn. apply NoDup_cons. split; [|done]. intros (x & Hx & Hin')%list_elem_of_fmap. destruct (H2 x Hin') as (_ & _ & Hn). apply Hn. rewrite <- Hx. by left.
    + intros x [->|Hx]%elem_of_cons; [split_and!; [by left|done|done]|by apply H3].
Qed.

Lemma family_spec name_le self items :
  NoDup (map rid (family name_le self items)) /\
  forall x, x ∈ family name_le self items -> x.2 ∈ items /\ relationship self (member_of x.2) = Some x.1.
Proof.
  destruct (relatives_spec self items []) as [H1 H2]. unfold family. split.
  - by rewrite sort_by_perm.
  - intros x. rewrite elem_sort_by. intros Hx. destruct (H2 x Hx) as (? & ? & _). done.
Qed.

Section Reach.
Context {W : Type} (name_le : string -> string -> bool) (sha256 : string -> chars)
  (deliver : Member -> BusMessage -> gmap string LiveSession -> W -> result Delivery * gmap string LiveSession * W)
  (hostSend : Member -> string -> DeliveryMode -> result Receipt).
Implicit Types s : State W.

Lemma overLimits_log now n p key s : st_log (overLimits now n p key s).2 = st_log s.
Proof. unfold overLimits, consumeRate. by destruct (consume_bucket _ _). Qed.
Lemma call_deliver_log m bus s : st_log (call_deliver deliver m bus s).2 = st_log s ++ [(mb_id m, bus)].
Proof. unfold call_deliver. by destruct (deliver _ _ _ _) as [[? ?] ?]. Qed.
Lemma note_reply_log rel from target s : st_log (note_reply rel from target s) = st_log s.
Proof. by destruct rel as [[]|]. Qed.

(** A message of [self] that went to the target of [k]. *)
Definition from_member (self : Member) (text : string) (mode : DeliveryMode) (k : Known) (x : string * BusMessage) : Prop :=
  x.1 = mb_id (member_of k) /\ b_from x.2 = (mb_id self, mb_name self, role_text (mb_role self)) /\ b_text x.2 = text /\ b_mode x.2 = mode.

Lemma deliverFrom_log now id self rel k message mode s :
  let '(r, s') := deliverFrom deliver hostSend now id self rel k message mode s in
  exists new, st_log s' = st_log s ++ new /\
    ((new = [] /\ (match cleanText message, k with Ok _, (KLive _ | KDormant _) => False | _, _ => True end)) \/
     exists x text, new = [x] /\ cleanText message = Ok text /\ from_member self text mode k x).
Proof.
  unfold deliverFrom. destruct (cleanText message) as [text|e]; [|exists []; rewrite app_nil_r; split; [done|by left]].
  destruct k as [m|m|m]; [| |exists []; rewrite app_nil_r; split; [done|by left]].
  all: destruct (overLimits _ _ _ _ s) as [over s1] eqn:Eo; pose proof (overLimits_log now (Z.of_nat (String.length text)) (pendingCount (mb_id m) s) (rate_key (mb_id self) (mb_id m)) s) as Hl; rewrite Eo in Hl; cbn in Hl.
  all: destruct (call_deliver deliver m _ s1) as [[d|e] s2] eqn:Ec;
    pose proof (call_deliver_log m (mkBus id (mb_id self, mb_name self, role_text (mb_role self)) text mode now) s1) as Hd; rewrite Ec in Hd; cbn in Hd;
    eexists [_]; rewrite ?note_reply_log, Hd, Hl; (split; [reflexivity|right; eexists _, text; by split_and!]).
Qed.

Lemma broadcast_log now self message mode ms : forall ids s,
  let '(rs, s') := broadcast deliver hostSend now ids self ms message mode s in
  exists new, st_log s' = st_log s ++ new /\ sublist (map fst new) (map rid ms) /\
    (forall x, x ∈ new -> exists rel k text, (rel, k) ∈ ms /\ cleanText message = Ok text /\ from_member self text mode k x) /\ length rs = length ms.
Proof.
  induction ms as [|[rel k] ms IH]; intros ids s; cbn [broadcast].
  - exists []. rewrite app_nil_r. split_and!; [done|done|intros x Hx; by apply elem_of_nil in Hx|done].
  - pose proof (deliverFrom_log now (default ""%string (head ids)) self rel k message mode s) as H1. destruct (deliverFrom _ _ _ _ _ _ _ _ _ _) as [o s1].
    specialize (IH (tail ids) s1). destruct (broadcast _ _ _ _ _ _ _ _ s1) as [os s2].
    destruct H1 as (new1 & Hl1 & H1), IH as (new & Hl & Hsub & Hin & Hlen). exists (new1 ++ new). rewrite Hl, Hl1, app_assoc. split_and!; [done| | |cbn; lia].
    + destruct H1 as [[-> _]|(x & text & -> & _ & Hx)]; cbn [app map]; [by apply sublist_cons|].
      destruct Hx as (Hid & _). cbn. rewrite Hid. by apply sublist_skip.
    + intros x [Hx|Hx]%elem_of_app.
      * destruct H1 as [[-> _]|(y & text & -> & Ht & Hy)]; [by apply elem_of_nil in Hx|]. apply list_elem_of_singleton in Hx as ->.
        exists rel, k, text. split_and!; [by left|done|done].
      * destruct (Hin x Hx) as (rel' & k' & text & Hk & ? & ?). exists rel', k', text. split_and!; [by right|done|done].
Qed.

(** What a send may put into inboxes. *)
Definition in_family (me : Member) (members : list Known) (p : SendPayload) (x : string * BusMessage) : Prop :=
  exists k rel text mode, k ∈ members /\ relationship me (member_of k) = Some rel /\
    parseMode (p_mode p) = Ok mode /\ cleanText (p_message p) = Ok text /\ from_member me text mode k x.

(** The only member of the family that the payload's role and name select. *)
Definition the_selected (me : Member) (members : list Known) (p : SendPayload) (x : string * BusMessage) : Prop :=
  exists role, role_of (p_receiver_role p) = Some role /\
    forall k, k ∈ family name_le me members -> selects role (wanted_name (p_receiver_name p)) k = true <-> rid k = x.1 /\ k.1 = role.

Definition reach (me : Member) (members : list Known) (p : SendPayload) (new : list (string * BusMessage)) : Prop :=
  NoDup (map fst new) /\ Forall (in_family me members p) new /\
  (p_target p <> VString "all" -> (length new <= 1)%nat /\ Forall (the_selected me members p) new).

Lemma reach_nothing me members p s : exists new, st_log s = st_log s ++ new /\ reach me members p new.
Proof. exists []. rewrite app_nil_r. unfold reach. split_and!; [done|apply NoDup_nil_2|done|]. intros _. cbn. split; [lia|done]. Qed.

Lemma filter_one {A} (P : A -> bool) l x : base.filter (fun y => P y = true) l = [x] -> x ∈ l /\ P x = true /\ forall y, y ∈ l -> P y = true -> y = x.
Proof.
  intros Hf. assert (x ∈ base.filter (fun y => P y = true) l) as [? ?]%list_elem_of_filter by (rewrite Hf; by left).
  split_and!; [done|done|]. intros y Hy Hp. assert (y ∈ base.filter (fun y => P y = true) l) as Hin by by apply list_elem_of_filter.
  rewrite Hf in Hin. by apply list_elem_of_singleton in Hin.
Qed.

Lemma send_role_reach now ids me members p mode s :
  parseMode (p_mode p) = Ok mode ->
  exists new, st_log (send_role name_le deliver hostSend now ids me members p mode s).2 = st_log s ++ new /\ reach me members p new.
Proof.
  intros Hm. unfold send_role. destruct (role_of (p_receiver_role p)) as [role|] eqn:Er; [|apply reach_nothing].
  destruct (bool_decide _ && _); [apply reach_nothing|]. destruct (negb _ && _); [apply reach_nothing|].
  destruct (base.filter _ _) as [|[rel k] [|y l]] eqn:Ef; [apply reach_nothing| |apply reach_nothing].
  destruct (filter_one (selects role (wanted_name (p_receiver_name p))) _ _ Ef) as (Hk & Hsel & Honly).
  destruct (family_spec name_le me members) as [Hnd Hfam]. destruct (Hfam _ Hk) as [Hkm Hrel].
  pose proof (deliverFrom_log now (default ""%string (head ids)) me rel k (p_message p) mode s) as Hl.
  destruct (deliverFrom _ _ _ _ _ _ _ _ _ _) as [o s1]. destruct Hl as (new & Hl & Hn). cbn [snd].
  destruct Hn as [[-> _]|(x & text & -> & Htext & Hx)]; [rewrite Hl, app_nil_r; apply reach_nothing|].
  exists [x]. unfold reach. split_and!; [done|apply NoDup_singleton|apply Forall_singleton; by exists k, rel, text, mode|].
  intros _. split; [cbn; lia|]. apply Forall_singleton. exists role. split; [done|]. intros k' Hk'.
  destruct Hx as (Hid & _). assert (rel = role) as -> by (unfold selects in Hsel; simp_ok; done). split.
  - intros Hs. rewrite (Honly _ Hk' Hs). done.
  - intros [Hr _]. assert (k' = (role, k)) as ->; [|done]. rewrite Hid in Hr.
    by apply (nodup_key rid (family name_le me members)).
Qed.

(** C12: a kernel send reaches the family and nothing else.  Whatever the payload, every message that reaches a session's inbox is the
    sender's trimmed text, and its target is a member the process can see that is the sender's parent, sibling or child; no session gets it twice;
    and without [target: "all"] at most one session gets it, the only one that the role and the name select. *)
Theorem send_stays_in_family now ids me members p s :
  exists new, st_log (send name_le deliver hostSend now ids (Some me) members p s).2 = st_log s ++ new /\ reach me members p new.
Proof.
  unfold send. destruct (parseMode (p_mode p)) as [mode|e] eqn:Em; [|apply reach_nothing].
  destruct (p_message p) as [| |msg|] eqn:Ep; try apply reach_nothing. rewrite <- Ep.
  destruct (p_target p) as [| |t|] eqn:Et; try by apply send_role_reach.
  destruct (negb (bool_decide (t = "all"%string))) eqn:Eall; [apply reach_nothing|]. destruct (negb _ || negb _); [apply reach_nothing|].
  pose proof (broadcast_log now me (p_message p) mode (family name_le me members) ids s) as Hl. destruct (broadcast _ _ _ _ _ _ _ _ s) as [rs s1].
  destruct Hl as (new & Hl & Hsub & Hin & _). destruct (family_spec name_le me members) as [Hnd Hfam].
  exists new. unfold reach. split_and!; [done|by eapply sublist_NoDup| |].
  - apply Forall_forall. intros x Hx. destruct (Hin x Hx) as (rel & k & text & Hk & Htext & Hy). destruct (Hfam _ Hk) as [? ?]. by exists k, rel, text, mode.
  - simp_ok. subst t. done.
Qed.
End Reach.

(** No hypothesis is needed to send, but the roster of a real family is a good instance. *)
Definition some_family : list Known :=
  let m id p d := mkMember id id (match p with Some _ => RChild | None => RRoot end) p d in
  [KLive (m "root" None 0); KLive (m "a" (Some "root") 1); KDormant (m "b" (Some "root") 1); KLive (m "c" (Some "a") 2); KRemote (m "far" None 0)]%string.
Example family_of_a :
  map (fun x => (x.1, rid x)) (family (fun _ _ => true) (mkMember "a" "a" RChild (Some "root") 1) some_family)
  = [(Parent, "root"); (Sibling, "b"); (Child, "c")]%string.
Proof. reflexivity. Qed.

(** ** The rate cap *)

(** Sends of one sender to one target at the given times: which are within the cap. *)
Fixpoint consume_run {W} (key : string) (times : list Z) (s : State W) : list bool * State W :=
  match times with
  | [] => ([], s)
  | t :: r =>
      let '(wait, s1) := consumeRate key t s in
      let '(ok, s2) := consume_run key r s1 in
      ((match wait with None => true | Some _ => false end) :: ok, s2)
  end.

Definition granted (l : list bool) : Z := Z.of_nat (length (base.filter (fun b => b = true) l)).

Lemma granted_cons b l : granted (b :: l) = (if b then 1 else 0) + granted l.
Proof. unfold granted. rewrite filter_cons. destruct b; [rewrite decide_True by done; cbn [length]; lia|rewrite decide_False by done; lia]. Qed.

(** The tokens of a bucket made at [t0]: never more than the capacity, and no more than its refills allow. *)
Definition bucket_ok (t0 last : Z) (g : Z) (b : Bucket) : Prop :=
  exists k, 0 <= k /\ updatedAt b = t0 + k * RATE_REFILL_MS /\ updatedAt b <= Z.max t0 last /\ 0 <= tokens b <= RATE_CAPACITY /\ tokens b + g <= RATE_CAPACITY + k.

Lemma consume_bucket_ok t0 T now g b :
  now <= T -> bucket_ok t0 T g b -> let '(b', wait) := consume_bucket now b in bucket_ok t0 T (g + match wait with None => 1 | Some _ => 0 end) b'.
Proof.
  intros Hnow (k & Hk & Hu & Hlast & Ht & Hg). unfold consume_bucket, bucket_ok, RATE_REFILL_MS, RATE_CAPACITY in *.
  set (r := Z.max 0 (now - updatedAt b) / 1000).
  assert (0 <= r) by (apply Z.div_pos; lia). assert (r * 1000 <= Z.max 0 (now - updatedAt b)) by (unfold r; pose proof (Z.mul_div_le (Z.max 0 (now - updatedAt b)) 1000); lia).
  destruct (0 <? r) eqn:Er; cbn [tokens updatedAt]; simp_ok; destruct (_ <=? 0) eqn:Et; simp_ok; cbn [tokens updatedAt].
  - exists (k + r). lia.
  - exists (k + r). lia.
  - exists k. lia.
  - exists k. lia.
Qed.

Lemma consume_run_ok {W} key t0 T times : forall g (s : State W) b,
  Forall (fun t => t <= T) times -> st_buckets s !! key = Some b -> bucket_ok t0 T g b ->
  exists b', bucket_ok t0 T (g + granted (consume_run key times s).1) b'.
Proof.
  induction times as [|t times IH]; intros g s b Hall Hb Hok; cbn [consume_run].
  - exists b. unfold granted. cbn. by rewrite Z.add_0_r.
  - apply Forall_cons in Hall as [Ht Hall]. unfold consumeRate. rewrite Hb. change (default (mkBucket RATE_CAPACITY t) (Some b)) with b.
    pose proof (consume_bucket_ok t0 T t g b Ht Hok) as H1. destruct (consume_bucket t b) as [b1 wait].
    destruct (IH _ (mkState (st_live s) (<[key := b1]> (st_buckets s)) (st_replied s) (st_receipts s) (st_log s) (st_world s)) b1 Hall (lookup_insert_eq _ _ _) H1) as [b' Hb'].
    exists b'. cbn beta iota. destruct (consume_run key times _) as [ok s2]. cbn [fst] in *. rewrite granted_cons. destruct wait; [|by rewrite Z.add_assoc].
    by rewrite Z.add_0_r in Hb'.
Qed.

(** the soft cap on a sender and target pair is three a second with a burst of three: of all sends from the first one at
    [t0] until [T], at whatever times and even if the clock steps back, at most [3 + (T - t0) / 1000] are within the cap. *)
Theorem rate_bound {W} key t0 T times (s : State W) :
  st_buckets s !! key = None -> t0 <= T -> Forall (fun t => t <= T) times ->
  granted (consume_run key (t0 :: times) s).1 <= RATE_CAPACITY + (T - t0) / RATE_REFILL_MS.
Proof.
  intros Hnone Ht Hall. cbn [consume_run]. unfold consumeRate. rewrite Hnone. change (default (mkBucket RATE_CAPACITY t0) None) with (mkBucket RATE_CAPACITY t0).
  assert (bucket_ok t0 T 0 (mkBucket RATE_CAPACITY t0)) as H0.
  { exists 0. unfold RATE_CAPACITY. cbn. lia. }
  pose proof (consume_bucket_ok t0 T t0 0 _ Ht H0) as H1. destruct (consume_bucket t0 _) as [b1 wait].
  destruct (consume_run_ok key t0 T times _ (mkState (st_live s) (<[key := b1]> (st_buckets s)) (st_replied s) (st_receipts s) (st_log s) (st_world s)) b1 Hall (lookup_insert_eq _ _ _) H1) as (b' & k & Hk & Hu & Hl & Htok & Hg).
  cbn beta iota. destruct (consume_run key times _) as [ok s2]. cbn [fst] in *. rewrite granted_cons.
  assert (k <= (T - t0) / RATE_REFILL_MS) by (apply Z.div_le_lower_bound; unfold RATE_REFILL_MS in *; lia).
  destruct wait; lia.
Qed.

Lemma rate_bound_witness :
  let s : State unit := mkState ∅ ∅ ∅ [] [] tt in
  granted (consume_run "a->b" [0; 1; 2; 3; 500; 1000; 1001; 1999; 2100] s).1 <= 3 + (2100 - 0) / 1000 /\
  (consume_run "a->b" [0; 1; 2; 3; 500; 1000; 1001; 1999; 2100] s).1 = [true; true; true; false; false; true; false; false; true].
Proof. split; [|reflexivity]. apply (rate_bound "a->b" 0 2100); [reflexivity|lia|repeat constructor; lia]. Defined.
