(* ===== verification/Inbox.v ===== *)
(** * The durable inbox of a session

    [packages/pi-rlm/src/core/bus/inbox.ts] and the extension
    [packages/pi-rlm/src/pi/agent-bus.ts]: what a session does with an agent message from
    its [deliver] to its transcript, across crashes and restarts.

    The inbox file is its lines as a reader finds them: whole lines, and what follows the last newline, which a
    crash in the middle of an append leaves.  An append that follows it makes one line of both.  Pi is its queue of messages given and not
    started and the transcript; it starts the queue's head when it likes. *)

From S2P Require Import Prelude Registry Bus.

Record InboxRecord := mkRec { ir_id : string; ir_followUp : bool; ir_content : string; ir_at : Z }.

(** A line parses to a record or does not. *)
Inductive FLine := FRec (r : InboxRecord) | FGarbage.
Record InboxFile := mkFile { f_lines : list FLine; f_tail : option FLine }.

Definition parsed (l : FLine) : option InboxRecord := match l with FRec r => Some r | FGarbage => None end.

(** [records]: an absent file has none; a line that does not parse is skipped. *)
Definition records (f : option InboxFile) : list InboxRecord :=
  match f with
  | None => []
  | Some f => omap parsed (f_lines f) ++ match f_tail f with Some l => option_list (parsed l) | None => [] end
  end.

(** [record]: one append of the line and its newline. *)
Definition record (r : InboxRecord) (f : option InboxFile) : option InboxFile :=
  match f with
  | None => Some (mkFile [FRec r] None)
  | Some (mkFile ls None) => Some (mkFile (ls ++ [FRec r]) None)
  | Some (mkFile ls (Some _)) => Some (mkFile (ls ++ [FGarbage]) None)
  end.

(** A crash in the middle of that append; [cut] is what the bytes that reached the file parse to. *)
Definition record_torn (cut : FLine) (f : option InboxFile) : option InboxFile :=
  match f with
  | None => Some (mkFile [] (Some cut))
  | Some (mkFile ls None) => Some (mkFile ls (Some cut))
  | Some (mkFile ls (Some _)) => Some (mkFile ls (Some FGarbage))
  end.

Definition unlanded (landed : list string) (rs : list InboxRecord) : list InboxRecord := base.filter (fun r => ir_id r ∉ landed) rs.

(** [keepUnlanded]: what is left, and the file. *)
Definition keepUnlanded (landed : list string) (f : option InboxFile) : list InboxRecord * option InboxFile :=
  let all := records f in
  let rest := unlanded landed all in
  if (length rest =? length all)%nat then (rest, f)
  else match rest with [] => ([], None) | _ => (rest, Some (mkFile (map FRec rest) None)) end.

(** A transcript entry: an agent message's id, or anything else. *)
Inductive Entry := EAgentMessage (id : string) | EOther.
Definition landedIds (es : list Entry) : list string := omap (fun e => match e with EAgentMessage id => Some id | EOther => None end) es.

(** One session: its durable files, and Pi's memory of it. *)
Record Box := mkBox {
  bx_file : option InboxFile;
  bx_transcript : list Entry;
  bx_queue : list string;
  bx_due : list InboxRecord;
  bx_idle : bool
}.

(** ** The handlers *)

Section Handlers.
(** What [customMessage] builds for the target. *)
Context (content : BusMessage -> string).

(** [deliver]; [io] is whether the append throws. *)
Definition deliver (now : Z) (io : option string) (bus : BusMessage) (l : LiveSession) (b : Box) : result Delivery * LiveSession * Box :=
  if bool_decide (b_id bus ∈ seen l) then
    (Ok (if bx_idle b && negb (bool_decide (b_id bus ∈ pending l)) then Started else Queued), l, b)
  else
    let l1 := mkLive (pending l) ({[ b_id bus ]} ∪ seen l) in
    match io with
    | Some e => (Throw e, l1, b)
    | None =>
        let r := mkRec (b_id bus) (bool_decide (b_mode bus = FollowUp)) (content bus) now in
        (Ok (if bx_idle b then Started else Queued),
         (if bx_idle b then l1 else mkLive ({[ b_id bus ]} ∪ pending l) (seen l1)),
         mkBox (record r (bx_file b)) (bx_transcript b) (bx_queue b ++ [b_id bus]) (bx_due b) (bx_idle b))
    end.

(** [session_start]: the live session anew, and what [setImmediate] will replay. *)
Definition session_start (reload : bool) (b : Box) : LiveSession * Box :=
  let landed := landedIds (bx_transcript b) in
  let l := mkLive ∅ (list_to_set landed ∪ list_to_set (map ir_id (records (bx_file b)))) in
  if reload then (l, b)
  else let '(rest, f) := keepUnlanded landed (bx_file b) in (l, mkBox f (bx_transcript b) (bx_queue b) rest (bx_idle b)).

(** The replay [session_start] left to [setImmediate]. *)
Definition replay_due (l : LiveSession) (b : Box) : LiveSession * Box :=
  (if bx_idle b then l else mkLive (list_to_set (map ir_id (bx_due b)) ∪ pending l) (seen l),
   mkBox (bx_file b) (bx_transcript b) (bx_queue b ++ map ir_id (bx_due b)) [] (bx_idle b)).

(** The prune [agent_end] leaves to [setImmediate]. *)
Definition prune (b : Box) : Box :=
  mkBox (keepUnlanded (landedIds (bx_transcript b)) (bx_file b)).2 (bx_transcript b) (bx_queue b) (bx_due b) (bx_idle b).

(** Pi starts the next message: it enters the transcript, and [message_start] takes it off [pending]. *)
Definition pi_starts (l : LiveSession) (b : Box) : LiveSession * Box :=
  match bx_queue b with
  | [] => (l, b)
  | id :: q => (mkLive (pending l ∖ {[ id ]}) (seen l), mkBox (bx_file b) (bx_transcript b ++ [EAgentMessage id]) q (bx_due b) false)
  end.

Definition clearInbox (b : Box) : Box := mkBox None (bx_transcript b) (bx_queue b) (bx_due b) (bx_idle b).

(** The process ends, by shutdown or by a crash: the memory goes. *)
Definition lost_memory (b : Box) : Box := mkBox (bx_file b) (bx_transcript b) [] [] true.

(** ** A session through its life *)

Record Session := mkSession { sn_live : option LiveSession; sn_box : Box; sn_accepted : list string }.

(** [accepted] is the ids whose [deliver] returned.  The steps are those of a disk whose appends neither fail nor tear. *)
Inductive istep : Session -> Session -> Prop :=
| i_start b acc : istep (mkSession None b acc) (let '(l, b') := session_start false b in mkSession (Some l) b' acc)
| i_reload l b acc : bx_due b = [] -> istep (mkSession (Some l) b acc) (let '(l', b') := session_start true b in mkSession (Some l') b' acc)
| i_replay l b acc : istep (mkSession (Some l) b acc) (let '(l', b') := replay_due l b in mkSession (Some l') b' acc)
| i_deliver now bus l b acc d l' b' : deliver now None bus l b = (Ok d, l', b') -> istep (mkSession (Some l) b acc) (mkSession (Some l') b' (acc ++ [b_id bus]))
| i_pi_starts l b acc : istep (mkSession (Some l) b acc) (let '(l', b') := pi_starts l b in mkSession (Some l') b' acc)
| i_entry l b acc : istep (mkSession (Some l) b acc) (mkSession (Some l) (mkBox (bx_file b) (bx_transcript b ++ [EOther]) (bx_queue b) (bx_due b) (bx_idle b)) acc)
| i_idle l b acc idle : istep (mkSession (Some l) b acc) (mkSession (Some l) (mkBox (bx_file b) (bx_transcript b) (bx_queue b) (bx_due b) idle) acc)
| i_prune l b acc : istep (mkSession (Some l) b acc) (mkSession (Some l) (prune b) acc)
| i_end l b acc : istep (mkSession (Some l) b acc) (mkSession None (lost_memory b) acc).

Inductive ireachable : Session -> Prop :=
| ir_new : ireachable (mkSession None (mkBox None [] [] [] true) [])
| ir_step s s' : ireachable s -> istep s s' -> ireachable s'.

(** ** Each message lands once *)

Definition landed (b : Box) : list string := landedIds (bx_transcript b).
Definition recorded (b : Box) : list string := map ir_id (records (bx_file b)).
Definition held (b : Box) : list string := bx_queue b ++ map ir_id (bx_due b).

(** The file as whole appends leave it. *)
Definition whole (f : option InboxFile) : Prop := match f with None => True | Some f => f_tail f = None /\ f_lines f <> [] /\ FGarbage ∉ f_lines f end.

Record inbox_Inv (s : Session) : Prop := {
  iv_whole : whole (bx_file (sn_box s));
  iv_once : NoDup (landed (sn_box s) ++ held (sn_box s));
  iv_recorded : NoDup (recorded (sn_box s));
  iv_accepted : forall id, id ∈ sn_accepted s -> id ∈ landed (sn_box s) \/ id ∈ recorded (sn_box s);
  iv_held : forall id, id ∈ held (sn_box s) -> id ∈ recorded (sn_box s) /\ sn_live s <> None;
  iv_live : forall l, sn_live s = Some l ->
    (forall id, id ∈ seen l <-> id ∈ landed (sn_box s) \/ id ∈ recorded (sn_box s)) /\
    (forall id, id ∈ recorded (sn_box s) -> id ∈ landed (sn_box s) \/ id ∈ held (sn_box s))
}.

Lemma records_rec rs : omap parsed (map FRec rs) = rs.
Proof. induction rs as [|r rs IH]; [done|]. cbn. by rewrite IH. Qed.

Lemma record_whole r f : whole f -> records (record r f) = records f ++ [r] /\ whole (record r f).
Proof.
  destruct f as [[ls [l|]]|]; cbn; [by intros [? _]| |intros _; split_and!; [done|done|done|set_solver]].
  intros (_ & Hne & Hg). rewrite omap_app, !app_nil_r. split_and!; [done|done|by destruct ls|set_solver].
Qed.

Lemma unlanded_all landed rs : length (unlanded landed rs) = length rs -> unlanded landed rs = rs.
Proof.
  unfold unlanded. induction rs as [|r rs IH]; [done|]. rewrite filter_cons. case_decide; cbn [length]; intros Hl; [by rewrite IH by lia|].
  pose proof (length_filter (fun r => ir_id r ∉ landed) rs). lia.
Qed.

Lemma keep_spec landed f :
  whole f -> (keepUnlanded landed f).1 = unlanded landed (records f) /\ records (keepUnlanded landed f).2 = unlanded landed (records f) /\ whole (keepUnlanded landed f).2.
Proof.
  intros Hw. unfold keepUnlanded. destruct (_ =? _)%nat eqn:E.
  - apply Nat.eqb_eq, unlanded_all in E. cbn. by rewrite E.
  - destruct (unlanded landed (records f)) as [|r rs]; cbn; [done|]. rewrite records_rec, app_nil_r. split_and!; [done|done|done|done|].
    rewrite elem_of_cons, list_elem_of_fmap. by intros [?|(? & ? & _)].
Qed.

Lemma unlanded_ids landed rs id : id ∈ map ir_id (unlanded landed rs) <-> id ∈ map ir_id rs /\ id ∉ landed.
Proof.
  unfold unlanded. rewrite !list_elem_of_fmap. split.
  - intros (r & -> & [Hn Hr]%list_elem_of_filter). split; [by exists r|done].
  - intros [(r & -> & Hr) Hn]. exists r. split; [done|]. by apply list_elem_of_filter.
Qed.

Lemma unlanded_nodup landed rs : NoDup (map ir_id rs) -> NoDup (map ir_id (unlanded landed rs)).
Proof. intros H. eapply sublist_NoDup; [exact H|]. apply fmap_sublist, sublist_filter. Qed.

Lemma landed_app b e : landedIds (bx_transcript b ++ [e]) = landed b ++ match e with EAgentMessage id => [id] | EOther => [] end.
Proof. unfold landed, landedIds. rewrite omap_app. by destruct e. Qed.

Lemma inbox_start b acc : inbox_Inv (mkSession None b acc) -> inbox_Inv (let '(l, b') := session_start false b in mkSession (Some l) b' acc).
Proof.
  intros [Hw Ho Hr Ha Hh Hl]. cbn [sn_box sn_live sn_accepted] in *. unfold session_start.
  destruct (keep_spec (landedIds (bx_transcript b)) (bx_file b) Hw) as (H1 & H2 & H3).
  destruct (keepUnlanded _ _) as [rest f]. cbn [fst snd] in *. subst rest.
  assert (bx_queue b = []) as Hq.
  { destruct (bx_queue b) as [|id q] eqn:E; [done|]. destruct (Hh id) as [_ Hn]; [unfold held; rewrite E; by left|done]. }
  split; unfold recorded, held, landed in *; cbn [sn_box sn_live sn_accepted bx_file bx_transcript bx_queue bx_due] in *; rewrite ?H2, ?Hq; cbn [app].
  - done.
  - apply NoDup_app. split_and!; [by apply NoDup_app in Ho as (? & _)| |by apply unlanded_nodup]. intros id Hid. rewrite unlanded_ids. tauto.
  - by apply unlanded_nodup.
  - intros id Hid. rewrite unlanded_ids. destruct (decide (id ∈ landedIds (bx_transcript b))); [by left|]. destruct (Ha id Hid); [done|]. by right.
  - intros id Hid. split; [done|discriminate].
  - intros l [= <-]. cbn [seen]. split.
    + intros id. rewrite elem_of_union, !elem_of_list_to_set, unlanded_ids. destruct (decide (id ∈ landedIds (bx_transcript b))); tauto.
    + intros id. by right.
Qed.


Lemma inbox_deliver now bus l b acc d l' b' :
  inbox_Inv (mkSession (Some l) b acc) -> deliver now None bus l b = (Ok d, l', b') -> inbox_Inv (mkSession (Some l') b' (acc ++ [b_id bus])).
Proof.
  intros [Hw Ho Hr Ha Hh Hl]. destruct (Hl l eq_refl) as [Hseen Hlive]. unfold deliver. case_bool_decide as Hin.
  { intros [= _ <- <-]. split; cbn [sn_box sn_live sn_accepted] in *; [done..| |done|done].
    intros id [Hid| ->%list_elem_of_singleton]%elem_of_app; [by apply Ha|by apply Hseen]. }
  set (r := mkRec _ _ _ _). intros [= _ <- <-]. destruct (record_whole r (bx_file b) Hw) as [Hrec Hw'].
  assert ((b_id bus ∉ landed b) /\ (b_id bus ∉ recorded b)) as [Hnl Hnr] by (split; intros H; apply Hin, Hseen; tauto).
  assert (b_id bus ∉ held b) as Hnh by (intros H; by apply Hnr, Hh).
  split; unfold recorded, held, landed in *; cbn [sn_box sn_live sn_accepted bx_file bx_transcript bx_queue bx_due] in *; rewrite ?Hrec, ?map_app; cbn [map].
  - done.
  - rewrite <- app_assoc. change ([b_id bus] ++ map ir_id (bx_due b)) with (b_id bus :: map ir_id (bx_due b)).
    rewrite <- Permutation_middle, <- Permutation_middle. apply NoDup_cons. split; [|done]. rewrite elem_of_app. tauto.
  - apply NoDup_app. split_and!; [done| |apply NoDup_singleton]. intros id Hid ->%list_elem_of_singleton. done.
  - intros id [Hid| ->%list_elem_of_singleton]%elem_of_app; [rewrite elem_of_app; destruct (Ha id Hid); tauto|]. right. apply elem_of_app. right. by left.
  - intros id Hid. split; [|discriminate]. rewrite !elem_of_app in *. destruct Hid as [[Hid| ->%list_elem_of_singleton]|Hid].
    + left. apply Hh. apply elem_of_app. by left.
    + right. by left.
    + left. apply Hh. apply elem_of_app. by right.
  - intros l0 [= <-]. assert (seen (if bx_idle b then mkLive (pending l) ({[b_id bus]} ∪ seen l) else mkLive ({[b_id bus]} ∪ pending l) ({[b_id bus]} ∪ seen l)) = {[b_id bus]} ∪ seen l) as -> by by destruct (bx_idle b).
    split; intros id.
    + rewrite elem_of_union, elem_of_singleton, Hseen, elem_of_app, list_elem_of_singleton. tauto.
    + rewrite !elem_of_app, !list_elem_of_singleton. intros [Hid| ->]; [|tauto]. specialize (Hlive id Hid). rewrite elem_of_app in Hlive. tauto.
Qed.

Lemma inbox_step s s' : inbox_Inv s -> istep s s' -> inbox_Inv s'.
Proof.
  intros H Hs. destruct Hs as [b acc|l b acc Hdue|l b acc|now bus l b acc d l' b' Hd|l b acc|l b acc|l b acc idle|l b acc|l b acc].
  - by apply inbox_start.
  - destruct H as [Hw Ho Hr Ha Hh Hl]. destruct (Hl l eq_refl) as [Hseen Hlive]. split; cbn in *; try done.
    + intros id Hid. split; [by apply Hh|done].
    + intros l0 [= <-]. split; [|done]. intros id. cbn [seen]. by rewrite elem_of_union, !elem_of_list_to_set.
  - destruct H as [Hw Ho Hr Ha Hh Hl]. destruct (Hl l eq_refl) as [Hseen Hlive].
    assert (held (replay_due l b).2 = held b) as Heq by (unfold held; cbn; by rewrite app_nil_r).
    change (let '(l', b') := replay_due l b in mkSession (Some l') b' acc) with (mkSession (Some (replay_due l b).1) (replay_due l b).2 acc).
    split; cbn [sn_box sn_live sn_accepted] in *; rewrite ?Heq; try done.
    + intros id Hid. split; [by apply Hh|done].
    + intros l0 [= <-]. split; [|done]. intros id. cbn. destruct (bx_idle b); apply Hseen.
  - exact (inbox_deliver now bus l b acc d l' b' H Hd).
  - destruct H as [Hw Ho Hr Ha Hh Hl]. destruct (Hl l eq_refl) as [Hseen Hlive]. unfold pi_starts. destruct (bx_queue b) as [|id q] eqn:Eq; [by split|].
    assert (held b = id :: (q ++ map ir_id (bx_due b))) as Hheld by (unfold held; by rewrite Eq).
    cbn [sn_box sn_live] in *. rewrite Hheld in *.
    split; unfold recorded, held, landed in *; cbn [sn_box sn_live sn_accepted bx_file bx_transcript bx_queue bx_due seen] in *; rewrite ?landed_app; unfold landed.
    + done.
    + by rewrite <- app_assoc.
    + done.
    + intros x Hx. rewrite elem_of_app. destruct (Ha x Hx); tauto.
    + intros x Hx. split; [|done]. apply Hh. by right.
    + intros l0 [= <-]. split; intros x.
      * rewrite Hseen, elem_of_app, list_elem_of_singleton. split; [tauto|]. intros [[Hx| ->]|Hx]; [by left| |by right]. right. apply Hh. by left.
      * intros Hx. rewrite elem_of_app, list_elem_of_singleton. destruct (Hlive x Hx) as [?|Hx']; [tauto|]. apply elem_of_cons in Hx' as [->|?]; tauto.
  - destruct H as [Hw Ho Hr Ha Hh Hl]. split; unfold recorded, held, landed in *; cbn [sn_box sn_live sn_accepted bx_file bx_transcript bx_queue bx_due] in *; rewrite ?landed_app; unfold landed; cbn; rewrite ?app_nil_r; done.
  - destruct H. by split.
  - destruct H as [Hw Ho Hr Ha Hh Hl]. destruct (Hl l eq_refl) as [Hseen Hlive]. destruct (keep_spec (landedIds (bx_transcript b)) (bx_file b) Hw) as (_ & H2 & H3).
    split; unfold recorded, held, landed, prune in *; cbn [sn_box sn_live sn_accepted bx_file bx_transcript bx_queue bx_due] in *; rewrite ?H2; try done.
    + by apply unlanded_nodup.
    + intros id Hid. rewrite unlanded_ids. destruct (decide (id ∈ landedIds (bx_transcript b))); [by left|]. destruct (Ha id Hid); [done|]. by right.
    + intros id Hid. split; [|discriminate]. rewrite unlanded_ids. split; [by apply Hh|]. intros Hin. apply NoDup_app in Ho as (_ & Hd & _). by apply (Hd id).
    + intros l0 [= <-]. split; intros id.
      * rewrite Hseen, unlanded_ids. destruct (decide (id ∈ landedIds (bx_transcript b))); tauto.
      * rewrite unlanded_ids. intros [Hid _]. by apply Hlive.
  - destruct H as [Hw Ho Hr Ha Hh Hl]. split; cbn in *; try done; [|intros id Hid; by apply elem_of_nil in Hid]. apply NoDup_app in Ho as (? & _). by rewrite app_nil_r.
Qed.

Lemma inbox_reach s : ireachable s -> inbox_Inv s.
Proof.
  induction 1 as [|s s' _ IH Hs]; [|by eapply inbox_step]. split; cbn; try done; try apply NoDup_nil_2; intros id Hid; by apply elem_of_nil in Hid.
Qed.


(** an append that follows a torn line is lost with it.  When a crash left part of a line in the inbox and nothing in it
    landed, the next message the session accepts is not in the file, so a crash before it lands loses it. *)
Theorem torn_line_takes_the_next now bus l b cut ls :
  bx_file b = Some (mkFile ls (Some cut)) -> b_id bus ∉ seen l -> b_id bus ∉ recorded b -> b_id bus ∉ landed b ->
  exists d l' b', deliver now None bus l b = (Ok d, l', b') /\
    (b_id bus ∉ map ir_id (bx_due (session_start false (lost_memory b')).2)) /\ b_id bus ∉ landed (lost_memory b').
Proof.
  intros Hf Hseen Hrec Hland. unfold deliver. rewrite bool_decide_eq_false_2 by done. eexists _, _, _. split; [reflexivity|]. split; [|done].
  unfold lost_memory. cbn [bx_file bx_transcript]. unfold session_start. cbn [bx_file bx_transcript]. rewrite Hf. cbn [record].
  unfold keepUnlanded. set (f := Some (mkFile (ls ++ [FGarbage]) None)).
  assert (b_id bus ∉ map ir_id (unlanded (landedIds (bx_transcript b)) (records f))) as Hno.
  { rewrite unlanded_ids. intros [Hin _]. apply Hrec. unfold recorded. rewrite Hf. cbn in *. rewrite omap_app, app_nil_r in Hin. cbn in Hin. rewrite app_nil_r in Hin.
    rewrite map_app, elem_of_app. by left. }
  destruct (_ =? _)%nat; [done|]. destruct (unlanded _ _) eqn:E; [|done]. cbn. apply not_elem_of_nil.
Qed.
End Handlers.

(** ** A keyed send whose append failed *)

Section Keyed.
Context (content : BusMessage -> string) (io : Z -> option string) (sha256 : string -> chars).

(** The bus's [deliver] of a loaded session; [w_clock] counts the calls, so that [io] can fail one of them. *)
Record World := mkWorld { w_boxes : gmap string Box; w_clock : Z }.
Definition deliver_to (m : Member) (bus : BusMessage) (live : gmap string LiveSession) (w : World) : result Delivery * gmap string LiveSession * World :=
  match live !! mb_id m, w_boxes w !! mb_id m with
  | Some l, Some b =>
      let '(r, l', b') := deliver content (b_sentAt bus) (io (w_clock w)) bus l b in
      (r, <[mb_id m := l']> live, mkWorld (<[mb_id m := b']> (w_boxes w)) (w_clock w + 1))
  | _, _ => (Throw "session has shut down", live, w)
  end.

Definition client_send (now : Z) (newId : string) (target : Member) (req : ClientSend) (s : State World) : result Receipt * State World :=
  sendFromClient sha256 deliver_to now newId (Some target) None req s.

(** a keyed client send whose append to the inbox threw is lost for good.  The first try throws and leaves the id in [seen],
    so the retry with the same key answers with a duplicate's receipt; nothing is in the inbox file or in Pi's queue. *)
Theorem failed_append_loses_keyed_send now now' newId target req key l b e (s : State World) :
  cs_from req = None -> cs_key req = Some key -> key <> ""%string -> is_ok (cleanText (cs_message req)) = true -> is_ok (parseMode (cs_mode req)) = true ->
  st_live s !! mb_id target = Some l -> w_boxes (st_world s) !! mb_id target = Some b -> io (w_clock (st_world s)) = Some e ->
  keyedMessageId sha256 (mb_id target) key ∉ seen l ->
  let '(r1, s1) := client_send now newId target req s in
  let '(r2, s2) := client_send now' newId target req s1 in
  r1 = Throw e /\ (exists rc, r2 = Ok rc /\ rc_duplicate rc = true) /\ w_boxes (st_world s2) = w_boxes (st_world s).
Proof.
  intros Hfrom Hkey Hne Htext Hmode Hlive Hbox Hio Hseen. unfold client_send, sendFromClient. rewrite Hfrom, Hkey.
  destruct (cleanText (cs_message req)) as [text|]; [|done]. destruct (parseMode (cs_mode req)) as [mode|]; [|done].
  rewrite bool_decide_eq_false_2 by done. cbn [b_id]. rewrite Hlive, bool_decide_eq_false_2 by done.
  unfold overLimits, consumeRate. destruct (consume_bucket _ _) as [bk wait]. unfold call_deliver, deliver_to. cbn [st_live st_world]. rewrite Hlive, Hbox, Hio.
  unfold deliver. cbn [b_id]. rewrite bool_decide_eq_false_2 by done. cbn [st_live st_world]. rewrite lookup_insert_eq. cbn [seen].
  rewrite bool_decide_eq_true_2 by set_solver. split_and!; [done|by eexists|]. cbn. by rewrite insert_id.
Qed.
End Keyed.

(** ** Examples *)

Definition text_of (b : BusMessage) : string := b_text b.
Definition hello : BusMessage := mkBus "m1" ("root", "root", "root")%string "hello" Auto 7.
Definition after_start (b : Box) (acc : list string) : Session := let '(l, b') := session_start false b in mkSession (Some l) b' acc.
Definition delivered : Session :=
  let s := after_start (mkBox None [] [] [] true) [] in
  match sn_live s with
  | Some l => let '(_, l', b') := deliver text_of 7 None hello l (sn_box s) in mkSession (Some l') b' ["m1"%string]
  | None => s
  end.
(** The host crashes with the message in Pi's queue, and the session starts again. *)
Definition restarted : Session := after_start (lost_memory (sn_box delivered)) ["m1"%string].


Lemma torn_line_takes_the_next_witness :
  let b := mkBox (Some (mkFile [] (Some FGarbage))) [] [] [] true in
  exists d l' b', deliver text_of 7 None hello (mkLive ∅ ∅) b = (Ok d, l', b') /\
    ("m1"%string ∉ map ir_id (bx_due (session_start false (lost_memory b')).2)) /\ "m1"%string ∉ landed (lost_memory b').
Proof.
  intros b. apply (torn_line_takes_the_next text_of 7 hello (mkLive ∅ ∅) b FGarbage []); [reflexivity| | |]; cbn.
  - apply not_elem_of_empty.
  - apply not_elem_of_nil.
  - apply not_elem_of_nil.
Defined.

(** A disk that is full for the first append. *)
Definition full_once (n : Z) : option string := if n =? 0 then Some "ENOSPC"%string else None.
Definition no_hash (s : string) : chars := to_chars s.
Definition target_c : Member := mkMember "c" "c" RRoot None 0.
Definition keyed_hello : ClientSend := mkClient (VString "hello") VUndefined (Some "web"%string) None (Some "k1"%string).
Definition one_session : State World := mkState {[ "c"%string := mkLive ∅ ∅ ]} ∅ ∅ [] [] (mkWorld {[ "c"%string := mkBox None [] [] [] true ]} 0).

Lemma failed_append_loses_keyed_send_witness :
  let '(r1, s1) := client_send text_of full_once no_hash 1 "x" target_c keyed_hello one_session in
  let '(r2, s2) := client_send text_of full_once no_hash 2 "x" target_c keyed_hello s1 in
  r1 = Throw "ENOSPC" /\ (exists rc, r2 = Ok rc /\ rc_duplicate rc = true) /\ w_boxes (st_world s2) = w_boxes (st_world one_session).
Proof.
  apply (failed_append_loses_keyed_send text_of full_once no_hash 1 2 "x" target_c keyed_hello "k1" (mkLive ∅ ∅) (mkBox None [] [] [] true) "ENOSPC" one_session);
    [reflexivity|reflexivity|discriminate|reflexivity|reflexivity|reflexivity|reflexivity|reflexivity|apply not_elem_of_empty].
Defined.
