(* ===== verification/BoardDelta.v ===== *)
(** * Board deltas

    [apps/chat/web/src/lib/api/shared/board-delta.ts]: a change of a chat's board as a
    delta, the page that applies it, and [BoardFollower], which keeps a page's board from the
    feed's frames.

    What a plan item and a todo hold besides their id and children, and a board's fields besides
    its plan, its todos, its revision and its time, are the types [D], [T] and [X]: the code copies them whole and compares
    items by their JSON text, which two items share exactly when they are equal. *)

From S2P Require Import Prelude.

Section BoardDelta.
Context {D T X : Type} `{!EqDecision D, !EqDecision T}.

Inductive PlanItem := PItem (id : string) (data : D) (children : list PlanItem).
Definition p_id (i : PlanItem) : string := match i with PItem id _ _ => id end.
Definition p_data (i : PlanItem) : D := match i with PItem _ d _ => d end.
Definition p_children (i : PlanItem) : list PlanItem := match i with PItem _ _ c => c end.

Record OwnerTodo := mkTodo { t_id : string; t_data : T }.
#[export] Instance OwnerTodo_eq : EqDecision OwnerTodo.
Proof. solve_decision. Defined.

Record Top := mkTop { top_rev : Z; top_updatedAt : string; top_rest : X }.
Record ChatBoard := mkBoard { top : Top; plan : list PlanItem; todos : list OwnerTodo }.
Definition rev (b : ChatBoard) : Z := top_rev (top b).

Definition boardKey (b : ChatBoard) : string := (string_of_Z (rev b) +:+ "|" +:+ top_updatedAt (top b))%string.

Record FlatPlanItem := mkFlat { f_id : string; f_data : D; f_children : list string }.
#[export] Instance FlatPlanItem_eq : EqDecision FlatPlanItem.
Proof. solve_decision. Defined.

Definition flat_of (i : PlanItem) : FlatPlanItem := mkFlat (p_id i) (p_data i) (map p_id (p_children i)).

Record BoardDelta := mkDelta {
  d_base : string; d_top : Top; d_plan : list FlatPlanItem; d_roots : option (list string); d_todos : list OwnerTodo; d_todoIds : option (list string)
}.
Record BoardStep := mkStep { s_plan : list string; s_roots : bool; s_todos : list string; s_todoIds : bool }.

(** [walk], over the items found so far. *)
Fixpoint walk_item (acc : option (list (string * FlatPlanItem))) (i : PlanItem) : option (list (string * FlatPlanItem)) :=
  match acc with
  | None => None
  | Some m =>
      match i with
      | PItem id d ch => if OMap.has id m then None else fold_left (fun a c => walk_item a c) ch (Some (OMap.set id (mkFlat id d (map p_id ch)) m))
      end
  end.
Definition flatPlan (b : ChatBoard) : option (list (string * FlatPlanItem)) := fold_left walk_item (plan b) (Some []).

Definition todo_map (ts : list OwnerTodo) : list (string * OwnerTodo) := fold_left (fun m t => OMap.set (t_id t) t m) ts [].

(** [changed]: the ids of [is] whose item differs from [was]'s, or is new. *)
Definition changed {V} `{EqDecision V} (was is_ : list (string * V)) : list string :=
  map fst (base.filter (fun kv => OMap.get kv.1 was <> Some kv.2) is_).

Definition root_ids (b : ChatBoard) : list string := map p_id (plan b).
Definition todo_ids (b : ChatBoard) : list string := map t_id (todos b).

Definition boardStep (before after : ChatBoard) : option BoardStep :=
  match flatPlan before, flatPlan after with
  | Some old, Some now =>
      if negb (length (todo_map (todos before)) =? length (todos before))%nat || negb (length (todo_map (todos after)) =? length (todos after))%nat then None
      else Some (mkStep (changed old now) (negb (bool_decide (root_ids before = root_ids after)))
                   (changed (todo_map (todos before)) (todo_map (todos after))) (negb (bool_decide (todo_ids before = todo_ids after))))
  | _, _ => None
  end.

(** The ids of a JavaScript [Set], in insertion order. *)
Definition set_of (l : list string) : list string := OMap.keys (fold_left (fun m id => OMap.set id tt m) l []).

(** [boardDelta]; [flatPlan(board)!] of a board that repeats an id is an exception. *)
Definition boardDelta (base : string) (b : ChatBoard) (steps : list BoardStep) : option BoardDelta :=
  items ← flatPlan b;
  Some (mkDelta base (top b)
    (omap (fun id => OMap.get id items) (set_of (flat_map s_plan steps)))
    (if existsb s_roots steps then Some (root_ids b) else None)
    (base.filter (fun t => t_id t ∈ set_of (flat_map s_todos steps)) (todos b))
    (if existsb s_todoIds steps then Some (todo_ids b) else None)).

(** [tree]; [None] is a recursion deeper than the fuel. *)
Fixpoint tree (fuel : nat) (items : list (string * FlatPlanItem)) (ids : list string) : option (list PlanItem) :=
  match fuel with
  | O => None
  | S n =>
      foldr (fun id rest =>
        r ← rest;
        match OMap.get id items with
        | None => Some r
        | Some f => sub ← tree n items (f_children f); Some (PItem (f_id f) (f_data f) sub :: r)
        end) (Some []) ids
  end.

Inductive Applied := NotTheBase | Next (b : ChatBoard) | Overflow.

Definition applyBoardDelta (b : ChatBoard) (d : BoardDelta) : Applied :=
  match (if bool_decide (boardKey b = d_base d) then flatPlan b else None) with
  | None => NotTheBase
  | Some items =>
      let items := fold_left (fun m i => OMap.set (f_id i) i m) (d_plan d) items in
      let ts := fold_left (fun m t => OMap.set (t_id t) t m) (d_todos d) (todo_map (todos b)) in
      match tree (S (length items)) items (nullish (d_roots d) (root_ids b)) with
      | Some p => Next (mkBoard (d_top d) p (omap (fun id => OMap.get id ts) (nullish (d_todoIds d) (todo_ids b))))
      | None => Overflow
      end
  end.

(** ** The page's board *)

Inductive Frame := FBoard (b : ChatBoard) | FDelta (d : BoardDelta).

Record BoardFollower := mkFollower { fb : option ChatBoard; waiting : option (list BoardDelta) }.

Definition hold (b : ChatBoard) (f : BoardFollower) : BoardFollower :=
  match fb f with
  | Some held => if rev b <? rev held then f else mkFollower (Some b) (waiting f)
  | None => mkFollower (Some b) (waiting f)
  end.

(** The delta on the board the page holds; a [tree] that overflows the stack is an exception, and no board. *)
Definition follows (f : BoardFollower) (d : BoardDelta) : option ChatBoard :=
  b ← fb f; match applyBoardDelta b d with Next b' => Some b' | _ => None end.

Definition refetch (queued : list BoardDelta) (f : BoardFollower) : BoardFollower := mkFollower (fb f) (Some queued).

Definition take_frame (e : Frame) (f : BoardFollower) : BoardFollower :=
  match e with
  | FBoard b => hold b f
  | FDelta d =>
      match waiting f with
      | Some q => mkFollower (fb f) (Some (q ++ [d]))
      | None =>
          if (match fb f with Some b => (top_rev (d_top d) <=? rev b) && negb (bool_decide (d_base d = boardKey b)) | None => false end) then f
          else match follows f d with
               | Some b => mkFollower (Some b) None
               | None => refetch [d] f
               end
      end
  end.

(** [seed] before its read, and when the read answers. *)
Definition seed (f : BoardFollower) : BoardFollower :=
  match fb f, waiting f with None, None => mkFollower None (Some []) | _, _ => f end.
Definition seeded (cached : option ChatBoard) (f : BoardFollower) : BoardFollower :=
  let queued := nullish (waiting f) [] in
  let f1 := mkFollower (fb f) None in
  let f2 := match cached with Some b => hold b f1 | None => f1 end in
  match fb f2 with
  | Some _ => fold_left (fun f d => take_frame (FDelta d) f) queued f2
  | None => refetch queued f2
  end.

(** [fetchBoard] answers. *)
Definition fetched (answer : option ChatBoard) (f : BoardFollower) : BoardFollower :=
  let queued := nullish (waiting f) [] in
  let f1 := mkFollower (fb f) None in
  let f2 := match answer with Some b => hold b f1 | None => f1 end in
  fold_left (fun f d =>
    if (match fb f with Some b => rev b <? top_rev (d_top d) | None => false end)
    then match follows f d with Some b => mkFollower (Some b) (waiting f) | None => f end
    else f) queued f2.

(** ** A delta is its change *)

Lemma delta_item_nested (P : PlanItem -> Prop) : (forall id d ch, Forall P ch -> P (PItem id d ch)) -> forall i, P i.
Proof.
  intros H. fix IH 1. intros [id d ch]. apply H. induction ch as [|c ch IHch]; constructor; [apply IH|exact IHch].
Qed.

Fixpoint nodes_item (i : PlanItem) : list PlanItem := match i with PItem _ _ ch => i :: flat_map nodes_item ch end.
Definition nodes (l : list PlanItem) : list PlanItem := flat_map nodes_item l.
Definition entry (i : PlanItem) : string * FlatPlanItem := (p_id i, flat_of i).

Lemma walk_none l : fold_left walk_item l None = None.
Proof. induction l as [|i l IH]; [done|]. by destruct i. Qed.

Lemma has_keys {V} (k : string) (m : list (string * V)) : OMap.has k m = false -> k ∉ OMap.keys m.
Proof. unfold OMap.has. destruct (OMap.get k m) eqn:E; [done|]. intros _. by apply OMap.get_None. Qed.

Lemma walk_spec i : forall m m', walk_item (Some m) i = Some m' -> NoDup (OMap.keys m) -> m' = m ++ map entry (nodes_item i) /\ NoDup (OMap.keys m').
Proof.
  induction i as [id d ch IH] using delta_item_nested. intros m m'. cbn [walk_item nodes_item]. destruct (OMap.has id m) eqn:Eh; [done|].
  set (f := mkFlat id d (map p_id ch)). assert (OMap.set id f m = m ++ [(id, f)]) as Hset.
  { apply OMap.set_app_new. unfold OMap.has in Eh. by destruct (OMap.get id m). }
  intros Hw Hnd.
  assert (forall a, fold_left walk_item ch (Some a) = Some m' -> NoDup (OMap.keys a) -> m' = a ++ map entry (flat_map nodes_item ch) /\ NoDup (OMap.keys m')) as Hch.
  { clear - IH. induction IH as [|c ch Hc _ IHch]; cbn [fold_left flat_map]; intros a Hw Hnd.
    - injection Hw as ->. cbn [map]. by rewrite app_nil_r.
    - destruct (walk_item (Some a) c) as [a'|] eqn:E; [|by rewrite walk_none in Hw]. destruct (Hc _ _ E Hnd) as [-> Hnd'].
      destruct (IHch _ Hw Hnd') as [Heq ?]. split; [|done]. by rewrite Heq, map_app, app_assoc. }
  pose proof (OMap.set_NoDup id f m Hnd) as Hnd'. rewrite Hset in *. destruct (Hch _ Hw Hnd') as [Heq ?]. split; [|done]. by rewrite Heq, <- app_assoc.
Qed.

Lemma flatPlan_spec b m : flatPlan b = Some m -> m = map entry (nodes (plan b)) /\ NoDup (OMap.keys m).
Proof.
  unfold flatPlan, nodes. enough (forall l a, fold_left walk_item l (Some a) = Some m -> NoDup (OMap.keys a) -> m = a ++ map entry (flat_map nodes_item l) /\ NoDup (OMap.keys m)) as H.
  { intros Hf. apply (H _ [] Hf). apply NoDup_nil_2. }
  induction l as [|i l IH]; cbn [fold_left flat_map]; intros a Hw Hnd; [injection Hw as ->; by rewrite app_nil_r|].
  destruct (walk_item (Some a) i) as [a'|] eqn:E; [|by rewrite walk_none in Hw]. destruct (walk_spec i _ _ E Hnd) as [-> Hnd'].
  destruct (IH _ Hw Hnd') as [Heq ?]. split; [|done]. by rewrite Heq, map_app, app_assoc.
Qed.

(** [tree] rebuilds a plan from a map that has its items. *)
Lemma tree_spec fuel items : forall l, (length (nodes l) < fuel)%nat -> (forall x, x ∈ nodes l -> OMap.get (p_id x) items = Some (flat_of x)) ->
  tree fuel items (map p_id l) = Some l.
Proof.
  induction fuel as [|n IH]; intros l Hl Hx; [lia|]. cbn [tree]. induction l as [|[id d ch] l IHl]; [done|].
  change (nodes (PItem id d ch :: l)) with (PItem id d ch :: nodes ch ++ nodes l) in *. cbn [length] in Hl. rewrite length_app in Hl.
  cbn [map foldr]. rewrite IHl; [|lia|intros x Hin; apply Hx; rewrite elem_of_cons, elem_of_app; tauto]. cbn [mbind option_bind].
  rewrite (Hx (PItem id d ch)) by by left. cbn [flat_of f_id f_data f_children p_id p_data p_children].
  rewrite IH; [done|lia|intros x Hin; apply Hx; rewrite elem_of_cons, elem_of_app; tauto].
Qed.

Lemma fold_set_get {V} (key : V -> string) (g : string -> option V) l : forall m id,
  (forall v, v ∈ l -> g (key v) = Some v) ->
  OMap.get id (fold_left (fun m v => OMap.set (key v) v m) l m) = if bool_decide (id ∈ map key l) then g id else OMap.get id m.
Proof.
  induction l as [|v l IH]; intros m id Hg; cbn [fold_left map]; [done|]. rewrite IH by (intros w Hw; apply Hg; by right).
  destruct (decide (id ∈ map key l)) as [Hin|Hin].
  - rewrite !bool_decide_eq_true_2; [done|by right|done].
  - rewrite (bool_decide_eq_false_2 _ Hin), OMap.get_set. case_decide as Hid; subst.
    + rewrite bool_decide_eq_true_2 by by left. symmetry. apply Hg. by left.
    + rewrite bool_decide_eq_false_2; [done|]. rewrite elem_of_cons. by intros [?|?].
Qed.

Lemma unchanged {V} `{EqDecision V} (was is_ : list (string * V)) id v : OMap.get id is_ = Some v -> id ∉ changed was is_ -> OMap.get id was = Some v.
Proof.
  intros Hg Hn. destruct (decide (OMap.get id was = Some v)) as [|Hne]; [done|]. destruct Hn. unfold changed. apply list_elem_of_fmap.
  exists (id, v). split; [done|]. apply list_elem_of_filter. split; [done|]. by apply OMap.get_elem.
Qed.

Lemma set_of_elem l id : id ∈ set_of l <-> id ∈ l.
Proof.
  unfold set_of. enough (forall m, id ∈ OMap.keys (fold_left (fun m id => OMap.set id tt m) l m) <-> id ∈ OMap.keys m \/ id ∈ l) as H.
  { rewrite H. split; [intros [Hn|?]; [by apply elem_of_nil in Hn|done]|by right]. }
  induction l as [|x l IH]; cbn [fold_left]; intros m; [split; [by left|intros [?|Hn]; [done|by apply elem_of_nil in Hn]]|].
  rewrite IH, OMap.elem_keys_set, elem_of_cons. tauto.
Qed.

Lemma todo_map_spec ts : length (todo_map ts) = length ts -> todo_map ts = map (fun t => (t_id t, t)) ts /\ NoDup (map t_id ts).
Proof.
  unfold todo_map. enough (forall m, (length (fold_left (fun m t => OMap.set (t_id t) t m) ts m) <= length m + length ts)%nat /\
    (NoDup (OMap.keys m) -> length (fold_left (fun m t => OMap.set (t_id t) t m) ts m) = (length m + length ts)%nat ->
       fold_left (fun m t => OMap.set (t_id t) t m) ts m = m ++ map (fun t => (t_id t, t)) ts /\ NoDup (OMap.keys (m ++ map (fun t => (t_id t, t)) ts)))) as H.
  { intros Hl. destruct (H []) as [_ H']. destruct (H' NoDup_nil_2 Hl) as [-> Hnd]. split; [done|].
    unfold OMap.keys in Hnd. cbn [app] in Hnd. rewrite map_map in Hnd. done. }
  induction ts as [|t ts IH]; cbn [fold_left map length]; intros m; [rewrite Nat.add_0_r, app_nil_r; done|].
  destruct (IH (OMap.set (t_id t) t m)) as [H1 H2]. pose proof (OMap.set_length (t_id t) t m) as Hlen. destruct (OMap.has (t_id t) m) eqn:Eh.
  - split; [lia|]. intros _ Hl. lia.
  - split; [lia|]. intros Hnd Hl. destruct H2 as [H2 H3]; [by apply OMap.set_NoDup|lia|].
    rewrite H2. unfold OMap.has in Eh. rewrite OMap.set_app_new in * by by destruct (OMap.get (t_id t) m). rewrite <- !app_assoc in *. done.
Qed.

(** Boards one after another, with the step between each two. *)
Inductive chain : ChatBoard -> list BoardStep -> ChatBoard -> Prop :=
| chain_nil b : is_Some (flatPlan b) -> length (todo_map (todos b)) = length (todos b) -> chain b [] b
| chain_cons b s b' steps b'' : boardStep b b' = Some s -> chain b' steps b'' -> chain b (s :: steps) b''.

Definition sound (b : ChatBoard) : Prop := is_Some (flatPlan b) /\ length (todo_map (todos b)) = length (todos b).

Lemma boardStep_sound b b' s : boardStep b b' = Some s -> sound b /\ sound b' /\
  (forall m m', flatPlan b = Some m -> flatPlan b' = Some m' -> s_plan s = changed m m') /\ s_todos s = changed (todo_map (todos b)) (todo_map (todos b')) /\
  (s_roots s = false -> root_ids b = root_ids b') /\ (s_todoIds s = false -> todo_ids b = todo_ids b').
Proof.
  unfold boardStep, sound. destruct (flatPlan b) as [m|]; [|done]. destruct (flatPlan b') as [m'|]; [|done].
  destruct (negb _ || negb _) eqn:E; [done|]. apply orb_false_iff in E as [E1%negb_false_iff E2%negb_false_iff]. apply Nat.eqb_eq in E1, E2.
  intros [= <-]. cbn. split_and!; try done; try by eexists.
  - by intros m0 m0' [= <-] [= <-].
  - intros H%negb_false_iff. by apply bool_decide_eq_true in H.
  - intros H%negb_false_iff. by apply bool_decide_eq_true in H.
Qed.

(** Along a chain, what no step names stays. *)
Lemma chain_keeps b steps b' : chain b steps b' ->
  sound b /\ sound b' /\
  (forall m m' id v, flatPlan b = Some m -> flatPlan b' = Some m' -> id ∉ flat_map s_plan steps -> OMap.get id m' = Some v -> OMap.get id m = Some v) /\
  (forall id v, id ∉ flat_map s_todos steps -> OMap.get id (todo_map (todos b')) = Some v -> OMap.get id (todo_map (todos b)) = Some v) /\
  (existsb s_roots steps = false -> root_ids b = root_ids b') /\ (existsb s_todoIds steps = false -> todo_ids b = todo_ids b').
Proof.
  induction 1 as [b H1 H2|b s b' steps b'' Hs _ (S1 & S2 & IHp & IHt & IHr & IHi)].
  - split_and!; try done. intros m m' id v Hm Hm' _. rewrite Hm in Hm'. by injection Hm' as ->.
  - apply boardStep_sound in Hs as (S0 & _ & Hp & Ht & Hr & Hi). split_and!; try done.
    + intros m m'' id v Hm Hm'' Hn Hg. cbn [flat_map] in Hn. destruct S1 as [[m' Hm'] _].
      apply (unchanged m m'); [|rewrite <- (Hp m m' Hm Hm')]; [|intros H; apply Hn, elem_of_app; by left].
      apply (IHp m' m'' id v Hm' Hm''); [intros H; apply Hn, elem_of_app; by right|done].
    + intros id v Hn Hg. cbn [flat_map] in Hn. apply (unchanged _ (todo_map (todos b'))); [|rewrite <- Ht; intros H; apply Hn, elem_of_app; by left].
      apply IHt; [intros H; apply Hn, elem_of_app; by right|done].
    + cbn [existsb]. intros [H1 H2]%orb_false_iff. rewrite (Hr H1). by apply IHr.
    + cbn [existsb]. intros [H1 H2]%orb_false_iff. rewrite (Hi H1). by apply IHi.
Qed.

Lemma plan_applies b steps b' m m' :
  chain b steps b' -> flatPlan b = Some m -> flatPlan b' = Some m' ->
  let items := fold_left (fun m i => OMap.set (f_id i) i m) (omap (fun id => OMap.get id m') (set_of (flat_map s_plan steps))) m in
  tree (S (length items)) items (map p_id (plan b')) = Some (plan b').
Proof.
  intros Hc Hm Hm' items. destruct (chain_keeps b steps b' Hc) as (_ & _ & Hkeep & _). destruct (flatPlan_spec b' m' Hm') as [Hm'e Hnd'].
  assert (forall x, x ∈ nodes (plan b') -> OMap.get (p_id x) m' = Some (flat_of x)) as Hget'.
  { intros x Hx. apply OMap.elem_get; [done|]. rewrite Hm'e. apply list_elem_of_fmap. by exists x. }
  assert (forall id f, OMap.get id m' = Some f -> f_id f = id) as Hid.
  { intros id f Hf. apply OMap.get_elem in Hf. rewrite Hm'e in Hf. apply list_elem_of_fmap in Hf as (x & [= -> ->] & _). done. }
  set (sent := omap (fun id => OMap.get id m') (set_of (flat_map s_plan steps))) in *.
  assert (forall v, v ∈ sent -> OMap.get (f_id v) m' = Some v) as Hsent.
  { intros v Hv. apply list_elem_of_omap in Hv as (id & _ & Hv). by rewrite (Hid _ _ Hv). }
  assert (forall x, x ∈ nodes (plan b') -> OMap.get (p_id x) items = Some (flat_of x)) as Hget.
  { intros x Hx. unfold items. rewrite (fold_set_get f_id (fun id => OMap.get id m')) by done. case_bool_decide as Hin; [by apply Hget'|].
    apply (Hkeep m m'); [done|done| |by apply Hget']. intros Hn. apply Hin. apply list_elem_of_fmap. exists (flat_of x). split; [done|].
    apply list_elem_of_omap. exists (p_id x). split; [by apply set_of_elem|by apply Hget']. }
  apply tree_spec; [|done].
  assert (length (map p_id (nodes (plan b'))) <= length (OMap.keys items))%nat as Hle.
  { apply submseteq_length, NoDup_submseteq.
    - rewrite Hm'e in Hnd'. unfold OMap.keys in Hnd'. rewrite map_map in Hnd'. done.
    - intros id (x & -> & Hx)%list_elem_of_fmap. destruct (decide (p_id x ∈ OMap.keys items)) as [|Hn]; [done|]. apply OMap.get_None in Hn. rewrite Hget in Hn by done. done. }
  unfold OMap.keys in Hle. rewrite !length_map in Hle. lia.
Qed.

Lemma todos_apply b steps b' :
  chain b steps b' ->
  let ts := fold_left (fun m t => OMap.set (t_id t) t m) (base.filter (fun t => t_id t ∈ set_of (flat_map s_todos steps)) (todos b')) (todo_map (todos b)) in
  omap (fun id => OMap.get id ts) (map t_id (todos b')) = todos b'.
Proof.
  intros Hc ts. destruct (chain_keeps b steps b' Hc) as (_ & [_ Hl'] & _ & Hkeep & _). apply todo_map_spec in Hl' as [Hm' Hnd'].
  assert (forall t, t ∈ todos b' -> OMap.get (t_id t) (todo_map (todos b')) = Some t) as Hget'.
  { intros t Ht. rewrite Hm'. apply OMap.elem_get; [unfold OMap.keys; by rewrite map_map|]. apply list_elem_of_fmap. by exists t. }
  assert (forall t, t ∈ todos b' -> OMap.get (t_id t) ts = Some t) as Hget.
  { intros t Ht. unfold ts. rewrite (fold_set_get t_id (fun id => OMap.get id (todo_map (todos b')))) by (intros v [_ Hv]%list_elem_of_filter; by apply Hget').
    case_bool_decide as Hin; [by apply Hget'|]. apply Hkeep; [|by apply Hget']. intros Hn. apply Hin, list_elem_of_fmap. exists t. split; [done|].
    apply list_elem_of_filter. split; [by apply set_of_elem|done]. }
  clear - Hget. revert Hget. generalize (todos b') as l. induction l as [|t l IH]; intros Hget; [done|]. cbn. rewrite (Hget t) by by left.
  f_equal. apply IH. intros x Hx. apply Hget. by right.
Qed.

Lemma delta_applies b steps b' :
  chain b steps b' -> exists d, boardDelta (boardKey b) b' steps = Some d /\ d_top d = top b' /\ d_base d = boardKey b /\ applyBoardDelta b d = Next b'.
Proof.
  intros Hc. destruct (chain_keeps b steps b' Hc) as ([[m Hm] _] & [[m' Hm'] _] & _ & _ & Hroots & Hids).
  unfold boardDelta. rewrite Hm'. cbn [mbind option_bind]. eexists. split_and!; [done|done|done|].
  unfold applyBoardDelta. cbn [d_base d_plan d_todos d_roots d_todoIds d_top]. rewrite bool_decide_eq_true_2, Hm by done.
  assert (nullish (if existsb s_roots steps then Some (root_ids b') else None) (root_ids b) = map p_id (plan b')) as ->.
  { destruct (existsb s_roots steps); [done|]. by apply Hroots. }
  assert (nullish (if existsb s_todoIds steps then Some (todo_ids b') else None) (todo_ids b) = map t_id (todos b')) as ->.
  { destruct (existsb s_todoIds steps); [done|]. by apply Hids. }
  rewrite (plan_applies b steps b' m m' Hc Hm Hm'). rewrite (todos_apply b steps b' Hc). by destruct b'.
Qed.

(** C14: a delta is its change: for any boards one after another whose steps the server could take, the delta over all
    the steps, on the board the page holds, gives the server's board, plan tree, orders and all; and on a board with another key it gives nothing. *)
Theorem board_delta_roundtrip b steps b' :
  chain b steps b' ->
  exists d, boardDelta (boardKey b) b' steps = Some d /\ applyBoardDelta b d = Next b' /\
    forall other, boardKey other <> boardKey b -> applyBoardDelta other d = NotTheBase.
Proof.
  intros Hc. destruct (delta_applies b steps b' Hc) as (d & Hd & _ & Hbase & Happ). exists d. split_and!; [done|done|].
  intros other Hne. unfold applyBoardDelta. rewrite bool_decide_eq_false_2; [done|]. by rewrite Hbase.
Qed.

(** ** The follower *)

Inductive FollowerEvent := EFrame (e : Frame) | ESeed | ESeeded (cached : option ChatBoard) | EFetched (answer : option ChatBoard).
Definition fstep (f : BoardFollower) (e : FollowerEvent) : BoardFollower :=
  match e with EFrame e => take_frame e f | ESeed => seed f | ESeeded c => seeded c f | EFetched a => fetched a f end.

Section Feed.
(** The boards the server had: the key names a board. *)
Context (server : list ChatBoard) (Hkeys : forall b b', b ∈ server -> b' ∈ server -> boardKey b = boardKey b' -> b = b').

Definition from_server (d : BoardDelta) : Prop :=
  exists b steps b', b ∈ server /\ b' ∈ server /\ rev b <= rev b' /\ chain b steps b' /\ boardDelta (boardKey b) b' steps = Some d.
Definition of_server (e : FollowerEvent) : Prop :=
  match e with
  | EFrame (FBoard b) => b ∈ server
  | EFrame (FDelta d) => from_server d
  | ESeed => True
  | ESeeded o | EFetched o => match o with Some b => b ∈ server | None => True end
  end.

Definition rev_le (a b : option ChatBoard) : Prop := match a, b with Some x, Some y => rev x <= rev y | Some _, None => False | None, _ => True end.
Definition follower_ok (f : BoardFollower) : Prop :=
  (forall b, fb f = Some b -> b ∈ server) /\ Forall from_server (nullish (waiting f) []).

Lemma rev_le_refl a : rev_le a a.
Proof. destruct a; cbn; [lia|done]. Qed.
Lemma rev_le_trans a b c : rev_le a b -> rev_le b c -> rev_le a c.
Proof. destruct a, b, c; cbn; try done; lia. Qed.

Lemma follows_ok f d b : follower_ok f -> from_server d -> follows f d = Some b -> b ∈ server /\ rev_le (fb f) (Some b).
Proof.
  intros [Hf _] (b0 & steps & b' & H0 & H' & Hrev & Hc & Hd). unfold follows. destruct (fb f) as [held|] eqn:E; [|done]. cbn [mbind option_bind].
  destruct (delta_applies b0 steps b' Hc) as (d' & Hd' & _ & Hbase & Happ). assert (d = d') as -> by congruence.
  unfold applyBoardDelta at 1. case_bool_decide as Hk; [|done]. rewrite Hbase in Hk.
  assert (held = b0) as -> by (apply Hkeys; [by apply Hf|done|done]).
  intros Hn. unfold applyBoardDelta in Happ. rewrite bool_decide_eq_true_2 in Happ by done.
  destruct (flatPlan b0) as [items|]; [|done]. destruct (tree _ _ _) as [p|]; [|done]. injection Happ as Happ. injection Hn as <-. rewrite Happ. done.
Qed.

Lemma hold_ok b f : follower_ok f -> b ∈ server -> follower_ok (hold b f) /\ rev_le (fb f) (fb (hold b f)) /\ is_Some (fb (hold b f)).
Proof.
  intros [Hf Hw] Hb. unfold hold. destruct (fb f) as [held|] eqn:E.
  - destruct (rev b <? rev held) eqn:Er; [rewrite E; split_and!; [by rewrite <- E in Hf|cbn; lia|by eexists]|].
    apply Z.ltb_ge in Er. cbn. split_and!; [split; [by intros b' [= <-]|done]|done|by eexists].
  - cbn. split_and!; [split; [by intros b' [= <-]|done]|done|by eexists].
Qed.

Lemma take_delta_ok d f : follower_ok f -> from_server d -> follower_ok (take_frame (FDelta d) f) /\ rev_le (fb f) (fb (take_frame (FDelta d) f)).
Proof.
  intros Hok Hd. cbn [take_frame]. destruct (waiting f) as [q|] eqn:Ew.
  - destruct Hok as [Hf Hw]. rewrite Ew in Hw. split; [split; [done|]|apply rev_le_refl]. cbn. apply Forall_app. split; [done|by apply Forall_singleton].
  - destruct (match fb f with Some b => _ | None => _ end); [split; [done|apply rev_le_refl]|].
    destruct (follows f d) as [b|] eqn:Ef.
    + destruct (follows_ok f d b Hok Hd Ef) as [Hb Hle]. split; [split; [by intros b' [= <-]|by apply Forall_nil_2]|done].
    + destruct Hok as [Hf Hw]. split; [split; [done|by apply Forall_singleton]|apply rev_le_refl].
Qed.

Lemma settle_ok o f : follower_ok f -> match o with Some b => b ∈ server | None => True end ->
  let f1 := mkFollower (fb f) None in let f2 := match o with Some b => hold b f1 | None => f1 end in
  follower_ok f2 /\ rev_le (fb f) (fb f2).
Proof.
  intros [Hf Hw] Ho. assert (follower_ok (mkFollower (fb f) None)) as H1 by (split; [done|by apply Forall_nil_2]).
  destruct o as [b|]; [|split; [done|apply rev_le_refl]]. destruct (hold_ok b _ H1 Ho) as (? & ? & _). done.
Qed.

Lemma fstep_ok e f : follower_ok f -> of_server e -> follower_ok (fstep f e) /\ rev_le (fb f) (fb (fstep f e)).
Proof.
  intros Hok He. destruct e as [[b|d]| |o|o]; cbn [fstep of_server] in *.
  - destruct (hold_ok b f Hok He) as (? & ? & _). done.
  - by apply take_delta_ok.
  - unfold seed. destruct (fb f) eqn:E, (waiting f) eqn:Ew; rewrite ?E; (split; [|apply rev_le_refl]); done.
  - unfold seeded. destruct (settle_ok o f Hok He) as [H2 Hle]. set (f2 := match o with Some b => hold b _ | None => _ end) in *. destruct Hok as [_ Hw].
    destruct (fb f2) as [held|] eqn:E.
    + rewrite <- E in Hle. clear E. clearbody f2. revert f2 H2 Hle. induction Hw as [|d q Hd _ IH]; cbn [fold_left]; intros f2 H2 Hle; [done|].
      destruct (take_delta_ok d f2 H2 Hd) as [H3 H4]. apply IH; [done|by eapply rev_le_trans].
    + split; [split; [cbn; by rewrite E|done]|]. cbn. by rewrite E.
  - unfold fetched. destruct (settle_ok o f Hok He) as [H2 Hle]. set (f2 := match o with Some b => hold b _ | None => _ end) in *. destruct Hok as [_ Hw].
    clearbody f2. revert f2 H2 Hle. induction Hw as [|d q Hd _ IH]; cbn [fold_left]; intros f2 H2 Hle; [done|].
    destruct (match fb f2 with Some b => _ | None => _ end); [|by apply IH].
    destruct (follows f2 d) as [b|] eqn:Ef; [|by apply IH]. destruct (follows_ok f2 d b H2 Hd Ef) as [Hb Hlb].
    destruct H2 as [_ Hw2]. apply IH; [split; [by intros b' [= <-]|done]|by eapply rev_le_trans].
Qed.

Lemma follower_run es : forall f, follower_ok f -> Forall of_server es -> follower_ok (fold_left fstep es f).
Proof. induction es as [|e es IH]; cbn; intros f Hf Hes; [done|]. apply Forall_cons in Hes as [He Hes]. apply IH; [by apply fstep_ok|done]. Qed.

(** the board a page shows is always one the server had, whole, and its revision never goes back, for any frames, late
    cache reads and failed or overlapping fetches, in any order; and a page that waits for nothing takes a delta of the board it holds at once. *)
Theorem follower_shows_server_boards es e :
  Forall of_server es -> of_server e ->
  let f := fold_left fstep es (mkFollower None None) in
  let f' := fstep f e in
  (forall b, fb f' = Some b -> b ∈ server) /\ rev_le (fb f) (fb f') /\
  forall b steps b' d, e = EFrame (FDelta d) -> waiting f = None -> fb f = Some b -> chain b steps b' -> boardDelta (boardKey b) b' steps = Some d ->
    fb f' = Some b' /\ waiting f' = None.
Proof.
  intros Hes He f f'. assert (follower_ok f) as Hf by (apply follower_run; [split; [done|by apply Forall_nil_2]|done]).
  destruct (fstep_ok e f Hf He) as [[H1 _] H2]. split_and!; [done|done|].
  intros b steps b' d -> Hw Hb Hc Hd. destruct (delta_applies b steps b' Hc) as (d' & Hd' & _ & Hbase & Happ). assert (d = d') as -> by congruence.
  unfold f'. cbn [fstep take_frame]. rewrite Hw, Hb, Hbase, (bool_decide_eq_true_2 (boardKey b = boardKey b)) by done. rewrite andb_false_r.
  unfold follows. rewrite Hb. cbn [mbind option_bind]. by rewrite Happ.
Qed.
End Feed.
End BoardDelta.

Definition board_1 : @ChatBoard string string unit :=
  mkBoard (mkTop 1 "t1" tt) [PItem "a" "todo" [PItem "b" "todo" []]] [mkTodo "n1" "ask"].
Definition board_2 : @ChatBoard string string unit :=
  mkBoard (mkTop 2 "t2" tt) [PItem "c" "new" []; PItem "a" "done" [PItem "b" "todo" []]] [].
Definition step_12 : BoardStep := mkStep ["c"; "a"] true [] true.
Definition delta_12 : @BoardDelta string string unit :=
  mkDelta "1|t1" (mkTop 2 "t2" tt) [mkFlat "c" "new" []; mkFlat "a" "done" ["b"]] (Some ["c"; "a"]) [] (Some []).

Lemma chain_12 : chain board_1 [step_12] board_2.
Proof. apply chain_cons with board_2; [by vm_compute|]. apply chain_nil; vm_compute; [by eexists|done]. Qed.

Lemma board_delta_roundtrip_witness :
  boardDelta "1|t1" board_2 [step_12] = Some delta_12 /\
  exists d, boardDelta (boardKey board_1) board_2 [step_12] = Some d /\ applyBoardDelta board_1 d = Next board_2 /\
    forall other, boardKey other <> boardKey board_1 -> applyBoardDelta other d = NotTheBase.
Proof. split; [by vm_compute|]. apply (board_delta_roundtrip board_1 [step_12] board_2 chain_12). Defined.

Lemma server_12 : forall b b', b ∈ [board_1; board_2] -> b' ∈ [board_1; board_2] -> boardKey b = boardKey b' -> b = b'.
Proof. intros b b' Hb Hb'. rewrite !elem_of_cons, elem_of_nil in Hb, Hb'. destruct Hb as [->|[->|[]]], Hb' as [->|[->|[]]]; done. Qed.
Lemma delta_12_from_server : from_server [board_1; board_2] delta_12.
Proof. exists board_1, [step_12], board_2. split_and!; [by left|by right; left|done|exact chain_12|by vm_compute]. Qed.

(** The page asked for its cache, the feed sent the delta, the cache answered with the older board. *)
Lemma follower_shows_server_boards_witness :
  let f := fold_left fstep [ESeed; EFrame (FDelta delta_12)] (mkFollower None None) in
  fb (fstep f (ESeeded (Some board_1))) = Some board_2 /\
  forall b, fb (fstep f (ESeeded (Some board_1))) = Some b -> b ∈ [board_1; board_2].
Proof.
  split; [by vm_compute|].
  refine (proj1 (follower_shows_server_boards [board_1; board_2] server_12 [ESeed; EFrame (FDelta delta_12)] (ESeeded (Some board_1)) _ _)).
  - repeat constructor. exact delta_12_from_server.
  - by left.
Defined.
