(* ===== verification/Board.v ===== *)
(** * A chat's board: its data, its tree and its ids

    [apps/chat/web/src/lib/api/shared/chat-board.ts] and its types in [types.ts], up to the
    reducer: plan items and todos, the walks over the plan, the goals of a plan, the ids
    a board gives, and a goal's target with its measurement.

    Numbers of a target are finite doubles, which the code only compares: they are the fractions [Q] they name.
    [Date.parse] is an argument, since it reads any text an engine takes for a date. *)

From S2P Require Import Prelude.
From Stdlib Require Import QArith.QArith_base.
#[local] Open Scope Z_scope.

(** ** Refusals *)

Inductive BoardErrorKind := Invalid | Forbidden | Unknown.

(** What a call gives: a value, a [BoardError], or nothing, for a loop that has run longer than its fuel. *)
Inductive attempt (A : Type) := Fine (a : A) | Refused (kind : BoardErrorKind) (message : string) | Spins.
Arguments Fine {A} a.
Arguments Refused {A} kind message.
Arguments Spins {A}.
#[export] Instance attempt_ret : MRet attempt := fun A a => Fine a.
#[export] Instance attempt_bind : MBind attempt := fun A B f m => match m with Fine a => f a | Refused k e => Refused k e | Spins => Spins end.
#[export] Instance attempt_fmap : FMap attempt := fun A B f m => match m with Fine a => Fine (f a) | Refused k e => Refused k e | Spins => Spins end.

Lemma bind_fine {A B} (m : attempt A) (f : A -> attempt B) b : (m ≫= f) = Fine b <-> exists a, m = Fine a /\ f a = Fine b.
Proof. destruct m as [a|k e|]; cbn; split; [eauto|by intros (? & [= ->] & ?)|done|by intros (? & ? & ?)|done|by intros (? & ? & ?)]. Qed.

Definition invalid {A} (message : string) : attempt A := Refused Invalid message.

(** ** The data *)

Inductive PlanStatus := Todo | Doing | Done | Blocked | Dropped.
#[export] Instance PlanStatus_eq : EqDecision PlanStatus.
Proof. solve_decision. Defined.

Inductive RequirementStatus := Met | Unmet | OpenLine.
#[export] Instance RequirementStatus_eq : EqDecision RequirementStatus.
Proof. solve_decision. Defined.

Record Requirement := mkRequirement { r_text : string; r_status : RequirementStatus; r_evidence : option string; r_note : option string }.
#[export] Instance Requirement_eq : EqDecision Requirement.
Proof. solve_decision. Defined.

Inductive Direction := Up | Down.
#[export] Instance Direction_eq : EqDecision Direction.
Proof. solve_decision. Defined.

#[export] Instance Q_eq : EqDecision Q.
Proof. solve_decision. Defined.

Record GoalTarget := mkTarget {
  metric : string; target : Q; unit_ : string; current : option Q; measuredAt : option string; source : option string;
  daily : bool; direction : option Direction
}.
#[export] Instance GoalTarget_eq : EqDecision GoalTarget.
Proof. solve_decision. Defined.

(** A plan item without its children. *)
Record Fields := mkFields {
  f_id : string; f_text : string; f_status : PlanStatus; f_job : option string; f_note : option string;
  f_waitUntil : option string; f_waitFor : option string; f_sessionId : option string;
  f_go : bool; f_build : bool; f_requirements : option (list Requirement); f_target : option GoalTarget;
  f_duty : option string; f_reopened : bool
}.
#[export] Instance Fields_eq : EqDecision Fields.
Proof. solve_decision. Defined.

Inductive PlanItem := Item (fields : Fields) (children : list PlanItem).
Definition fields (i : PlanItem) : Fields := match i with Item f _ => f end.
Definition children (i : PlanItem) : list PlanItem := match i with Item _ c => c end.
Definition iid (i : PlanItem) : string := f_id (fields i).
Definition status (i : PlanItem) : PlanStatus := f_status (fields i).
Definition text (i : PlanItem) : string := f_text (fields i).

Lemma PlanItem_nested (P : PlanItem -> Prop) : (forall f ch, Forall P ch -> P (Item f ch)) -> forall i, P i.
Proof.
  intros H. fix IH 1. intros [f ch]. apply H. induction ch as [|c ch IHch]; constructor; [apply IH|exact IHch].
Qed.

Record ArtifactLink := mkLink { l_label : string; l_target : string }.
#[export] Instance ArtifactLink_eq : EqDecision ArtifactLink.
Proof. solve_decision. Defined.

Inductive BoardActor := Agent | Owner.
#[export] Instance BoardActor_eq : EqDecision BoardActor.
Proof. solve_decision. Defined.

Record OwnerTodo := mkTodo {
  t_id : string; t_text : string; t_done : bool; t_reply : option string; t_choices : option (list string); t_from : BoardActor; t_at : string;
  t_step : option string; t_answeredByOwner : bool; t_links : option (list ArtifactLink)
}.
#[export] Instance OwnerTodo_eq : EqDecision OwnerTodo.
Proof. solve_decision. Defined.

Record ChatBoard := mkBoard { rev : Z; plan : list PlanItem; todos : list OwnerTodo; updatedAt : string; lastIds : option (Z * Z) }.

Definition emptyBoard (now : string) : ChatBoard := mkBoard 0 [] [] now None.

(** ** The tree *)

(** [OPEN_STATUSES.has]. *)
Definition is_open (s : PlanStatus) : bool := match s with Todo | Doing | Blocked => true | Done | Dropped => false end.
Definition open_item (i : PlanItem) : bool := is_open (status i).

(** [walk]: the items with their depth, in the order they are visited. *)
Fixpoint walk_item (depth : nat) (i : PlanItem) : list (PlanItem * nat) :=
  match i with Item _ ch => (i, depth) :: flat_map (walk_item (S depth)) ch end.
Definition walk (items : list PlanItem) : list (PlanItem * nat) := flat_map (walk_item 0) items.

(** The items alone, which most visitors read. *)
Fixpoint under (i : PlanItem) : list PlanItem := match i with Item _ ch => i :: flat_map under ch end.
Definition nodes (items : list PlanItem) : list PlanItem := flat_map under items.
Definition ids (items : list PlanItem) : list string := map iid (nodes items).

Definition count (items : list PlanItem) : nat := length (nodes items).
Definition openCount (items : list PlanItem) : nat := length (base.filter (fun i => open_item i = true) (nodes items)).

(** [find]: the first item [id], with the chain above it, outermost first. *)
Fixpoint find_under (id : string) (above : list PlanItem) (i : PlanItem) : option (PlanItem * list PlanItem) :=
  match i with
  | Item f ch =>
      if decide (f_id f = id) then Some (i, above)
      else (fix go (l : list PlanItem) := match l with [] => None | c :: l => match find_under id (above ++ [i]) c with Some r => Some r | None => go l end end) ch
  end.
Fixpoint find_in (id : string) (above : list PlanItem) (items : list PlanItem) : option (PlanItem * list PlanItem) :=
  match items with [] => None | i :: l => match find_under id above i with Some r => Some r | None => find_in id above l end end.
Definition find (items : list PlanItem) (id : string) : option (PlanItem * list PlanItem) := find_in id [] items.

(** [map]: the tree with the item [id] replaced by [change item]; [None] removes it with its children. *)
Fixpoint change_under (id : string) (change : PlanItem -> option PlanItem) (i : PlanItem) : list PlanItem :=
  match i with Item f ch => if decide (f_id f = id) then option_list (change i) else [Item f (flat_map (change_under id change) ch)] end.
Definition change_in (items : list PlanItem) (id : string) (change : PlanItem -> option PlanItem) : list PlanItem := flat_map (change_under id change) items.

Definition set_status (s : PlanStatus) (reopened : bool) (f : Fields) : Fields :=
  mkFields (f_id f) (f_text f) s (f_job f) (f_note f) (f_waitUntil f) (f_waitFor f) (f_sessionId f) (f_go f) (f_build f) (f_requirements f) (f_target f) (f_duty f) reopened.

(** [reclose], with the ids it closed: a step before the items above it. *)
Fixpoint reclose_item (i : PlanItem) : PlanItem * list string :=
  match i with
  | Item f ch =>
      let r := map reclose_item ch in
      let ch' := map fst r in
      let closed := flat_map snd r in
      if f_reopened f && bool_decide (nullish (f_waitFor f) EmptyString = EmptyString) && negb (bool_decide (length ch' = O)) && negb (existsb open_item ch')
      then (Item (set_status Done false f) ch', closed ++ [f_id f])
      else (Item f ch', closed)
  end.
Definition reclose (p : list PlanItem) : list PlanItem * list string :=
  let r := map reclose_item p in (map fst r, flat_map snd r).

(** ** Goals *)

Definition CHECK_IN_DUTY_ID : string := "checkin".
Definition GOAL_PUSH_LINK : string := (CHECK_IN_DUTY_ID +:+ "/goal_gaps")%string.

Definition openTops (p : list PlanItem) : list PlanItem := base.filter (fun i => open_item i = true) p.

Definition numberedGoal (i : PlanItem) : bool :=
  bool_decide (f_target (fields i) <> None) && open_item i && negb (bool_decide (f_duty (fields i) = Some GOAL_PUSH_LINK)) &&
  (bool_decide (f_duty (fields i) = None) || negb (bool_decide (length (children i) = O))).

Fixpoint goalBelow (i : PlanItem) : bool := match i with Item _ ch => existsb (fun c => numberedGoal c || goalBelow c) ch end.

Fixpoint goals_of (top : bool) (i : PlanItem) : list PlanItem :=
  match i with
  | Item _ ch => (if numberedGoal i || (top && open_item i && negb (goalBelow i)) then [i] else []) ++ flat_map (goals_of false) ch
  end.
Definition openGoals (p : list PlanItem) : list PlanItem := flat_map (goals_of true) p.

(** The pairs [goalsByItem] sets, in order. *)
Fixpoint owned (goal i : PlanItem) : list (string * PlanItem) :=
  match i with Item _ ch => let own := if numberedGoal i then i else goal in (iid i, own) :: flat_map (owned own) ch end.
Definition goalsByItem (p : list PlanItem) : list (string * PlanItem) :=
  fold_left (fun m kv => OMap.set kv.1 kv.2 m) (flat_map (fun t => owned t t) p) [].

(** [walkGoal]: the items it visits. *)
Fixpoint down (i : PlanItem) : list PlanItem :=
  match i with Item _ ch => flat_map (fun c => if numberedGoal c then [] else c :: down c) ch end.
Definition walkGoal (goal : PlanItem) : list PlanItem := goal :: down goal.

(** ** Ids *)

Inductive IdKind := P | T.
Definition kind_char (k : IdKind) : Ascii.ascii := match k with P => "p"%char | T => "t"%char end.

(** [/^([pt])(\d+)$/] on an id. *)
Definition id_number (id : string) : option (IdKind * Z) :=
  match to_chars id with
  | c :: d :: ds =>
      let kind := if bool_decide (c = "p"%char) then Some P else if bool_decide (c = "t"%char) then Some T else None in
      if forallb is_digit (d :: ds) then (fun k => (k, digits_value (d :: ds))) <$> kind else None
  | _ => None
  end.

Definition Ids : Type := Z * Z.
Definition see (top : Ids) (id : string) : Ids :=
  match id_number id with
  | Some (P, n) => (Z.max top.1 n, top.2)
  | Some (T, n) => (top.1, Z.max top.2 n)
  | None => top
  end.
Definition idsTop (b : ChatBoard) : Ids := fold_left see (ids (plan b) ++ map t_id (todos b)) (nullish (lastIds b) (0, 0)).

(** [newId] of [nextIds], with the numbers it counts on. *)
Definition newId (k : IdKind) (top : Ids) : string * Ids :=
  match k with
  | P => (String.String (kind_char P) (string_of_Z (top.1 + 1)), (top.1 + 1, top.2))
  | T => (String.String (kind_char T) (string_of_Z (top.2 + 1)), (top.1, top.2 + 1))
  end.

(** ** Targets *)

Definition Q_lt (a b : Q) : bool := negb (Qle_bool b a).

Definition inferredDirection (t : Q) (cur : option Q) : option Direction :=
  if Qeq_bool t 0 then Some Down
  else match cur with
       | None => None
       | Some c => if Qeq_bool c t then None else Some (if Q_lt t c then Down else Up)
       end.

(** [targetOp] is [<=], lower is better. *)
Definition lower_better (g : GoalTarget) : bool := bool_decide (orelse (direction g) (inferredDirection (target g) (current g)) = Some Down).

Definition targetMet (g : GoalTarget) : bool :=
  match current g with
  | None => false
  | Some c => if lower_better g then Qle_bool c (target g) else Qle_bool (target g) c
  end.

Class Dates := Date_parse : string -> option Z.

Section Targets.
Context `{Dates}.

(** [Date.parse(a) > Date.parse(b)], false when either is no date. *)
Definition after (a b : string) : bool := match Date_parse a, Date_parse b with Some x, Some y => y <? x | _, _ => false end.
Definition not_before (a b : string) : bool := match Date_parse a, Date_parse b with Some x, Some y => y <=? x | _, _ => false end.
Definition truthy (a : option string) : option string := match a with Some s => if decide (s = EmptyString) then None else a | None => None end.

Definition with_reading (next kept : GoalTarget) : GoalTarget :=
  mkTarget (metric next) (target next) (unit_ next) (current kept) (measuredAt kept) (orelse (source kept) (source next)) (daily next) (direction next).

Definition newerReading (next : GoalTarget) (kept : option GoalTarget) (now : string) : GoalTarget :=
  match kept with
  | None => next
  | Some k =>
      match truthy (measuredAt k), current k with
      | Some at_, Some _ =>
          if negb (bool_decide (metric k = metric next)) then next
          else if after at_ now then next
          else if (match truthy (measuredAt next) with Some n => not_before n at_ | None => false end) then next
          else with_reading next k
      | _, _ => next
      end
  end.

Definition set_direction (d : Direction) (g : GoalTarget) : GoalTarget :=
  mkTarget (metric g) (target g) (unit_ g) (current g) (measuredAt g) (source g) (daily g) (Some d).

Definition storedTarget (next : GoalTarget) (kept : option GoalTarget) (now : string) : GoalTarget :=
  let g := newerReading next kept now in
  match orelse (orelse (direction next) (kept ≫= direction)) (inferredDirection (target g) (current g)) with
  | Some d => set_direction d g
  | None => g
  end.

(** [measuredBy] refuses a measurement more than 5 minutes after [now]. *)
Definition measuredBy (g : option GoalTarget) (now : string) : attempt () :=
  match g ≫= (fun g => truthy (measuredAt g)) with
  | Some at_ =>
      if (match Date_parse at_, Date_parse now with Some x, Some y => y + 5 * 60000 <? x | _, _ => false end)
      then invalid "target.measuredAt is in the future; give the time the measurement was taken."
      else Fine tt
  | None => Fine tt
  end.
End Targets.
