(* ===== verification/BoardText.v ===== *)
(** * What a board's texts say: links, the owner's go, waits and flags

    [apps/chat/web/src/lib/api/shared/chat-board.ts] where it reads the words of items, todos and answers, with
    [duty-fixes.ts]'s duty links and [upkeep-title.ts]'s done lines.

    The patterns (regular expressions over free text) are [Rules]: each is what its [test], [exec] or
    [matchAll] gives on a text, and every theorem holds for any of them. How the
    patterns' results decide is here, as the code composes them. *)

From S2P Require Import Prelude Board.
From Stdlib Require Import QArith.QArith_base.
#[local] Open Scope string_scope.
#[local] Open Scope list_scope.
#[local] Open Scope Z_scope.

Record GoMatch := mkGoMatch { phrase : string; release_owner_him : bool }.

Inductive Artifact := JobLink (name : string) | ThreadLink (sessionId : string) | OtherLink.

Class Rules := {
  (** [artifact-link.ts]: [parseArtifactTarget] of what [normalizeArtifactTarget] gives, and [isSessionId]. *)
  artifact : string -> option Artifact;
  isSessionId : string -> bool;
  (** The answers of the owner. *)
  HOLD : string -> bool; APPROVE : string -> bool;
  (** [split(/[,;:.\u2013\u2014]|\s-\s/)[0]]. *)
  answer_lead : string -> string;
  (** Merges, pushes and their targets. *)
  MERGE : string -> bool; PUSH : string -> bool; RULE_TEXT : string -> bool;
  prNumbers : string -> list string; namesPr : string -> string -> bool; replaced_pr : string -> string -> bool;
  pushBranch : string -> option string; (** [\bpush], or the branch as a word. *) names_push : string -> string -> bool;
  PRODUCTION : string -> bool; STAGING : string -> bool; LAND : string -> bool;
  MERG : string -> bool; PR_WORD : string -> bool; KEEPS_OWNER_OK : string -> bool;
  (** Waits for leave. *)
  sentences : string -> list string; RULE_SENTENCE : string -> bool; WAIT_CUE : string -> bool;
  OWNER_GO : string -> option GoMatch; THREAD_GO : string -> option string; CAPS_GO : string -> option string;
  GIT_MOVE : string -> bool; GIT_STEP : string -> bool; OWNER_WAIT : string -> bool; firstClause : string -> string;
  LEAVE_ASK : string -> bool; LEAVE_MOVE : string -> bool;
  (** Titles, notes and todos. *)
  BUILD : string -> bool; upkeepWords : string -> option string; DONE_WHEN : string -> bool; done_line : string -> option string;
  NOTE_MET : string -> bool; OWNER_HOLD : string -> bool; without_done_line : string -> string; metricKey : string -> string;
  jargonTerms : string -> list string; REVIEW_ASK : string -> bool; HTTP_URL : string -> bool; vendorSupportAsk : string -> option string;
  (** [targetText]: a target in words, with [toLocaleString]'s numbers. *)
  targetText : GoalTarget -> string;
  (** [JSON.stringify] of a string. *)
  json_string : string -> string;
  (** [JSON.stringify] gives the same text for both targets, the order of their keys included. *)
  same_target : GoalTarget -> GoalTarget -> bool;
  same_target_eq : forall a b, same_target a b = true -> a = b
}.

(** ** Duty links *)

Definition link_head (c : Ascii.ascii) : bool := (97 <=? code c) && (code c <=? 122).
Definition metric_char (c : Ascii.ascii) : bool := link_head c || is_digit c || (code c =? 95).
Definition duty_char (c : Ascii.ascii) : bool := metric_char c || (code c =? 45).

(** [/^([a-z][a-z0-9_-]{0,39})\/([a-z][a-z0-9_]{0,39})$/]. *)
Definition parseDutyLink (value : string) : option (string * string) :=
  match split_on "/"%char (to_chars value) with
  | [d; m] =>
      match d, m with
      | a :: ds, b :: ms =>
          if link_head a && forallb duty_char ds && (length ds <=? 39)%nat && link_head b && forallb metric_char ms && (length ms <=? 39)%nat
          then Some (of_chars d, of_chars m) else None
      | _, _ => None
      end
  | _ => None
  end.

Record KeyedDuty := mkKeyed { k_name : string; k_keys : list string }.
Definition DutyKeys : Type := list (string * KeyedDuty).

Inductive LinkProblem := BadShape | NoDuty (value duty : string) (duties : DutyKeys) | NotMeasured (value duty name metric : string) (keys : list string).
Definition dutyLinkProblem (value : string) (duties : DutyKeys) : option LinkProblem :=
  match parseDutyLink value with
  | None => Some BadShape
  | Some (d, m) =>
      match OMap.get d duties with
      | None => Some (NoDuty value d duties)
      | Some k => if bool_decide (m ∈ k_keys k) then None else Some (NotMeasured value d (k_name k) m (k_keys k))
      end
  end.

(** An id as a whole word of a text, [(?<![\w-])id(?![\w-])]. *)
Definition word_char (c : Ascii.ascii) : bool :=
  is_digit c || link_head c || ((65 <=? code c) && (code c <=? 90)) || (code c =? 95) || (code c =? 45).
Definition boundary (c : option Ascii.ascii) : bool := match c with Some c => negb (word_char c) | None => true end.
Fixpoint word_at (prev : option Ascii.ascii) (id l : chars) : bool :=
  (boundary prev && starts_with id l && boundary (head (drop (length id) l))) ||
  match l with [] => false | c :: r => word_at (Some c) id r end.
Definition names_id (id text : string) : bool := word_at None (to_chars id) (to_chars text).

(** [quote]: a text of more than 80 characters is cut. *)
Definition quote (s : string) : string :=
  dquote +:+ (if (80 <? String.length s)%nat then String.substring 0 79 s +:+ "…" else s) +:+ dquote.

Section Text.
Context `{Dates, Rules}.

(** ** The owner's go *)

Definition choiceLead (reply : string) (choices : list string) : string :=
  if bool_decide (trim reply ∈ choices) then answer_lead (trim reply) else reply.
Definition approves (reply : string) (choices : list string) : bool :=
  let t := choiceLead reply choices in negb (HOLD t) && APPROVE t.
Definition goOrHold (reply : string) (choices : list string) : bool :=
  let t := choiceLead reply choices in HOLD t || APPROVE t.
Definition tapsFirstChoice (reply : string) (choices : list string) : bool :=
  match choices with
  | [] => false
  | c :: _ => bool_decide (trim reply = trim c) && negb (HOLD (choiceLead reply choices))
  end.

Definition linksStep (t : OwnerTodo) (stepId : string) : bool := bool_decide (t_step t = Some stepId) || names_id stepId (t_text t).
Definition step_text (i : Fields) : string := f_text i +:+ nl +:+ nullish (f_note i) "" +:+ nl +:+ nullish (f_waitFor i) "".
Definition stepPrs (i : Fields) : list string := prNumbers (step_text i).
Definition coversStep (t : OwnerTodo) (i : Fields) : bool :=
  linksStep t (f_id i) || names_id (t_id t) (step_text i) ||
  existsb (fun pr => namesPr (t_text t +:+ nl +:+ nullish (t_reply t) "") pr) (stepPrs i).

Definition mergeStep (text : string) : bool := (MERGE text || PUSH text) && negb (RULE_TEXT text).
Definition mergedPrs (text : string) : list string := base.filter (fun pr => replaced_pr text pr = false) (prNumbers text).

(** [approvedTodo] with no target. *)
Definition approvedTodo (t : OwnerTodo) : bool :=
  t_answeredByOwner t && negb (bool_decide (trim (nullish (t_reply t) "") = "")) && t_done t &&
  (tapsFirstChoice (nullish (t_reply t) "") (nullish (t_choices t) []) || approves (nullish (t_reply t) "") (nullish (t_choices t) [])).

Definition stagingOnly (text : string) : bool :=
  negb (PRODUCTION text) && (STAGING text || (LAND text && bool_decide (prNumbers text = []))).
Definition PR_MERGE (text : string) : bool :=
  MERG text && (PR_WORD text || negb (bool_decide (prNumbers text = [])) || negb (STAGING text)).
Definition namesProduction (text : string) : bool :=
  PRODUCTION text || (mergeStep text && negb (stagingOnly text)) || PR_MERGE text || KEEPS_OWNER_OK text.

(** [preapproval] says whether the owner's standing go is on. *)
Definition preApproved (preapproval : bool) (text : string) : bool :=
  preapproval && negb (KEEPS_OWNER_OK text) && (mergeStep text || PRODUCTION text || PR_MERGE text).
Definition needsGo (preapproval : bool) (i : Fields) : bool :=
  (f_go i || mergeStep (f_text i)) && negb (stagingOnly (f_text i)) && negb (preApproved preapproval (f_text i)).

Definition last_such (p : OwnerTodo -> bool) (l : list OwnerTodo) : option OwnerTodo := last (base.filter (fun t => p t = true) l).
Definition decides (t : OwnerTodo) : bool :=
  goOrHold (nullish (t_reply t) "") (nullish (t_choices t) []) || tapsFirstChoice (nullish (t_reply t) "") (nullish (t_choices t) []).
(** [counts] of a todo, for the PR [pr] and the branch the step pushes. *)
Definition go_counts (branch : option string) (pr : option string) (t : OwnerTodo) : bool :=
  approvedTodo t && (match pr with Some pr => namesPr (t_text t) pr | None => true end) &&
  (match branch with Some b => names_push b (t_text t) | None => true end).

Definition stepGo (ts : list OwnerTodo) (i : Fields) : option OwnerTodo :=
  let answered := base.filter (fun t => t_answeredByOwner t = true) ts in
  if negb (mergeStep (f_text i)) then
    match last_such (fun t => coversStep t i && goOrHold (nullish (t_reply t) "") (nullish (t_choices t) [])) answered with
    | Some t => if approves (nullish (t_reply t) "") (nullish (t_choices t) []) then Some t else None
    | None => None
    end
  else
    let branch := pushBranch (f_text i) in
    match mergedPrs (f_text i) with
    | [] =>
        match last_such (fun t => coversStep t i && decides t) answered with
        | Some t => if go_counts branch None t then Some t else None
        | None => None
        end
    | prs =>
        let go pr := last_such (fun t => (linksStep t (f_id i) || namesPr (t_text t) pr) && decides t) answered in
        if forallb (fun pr => match go pr with Some t => go_counts branch (Some pr) t | None => false end) prs
        then last_such (fun t => bool_decide (Some t ∈ map go prs)) answered
        else None
    end.

(** Every merge step marked [go: "needed"]. *)
Definition set_go (f : Fields) : Fields :=
  mkFields (f_id f) (f_text f) (f_status f) (f_job f) (f_note f) (f_waitUntil f) (f_waitFor f) (f_sessionId f) true (f_build f) (f_requirements f) (f_target f) (f_duty f) (f_reopened f).
Fixpoint markMerge (i : PlanItem) : PlanItem :=
  match i with
  | Item f ch =>
      Item (if negb (f_go f) && mergeStep (f_text f) && negb (stagingOnly (f_text f)) then set_go f else f) (map markMerge ch)
  end.
Definition markMerges (p : list PlanItem) : list PlanItem := map markMerge p.

Definition isBuildStep (i : Fields) : bool := f_build i || BUILD (trim (f_text i)).

(** ** Waits for leave *)

Inductive GoWait := ThreadWait (phrase : string) | OwnerWait (phrase : string).

Fixpoint goWait_in (cued : bool) (scope : option string) (l : list string) : option GoWait :=
  match l with
  | [] => None
  | s :: l =>
      if RULE_SENTENCE s || namesProduction (nullish scope s) || (negb cued && negb (WAIT_CUE s)) then goWait_in cued scope l
      else
        match OWNER_GO s with
        | Some o =>
            if negb (release_owner_him o) && (GIT_MOVE s || match scope with Some sc => GIT_STEP sc | None => false end) then Some (OwnerWait (phrase o))
            else match orelse (THREAD_GO s) (CAPS_GO s) with Some t => Some (ThreadWait t) | None => goWait_in cued scope l end
        | None => match orelse (THREAD_GO s) (CAPS_GO s) with Some t => Some (ThreadWait t) | None => goWait_in cued scope l end
        end
  end.
Definition goWait (text : string) (cued : bool) (scope : option string) : option GoWait := goWait_in cued scope (sentences text).
Definition stepGoWait (i : Fields) : option GoWait :=
  let scope := f_text i +:+ nl +:+ nullish (f_waitFor i) "" in
  if namesProduction scope then None
  else orelse (match truthy (f_waitFor i) with Some w => goWait w true (Some scope) | None => None end) (goWait (f_text i) false (Some scope)).

Definition leaveAsk (t : OwnerTodo) : bool :=
  existsb APPROVE (nullish (t_choices t) []) && negb (PR_MERGE (t_text t)) && negb (KEEPS_OWNER_OK (t_text t)) &&
  existsb (fun s => bool_decide (last (to_chars (trim s)) = Some "?"%char) && LEAVE_ASK s && negb (namesProduction s) &&
                    (LEAVE_MOVE s || match THREAD_GO s with Some _ => true | None => false end)) (sentences (t_text t)).

Definition reviewAskWithoutLink (t : OwnerTodo) : bool :=
  REVIEW_ASK (t_text t) && bool_decide (nullish (t_links t) [] = []) && negb (HTTP_URL (t_text t)).

(** ** Notes *)

Definition hasDoneLine (i : Fields) : bool :=
  bool_decide (f_target i <> None) || bool_decide (truthy (f_duty i) <> None) || DONE_WHEN (nullish (f_note i) "").
Definition keepDoneLine (old : option string) (note : string) : string :=
  match truthy (done_line (nullish old "")) with
  | Some line => if negb (DONE_WHEN note) then line +:+ " " +:+ note else note
  | None => note
  end.
Definition noteSaysMet (note : option string) : bool := NOTE_MET (without_done_line (nullish note "")).

(** ** Links of a job *)

Definition planJob (job : option string) : option string :=
  match truthy (option_map trim job) with
  | None => None
  | Some text => match artifact text with Some (ThreadLink s) => Some s | Some (JobLink n) => Some n | _ => Some text end
  end.
Definition jobSession (job : option string) : option string :=
  match truthy (option_map trim job) with
  | None => None
  | Some text => match artifact text with Some (ThreadLink s) => Some s | _ => if isSessionId text then Some text else None end
  end.
End Text.

(** ** A reading of the patterns for examples: words in lower case, times in milliseconds *)

Fixpoint contains (sub l : chars) : bool := starts_with sub l || match l with [] => false | _ :: r => contains sub r end.
Definition says (w s : string) : bool := contains (to_chars w) (to_chars s).
Definition demo_dates : Dates := fun s => if forallb is_digit (to_chars s) && negb (bool_decide (s = "")) then Some (digits_value (to_chars s)) else None.

Definition demo_rules : Rules := {|
  artifact := fun _ => None; isSessionId := fun _ => false;
  HOLD := says "not yet"; APPROVE := says "go"; answer_lead := fun s => s;
  MERGE := says "merge"; PUSH := says "push"; RULE_TEXT := says "without your go";
  prNumbers := fun _ => []; namesPr := fun _ _ => false; replaced_pr := fun _ _ => false;
  pushBranch := fun s => if says "main" s then Some "main" else None; names_push := fun b s => says b s;
  PRODUCTION := says "production"; STAGING := says "staging"; LAND := says "land";
  MERG := says "merg"; PR_WORD := says "PR"; KEEPS_OWNER_OK := says "publish";
  sentences := fun s => [s]; RULE_SENTENCE := says "never"; WAIT_CUE := says "wait";
  OWNER_GO := fun s => if says "owner's go" s then Some (mkGoMatch "owner's go" false) else None;
  THREAD_GO := fun s => if says "slot" s then Some "slot" else None; CAPS_GO := fun s => if says "GO" s then Some "GO" else None;
  GIT_MOVE := says "push"; GIT_STEP := says "deploy"; OWNER_WAIT := says "owner"; firstClause := fun s => s;
  LEAVE_ASK := says "can we"; LEAVE_MOVE := says "staging";
  BUILD := says "Build"; upkeepWords := fun s => if says "keep" s then Some "keep" else None; DONE_WHEN := says "done when"; done_line := fun _ => None;
  NOTE_MET := says "met"; OWNER_HOLD := says "held"; without_done_line := fun s => s; metricKey := to_lower;
  jargonTerms := fun _ => []; REVIEW_ASK := says "review"; HTTP_URL := says "http"; vendorSupportAsk := fun s => if says "support" s then Some s else None;
  targetText := metric; json_string := quote; same_target := fun a b => bool_decide (a = b);
  same_target_eq := fun a b Hab => bool_decide_eq_true_1 (a = b) Hab
|}.
