(* ===== verification/BoardFlags.v ===== *)
(** * Board ops and the flags on an agent's write

    [apps/chat/web/src/lib/api/shared/chat-board.ts]: the ops of [types.ts] and the soft
    flags an agent's summary ends with. Each flag's message is a constructor that holds what the message names. *)

From S2P Require Import Prelude Board BoardText.
From Stdlib Require Import QArith.QArith_base.
#[local] Open Scope string_scope.
#[local] Open Scope list_scope.
#[local] Open Scope Z_scope.

(** ** Ops *)

(** A field of an update: absent, [null], or a value. *)
Inductive patch (A : Type) := Keep | Clear | Put (a : A).
Arguments Keep {A}.
Arguments Clear {A}.
Arguments Put {A} a.
Definition put_of {A} (p : patch A) : option A := match p with Put a => Some a | _ => None end.

(** What an input says of an item, besides its id and children. *)
Record Input := mkInput {
  in_text : string; in_status : option PlanStatus; in_job : option string; in_sessionId : option string; in_note : option string;
  in_waitUntil : option string; in_waitFor : option string; in_target : option GoalTarget; in_duty : option string;
  in_go : bool; in_build : bool; in_requirements : option (list Requirement)
}.
Inductive PlanItemInput := ItemInput (id : option string) (i : Input) (children : list PlanItemInput).

Record Update := mkUpdate {
  u_parent : patch string; u_text : option string; u_status : option PlanStatus; u_job : patch string; u_sessionId : patch string;
  u_note : patch string; u_waitUntil : patch string; u_waitFor : patch string; u_go : bool; u_build : patch ();
  u_requirements : patch (list Requirement); u_target : patch GoalTarget; u_duty : patch string
}.

Inductive BoardOp :=
| PlanSet (items : list PlanItemInput)
| PlanAdd (parent : option string) (i : Input)
| PlanUpdate (id : string) (u : Update)
| PlanRemove (id : string)
| TodoAdd (text : string) (choices : option (list string)) (step : option string) (links : option (list ArtifactLink))
| TodoUpdate (id : string) (text : option string) (done : option bool) (reply : patch string) (links : option (list ArtifactLink)) (choices : patch (list string))
| TodoRemove (id : string).

Definition owner_op (op : BoardOp) : bool := match op with TodoAdd _ _ _ _ | TodoUpdate _ _ _ _ _ _ | TodoRemove _ => true | _ => false end.

(** [walkInputs]. *)
Fixpoint inputs_under (i : PlanItemInput) : list (option string * Input) :=
  match i with ItemInput id f ch => (id, f) :: flat_map inputs_under ch end.
Definition walkInputs (l : list PlanItemInput) : list (option string * Input) := flat_map inputs_under l.

(** ** Soft targets *)

Definition num (n : nat) : string := string_of_Z (Z.of_nat n).
Definition long (what : string) (value : option string) (max : nat) : list string :=
  match value with
  | Some v => if (max <? String.length v)%nat then [what +:+ " is " +:+ num (String.length v) +:+ " characters, over the " +:+ num max +:+ " target"] else []
  | None => []
  end.
Definition soft_lines (l : option (list Requirement)) : list string :=
  match l with
  | None => []
  | Some l =>
      (if (30 <? length l)%nat then ["requirements has " +:+ num (length l) +:+ " lines, over the 30 target"] else []) ++
      concat (imap (fun k r => long ("requirement " +:+ num (S k) +:+ " text") (Some (r_text r)) 500 ++
                               long ("requirement " +:+ num (S k) +:+ " evidence") (r_evidence r) 2000 ++
                               long ("requirement " +:+ num (S k) +:+ " note") (r_note r) 2000) l)
  end.
Definition soft_target (g : option GoalTarget) : list string :=
  match g with Some g => long "target.metric" (Some (metric g)) 120 ++ long "target.source" (source g) 200 | None => [] end.
Definition soft_item (text note waitFor : option string) (r : option (list Requirement)) (g : option GoalTarget) : list string :=
  long "text" text 500 ++ long "note" note 2000 ++ long "waitFor" waitFor 200 ++ soft_lines r ++ soft_target g.
Definition soft_todo (text : option string) (choices : option (list string)) (links : option (list ArtifactLink)) : list string :=
  long "text" text 500 ++
  match choices with
  | Some c =>
      (if (length c <? 2)%nat || (4 <? length c)%nat then [num (length c) +:+ " choices, off the 2 to 4 target"] else []) ++
      concat (imap (fun k x => long ("choice " +:+ num (S k)) (Some x) 80) c) ++
      (if bool_decide (NoDup c) then [] else ["two choices are the same"])
  | None => []
  end ++
  match links with
  | Some l =>
      (if (5 <? length l)%nat then [num (length l) +:+ " links, over the 5 target"] else []) ++
      concat (imap (fun k x => long ("link " +:+ num (S k) +:+ " label") (Some (l_label x)) 120) l)
  | None => []
  end.
Definition softFlags (op : BoardOp) : list string :=
  match op with
  | PlanSet items => flat_map (fun x => soft_item (Some (in_text x.2)) (in_note x.2) (in_waitFor x.2) (in_requirements x.2) (in_target x.2)) (walkInputs items)
  | PlanAdd _ i => soft_item (Some (in_text i)) (in_note i) (in_waitFor i) (in_requirements i) (in_target i)
  | PlanUpdate _ u => soft_item (u_text u) (put_of (u_note u)) (put_of (u_waitFor u)) (put_of (u_requirements u)) (put_of (u_target u))
  | TodoAdd t c _ l => soft_todo (Some t) c l
  | TodoUpdate _ t _ _ l c => soft_todo t (put_of c) l
  | _ => []
  end.

(** ** Flags *)

Record MetOpen := mkMet { m_item : string; m_target : option GoalTarget; m_from : option string; m_keeper : option string }.

Inductive Flag :=
| Soft (parts : list string)
| WaitPushed (item : string) (until : string) (for_ : option string)
| WaitsForLeave (item : string) (w : GoWait)
| ReadsLikeUpkeep (item words : string)
| NoDoneLine (item : string)
| MetAndOpen (m : MetOpen)
| StaleLink (item : string) (p : LinkProblem)
| OpenOver (n : nat)
| TodosOver (n : nat)
| LeaveAskFlag
| Jargon (terms : list string)
| ReviewLinkFlag.

Section Flags.
Context `{Dates, Rules}.

(** The item of an id before the write: the last one, as [was.set] leaves it. *)
Definition was (before : list PlanItem) (id : string) : option Fields :=
  fields <$> last (base.filter (fun i => iid i = id) (nodes before)).

Definition waitPushes (before : ChatBoard) (p : list PlanItem) : list Flag :=
  flat_map (fun i =>
    match was (plan before) (iid i) with
    | Some prior =>
        match truthy (f_waitUntil prior), truthy (f_waitUntil (fields i)) with
        | Some old, Some new =>
            if (match Date_parse new, Date_parse old with Some x, Some y => x <=? y | _, _ => false end) then []
            else if existsb (fun t => negb (t_done t) && coversStep t (fields i)) (todos before) then []
            else [WaitPushed (iid i) old (f_waitFor prior)]
        | _, _ => []
        end
    | None => []
    end) (nodes p).

Definition goWaits (before : ChatBoard) (p : list PlanItem) : list Flag :=
  flat_map (fun i =>
    if negb (open_item i) ||
       (match was (plan before) (iid i) with Some o => bool_decide (f_text o = text i) && bool_decide (f_waitFor o = f_waitFor (fields i)) | None => false end)
    then []
    else match stepGoWait (fields i) with Some w => [WaitsForLeave (iid i) w] | None => [] end) (nodes p).

Definition upkeepTitles (before : ChatBoard) (p : list PlanItem) : list Flag :=
  flat_map (fun i =>
    if open_item i && negb (bool_decide (f_text <$> was (plan before) (iid i) = Some (text i)))
    then match truthy (upkeepWords (text i)) with Some w => [ReadsLikeUpkeep (iid i) w] | None => [] end else []) (nodes p).

Definition noDoneLines (before : ChatBoard) (p : list PlanItem) : list Flag :=
  flat_map (fun i =>
    if (match was (plan before) (iid i) with Some o => is_open (f_status o) | None => false end) || negb (open_item i) || hasDoneLine (fields i) ||
       bool_decide (truthy (upkeepWords (text i)) <> None)
    then [] else [NoDoneLine (iid i)]) (nodes p).

Definition staleLinks (p : list PlanItem) (duties : DutyKeys) : list Flag :=
  flat_map (fun i =>
    match truthy (f_duty (fields i)) with
    | Some d => if open_item i then match dutyLinkProblem d duties with Some pr => [StaleLink (iid i) pr] | None => [] end else []
    | None => []
    end) (nodes p).

(** ** Items whose target is met *)

Definition dutyKeeper (duty : option string) : option string :=
  match truthy duty with
  | Some d => match parseDutyLink d with Some (k, _) => if decide (k = CHECK_IN_DUTY_ID) then None else Some d | None => None end
  | None => None
  end.
Definition time_of (g : option GoalTarget) : Z := nullish (Date_parse (nullish (g ≫= measuredAt) "")) 0.
Definition first_some {A B} (f : A -> option B) (l : list A) : option B := head (omap f l).

Definition met_at (above : list Fields) (met : list string) (f : Fields) (below : list PlanItem) : option MetOpen :=
  if negb (is_open (f_status f)) || existsb (fun r => negb (bool_decide (r_status r = Met))) (nullish (f_requirements f) []) then None
  else if existsb OWNER_HOLD (f_text f :: map r_text (nullish (f_requirements f) [])) then None
  else if existsb (fun b => open_item b && negb (bool_decide (f_duty (fields b) = Some GOAL_PUSH_LINK)) && negb (bool_decide (iid b ∈ met))) below then None
  else
    let same := base.filter (fun b => match f_target f, f_target (fields b) with
      | Some own, Some g => bool_decide (current g <> None) && bool_decide (metricKey (metric g) = metricKey (metric own))
      | _, _ => false end = true) below in
    let newest := fold_left (fun best b =>
      if (time_of (match best with Some x => f_target (fields x) | None => f_target f end) <? time_of (f_target (fields b))) then Some b else best) same (None : option PlanItem) in
    let newer := newest ≫= (fun b => f_target (fields b)) in
    let reading := match f_target f with
      | Some own => Some (match newer ≫= current with
          | Some c => mkTarget (metric own) (target own) (unit_ own) (Some c) (orelse (newer ≫= (fun g => truthy (measuredAt g))) (measuredAt own)) (source own) (daily own)
                        (Some (if lower_better own then Down else Up))
          | None => own end)
      | None => None end in
    let hit := match reading with Some r => if targetMet r then Some r else None | None => None end in
    if negb (bool_decide (hit <> None)) && negb (noteSaysMet (f_note f)) then None
    else
      let keeper := orelse (dutyKeeper (f_duty f)) (orelse (first_some (fun u => dutyKeeper (f_duty u)) above) (first_some (fun b => dutyKeeper (f_duty (fields b))) same)) in
      Some (mkMet (f_id f) hit (match hit with Some _ => iid <$> newest | None => None end) keeper).

(** [visit]: the steps below before the item; [above] nearest first. *)
Fixpoint met_visit (above : list Fields) (found : list MetOpen) (i : PlanItem) : list MetOpen :=
  match i with
  | Item f ch =>
      let found := fold_left (met_visit (f :: above)) ch found in
      match met_at above (map m_item found) f (flat_map under ch) with Some m => found ++ [m] | None => found end
  end.
Definition metOpenItems (p : list PlanItem) : list MetOpen := fold_left (met_visit []) p [].
Definition metOpenFlags (before : ChatBoard) (p : list PlanItem) : list Flag :=
  let was := map m_item (metOpenItems (plan before)) in
  map MetAndOpen (base.filter (fun m => m_item m ∉ was) (metOpenItems p)).

Definition todoFlags (t : OwnerTodo) : list Flag :=
  (if leaveAsk t then [LeaveAskFlag] else []) ++
  (match jargonTerms (t_text t) with [] => [] | l => [Jargon l] end) ++
  (if reviewAskWithoutLink t then [ReviewLinkFlag] else []).
End Flags.
