(* ===== verification/BoardOps.v ===== *)
(** * The board reducer

    [applyBoardOp] of [apps/chat/web/src/lib/api/shared/chat-board.ts], one definition per op, and
    [Boards.apply] of [apps/chat/server/boards.ts], which runs a request's ops. *)

From S2P Require Import Prelude Board BoardText BoardFlags.
#[local] Open Scope string_scope.
#[local] Open Scope list_scope.
#[local] Open Scope Z_scope.

(** [releaseGo.preapproval] is set ([release-go.ts]). *)
Definition standing_go : bool := true.

(** ** Areas *)

Definition AREA_STOP_WORDS : list string := ["about"; "after"; "again"; "also"; "before"; "being"; "both"; "build"; "check"; "could"; "does"; "done"; "each"; "every"; "first";
  "from"; "full"; "goal"; "have"; "into"; "just"; "make"; "more"; "most"; "only"; "other"; "over"; "owner"; "plan"; "ready"; "real"; "should"; "some"; "step";
  "still"; "than"; "that"; "their"; "them"; "then"; "there"; "these"; "they"; "this"; "those"; "today"; "under"; "until"; "verify"; "when"; "where"; "which";
  "while"; "whole"; "will"; "with"; "without"; "would"; "work"].

(** The matches of [/[a-z][a-z0-9]*/g]. *)
Fixpoint words_from (cur : chars) (l : chars) : list chars :=
  let flush := if bool_decide (cur = []) then [] else [cur] in
  match l with
  | [] => flush
  | c :: r => if link_head c || (is_digit c && negb (bool_decide (cur = []))) then words_from (cur ++ [c]) r else flush ++ words_from [] r
  end.
Definition singular (w : string) : string :=
  if (4 <? String.length w)%nat && ends_with (to_chars "s") (to_chars w) && negb (ends_with (to_chars "ss") (to_chars w))
  then String.substring 0 (String.length w - 1) w else w.
Definition areaWords (text : string) : list string :=
  remove_dups (map singular (base.filter (fun w => ((4 <=? String.length w)%nat && negb (bool_decide (w ∈ AREA_STOP_WORDS))) = true)
    (map of_chars (words_from [] (to_chars (to_lower text)))))).
Definition sameAreaGoal (p : list PlanItem) (t : string) : option PlanItem :=
  let words := areaWords t in
  fst <$> fold_left (fun best goal =>
    let shared := length (base.filter (fun w => w ∈ areaWords (text goal)) words) in
    if (2 <=? shared)%nat && (length words <=? shared * 2)%nat && ((match best with Some (_, s) => s | None => O end) <? shared)%nat
    then Some (goal, shared) else best) (openTops p) (None : option (PlanItem * nat)).

(** ** The pieces of a write *)

Record Written := mkWritten { w_board : ChatBoard; w_summary : string; w_flags : list Flag }.

Definition comma (l : list string) : string := String.concat ", " l.
Definition upper (c : Ascii.ascii) : Ascii.ascii :=
  if (97 <=? code c) && (code c <=? 122) then Ascii.ascii_of_N (Z.to_N (code c - 32)) else c.
Definition voice (actor : BoardActor) (sentence : string) : string :=
  match actor with
  | Owner => "Owner " +:+ sentence
  | Agent => match to_chars sentence with [] => sentence | c :: r => of_chars (upper c :: r) end
  end.
Definition unknown {A} (what missing : string) : attempt A := Refused Unknown ("No " +:+ what +:+ " " +:+ missing +:+ " on the board. Read it again with no ops.").

Section Reducer.
Context `{Dates, Rules}.

Definition key_list (keys : list string) : string := match keys with [] => "none" | _ => comma keys end.
Definition DUTY_LINK_SHAPE : string :=
  "duty must be " +:+ dquote +:+ "<dutyId>/<metricKey>" +:+ dquote +:+ ", like " +:+ dquote +:+ "d6/usable_pct_24h" +:+ dquote +:+ " or " +:+ dquote +:+ "checkin/stuck_steps" +:+ dquote.
Definition problem_text (p : LinkProblem) : string :=
  match p with
  | BadShape => DUTY_LINK_SHAPE +:+ "."
  | NoDuty v d ds => "duty " +:+ v +:+ " names " +:+ d +:+ ", which is no duty of this chat; its duties are " +:+
      String.concat "; " (map (fun x : string * KeyedDuty => x.1 +:+ " " +:+ json_string (k_name x.2) +:+ " (" +:+ key_list (k_keys x.2) +:+ ")") ds) +:+ "."
  | NotMeasured v d n m keys => "duty " +:+ v +:+ " names " +:+ m +:+ ", which " +:+ d +:+ " " +:+ json_string n +:+ " does not measure; its metric keys are " +:+ key_list keys +:+ "."
  end.

(** [linkable]. *)
Definition linkable (duties : option DutyKeys) (link kept : option string) : attempt () :=
  match duties, truthy link with
  | Some ds, Some l =>
      if decide (link = kept) then Fine tt
      else match dutyLinkProblem l ds with Some p => invalid (problem_text p) | None => Fine tt end
  | _, _ => Fine tt
  end.

(** [done]. *)
Definition finish (b : ChatBoard) (op : BoardOp) (actor : BoardActor) (now : string) (duties : option DutyKeys)
  (np : option (list PlanItem)) (nt : option (list OwnerTodo)) (summary : string) (extra : list Flag) : Written :=
  let closed := match np with Some p => (reclose p).2 | None => [] end in
  let np := match np with Some p => if bool_decide (closed = []) then np else Some (reclose p).1 | None => None end in
  let summary := match closed with
    | [] => summary
    | _ => summary +:+ ", closed " +:+ comma closed +:+ " again now that no open step is left under " +:+ (if bool_decide (length closed = 1%nat) then "it" else "them")
    end in
  let agent_flags :=
    (match softFlags op with [] => [] | l => [Soft l] end) ++
    (match np with
     | Some p =>
         waitPushes b p ++ goWaits b p ++ upkeepTitles b p ++ noDoneLines b p ++ metOpenFlags b p ++
         (match duties with Some ds => staleLinks p ds | None => [] end) ++
         (if (500 <? openCount p)%nat && (openCount (plan b) <? openCount p)%nat then [OpenOver (openCount p)] else [])
     | None => []
     end) ++
    (match nt with Some ts => if (100 <? length ts)%nat && (length (todos b) <? length ts)%nat then [TodosOver (length ts)] else [] | None => [] end) in
  let np := if decide (actor = Agent) then markMerges <$> np else np in
  mkWritten (mkBoard (rev b + 1) (nullish np (plan b)) (nullish nt (todos b)) now (lastIds b)) (voice actor summary)
    (extra ++ if decide (actor = Agent) then agent_flags else []).

(** ** Items *)

Definition lines_of (r : option (list Requirement)) : option (list Requirement) := match r with Some [] => None | _ => r end.

(** The fields of an item from its input, over the item it keeps. *)
Definition item_fields (id : string) (i : Input) (kept : option Fields) (now : string) : Fields :=
  let job := planJob (in_job i) in
  let session := orelse (in_sessionId i) (orelse (jobSession (in_job i))
    (if bool_decide (job <> None) && bool_decide (job = kept ≫= f_job) then kept ≫= f_sessionId else None)) in
  mkFields id (in_text i) (nullish (in_status i) Todo) job (truthy (in_note i)) (truthy (in_waitUntil i)) (truthy (in_waitFor i)) (truthy session)
    (in_go i || match kept with Some k => f_go k | None => false end) (in_build i || match kept with Some k => f_build k | None => false end)
    (lines_of (orelse (in_requirements i) (kept ≫= f_requirements)))
    (match in_target i with Some g => Some (storedTarget g (kept ≫= f_target) now) | None => kept ≫= f_target end)
    (truthy (orelse (in_duty i) (kept ≫= f_duty))) false.

(** ** [plan_set] *)

Record Build := mkBuild { claimed : list string; used : list string; top : Ids }.

(** [fresh]: the loop skips the ids the items keep. *)
Fixpoint fresh (fuel : nat) (s : Build) : attempt (string * Build) :=
  match fuel with
  | O => Spins
  | S n =>
      let '(id, t) := newId P (top s) in
      if decide (id ∈ claimed s) then fresh n (mkBuild (claimed s) (used s) t)
      else Fine (id, mkBuild (id :: claimed s) (used s) t)
  end.

Definition pick (id : option string) (s : Build) : attempt (string * Build) :=
  r ← match truthy id with
      | Some i => if decide (i ∈ used s) then fresh (S (length (claimed s))) s else Fine (i, s)
      | None => fresh (S (length (claimed s))) s
      end;
  Fine (r.1, mkBuild (claimed r.2) (r.1 :: used r.2) (top r.2)).

Section Build.
Context (b : ChatBoard) (now : string) (duties : option DutyKeys).

Fixpoint build (s : Build) (i : PlanItemInput) : attempt (Build * PlanItem) :=
  match i with
  | ItemInput id f ch =>
      r ← pick id s;
      let kept := if decide (Some r.1 = id) then (fun x => fields x.1) <$> find (plan b) r.1 else None in
      _ ← linkable duties (in_duty f) (kept ≫= f_duty);
      _ ← measuredBy (in_target f) now;
      c ← (fix go (s : Build) (l : list PlanItemInput) : attempt (Build * list PlanItem) :=
             match l with
             | [] => Fine (s, [])
             | x :: l => y ← build s x; ys ← go y.1 l; Fine (ys.1, y.2 :: ys.2)
             end) r.2 ch;
      Fine (c.1, Item (item_fields r.1 f kept now) c.2)
  end.
Fixpoint builds (s : Build) (l : list PlanItemInput) : attempt (Build * list PlanItem) :=
  match l with
  | [] => Fine (s, [])
  | x :: l => y ← build s x; ys ← builds y.1 l; Fine (ys.1, y.2 :: ys.2)
  end.
End Build.

Definition plan_set (b : ChatBoard) (items : list PlanItemInput) (actor : BoardActor) (now : string) (t : Ids) (duties : option DutyKeys) : attempt Written :=
  let s := mkBuild (omap (fun x => truthy x.1) (walkInputs items)) [] t in
  r ← builds b now duties s items;
  Fine (finish b (PlanSet items) actor now duties (Some r.2) None ("Set the plan: " +:+ num (count r.2) +:+ " items") []).

(** ** [plan_add] *)

Definition gateText (f : Fields) : string := if needsGo standing_go f then ", which needs the owner's go" else "".
Definition dutyText (f : Fields) : string := match truthy (f_duty f) with Some d => ", fixing duty metric " +:+ d | None => "" end.

(** The done items of a chain, which reopen. *)
Definition done_of (l : list PlanItem) : list string := map iid (base.filter (fun i => status i = Done) l).
Definition add_child (x p : PlanItem) : option PlanItem := Some (Item (fields p) (children p ++ [x])).
Definition reopen (p : PlanItem) : option PlanItem := Some (Item (set_status Todo true (fields p)) (children p)).
Definition reopen_all (l : list string) (p : list PlanItem) : list PlanItem := fold_left (fun p a => change_in p a reopen) l p.
Definition reopened_text (l : list string) : string := match l with [] => "" | _ => ", reopened " +:+ comma l end.

Definition plan_add (b : ChatBoard) (parent : option string) (i : Input) (actor : BoardActor) (now : string) (t : Ids) (duties : option DutyKeys) : attempt Written :=
  _ ← measuredBy (in_target i) now;
  _ ← linkable duties (in_duty i) None;
  let id := (newId P t).1 in
  let f := item_fields id i None now in
  let x := Item f [] in
  let op := PlanAdd parent i in
  match parent with
  | None =>
      let area := if decide (actor = Agent) then sameAreaGoal (plan b) (f_text f) else None in
      Fine (finish b op actor now duties (Some (plan b ++ [x])) None
        ("added " +:+ id +:+ " " +:+ quote (f_text f) +:+ gateText f +:+
         (match f_target f with Some g => ", " +:+ metric g +:+ " " +:+ targetText g | None => "" end) +:+ dutyText f +:+
         (match area with Some a => ". " +:+ iid a +:+ " " +:+ quote (text a) +:+ " covers the same area: put new work under it unless it is a separate area" | None => "" end)) [])
  | Some pid =>
      match find (plan b) pid with
      | None => unknown "plan item" pid
      | Some (p, above) =>
          let reopened := done_of (above ++ [p]) in
          Fine (finish b op actor now duties (Some (reopen_all reopened (change_in (plan b) pid (add_child x)))) None
            ("added " +:+ id +:+ " " +:+ quote (f_text f) +:+ gateText f +:+ dutyText f +:+ " under " +:+ iid p +:+ reopened_text reopened) [])
      end
  end.

(** ** [plan_update] *)

Definition Edit : Type := Fields * list string.
Definition say (b : bool) (s : string) : list string := if b then [s] else [].

Definition edit_text (o : option string) (item : Fields) (e : Edit) : Edit :=
  let '(f, parts) := e in
  match o with
  | Some t =>
      if decide (t = f_text item) then e
      else (mkFields (f_id f) t (f_status f) (f_job f) (f_note f) (f_waitUntil f) (f_waitFor f) (f_sessionId f) (f_go f) (f_build f) (f_requirements f) (f_target f) (f_duty f) (f_reopened f),
            parts ++ ["renamed it " +:+ quote t])
  | None => e
  end.
Definition status_text (s : PlanStatus) : string :=
  match s with Todo => "todo" | Doing => "doing" | Done => "done" | Blocked => "blocked" | Dropped => "dropped" end.
Definition edit_status (o : option PlanStatus) (item : Fields) (e : Edit) : Edit :=
  let '(f, parts) := e in
  match o with
  | Some s => (set_status s false f, parts ++ say (negb (bool_decide (s = f_status item))) ("marked it " +:+ status_text s))
  | None => e
  end.
Definition set_job (j s : option string) (f : Fields) : Fields :=
  mkFields (f_id f) (f_text f) (f_status f) j (f_note f) (f_waitUntil f) (f_waitFor f) s (f_go f) (f_build f) (f_requirements f) (f_target f) (f_duty f) (f_reopened f).
Definition edit_job (u : Update) (item : Fields) (e : Edit) : Edit :=
  let '(f, parts) := e in
  let job := match u_job u with Clear => Clear | Keep => Keep | Put j => match planJob (Some j) with Some j => Put j | None => Clear end end in
  match job with
  | Clear => (set_job None None f, parts ++ say (bool_decide (truthy (f_job item) <> None) || bool_decide (truthy (f_sessionId item) <> None)) "unlinked its job")
  | _ =>
      let same := match job with Put j => bool_decide (Some j = f_job item) | _ => true end in
      let session := match u_sessionId u with
        | Clear => None
        | Put s => Some s
        | Keep => orelse (jobSession (put_of (u_job u))) (if same then f_sessionId item else None)
        end in
      if same && bool_decide (session = f_sessionId item) then e
      else
        let j := match job with Put j => Some j | _ => f_job f end in
        (set_job j (truthy session) f,
         parts ++ [match truthy session with
                   | Some s => "linked " +:+ (match truthy j with Some n => "job " +:+ n | None => "thread" end) +:+
                               (if decide (Some s = j) then "" else " (thread:" +:+ s +:+ ")")
                   | None => match job with Put n => "linked job " +:+ n | _ => "unlinked its thread" end
                   end])
  end.
Definition edit_note (p : patch string) (item : Fields) (e : Edit) : Edit :=
  let '(f, parts) := e in
  let set n := mkFields (f_id f) (f_text f) (f_status f) (f_job f) n (f_waitUntil f) (f_waitFor f) (f_sessionId f) (f_go f) (f_build f) (f_requirements f) (f_target f) (f_duty f) (f_reopened f) in
  match p with
  | Keep => e
  | Clear => (set None, parts ++ say (bool_decide (truthy (f_note item) <> None)) "cleared its note")
  | Put n =>
      if decide (Some n = f_note item) then e
      else let kept := keepDoneLine (f_note item) n in
           (set (Some kept), parts ++ [if decide (kept = n) then "updated its note" else "updated its note and kept its Done when line"])
  end.
Definition set_waits (until for_ : option string) (f : Fields) : Fields :=
  mkFields (f_id f) (f_text f) (f_status f) (f_job f) (f_note f) until for_ (f_sessionId f) (f_go f) (f_build f) (f_requirements f) (f_target f) (f_duty f) (f_reopened f).
Definition edit_until (p : patch string) (item : Fields) (e : Edit) : Edit :=
  let '(f, parts) := e in
  match p with
  | Keep => e
  | Clear => (set_waits None (f_waitFor f) f, parts ++ say (bool_decide (truthy (f_waitUntil item) <> None)) "cleared its wait time")
  | Put w => if decide (Some w = f_waitUntil item) then e else (set_waits (Some w) (f_waitFor f) f, parts ++ ["set it to wait until " +:+ w])
  end.
Definition edit_for (p : patch string) (item : Fields) (e : Edit) : Edit :=
  let '(f, parts) := e in
  match p with
  | Keep => e
  | Clear => (set_waits (f_waitUntil f) None f, parts ++ say (bool_decide (truthy (f_waitFor item) <> None)) "cleared what it waits for")
  | Put w => if decide (Some w = f_waitFor item) then e else (set_waits (f_waitUntil f) (Some w) f, parts ++ ["set it to wait for " +:+ quote w])
  end.
Definition requirementCount (l : list Requirement) : string :=
  num (length l) +:+ " " +:+ (if bool_decide (length l = 1%nat) then "line" else "lines") +:+ ", " +:+
  num (length (base.filter (fun r => r_status r = Met) l)) +:+ " met".
Definition set_gates (go build : bool) (r : option (list Requirement)) (f : Fields) : Fields :=
  mkFields (f_id f) (f_text f) (f_status f) (f_job f) (f_note f) (f_waitUntil f) (f_waitFor f) (f_sessionId f) go build r (f_target f) (f_duty f) (f_reopened f).
Definition edit_gates (u : Update) (item : Fields) (e : Edit) : Edit :=
  let '(f, parts) := e in
  let go := u_go u && negb (f_go item) in
  let parts := parts ++ say go "marked it as needing the owner's go" in
  let '(build, parts) := match u_build u with
    | Keep => (f_build f, parts)
    | Clear => (false, parts ++ say (f_build item) "cleared its Build mark")
    | Put _ => (true, parts ++ say (negb (f_build item)) "marked it a Build step")
    end in
  let '(r, parts) := match u_requirements u with
    | Keep => (f_requirements f, parts)
    | Clear => (None, parts ++ say (bool_decide (f_requirements item <> None)) "cleared its requirements")
    | Put l => if decide (Some l = f_requirements item) then (f_requirements f, parts) else (Some l, parts ++ ["set its requirements: " +:+ requirementCount l])
    end in
  (set_gates (f_go f || go) build r f, parts).
Definition set_duty (d : option string) (f : Fields) : Fields :=
  mkFields (f_id f) (f_text f) (f_status f) (f_job f) (f_note f) (f_waitUntil f) (f_waitFor f) (f_sessionId f) (f_go f) (f_build f) (f_requirements f) (f_target f) d (f_reopened f).
Definition edit_duty (duties : option DutyKeys) (p : patch string) (item : Fields) (e : Edit) : attempt Edit :=
  let '(f, parts) := e in
  match p with
  | Keep => Fine e
  | Clear => Fine (set_duty None f, parts ++ say (bool_decide (truthy (f_duty item) <> None)) "unlinked its duty metric")
  | Put d =>
      if bool_decide (d = "") || bool_decide (Some d = f_duty item) then Fine e
      else _ ← linkable duties (Some d) None; Fine (set_duty (Some d) f, parts ++ ["linked duty metric " +:+ d])
  end.
Definition set_goal (g : option GoalTarget) (f : Fields) : Fields :=
  mkFields (f_id f) (f_text f) (f_status f) (f_job f) (f_note f) (f_waitUntil f) (f_waitFor f) (f_sessionId f) (f_go f) (f_build f) (f_requirements f) g (f_duty f) (f_reopened f).
Definition edit_target (now : string) (p : patch GoalTarget) (item : Fields) (e : Edit) : attempt Edit :=
  let '(f, parts) := e in
  match p with
  | Keep => Fine e
  | Clear => Fine (set_goal None f, parts ++ say (bool_decide (f_target item <> None)) "cleared its target")
  | Put g =>
      let stored := storedTarget g (f_target item) now in
      if (match f_target item with Some k => same_target stored k | None => false end) then Fine e
      else
        _ ← measuredBy (Some g) now;
        Fine (set_goal (Some stored) f,
              parts ++ ["set its target: " +:+ targetText stored +:+ (if decide (current stored = current g) then "" else ", keeping its newer reading")])
  end.

(** The item as the update leaves it, with the parts of the summary. *)
Definition edit (u : Update) (item : Fields) (now : string) (duties : option DutyKeys) : attempt Edit :=
  let e := edit_gates u item (edit_for (u_waitFor u) item (edit_until (u_waitUntil u) item (edit_note (u_note u) item
             (edit_job u item (edit_status (u_status u) item (edit_text (u_text u) item (item, []))))))) in
  e ← edit_duty duties (u_duty u) item e;
  edit_target now (u_target u) item e.

Inductive Move := Stay | ToTop | Under (p : PlanItem) (above : list PlanItem).
Definition move_of (b : ChatBoard) (parent : patch string) (above : list PlanItem) : attempt Move :=
  let from := iid <$> last above in
  match parent with
  | Keep => Fine Stay
  | Clear => Fine (if decide (from = None) then Stay else ToTop)
  | Put p =>
      if decide (from = Some p) then Fine Stay
      else match find (plan b) p with Some (x, up) => Fine (Under x up) | None => unknown "plan item" p end
  end.

Definition update_text (x : PlanItem) (parts : list string) : string :=
  "updated " +:+ iid x +:+ " " +:+ quote (text x) +:+ ": " +:+ comma parts.

Definition plan_update (b : ChatBoard) (id : string) (u : Update) (actor : BoardActor) (now : string) (duties : option DutyKeys) : attempt Written :=
  match find (plan b) id with
  | None => unknown "plan item" id
  | Some (x, above) =>
      to ← move_of b (u_parent u) above;
      if (match to with Under p up => bool_decide (iid p = iid x) || existsb (fun a => bool_decide (iid a = iid x)) up | _ => false end)
      then invalid (iid x +:+ " cannot move under itself or under one of its own steps.")
      else
        e ← edit u (fields x) now duties;
        let next := Item e.1 (children x) in
        let parts := e.2 in
        let op := PlanUpdate id u in
        match to with
        | Stay => Fine (finish b op actor now duties (Some (change_in (plan b) id (fun _ => Some next))) None
                    (update_text x (match parts with [] => ["no change"] | _ => parts end)) [])
        | ToTop => Fine (finish b op actor now duties (Some (change_in (plan b) id (fun _ => None) ++ [next])) None
                    (update_text x (parts ++ ["moved it to the top level"])) [])
        | Under p up =>
            let reopened := if open_item next then done_of (up ++ [p]) else [] in
            Fine (finish b op actor now duties
              (Some (reopen_all reopened (change_in (change_in (plan b) id (fun _ => None)) (iid p) (add_child next)))) None
              (update_text x (parts ++ ["moved it under " +:+ iid p +:+ reopened_text reopened])) [])
        end
  end.

(** ** [plan_remove] *)

Definition plan_remove (b : ChatBoard) (id : string) (actor : BoardActor) (now : string) (duties : option DutyKeys) : attempt Written :=
  match find (plan b) id with
  | None => unknown "plan item" id
  | Some (x, _) =>
      let removed := count [x] in
      Fine (finish b (PlanRemove id) actor now duties (Some (change_in (plan b) id (fun _ => None))) None
        ("removed " +:+ iid x +:+ " " +:+ quote (text x) +:+
         (if (1 <? removed)%nat then " and its " +:+ num (removed - 1) +:+ " " +:+ (if bool_decide (removed = 2%nat) then "step" else "steps") else "")) [])
  end.

(** ** Todos *)

Definition VENDOR_SUPPORT_ERROR : string := "Refused: the owner never asks a vendor's support for help and never wants to be asked to approve it (c79, owner 10-15 " +:+ dquote +:+
  "NEVER EVER LEAVE SUPPORT" +:+ dquote +:+ ", 10-19 " +:+ dquote +:+ "NONONO" +:+ dquote +:+ " on a GitHub Support todo). Solve it yourself through the vendor's portal, its API, the box's " +:+
  "remote console and SSH. If no self-serve path exists, write that limit in the step's note as a known gap and drop the support step; " +:+
  "put no ticket, chat, request or complaint to a vendor on For you.".
Definition AGENT_REPLY_ERROR : string :=
  "Only the owner answers a todo; the agent cannot write or clear an answer. Ask with a todo and let the owner answer it on the board.".
Definition refuseVendorSupport (t : string) (choices : list string) : attempt () :=
  match truthy (first_some vendorSupportAsk (t :: choices)) with
  | Some ask => Refused Forbidden (VENDOR_SUPPORT_ERROR +:+ " It reads: " +:+ dquote +:+ ask +:+ dquote)
  | None => Fine tt
  end.

Definition quotes (l : list string) : string := String.concat " / " (map quote l).
Definition links_text (n : nat) : string := if bool_decide (n = 1%nat) then "a link" else num n +:+ " links".

Definition todo_add (b : ChatBoard) (t : string) (choices : option (list string)) (step : option string) (links : option (list ArtifactLink))
  (actor : BoardActor) (now : string) (tops : Ids) (duties : option DutyKeys) : attempt Written :=
  _ ← (match step with
       | Some s => if bool_decide (actor = Agent) && bool_decide (find (plan b) s = None) then unknown "plan item" s else Fine tt
       | None => Fine tt
       end);
  _ ← (if decide (actor = Agent) then refuseVendorSupport t (nullish choices []) else Fine tt);
  let id := (newId T tops).1 in
  let todo := mkTodo id t false None choices actor now (truthy step) false links in
  Fine (finish b (TodoAdd t choices step links) actor now duties None (Some (todos b ++ [todo]))
    ("added a todo " +:+ (if decide (actor = Owner) then "" else id +:+ " ") +:+ quote t +:+
     (match truthy step with Some s => " for " +:+ s | None => "" end) +:+
     (match choices with Some c => " with choices " +:+ quotes c | None => "" end) +:+
     (match links with Some l => " with " +:+ links_text (length l) | None => "" end))
    (if decide (actor = Agent) then todoFlags todo else [])).

Definition find_todo (b : ChatBoard) (id : string) : option OwnerTodo := List.find (fun t => bool_decide (t_id t = id)) (todos b).

Definition joined (l : list string) : string := String.concat nl l.
Definition new_choices (p : patch (list string)) (t : OwnerTodo) : bool :=
  match p with
  | Keep => false
  | _ => negb (bool_decide (joined (nullish (put_of p) []) = joined (nullish (t_choices t) [])))
  end.

Definition TodoEdit : Type := OwnerTodo * list string.
(** The first part names the todo, later parts say [it]. *)
Definition label (e : TodoEdit) : string := match e.2 with [] => quote (t_text e.1) | _ => "it" end.

Definition todo_text (o : option string) (t : OwnerTodo) (e : TodoEdit) : TodoEdit :=
  let '(n, parts) := e in
  match o with
  | Some x =>
      if decide (x = t_text t) then e
      else (mkTodo (t_id n) x (t_done n) (t_reply n) (t_choices n) (t_from n) (t_at n) (t_step n) (t_answeredByOwner n) (t_links n),
            parts ++ ["renamed " +:+ quote (t_text t) +:+ " to " +:+ quote x])
  | None => e
  end.
Definition todo_links (o : option (list ArtifactLink)) (e : TodoEdit) : TodoEdit :=
  let '(n, parts) := e in
  match o with
  | Some l =>
      (mkTodo (t_id n) (t_text n) (t_done n) (t_reply n) (t_choices n) (t_from n) (t_at n) (t_step n) (t_answeredByOwner n) (match l with [] => None | _ => Some l end),
       parts ++ [match l with [] => "cleared the links on " +:+ label e | _ => "set " +:+ links_text (length l) +:+ " on " +:+ label e end])
  | None => e
  end.
Definition todo_choices (p : patch (list string)) (t : OwnerTodo) (e : TodoEdit) : TodoEdit :=
  let '(n, parts) := e in
  if new_choices p t then
    let l := nullish (put_of p) [] in
    (mkTodo (t_id n) (t_text n) (t_done n) (t_reply n) (match l with [] => None | _ => Some l end) (t_from n) (t_at n) (t_step n) (t_answeredByOwner n) (t_links n),
     parts ++ [match l with [] => "cleared the choices on " +:+ label e | _ => "offered " +:+ quotes l +:+ " on " +:+ label e end])
  else e.

Definition set_done (d : bool) (n : OwnerTodo) : OwnerTodo :=
  mkTodo (t_id n) (t_text n) d (t_reply n) (t_choices n) (t_from n) (t_at n) (t_step n) (t_answeredByOwner n) (t_links n).
Definition set_reply (r : option string) (byOwner : bool) (n : OwnerTodo) : OwnerTodo :=
  mkTodo (t_id n) (t_text n) (t_done n) r (t_choices n) (t_from n) (t_at n) (t_step n) byOwner (t_links n).

(** [chose]: a reply that is one of the offered choices. *)
Definition chose (reply : patch string) (t : OwnerTodo) : bool :=
  match reply with Put r => negb (bool_decide (Some r = t_reply t)) && bool_decide (r ∈ nullish (t_choices t) []) | _ => false end.
Definition todo_done (o : option bool) (reply : patch string) (t : OwnerTodo) (e : TodoEdit) : TodoEdit :=
  match o with
  | Some d =>
      if bool_decide (d = t_done t) then e
      else (set_done d e.1, e.2 ++ say (negb (chose reply t && d)) ((if d then "checked " else "unchecked ") +:+ label e))
  | None => e
  end.
Definition todo_reply (reply : patch string) (t : OwnerTodo) (e : TodoEdit) : TodoEdit :=
  match reply with
  | Keep => e
  | Clear => (set_reply None false e.1, e.2 ++ say (bool_decide (truthy (t_reply t) <> None)) ("cleared the answer on " +:+ label e))
  | Put r =>
      if chose reply t then (set_reply (Some r) true e.1, e.2 ++ ["chose " +:+ quote r +:+ " for " +:+ quote (t_text e.1)])
      else if decide (Some r = t_reply t) then e
      else (set_reply (Some r) true e.1, e.2 ++ [match e.2 with [] => "answered " +:+ label e +:+ ": " +:+ r | _ => "answered: " +:+ r end])
  end.

Definition todo_update (b : ChatBoard) (id : string) (txt : option string) (done_ : option bool) (reply : patch string)
  (links : option (list ArtifactLink)) (choices : patch (list string)) (actor : BoardActor) (now : string) (duties : option DutyKeys) : attempt Written :=
  match find_todo b id with
  | None => unknown "todo" id
  | Some t =>
      let agent := bool_decide (actor = Agent) in
      if agent && (match reply with Keep => false | _ => true end) then Refused Forbidden AGENT_REPLY_ERROR
      else
        let asks := (match txt with Some x => negb (bool_decide (x = t_text t)) | None => false end) || new_choices choices t in
        if agent && t_answeredByOwner t && asks
        then Refused Forbidden "The owner answered this todo; its question stays as asked. Add a new todo for a new question."
        else
          _ ← (if agent && asks then refuseVendorSupport (nullish txt (t_text t))
                  (match choices with Keep => nullish (t_choices t) [] | Clear => [] | Put c => c end) else Fine tt);
          let e := todo_reply reply t (todo_done done_ reply t (todo_choices choices t (todo_links links (todo_text txt t (t, []))))) in
          let asked := agent && (asks || match links with Some _ => true | None => false end) in
          Fine (finish b (TodoUpdate id txt done_ reply links choices) actor now duties None
            (Some (map (fun x => if decide (t_id x = id) then e.1 else x) (todos b)))
            (match e.2 with [] => "left " +:+ quote (t_text t) +:+ " as it was" | l => String.concat " and " l end)
            (if asked then todoFlags e.1 else []))
  end.

Definition todo_remove (b : ChatBoard) (id : string) (actor : BoardActor) (now : string) (duties : option DutyKeys) : attempt Written :=
  match find_todo b id with
  | None => unknown "todo" id
  | Some t => Fine (finish b (TodoRemove id) actor now duties None (Some (base.filter (fun x => t_id x <> id) (todos b))) ("removed the todo " +:+ quote (t_text t)) [])
  end.

(** ** [applyBoardOp] *)

Definition applyBoardOp (b : ChatBoard) (op : BoardOp) (actor : BoardActor) (now : string) (t : Ids) (duties : option DutyKeys) : attempt Written :=
  if bool_decide (actor = Owner) && negb (owner_op op) then Refused Forbidden "The owner changes the todos; the agent keeps the plan."
  else
    match op with
    | PlanSet items => plan_set b items actor now t duties
    | PlanAdd parent i => plan_add b parent i actor now t duties
    | PlanUpdate id u => plan_update b id u actor now duties
    | PlanRemove id => plan_remove b id actor now duties
    | TodoAdd x c s l => todo_add b x c s l actor now t duties
    | TodoUpdate id x d r l c => todo_update b id x d r l c actor now duties
    | TodoRemove id => todo_remove b id actor now duties
    end.

(** The ops of a request, all or none ([Boards.apply]: [nextIds] of the board before each op, no duties). *)
Fixpoint apply_ops (b : ChatBoard) (ops : list BoardOp) (actor : BoardActor) (now : string) : attempt (ChatBoard * list string) :=
  match ops with
  | [] => Fine (b, [])
  | op :: ops =>
      w ← applyBoardOp b op actor now (idsTop b) None;
      r ← apply_ops (w_board w) ops actor now;
      Fine (r.1, w_summary w :: r.2)
  end.

End Reducer.
