(* ===== verification/BoardTree.v ===== *)
(** * The plan tree: lemmas the board's theorems share

    Where [find] looks, what [map] changes and what it keeps, and the ids of a plan under
    [reclose] and [markMerges]. *)

From S2P Require Import Prelude Board BoardText.
#[local] Open Scope string_scope.
#[local] Open Scope list_scope.
#[local] Open Scope Z_scope.

(** ** Nodes *)

Lemma under_unfold f ch : under (Item f ch) = Item f ch :: nodes ch.
Proof. done. Qed.
Lemma nodes_cons i l : nodes (i :: l) = under i ++ nodes l.
Proof. done. Qed.
Lemma nodes_app l l' : nodes (l ++ l') = nodes l ++ nodes l'.
Proof. apply flat_map_app. Qed.
Lemma ids_app l l' : ids (l ++ l') = ids l ++ ids l'.
Proof. unfold ids. by rewrite nodes_app, map_app. Qed.
Lemma ids_cons i l : ids (i :: l) = ids [i] ++ ids l.
Proof. apply (ids_app [i] l). Qed.
Lemma ids_item f ch : ids [Item f ch] = f_id f :: ids ch.
Proof. unfold ids, nodes. cbn. by rewrite app_nil_r. Qed.
Lemma ids_nil : ids [] = [].
Proof. done. Qed.
Lemma under_self i : i ∈ under i.
Proof. destruct i. by left. Qed.
Lemma nodes_elem x l : x ∈ nodes l <-> exists i, i ∈ l /\ x ∈ under i.
Proof.
  unfold nodes. induction l as [|i l IH]; cbn.
  - split; [by intros ?%elem_of_nil|by intros (? & ?%elem_of_nil & _)].
  - rewrite elem_of_app, IH. split.
    + intros [H|(j & Hj & H)]; [exists i|exists j]; split; [by left|done|by right|done].
    + intros (j & [->|Hj]%elem_of_cons & H); [by left|right; by exists j].
Qed.
Lemma ids_elem id l : id ∈ ids l <-> exists x, x ∈ nodes l /\ iid x = id.
Proof. unfold ids. rewrite list_elem_of_fmap. split; intros (x & ? & ?); by exists x. Qed.
Lemma iid_in x l : x ∈ nodes l -> iid x ∈ ids l.
Proof. intros. apply ids_elem. by exists x. Qed.
Lemma nodes_self x l : x ∈ l -> x ∈ nodes l.
Proof. intros. apply nodes_elem. exists x. split; [done|apply under_self]. Qed.

(** The nodes under a node are nodes. *)
Lemma under_trans x y : x ∈ under y -> forall z, z ∈ under x -> z ∈ under y.
Proof.
  induction y as [f ch IH] using PlanItem_nested. rewrite under_unfold. intros [->|Hx]%elem_of_cons z Hz; [done|].
  apply nodes_elem in Hx as (c & Hc & Hx). right. apply nodes_elem. exists c. split; [done|]. rewrite Forall_forall in IH. by eapply IH.
Qed.
Lemma nodes_trans x l z : x ∈ nodes l -> z ∈ under x -> z ∈ nodes l.
Proof. intros (i & Hi & Hx)%nodes_elem Hz. apply nodes_elem. exists i. split; [done|]. by eapply under_trans. Qed.
Lemma nodes_children x l c : x ∈ nodes l -> c ∈ children x -> c ∈ nodes l.
Proof.
  intros Hx Hc. eapply nodes_trans; [done|]. destruct x as [f ch]. right. by apply nodes_self.
Qed.

(** With unique ids, an id names one node. *)
Lemma node_unique l x y : NoDup (ids l) -> x ∈ nodes l -> y ∈ nodes l -> iid x = iid y -> x = y.
Proof.
  unfold ids. generalize (nodes l) as n. induction n as [|i n IH]; cbn; [by intros _ ?%elem_of_nil|].
  intros [Hn Hnd]%NoDup_cons Hx Hy He. apply elem_of_cons in Hx as [->|Hx], Hy as [->|Hy]; try done.
  - destruct Hn. rewrite He. by apply list_elem_of_fmap_2.
  - destruct Hn. rewrite <- He. by apply list_elem_of_fmap_2.
  - by apply IH.
Qed.

Lemma NoDup_ids_under x l : NoDup (ids l) -> x ∈ nodes l -> NoDup (ids [x]).
Proof.
  intros Hnd (i & Hi & Hx)%nodes_elem.
  assert (NoDup (ids [i])) as Hi'.
  { apply list_elem_of_split in Hi as (l1 & l2 & ->). rewrite ids_app, ids_cons in Hnd. apply NoDup_app in Hnd as (_ & _ & Hnd). by apply NoDup_app in Hnd as (? & _). }
  clear l Hnd Hi. revert x Hx Hi'. induction i as [f ch IH] using PlanItem_nested. intros x Hx Hi'. rewrite under_unfold in Hx.
  apply elem_of_cons in Hx as [->|Hx]; [done|]. rewrite ids_item in Hi'. apply NoDup_cons in Hi' as [_ Hnd].
  apply nodes_elem in Hx as (c & Hc & Hx). rewrite Forall_forall in IH. apply (IH c Hc x Hx).
  apply list_elem_of_split in Hc as (l1 & l2 & ->). rewrite ids_app, ids_cons in Hnd. apply NoDup_app in Hnd as (_ & _ & Hnd). by apply NoDup_app in Hnd as (? & _).
Qed.

(** ** [find] *)

Lemma find_under_unfold id above f ch : find_under id above (Item f ch) = if decide (f_id f = id) then Some (Item f ch, above) else find_in id (above ++ [Item f ch]) ch.
Proof. cbn [find_under]. case_decide; [done|]. generalize (above ++ [Item f ch]) as ab. intros ab. induction ch as [|c ch IH]; [done|]. cbn [find_in]. destruct (find_under _ _ c); [done|exact IH]. Qed.

(** What a find gives is a node with the id, under a chain of nodes each of which holds the next. *)
Inductive chain : list PlanItem -> list PlanItem -> PlanItem -> Prop :=
| chain_here l x : x ∈ l -> chain l [] x
| chain_below l a above x : a ∈ l -> chain (children a) above x -> chain l (a :: above) x.

Lemma find_under_spec id i : forall above x up, find_under id above i = Some (x, up) ->
  iid x = id /\ x ∈ under i /\ exists rest, up = above ++ rest /\ chain [i] rest x.
Proof.
  induction i as [f ch IH] using PlanItem_nested. intros above x up. rewrite find_under_unfold. case_decide as Hid.
  - intros [= <- <-]. split_and!; [done|by left|]. exists []. rewrite app_nil_r. split; [done|]. apply chain_here. by left.
  - intros Hf. assert (exists c, c ∈ ch /\ find_under id (above ++ [Item f ch]) c = Some (x, up)) as (c & Hc & Hf').
    { revert Hf. generalize (above ++ [Item f ch]) as ab. clear. intros ab. induction ch as [|c l IHl]; cbn [find_in]; [done|].
      destruct (find_under id ab c) as [r|] eqn:E; [intros [= ->]; exists c; split; [by left|done]|].
      intros Hf. destruct (IHl Hf) as (c' & ? & ?). exists c'. split; [by right|done]. }
    rewrite Forall_forall in IH. destruct (IH c Hc _ _ _ Hf') as (H1 & H2 & rest & -> & H3).
    split_and!; [done|right; apply nodes_elem; by exists c|]. exists (Item f ch :: rest). rewrite <- app_assoc. split; [done|].
    apply chain_below; [by left|]. cbn [children]. inversion H3; simplify_eq; match goal with H : _ ∈ [c] |- _ => apply list_elem_of_singleton in H as -> end;
      [by apply chain_here|by apply chain_below].
Qed.
Lemma find_in_spec id l : forall above x up, find_in id above l = Some (x, up) ->
  iid x = id /\ x ∈ nodes l /\ exists rest, up = above ++ rest /\ chain l rest x.
Proof.
  induction l as [|i l IH]; cbn [find_in]; intros above x up; [done|]. destruct (find_under id above i) as [[y u]|] eqn:E.
  - intros [= -> ->]. destruct (find_under_spec _ _ _ _ _ E) as (H1 & H2 & rest & -> & H3). split_and!; [done|apply nodes_elem; exists i; split; [by left|done]|].
    exists rest. split; [done|]. inversion H3; simplify_eq; match goal with H : _ ∈ [i] |- _ => apply list_elem_of_singleton in H as -> end; [apply chain_here|apply chain_below]; try done; by left.
  - intros Hf. destruct (IH _ _ _ Hf) as (H1 & H2 & rest & -> & H3). split_and!; [done|rewrite nodes_cons; apply elem_of_app; by right|].
    exists rest. split; [done|]. inversion H3; simplify_eq; [apply chain_here|apply chain_below]; try done; by right.
Qed.
Lemma find_Some l id x up : find l id = Some (x, up) -> iid x = id /\ x ∈ nodes l /\ chain l up x.
Proof. intros (H1 & H2 & rest & Hr & H3)%find_in_spec. cbn in Hr. by subst. Qed.

Lemma find_under_None id i : forall above, find_under id above i = None -> id ∉ ids [i].
Proof.
  induction i as [f ch IH] using PlanItem_nested. intros above. rewrite find_under_unfold, ids_item. case_decide as Hid; [done|].
  generalize (above ++ [Item f ch]) as ab. intros ab Hf. rewrite elem_of_cons. intros [?|Hin]; [done|]. revert Hf Hin.
  induction IH as [|c l Hc _ IHl]; cbn [find_in]; [by intros _ ?%elem_of_nil|]. destruct (find_under id ab c) eqn:E; [done|].
  intros Hf. rewrite ids_cons, elem_of_app. intros [Hin|Hin]; [by apply (Hc _ E)|by apply IHl].
Qed.
Lemma find_None l id : find l id = None -> id ∉ ids l.
Proof.
  unfold find. induction l as [|i l IH]; cbn [find_in]; [by intros _ ?%elem_of_nil|]. destruct (find_under id [] i) eqn:E; [done|].
  intros Hf. rewrite ids_cons, elem_of_app. intros [Hin|Hin]; [by apply (find_under_None id i [])|by apply IH].
Qed.
Lemma find_node l x : NoDup (ids l) -> x ∈ nodes l -> exists up, find l (iid x) = Some (x, up) /\ chain l up x.
Proof.
  intros Hnd Hx. destruct (find l (iid x)) as [[y up]|] eqn:E.
  - apply find_Some in E as Hy. destruct Hy as (Hid & Hy & Hc). assert (y = x) as -> by by eapply node_unique. by exists up.
  - apply find_None in E. by destruct E; apply iid_in.
Qed.

Lemma chain_nodes l up x : chain l up x -> forall a, a ∈ up ++ [x] -> a ∈ nodes l.
Proof.
  induction 1 as [l x Hx|l a up x Ha _ IH]; intros y Hy.
  - apply list_elem_of_singleton in Hy as ->. by apply nodes_self.
  - apply elem_of_cons in Hy as [->|Hy]; [by apply nodes_self|]. eapply nodes_trans; [by apply nodes_self|].
    destruct a as [f ch]. right. by apply IH.
Qed.

(** ** [map] *)

Lemma change_under_unfold id g f ch : change_under id g (Item f ch) = if decide (f_id f = id) then option_list (g (Item f ch)) else [Item f (change_in ch id g)].
Proof. done. Qed.
Lemma change_in_cons id g i l : change_in (i :: l) id g = change_under id g i ++ change_in l id g.
Proof. done. Qed.
Lemma change_in_app id g l l' : change_in (l ++ l') id g = change_in l id g ++ change_in l' id g.
Proof. apply flat_map_app. Qed.

Lemma change_absent id g l : id ∉ ids l -> change_in l id g = l.
Proof.
  enough (forall i, id ∉ ids [i] -> change_under id g i = [i]) as H.
  { induction l as [|i l IH]; [done|]. rewrite ids_cons, elem_of_app, change_in_cons. intros Hn. rewrite H, IH by tauto. done. }
  induction i as [f ch IH] using PlanItem_nested. rewrite ids_item, elem_of_cons, change_under_unfold. intros Hn. rewrite decide_False by (intros Heq; apply Hn; left; done).
  repeat f_equal. assert (id ∉ ids ch) as Hch by tauto. clear Hn. induction IH as [|c ch Hc _ IHch]; [done|].
  rewrite ids_cons, elem_of_app in Hch. rewrite change_in_cons, Hc, IHch by tauto. done.
Qed.

(** A change trades the ids of the item for those of what it becomes. *)
Lemma change_swap id g l x : NoDup (ids l) -> x ∈ nodes l -> iid x = id ->
  ids (change_in l id g) ++ ids [x] ≡ₚ ids l ++ ids (option_list (g x)).
Proof.
  intros Hnd Hx Hid. revert l Hnd Hx.
  enough (forall i, NoDup (ids [i]) -> x ∈ under i -> ids (change_under id g i) ++ ids [x] ≡ₚ ids [i] ++ ids (option_list (g x))) as H.
  { induction l as [|i l IH]; intros Hnd Hx; [by apply elem_of_nil in Hx|]. rewrite change_in_cons, ids_app. rewrite ids_cons in Hnd. rewrite (ids_cons i l).
    apply NoDup_app in Hnd as (Hi & Hdis & Hl). rewrite nodes_cons, elem_of_app in Hx. destruct Hx as [Hx|Hx].
    - rewrite (change_absent id g l); [|rewrite <- Hid; intros Hin; apply (Hdis (iid x)); [apply iid_in, nodes_elem; exists i; split; [by left|done]|done]].
      specialize (H i Hi Hx). revert H. generalize (ids (change_under id g i)), (ids [x]), (ids [i]), (ids l), (ids (option_list (g x))). clear. intros a b c d e H.
      rewrite <- app_assoc, (Permutation_app_comm d b), app_assoc, H. rewrite <- !app_assoc. f_equiv. apply Permutation_app_comm.
    - assert (change_under id g i = [i]) as ->.
      { rewrite <- (app_nil_r (change_under id g i)). apply (change_absent id g [i]). rewrite <- Hid. intros Hin. apply (Hdis (iid x)); [done|by apply iid_in]. }
      rewrite <- !app_assoc. f_equiv. by apply IH. }
  induction i as [f ch IH] using PlanItem_nested. rewrite ids_item, change_under_unfold. intros [Hf Hnd]%NoDup_cons Hx. case_decide as Hfid.
  - assert (x = Item f ch) as ->.
    { rewrite under_unfold in Hx. apply elem_of_cons in Hx as [->|Hx]; [done|]. destruct Hf. rewrite Hfid, <- Hid. by apply iid_in. }
    rewrite ids_item. apply Permutation_app_comm.
  - rewrite under_unfold in Hx. apply elem_of_cons in Hx as [->|Hx]; [done|]. rewrite ids_item. cbn [app]. f_equiv. clear Hf Hfid.
    induction IH as [|c l Hc _ IHl]; [by apply elem_of_nil in Hx|]. rewrite change_in_cons, ids_app, (ids_cons c l). rewrite ids_cons in Hnd.
    apply NoDup_app in Hnd as (Hi & Hdis & Hl). rewrite nodes_cons, elem_of_app in Hx. destruct Hx as [Hx|Hx].
    + rewrite (change_absent id g l); [|rewrite <- Hid; intros Hin; apply (Hdis (iid x)); [apply iid_in, nodes_elem; exists c; split; [by left|done]|done]].
      specialize (Hc Hi Hx). revert Hc. generalize (ids (change_under id g c)), (ids [x]), (ids [c]), (ids l), (ids (option_list (g x))). clear. intros a b c d e H.
      rewrite <- app_assoc, (Permutation_app_comm d b), app_assoc, H. rewrite <- !app_assoc. f_equiv. apply Permutation_app_comm.
    + assert (change_under id g c = [c]) as ->.
      { rewrite <- (app_nil_r (change_under id g c)). apply (change_absent id g [c]). rewrite <- Hid. intros Hin. apply (Hdis (iid x)); [done|by apply iid_in]. }
      rewrite <- !app_assoc. f_equiv. by apply IHl.
Qed.

(** Every node of a changed tree comes from the item, or is a node whose children were changed. *)
Lemma change_nodes id g l y : y ∈ nodes (change_in l id g) ->
  (exists x z, x ∈ nodes l /\ iid x = id /\ g x = Some z /\ y ∈ under z) \/
  (exists y0, y0 ∈ nodes l /\ iid y0 <> id /\ y = Item (fields y0) (change_in (children y0) id g)).
Proof.
  revert l. enough (forall i, y ∈ nodes (change_under id g i) ->
    (exists x z, x ∈ under i /\ iid x = id /\ g x = Some z /\ y ∈ under z) \/
    (exists y0, y0 ∈ under i /\ iid y0 <> id /\ y = Item (fields y0) (change_in (children y0) id g))) as H.
  { intros l Hy. unfold change_in in Hy. apply nodes_elem in Hy as (j & Hj & Hy). apply list_elem_of_In, in_flat_map in Hj as (i & Hi%list_elem_of_In & Hj%list_elem_of_In).
    destruct (H i) as [(x & z & Hx & ?)|(y0 & Hy0 & ?)]; [apply nodes_elem; by exists j| |]; [left; exists x, z|right; exists y0]; (split; [|done]); apply nodes_elem; by exists i. }
  induction i as [f ch IH] using PlanItem_nested. rewrite change_under_unfold. case_decide as Hfid; intros Hy.
  - left. destruct (g (Item f ch)) as [z|] eqn:E; [|by apply elem_of_nil in Hy]. exists (Item f ch), z. split_and!; [by left|done|done|].
    apply nodes_elem in Hy as (? & ->%list_elem_of_singleton & ?). done.
  - apply nodes_elem in Hy as (? & ->%list_elem_of_singleton & Hy). rewrite under_unfold in Hy. apply elem_of_cons in Hy as [->|Hy].
    + right. exists (Item f ch). split_and!; [by left|done|done].
    + apply nodes_elem in Hy as (j & Hj & Hy). apply list_elem_of_In, in_flat_map in Hj as (c & Hc%list_elem_of_In & Hj%list_elem_of_In).
      rewrite Forall_forall in IH. destruct (IH c Hc) as [(x & z & Hx & ?)|(y0 & Hy0 & ?)]; [apply nodes_elem; by exists j| |]; [left; exists x, z|right; exists y0];
        (split; [|done]); right; apply nodes_elem; by exists c.
Qed.

(** ** Maps over the fields, [reclose] *)

Fixpoint tmap (g : Fields -> Fields) (i : PlanItem) : PlanItem := match i with Item f ch => Item (g f) (map (tmap g) ch) end.

Lemma under_map_nodes (h : PlanItem -> PlanItem) (g : PlanItem -> Fields) :
  (forall f ch, h (Item f ch) = Item (g (Item f ch)) (map h ch)) -> forall l, nodes (map h l) = map h (nodes l).
Proof.
  intros Hh. enough (forall i, under (h i) = map h (under i)) as H.
  { induction l as [|i l IH]; [done|]. cbn [map]. by rewrite !nodes_cons, map_app, H, IH. }
  induction i as [f ch IH] using PlanItem_nested. rewrite Hh, !under_unfold. cbn [map]. rewrite Hh. f_equal.
  induction IH as [|c l Hc _ IHl]; [done|]. cbn [map]. by rewrite !nodes_cons, map_app, Hc, IHl.
Qed.
Lemma tmap_nodes g l : nodes (map (tmap g) l) = map (tmap g) (nodes l).
Proof. by apply (under_map_nodes (tmap g) (fun i => g (fields i))). Qed.
Lemma map_ids h (g : PlanItem -> Fields) l :
  (forall f ch, h (Item f ch) = Item (g (Item f ch)) (map h ch)) -> (forall i, f_id (g i) = iid i) -> ids (map h l) = ids l.
Proof.
  intros Hh Hg. unfold ids. rewrite (under_map_nodes h g Hh), map_map. apply map_ext. intros [f ch]. rewrite Hh. apply (Hg (Item f ch)).
Qed.

Definition reclosed (i : PlanItem) : PlanItem := (reclose_item i).1.
Definition reclose_fields (i : PlanItem) : Fields :=
  let f := fields i in
  if f_reopened f && bool_decide (nullish (f_waitFor f) EmptyString = EmptyString) && negb (bool_decide (length (children i) = O)) && negb (existsb open_item (map reclosed (children i)))
  then set_status Done false f else f.
Lemma reclosed_unfold f ch : reclosed (Item f ch) = Item (reclose_fields (Item f ch)) (map reclosed ch).
Proof.
  unfold reclosed, reclose_fields. cbn [reclose_item fields children]. rewrite map_map, length_map. by destruct (_ && _).
Qed.
Lemma reclose_fst p : (reclose p).1 = map reclosed p.
Proof. unfold reclose. cbn. by rewrite map_map. Qed.
Lemma reclose_none p : (reclose p).2 = [] -> map reclosed p = p.
Proof.
  assert (forall l, Forall (fun i => (reclose_item i).2 = [] -> reclosed i = i) l -> flat_map snd (map reclose_item l) = [] -> map reclosed l = l) as Hl.
  { induction 1 as [|c l Hc _ IHl]; [done|]. cbn [map flat_map]. intros [H1 H2]%app_nil. by rewrite Hc, IHl. }
  apply Hl. apply Forall_forall. intros i _. induction i as [f ch IH] using PlanItem_nested. unfold reclosed. cbn [reclose_item].
  destruct (_ && _) eqn:E; cbn [fst snd]; [by intros [_ ?]%app_nil|]. intros Hc. rewrite map_map. f_equal. by apply Hl.
Qed.
Lemma reclosed_nodes l : nodes (map reclosed l) = map reclosed (nodes l).
Proof. apply (under_map_nodes reclosed reclose_fields), reclosed_unfold. Qed.
Lemma reclose_fields_or i : reclose_fields i = fields i \/
  reclose_fields i = set_status Done false (fields i) /\ f_reopened (fields i) = true /\ existsb open_item (map reclosed (children i)) = false.
Proof.
  unfold reclose_fields. destruct (_ && _) eqn:E; [|by left]. right. split; [done|]. simp_ok. done.
Qed.
Lemma reclosed_ids l : ids (map reclosed l) = ids l.
Proof. apply (map_ids reclosed reclose_fields); [apply reclosed_unfold|]. intros i. by destruct (reclose_fields_or i) as [->|(-> & _)]. Qed.
Lemma tmap_ids g l : (forall f, f_id (g f) = f_id f) -> ids (map (tmap g) l) = ids l.
Proof. intros Hg. apply (map_ids (tmap g) (fun i => g (fields i))); [done|]. intros i. apply Hg. Qed.

(** ** Ids *)

Definition kind_top (k : IdKind) (t : Ids) : Z := match k with P => t.1 | T => t.2 end.
Lemma id_number_of k n : 0 <= n -> id_number (String.String (kind_char k) (string_of_Z n)) = Some (k, n).
Proof.
  intros Hn. destruct (string_of_Z_digits n Hn) as (H1 & H2 & H3). unfold id_number, to_chars in *. cbn [String.list_ascii_of_string].
  destruct (String.list_ascii_of_string (string_of_Z n)) as [|d r]; [done|]. rewrite H1, H2. by destruct k.
Qed.
Lemma newId_number k t : 0 <= kind_top k t -> id_number (newId k t).1 = Some (k, kind_top k t + 1).
Proof. intros Hk. destruct k; cbn [newId kind_top fst] in *; apply id_number_of; lia. Qed.

(** [t] counts past every id of the list. *)
Definition past (t : Ids) (l : list string) : Prop := forall id k n, id ∈ l -> id_number id = Some (k, n) -> n <= kind_top k t.
Definition ids_le (a b : Ids) : Prop := a.1 <= b.1 /\ a.2 <= b.2.

Lemma see_le t id : ids_le t (see t id).
Proof. unfold see, ids_le. destruct (id_number id) as [[[] n]|]; cbn; lia. Qed.
Lemma seen l : forall t, ids_le t (fold_left see l t) /\ past (fold_left see l t) l.
Proof.
  induction l as [|x l IH]; intros t; cbn [fold_left]; [split; [unfold ids_le; lia|by intros ? ? ? ?%elem_of_nil]|].
  destruct (IH (see t x)) as [[H1 H1'] H2]. pose proof (see_le t x) as [H3 H3']. split; [unfold ids_le in *; lia|].
  intros id k n [->|Hin]%elem_of_cons Hn; [|by apply (H2 id)]. unfold see in *. rewrite Hn in *. destruct k; cbn in *; lia.
Qed.
Lemma idsTop_past b : past (idsTop b) (ids (plan b) ++ map t_id (todos b)) /\ ids_le (nullish (lastIds b) (0, 0)) (idsTop b).
Proof. unfold idsTop. destruct (seen (ids (plan b) ++ map t_id (todos b)) (nullish (lastIds b) (0, 0))). done. Qed.

Lemma newId_fresh k t l : 0 <= kind_top k t -> past t l -> (newId k t).1 ∉ l.
Proof. intros Hk Hp Hin. specialize (Hp _ k _ Hin (newId_number k t Hk)). lia. Qed.

(** ** Where a node sits *)

Lemma shared_id l i j id : NoDup (ids l) -> i ∈ l -> j ∈ l -> id ∈ ids [i] -> id ∈ ids [j] -> i = j.
Proof.
  induction l as [|k l IH]; [by intros _ ?%elem_of_nil|]. rewrite ids_cons. intros (_ & Hdis & Hl)%NoDup_app Hi Hj Hii Hij.
  assert (forall z, z ∈ l -> id ∈ ids [z] -> id ∈ ids l) as Hin.
  { intros z Hz Hid. apply ids_elem in Hid as (y & Hy & Hid). apply ids_elem. exists y. split; [|done]. apply nodes_elem in Hy as (? & ->%list_elem_of_singleton & Hy). apply nodes_elem. by exists z. }
  apply elem_of_cons in Hi as [->|Hi], Hj as [->|Hj]; [done| | |by apply IH].
  - destruct (Hdis id); [done|by apply (Hin j)].
  - destruct (Hdis id); [done|by apply (Hin i)].
Qed.
Lemma under_smaller x y : x ∈ under y -> x = y \/ (length (under x) < length (under y))%nat.
Proof.
  induction y as [f ch IH] using PlanItem_nested. rewrite under_unfold. intros [->|Hx]%elem_of_cons; [by left|]. right. cbn [length].
  apply nodes_elem in Hx as (c & Hc & Hx). assert (length (under x) <= length (under c))%nat.
  { rewrite Forall_forall in IH. destruct (IH c Hc Hx) as [->|]; lia. }
  assert (length (under c) <= length (nodes ch))%nat; [|lia]. apply list_elem_of_split in Hc as (l1 & l2 & ->). rewrite nodes_app, nodes_cons, !length_app. lia.
Qed.
Lemma iid_under x i : x ∈ under i -> iid x ∈ ids [i].
Proof. intros Hx. apply iid_in, nodes_elem. exists i. split; [by left|done]. Qed.

(** What holds a node is the node or above it. *)
Lemma chain_holds l up p x : chain l up p -> NoDup (ids l) -> x ∈ nodes l -> p ∈ under x -> x = p \/ x ∈ up.
Proof.
  intros Hc. revert x. induction Hc as [l p Hp|l a up p Ha Hc IH]; intros x Hnd (i & Hi & Hxi)%nodes_elem Hpx.
  - assert (i = p) as ->. { apply (shared_id l i p (iid p)); [done|done|done|by apply iid_under; eapply under_trans|apply iid_under, under_self]. }
    left. destruct (under_smaller x p Hxi); [done|]. destruct (under_smaller p x Hpx) as [->|]; [done|lia].
  - assert (p ∈ under a) as Hpa.
    { destruct a as [f ch]. right. apply (chain_nodes _ _ _ Hc). apply elem_of_app. right. by left. }
    assert (i = a) as ->. { apply (shared_id l i a (iid p)); [done|done|done|by apply iid_under; eapply under_trans|by apply iid_under]. }
    destruct a as [f ch]. rewrite under_unfold in Hxi. apply elem_of_cons in Hxi as [->|Hxi]; [right; by left|].
    destruct (IH x) as [?|?]; [|done|done|by left|right; by right].
    assert (NoDup (ids [Item f ch])) as Hnd' by (apply (NoDup_ids_under _ l); [done|by apply nodes_self]). rewrite ids_item in Hnd'. by apply NoDup_cons in Hnd' as [_ ?].
Qed.
