(* ===== verification/BoardSpec.v ===== *)
(** * The board keeps its items: ids, order and gates

    Theorems about [applyBoardOp] and a request of ops: the loops end, ids stay unique,
    an op moves only what it names, a gate once set stays, and only the owner answers. *)

From S2P Require Import Prelude Board BoardText BoardFlags BoardOps BoardTree.
#[local] Open Scope string_scope.
#[local] Open Scope list_scope.
#[local] Open Scope Z_scope.

Section Spec.
Context `{Dates, Rules}.

(** ** [done] *)

Definition settled (actor : BoardActor) (p : list PlanItem) : list PlanItem :=
  if decide (actor = Agent) then map markMerge (map reclosed p) else map reclosed p.

#[local] Arguments settled : simpl never.
#[local] Arguments ids : simpl never.
Lemma finish_board b op actor now duties np nt s e :
  w_board (finish b op actor now duties np nt s e) =
  mkBoard (rev b + 1) (match np with Some p => settled actor p | None => plan b end) (nullish nt (todos b)) now (lastIds b).
Proof.
  unfold finish, settled, markMerges. cbn. f_equal. destruct np as [p|].
  - case_bool_decide as Hc.
    + rewrite (reclose_none p Hc). by case_decide.
    + rewrite <- reclose_fst. by case_decide.
  - by case_decide.
Qed.

Lemma markMerge_tmap i : markMerge i = tmap (fun f => if negb (f_go f) && mergeStep (f_text f) && negb (stagingOnly (f_text f)) then set_go f else f) i.
Proof. induction i as [f ch IH] using PlanItem_nested. cbn [markMerge tmap]. f_equal. by apply map_ext_Forall. Qed.
Lemma markMerges_ids p : ids (map markMerge p) = ids p.
Proof. rewrite (map_ext _ _ markMerge_tmap). apply tmap_ids. intros f. by destruct (_ && _). Qed.
Lemma settled_ids actor p : ids (settled actor p) = ids p.
Proof. unfold settled. case_decide; by rewrite ?markMerges_ids, reclosed_ids. Qed.

(** ** The ids after each op *)

Lemma reopen_ids a p : ids (change_in p a reopen) = ids p.
Proof.
  unfold change_in. enough (forall i, ids (change_under a reopen i) = ids [i]) as Hi.
  { induction p as [|i p IH]; [done|]. cbn [flat_map]. by rewrite ids_app, IH, Hi, <- ids_cons. }
  induction i as [f ch IH] using PlanItem_nested. rewrite change_under_unfold. case_decide; [done|]. rewrite !ids_item. f_equal.
  unfold change_in. induction IH as [|c l Hc _ IHl]; [done|]. cbn [flat_map]. by rewrite ids_app, Hc, IHl, <- ids_cons.
Qed.
Lemma reopen_all_ids l p : ids (reopen_all l p) = ids p.
Proof. unfold reopen_all. revert p. induction l as [|a l IH]; intros p; [done|]. cbn [fold_left]. by rewrite IH, reopen_ids. Qed.

Lemma add_child_ids p pid x y : NoDup (ids p) -> y ∈ nodes p -> iid y = pid -> ids (change_in p pid (add_child x)) ≡ₚ ids p ++ ids [x].
Proof.
  intros Hnd Hy Hid. pose proof (change_swap pid (add_child x) p y Hnd Hy Hid) as Hs. destruct y as [f ch].
  change (ids (option_list (add_child x (Item f ch)))) with (ids [Item f (ch ++ [x])]) in Hs. rewrite !ids_item, ids_app in Hs.
  apply (Permutation_app_inv_r (f_id f :: ids ch)). rewrite Hs. rewrite <- app_assoc, app_comm_cons. f_equiv. apply Permutation_app_comm.
Qed.
Lemma remove_ids p x : NoDup (ids p) -> x ∈ nodes p -> ids (change_in p (iid x) (fun _ => None)) ++ ids [x] ≡ₚ ids p.
Proof. intros Hnd Hx. rewrite (change_swap (iid x) (fun _ => None) p x Hnd Hx eq_refl). by rewrite app_nil_r. Qed.

(** An edit keeps the id, and a go once set. *)
Definition kept (e e' : Edit) : Prop := f_id e'.1 = f_id e.1 /\ (f_go e.1 = true -> f_go e'.1 = true).
Ltac edit_step := unfold kept; repeat (cbn; match goal with |- context [match ?x with _ => _ end] => destruct x end); try done; cbn; try (split; [done|intros ->; done]).
Lemma edit_text_kept o f e : kept e (edit_text o f e).
Proof. unfold edit_text. destruct e. edit_step. Qed.
Lemma edit_status_kept o f e : kept e (edit_status o f e).
Proof. unfold edit_status. destruct e. edit_step. Qed.
Lemma edit_job_kept u f e : kept e (edit_job u f e).
Proof. unfold edit_job. destruct e. edit_step. Qed.
Lemma edit_note_kept o f e : kept e (edit_note o f e).
Proof. unfold edit_note. destruct e. edit_step. Qed.
Lemma edit_until_kept o f e : kept e (edit_until o f e).
Proof. unfold edit_until. destruct e. edit_step. Qed.
Lemma edit_for_kept o f e : kept e (edit_for o f e).
Proof. unfold edit_for. destruct e. edit_step. Qed.
Lemma edit_gates_kept u f e : kept e (edit_gates u f e).
Proof. unfold edit_gates. destruct e. edit_step. Qed.
Lemma edit_duty_kept ds p f e e' : edit_duty ds p f e = Fine e' -> kept e e'.
Proof.
  unfold edit_duty. destruct e as [g ps], p as [| |d]; [intros [= <-]; (split; [done|tauto])|intros [= <-]; (split; [done|tauto])|]. destruct (_ || _); [intros [= <-]; (split; [done|tauto])|].
  intros ([] & _ & [= <-])%bind_fine. (split; [done|tauto]).
Qed.
Lemma edit_target_kept now p f e e' : edit_target now p f e = Fine e' -> kept e e'.
Proof.
  unfold edit_target. destruct e as [g ps], p as [| |d].
  - intros [= <-]. split; [done|tauto].
  - intros [= <-]. split; [done|tauto].
  - cbv zeta. destruct (match f_target f with Some k => _ | None => _ end).
    + intros [= <-]. split; [done|tauto].
    + intros ([] & _ & [= <-])%bind_fine. split; [done|tauto].
Qed.
Lemma kept_trans e1 e2 e3 : kept e1 e2 -> kept e2 e3 -> kept e1 e3.
Proof. intros [H1 H2] [H3 H4]. split; [by rewrite H3|auto]. Qed.
Lemma edit_kept u f now duties e : edit u f now duties = Fine e -> kept (f, []) e.
Proof.
  unfold edit. intros (e0 & Hd%edit_duty_kept & Ht%edit_target_kept)%bind_fine. eapply kept_trans; [|exact Ht]. eapply kept_trans; [|exact Hd].
  eapply kept_trans; [|apply edit_gates_kept]. eapply kept_trans; [|apply edit_for_kept]. eapply kept_trans; [|apply edit_until_kept].
  eapply kept_trans; [|apply edit_note_kept]. eapply kept_trans; [|apply edit_job_kept]. eapply kept_trans; [|apply edit_status_kept]. apply edit_text_kept.
Qed.

(** *** [plan_set] *)

Lemma fresh_spec fuel s r : fresh fuel s = Fine r ->
  (r.1 ∉ claimed s) /\ claimed r.2 = r.1 :: claimed s /\ used r.2 = used s /\ (top s).1 < (top r.2).1 /\ (top r.2).2 = (top s).2 /\
  exists n, (top s).1 <= n /\ r.1 = (newId P (n, 0)).1.
Proof.
  revert s. induction fuel as [|fuel IH]; intros s; [done|]. cbn [fresh]. destruct (newId P (top s)) as [id t] eqn:E. injection E as Ei Et.
  case_decide as Hc.
  - intros Hf. destruct (IH _ Hf) as (H1 & H2 & H3 & H4 & H5 & n & H6 & H7). cbn in *. subst t. cbn in *. split_and!; [done|done|done|lia|done|]. exists n. split; [lia|done].
  - intros [= <-]. cbn. subst t id. cbn. split_and!; [done|done|done|lia|done|]. exists (top s).1. split; [lia|done].
Qed.

(** The loop tries one new id after another, and only as many as the items claim can be taken. *)
Lemma fresh_ends fuel s : (length (claimed s) < fuel)%nat -> fresh fuel s <> Spins.
Proof.
  intros Hl Hs. assert (forall k, (k < fuel)%nat -> (newId P ((top s).1 + Z.of_nat k, 0)).1 ∈ claimed s) as Htried.
  { clear Hl. revert s Hs. induction fuel as [|fuel IH]; intros s Hs k Hk; [lia|]. cbn [fresh] in Hs. destruct (newId P (top s)) as [id t] eqn:E. injection E as Ei Et.
    case_decide as Hc; [|done]. destruct k as [|k]; [cbn; rewrite Z.add_0_r; by rewrite Ei|].
    specialize (IH _ Hs k ltac:(lia)). cbn in *. subst t. cbn in IH. by replace ((top s).1 + Z.of_nat (S k)) with ((top s).1 + 1 + Z.of_nat k) by lia. }
  assert (length (map (fun k : nat => (newId P ((top s).1 + Z.of_nat k, 0)%Z).1) (seq 0 fuel)) <= length (claimed s))%nat as Hle.
  { apply submseteq_length, NoDup_submseteq.
    - apply NoDup_fmap_2_strong; [|apply NoDup_seq]. intros x y _ _ Heq. cbn in Heq. injection Heq as Heq. apply (inj pretty) in Heq. lia.
    - intros x (k & -> & Hk)%list_elem_of_fmap. apply elem_of_seq in Hk. apply Htried. lia. }
  rewrite length_map, length_seq in Hle. lia.
Qed.
Lemma pick_ends id s : pick id s <> Spins.
Proof.
  unfold pick. pose proof (fresh_ends (S (length (claimed s))) s ltac:(lia)) as Hf.
  destruct (truthy id) as [i|]; [case_decide|]; try done; by destruct (fresh _ s).
Qed.

(** What a pick keeps: the ids used are distinct and among those claimed. *)
Definition build_ok (s : Build) : Prop := NoDup (used s) /\ used s ⊆ claimed s.
Lemma pick_spec id s r : pick id s = Fine r -> build_ok s -> (forall i, truthy id = Some i -> i ∈ claimed s) ->
  build_ok r.2 /\ used r.2 = r.1 :: used s /\ claimed s ⊆ claimed r.2 /\ (top s).1 <= (top r.2).1 /\
  (Some r.1 = id \/ exists n, (top s).1 <= n /\ r.1 = (newId P (n, 0)).1).
Proof.
  intros Hp [Hnd Hsub] Hin. unfold pick in Hp. apply bind_fine in Hp as ([x s'] & Hp & [= <-]). cbn.
  assert (fresh (S (length (claimed s))) s = Fine (x, s') -> build_ok (mkBuild (claimed s') (x :: used s') (top s')) /\ x :: used s' = x :: used s /\
    claimed s ⊆ claimed s' /\ (top s).1 <= (top s').1 /\ (Some x = id \/ exists n, (top s).1 <= n /\ x = (newId P (n, 0)).1)) as Hfresh.
  { intros Hf. apply fresh_spec in Hf as (H1 & H2 & H3 & H4 & H5 & H6). cbn in *. unfold build_ok. cbn. rewrite H2, H3. split_and!; [|set_solver|done|set_solver|lia|by right].
    apply NoDup_cons. split; [|done]. set_solver. }
  destruct (truthy id) as [i|] eqn:Et; [|by apply Hfresh]. case_decide as Hu; [by apply Hfresh|]. injection Hp as -> ->. specialize (Hin x eq_refl).
  unfold build_ok. cbn. split_and!; [by apply NoDup_cons|set_solver|done|done|lia|]. left. unfold truthy in Et. destruct id as [i|]; [|done]. by case_decide.
Qed.

Lemma Input_nested (Q : PlanItemInput -> Prop) : (forall id f ch, Forall Q ch -> Q (ItemInput id f ch)) -> forall i, Q i.
Proof. intros HQ. fix IH 1. intros [id f ch]. apply HQ. induction ch as [|c ch IHch]; constructor; [apply IH|exact IHch]. Qed.

Section Builds.
Context (b : ChatBoard) (now : string) (duties : option DutyKeys).
Local Abbreviation build := (build b now duties).
Local Abbreviation builds := (builds b now duties).

Lemma build_unfold s id f ch : build s (ItemInput id f ch) =
  (r ← pick id s;
   let kept := if decide (Some r.1 = id) then (fun x => fields x.1) <$> find (plan b) r.1 else None in
   _ ← linkable duties (in_duty f) (kept ≫= f_duty);
   _ ← measuredBy (in_target f) now;
   c ← builds r.2 ch;
   Fine (c.1, Item (item_fields r.1 f kept now) c.2)).
Proof.
  cbn [BoardOps.build]. destruct (pick id s) as [r|k m|]; [|done|done]. cbn. destruct (linkable _ _ _); [|done|done]. destruct (measuredBy _ _); [|done|done].
  assert (forall l s, (fix go (s : Build) (l : list PlanItemInput) : attempt (Build * list PlanItem) := match l with [] => Fine (s, []) | x :: l => y ← build s x; ys ← go y.1 l; Fine (ys.1, y.2 :: ys.2) end) s l = builds s l) as Hgo.
  { induction l as [|x l IH]; intros s'; [done|]. cbn [BoardOps.builds]. destruct (build s' x); [|done|done]. cbn. by rewrite IH. }
  by rewrite Hgo.
Qed.

Lemma linkable_ends link k : linkable duties link k <> Spins.
Proof. unfold linkable. destruct duties, (truthy link); try done. case_decide; [done|]. by destruct (dutyLinkProblem _ _). Qed.
Lemma measuredBy_ends g : measuredBy g now <> Spins.
Proof. unfold measuredBy, invalid. destruct (g ≫= _) as [a|]; [|done]. destruct (Date_parse a), (Date_parse now); try done. by destruct (_ <? _). Qed.

Lemma builds_end l : Forall (fun i => forall s, build s i <> Spins) l -> forall s, builds s l <> Spins.
Proof.
  induction 1 as [|i l Hi _ IH]; intros s; [done|]. cbn [BoardOps.builds]. specialize (Hi s). destruct (build s i) as [y| |]; [|done|done]. cbn.
  specialize (IH y.1). by destruct (builds y.1 l).
Qed.
Lemma build_ends i : forall s, build s i <> Spins.
Proof.
  induction i as [id f ch IH] using Input_nested. intros s. rewrite build_unfold. pose proof (pick_ends id s) as Hp. destruct (pick id s) as [r| |]; [|done|done]. cbn.
  destruct (linkable _ _ _) eqn:El; [|done|by destruct (linkable_ends _ _ El)]. destruct (measuredBy _ _) eqn:Em; [|done|by destruct (measuredBy_ends _ Em)]. cbn.
  pose proof (builds_end ch IH r.2). by destruct (builds r.2 ch).
Qed.

(** Each item built has the fields its input and the item it keeps give, or a new id. *)
Definition built (t : Ids) (x : PlanItem) : Prop :=
  exists f, fields x = item_fields (iid x) f ((fun y => fields y.1) <$> find (plan b) (iid x)) now \/ exists n, t.1 <= n /\ iid x = (newId P (n, 0)).1.
Lemma built_le t t' x : t.1 <= t'.1 -> built t' x -> built t x.
Proof. intros Hle (f & [Hf|(n & Hn & Hi)]); exists f; [by left|right; exists n; split; [lia|done]]. Qed.

Definition built_from (s s' : Build) (xs : list PlanItem) : Prop :=
  build_ok s' /\ used s' ≡ₚ ids xs ++ used s /\ claimed s ⊆ claimed s' /\ (top s).1 <= (top s').1 /\ Forall (built (top s)) (nodes xs).
Definition claims (s : Build) (l : list PlanItemInput) : Prop := forall x i, x ∈ walkInputs l -> truthy x.1 = Some i -> i ∈ claimed s.

Lemma builds_spec_all l : Forall (fun i => forall s s' x, build s i = Fine (s', x) -> build_ok s -> claims s [i] -> built_from s s' [x]) l ->
  forall s s' xs, builds s l = Fine (s', xs) -> build_ok s -> claims s l -> built_from s s' xs.
Proof.
  induction 1 as [|i l Hi _ IH]; intros s s' xs; cbn [BoardOps.builds].
  - intros [= <- <-] Hok _. split_and!; [done|done|done|lia|by apply Forall_nil_2].
  - intros ([s1 x] & H1 & ([s2 ys] & H2 & [= <- <-])%bind_fine)%bind_fine Hok Hc. cbn in *.
    assert (claims s [i]) as Hci. { intros z k Hz. apply Hc. unfold walkInputs in *. cbn in *. rewrite app_nil_r in Hz. apply elem_of_app. by left. }
    destruct (Hi _ _ _ H1 Hok Hci) as (Hok1 & Hp1 & Hs1 & Ht1 & Hb1).
    assert (claims s1 l) as Hcl. { intros z k Hz Hk. apply Hs1. apply (Hc z k); [|done]. unfold walkInputs in *. cbn. apply elem_of_app. by right. }
    destruct (IH _ _ _ H2 Hok1 Hcl) as (Hok2 & Hp2 & Hs2 & Ht2 & Hb2). split_and!; [done| |set_solver|lia|].
    + rewrite Hp2, Hp1, (ids_cons x ys). rewrite !app_assoc. f_equiv. apply Permutation_app_comm.
    + rewrite nodes_cons. apply Forall_app. unfold nodes in Hb1. cbn in Hb1. rewrite app_nil_r in Hb1. split; [done|].
      eapply Forall_impl; [exact Hb2|]. cbn. intros y. by apply built_le.
Qed.
Lemma build_spec i : forall s s' x, build s i = Fine (s', x) -> build_ok s -> claims s [i] -> built_from s s' [x].
Proof.
  induction i as [id f ch IH] using Input_nested. intros s s' x. rewrite build_unfold.
  intros (r & Hp & ([] & _ & ([] & _ & ([s2 ys] & Hb & [= <- <-])%bind_fine)%bind_fine)%bind_fine)%bind_fine Hok Hc. cbn [fst snd] in *.
  apply pick_spec in Hp as (Hok1 & Hu1 & Hs1 & Ht1 & Hid); [|done|intros k Hk; apply (Hc (id, f) k); [by left|done]].
  assert (claims r.2 ch) as Hcl. { intros z k Hz Hk. apply Hs1. apply (Hc z k); [|done]. unfold walkInputs. cbn. rewrite app_nil_r. by right. }
  destruct (builds_spec_all ch IH _ _ _ Hb Hok1 Hcl) as (Hok2 & Hp2 & Hs2 & Ht2 & Hb2). split_and!; [done| |set_solver|lia|].
  - rewrite Hp2, Hu1, ids_item. cbn. symmetry. apply Permutation_middle.
  - unfold nodes. cbn [flat_map under]. rewrite app_nil_r. apply Forall_cons. split.
    + exists f. destruct Hid as [Hid|(n & Hn & Hid)]; [|right; exists n; split; [done|done]]. left. cbn [fields]. change (iid (Item (item_fields r.1 f _ now) ys)) with r.1.
      by rewrite decide_True by done.
    + eapply Forall_impl; [exact Hb2|]. cbn. intros y. by apply built_le.
Qed.
Lemma builds_spec l s s' xs : builds s l = Fine (s', xs) -> build_ok s -> claims s l -> built_from s s' xs.
Proof. apply builds_spec_all. apply Forall_forall. intros i _. apply build_spec. Qed.
End Builds.

(** ** Every op *)

Definition plan_ids_after (b : ChatBoard) (op : BoardOp) (t : Ids) (p' : list PlanItem) : Prop :=
  match op with
  | PlanSet _ => NoDup (ids p')
  | PlanAdd _ _ => ids p' ≡ₚ (newId P t).1 :: ids (plan b)
  | PlanUpdate _ _ => ids p' ≡ₚ ids (plan b)
  | PlanRemove id => exists x up, find (plan b) id = Some (x, up) /\ ids p' ++ ids [x] ≡ₚ ids (plan b)
  | _ => p' = plan b
  end.
Definition todo_ids_after (b : ChatBoard) (op : BoardOp) (t : Ids) (ts : list OwnerTodo) : Prop :=
  match op with
  | TodoAdd _ _ _ _ => map t_id ts = map t_id (todos b) ++ [(newId T t).1]
  | TodoUpdate _ _ _ _ _ _ => map t_id ts = map t_id (todos b)
  | TodoRemove id => map t_id ts = base.filter (fun i => i <> id) (map t_id (todos b))
  | _ => ts = todos b
  end.

Lemma plan_add_spec b parent i actor now t duties w : NoDup (ids (plan b)) -> plan_add b parent i actor now t duties = Fine w ->
  ids (plan (w_board w)) ≡ₚ (newId P t).1 :: ids (plan b) /\ todos (w_board w) = todos b /\ rev (w_board w) = rev b + 1 /\ lastIds (w_board w) = lastIds b.
Proof.
  intros Hnd. unfold plan_add. intros ([] & _ & ([] & _ & Hw)%bind_fine)%bind_fine. destruct parent as [pid|].
  - destruct (find (plan b) pid) as [[p up]|] eqn:E; [|done]. apply find_Some in E as (Hid & Hp & _). injection Hw as <-. rewrite finish_board. cbn. split_and!; try done.
    rewrite settled_ids, reopen_all_ids, (add_child_ids _ pid _ p) by done. rewrite ids_item. cbn. symmetry. apply Permutation_cons_append.
  - injection Hw as <-. rewrite finish_board. cbn. split_and!; try done. rewrite settled_ids, ids_app, ids_item. cbn. symmetry. apply Permutation_cons_append.
Qed.

Lemma move_under b parent above p up : move_of b parent above = Fine (Under p up) -> exists id, find (plan b) id = Some (p, up).
Proof.
  unfold move_of. destruct parent as [| |id]; [done|by case_decide|]. case_decide; [done|]. destruct (find (plan b) id) as [[x u]|] eqn:E; [|done]. intros [= -> ->]. by exists id.
Qed.

(** Moving an item: what is left once it is out still holds the new parent. *)
Lemma moved_ids b x next p up q : NoDup (ids (plan b)) -> x ∈ nodes (plan b) -> ids [next] = ids [x] -> find (plan b) q = Some (p, up) ->
  bool_decide (iid p = iid x) || existsb (fun a => bool_decide (iid a = iid x)) up = false ->
  (exists y, y ∈ nodes (change_in (plan b) (iid x) (fun _ => None)) /\ iid y = iid p) /\
  ids (change_in (change_in (plan b) (iid x) (fun _ => None)) (iid p) (add_child next)) ≡ₚ ids (plan b).
Proof.
  intros Hnd Hx Hnext (Hq & Hp & Hc)%find_Some Hno. apply orb_false_iff in Hno as [Hne Hno]. apply bool_decide_eq_false in Hne.
  pose proof (remove_ids (plan b) x Hnd Hx) as Hr.
  assert (iid p ∈ ids (change_in (plan b) (iid x) (fun _ => None))) as Hin.
  { pose proof (iid_in p _ Hp) as Hin. rewrite <- Hr in Hin. apply elem_of_app in Hin as [?|Hin]; [done|]. exfalso.
    apply ids_elem in Hin as (p' & Hp' & Hid). assert (p' = p) as ->.
    { apply (node_unique (plan b)); [done| |done|done]. apply nodes_elem in Hp' as (? & ->%list_elem_of_singleton & ?). by apply (nodes_trans x). }
    apply nodes_elem in Hp' as (? & ->%list_elem_of_singleton & Hpx). destruct (chain_holds _ _ _ _ Hc Hnd Hx Hpx) as [->|Hup]; [done|].
    apply not_true_iff_false in Hno. apply Hno, existsb_exists. exists x. split; [by apply list_elem_of_In|]. by apply bool_decide_eq_true. }
  apply ids_elem in Hin as (y & Hy & Hid). split; [by exists y|].
  rewrite (add_child_ids _ _ _ y); [by rewrite Hnext|rewrite <- Hr in Hnd; by apply NoDup_app in Hnd as (? & _)|done|done].
Qed.

Lemma plan_update_spec b id u actor now duties w : NoDup (ids (plan b)) -> plan_update b id u actor now duties = Fine w ->
  ids (plan (w_board w)) ≡ₚ ids (plan b) /\ todos (w_board w) = todos b /\ rev (w_board w) = rev b + 1 /\ lastIds (w_board w) = lastIds b.
Proof.
  intros Hnd. unfold plan_update. destruct (find (plan b) id) as [[x above]|] eqn:E; [|done]. apply find_Some in E as (Hid & Hx & _).
  intros (to & Hto & Hw)%bind_fine. destruct (match to with Under _ _ => _ | _ => false end) eqn:Hno; [done|]. apply bind_fine in Hw as (e & He & Hw).
  apply edit_kept in He as [Hk _]. cbn in Hk. set (next := Item e.1 (children x)) in *.
  assert (ids [next] = ids [x]) as Hnext. { unfold next. destruct x as [f ch]. rewrite !ids_item. cbn in *. by rewrite Hk. }
  destruct to as [| |p up]; injection Hw as <-; rewrite finish_board; cbn; (split_and!; [|done|done|done]); rewrite settled_ids.
  - pose proof (change_swap id (fun _ => Some next) (plan b) x Hnd Hx Hid) as Hs. cbn beta in Hs. change (ids (option_list (Some next))) with (ids [next]) in Hs. rewrite Hnext in Hs.
    by apply Permutation_app_inv_r in Hs.
  - rewrite ids_app, Hnext. subst id. by apply remove_ids.
  - rewrite reopen_all_ids. destruct (move_under _ _ _ _ _ Hto) as (q & Hq). subst id. by apply (moved_ids b x next p up q).
Qed.

Lemma todo_reply_id reply t e : t_id (todo_reply reply t e).1 = t_id e.1.
Proof. unfold todo_reply. destruct reply as [| |r]; [done|done|]. destruct (chose _ _); [done|]. by case_decide. Qed.
Lemma todo_done_id o reply t e : t_id (todo_done o reply t e).1 = t_id e.1.
Proof. unfold todo_done. destruct o; [|done]. by case_bool_decide. Qed.
Lemma todo_choices_id p t e : t_id (todo_choices p t e).1 = t_id e.1.
Proof. unfold todo_choices. destruct e. by destruct (new_choices _ _). Qed.
Lemma todo_links_id o e : t_id (todo_links o e).1 = t_id e.1.
Proof. unfold todo_links. destruct e. by destruct o. Qed.
Lemma todo_text_id o t e : t_id (todo_text o t e).1 = t_id e.1.
Proof. unfold todo_text. destruct e, o; [|done]. by case_decide. Qed.

#[local] Arguments todo_text : simpl never.
Lemma todo_ops_spec b op actor now t duties w : owner_op op = true -> applyBoardOp b op actor now t duties = Fine w ->
  plan (w_board w) = plan b /\ todo_ids_after b op t (todos (w_board w)) /\ rev (w_board w) = rev b + 1 /\ lastIds (w_board w) = lastIds b.
Proof.
  intros Ho. unfold applyBoardOp. rewrite Ho, andb_false_r. destruct op as [| | | |x c s l|id x d r l c|id]; try done.
  - unfold todo_add. intros ([] & _ & ([] & _ & [= <-])%bind_fine)%bind_fine. rewrite finish_board. cbn. split_and!; try done. by rewrite map_app.
  - unfold todo_update. destruct (find_todo b id) as [td|] eqn:E; [|done]. destruct (_ && _); [done|]. destruct (_ && _); [done|]. intros ([] & _ & [= <-])%bind_fine.
    rewrite finish_board. cbn. split_and!; try done. rewrite map_map. apply map_ext_in. intros y _. case_decide as Hy; [|done].
    rewrite todo_reply_id, todo_done_id, todo_choices_id, todo_links_id, todo_text_id. cbn. apply List.find_some in E as [_ E%bool_decide_eq_true]. congruence.
  - unfold todo_remove. destruct (find_todo b id); [|done]. intros [= <-]. rewrite finish_board. cbn. split_and!; try done.
    generalize (todos b) as ts. induction ts as [|y ts IH]; [done|]. cbn [map]. destruct (decide (t_id y = id)) as [He|He].
    + rewrite !filter_cons_False by (intros Hn; done). exact IH.
    + rewrite !filter_cons_True by done. cbn [map]. by rewrite IH.
Qed.

(** A board whose ids are unique, and whose stored counts are counts. *)
Definition well_formed (b : ChatBoard) : Prop :=
  NoDup (ids (plan b)) /\ NoDup (map t_id (todos b)) /\ ids_le (0, 0) (nullish (lastIds b) (0, 0)).

Lemma op_spec b op actor now t duties w : NoDup (ids (plan b)) -> applyBoardOp b op actor now t duties = Fine w ->
  plan_ids_after b op t (plan (w_board w)) /\ todo_ids_after b op t (todos (w_board w)) /\ rev (w_board w) = rev b + 1 /\ lastIds (w_board w) = lastIds b.
Proof.
  intros Hnd Hw. destruct (owner_op op) eqn:Ho.
  - destruct (todo_ops_spec _ _ _ _ _ _ _ Ho Hw) as (H1 & H2 & H3 & H4). by destruct op.
  - unfold applyBoardOp in Hw. destruct (_ && _); [done|]. destruct op as [items|parent i|id u|id|x c s l|id x d r l c|id]; try done; cbn.
    + unfold plan_set in Hw. apply bind_fine in Hw as ([s' xs] & Hb & [= <-]). rewrite finish_board. cbn. split_and!; try done. rewrite settled_ids.
      apply builds_spec in Hb as ([Hu _] & Hp & _); [|split; [apply NoDup_nil_2|set_solver]|intros z k Hz Hk; cbn; apply list_elem_of_omap; by exists z].
      rewrite Hp in Hu. cbn in Hu. by rewrite app_nil_r in Hu.
    + by apply plan_add_spec in Hw.
    + by apply plan_update_spec in Hw.
    + unfold plan_remove in Hw. destruct (find (plan b) id) as [[x up]|] eqn:E; [|done]. injection Hw as <-. rewrite finish_board. cbn. split_and!; try done. exists x, up. split; [done|].
      rewrite settled_ids. apply find_Some in E as (<- & Hx & _). by apply remove_ids.
Qed.

Lemma op_well_formed b op actor now duties w : well_formed b -> applyBoardOp b op actor now (idsTop b) duties = Fine w -> well_formed (w_board w).
Proof.
  intros (Hp & Ht & [Hl1 Hl2]) Hw. destruct (op_spec _ _ _ _ _ _ _ Hp Hw) as (H1 & H2 & _ & H4). destruct (idsTop_past b) as [Hpast [Hge1 Hge2]]. cbn in Hl1, Hl2.
  assert (forall k, (newId k (idsTop b)).1 ∉ ids (plan b) ++ map t_id (todos b)) as Hfresh by (intros k; apply newId_fresh; [destruct k; cbn; lia|done]).
  split_and!; [| |by rewrite H4].
  - destruct op; cbn in H1; try by rewrite H1.
    + done.
    + rewrite H1. apply NoDup_cons. split; [|done]. specialize (Hfresh P). rewrite elem_of_app in Hfresh. tauto.
    + destruct H1 as (x & up & _ & H1). rewrite <- H1 in Hp. by apply NoDup_app in Hp as (? & _).
  - destruct op; cbn in H2; try by rewrite H2.
    + rewrite H2. apply NoDup_app. split_and!; [done| |apply NoDup_singleton]. intros x Hx ->%list_elem_of_singleton. specialize (Hfresh T). rewrite elem_of_app in Hfresh. tauto.
    + rewrite H2. by apply NoDup_filter.
Qed.

(** ** What an op leaves of each item *)

(** The fields with another state: its status, its reopened mark and its go. *)
Definition with_state (st : PlanStatus) (r g : bool) (f : Fields) : Fields :=
  mkFields (f_id f) (f_text f) st (f_job f) (f_note f) (f_waitUntil f) (f_waitFor f) (f_sessionId f) g (f_build f) (f_requirements f) (f_target f) (f_duty f) r.
(** [f'] is [f] but for its state, and keeps its go. *)
Definition settles (f f' : Fields) : Prop := exists st r g, f' = with_state st r g f /\ (f_go f = true -> g = true).

Lemma settles_refl f : settles f f.
Proof. exists (f_status f), (f_reopened f), (f_go f). by destruct f. Qed.
Lemma settles_trans f g h : settles f g -> settles g h -> settles f h.
Proof. intros (s1 & r1 & g1 & -> & H1) (s2 & r2 & g2 & -> & H2). exists s2, r2, g2. split; [done|]. cbn in H2. auto. Qed.
Lemma settles_status st r f : settles f (set_status st r f).
Proof. exists st, r, (f_go f). done. Qed.
Lemma settles_go f : settles f (set_go f).
Proof. exists (f_status f), (f_reopened f), true. done. Qed.
Lemma settles_id f g : settles f g -> f_id g = f_id f.
Proof. by intros (st & r & go & -> & _). Qed.

(** [y] is the item [y0] of [p], but for its state. *)
Definition comes_from (p : list PlanItem) (y : PlanItem) : Prop := exists y0, y0 ∈ nodes p /\ settles (fields y0) (fields y).

Lemma settled_from actor p y : y ∈ nodes (settled actor p) -> comes_from p y.
Proof.
  assert (forall z, z ∈ nodes (map reclosed p) -> comes_from p z) as Hr.
  { intros z. rewrite reclosed_nodes. intros (y0 & -> & Hy0)%list_elem_of_fmap. exists y0. split; [done|]. destruct y0 as [f ch]. rewrite reclosed_unfold. cbn [fields].
    destruct (reclose_fields_or (Item f ch)) as [->|(-> & _)]; [apply settles_refl|apply settles_status]. }
  unfold settled. case_decide; [|apply Hr]. rewrite (map_ext _ _ markMerge_tmap), tmap_nodes. intros (z & -> & Hz)%list_elem_of_fmap.
  destruct (Hr z Hz) as (y0 & Hy0 & Hs). exists y0. split; [done|]. eapply settles_trans; [exact Hs|]. destruct z as [f ch]. cbn [tmap fields]. destruct (_ && _); [apply settles_go|apply settles_refl].
Qed.
Lemma from_trans p q y : comes_from q y -> (forall z, z ∈ nodes q -> comes_from p z) -> comes_from p y.
Proof. intros (y0 & Hy0 & Hs) Hq. destruct (Hq y0 Hy0) as (z & Hz & Hs'). exists z. split; [done|]. by eapply settles_trans. Qed.
Lemma from_self p y : y ∈ nodes p -> comes_from p y.
Proof. intros Hy. exists y. split; [done|apply settles_refl]. Qed.

Lemma reopen_all_from l p y : y ∈ nodes (reopen_all l p) -> comes_from p y.
Proof.
  unfold reopen_all. revert p. induction l as [|a l IH]; intros p; cbn [fold_left]; [apply from_self|]. intros Hy%IH. eapply from_trans; [exact Hy|].
  intros z [(x & r & Hx & _ & [= <-] & Hz)|(y0 & Hy0 & _ & ->)]%change_nodes; [|exists y0; split; [done|apply settles_refl]].
  destruct x as [f ch]. cbn [fields children] in Hz. rewrite under_unfold in Hz. apply elem_of_cons in Hz as [->|Hz].
  - exists (Item f ch). split; [done|apply settles_status].
  - apply from_self. eapply nodes_trans; [exact Hx|]. by right.
Qed.
Lemma add_child_from p pid x y : y ∈ nodes (change_in p pid (add_child x)) -> y ∈ under x \/ comes_from p y.
Proof.
  intros [(z & r & Hz & _ & [= <-] & Hy)|(y0 & Hy0 & _ & ->)]%change_nodes; [|right; exists y0; split; [done|apply settles_refl]].
  destruct z as [f ch]. cbn [fields children] in Hy. rewrite under_unfold, nodes_app in Hy. apply elem_of_cons in Hy as [->|Hy].
  - right. exists (Item f ch). split; [done|apply settles_refl].
  - apply elem_of_app in Hy as [Hy|Hy]; [right; apply from_self; eapply nodes_trans; [exact Hz|by right]|]. left. apply nodes_elem in Hy as (? & ->%list_elem_of_singleton & ?). done.
Qed.
Lemma removed_from p id y : y ∈ nodes (change_in p id (fun _ => None)) -> comes_from p y.
Proof. by intros [(x & z & _ & _ & ? & _)|(y0 & Hy0 & _ & ->)]%change_nodes; [|exists y0; split; [done|apply settles_refl]]. Qed.

(** [y] is an item of [p], or the one with the fields [f], but for its state. *)
Definition from_or (p : list PlanItem) (f : Fields) (y : PlanItem) : Prop := comes_from p y \/ settles f (fields y).
Lemma from_or_trans p q f y : comes_from q y -> (forall z, z ∈ nodes q -> from_or p f z) -> from_or p f y.
Proof.
  intros (y0 & Hy0 & Hs) Hq. destruct (Hq y0 Hy0) as [(z & Hz & Hs')|Hs']; [left; exists z; split; [done|]|right]; by eapply settles_trans.
Qed.
Lemma added_from p q pid x l actor y : (forall z, z ∈ nodes q -> comes_from p z) -> (forall z, z ∈ under x -> from_or p (fields x) z) ->
  y ∈ nodes (settled actor (reopen_all l (change_in q pid (add_child x)))) -> from_or p (fields x) y.
Proof.
  intros Hq Hx Hy%settled_from. eapply from_or_trans; [exact Hy|]. intros z Hz%reopen_all_from. eapply from_or_trans; [exact Hz|].
  intros z1 [Hu|Hz1]%add_child_from; [by apply Hx|]. left. by eapply from_trans.
Qed.

(** The item an op writes itself. *)
Definition written (b : ChatBoard) (op : BoardOp) (now : string) (t : Ids) (duties : option DutyKeys) (f : Fields) : Prop :=
  match op with
  | PlanSet _ => (exists i, f = item_fields (f_id f) i ((fun y => fields y.1) <$> find (plan b) (f_id f)) now) \/ exists n, t.1 <= n /\ f_id f = (newId P (n, 0)).1
  | PlanAdd _ i => f = item_fields (newId P t).1 i None now
  | PlanUpdate id u => exists x up ps, find (plan b) id = Some (x, up) /\ edit u (fields x) now duties = Fine (f, ps)
  | _ => False
  end.

Lemma add_items b parent i actor now t duties w y : plan_add b parent i actor now t duties = Fine w -> y ∈ nodes (plan (w_board w)) ->
  from_or (plan b) (item_fields (newId P t).1 i None now) y.
Proof.
  unfold plan_add. intros ([] & _ & ([] & _ & Hw)%bind_fine)%bind_fine. set (f := item_fields (newId P t).1 i None now) in *.
  assert (forall z, z ∈ under (Item f []) -> from_or (plan b) f z) as Hx by (intros z ->%list_elem_of_singleton; right; apply settles_refl).
  destruct parent as [pid|].
  - destruct (find (plan b) pid) as [[p up]|]; [|done]. injection Hw as <-. rewrite finish_board. cbn [plan]. apply (added_from _ _ _ (Item f [])); [apply from_self|done].
  - injection Hw as <-. rewrite finish_board. cbn [plan]. intros Hy%settled_from. eapply from_or_trans; [exact Hy|]. intros z. rewrite nodes_app, elem_of_app.
    intros [Hz|Hz]; [left; by apply from_self|]. apply Hx. apply nodes_elem in Hz as (? & ->%list_elem_of_singleton & ?). done.
Qed.

Lemma update_items b id u actor now duties w y : plan_update b id u actor now duties = Fine w -> y ∈ nodes (plan (w_board w)) ->
  exists x up f ps, find (plan b) id = Some (x, up) /\ edit u (fields x) now duties = Fine (f, ps) /\ from_or (plan b) f y.
Proof.
  unfold plan_update. destruct (find (plan b) id) as [[x above]|] eqn:E; [|done]. apply find_Some in E as Hx. destruct Hx as (Hid & Hx & _).
  intros (to & Hto & Hw)%bind_fine Hy. destruct (match to with Under _ _ => _ | _ => false end); [done|]. apply bind_fine in Hw as ([f ps] & He & Hw).
  exists x, above, f, ps. split_and!; [done|done|]. cbn [fst snd] in Hw. set (next := Item f (children x)) in *.
  assert (forall z, z ∈ under next -> from_or (plan b) f z) as Hnext.
  { intros z. unfold next. rewrite under_unfold, elem_of_cons. intros [->|Hz]; [right; apply settles_refl|]. left. apply from_self. eapply nodes_trans; [exact Hx|].
    destruct x as [g ch]. by right. }
  destruct to as [| |p up]; injection Hw as <-; rewrite finish_board in Hy; cbn [plan] in Hy.
  - apply settled_from in Hy. eapply from_or_trans; [exact Hy|]. intros z [(x1 & r & _ & _ & [= <-] & Hz)|(y0 & Hy0 & _ & ->)]%change_nodes; [by apply Hnext|].
    left. exists y0. split; [done|apply settles_refl].
  - apply settled_from in Hy. eapply from_or_trans; [exact Hy|]. intros z. rewrite nodes_app, elem_of_app. intros [Hz|Hz]; [left; by apply (removed_from _ id)|].
    apply Hnext. apply nodes_elem in Hz as (? & ->%list_elem_of_singleton & ?). done.
  - change f with (fields next). apply (added_from _ _ _ next _ _ _ (removed_from _ _) Hnext Hy).
Qed.

Lemma op_items b op actor now t duties w y : applyBoardOp b op actor now t duties = Fine w -> y ∈ nodes (plan (w_board w)) ->
  comes_from (plan b) y \/ exists f, written b op now t duties f /\ settles f (fields y).
Proof.
  destruct (owner_op op) eqn:Ho; intros Hw.
  { destruct (todo_ops_spec _ _ _ _ _ _ _ Ho Hw) as (-> & _). left. by apply from_self. }
  unfold applyBoardOp in Hw. destruct (_ && _); [done|]. destruct op as [items|parent i|id u|id|x c s l|id x d r l c|id]; try done.
  - unfold plan_set in Hw. apply bind_fine in Hw as ([s' xs] & Hb & [= <-]). rewrite finish_board. cbn [plan]. intros (y0 & Hy0 & Hs)%settled_from.
    apply builds_spec in Hb as (_ & _ & _ & _ & Hb); [|split; [apply NoDup_nil_2|set_solver]|intros z k Hz Hk; cbn; apply list_elem_of_omap; by exists z].
    rewrite Forall_forall in Hb. right. exists (fields y0). split; [|done]. destruct (Hb y0 Hy0) as (f & [Hf|Hn]); [left; by exists f|by right].
  - intros Hy. destruct (add_items _ _ _ _ _ _ _ _ _ Hw Hy) as [?|?]; [by left|right]. eexists. by split.
  - intros Hy. destruct (update_items _ _ _ _ _ _ _ _ Hw Hy) as (x & up & f & ps & H1 & H2 & [?|?]); [by left|right]. exists f. split; [by exists x, up, ps|done].
  - unfold plan_remove in Hw. destruct (find (plan b) id) as [[x up]|]; [|done]. injection Hw as <-. rewrite finish_board. cbn [plan]. intros Hy%settled_from.
    left. eapply from_trans; [exact Hy|]. intros z. apply removed_from.
Qed.

(** ** Todos *)

(** [t'] has an answer, and it is [t]'s, under [t]'s question when the owner gave it. *)
Definition same_answer (t t' : OwnerTodo) : Prop :=
  t_id t = t_id t' /\ t_reply t = t_reply t' /\ t_answeredByOwner t = t_answeredByOwner t' /\
  (t_answeredByOwner t' = true -> t_text t = t_text t' /\ joined (nullish (t_choices t) []) = joined (nullish (t_choices t') [])).
Definition answered (t : OwnerTodo) : Prop := t_answeredByOwner t = true \/ t_reply t <> None.

Lemma same_answer_refl t : same_answer t t.
Proof. done. Qed.

Lemma agent_edit_answer x d l c t : (t_answeredByOwner t && ((match x with Some x => negb (bool_decide (x = t_text t)) | None => false end) || new_choices c t)) = false ->
  same_answer t (todo_done d Keep t (todo_choices c t (todo_links l (todo_text x t (t, []))))).1.
Proof.
  intros Hasks. set (e1 := todo_text x t (t, [])). assert (same_answer t e1.1 /\ t_choices e1.1 = t_choices t) as [H1 Hc1].
  { subst e1. unfold todo_text, same_answer. destruct x as [x|]; [|done]. destruct (decide (x = t_text t)) as [Hx|Hx]; [done|]. cbn. split_and!; try done. intros Ha. rewrite Ha in Hasks.
    rewrite bool_decide_eq_false_2 in Hasks by done. done. }
  set (e2 := todo_links l e1). assert (same_answer t e2.1 /\ t_choices e2.1 = t_choices t) as [H2 Hc2] by (unfold e2, todo_links; destruct e1; by destruct l).
  set (e3 := todo_choices c t e2). assert (same_answer t e3.1) as H3.
  { unfold e3, todo_choices. destruct e2 as [n ps]. destruct (new_choices c t) eqn:Hn; [|done]. destruct H2 as (Hi & Hr & Ha & _). unfold same_answer. cbn in *. split_and!; try done.
    rewrite <- Ha. intros Ht. rewrite Ht, orb_true_r in Hasks. done. }
  unfold todo_done. destruct d as [d|]; [|done]. case_bool_decide; [done|]. exact H3.
Qed.

(** The plan's ops leave the todos. *)
Lemma plan_op_todos b op actor now t duties w : owner_op op = false -> applyBoardOp b op actor now t duties = Fine w -> todos (w_board w) = todos b.
Proof.
  intros Ho Hw. unfold applyBoardOp in Hw. destruct (_ && _); [done|]. destruct op as [items|parent i|id u|id|x c s l|id x d r l c|id]; try done.
  - unfold plan_set in Hw. apply bind_fine in Hw as (r & _ & [= <-]). by rewrite finish_board.
  - unfold plan_add in Hw. apply bind_fine in Hw as ([] & _ & ([] & _ & Hw)%bind_fine). destruct parent; [destruct (find _ _) as [[? ?]|]; [|done]|]; injection Hw as <-; by rewrite finish_board.
  - unfold plan_update in Hw. destruct (find (plan b) id) as [[x above]|]; [|done]. apply bind_fine in Hw as (to & _ & Hw). destruct (match to with Under _ _ => _ | _ => false end); [done|].
    apply bind_fine in Hw as (e & _ & Hw). destruct to; injection Hw as <-; by rewrite finish_board.
  - unfold plan_remove in Hw. destruct (find _ _) as [[? ?]|]; [|done]. injection Hw as <-. by rewrite finish_board.
Qed.

Lemma agent_op_answers b op now t duties w t' : applyBoardOp b op Agent now t duties = Fine w -> t' ∈ todos (w_board w) -> answered t' ->
  exists t0, t0 ∈ todos b /\ same_answer t0 t'.
Proof.
  intros Hw Ht' Ha. destruct (owner_op op) eqn:Ho.
  - unfold applyBoardOp in Hw. cbn [bool_decide] in Hw. rewrite Ho, andb_false_r in Hw. destruct op as [| | | |x c s l|id x d r l c|id]; try done.
    + unfold todo_add in Hw. apply bind_fine in Hw as ([] & _ & ([] & _ & [= <-])%bind_fine). rewrite finish_board in Ht'. cbn [todos nullish default] in Ht'.
      apply elem_of_app in Ht' as [Ht'|Ht']; [by exists t'|]. apply list_elem_of_singleton in Ht' as ->. by destruct Ha as [Ha|Ha]; cbn in Ha.
    + unfold todo_update in Hw. destruct (find_todo b id) as [td|] eqn:E; [|done]. destruct r as [| |r]; [|done|done]. cbn [andb] in Hw. rewrite andb_false_r in Hw.
      destruct (_ && _ && _) eqn:Hasks; [done|]. apply bind_fine in Hw as ([] & _ & [= <-]). rewrite finish_board in Ht'. cbn [todos nullish default] in Ht'.
      apply List.find_some in E as [Hin%list_elem_of_In Hid%bool_decide_eq_true]. apply list_elem_of_fmap in Ht' as (y & -> & Hy). case_decide as Hyid; [|by exists y].
      exists td. split; [done|]. apply agent_edit_answer. rewrite bool_decide_eq_true_2 in Hasks by done. exact Hasks.
    + unfold todo_remove in Hw. destruct (find_todo b id); [|done]. injection Hw as <-. rewrite finish_board in Ht'. cbn [todos nullish default] in Ht'.
      apply list_elem_of_filter in Ht' as [_ Ht']. by exists t'.
  - exists t'. split; [|done]. by rewrite (plan_op_todos _ _ _ _ _ _ _ Ho Hw) in Ht'.
Qed.

(** ** Ids given again *)

Lemma see_comm t a c : see (see t a) c = see (see t c) a.
Proof. unfold see. destruct (id_number a) as [[[] n]|], (id_number c) as [[[] m]|]; cbn; f_equal; lia. Qed.
Lemma seen_perm l l' t : l ≡ₚ l' -> fold_left see l t = fold_left see l' t.
Proof.
  intros Hp. revert t. induction Hp as [|x l l' _ IH|x y l|l1 l2 l3 _ IH1 _ IH2]; intros t; cbn; [done|apply IH|by rewrite see_comm|by rewrite IH1].
Qed.
Lemma idsTop_perm b b' : ids (plan b) ≡ₚ ids (plan b') -> map t_id (todos b) = map t_id (todos b') -> lastIds b = lastIds b' -> idsTop b = idsTop b'.
Proof. intros Hp Ht Hl. unfold idsTop. rewrite Ht, Hl. apply seen_perm. by rewrite Hp. Qed.

(** ** The theorems *)

Lemma apply_ops_well_formed ops actor now : forall b b' ss, well_formed b -> apply_ops b ops actor now = Fine (b', ss) ->
  well_formed b' /\ rev b' = rev b + Z.of_nat (length ops) /\ length ss = length ops.
Proof.
  induction ops as [|op ops IH]; intros b b' ss Hb; cbn [apply_ops length].
  - intros [= <- <-]. split_and!; [done|lia|done].
  - intros (w & Hw & ([b2 ss2] & Hr & [= <- <-])%bind_fine)%bind_fine. pose proof Hb as (Hnd & _). destruct (op_spec _ _ _ _ _ _ _ Hnd Hw) as (_ & _ & Hrev & _).
    destruct (IH _ _ _ (op_well_formed _ _ _ _ _ _ Hb Hw) Hr) as (H1 & H2 & H3). cbn in *. split_and!; [done|lia|lia].
Qed.





(** C17: only the owner answers: after any ops of the agent, an answer on a todo is the answer the same todo had before, and under an answer of the
    owner stand the question and the choices he answered. *)
Theorem only_the_owner_answers b ops now b' ss t' :
  apply_ops b ops Agent now = Fine (b', ss) -> t' ∈ todos b' -> answered t' -> exists t0, t0 ∈ todos b /\ same_answer t0 t'.
Proof.
  revert b b' ss. induction ops as [|op ops IH]; intros b b' ss; cbn [apply_ops].
  - intros [= <- <-] Ht' _. by exists t'.
  - intros (w & Hw & ([b2 ss2] & Hr & [= <- <-])%bind_fine)%bind_fine Ht' Ha. destruct (IH _ _ _ Hr Ht' Ha) as (t1 & Ht1 & H1).
    assert (answered t1) as Ha1. { destruct H1 as (_ & H1 & H2 & _), Ha as [Ha|Ha]; [left; congruence|right; congruence]. }
    destruct (agent_op_answers _ _ _ _ _ _ _ Hw Ht1 Ha1) as (t0 & Ht0 & Hs0). exists t0. split; [done|]. destruct Hs0 as (A1 & A2 & A3 & A4), H1 as (B1 & B2 & B3 & B4).
    split_and!; [congruence|congruence|congruence|]. intros Hown. destruct (B4 Hown) as [E1 E2]. destruct A4 as [E3 E4]; [congruence|]. split; congruence.
Qed.

(** [Boards.apply] gives a removed item's id to the next one: a step added, removed and another added have the same id, on any board, because
    no op writes [lastIds]. *)
Theorem removed_id_goes_to_next_item b i j now b' ss :
  well_formed b -> apply_ops b [PlanAdd None i; PlanRemove (newId P (idsTop b)).1; PlanAdd None j] Agent now = Fine (b', ss) ->
  ids (plan b') ≡ₚ (newId P (idsTop b)).1 :: ids (plan b).
Proof.
  intros Hb. pose proof Hb as (_ & _ & [Hl1 _]). destruct (idsTop_past b) as [Hpast [Hge1 _]]. cbn in Hl1. cbn [apply_ops]. intros (w1 & H1 & (r1 & (w2 & H2 & (r2 & (w3 & H3 & (r3 & [= <-] & [= <-])%bind_fine)%bind_fine & [= <-])%bind_fine)%bind_fine & [= <- <-])%bind_fine)%bind_fine. cbn [fst].
  pose proof (op_well_formed _ _ _ _ _ _ Hb H1) as Hb1. pose proof (op_well_formed _ _ _ _ _ _ Hb1 H2) as Hb2.
  destruct (op_spec _ _ _ _ _ _ _ (proj1 Hb) H1) as (P1 & T1 & _ & L1), (op_spec _ _ _ _ _ _ _ (proj1 Hb1) H2) as ((x & up & Hf & P2) & T2 & _ & L2), (op_spec _ _ _ _ _ _ _ (proj1 Hb2) H3) as (P3 & _ & _ & _).
  cbn in P1, T1, T2, P3.
  assert (ids [x] ≡ₚ [(newId P (idsTop b)).1]) as Hx.
  { apply find_Some in Hf as (Hid & Hx & _).
    unfold applyBoardOp in H1. rewrite bool_decide_eq_false_2 in H1 by done. cbn [andb] in H1.
    unfold plan_add in H1. apply bind_fine in H1 as ([] & _ & ([] & _ & [= <-])%bind_fine). rewrite finish_board in Hx. cbn [plan] in Hx.
    unfold settled in Hx. rewrite decide_True in Hx by done. rewrite (map_ext _ _ markMerge_tmap), tmap_nodes, reclosed_nodes, map_map in Hx.
    apply list_elem_of_fmap in Hx as (z & -> & Hz). rewrite nodes_app in Hz. apply elem_of_app in Hz as [Hz|Hz].
    - exfalso. assert (iid z ∈ ids (plan b)) as Hin by by apply iid_in. assert (iid z = (newId P (idsTop b)).1) as Hz'.
      { rewrite <- Hid. destruct z as [f ch]. rewrite reclosed_unfold. unfold iid. cbn [tmap fields]. destruct (reclose_fields_or (Item f ch)) as [->|(-> & _)]; by destruct (_ && _). }
      rewrite Hz' in Hin. apply (newId_fresh P (idsTop b) (ids (plan b))); [|intros q k n Hq; apply Hpast, elem_of_app; by left|done]. cbn. lia.
    - apply list_elem_of_singleton in Hz as ->. rewrite <- Hid. unfold ids, nodes. cbn [flat_map]. rewrite app_nil_r. rewrite reclosed_unfold. done. }
  assert (ids (plan (w_board w2)) ≡ₚ ids (plan b)) as P2'.
  { rewrite Hx in P2. rewrite P1 in P2. rewrite (Permutation_app_comm _ [_]) in P2. by apply Permutation_cons_inv in P2. }
  rewrite P3, P2'. assert (idsTop (w_board w2) = idsTop b) as -> by (apply idsTop_perm; [done|by rewrite T2, T1|by rewrite L2, L1]). done.
Qed.
End Spec.

(** ** Examples *)

Definition no_input (t : string) : Input := mkInput t None None None None None None None None false false None.
Definition step (id t : string) (s : PlanStatus) (go : bool) : Fields := mkFields id t s None None None None None go false None None None false.
Definition demo_board : ChatBoard :=
  mkBoard 3 [Item (step "p1" "ship it" Doing true) [Item (step "p2" "build the page" Todo false) []]]
    [mkTodo "t1" "ship?" true (Some "go") None Agent "0" (Some "p1") true None] "0" None.
Definition no_update : Update := mkUpdate Keep None None Keep Keep Keep Keep Keep false Keep Keep Keep Keep.

Lemma demo_board_ok : well_formed demo_board.
Proof. split_and!; [| |split; cbn; lia]; apply (bool_decide_unpack _); by vm_compute. Qed.

Definition demo_apply := @apply_ops demo_dates demo_rules.
Definition demo_op := @applyBoardOp demo_dates demo_rules.


Definition move_p2 : BoardOp := PlanUpdate "p2" (mkUpdate Clear (Some "build it") None Keep Keep Keep Keep Keep false Keep Keep Keep Keep).


Lemma only_the_owner_answers_witness :
  exists b' ss t', demo_apply demo_board [TodoUpdate "t1" None (Some false) Keep (Some []) Keep] Agent "1" = Fine (b', ss) /\ t' ∈ todos b' /\
    exists t0, t0 ∈ todos demo_board /\ same_answer t0 t'.
Proof.
  unfold demo_apply. destruct (apply_ops _ _ _ _) as [[b' ss]| |] eqn:E; [|by vm_compute in E|by vm_compute in E].
  destruct (todos b') as [|t' ts] eqn:Et; [by vm_compute in E; injection E as <- _|]. exists b', ss, t'. split; [done|]. rewrite Et. split; [by left|].
  apply (@only_the_owner_answers demo_dates demo_rules _ _ _ _ _ t' E); [rewrite Et; by left|].
  vm_compute in E. injection E as <- _. injection Et as <- _. by left.
Defined.

Lemma removed_id_goes_to_next_item_witness :
  exists b' ss, demo_apply demo_board [PlanAdd None (no_input "one"); PlanRemove "p3"; PlanAdd None (no_input "two")] Agent "1" = Fine (b', ss) /\
    ids (plan b') ≡ₚ "p3" :: ids (plan demo_board).
Proof.
  unfold demo_apply. destruct (apply_ops _ _ _ _) as [[b' ss]| |] eqn:E; [|by vm_compute in E|by vm_compute in E]. exists b', ss. split; [done|].
  exact (@removed_id_goes_to_next_item demo_dates demo_rules _ (no_input "one") (no_input "two") _ _ _ demo_board_ok E).
Defined.
