(* ===== verification/BoardGoals.v ===== *)
(** * Goals, their targets and the owner's go

    Theorems about [goalsByItem], [walkGoal], [openGoals], [storedTarget] and [stepGo]. *)

From S2P Require Import Prelude Board BoardText BoardTree.
From Stdlib Require Import QArith.QArith_base.
#[local] Open Scope string_scope.
#[local] Open Scope list_scope.
#[local] Open Scope Z_scope.

(** ** The goals of a plan *)

(** The goals strictly below an item. *)
Fixpoint goals_below (i : PlanItem) : list PlanItem :=
  match i with Item _ ch => flat_map (fun c => (if numberedGoal c then [c] else []) ++ goals_below c) ch end.
(** Every item that owns items: the top-level ones and the numbered goals. *)
Definition heads (p : list PlanItem) : list PlanItem := flat_map (fun t => t :: goals_below t) p.
Definition is_head (p : list PlanItem) (g : PlanItem) : Prop := g ∈ p \/ (g ∈ nodes p /\ numberedGoal g = true).

Lemma perm_shuffle {A} (a b c d : list A) : (a ++ b) ++ c ++ d ≡ₚ (a ++ c) ++ b ++ d.
Proof. rewrite <- !app_assoc. f_equiv. rewrite !app_assoc. f_equiv. apply Permutation_app_comm. Qed.

Definition walks (l : list PlanItem) : list PlanItem := flat_map walkGoal l.
(** What an item adds to its goal's walk. *)
Definition share (c : PlanItem) : list PlanItem := if numberedGoal c then [] else c :: down c.

Lemma share_eq c : share c = if numberedGoal c then [] else c :: down c.
Proof. done. Qed.
Lemma walks_app l l' : walks (l ++ l') = walks l ++ walks l'.
Proof. apply flat_map_app. Qed.

Lemma walks_one c : walks [c] = walkGoal c.
Proof. unfold walks. cbn [flat_map]. by rewrite app_nil_r. Qed.

Lemma walk_partition_item i : under i ≡ₚ walkGoal i ++ walks (goals_below i).
Proof.
  induction i as [f ch IH] using PlanItem_nested. unfold walkGoal. rewrite under_unfold. cbn [app]. f_equiv. cbn [down goals_below].
  change (flat_map (fun c => if numberedGoal c then [] else c :: down c) ch) with (flat_map share ch).
  induction IH as [|c l Hc _ IHl]; [done|]. cbn [flat_map]. rewrite nodes_cons, !walks_app, IHl, Hc. rewrite (share_eq c). destruct (numberedGoal c).
  - rewrite walks_one. cbn [app]. apply Permutation_app_swap_app.
  - apply (perm_shuffle (c :: down c) (walks (goals_below c)) (flat_map share l)).
Qed.

(** The pairs of [owned], for the item's own goal. *)
Definition tag (g : PlanItem) (l : list PlanItem) : list (string * PlanItem) := map (fun x => (iid x, g)) l.
Definition tagged (l : list PlanItem) : list (string * PlanItem) := flat_map (fun h => tag h (walkGoal h)) l.
Lemma tagged_app l l' : tagged (l ++ l') = tagged l ++ tagged l'.
Proof. apply flat_map_app. Qed.
Lemma tagged_one c : tagged [c] = tag c (walkGoal c).
Proof. unfold tagged. cbn [flat_map]. by rewrite app_nil_r. Qed.
Lemma tag_app g l l' : tag g (l ++ l') = tag g l ++ tag g l'.
Proof. apply map_app. Qed.
Lemma owned_item i : forall goal, owned goal i ≡ₚ tag (if numberedGoal i then i else goal) (walkGoal i) ++ tagged (goals_below i).
Proof.
  induction i as [f ch IH] using PlanItem_nested. intros goal. cbn [owned]. set (own := if numberedGoal (Item f ch) then Item f ch else goal). unfold walkGoal at 1. cbn [tag map app]. f_equiv.
  cbn [down goals_below]. fold (tag own). change (flat_map (fun c => if numberedGoal c then [] else c :: down c) ch) with (flat_map share ch). clearbody own.
  change (map (λ x, (iid x, own)) (flat_map share ch)) with (tag own (flat_map share ch)).
  induction IH as [|c l Hc _ IHl]; [done|]. cbn [flat_map]. rewrite Hc, IHl, !tagged_app, tag_app. rewrite (share_eq c). destruct (numberedGoal c).
  - rewrite tagged_one. cbn [app tag map]. apply Permutation_app_swap_app.
  - apply (perm_shuffle (tag own (c :: down c)) (tagged (goals_below c))).
Qed.

Lemma goals_below_spec i g : g ∈ goals_below i <-> (g ∈ nodes (children i) /\ numberedGoal g = true).
Proof.
  induction i as [f ch IH] using PlanItem_nested. cbn [goals_below children].
  induction IH as [|c l Hc _ IHl]; cbn [flat_map]; [split; [by intros ?%elem_of_nil|by intros [?%elem_of_nil _]]|].
  rewrite !elem_of_app, Hc, IHl, nodes_cons, elem_of_app. destruct c as [fc cc]. rewrite under_unfold, elem_of_cons. cbn [children].
  destruct (numberedGoal (Item fc cc)) eqn:E; [rewrite list_elem_of_singleton|rewrite elem_of_nil]; split; [|intros [[[->|?]|?] ?]; tauto| |intros [[[->|?]|?] ?]; [congruence|tauto|tauto]]; intuition (subst; tauto).
Qed.
Lemma heads_spec p g : g ∈ heads p <-> is_head p g.
Proof.
  unfold heads, is_head. induction p as [|t p IH]; cbn [flat_map]; [split; [by intros ?%elem_of_nil|by intros [?%elem_of_nil|[?%elem_of_nil _]]]|].
  rewrite elem_of_app, IH, elem_of_cons, goals_below_spec, nodes_cons, !elem_of_cons, elem_of_app. destruct t as [f ch]. rewrite under_unfold, elem_of_cons. cbn [children]. split; intros Hx.
  - tauto.
  - destruct Hx as [[->|?]|[[[->|?]|?] ?]]; tauto.
Qed.

Lemma fold_set_pairs {V} (l : list (string * V)) : NoDup (map fst l) -> fold_left (fun m kv => OMap.set kv.1 kv.2 m) l [] = l.
Proof.
  enough (forall m, NoDup (map fst (m ++ l)) -> fold_left (fun m kv => OMap.set kv.1 kv.2 m) l m = m ++ l) as H by (intros; by rewrite H).
  induction l as [|[k v] l IH]; intros m Hnd; cbn [fold_left fst snd]; [by rewrite app_nil_r|]. rewrite OMap.set_app_new.
  - rewrite IH; [by rewrite <- app_assoc|by rewrite <- app_assoc].
  - apply OMap.get_None. rewrite map_app in Hnd. apply NoDup_app in Hnd as (_ & Hd & _). intros Hk. apply (Hd k Hk). by left.
Qed.

Lemma owned_plan p : flat_map (fun t => owned t t) p ≡ₚ tagged (heads p).
Proof.
  unfold heads. induction p as [|t p IH]; [done|]. cbn [flat_map]. rewrite tagged_app, IH, owned_item. f_equiv. by destruct (numberedGoal t).
Qed.
Lemma heads_walk p : walks (heads p) ≡ₚ nodes p.
Proof.
  unfold heads. induction p as [|t p IH]; [done|]. cbn [flat_map]. rewrite walks_app, IH, nodes_cons, walk_partition_item. done.
Qed.
Lemma tagged_keys l : map fst (tagged l) = map iid (walks l).
Proof. unfold walks, tagged. induction l as [|h l IH]; [done|]. cbn [flat_map]. rewrite !map_app, IH. f_equal. unfold tag. by rewrite map_map. Qed.

Lemma goal_map p : NoDup (ids p) -> goalsByItem p = flat_map (fun t => owned t t) p /\ NoDup (OMap.keys (goalsByItem p)).
Proof.
  intros Hnd. assert (NoDup (map fst (flat_map (fun t => owned t t) p))) as Hn.
  { rewrite (owned_plan p), tagged_keys, heads_walk. exact Hnd. }
  unfold goalsByItem. rewrite fold_set_pairs by done. split; [done|exact Hn].
Qed.

(** ** Open goals *)

Lemma goals_of_spec i : forall top g, g ∈ goals_of top i <-> (g ∈ under i /\ numberedGoal g = true) \/ (top = true /\ g = i /\ open_item i = true /\ goalBelow i = false).
Proof.
  induction i as [f ch IH] using PlanItem_nested. intros top g. cbn [goals_of]. rewrite elem_of_app, under_unfold, elem_of_cons.
  assert (g ∈ flat_map (goals_of false) ch <-> g ∈ nodes ch /\ numberedGoal g = true) as ->.
  { induction IH as [|c l Hc _ IHl]; cbn [flat_map]; [split; [by intros ?%elem_of_nil|by intros [?%elem_of_nil _]]|]. rewrite elem_of_app, Hc, IHl, nodes_cons, elem_of_app.
    split; [intros [[?|[? _]]|?]; [tauto|done|tauto]|tauto]. }
  destruct (numberedGoal (Item f ch)) eqn:En; cbn [orb].
  - rewrite list_elem_of_singleton. split; [intros [->|?]; tauto|]. intros [[[->|?] ?]|(_ & -> & _)]; tauto.
  - destruct (top && open_item (Item f ch) && negb (goalBelow (Item f ch))) eqn:E.
    + rewrite !andb_true_iff, negb_true_iff in E. destruct E as [[-> Eo] Eb]. rewrite list_elem_of_singleton. split; [intros [->|?]; tauto|].
      intros [[[->|?] ?]|(_ & -> & _)]; [congruence|tauto|by left].
    + rewrite elem_of_nil. split; [intros [[]|?]; tauto|]. intros [[[->|?] ?]|(-> & -> & Ho & Hb)]; [congruence|tauto|]. rewrite Ho, Hb in E. done.
Qed.

(** two readings of a plan agree: on a plan with distinct ids, the goal [goalsByItem] gives an item is the one top-level item or numbered goal whose
    [walkGoal] visits it; the walks of those visit every item, each exactly once; and the open goals are the numbered goals and the open top-level items with no goal below. *)
Theorem goal_walks_partition_plan p :
  NoDup (ids p) ->
  (forall x g, x ∈ nodes p -> (OMap.get (iid x) (goalsByItem p) = Some g <-> is_head p g /\ x ∈ walkGoal g)) /\
  flat_map walkGoal (heads p) ≡ₚ nodes p /\
  (forall g, g ∈ heads p <-> is_head p g) /\
  (forall g, g ∈ openGoals p <-> (g ∈ nodes p /\ numberedGoal g = true) \/ (g ∈ p /\ open_item g = true /\ goalBelow g = false)).
Proof.
  intros Hnd. destruct (goal_map p Hnd) as [Hm Hk]. split_and!; [|apply heads_walk|apply heads_spec|].
  - intros x g Hx. assert (OMap.get (iid x) (goalsByItem p) = Some g <-> (iid x, g) ∈ goalsByItem p) as ->.
    { split; [apply OMap.get_elem|by apply OMap.elem_get]. }
    rewrite Hm, owned_plan. unfold tagged. rewrite list_elem_of_In, in_flat_map. split.
    + intros (h & Hh%list_elem_of_In & Ht%list_elem_of_In). unfold tag in Ht. apply list_elem_of_fmap in Ht as (y & [= Hid ->] & Hy). split; [by apply heads_spec|].
      assert (x = y) as ->; [|done]. apply (node_unique p); [done|done| |done]. rewrite <- heads_walk. unfold walks. apply list_elem_of_In, in_flat_map. exists h. by rewrite <- !list_elem_of_In.
    + intros [Hg%heads_spec Hw]. exists g. rewrite <- !list_elem_of_In. split; [done|]. unfold tag. apply list_elem_of_fmap. by exists x.
  - intros g. unfold openGoals. rewrite list_elem_of_In, in_flat_map. split.
    + intros (i & Hi%list_elem_of_In & Hg%list_elem_of_In). apply goals_of_spec in Hg as [[Hg ?]|(_ & -> & ? & ?)]; [left; split; [apply nodes_elem; by exists i|done]|by right].
    + intros [[(i & Hi & Hg)%nodes_elem Hn]|(Hg & Ho & Hb)]; [exists i|exists g]; rewrite <- !list_elem_of_In; (split; [done|]); apply goals_of_spec; [by left|by right].
Qed.

(** ** Targets *)

Section Go.
Context `{Dates, Rules}.

Lemma newerReading_or next k now : newerReading next (Some k) now = next \/
  (newerReading next (Some k) now = with_reading next k /\ metric k = metric next /\
   exists at_ c, measuredAt k = Some at_ /\ at_ <> "" /\ current k = Some c /\ after at_ now = false /\
     (forall n, measuredAt next = Some n -> n <> "" -> not_before n at_ = false)).
Proof.
  unfold newerReading. destruct (truthy (measuredAt k)) as [at_|] eqn:Ea; [|by left]. destruct (current k) as [c|] eqn:Ec; [|by left].
  case_bool_decide as Hm; [|by left]. cbn [negb]. destruct (after at_ now) eqn:Ef; [by left|]. destruct (match truthy (measuredAt next) with Some n => _ | None => _ end) eqn:En; [by left|].
  right. split_and!; [done|done|]. exists at_, c. unfold truthy in Ea. destruct (measuredAt k) as [s|]; [|done]. destruct (decide (s = "")) as [|Hs]; [done|]. injection Ea as ->. split_and!; try done.
  intros n Hn Hne. rewrite Hn in En. cbn in En. rewrite decide_False in En by done. done.
Qed.

(** a stored target keeps what was known: its metric, number and unit are the op's; its direction is the op's, else the stored one, and never another; a
    reading of the same metric taken by now is never replaced by an older one; and writing the same target again changes nothing. *)
Theorem stored_target_keeps_direction_and_reading next k now :
  let s := storedTarget next (Some k) now in
  (metric s = metric next /\ target s = target next /\ unit_ s = unit_ next) /\
  (forall d, orelse (direction next) (direction k) = Some d -> direction s = Some d) /\
  (forall at_ x n c, measuredAt k = Some at_ -> at_ <> "" -> current k = Some c -> metric k = metric next ->
     Date_parse at_ = Some x -> Date_parse now = Some n -> x <= n ->
     exists at' y, measuredAt s = Some at' /\ Date_parse at' = Some y /\ x <= y) /\
  storedTarget next (Some s) now = s.
Proof.
  intros s.
  assert (forall g (o : option Direction), let r := match o with Some d => set_direction d g | None => g end in
    metric r = metric g /\ target r = target g /\ unit_ r = unit_ g /\ measuredAt r = measuredAt g /\ current r = current g /\ source r = source g /\ daily r = daily g) as Hset by (by intros g [d|]).
  assert (let g := newerReading next (Some k) now in metric g = metric next /\ target g = target next /\ unit_ g = unit_ next /\ direction g = direction next) as (G1 & G2 & G3 & G4).
  { cbv zeta. destruct (newerReading_or next k now) as [->|(-> & _)]; done. }
  unfold s, storedTarget in *. set (g := newerReading next (Some k) now) in *. cbn [mbind option_bind].
  set (o := orelse (orelse (direction next) (direction k)) (inferredDirection (target g) (current g))) in *.
  destruct (Hset g o) as (S1 & S2 & S3 & S4 & S5 & S6 & S7). split_and!; [congruence|congruence|congruence| | |].
  - intros d Hd. unfold o. by rewrite Hd.
  - intros at_ x n c Hat Hne Hc Hm Hx Hn Hle. rewrite S4. unfold g. unfold newerReading. rewrite Hat, Hc. cbn [truthy]. rewrite decide_False by done.
    rewrite bool_decide_eq_true_2 by done. cbn [negb]. unfold after. rewrite Hx, Hn. replace (n <? x) with false by (symmetry; apply Z.ltb_ge; lia).
    destruct (truthy (measuredAt next)) as [m|] eqn:Em; [|by exists at_, x]. unfold not_before. rewrite Hx. destruct (Date_parse m) as [y|] eqn:Ey; [|by exists at_, x].
    destruct (x <=? y) eqn:El; [|by exists at_, x]. apply Z.leb_le in El. exists m, y. split_and!; [|done|done]. unfold truthy in Em. destruct (measuredAt next); [|done]. by case_decide.
  - set (r := match o with Some d => set_direction d g | None => g end) in *. 
    assert (newerReading next (Some r) now = next \/ newerReading next (Some r) now = with_reading next r) as Hcase by (destruct (newerReading_or next r now) as [?|[? _]]; tauto).
    assert (current (newerReading next (Some r) now) = current g /\ measuredAt (newerReading next (Some r) now) = measuredAt g /\ source (newerReading next (Some r) now) = source g) as Hreading.
    { destruct (newerReading_or next k now) as [Hg|(Hg & Hm & at_ & c & Hat & Hne & Hc & Hf & Hold)]; fold g in Hg.
      - rewrite Hg. destruct Hcase as [->| ->]; [done|]. unfold with_reading. cbn [current measuredAt source]. rewrite S4, S5, S6, Hg. split_and!; [done|done|]. by destruct (source next).
      - assert (newerReading next (Some r) now = with_reading next r) as ->.
        { unfold newerReading. rewrite S4, S5, S1, Hg. cbn [measuredAt current metric with_reading]. rewrite Hat, Hc. cbn [truthy]. rewrite decide_False by done.
          rewrite bool_decide_eq_true_2 by done. cbn [negb]. rewrite Hf. destruct (truthy (measuredAt next)) as [m|] eqn:Em; [|done].
          unfold truthy in Em. destruct (measuredAt next) as [m'|]; [|done]. case_decide; [done|]. injection Em as ->. by rewrite Hold. }
        unfold with_reading at 1 2 3. cbn [current measuredAt source]. rewrite S4, S5, S6, Hg. cbn. split_and!; [done|done|]. by destruct (source k), (source next). }
    destruct Hreading as (R1 & R2 & R3).
    assert (metric (newerReading next (Some r) now) = metric next /\ target (newerReading next (Some r) now) = target next /\ unit_ (newerReading next (Some r) now) = unit_ next /\
      daily (newerReading next (Some r) now) = daily next /\ direction (newerReading next (Some r) now) = direction next) as (R4 & R5 & R6 & R7 & R8) by (destruct Hcase as [->| ->]; done).
    assert (daily g = daily next) as G5 by (unfold g; destruct (newerReading_or next k now) as [->|(-> & _)]; done).
    assert (direction r = match o with Some _ => o | None => direction next end) as Hdr by (unfold r; destruct o; done).
    assert (orelse (orelse (direction next) (direction r)) (inferredDirection (target (newerReading next (Some r) now)) (current (newerReading next (Some r) now))) = o) as ->.
    { rewrite R5, R1, <- G2, Hdr. unfold o. destruct (direction next); [done|]. destruct (direction k); [done|]. cbn [orelse]. by destruct (inferredDirection _ _). }
    destruct (newerReading next (Some r) now), g, r as [] eqn:Er. unfold r in Er. cbn in *. subst. destruct o; cbn in *; congruence.
Qed.

(** ** The owner's go *)

Lemma last_such_spec p l t : last_such p l = Some t -> exists l1 l2, l = l1 ++ t :: l2 /\ p t = true /\ Forall (fun x => p x = false) l2.
Proof.
  unfold last_such. induction l as [|x l IH]; [done|]. rewrite filter_cons. case_decide as Hx.
  - destruct (base.filter (λ t0, p t0 = true) l) as [|y r] eqn:E.
    + cbn. intros [= ->]. exists [], l. split_and!; [done|done|]. apply Forall_forall. intros z Hz. destruct (p z) eqn:Ez; [|done].
      assert (z ∈ base.filter (fun t => p t = true) l) as Hin by by apply list_elem_of_filter. rewrite E in Hin. by apply elem_of_nil in Hin.
    + change (last (x :: y :: r)) with (last (y :: r)). intros (l1 & l2 & -> & ? & ?)%IH. exists (x :: l1), l2. done.
  - intros (l1 & l2 & -> & ? & ?)%IH. exists (x :: l1), l2. done.
Qed.
Lemma last_answered p ts t : last_such p (base.filter (fun t => t_answeredByOwner t = true) ts) = Some t ->
  exists l1 l2, ts = l1 ++ t :: l2 /\ t_answeredByOwner t = true /\ p t = true /\ Forall (fun x => t_answeredByOwner x && p x = false) l2.
Proof.
  intros Hl. assert (last_such (fun t => t_answeredByOwner t && p t) ts = Some t) as Hl'.
  { unfold last_such in *. rewrite <- Hl. f_equal. clear Hl. induction ts as [|x ts IH]; [done|]. destruct (t_answeredByOwner x) eqn:E.
    - rewrite (filter_cons_True (fun t => t_answeredByOwner t = true)) by done. destruct (p x) eqn:Ep; [rewrite !filter_cons_True|rewrite !filter_cons_False]; rewrite ?E, ?Ep; try done. by rewrite IH.
    - rewrite (filter_cons_False (fun t => t_answeredByOwner t = true)) by congruence. rewrite filter_cons_False by by rewrite E. done. }
  apply last_such_spec in Hl' as (l1 & l2 & -> & [Ha Hp]%andb_true_iff & Hf). by exists l1, l2.
Qed.

(** The last todo of the owner's answers that [p] holds of. *)
Definition decided_by (ts : list OwnerTodo) (p : OwnerTodo -> bool) (t : OwnerTodo) : Prop :=
  exists l1 l2, ts = l1 ++ t :: l2 /\ t_answeredByOwner t = true /\ p t = true /\ Forall (fun x => t_answeredByOwner x && p x = false) l2.

(** no go but the owner's last word: a step's go is a todo the owner answered with an approval, and no later answer of his on the step says go or
    hold; a merge step's go needs, for every PR it merges, a checked and approved todo that names the PR and, for a push, the branch, with no later deciding
    answer on that PR or the step. *)
Theorem go_is_the_owners_last_word ts i t :
  stepGo ts i = Some t ->
  t ∈ ts /\ t_answeredByOwner t = true /\
  (mergeStep (f_text i) = false ->
     approves (nullish (t_reply t) "") (nullish (t_choices t) []) = true /\
     decided_by ts (fun x => coversStep x i && goOrHold (nullish (t_reply x) "") (nullish (t_choices x) [])) t) /\
  (mergeStep (f_text i) = true -> forall pr, pr ∈ mergedPrs (f_text i) ->
     exists g, decided_by ts (fun x => (linksStep x (f_id i) || namesPr (t_text x) pr) && decides x) g /\ approvedTodo g = true /\ namesPr (t_text g) pr = true /\
       forall b, pushBranch (f_text i) = Some b -> names_push b (t_text g) = true).
Proof.
  assert (forall p u, last_such p (base.filter (fun t => t_answeredByOwner t = true) ts) = Some u -> u ∈ ts /\ t_answeredByOwner u = true) as Hin.
  { intros p u (l1 & l2 & -> & Ha & _)%last_answered. split; [|done]. apply elem_of_app. right. by left. }
  unfold stepGo. destruct (mergeStep (f_text i)) eqn:Em; cbn [negb].
  - destruct (mergedPrs (f_text i)) as [|pr prs] eqn:Ep.
    + destruct (last_such _ _) as [u|] eqn:El; [|done]. destruct (go_counts _ _ _); [|done]. intros [= ->]. apply Hin in El as [? ?]. split_and!; [done|done|done|]. by intros _ pr ?%elem_of_nil.
    + destruct (forallb _ _) eqn:Ef; [|done]. intros Hl. apply Hin in Hl as [? ?]. split_and!; [done|done|done|]. intros _ q Hq. rewrite forallb_forall in Ef.
      specialize (Ef q (proj1 (list_elem_of_In _ _) Hq)). destruct (last_such (fun t => (linksStep t (f_id i) || namesPr (t_text t) q) && decides t) _) as [g|] eqn:Eg; [|done].
      exists g. apply last_answered in Eg. unfold go_counts in Ef. rewrite !andb_true_iff in Ef. destruct Ef as [[E1 E2] E3]. split_and!; [done|done|done|]. intros b Hb. by rewrite Hb in E3.
  - destruct (last_such _ _) as [u|] eqn:El; [|done]. destruct (approves _ _) eqn:Ea; [|done]. intros [= ->]. pose proof (Hin _ _ El) as [? ?]. apply last_answered in El. split_and!; [done|done|done|done].
Qed.
End Go.

(** ** Examples *)

Definition goal_fields (id : string) (g : option GoalTarget) : Fields := mkFields id id Todo None None None None None false false None g None false.
Definition speed : GoalTarget := mkTarget "speed" (inject_Z 200) "Mbps" (Some (inject_Z 8)) (Some "5") (Some "probe") false (Some Up).
Definition demo_plan : list PlanItem := [Item (goal_fields "p1" None) [Item (goal_fields "p2" (Some speed)) [Item (goal_fields "p3" None) []]; Item (goal_fields "p4" None) []]].

Lemma goal_walks_partition_plan_witness :
  NoDup (ids demo_plan) /\ map iid (flat_map walkGoal (heads demo_plan)) = ["p1"; "p4"; "p2"; "p3"] /\ flat_map walkGoal (heads demo_plan) ≡ₚ nodes demo_plan.
Proof.
  assert (NoDup (ids demo_plan)) as Hnd by (apply (bool_decide_unpack _); by vm_compute). split; [done|]. split; [by vm_compute|].
  exact (proj1 (proj2 (goal_walks_partition_plan demo_plan Hnd))).
Defined.

Lemma stored_target_keeps_direction_and_reading_witness :
  let next := mkTarget "speed" (inject_Z 300) "Mbps" (Some (inject_Z 6)) (Some "4") (Some "old probe") false None in
  exists at' y, measuredAt (@storedTarget demo_dates next (Some speed) "9") = Some at' /\ demo_dates at' = Some y /\ 5 <= y.
Proof.
  intros next. exact (proj1 (proj2 (proj2 (@stored_target_keeps_direction_and_reading demo_dates next speed "9"))) "5" 5 9 (inject_Z 8) eq_refl ltac:(done) eq_refl eq_refl eq_refl eq_refl ltac:(lia)).
Defined.

Definition asked (id reply : string) : OwnerTodo := mkTodo id "ship p1?" true (Some reply) None Agent "0" (Some "p1") true None.
Lemma go_is_the_owners_last_word_witness :
  @stepGo demo_rules [asked "t1" "go"; asked "t2" "not yet"] (goal_fields "p1" None) = None /\
  @stepGo demo_rules [asked "t1" "not yet"; asked "t2" "go"] (goal_fields "p1" None) = Some (asked "t2" "go") /\
  asked "t2" "go" ∈ [asked "t1" "not yet"; asked "t2" "go"].
Proof.
  split; [by vm_compute|]. assert (@stepGo demo_rules [asked "t1" "not yet"; asked "t2" "go"] (goal_fields "p1" None) = Some (asked "t2" "go")) as Hg by by vm_compute.
  split; [exact Hg|]. exact (proj1 (@go_is_the_owners_last_word demo_rules _ _ _ Hg)).
Defined.
