(* ===== verification/BoardView.v ===== *)
(** * The board as the agent reads it, and the asks that close

    The rest of [apps/chat/web/src/lib/api/shared/chat-board.ts] around the reducer: [renderOpenPlan] and the
    counts, the requirements check, and what a write does after its ops: [releaseClosedAsks] and [linkStepSessions]. *)

From S2P Require Import Prelude Board BoardText BoardFlags BoardOps BoardTree.
#[local] Open Scope string_scope.
#[local] Open Scope list_scope.
#[local] Open Scope Z_scope.

(** ** Counts *)

Definition planCounts (p : list PlanItem) : nat * nat :=
  fold_left (fun c i => if decide (status i = Dropped) then c else ((if decide (status i = Done) then S c.1 else c.1), S c.2)) (nodes p) (O, O).
Definition boardRevLine (b : ChatBoard) : string :=
  "Board rev " +:+ string_of_Z (rev b) +:+ ": " +:+ num (openCount (plan b)) +:+ " open steps, " +:+
  num (length (base.filter (fun t => t_done t = false) (todos b))) +:+ " open todos.".

(** ** The requirements check *)

(** [above] is outermost first. *)
Definition buildGoal (i : PlanItem) (above : list PlanItem) : PlanItem :=
  match List.find (fun g => bool_decide (f_requirements (fields g) <> None)) (List.rev above) with
  | Some g => g
  | None => nullish (last above) i
  end.
Definition requirement_status (s : RequirementStatus) : string := match s with Met => "met" | Unmet => "unmet" | OpenLine => "open" end.
Definition line_gap (k : nat) (r : Requirement) : option string :=
  let blank o := bool_decide (trim (nullish o "") = "") in
  let name := "line " +:+ num (S k) +:+ " " +:+ quote (r_text r) in
  if decide (r_status r = Met) then if blank (r_evidence r) then Some (name +:+ " is met with no evidence") else None
  else if blank (r_note r) then Some (name +:+ " is " +:+ requirement_status (r_status r) +:+ " with no note") else None.
Definition requirementGaps (f : Fields) : option string :=
  match nullish (f_requirements f) [] with
  | [] => Some "has no requirements list"
  | lines =>
      match omap id (imap line_gap lines) with
      | [] => None
      | gaps => Some ("fails its requirements check: " +:+ String.concat "; " gaps)
      end
  end.

(** ** [renderOpenPlan] *)

Fixpoint hasOpen (i : PlanItem) : bool := match i with Item _ ch => open_item i || existsb hasOpen ch end.

Record Shown := mkShown { shown : list (PlanItem * nat); hidden_steps : nat; hidden_notes : nat }.
Definition show_app (a b : Shown) : Shown := mkShown (shown a ++ shown b) (hidden_steps a + hidden_steps b)%nat (hidden_notes a + hidden_notes b)%nat.
Definition show_none : Shown := mkShown [] 0 0.
Definition has_notes (f : Fields) : bool := bool_decide (truthy (f_note f) <> None) || negb (bool_decide (nullish (f_requirements f) [] = [])).

Fixpoint visit (depth : nat) (i : PlanItem) : Shown :=
  match i with
  | Item f ch =>
      if negb (hasOpen i) then mkShown [] (count [i]) 0
      else show_app (mkShown [(i, depth)] 0 (if has_notes f then 1 else 0)) (fold_left (fun s c => show_app s (visit (S depth) c)) ch show_none)
  end.
Definition visit_all (depth : nat) (l : list PlanItem) : Shown := fold_left (fun s c => show_app s (visit depth c)) l show_none.

Definition MARKS (s : PlanStatus) : string := match s with Todo => "[ ]" | Doing => "[~]" | Done => "[x]" | Blocked => "[!]" | Dropped => "[-]" end.
Fixpoint repeat_text (s : string) (n : nat) : string := match n with O => "" | S n => s +:+ repeat_text s n end.

Section View.
Context `{Dates, Rules}.

Definition marks (ts : list OwnerTodo) (f : Fields) : list string :=
  (match truthy (f_job f) with
   | Some j => ["job " +:+ j +:+ (match truthy (f_sessionId f) with Some s => if decide (s = j) then "" else " (thread:" +:+ s +:+ ")" | None => "" end)]
   | None => match truthy (f_sessionId f) with Some s => ["thread:" +:+ s] | None => [] end
   end) ++
  (match truthy (f_waitUntil f) with Some w => ["waits until " +:+ w] | None => [] end) ++
  (match truthy (f_waitFor f) with Some w => ["waits for " +:+ w] | None => [] end) ++
  say (isBuildStep f) "build" ++
  (if needsGo standing_go f then [match stepGo ts f with Some t => "owner's go on " +:+ t_id t | None => "needs owner's go" end] else []) ++
  (match f_target f with Some g => [targetText g] | None => [] end) ++
  (match truthy (f_duty f) with Some d => ["fixes " +:+ d] | None => [] end).
Definition item_line (ts : list OwnerTodo) (x : PlanItem * nat) : string :=
  let f := fields x.1 in
  repeat_text "  " (S x.2) +:+ MARKS (f_status f) +:+ " " +:+ f_id f +:+ " " +:+ f_text f +:+
  (match marks ts f with [] => "" | l => " (" +:+ comma l +:+ ")" end).
Definition actor_text (a : BoardActor) : string := match a with Agent => "agent" | Owner => "owner" end.
Definition todo_line (t : OwnerTodo) : string :=
  "  [ ] " +:+ t_id t +:+ " " +:+ t_text t +:+ " (from " +:+ actor_text (t_from t) +:+ (match truthy (t_step t) with Some s => ", for " +:+ s | None => "" end) +:+ ")" +:+
  (match t_choices t with Some c => ", choices: " +:+ quotes c | None => "" end) +:+
  (match nullish (t_links t) [] with [] => "" | l => ", links: " +:+ String.concat " " (map l_target l) end).

Definition renderOpenPlan (board : option ChatBoard) (sessionId checkIn : option string) : list string :=
  let lead := (match truthy sessionId with Some s => ["This chat: thread:" +:+ s] | None => [] end) ++ (match truthy checkIn with Some c => [c] | None => [] end) in
  match board with
  | None => lead ++ ["The board is empty: no plan, no todos."]
  | Some b =>
      let s := visit_all 0 (plan b) in
      let open := base.filter (fun t => t_done t = false) (todos b) in
      lead ++ ["Board rev " +:+ string_of_Z (rev b) +:+ ". Open plan (goals and steps not done):"] ++
      (match shown s with [] => ["  (none)"] | l => map (item_line (todos b)) l end) ++
      [match open with [] => "Owner todos open: none" | _ => "Owner todos open:" end] ++ map todo_line open ++
      ["Not shown: " +:+ num (hidden_steps s) +:+ " done or dropped steps, " +:+ num (length (todos b) - length open) +:+ " answered todos, " +:+
       num (hidden_notes s) +:+ " step notes and requirements. Read them with board.get(id), board.done(), board.todos(all=True) in Python."]
  end.

(** ** Asks that close *)

Definition closed_asks (before after : list OwnerTodo) : list OwnerTodo :=
  flat_map (fun t =>
    if t_done t then []
    else match List.find (fun e => bool_decide (t_id e = t_id t)) after with
         | None => [t]
         | Some n => if t_done n then [n] else []
         end) before.

Definition waits_on (t : OwnerTodo) (f : Fields) : bool :=
  names_id (t_id t) (nullish (f_waitFor f) "") ||
  (linksStep t (f_id f) && match f_waitFor f with None => true | Some w => OWNER_WAIT (firstClause w) end).
Definition owned_step (f : Fields) : bool := bool_decide (f_job f <> None) || bool_decide (f_sessionId f <> None).
(** The closed todo a step is handed back for. *)
Definition frees (closed : list OwnerTodo) (f : Fields) : option OwnerTodo :=
  match (if is_open (f_status f) then List.find (fun t => waits_on t f) closed else None) with
  | None => None
  | Some t => if bool_decide (f_waitFor f = None) && negb (bool_decide (f_status f = Blocked)) && owned_step f then None else Some t
  end.

Definition answer_text (t : OwnerTodo) : string := match truthy (t_reply t) with Some r => "the owner answered " +:+ quote r | None => "with no answer" end.
Definition freed (chatId clock : string) (t : OwnerTodo) (f : Fields) : Fields :=
  mkFields (f_id f) (f_text f) (if decide (f_status f = Blocked) then Todo else f_status f) (f_job f)
    (Some (t_id t +:+ " closed at " +:+ clock +:+ " " +:+ answer_text t +:+ ", so this step waits on nothing and is the chat's to move." +:+
           (match truthy (f_note f) with Some n => " " +:+ n | None => "" end)))
    (f_waitUntil f) None (if owned_step f then f_sessionId f else Some chatId) (f_go f) (f_build f) (f_requirements f) (f_target f) (f_duty f) (f_reopened f).
Definition freed_text (t : OwnerTodo) (f : Fields) : string :=
  f_id f +:+ " " +:+ quote (f_text f) +:+ " waited on " +:+ t_id t +:+ ", which closed " +:+ answer_text t +:+ ": it waits on nothing now and is " +:+
  (if owned_step f then "its owner's" else "the chat's") +:+ "; give it its next state (a job, a new For you todo, or done)".

(** [release]: the steps below before the step. *)
Fixpoint release (chatId clock : string) (closed : list OwnerTodo) (i : PlanItem) : PlanItem * list string :=
  match i with
  | Item f ch =>
      let r := map (release chatId clock closed) ch in
      match frees closed f with
      | Some t => (Item (freed chatId clock t f) (map fst r), flat_map snd r ++ [freed_text t f])
      | None => (Item f (map fst r), flat_map snd r)
      end
  end.

(** [now.slice(11, 16) + Z]. *)
Definition clock_of (now : string) : string := String.substring 11 5 now +:+ "Z".
Definition releaseClosedAsks (before after : ChatBoard) (chatId now : string) : option (ChatBoard * list string) :=
  match closed_asks (todos before) (todos after) with
  | [] => None
  | closed =>
      let r := map (release chatId (clock_of now) closed) (plan after) in
      match flat_map snd r with
      | [] => None
      | summaries => Some (mkBoard (rev after + 1) (map fst r) (todos after) now (lastIds after), summaries)
      end
  end.

(** ** [linkStepSessions] *)

Definition links_own (links : list (string * (string * string))) (f : Fields) : option string :=
  match OMap.get (f_id f) links with
  | Some (job, session) => if bool_decide (truthy (f_sessionId f) = None) && bool_decide (f_job f = Some job) then Some session else None
  | None => None
  end.
Fixpoint link_item (links : list (string * (string * string))) (i : PlanItem) : PlanItem :=
  match i with Item f ch => Item (match links_own links f with Some s => set_job (f_job f) (Some s) f | None => f end) (map (link_item links) ch) end.
Definition linkStepSessions (b : ChatBoard) (links : list (string * (string * string))) (now : string) : option ChatBoard :=
  if existsb (fun i => bool_decide (links_own links (fields i) <> None)) (nodes (plan b))
  then Some (mkBoard (rev b + 1) (map (link_item links) (plan b)) (todos b) now (lastIds b)) else None.
End View.

(** ** Lemmas *)

Lemma show_app_none s : show_app show_none s = s.
Proof. by destruct s. Qed.
Lemma show_app_assoc a b c : show_app a (show_app b c) = show_app (show_app a b) c.
Proof. unfold show_app. cbn. f_equal; [by rewrite app_assoc|lia|lia]. Qed.
Lemma fold_show (g : PlanItem -> Shown) l : forall s, fold_left (fun s c => show_app s (g c)) l s = show_app s (fold_left (fun s c => show_app s (g c)) l show_none).
Proof.
  induction l as [|c l IH]; intros s; cbn [fold_left]; [unfold show_app; destruct s; cbn; f_equal; [by rewrite app_nil_r|lia|lia]|].
  rewrite IH, (IH (show_app show_none (g c))), show_app_none. by rewrite show_app_assoc.
Qed.
Lemma visit_all_cons d c l : visit_all d (c :: l) = show_app (visit d c) (visit_all d l).
Proof. unfold visit_all. cbn [fold_left]. by rewrite fold_show, show_app_none. Qed.
Lemma visit_unfold d f ch : visit d (Item f ch) =
  if negb (hasOpen (Item f ch)) then mkShown [] (count [Item f ch]) 0
  else show_app (mkShown [(Item f ch, d)] 0 (if has_notes f then 1 else 0)) (visit_all (S d) ch).
Proof. done. Qed.

Lemma hasOpen_under x y : x ∈ under y -> hasOpen x = true -> hasOpen y = true.
Proof.
  induction y as [f ch IH] using PlanItem_nested. rewrite under_unfold. intros [->|Hx]%elem_of_cons Ho; [done|]. cbn [hasOpen]. apply orb_true_iff. right.
  apply nodes_elem in Hx as (c & Hc & Hx). apply existsb_exists. exists c. split; [by apply list_elem_of_In|]. rewrite Forall_forall in IH. by apply IH.
Qed.
Lemma walk_item_nodes i : forall d, map fst (walk_item d i) = under i.
Proof.
  induction i as [f ch IH] using PlanItem_nested. intros d. cbn [walk_item under map fst]. f_equal.
  induction IH as [|c l Hc _ IHl]; [done|]. cbn [flat_map]. by rewrite map_app, Hc, IHl.
Qed.
Lemma filter_none {A} (p : A -> bool) l : (forall x, x ∈ l -> p x = false) -> base.filter (fun x => p x = true) l = [].
Proof.
  induction l as [|x l IH]; [done|]. intros Hp. rewrite filter_cons_False; [apply IH; intros y Hy; apply Hp; by right|]. rewrite (Hp x) by by left. done.
Qed.

(** What the pruned walk shows is the full walk's items that are open or hold an open one. *)
Lemma visit_shows i : forall d, shown (visit d i) = base.filter (fun x => hasOpen x.1 = true) (walk_item d i) /\ (length (shown (visit d i)) + hidden_steps (visit d i) = length (under i))%nat.
Proof.
  induction i as [f ch IH] using PlanItem_nested. intros d. rewrite visit_unfold. destruct (hasOpen (Item f ch)) eqn:Ho; cbn [negb].
  - assert (forall e, shown (visit_all e ch) = base.filter (fun x => hasOpen x.1 = true) (flat_map (walk_item e) ch) /\ (length (shown (visit_all e ch)) + hidden_steps (visit_all e ch) = length (nodes ch))%nat) as Hch.
    { intros e. clear Ho. induction IH as [|c l Hc _ IHl]; [done|]. rewrite visit_all_cons. cbn [shown hidden_steps show_app flat_map]. destruct (Hc e) as [E1 E2], IHl as [E3 E4].
      rewrite filter_app, E1, E3, nodes_cons, !length_app. rewrite E1 in E2. rewrite E3 in E4. split; [done|lia]. }
    destruct (Hch (S d)) as [E1 E2]. cbn [shown hidden_steps show_app walk_item]. rewrite E1 in *. rewrite filter_cons_True by done. cbn [app length]. rewrite under_unfold. split; [done|]. cbn [length]. lia.
  - cbn [shown hidden_steps]. split.
    + symmetry. apply (filter_none (fun x : PlanItem * nat => hasOpen x.1)). intros x Hx. destruct (hasOpen x.1) eqn:E; [|done].
      assert (x.1 ∈ under (Item f ch)) as Hu by (rewrite <- (walk_item_nodes _ d); by apply list_elem_of_fmap_2). by rewrite (hasOpen_under _ _ Hu E) in Ho.
    + cbn [length]. unfold count, nodes. cbn [flat_map]. by rewrite app_nil_r.
Qed.
Lemma visit_all_shows d p : shown (visit_all d p) = base.filter (fun x => hasOpen x.1 = true) (flat_map (walk_item d) p) /\ (length (shown (visit_all d p)) + hidden_steps (visit_all d p) = count p)%nat.
Proof.
  unfold count. induction p as [|c l IHl]; [done|]. rewrite visit_all_cons. cbn [shown hidden_steps show_app flat_map]. destruct (visit_shows c d) as [E1 E2], IHl as [E3 E4].
  rewrite filter_app, E1, E3, nodes_cons, !length_app. rewrite E1 in E2. rewrite E3 in E4. split; [done|lia].
Qed.

(** the agent's checklist leaves out nothing open: the items [renderOpenPlan] shows are the items of the full walk, in its order and at its depth,
    that are open or hold an open item, every open item is among them, and the steps it counts as not shown are all the others. *)
Theorem open_plan_is_the_filtered_walk p :
  let s := visit_all 0 p in
  shown s = base.filter (fun x => hasOpen x.1 = true) (walk p) /\
  (forall x, x ∈ nodes p -> open_item x = true -> x ∈ map fst (shown s)) /\
  (length (shown s) + hidden_steps s = count p)%nat.
Proof.
  intros s. destruct (visit_all_shows 0 p) as [E1 E2]. split_and!; [done| |done]. intros x Hx Ho. unfold s. rewrite E1.
  assert (exists d, (x, d) ∈ flat_map (walk_item 0) p) as [d Hd].
  { apply nodes_elem in Hx as (i & Hi & Hx). rewrite <- (walk_item_nodes i 0) in Hx. apply list_elem_of_fmap in Hx as ([x' d] & -> & Hx). exists d.
    apply list_elem_of_In, in_flat_map. exists i. by rewrite <- !list_elem_of_In. }
  apply list_elem_of_fmap. exists (x, d). split; [done|]. apply list_elem_of_filter. split; [|done]. destruct x as [f ch]. cbn [fst hasOpen]. by rewrite Ho.
Qed.

Section Asks.
Context `{Dates, Rules} (chatId clock : string) (closed : list OwnerTodo).
Local Abbreviation release := (release chatId clock closed).

Definition let_go (i : PlanItem) : PlanItem := (release i).1.
Definition freed_fields (i : PlanItem) : Fields := match frees closed (fields i) with Some t => freed chatId clock t (fields i) | None => fields i end.
Lemma let_go_unfold f ch : let_go (Item f ch) = Item (freed_fields (Item f ch)) (map let_go ch).
Proof. unfold let_go, freed_fields. cbn [BoardView.release fields]. rewrite map_map. by destruct (frees closed f). Qed.
Lemma let_go_nodes l : nodes (map let_go l) = map let_go (nodes l).
Proof. apply (under_map_nodes let_go freed_fields), let_go_unfold. Qed.
Lemma freed_frees t f : is_open (f_status f) = true -> frees closed (freed chatId clock t f) = None.
Proof.
  intros Ho. unfold frees. destruct (if is_open _ then _ else _) as [u|]; [|done]. unfold freed, owned_step. cbn [f_waitFor f_status f_job f_sessionId].
  assert (bool_decide ((if decide (f_status f = Blocked) then Todo else f_status f) = Blocked) = false) as ->.
  { apply bool_decide_eq_false. by destruct (decide (f_status f = Blocked)). }
  rewrite bool_decide_eq_true_2 by done. cbn [negb andb]. unfold owned_step. destruct (bool_decide (f_job f <> None) || bool_decide (f_sessionId f <> None)) eqn:E; [by rewrite E|].
  rewrite orb_comm. by rewrite (bool_decide_eq_true_2 (Some chatId <> None)).
Qed.
Lemma frees_open f t : frees closed f = Some t -> is_open (f_status f) = true /\ t ∈ closed /\ waits_on t f = true.
Proof.
  unfold frees. destruct (is_open (f_status f)); [|done]. destruct (List.find _ closed) as [u|] eqn:E; [|done]. destruct (_ && _); [done|]. intros [= ->].
  apply List.find_some in E as [Hin Hw]. split_and!; [done|by apply list_elem_of_In|done].
Qed.
Lemma freed_fields_frees i : frees closed (freed_fields i) = None.
Proof.
  unfold freed_fields. destruct (frees closed (fields i)) as [t|] eqn:E; [|done]. apply freed_frees. by apply frees_open in E as (? & _).
Qed.
Lemma release_none i : (forall x, x ∈ under i -> frees closed (fields x) = None) -> release i = (i, []).
Proof.
  induction i as [f ch IH] using PlanItem_nested. intros Hn. cbn [BoardView.release]. rewrite (Hn (Item f ch) ltac:(by left) : frees closed f = None).
  assert (map release ch = map (fun c => (c, [])) ch) as ->.
  { apply map_ext_in. intros c Hc%list_elem_of_In. rewrite Forall_forall in IH. apply IH; [done|]. intros x Hx. apply Hn. right. apply nodes_elem. by exists c. }
  rewrite map_map. cbn [fst]. rewrite map_id. f_equal. clear. by induction ch.
Qed.
Lemma release_said i x t : x ∈ under i -> frees closed (fields x) = Some t -> freed_text t (fields x) ∈ (release i).2.
Proof.
  induction i as [f ch IH] using PlanItem_nested. rewrite under_unfold. intros [->|Hx]%elem_of_cons Hf; cbn [BoardView.release].
  - cbn [fields] in Hf. rewrite Hf. cbn [snd]. apply elem_of_app. right. by left.
  - apply nodes_elem in Hx as (c & Hc & Hx). rewrite Forall_forall in IH. specialize (IH c Hc Hx Hf).
    assert (freed_text t (fields x) ∈ flat_map snd (map release ch)) as Hin.
    { apply list_elem_of_In, in_flat_map. exists (release c). rewrite <- !list_elem_of_In. split; [by apply list_elem_of_fmap_2|done]. }
    destruct (frees closed f); cbn [snd]; [apply elem_of_app; by left|done].
Qed.
End Asks.

(** an ask that closes frees its steps: after a write that closed todos, every step that waited on one of them has no wait, is not blocked, has an owner and
    is named in a summary; no open step waits for the id of a closed todo; every other item is as it was; and doing it again frees nothing. *)
Theorem closed_asks_free_their_steps `{Dates, Rules} before after chatId now b' ss :
  releaseClosedAsks before after chatId now = Some (b', ss) ->
  let closed := closed_asks (todos before) (todos after) in
  todos b' = todos after /\
  (exists h, nodes (plan b') = map h (nodes (plan after)) /\ forall x, x ∈ nodes (plan after) ->
     match frees closed (fields x) with
     | Some t => fields (h x) = freed chatId (clock_of now) t (fields x) /\ waits_on t (fields x) = true /\ freed_text t (fields x) ∈ ss
     | None => fields (h x) = fields x
     end) /\
  (forall y t w, y ∈ nodes (plan b') -> open_item y = true -> t ∈ closed -> f_waitFor (fields y) = Some w -> names_id (t_id t) w = false) /\
  flat_map snd (map (release chatId (clock_of now) closed) (plan b')) = [].
Proof.
  unfold releaseClosedAsks. destruct (closed_asks (todos before) (todos after)) as [|t0 ts] eqn:Ec; [done|]. rewrite <- Ec. set (closed := closed_asks _ _). clearbody closed. clear Ec t0 ts.
  destruct (flat_map snd _) as [|s0 ss0] eqn:Es; [done|]. intros [= <- <-]. cbn [plan todos]. rewrite map_map. fold (let_go chatId (clock_of now) closed).
  change (map (λ x, (release chatId (clock_of now) closed x).1) (plan after)) with (map (let_go chatId (clock_of now) closed) (plan after)).
  split_and!; [done| | |].
  - exists (let_go chatId (clock_of now) closed). split; [apply let_go_nodes|]. intros x Hx. destruct x as [f ch]. rewrite let_go_unfold. unfold freed_fields. cbn [fields].
    destruct (frees closed f) as [t|] eqn:E; [|done]. split_and!; [done|by apply frees_open in E as (_ & _ & ?)|]. rewrite <- Es. apply nodes_elem in Hx as (i & Hi & Hx).
    apply list_elem_of_In, in_flat_map. exists (release chatId (clock_of now) closed i). rewrite <- !list_elem_of_In. split; [by apply list_elem_of_fmap_2|]. by apply (release_said _ _ _ i (Item f ch)).
  - intros y t w. rewrite let_go_nodes. intros ([f ch] & -> & Hx)%list_elem_of_fmap Ho Ht Hw. rewrite let_go_unfold in *. unfold open_item, status in Ho. cbn [fields] in *.
    pose proof (freed_fields_frees chatId (clock_of now) closed (Item f ch)) as Hn. set (g := freed_fields _ _ _ _) in *. destruct (names_id (t_id t) w) eqn:E; [|done].
    unfold frees in Hn. rewrite Ho in Hn. destruct (List.find (fun t => waits_on t g) closed) as [u|] eqn:Ef.
    + rewrite (bool_decide_eq_false_2 (f_waitFor g = None)) in Hn by by rewrite Hw. done.
    + apply (List.find_none _ _ Ef) in Ht || (apply list_elem_of_In in Ht; apply (List.find_none _ _ Ef) in Ht). unfold waits_on in Ht. rewrite Hw in Ht. change (nullish (Some w) "") with w in Ht. by rewrite E in Ht.
  - assert (map (release chatId (clock_of now) closed) (map (let_go chatId (clock_of now) closed) (plan after)) = map (fun i => (i, [])) (map (let_go chatId (clock_of now) closed) (plan after))) as ->.
    { apply map_ext_in. intros i Hi%list_elem_of_In. apply release_none. intros x Hx. assert (x ∈ nodes (map (let_go chatId (clock_of now) closed) (plan after))) as Hx' by (apply nodes_elem; by exists i).
      rewrite let_go_nodes in Hx'. apply list_elem_of_fmap in Hx' as ([f ch] & -> & _). rewrite let_go_unfold. apply freed_fields_frees. }
    generalize (map (let_go chatId (clock_of now) closed) (plan after)) as l. by induction l.
Qed.

(** ** Examples *)

Definition waiting_step : Fields := mkFields "p1" "ship it" Blocked None None None (Some "the owner on t1") None false false None None None false.
Definition ask : OwnerTodo := mkTodo "t1" "ship p1?" false None None Agent "0" None false None.
Definition asked_board : ChatBoard := mkBoard 4 [Item waiting_step []] [ask] "0" None.
Definition answered_board : ChatBoard := mkBoard 5 [Item waiting_step []] [set_done true (set_reply (Some "go") true ask)] "1" None.

Lemma closed_asks_free_their_steps_witness :
  exists b' ss, @releaseClosedAsks demo_rules asked_board answered_board "chat" "2026-10-18T07:31:00Z" = Some (b', ss) /\
    map (fun i => (status i, f_waitFor (fields i), f_sessionId (fields i))) (plan b') = [(Todo, None, Some "chat")] /\ todos b' = todos answered_board.
Proof.
  destruct (@releaseClosedAsks demo_rules asked_board answered_board "chat" "2026-10-18T07:31:00Z") as [[b' ss]|] eqn:E; [|by vm_compute in E].
  exists b', ss. split; [done|]. split; [by vm_compute in E; injection E as <- _|].
  exact (proj1 (@closed_asks_free_their_steps demo_dates demo_rules _ _ _ _ _ _ E)).
Defined.
