(* ===== verification/BoardParse.v ===== *)
(** * Parsing board ops

    [parseBoardOp] of [apps/chat/web/src/lib/api/shared/chat-board.ts]: one untrusted op, an HTTP body or a
    tool call, as an op the reducer trusts. A JSON value is a tree; a field that is not there is [undefined].
    [normalizeArtifactTarget] of [artifact-link.ts], which reads URLs, and [toISOString] are arguments. *)

From S2P Require Import Prelude Json Board BoardText BoardFlags BoardOps.
From Stdlib Require Import QArith.QArith_base.
#[local] Open Scope string_scope.
#[local] Open Scope list_scope.
#[local] Open Scope Z_scope.

Class Links := { normalizeArtifactTarget : string -> option string; toISOString : Z -> string }.

Section Parse.
Context `{Dates, Rules, Links}.

Definition str (v : option json) (f : string) : attempt string :=
  match v with
  | Some (JStr s) => if bool_decide (trim s = "") then invalid (f +:+ " cannot be empty.") else Fine s
  | _ => invalid (f +:+ " must be text.")
  end.
Definition optStr (v : option json) (f : string) : attempt (option string) :=
  match v with None => Fine None | _ => s ← str v f; Fine (Some s) end.
Definition nullableStr (v : option json) (f : string) : attempt (patch string) :=
  match v with None => Fine Keep | Some JNull => Fine Clear | _ => s ← str v f; Fine (Put s) end.
Definition dutyLinkValue (v : option json) : attempt string :=
  match v with
  | Some (JStr s) => match parseDutyLink s with Some _ => Fine s | None => invalid (DUTY_LINK_SHAPE +:+ ".") end
  | _ => invalid (DUTY_LINK_SHAPE +:+ ".")
  end.
Definition status_of (s : string) : option PlanStatus :=
  if decide (s = "todo") then Some Todo else if decide (s = "doing") then Some Doing else if decide (s = "done") then Some Done
  else if decide (s = "blocked") then Some Blocked else if decide (s = "dropped") then Some Dropped else None.
Definition parse_status (v : option json) : attempt (option PlanStatus) :=
  match v with
  | None => Fine None
  | Some (JStr s) => match status_of s with Some p => Fine (Some p) | None => invalid "status must be one of todo, doing, done, blocked, dropped." end
  | _ => invalid "status must be one of todo, doing, done, blocked, dropped."
  end.
Definition id_text (max : nat) (s : string) : bool :=
  forallb word_char (to_chars s) && (1 <=? String.length s)%nat && (String.length s <=? max)%nat.
Definition parse_id (v : option json) (f : string) : attempt string :=
  match v with
  | Some (JStr s) => if id_text 40 s then Fine s else invalid (f +:+ " must be an item id such as p1 or t1.")
  | _ => invalid (f +:+ " must be an item id such as p1 or t1.")
  end.
Definition parseSessionId (v : option json) : attempt (patch string) :=
  match v with
  | None => Fine Keep
  | Some JNull => Fine Clear
  | Some v =>
      let t := match v with JStr s => trim s | _ => "" end in
      if id_text 128 t then Fine (Put t)
      else match jobSession (Some t) with
           | Some s => Fine (Put s)
           | None => invalid "sessionId must be a thread's session id, thread:<id> or a chat URL."
           end
  end.

(** [/^\d{4}-\d{2}-\d{2}/] and a date. *)
Definition date_text (s : string) : bool :=
  match to_chars s with
  | a :: b :: c :: d :: h1 :: e :: f :: h2 :: g :: h :: _ =>
      forallb is_digit [a; b; c; d; e; f; g; h] && bool_decide (h1 = "-"%char) && bool_decide (h2 = "-"%char)
  | _ => false
  end.
Definition iso_date (v : option json) : option Z := match v with Some (JStr s) => if date_text s then Date_parse s else None | _ => None end.
Definition waitUntil (v : option json) : attempt string :=
  match iso_date v with Some at_ => Fine (toISOString at_) | None => invalid "waitUntil must be an ISO date-time such as 2026-10-09T09:00:00+09:00." end.
Definition optWaitUntil (v : option json) : attempt (option string) := match v with None => Fine None | _ => s ← waitUntil v; Fine (Some s) end.
Definition nullableWaitUntil (v : option json) : attempt (patch string) :=
  match v with None => Fine Keep | Some JNull => Fine Clear | _ => s ← waitUntil v; Fine (Put s) end.

(** ** Gates and targets *)

Definition requirement_status_of (v : option json) : option RequirementStatus :=
  match v with
  | Some (JStr s) => if decide (s = "met") then Some Met else if decide (s = "unmet") then Some Unmet else if decide (s = "open") then Some OpenLine else None
  | _ => None
  end.
Definition requirement (v : json) : attempt Requirement :=
  match v with
  | JObj fs =>
      match requirement_status_of (field fs "status") with
      | None => invalid "A requirement's status must be one of met, unmet, open."
      | Some st =>
          t ← str (field fs "text") "requirement text";
          e ← optStr (field fs "evidence") "requirement evidence";
          n ← optStr (field fs "note") "requirement note";
          Fine (mkRequirement t st e n)
      end
  | _ => invalid "Each requirement must be an object with text and status."
  end.
(** [list.map(f)] with an [f] that may throw. *)
Fixpoint each {A B} (f : A -> attempt B) (l : list A) : attempt (list B) :=
  match l with [] => Fine [] | x :: l => y ← f x; ys ← each f l; Fine (y :: ys) end.
Definition requirements (v : option json) : attempt (list Requirement) :=
  match v with
  | Some (JArr (x :: l)) => each requirement (x :: l)
  | _ => invalid "requirements must be a list of lines {text, status, evidence?, note?}; null clears it."
  end.

Record Gates := mkGates { g_go : bool; g_build : bool; g_requirements : option (list Requirement) }.
Definition word_is (v : option json) (w message : string) : attempt bool :=
  match v with None => Fine false | Some (JStr s) => if decide (s = w) then Fine true else invalid message | _ => invalid message end.
Definition gates (go kind reqs : option json) : attempt Gates :=
  g ← word_is go "needed" ("go must be " +:+ dquote +:+ "needed" +:+ dquote +:+ "; once a step needs the owner's go, it keeps needing it.");
  k ← word_is kind "build" ("kind must be " +:+ dquote +:+ "build" +:+ dquote +:+ ".");
  r ← match reqs with None => Fine None | _ => l ← requirements reqs; Fine (Some l) end;
  Fine (mkGates g k r).

Definition TARGET_SHAPE : string := "target must be {metric, target, unit, current?, measuredAt?, source?, cadence?, direction?}".
Definition amount (v : option json) (f : string) : attempt Q :=
  match v with
  | Some (JNum n) => if Qle_bool 0 n then Fine n else invalid ("target." +:+ f +:+ " must be a non-negative number.")
  | _ => invalid ("target." +:+ f +:+ " must be a non-negative number.")
  end.
Definition measured_count (fs : list (string * json)) : nat :=
  length (base.filter (fun k => not_null (field fs k) <> None) ["current"; "measuredAt"; "source"]).
Definition measurement (fs : list (string * json)) : attempt (Q * string * string) :=
  c ← amount (field fs "current") "current";
  match iso_date (field fs "measuredAt") with
  | None => invalid "target.measuredAt must be an ISO date-time such as 2026-10-09T09:00:00+09:00."
  | Some at_ => s ← str (field fs "source") "target.source"; Fine (c, toISOString at_, s)
  end.
Definition DIRECTION_SHAPE : string := "target.direction must be " +:+ dquote +:+ "up" +:+ dquote +:+ " (higher is better) or " +:+ dquote +:+ "down" +:+ dquote +:+ " (lower is better).".
Definition parse_direction (v : option json) : attempt (option Direction) :=
  match not_null v with
  | None => Fine None
  | Some (JStr s) => if decide (s = "up") then Fine (Some Up) else if decide (s = "down") then Fine (Some Down)
                     else invalid DIRECTION_SHAPE
  | _ => invalid DIRECTION_SHAPE
  end.
Definition goalTarget (v : option json) : attempt GoalTarget :=
  match v with
  | Some (JObj fs) =>
      mt ← str (field fs "metric") "target.metric";
      tg ← amount (field fs "target") "target";
      un ← str (field fs "unit") "target.unit";
      let n := measured_count fs in
      if (0 <? n)%nat && (n <? 3)%nat
      then invalid "A measurement is target.current, target.measuredAt and target.source together: give all three, or none for a goal not measured yet."
      else
        me ← (if (0 <? n)%nat then x ← measurement fs; Fine (Some x) else Fine None);
        dl ← word_is (not_null (field fs "cadence")) "daily" ("target.cadence must be " +:+ dquote +:+ "daily" +:+ dquote +:+ ".");
        di ← parse_direction (field fs "direction");
        Fine (mkTarget mt tg un ((fun x => x.1.1) <$> me) ((fun x => x.1.2) <$> me) (snd <$> me) dl di)
  | _ => invalid (TARGET_SHAPE +:+ ".")
  end.
Definition opt {A} (v : option json) (p : option json -> attempt A) : attempt (option A) := match v with None => Fine None | _ => a ← p v; Fine (Some a) end.
Definition opt_null {A} (v : option json) (p : option json -> attempt A) : attempt (patch A) :=
  match v with None => Fine Keep | Some JNull => Fine Clear | _ => a ← p v; Fine (Put a) end.

(** ** Plan items *)

(** The fields [planInput] and [plan_add] read, in their order. *)
Definition input_fields (fs : list (string * json)) (t : string) : attempt Input :=
  s ← parse_status (field fs "status");
  j ← optStr (field fs "job") "job";
  se ← parseSessionId (field fs "sessionId");
  n ← optStr (field fs "note") "note";
  u ← optWaitUntil (field fs "waitUntil");
  w ← optStr (field fs "waitFor") "waitFor";
  g ← opt (field fs "target") goalTarget;
  d ← opt (field fs "duty") dutyLinkValue;
  ga ← gates (field fs "go") (field fs "kind") (field fs "requirements");
  Fine (mkInput t s j (truthy (put_of se)) n u w g d (g_go ga) (g_build ga) (g_requirements ga)).

Fixpoint planInput (v : json) : attempt PlanItemInput :=
  match v with
  | JObj fs =>
      t ← str (field fs "text") "text";
      id ← opt (field fs "id") (fun v => parse_id v "id");
      i ← input_fields fs t;
      ch ← (fix scan (l : list (string * json)) : attempt (list PlanItemInput) :=
              match l with
              | [] => Fine []
              | (k, v) :: l =>
                  if decide ("children" = k) then
                    match v with
                    | JArr cs => (fix go (cs : list json) : attempt (list PlanItemInput) := match cs with [] => Fine [] | c :: cs => x ← planInput c; xs ← go cs; Fine (x :: xs) end) cs
                    | _ => invalid "children must be a list of plan items."
                    end
                  else scan l
              end) fs;
      Fine (ItemInput id i ch)
  | _ => invalid "Each plan item must be an object with text."
  end.

(** ** Links and choices *)

Definition TARGET_FORMS : string := "job:<name>, thread:<sessionId> or thread:<sessionId>@<ms>, wiki:<path>, file:<absolute path>, or an http(s) URL".
Definition link (v : json) : attempt ArtifactLink :=
  match v with
  | JObj fs =>
      t ← str (field fs "target") "link target";
      match normalizeArtifactTarget t with
      | None => invalid ("A link target must be " +:+ TARGET_FORMS +:+ ".")
      | Some t =>
          match field fs "label" with
          | None => Fine (mkLink t t)
          | Some (JStr s) => if decide (s = "") then Fine (mkLink t t) else l ← str (Some (JStr s)) "link label"; Fine (mkLink l t)
          | Some v => l ← str (Some v) "link label"; Fine (mkLink l t)
          end
      end
  | _ => invalid "Each link must be an object with a target."
  end.
Definition links (v : option json) : attempt (option (list ArtifactLink)) :=
  match v with
  | None => Fine None
  | Some (JArr l) => ls ← each link l; Fine (Some ls)
  | _ => invalid "links must be a list of {label, target}."
  end.
Definition choices (v : option json) : attempt (list string) :=
  match v with
  | Some (JArr l) => each (fun c => s ← str (Some c) "choice"; Fine (trim s)) l
  | _ => invalid "choices must be a list of answers, your recommendation first."
  end.

(** ** [parseBoardOp] *)

Definition SCRATCHPAD_REMOVED : string :=
  "The board has no scratchpad any more; the owner removed it on 2026-10-15. Put the decision in the note of the step it concerns (plan_update {id, note}).".
Definition non_empty {A} (l : list A) : option (list A) := match l with [] => None | _ => Some l end.

Definition parse_plan_add (fs : list (string * json)) : attempt BoardOp :=
  t ← str (field fs "text") "text";
  p ← opt (not_null (field fs "parent")) (fun v => parse_id v "parent");
  i ← input_fields fs t;
  Fine (PlanAdd p i).
Definition parse_plan_update (fs : list (string * json)) : attempt BoardOp :=
  id ← parse_id (field fs "id") "id";
  p ← opt_null (field fs "parent") (fun v => parse_id v "parent");
  t ← optStr (field fs "text") "text";
  s ← parse_status (field fs "status");
  j ← nullableStr (field fs "job") "job";
  se ← parseSessionId (field fs "sessionId");
  n ← nullableStr (field fs "note") "note";
  u ← nullableWaitUntil (field fs "waitUntil");
  w ← nullableStr (field fs "waitFor") "waitFor";
  g ← opt_null (field fs "target") goalTarget;
  d ← opt_null (field fs "duty") dutyLinkValue;
  ga ← gates (field fs "go") (not_null (field fs "kind")) (not_null (field fs "requirements"));
  Fine (PlanUpdate id (mkUpdate p t s j se n u w (g_go ga)
    (match field fs "kind" with Some JNull => Clear | _ => if g_build ga then Put tt else Keep end)
    (match field fs "requirements" with Some JNull => Clear | _ => match g_requirements ga with Some l => Put l | None => Keep end end) g d)).
Definition parse_todo_add (fs : list (string * json)) : attempt BoardOp :=
  t ← str (field fs "text") "text";
  c ← opt (field fs "choices") choices;
  s ← opt (field fs "step") (fun v => parse_id v "step");
  l ← links (field fs "links");
  Fine (TodoAdd t (c ≫= non_empty) s (l ≫= non_empty)).
Definition parse_todo_update (fs : list (string * json)) : attempt BoardOp :=
  id ← parse_id (field fs "id") "id";
  t ← optStr (field fs "text") "text";
  l ← links (field fs "links");
  c ← opt_null (field fs "choices") choices;
  d ← match field fs "done" with None => Fine None | Some (JBool b) => Fine (Some b) | _ => invalid "done must be true or false." end;
  r ← nullableStr (field fs "reply") "reply";
  Fine (TodoUpdate id t d r l c).

Definition parseBoardOp (v : json) : attempt BoardOp :=
  match v with
  | JObj fs =>
      let name := match field fs "op" with Some (JStr s) => s | _ => "" end in
      if decide (name = "plan_set") then
        match field fs "items" with
        | Some (JArr l) => items ← each planInput l; Fine (PlanSet items)
        | _ => invalid "plan_set needs items, a list of plan items."
        end
      else if decide (name = "plan_add") then parse_plan_add fs
      else if decide (name = "plan_update") then parse_plan_update fs
      else if decide (name = "plan_remove") then id ← parse_id (field fs "id") "id"; Fine (PlanRemove id)
      else if decide (name = "scratch_add") then invalid SCRATCHPAD_REMOVED
      else if decide (name = "scratch_update") then invalid SCRATCHPAD_REMOVED
      else if decide (name = "scratch_remove") then invalid SCRATCHPAD_REMOVED
      else if decide (name = "todo_add") then parse_todo_add fs
      else if decide (name = "todo_update") then parse_todo_update fs
      else if decide (name = "todo_remove") then id ← parse_id (field fs "id") "id"; Fine (TodoRemove id)
      else invalid "op must be one of plan_set, plan_add, plan_update, plan_remove, todo_add, todo_update, todo_remove."
  | _ => invalid "Each op must be an object with an op field."
  end.
Definition parseBoardOps (v : json) : attempt (list BoardOp) :=
  match v with JArr l => each parseBoardOp l | _ => invalid "ops must be a list of board ops." end.

(** [Boards.apply]: a request's ops, parsed and applied, or the refusal it throws. *)
Definition apply_request (b : ChatBoard) (raw : json) (actor : BoardActor) (now : string) : attempt (ChatBoard * list string) :=
  ops ← parseBoardOps raw; apply_ops b ops actor now.
(** The board a request leaves: a refused one stores nothing. *)
Definition request (b : ChatBoard) (r : json * BoardActor * string) : ChatBoard :=
  match apply_request b r.1.1 r.1.2 r.2 with Fine x => x.1 | _ => b end.
End Parse.
