(* ===== verification/BoardTypes.v ===== *)
(** * The types of a board hold

    What [parseBoardOp] lets through, and that [applyBoardOp] keeps it: on every board made from parsed ops the texts say something, times are
    in the [toISOString] form, a measurement is whole, and lists that a field may lack are never empty. *)

From S2P Require Import Prelude Json Board BoardText BoardFlags BoardOps BoardTree BoardSpec BoardParse.
From Stdlib Require Import QArith.QArith_base.
#[local] Open Scope string_scope.
#[local] Open Scope list_scope.
#[local] Open Scope Z_scope.

(** ** What an attempt gives *)

(** The value [m] gives, when it gives one, satisfies [Q]. *)
Definition gives {A} (m : attempt A) (Q : A -> Prop) : Prop := match m with Fine a => Q a | _ => True end.

Lemma gives_bind {A B} (m : attempt A) (f : A -> attempt B) Q R : gives m Q -> (forall a, Q a -> gives (f a) R) -> gives (m ≫= f) R.
Proof. destruct m; cbn; auto. Qed.
Lemma gives_any {A} (m : attempt A) : gives m (fun _ => True).
Proof. by destruct m. Qed.
Lemma gives_fine {A} (m : attempt A) Q a : gives m Q -> m = Fine a -> Q a.
Proof. by intros Hg ->. Qed.
Lemma gives_weaken {A} (m : attempt A) (Q R : A -> Prop) : gives m Q -> (forall a, Q a -> R a) -> gives m R.
Proof. destruct m; cbn; auto. Qed.
Lemma gives_each {A B} (f : A -> attempt B) (Q : B -> Prop) l : (forall x, x ∈ l -> gives (f x) Q) -> gives (each f l) (fun r => Forall Q r /\ length r = length l).
Proof.
  induction l as [|x l IH]; intros Hf; [by split; [apply Forall_nil_2|]|]. cbn [each]. eapply gives_bind; [apply Hf; by left|]. intros y Hy.
  eapply gives_bind; [apply IH; intros z Hz; apply Hf; by right|]. intros ys [Hys Hl]. split; [by constructor|cbn; by rewrite Hl].
Qed.

Abbreviation opt_is Q o := (from_option Q True o).
Definition patch_is {A} (Q : A -> Prop) (p : patch A) : Prop := opt_is Q (put_of p).

(** ** Texts that say something *)

Definition worded (s : string) : Prop := trim s <> "".

Lemma drop_spaces l : forallb is_space (drop_while is_space l) = forallb is_space l.
Proof. induction l as [|c l IH]; [done|]. cbn. destruct (is_space c) eqn:E; cbn; by rewrite ?E. Qed.
Lemma forallb_reverse {A} (p : A -> bool) l : forallb p (reverse l) = forallb p l.
Proof. induction l as [|c l IH]; [done|]. rewrite reverse_cons, forallb_app, IH. cbn. by rewrite andb_true_r, andb_comm. Qed.
Lemma trim_chars_spaces l : forallb is_space (trim_chars l) = forallb is_space l.
Proof. unfold trim_chars. by rewrite forallb_reverse, drop_spaces, forallb_reverse, drop_spaces. Qed.
Lemma drop_all l : forallb is_space l = true <-> drop_while is_space l = [].
Proof. induction l as [|c l IH]; [done|]. cbn. destruct (is_space c); [done|]. by split. Qed.
Lemma trim_chars_blank l : trim_chars l = [] <-> forallb is_space l = true.
Proof.
  split; [intros Hl; by rewrite <- trim_chars_spaces, Hl|]. intros Hl. unfold trim_chars. by rewrite (proj1 (drop_all l) Hl).
Qed.
Lemma of_chars_nil l : of_chars l = "" <-> l = [].
Proof. by destruct l. Qed.
Lemma worded_spec s : worded s <-> forallb is_space (to_chars s) = false.
Proof.
  unfold worded, trim. rewrite of_chars_nil, trim_chars_blank. destruct (forallb _ _); split; done.
Qed.
Lemma worded_trim s : worded s -> worded (trim s).
Proof. rewrite !worded_spec. unfold trim. by rewrite to_of_chars, trim_chars_spaces. Qed.
Lemma to_app a b : to_chars (a +:+ b) = to_chars a ++ to_chars b.
Proof. induction a as [|c a IH]; [done|]. exact (f_equal (cons c) IH). Qed.
Lemma worded_app_r a s : worded s -> worded (a +:+ s).
Proof. rewrite !worded_spec, to_app, forallb_app. intros ->. apply andb_false_r. Qed.
Lemma truthy_is (Q : string -> Prop) o : opt_is Q o -> opt_is Q (truthy o).
Proof. destruct o; cbn; [by case_decide|done]. Qed.
Lemma orelse_is {A} (Q : A -> Prop) o1 o2 : opt_is Q o1 -> opt_is Q o2 -> opt_is Q (orelse o1 o2).
Proof. by destruct o1. Qed.

(** ** The types *)

Section Types.
Context `{Dates, Rules, Links}.

Definition iso (s : string) : Prop := exists t, s = toISOString t.
Definition linked (d : string) : Prop := parseDutyLink d <> None.
Definition amount_ok (n : Q) : Prop := Qle_bool 0 n = true.

(** A measurement is there whole or not at all. *)
Definition reading_ok (g : GoalTarget) : Prop :=
  match current g, measuredAt g, source g with
  | Some c, Some a, Some s => amount_ok c /\ iso a /\ worded s
  | None, None, None => True
  | _, _, _ => False
  end.
Definition target_ok (g : GoalTarget) : Prop := worded (metric g) /\ worded (unit_ g) /\ amount_ok (target g) /\ reading_ok g.
Definition line_ok (r : Requirement) : Prop := worded (r_text r) /\ opt_is worded (r_evidence r) /\ opt_is worded (r_note r).
Definition some_of {A} (Q : A -> Prop) (l : list A) : Prop := l <> [] /\ Forall Q l.

Definition fields_ok (f : Fields) : Prop :=
  worded (f_text f) /\ opt_is worded (f_note f) /\ opt_is iso (f_waitUntil f) /\ opt_is worded (f_waitFor f) /\
  opt_is (some_of line_ok) (f_requirements f) /\ opt_is target_ok (f_target f) /\ opt_is linked (f_duty f).
Definition link_ok (l : ArtifactLink) : Prop := (exists raw, normalizeArtifactTarget raw = Some (l_target l)) /\ (l_label l = l_target l \/ worded (l_label l)).
Definition todo_ok (t : OwnerTodo) : Prop :=
  worded (t_text t) /\ opt_is worded (t_reply t) /\ opt_is (some_of worded) (t_choices t) /\ opt_is (some_of link_ok) (t_links t).
Definition board_ok (b : ChatBoard) : Prop := (forall y, y ∈ nodes (plan b) -> fields_ok (fields y)) /\ Forall todo_ok (todos b).

Definition input_ok (i : Input) : Prop :=
  worded (in_text i) /\ opt_is worded (in_note i) /\ opt_is iso (in_waitUntil i) /\ opt_is worded (in_waitFor i) /\
  opt_is (some_of line_ok) (in_requirements i) /\ opt_is target_ok (in_target i) /\ opt_is linked (in_duty i).
Definition update_ok (u : Update) : Prop :=
  opt_is worded (u_text u) /\ patch_is worded (u_note u) /\ patch_is iso (u_waitUntil u) /\ patch_is worded (u_waitFor u) /\
  patch_is (some_of line_ok) (u_requirements u) /\ patch_is target_ok (u_target u) /\ patch_is linked (u_duty u).
Definition op_ok (op : BoardOp) : Prop :=
  match op with
  | PlanSet items => forall x, x ∈ walkInputs items -> input_ok x.2
  | PlanAdd _ i => input_ok i
  | PlanUpdate _ u => update_ok u
  | TodoAdd t c _ l => worded t /\ opt_is (some_of worded) c /\ opt_is (some_of link_ok) l
  | TodoUpdate _ t _ r l c => opt_is worded t /\ patch_is worded r /\ opt_is (Forall link_ok) l /\ patch_is (Forall worded) c
  | _ => True
  end.

(** ** What each parser gives *)

Lemma str_gives v f : gives (str v f) worded.
Proof. unfold str. destruct v as [[| | |s| |]|]; try done. by case_bool_decide. Qed.
Lemma optStr_gives v f : gives (optStr v f) (fun o => opt_is worded o).
Proof. unfold optStr. destruct v; [|done]. eapply gives_bind; [apply str_gives|done]. Qed.
Lemma nullableStr_gives v f : gives (nullableStr v f) (patch_is worded).
Proof. unfold nullableStr. destruct v as [[]|]; try done; (eapply gives_bind; [apply str_gives|done]). Qed.
Lemma waitUntil_gives v : gives (waitUntil v) iso.
Proof. unfold waitUntil. destruct (iso_date v) as [t|]; [by exists t|done]. Qed.
Lemma optWaitUntil_gives v : gives (optWaitUntil v) (fun o => opt_is iso o).
Proof. unfold optWaitUntil. destruct v; [|done]. eapply gives_bind; [apply waitUntil_gives|done]. Qed.
Lemma nullableWaitUntil_gives v : gives (nullableWaitUntil v) (patch_is iso).
Proof. unfold nullableWaitUntil. destruct v as [[]|]; try done; (eapply gives_bind; [apply waitUntil_gives|done]). Qed.
Lemma dutyLinkValue_gives v : gives (dutyLinkValue v) linked.
Proof. unfold dutyLinkValue, linked. destruct v as [[| | |s| |]|]; try done. destruct (parseDutyLink s) eqn:E; [|done]. cbn. by rewrite E. Qed.
Lemma opt_gives {A} v (p : option json -> attempt A) Q : gives (p v) Q -> gives (opt v p) (fun o => opt_is Q o).
Proof. unfold opt. destruct v; [|done]. intros Hp. by eapply gives_bind. Qed.
Lemma opt_null_gives {A} v (p : option json -> attempt A) Q : gives (p v) Q -> gives (opt_null v p) (patch_is Q).
Proof. unfold opt_null. intros Hp. destruct v as [[]|]; try done; (by eapply gives_bind). Qed.

Lemma requirement_gives v : gives (requirement v) line_ok.
Proof.
  destruct v as [| | | | |fs]; try done. unfold requirement. destruct (requirement_status_of _); [|done].
  eapply gives_bind; [apply str_gives|]. intros t Ht. eapply gives_bind; [apply optStr_gives|]. intros e He. by eapply gives_bind; [apply optStr_gives|].
Qed.
Lemma requirements_gives v : gives (requirements v) (some_of line_ok).
Proof.
  unfold requirements. destruct v as [[| | | |[|x l]|]|]; try done. eapply gives_weaken; [apply gives_each; intros y _; apply requirement_gives|].
  intros ys [Hys Hl]. split; [by destruct ys|done].
Qed.
Lemma gates_gives go k r : gives (gates go k r) (fun g => opt_is (some_of line_ok) (g_requirements g)).
Proof.
  unfold gates. eapply gives_bind; [apply gives_any|]. intros g _. eapply gives_bind; [apply gives_any|]. intros b _.
  destruct r; [|done]. eapply gives_bind; [eapply gives_bind; [apply requirements_gives|]|]; [|exact (fun _ x => x)]. done.
Qed.

Lemma amount_gives v f : gives (amount v f) amount_ok.
Proof. unfold amount, amount_ok. destruct v as [[| |n| | |]|]; try done. by destruct (Qle_bool 0 n) eqn:E. Qed.
Lemma measurement_gives fs : gives (measurement fs) (fun x => amount_ok x.1.1 /\ iso x.1.2 /\ worded x.2).
Proof.
  unfold measurement. eapply gives_bind; [apply amount_gives|]. intros c Hc. destruct (iso_date _) as [t|]; [|done].
  eapply gives_bind; [apply str_gives|]. intros s Hs. split_and!; [done|by exists t|done].
Qed.
Lemma goalTarget_gives v : gives (goalTarget v) target_ok.
Proof.
  destruct v as [[| | | | |fs]|]; try done. unfold goalTarget. eapply gives_bind; [apply str_gives|]. intros m Hm. eapply gives_bind; [apply amount_gives|]. intros t Ht.
  eapply gives_bind; [apply str_gives|]. intros u Hu. cbv zeta. destruct (_ && _)%nat; [done|].
  apply gives_bind with (Q := fun me => opt_is (fun x : Q * string * string => amount_ok x.1.1 /\ iso x.1.2 /\ worded x.2) me).
  { destruct (0 <? _)%nat; [|done]. eapply gives_bind; [apply measurement_gives|done]. }
  intros me Hme. eapply gives_bind; [apply gives_any|]. intros dl _. eapply gives_bind; [apply gives_any|]. intros di _.
  split_and!; try done. by destruct me.
Qed.

Lemma input_fields_gives fs t : worded t -> gives (input_fields fs t) input_ok.
Proof.
  intros Ht. unfold input_fields. do 3 (eapply gives_bind; [apply gives_any|]; intros ? _). eapply gives_bind; [apply optStr_gives|]. intros n Hn.
  eapply gives_bind; [apply optWaitUntil_gives|]. intros u Hu. eapply gives_bind; [apply optStr_gives|]. intros w Hw.
  eapply gives_bind; [apply opt_gives, goalTarget_gives|]. intros g Hg. eapply gives_bind; [apply opt_gives, dutyLinkValue_gives|]. intros d Hd.
  by eapply gives_bind; [apply gates_gives|].
Qed.

Lemma json_nested (Q : json -> Prop) :
  Q JNull -> (forall b, Q (JBool b)) -> (forall n, Q (JNum n)) -> (forall s, Q (JStr s)) ->
  (forall l, Forall Q l -> Q (JArr l)) -> (forall fs, Forall (fun kv => Q kv.2) fs -> Q (JObj fs)) -> forall v, Q v.
Proof.
  intros Hn Hb Hq Hs Ha Ho. fix IH 1. intros [| | | |l|fs]; [done|done|done|done| |].
  - apply Ha. induction l as [|x l IHl]; constructor; [apply IH|exact IHl].
  - apply Ho. induction fs as [|[k v] fs IHl]; constructor; [apply IH|exact IHl].
Qed.

(** [value.children]. *)
Definition children_of (v : option json) : attempt (list PlanItemInput) :=
  match v with None => Fine [] | Some (JArr cs) => each planInput cs | _ => invalid "children must be a list of plan items." end.
Lemma planInput_unfold fs : planInput (JObj fs) =
  (t ← str (field fs "text") "text";
   id ← opt (field fs "id") (fun v => parse_id v "id");
   i ← input_fields fs t;
   ch ← children_of (field fs "children");
   Fine (ItemInput id i ch)).
Proof.
  assert (forall cs, (fix go (cs : list json) : attempt (list PlanItemInput) := match cs with [] => Fine [] | c :: cs => x ← planInput c; xs ← go cs; Fine (x :: xs) end) cs = each planInput cs) as Hgo.
  { induction cs as [|c cs IH]; [done|]. cbn [each]. destruct (planInput c); [|done|done]. cbn. by rewrite IH. }
  cbn [planInput]. destruct (str _ _); [|done|done]. cbn. destruct (opt _ _) as [id| |]; [|done|done]. cbn. destruct (input_fields _ _) as [i| |]; [|done|done]. cbn.
  enough ((fix scan (l : list (string * json)) : attempt (list PlanItemInput) := match l with
    | [] => Fine []
    | (k, v) :: l => if decide ("children" = k) then match v with
        | JArr cs => (fix go (cs : list json) : attempt (list PlanItemInput) := match cs with [] => Fine [] | c :: cs => x ← planInput c; xs ← go cs; Fine (x :: xs) end) cs
        | _ => invalid "children must be a list of plan items." end
      else scan l end) fs = children_of (field fs "children")) as -> by done.
  unfold field. induction fs as [|[k v] fs IH]; [done|]. cbv beta match fix delta [OMap.get]. destruct (decide ("children" = k)); [|exact IH]. by destruct v.
Qed.

Definition inputs_ok (i : PlanItemInput) : Prop := forall x, x ∈ inputs_under i -> input_ok x.2.
Lemma planInput_array v : gives (planInput v) inputs_ok /\ match v with JArr l => Forall (fun v => gives (planInput v) inputs_ok) l | _ => True end.
Proof.
  induction v as [| | | |l IH|fs IH] using json_nested; try done.
  { split; [done|]. eapply Forall_impl; [exact IH|]. by intros v [Hv _]. }
  split; [|done]. rewrite planInput_unfold. eapply gives_bind; [apply str_gives|]. intros t Ht.
  eapply gives_bind; [apply gives_any|]. intros id _. eapply gives_bind; [by apply input_fields_gives|]. intros i Hi.
  apply gives_bind with (Q := Forall inputs_ok).
  { unfold children_of, field. induction IH as [|[k v] fs [_ Hv] _ IHfs]; [by apply Forall_nil_2|]. cbv beta match fix delta [OMap.get]. destruct (decide ("children" = k)); [|exact IHfs].
    destruct v as [| | | |l|]; try done. cbn in Hv. rewrite Forall_forall in Hv. eapply gives_weaken; [by apply gives_each|]. by intros r [Hr _]. }
  intros ch Hch x. cbn [inputs_under]. rewrite elem_of_cons. intros [->|Hx]; [done|]. apply list_elem_of_In, in_flat_map in Hx as (c & Hc & Hx).
  rewrite Forall_forall in Hch. apply (Hch c); by apply list_elem_of_In.
Qed.
Lemma planInput_gives v : gives (planInput v) inputs_ok.
Proof. apply planInput_array. Qed.

Lemma link_gives v : gives (link v) link_ok.
Proof.
  destruct v as [| | | | |fs]; try done. unfold link. eapply gives_bind; [apply str_gives|]. intros t Ht.
  destruct (normalizeArtifactTarget t) as [n|] eqn:E; [|done]. assert (forall l, l = n \/ worded l -> link_ok (mkLink l n)) as Hl by (intros l Hl; split; [by exists t|done]).
  destruct (field fs "label") as [[| | |s| |]|]; try (by apply Hl; left); try done. case_decide; [by apply Hl; left|].
  eapply gives_bind; [apply str_gives|]. intros l Hw. apply Hl. by right.
Qed.
Lemma links_gives v : gives (links v) (fun o => opt_is (Forall link_ok) o).
Proof.
  unfold links. destruct v as [[| | | |l|]|]; try done. eapply gives_bind; [by apply gives_each; intros y _; apply link_gives|]. by intros ls [Hls _].
Qed.
Lemma choices_gives v : gives (choices v) (Forall worded).
Proof.
  unfold choices. destruct v as [[| | | |l|]|]; try done. eapply gives_weaken; [apply gives_each with (Q := worded)|by intros r [Hr _]].
  intros c _. eapply gives_bind; [apply str_gives|]. intros s. apply worded_trim.
Qed.
Lemma non_empty_is {A} (Q : A -> Prop) (o : option (list A)) : opt_is (Forall Q) o -> opt_is (some_of Q) (o ≫= non_empty).
Proof. by destruct o as [[|x l]|]. Qed.

Lemma parseBoardOp_gives v : gives (parseBoardOp v) op_ok.
Proof.
  destruct v as [| | | | |fs]; try done. unfold parseBoardOp. cbv zeta. repeat case_decide; try done; try (eapply gives_bind; [apply gives_any|done]).
  - destruct (field fs "items") as [[| | | |l|]|]; try done. eapply gives_bind; [by apply gives_each; intros y _; apply planInput_gives|]. intros items [Hi _] x Hx.
    apply list_elem_of_In, in_flat_map in Hx as (c & Hc & Hx). rewrite Forall_forall in Hi. apply (Hi c); by apply list_elem_of_In.
  - unfold parse_plan_add. eapply gives_bind; [apply str_gives|]. intros t Ht. eapply gives_bind; [apply gives_any|]. intros p _. by eapply gives_bind; [by apply input_fields_gives|].
  - unfold parse_plan_update. do 2 (eapply gives_bind; [apply gives_any|]; intros ? _). eapply gives_bind; [apply optStr_gives|]. intros t Ht.
    do 3 (eapply gives_bind; [apply gives_any|]; intros ? _). eapply gives_bind; [apply nullableStr_gives|]. intros n Hn. eapply gives_bind; [apply nullableWaitUntil_gives|]. intros u Hu.
    eapply gives_bind; [apply nullableStr_gives|]. intros w Hw. eapply gives_bind; [apply opt_null_gives, goalTarget_gives|]. intros g Hg.
    eapply gives_bind; [apply opt_null_gives, dutyLinkValue_gives|]. intros d Hd. eapply gives_bind; [apply gates_gives|]. intros ga Hga.
    split_and!; try done. revert Hga. unfold patch_is. cbn. destruct (field fs "requirements") as [[]|]; by destruct (g_requirements ga).
  - unfold parse_todo_add. eapply gives_bind; [apply str_gives|]. intros t Ht. eapply gives_bind; [apply opt_gives, choices_gives|]. intros c Hc.
    eapply gives_bind; [apply gives_any|]. intros s _. eapply gives_bind; [apply links_gives|]. intros l Hl. split_and!; [done|by apply non_empty_is|by apply non_empty_is].
  - unfold parse_todo_update. eapply gives_bind; [apply gives_any|]. intros id _. eapply gives_bind; [apply optStr_gives|]. intros t Ht. eapply gives_bind; [apply links_gives|]. intros l Hl.
    eapply gives_bind; [apply opt_null_gives, choices_gives|]. intros c Hc. eapply gives_bind; [apply gives_any|]. intros d _. eapply gives_bind; [apply nullableStr_gives|]. intros r Hr. by split_and!.
Qed.
Lemma parseBoardOps_gives v : gives (parseBoardOps v) (Forall op_ok).
Proof. destruct v; try done. eapply gives_weaken; [apply gives_each; intros y _; apply parseBoardOp_gives|]. by intros r [Hr _]. Qed.

(** ** What the reducer keeps *)

Lemma Qkept g k : target_ok g -> target_ok k -> current k <> None -> target_ok (with_reading g k).
Proof.
  intros (Hm & Hu & Ha & _) (_ & _ & _ & Hr) Hc. split_and!; try done. unfold reading_ok in *. cbn. by destruct (current k), (measuredAt k), (source k).
Qed.
Lemma storedTarget_ok g k now : target_ok g -> opt_is target_ok k -> target_ok (storedTarget g k now).
Proof.
  intros Hg Hk. unfold storedTarget. assert (target_ok (newerReading g k now)) as Hn.
  { unfold newerReading. destruct k as [k|]; [|done]. destruct (truthy (measuredAt k)), (current k) eqn:Ec; try done.
    destruct (negb _); [done|]. destruct (after _ _); [done|]. destruct (match truthy (measuredAt g) with Some _ => _ | None => _ end); [done|]. apply Qkept; [done|done|by rewrite Ec]. }
  destruct (orelse _ _); [|done]. destruct Hn as (? & ? & ? & ?). by split_and!.
Qed.
Lemma lines_of_ok r : opt_is (some_of line_ok) r -> lines_of r = r.
Proof. destruct r as [[|x l]|]; [|done|done]. by intros []. Qed.
Lemma item_fields_ok id i kept now : input_ok i -> opt_is fields_ok kept -> fields_ok (item_fields id i kept now).
Proof.
  intros (Ht & Hn & Hu & Hw & Hr & Hg & Hd) Hk. unfold fields_ok. cbn.
  assert (opt_is (some_of line_ok) (kept ≫= f_requirements) /\ opt_is target_ok (kept ≫= f_target) /\ opt_is linked (kept ≫= f_duty)) as (Hkr & Hkg & Hkd).
  { destruct kept as [k|]; [|done]. cbn in Hk. destruct Hk as (_ & _ & _ & _ & ? & ? & ?). done. }
  split_and!; try by apply truthy_is.
  - done.
  - pose proof (orelse_is _ _ _ Hr Hkr) as Ho. by rewrite lines_of_ok.
  - destruct (in_target i); [|done]. by apply storedTarget_ok.
  - by apply truthy_is, orelse_is.
Qed.

Lemma settles_ok f f' : settles f f' -> fields_ok f -> fields_ok f'.
Proof. intros (st & r & g & -> & _). done. Qed.
Lemma comes_ok b y : board_ok b -> comes_from (plan b) y -> fields_ok (fields y).
Proof. intros [Hb _] (y0 & Hy0 & Hs). eapply settles_ok; [exact Hs|by apply Hb]. Qed.

Lemma keepDoneLine_ok o n : worded n -> worded (keepDoneLine o n).
Proof. intros Hn. unfold keepDoneLine. destruct (truthy _) as [l|]; [|done]. destruct (negb _); [|done]. by do 2 apply worded_app_r. Qed.

Lemma edit_ok u f now duties e : update_ok u -> fields_ok f -> edit u f now duties = Fine e -> fields_ok e.1.
Proof.
  intros (Ut & Un & Uu & Uw & Ur & Ug & Ud) Hf. unfold edit. cbv zeta.
  set (e1 := edit_text _ _ _). assert (fields_ok e1.1) as H1'.
  { unfold e1, edit_text. destruct (u_text u); [|done]. case_decide; [done|]. destruct Hf as (_ & Hf). by split. }
  set (e2 := edit_status _ _ _). assert (fields_ok e2.1) as H2'. { unfold e2, edit_status. destruct e1. by destruct (u_status u). }
  set (e3 := edit_job _ _ _). assert (fields_ok e3.1) as H3'.
  { unfold e3, edit_job. destruct e2. cbv zeta. destruct (match u_job u with Keep => _ | Clear => _ | Put _ => _ end); [|done|]; by destruct (_ && _). }
  set (e4 := edit_note _ _ _). assert (fields_ok e4.1) as H4'.
  { unfold e4, edit_note. destruct e3. destruct H3' as (? & ? & ? & ? & ? & ? & ?). destruct (u_note u) as [| |n]; [done|done|]. case_decide; [done|]. split_and!; try done. by apply keepDoneLine_ok. }
  set (e5 := edit_until _ _ _). assert (fields_ok e5.1) as H5'.
  { unfold e5, edit_until. destruct e4. destruct H4' as (? & ? & ? & ? & ? & ? & ?). destruct (u_waitUntil u) as [| |n]; [done|done|]. by case_decide. }
  set (e6 := edit_for _ _ _). assert (fields_ok e6.1) as H6'.
  { unfold e6, edit_for. destruct e5. destruct H5' as (? & ? & ? & ? & ? & ? & ?). destruct (u_waitFor u) as [| |n]; [done|done|]. by case_decide. }
  set (e7 := edit_gates _ _ _). assert (fields_ok e7.1) as H7'.
  { unfold e7, edit_gates. destruct e6. destruct H6' as (? & ? & ? & ? & ? & ? & ?), Hf as (_ & _ & _ & _ & Hf & _). cbv zeta.
    destruct (u_build u), (u_requirements u) as [| |r]; try (by split_and!); cbv zeta; case_decide; by split_and!. }
  intros (e8 & H8 & H9)%bind_fine. assert (fields_ok e8.1) as H8'.
  { unfold edit_duty in H8. destruct e7. destruct H7' as (? & ? & ? & ? & ? & ? & ?). destruct (u_duty u) as [| |d]; [by injection H8 as <-|by injection H8 as <-|].
    destruct (_ || _); [by injection H8 as <-|]. apply bind_fine in H8 as ([] & _ & [= <-]). by split_and!. }
  unfold edit_target in H9. destruct e8. destruct H8' as (? & ? & ? & ? & ? & ? & ?), Hf as (_ & _ & _ & _ & _ & Hf & _).
  destruct (u_target u) as [| |g]; [by injection H9 as <-|by injection H9 as <-|]. cbv zeta in H9.
  destruct (match f_target f with Some k => _ | None => _ end); [by injection H9 as <-|]. apply bind_fine in H9 as ([] & _ & [= <-]). split_and!; try done.
  by apply storedTarget_ok.
Qed.

Lemma find_ok b id x : board_ok b -> find (plan b) id = Some x -> fields_ok (fields x.1).
Proof. intros [Hb _]. destruct x as [x up]. intros (_ & Hx & _)%find_Some. by apply Hb. Qed.
Lemma kept_ok b (id : string) (o : option string) : board_ok b ->
  opt_is fields_ok (if decide (Some id = o) then (fun x => fields x.1) <$> find (plan b) id else None).
Proof. intros Hb. case_decide; [|done]. destruct (find (plan b) id) as [x|] eqn:E; [|done]. by apply (find_ok b id). Qed.

Lemma builds_ok_all b now duties l : Forall (fun i => inputs_ok i -> forall s r, build b now duties s i = Fine r -> forall y, y ∈ under r.2 -> fields_ok (fields y)) l ->
  Forall inputs_ok l -> forall s r, builds b now duties s l = Fine r -> forall y, y ∈ nodes r.2 -> fields_ok (fields y).
Proof.
  induction 1 as [|i l Hi _ IH]; intros Hl s r; cbn [builds].
  - intros [= <-] y Hy. by apply not_elem_of_nil in Hy.
  - apply Forall_cons in Hl as [Hok Hl]. intros (x & Hx & (xs & Hxs & [= <-])%bind_fine)%bind_fine y. cbn [snd]. rewrite nodes_cons, elem_of_app.
    intros [Hy|Hy]; [by apply (Hi Hok s x Hx)|by apply (IH Hl _ _ Hxs)].
Qed.
Lemma build_ok_fields b now duties i : board_ok b -> inputs_ok i -> forall s r, build b now duties s i = Fine r -> forall y, y ∈ under r.2 -> fields_ok (fields y).
Proof.
  intros Hb. induction i as [id f ch IH] using Input_nested. intros Hi s r. rewrite build_unfold.
  intros (p & _ & ([] & _ & ([] & _ & (c & Hc & [= <-])%bind_fine)%bind_fine)%bind_fine)%bind_fine y. cbn [snd under]. rewrite elem_of_cons. intros [->|Hy].
  - apply item_fields_ok; [apply (Hi (id, f)); by left|by apply kept_ok].
  - assert (Forall inputs_ok ch) as Hch.
    { apply Forall_forall. intros x Hx z Hz. apply Hi. cbn [inputs_under]. right. apply list_elem_of_In, in_flat_map. exists x. split; by apply list_elem_of_In. }
    by apply (builds_ok_all b now duties ch IH Hch _ _ Hc).
Qed.

(** The items after an op. *)
Lemma op_items_ok b op actor now t duties w : board_ok b -> op_ok op -> applyBoardOp b op actor now t duties = Fine w ->
  forall y, y ∈ nodes (plan (w_board w)) -> fields_ok (fields y).
Proof.
  intros Hb Hop Hw y Hy. assert ((exists items, op = PlanSet items) \/ ~ exists items, op = PlanSet items) as [(items & ->)|Hno] by (destruct op; try (right; by intros [? ?]); left; by eexists).
  - unfold applyBoardOp in Hw. destruct (_ && _); [done|]. unfold plan_set in Hw. apply bind_fine in Hw as (r & Hr & [= <-]). rewrite finish_board in Hy. cbn [plan] in Hy.
    apply settled_from in Hy as (y0 & Hy0 & Hs). eapply settles_ok; [exact Hs|]. eapply builds_ok_all; [|  |exact Hr|exact Hy0].
    + apply Forall_forall. intros i _ Hi. by apply build_ok_fields.
    + apply Forall_forall. intros i Hin x Hx. apply Hop. apply list_elem_of_In, in_flat_map. exists i. split; by apply list_elem_of_In.
  - destruct (op_items _ _ _ _ _ _ _ _ Hw Hy) as [Hfrom|(f & Hf & Hs)]; [by eapply comes_ok|]. eapply settles_ok; [exact Hs|].
    destruct op as [items|parent i|id u|id|x c s l|id x d r l c|id]; try done.
    + destruct Hno. by exists items.
    + cbn in Hf. subst f. by apply item_fields_ok.
    + destruct Hf as (x & up & ps & Hfind & He). change f with (f, ps).1. eapply edit_ok; [exact Hop|apply (find_ok b id (x, up) Hb Hfind)|exact He].
Qed.

Lemma todo_edit_ok t x d r l c : todo_ok t -> op_ok (TodoUpdate (t_id t) x d r l c) ->
  todo_ok (todo_reply r t (todo_done d r t (todo_choices c t (todo_links l (todo_text x t (t, [])))))).1.
Proof.
  intros (Ht & Hr & Hc & Hl) (Ox & Or & Ol & Oc).
  set (e1 := todo_text x t (t, [])). assert (todo_ok e1.1) as H1'. { unfold e1, todo_text. destruct x; [|by split_and!]. case_decide; by split_and!. }
  set (e2 := todo_links l e1). assert (todo_ok e2.1) as H2'.
  { unfold e2, todo_links. destruct e1. destruct H1' as (? & ? & ? & ?). destruct l as [[|k l]|]; by split_and!. }
  set (e3 := todo_choices c t e2). assert (todo_ok e3.1) as H3'.
  { unfold e3, todo_choices. destruct e2. destruct H2' as (? & ? & ? & ?). destruct (new_choices c t); [|by split_and!]. cbv zeta. destruct c as [| |[|k l']]; by split_and!. }
  set (e4 := todo_done d r t e3). assert (todo_ok e4.1) as H4'.
  { unfold e4, todo_done. destruct d; [|done]. case_bool_decide; [done|]. destruct H3' as (? & ? & ? & ?). by split_and!. }
  unfold todo_reply. destruct H4' as (? & ? & ? & ?). destruct r as [| |r]; [by split_and!|by split_and!|]. destruct (chose _ _); [by split_and!|]. case_decide; by split_and!.
Qed.

(** The todos after an op. *)
Lemma op_todos_ok b op actor now t duties w : board_ok b -> op_ok op -> applyBoardOp b op actor now t duties = Fine w -> Forall todo_ok (todos (w_board w)).
Proof.
  intros [_ Hb] Hop Hw. destruct (owner_op op) eqn:Ho.
  - unfold applyBoardOp in Hw. rewrite Ho, andb_false_r in Hw. destruct op as [| | | |x c s l|id x d r l c|id]; try done.
    + unfold todo_add in Hw. apply bind_fine in Hw as ([] & _ & ([] & _ & [= <-])%bind_fine). rewrite finish_board. cbn [todos nullish default]. destruct Hop as (? & ? & ?).
      apply Forall_app. split; [done|]. apply Forall_singleton. by split_and!.
    + unfold todo_update in Hw. destruct (find_todo b id) as [td|] eqn:E; [|done]. destruct (_ && _); [done|]. destruct (_ && _ && _); [done|]. apply bind_fine in Hw as ([] & _ & [= <-]).
      rewrite finish_board. cbn [todos nullish default]. apply List.find_some in E as [Hin%list_elem_of_In _]. rewrite Forall_forall in Hb.
      apply Forall_fmap, Forall_forall. intros y Hy. cbn. case_decide; [|by apply Hb]. apply todo_edit_ok; [by apply Hb|exact Hop].
    + unfold todo_remove in Hw. destruct (find_todo b id); [|done]. injection Hw as <-. rewrite finish_board. cbn [todos nullish default]. rewrite Forall_forall in *.
      intros y [_ Hy]%list_elem_of_filter. by apply Hb.
  - assert (todos (w_board w) = todos b) as ->; [|done]. by apply (plan_op_todos _ _ _ _ _ _ _ Ho Hw).
Qed.

(** ** The theorem *)

Lemma apply_ops_ok ops actor now : forall b r, board_ok b -> Forall op_ok ops -> apply_ops b ops actor now = Fine r -> board_ok r.1.
Proof.
  induction ops as [|op ops IH]; intros b r Hb Hops; cbn [apply_ops]; [by intros [= <-]|].
  intros (w & Hw & (x & Hx & [= <-])%bind_fine)%bind_fine. apply Forall_cons in Hops as [Hop Hops]. apply (IH (w_board w) x); [|exact Hops|exact Hx].
  split; [exact (op_items_ok _ _ _ _ _ _ _ Hb Hop Hw)|exact (op_todos_ok _ _ _ _ _ _ _ Hb Hop Hw)].
Qed.
Lemma request_ok b r : board_ok b -> board_ok (request b r).
Proof.
  intros Hb. unfold request, apply_request. destruct (_ ≫= _) as [x| |] eqn:E; [|done|done]. apply bind_fine in E as (ops & Hp & Ha).
  eapply apply_ops_ok; [exact Hb| |exact Ha]. by eapply gives_fine; [apply parseBoardOps_gives|].
Qed.

(** C20: the types of a board hold: on a board made by any requests, of the agent and of the owner, whatever JSON they send, every item's text, note and awaited event and
    every todo's text, answer and choice has more than blanks, a wait time and a measurement's time are in the [toISOString] form, a target has its measurement whole or not
    at all and no negative number, a duty link parses, each link leads where [normalizeArtifactTarget] says, and no list a field may lack is empty. *)
Theorem requests_keep_board_types requests now : board_ok (fold_left request requests (emptyBoard now)).
Proof.
  assert (board_ok (emptyBoard now)) as Hb by (split; [intros y Hy; by apply not_elem_of_nil in Hy|by apply Forall_nil_2]).
  revert Hb. generalize (emptyBoard now) as b. induction requests as [|r rs IH]; intros b Hb; [done|]. cbn [fold_left]. by apply IH, request_ok.
Qed.
End Types.

(** ** Example: a request whose ops are taken, and one with a blank text *)

Definition demo_links : Links := {| normalizeArtifactTarget := fun s => if starts_with (to_chars "wiki:") (to_chars s) then Some s else None; toISOString := fun t => string_of_Z t |}.
Definition demo_request (fs : list (string * json)) : json * BoardActor * string := (JArr [JObj fs], Agent, "1").
Definition demo_after := fold_left (@request demo_dates demo_rules demo_links).

Example a_taken_request :
  (fun b : ChatBoard => (rev b, map text (nodes (plan b)), map t_choices (todos b)))
    (demo_after [demo_request [("op", JStr "plan_set"); ("items", JArr [JObj [("text", JStr "ship it"); ("children", JArr [JObj [("text", JStr "build it")]])]])];
                 demo_request [("op", JStr "plan_add"); ("text", JStr "  ")];
                 demo_request [("op", JStr "todo_add"); ("text", JStr "which?"); ("choices", JArr [JStr " a "; JStr "b"])]] (emptyBoard "0"))
  = (2, ["ship it"; "build it"], [Some ["a"; "b"]]).
Proof. vm_compute. reflexivity. Qed.
