(* ===== verification/Duty.v ===== *)
(** * Duties: definitions, ids and morning times

    [apps/chat/web/src/lib/api/shared/chat-duties.ts]: a duty as a file or a request defines it, the duties of a chat
    with a definition put in ([upsertDuty]), and the daily time a new duty gets.

    [dutyStrayBranches] of [machine-branches.ts], which reads text by regular expressions, is an argument. Two duties' [JSON.stringify] texts
    are compared as the duties are: every stored duty has the key order the parser gives it. *)

From S2P Require Import Prelude Json Board BoardText BoardParse.
From Stdlib Require Import QArith.QArith_base.
#[local] Open Scope string_scope.
#[local] Open Scope list_scope.
#[local] Open Scope Z_scope.

(** ** Data *)

Inductive Op := AtMost | AtLeast.
Record DutyMetric := mkMetric { k_key : string; k_label : string; k_op : Op; k_target : Q; k_unit : option string; k_headline : bool; k_windowMs : option Q }.
Record DutyReading := mkReading { rd_key : string; rd_label : string; rd_unit : option string }.
Inductive DutySchedule := Daily (at_ : string) | Every (minutes : Z).
Record DutyPrecheck := mkPrecheck { command : list string; cwd : string; timeoutMs : Q }.
Inductive DutyStatus := Active | Paused.

Record Duty := mkDuty {
  d_id : string; d_name : string; d_ownerWords : string; d_goal : string; d_metrics : list DutyMetric; d_readings : option (list DutyReading);
  d_schedule : DutySchedule; d_precheck : DutyPrecheck; d_onMiss : string; d_boardGoal : option string; d_status : DutyStatus;
  d_createdAt : Z; d_updatedAt : Z; d_runCount : Z; d_lastRunAt : option Z; d_lastSlotAt : option Z; d_lastSkippedAt : option Z
}.

#[export] Instance Op_eq : EqDecision Op.
Proof. solve_decision. Defined.
#[export] Instance DutyMetric_eq : EqDecision DutyMetric.
Proof. solve_decision. Defined.
#[export] Instance DutyReading_eq : EqDecision DutyReading.
Proof. solve_decision. Defined.
#[export] Instance DutySchedule_eq : EqDecision DutySchedule.
Proof. solve_decision. Defined.
#[export] Instance DutyPrecheck_eq : EqDecision DutyPrecheck.
Proof. solve_decision. Defined.
#[export] Instance DutyStatus_eq : EqDecision DutyStatus.
Proof. solve_decision. Defined.
#[export] Instance Duty_eq : EqDecision Duty.
Proof. solve_decision. Defined.

(** [headlineMetric] and [verdictMetrics]: the headline first, every other metric after it. *)
Definition headlineMetric (l : list DutyMetric) : option DutyMetric := List.find k_headline l.
Fixpoint without_first (p : DutyMetric -> bool) (l : list DutyMetric) : list DutyMetric :=
  match l with [] => [] | x :: r => if p x then r else x :: without_first p r end.
Definition verdictMetrics (l : list DutyMetric) : list DutyMetric :=
  match headlineMetric l with
  | Some h => h :: without_first k_headline l
  | None => l
  end.

Definition MAX_DUTY_METRICS : nat := 4.
Inductive ShapeProblem := TooMany (n : nat) | NoHeadline | Headlines (keys : list string).
Definition dutyShapeProblem (l : list DutyMetric) : option ShapeProblem :=
  let headlines := map k_key (base.filter (fun m => k_headline m = true) l) in
  if (MAX_DUTY_METRICS <? length l)%nat then Some (TooMany (length l))
  else match headlines with [] => Some NoHeadline | [_] => None | _ => Some (Headlines headlines) end.

(** ** Reading a definition *)

(** [typeof v === "string" && v.trim()]. *)
Definition text_of (v : option json) : option string := match v with Some (JStr s) => if bool_decide (trim s = "") then None else Some s | _ => None end.
(** [KEY]. *)
Definition key_ok (s : string) : bool := match to_chars s with b :: ms => link_head b && forallb metric_char ms && (length ms <=? 39)%nat | [] => false end.
(** [HHMM]. *)
Definition HHMM (s : string) : bool :=
  match to_chars s with
  | [a; b; c; d; e] =>
      (((code a =? 48) || (code a =? 49)) && is_digit b || (code a =? 50) && (48 <=? code b) && (code b <=? 51)) &&
      bool_decide (c = ":"%char) && (48 <=? code d) && (code d <=? 53) && is_digit e
  | _ => false
  end.
(** [/^p\d+$/]. *)
Definition plan_id (s : string) : bool := match to_chars s with c :: d :: ds => bool_decide (c = "p"%char) && forallb is_digit (d :: ds) | _ => false end.
(** [Number.isInteger]. *)
Definition Q_int (q : Q) : option Z := let z := Qnum q / Zpos (Qden q) in if z * Zpos (Qden q) =? Qnum q then Some z else None.
Definition above_zero (v : option json) : option Q := match v with Some (JNum n) => if negb (Qle_bool n 0) then Some n else None | _ => None end.

Definition SCHEDULE_ERROR : string := "schedule: { kind: daily, at: HH:MM } or { kind: every, minutes } with a whole number of minutes.".
Definition parseSchedule (v : option json) : result DutySchedule :=
  match v with
  | Some (JObj fs) =>
      match field fs "kind", field fs "at", field fs "minutes" with
      | Some (JStr "daily"), Some (JStr t), _ => if HHMM t then Ok (Daily t) else Throw SCHEDULE_ERROR
      | Some (JStr "every"), _, Some (JNum n) => match Q_int n with Some z => if 1 <=? z then Ok (Every z) else Throw SCHEDULE_ERROR | None => Throw SCHEDULE_ERROR end
      | _, _, _ => Throw SCHEDULE_ERROR
      end
  | _ => Throw SCHEDULE_ERROR
  end.

Definition parse_op (v : option json) : option Op := match v with Some (JStr "<=") => Some AtMost | Some (JStr ">=") => Some AtLeast | _ => None end.
Definition parse_unit (v : option json) : option (option string) := match v with None => Some None | Some (JStr u) => Some (Some u) | _ => None end.
Definition key_of (v : option json) : option string := match v with Some (JStr k) => if key_ok k then Some k else None | _ => None end.

Definition parse_metric (v : json) : option DutyMetric :=
  match v with
  | JObj fs =>
      k ← key_of (field fs "key");
      l ← text_of (field fs "label");
      o ← parse_op (field fs "op");
      t ← match field fs "target" with Some (JNum n) => Some n | _ => None end;
      u ← parse_unit (field fs "unit");
      Some (mkMetric k l o t u (match field fs "headline" with Some (JBool true) => true | _ => false end) (above_zero (field fs "windowMs")))
  | _ => None
  end.
Definition parse_reading (metrics : list DutyMetric) (v : json) : option DutyReading :=
  match v with
  | JObj fs =>
      k ← key_of (field fs "key");
      l ← text_of (field fs "label");
      u ← parse_unit (field fs "unit");
      if existsb (fun m => bool_decide (k_key m = k)) metrics then None else Some (mkReading k l u)
  | _ => None
  end.
(** [list.map] with a parser that throws with the index of what it cannot read. *)
Fixpoint each_at {A} (f : json -> option A) (error : Z -> string) (n : Z) (l : list json) : result (list A) :=
  match l with
  | [] => Ok []
  | v :: l => match f v with None => Throw (error n) | Some a => r ← each_at f error (n + 1) l; Ok (a :: r) end
  end.
Definition lead_single (l : list DutyMetric) : list DutyMetric :=
  match l with [m] => [mkMetric (k_key m) (k_label m) (k_op m) (k_target m) (k_unit m) true (k_windowMs m)] | _ => l end.

Definition PRECHECK_TARGET_MS : Q := 120000.
Definition word_of (v : json) : option string := match v with JStr s => if bool_decide (s = "") then None else Some s | _ => None end.
Definition parse_precheck (v : option json) : option DutyPrecheck :=
  match v with
  | Some (JObj fs) =>
      match field fs "command" with
      | Some (JArr (w :: ws)) =>
          words ← mapM word_of (w :: ws);
          c ← text_of (field fs "cwd");
          Some (mkPrecheck words c (nullish (above_zero (field fs "timeoutMs")) PRECHECK_TARGET_MS))
      | _ => None
      end
  | _ => None
  end.

Definition parse_metrics (v : option json) : result (list DutyMetric) :=
  match v with
  | Some (JArr (m :: ms)) => lead_single <$> each_at parse_metric (fun n => "metrics[" +:+ string_of_Z n +:+ "]: key, label, op (<= or >=) and target.") 0 (m :: ms)
  | _ => Throw "metrics: at least one, with the headline marked."
  end.
Definition parse_readings (metrics : list DutyMetric) (v : option json) : result (list DutyReading) :=
  match v with
  | None => Ok []
  | Some (JArr l) => each_at (parse_reading metrics) (fun n => "readings[" +:+ string_of_Z n +:+ "]: key, label and unit?, with a key that is no metric's.") 0 l
  | _ => Throw "readings: a list of { key, label, unit? }."
  end.
(** [if (cond) throw], on a value the condition finds. *)
Definition need {A} (o : option A) (message : string) : result A := match o with Some a => Ok a | None => Throw message end.
Definition parse_boardGoal (v : option json) : option (option string) := match v with None => Some None | Some (JStr s) => if plan_id s then Some (Some s) else None | _ => None end.

Definition parseDutyInput (v : json) (id : string) (now : Z) (schedule : option DutySchedule) : result Duty :=
  match v with
  | JObj fs =>
      name ← need (text_of (field fs "name")) "name: the system the duty looks after, in plain words.";
      words ← need (text_of (field fs "ownerWords")) "ownerWords: the owner's words, verbatim.";
      goal ← need (text_of (field fs "goal")) "goal: what good means, in plain words.";
      onMiss ← need (text_of (field fs "onMiss")) "onMiss: what the duty job does about a miss.";
      bg ← need (parse_boardGoal (field fs "boardGoal")) "boardGoal: a plan item id like p87.";
      ms ← parse_metrics (field fs "metrics");
      rs ← parse_readings ms (field fs "readings");
      sc ← match field fs "schedule", schedule with None, Some s => Ok s | s, _ => parseSchedule s end;
      pc ← need (parse_precheck (field fs "precheck")) "precheck: { command: [argv], cwd, timeoutMs? }.";
      Ok (mkDuty id (trim name) words (trim goal) ms (non_empty rs) sc pc (trim onMiss) bg Active now now 0 None None None)
  | _ => Throw "A duty is an object."
  end.

(** ** The duties of a chat *)

(** [Number(id.slice(1)) || 0] on the ids [nextDutyId] gives; any other text counts nothing. *)
Definition duty_number (id : string) : Z :=
  match to_chars id with _ :: d :: ds => if forallb is_digit (d :: ds) then digits_value (d :: ds) else 0 | _ => 0 end.
Definition top_number (ds : list Duty) : Z := fold_left (fun mx d => Z.max mx (duty_number (d_id d))) ds 0.
Definition nextDutyId (ds : list Duty) : string := "d" +:+ string_of_Z (top_number ds + 1).

Definition with_fields (e p : Duty) (updated : Z) : Duty :=
  mkDuty (d_id e) (d_name p) (d_ownerWords p) (d_goal p) (d_metrics p) (d_readings p) (d_schedule p) (d_precheck p) (d_onMiss p) (orelse (d_boardGoal p) (d_boardGoal e))
    (d_status e) (d_createdAt e) updated (d_runCount e) (d_lastRunAt e) (d_lastSlotAt e) (d_lastSkippedAt e).

Definition named (n : string) (d : Duty) : bool := bool_decide (d_name d = n).
(** [Object.assign(existing, ...)] on the first duty that [p] holds of. *)
Fixpoint replace_first (p : Duty -> bool) (x : Duty) (ds : list Duty) : list Duty :=
  match ds with [] => [] | d :: r => if p d then x :: r else d :: replace_first p x r end.

Section Upsert.
(** [dutyStrayBranches]. *)
Context (dutyStrayBranches : list (string * json) -> list string).

Definition STRAY_BRANCH_FIX : string := "Each machine has one checkout and one dev branch (c119): dev/sieun on us-metal02 and dev/sieun-mac on the Mac. " +:+
  "Name the machine's branch, and never give a job its own branch, clone or worktree.".
Definition stray_of (definition : json) : list string := match definition with JObj fs => dutyStrayBranches fs | _ => [] end.
Definition definition_name (definition : json) : option string :=
  match definition with JObj fs => match field fs "name" with Some (JStr s) => Some (trim s) | _ => None end | _ => None end.
Definition find_named (o : option string) (ds : list Duty) : option Duty := o ≫= fun n => List.find (named n) ds.

Definition upsertDuty (ds : list Duty) (definition : json) (now : Z) (morning : option string) : result (list Duty * string) :=
  let before := find_named (definition_name definition) ds in
  let stray := stray_of definition in
  if negb (bool_decide (stray = []))
  then Throw ("names " +:+ String.concat ", " (map (fun s => dquote +:+ s +:+ dquote) stray) +:+ ". " +:+ STRAY_BRANCH_FIX)
  else
    p ← parseDutyInput definition (nextDutyId ds) now (orelse (d_schedule <$> before) (Daily <$> truthy morning));
    match List.find (named (d_name p)) ds with
    | None => Ok (ds ++ [p], "added " +:+ d_id p)
    | Some e =>
        if decide (with_fields e p (d_updatedAt e) = e) then Ok (ds, "unchanged " +:+ d_id e)
        else Ok (replace_first (named (d_name p)) (with_fields e p now) ds, "updated " +:+ d_id e)
    end.
End Upsert.

(** [Boards.removeDuty], on the list. *)
Fixpoint remove_duty (id : string) (ds : list Duty) : list Duty :=
  match ds with [] => [] | d :: r => if decide (d_id d = id) then r else d :: remove_duty id r end.

(** ** Morning times *)

Inductive PoolPriority := High | Normal | Low.
Definition MORNING_BANDS (p : PoolPriority) : Z * Z := match p with High => (360, 459) | Normal => (460, 559) | Low => (560, 659) end.
Definition pad2 (n : Z) : string := if n <? 10 then "0" +:+ string_of_Z n else string_of_Z n.
Definition clock (minute : Z) : string := pad2 (minute / 60) +:+ ":" +:+ pad2 (minute mod 60).
Definition minutes (from to_ : Z) : list Z := seqZ from (Z.max 0 (to_ - from + 1)).

(** [draw n] is [Math.floor(random() * n)]. *)
Definition morningTime (taken : list string) (priority : PoolPriority) (draw : nat -> nat) : string :=
  let '(first, last_) := MORNING_BANDS priority in
  let free := base.filter (fun m => clock m ∉ taken) (minutes first last_) in
  match free with
  | m :: _ => clock (nullish (free !! Nat.min (length free - 1) (draw (length free))) m)
  | [] =>
      clock (match List.find (fun m => bool_decide (clock m ∉ taken)) (minutes (last_ + 1) (MORNING_BANDS Low).2) with
             | Some m => m
             | None => first + Z.min (last_ - first) (Z.of_nat (draw (Z.to_nat (last_ - first + 1))))
             end)
  end.

(** ** Ids *)

Lemma top_number_nonneg ds : 0 <= top_number ds.
Proof.
  unfold top_number. assert (forall l m, 0 <= m -> 0 <= fold_left (fun mx d => Z.max mx (duty_number (d_id d))) l m) as Hl; [|by apply Hl].
  induction l as [|x l IH]; intros m Hm; [done|]. cbn. apply IH. lia.
Qed.
Lemma duty_number_of n : 0 <= n -> duty_number ("d" +:+ string_of_Z n) = n.
Proof.
  intros Hn. destruct (string_of_Z_digits n Hn) as (H1 & H2 & H3). unfold duty_number, to_chars in *.
  change (String.list_ascii_of_string ("d" +:+ string_of_Z n)) with ("d"%char :: String.list_ascii_of_string (string_of_Z n)).
  destruct (String.list_ascii_of_string (string_of_Z n)) as [|d r]; [done|]. by rewrite H1, H2.
Qed.
Lemma duty_number_next ds : duty_number (nextDutyId ds) = top_number ds + 1.
Proof. apply duty_number_of. pose proof (top_number_nonneg ds). lia. Qed.
Lemma top_number_past ds m d : d ∈ ds -> duty_number (d_id d) <= fold_left (fun mx d => Z.max mx (duty_number (d_id d))) ds m.
Proof.
  assert (forall l m, m <= fold_left (fun mx d => Z.max mx (duty_number (d_id d))) l m) as Hge.
  { induction l as [|x l IH]; intros n; cbn; [lia|]. specialize (IH (Z.max n (duty_number (d_id x)))). lia. }
  revert m. induction ds as [|x ds IH]; intros m; [by intros ?%not_elem_of_nil|]. cbn. intros [->|Hd]%elem_of_cons; [|by apply IH].
  specialize (Hge ds (Z.max m (duty_number (d_id x)))). lia.
Qed.
Lemma nextDutyId_fresh ds : nextDutyId ds ∉ map d_id ds.
Proof.
  intros (d & He & Hd)%list_elem_of_fmap. pose proof (top_number_past ds 0 d Hd) as Ht. rewrite <- He, duty_number_next in Ht. unfold top_number in Ht. lia.
Qed.

(** ** A definition read twice *)

Definition redefine (p : Duty) (id : string) (now : Z) : Duty :=
  mkDuty id (d_name p) (d_ownerWords p) (d_goal p) (d_metrics p) (d_readings p) (d_schedule p) (d_precheck p) (d_onMiss p) (d_boardGoal p) Active now now 0 None None None.

Lemma need_ok {A} (o : option A) m a : need o m = Ok a <-> o = Some a.
Proof. destruct o; cbn; split; congruence. Qed.

Lemma parse_again v id now sc p : parseDutyInput v id now sc = Ok p ->
  definition_name v = Some (d_name p) /\ p = redefine p id now /\
  forall id' now', parseDutyInput v id' now' (Some (d_schedule p)) = Ok (redefine p id' now').
Proof.
  destruct v as [| | | | |fs]; try done. cbn [parseDutyInput].
  intros (name & Hn & (words & Hw & (goal & Hg & (om & Ho & (bg & Hb & (ms & Hm & (rs & Hr & (s & Hs & (pc & Hp & [= <-])%bind_ok)%bind_ok)%bind_ok)%bind_ok)%bind_ok)%bind_ok)%bind_ok)%bind_ok)%bind_ok.
  split_and!; [|done|].
  - apply need_ok in Hn. unfold text_of in Hn. cbn [definition_name]. destruct (field fs "name") as [[| | |s0| |]|]; try done. case_bool_decide; [done|]. by injection Hn as ->.
  - intros id' now'. rewrite Hn, Hw, Hg, Ho, Hb. cbn [mbind result_bind]. rewrite Hm. cbn [mbind result_bind]. rewrite Hr. cbn [mbind result_bind d_schedule].
    destruct (field fs "schedule"); [rewrite Hs|]; cbn [mbind result_bind]; rewrite Hp; done.
Qed.

Lemma find_replace p x ds d : List.find p ds = Some d -> p x = true -> List.find p (replace_first p x ds) = Some x.
Proof. induction ds as [|e ds IH]; cbn; [done|]. destruct (p e) eqn:E; cbn; [intros _ ->; done|]. rewrite E. apply IH. Qed.
Lemma find_snoc {A} (p : A -> bool) l x : List.find p l = None -> p x = true -> List.find p (l ++ [x]) = Some x.
Proof. induction l as [|e l IH]; cbn; [by intros _ ->|]. destruct (p e); [done|apply IH]. Qed.

Lemma find_some_iff {A} (p : A -> bool) l x : List.find p l = Some x -> x ∈ l /\ p x = true.
Proof. intros [Hx Hp]%List.find_some. split; [by apply list_elem_of_In|done]. Qed.
Lemma replace_first_map {B} (f : Duty -> B) p x d ds : List.find p ds = Some d -> f x = f d -> map f (replace_first p x ds) = map f ds.
Proof. induction ds as [|e ds IH]; cbn; [done|]. destruct (p e); cbn; [by intros [= ->] ->|]. intros Hf Hx. by rewrite IH. Qed.
Lemma replace_first_length p x d ds : List.find p ds = Some d -> length (replace_first p x ds) = length ds.
Proof. intros Hf. pose proof (f_equal length (replace_first_map (fun _ => tt) p x d ds Hf eq_refl)) as Hl. by rewrite !length_map in Hl. Qed.
Lemma replace_first_elem p x ds d : d ∈ ds -> p d = false -> d ∈ replace_first p x ds.
Proof.
  induction ds as [|e ds IH]; [by intros ?%not_elem_of_nil|]. cbn. intros [->|Hd]%elem_of_cons Hp.
  - rewrite Hp. by left.
  - destruct (p e); right; [done|by apply IH].
Qed.

(** ** The theorems *)

(** A chat's duties have distinct ids and distinct names. *)
Definition distinct (ds : list Duty) : Prop := NoDup (map d_id ds) /\ NoDup (map d_name ds).
(** [e'] keeps the run state of [e]: its id, status, start and counts. *)
Definition same_run_state (e e' : Duty) : Prop :=
  d_id e' = d_id e /\ d_status e' = d_status e /\ d_createdAt e' = d_createdAt e /\ d_runCount e' = d_runCount e /\
  d_lastRunAt e' = d_lastRunAt e /\ d_lastSlotAt e' = d_lastSlotAt e /\ d_lastSkippedAt e' = d_lastSkippedAt e.

Section Upserts.
Context (dutyStrayBranches : list (string * json) -> list string).
Local Abbreviation upsertDuty := (upsertDuty dutyStrayBranches).

Lemma upsert_cases ds def now m ds' r : upsertDuty ds def now m = Ok (ds', r) ->
  exists p, definition_name def = Some (d_name p) /\ p = redefine p (nextDutyId ds) now /\
    (forall id' now', parseDutyInput def id' now' (Some (d_schedule p)) = Ok (redefine p id' now')) /\ stray_of dutyStrayBranches def = [] /\
    match List.find (named (d_name p)) ds with
    | None => ds' = ds ++ [p] /\ r = "added " +:+ d_id p
    | Some e => (with_fields e p (d_updatedAt e) = e /\ ds' = ds /\ r = "unchanged " +:+ d_id e) \/
                (ds' = replace_first (named (d_name p)) (with_fields e p now) ds /\ r = "updated " +:+ d_id e)
    end.
Proof.
  unfold Duty.upsertDuty. cbv zeta. destruct (negb _) eqn:Hs; [done|]. apply negb_false_iff, bool_decide_eq_true in Hs. intros (p & Hp & Hr)%bind_ok.
  destruct (parse_again _ _ _ _ _ Hp) as (Hn & Hd & Ha). exists p. split_and!; [done|done|done|done|].
  destruct (List.find _ ds) as [e|]; [|by injection Hr as <- <-]. destruct (decide _); injection Hr as <- <-; [by left|by right].
Qed.

(** [upsertDuty] keeps a chat's duties in order: from distinct ids and names, the ids and names stay distinct, a new id is one no duty of the chat has, every
    duty of another name is untouched, and a definition of a name that is there keeps its duty's id, status, start, run count and run times. *)
Theorem upsert_duty_spec ds def now m ds' r :
  distinct ds -> upsertDuty ds def now m = Ok (ds', r) ->
  distinct ds' /\ exists n, definition_name def = Some n /\
    (forall d, d ∈ ds -> d_name d <> n -> d ∈ ds') /\
    (forall e, e ∈ ds -> d_name e = n -> exists e', e' ∈ ds' /\ d_name e' = n /\ same_run_state e e' /\ length ds' = length ds) /\
    ((exists e, e ∈ ds /\ d_name e = n) \/ exists p, ds' = ds ++ [p] /\ d_name p = n /\ d_id p = nextDutyId ds /\ d_id p ∉ map d_id ds).
Proof.
  intros [Hids Hnames] (p & Hn & Hp & _ & _ & Hc)%upsert_cases. destruct (List.find (named (d_name p)) ds) as [e|] eqn:E.
  - pose proof (find_some_iff _ _ _ E) as [He Hne%bool_decide_eq_true]. assert (forall d, d ∈ ds -> d_name d = d_name p -> d = e) as Huniq.
    { intros d Hd Hdn. apply (nodup_key d_name ds); [done|done|done|congruence]. }
    destruct Hc as [(_ & -> & _)|(-> & _)].
    + split; [done|]. exists (d_name p). split_and!; [done|done| |left; by exists e]. intros d Hd Hdn. exists d. by split_and!.
    + split.
      { split; [rewrite (replace_first_map d_id _ _ e)|rewrite (replace_first_map d_name _ _ e)]; done. }
      exists (d_name p). split_and!; [done| | |left; by exists e].
      * intros d Hd Hdn. apply replace_first_elem; [done|]. by apply bool_decide_eq_false.
      * intros d Hd Hdn. rewrite (Huniq d Hd Hdn). exists (with_fields e p now). split_and!; try done.
        -- apply find_replace with (x := with_fields e p now) in E; [|by apply bool_decide_eq_true]. by apply find_some_iff in E as [? _].
        -- by apply replace_first_length with e.
  - destruct Hc as [-> _]. assert (forall d, d ∈ ds -> d_name d <> d_name p) as Hno.
    { intros d Hd Hdn. apply List.find_none with (x := d) in E; [|by apply list_elem_of_In]. by apply bool_decide_eq_false in E. }
    assert (d_id p = nextDutyId ds) as Hid by (by rewrite Hp). split.
    { split; rewrite map_app; apply NoDup_app; (split; [done|split; [|apply NoDup_singleton]]); intros x Hx ->%list_elem_of_singleton.
      - rewrite Hid in Hx. by apply nextDutyId_fresh in Hx.
      - apply list_elem_of_fmap in Hx as (d & Hdn & Hd). by apply (Hno d). }
    exists (d_name p). split_and!; [done| | |].
    + intros d Hd _. apply elem_of_app. by left.
    + intros e He Hen. by destruct (Hno e).
    + right. exists p. split_and!; [done|done|done|]. rewrite Hid. apply nextDutyId_fresh.
Qed.

(** applying a definition twice changes nothing: after an upsert, the same definition at any later time and with any free morning minute leaves the duties as they
    are and says so. *)
Theorem upsert_duty_idempotent ds def now m ds' r now' m' :
  upsertDuty ds def now m = Ok (ds', r) -> exists e, e ∈ ds' /\ upsertDuty ds' def now' m' = Ok (ds', "unchanged " +:+ d_id e).
Proof.
  intros (p & Hn & Hp & Hagain & Hs & Hc)%upsert_cases.
  assert (exists e, List.find (named (d_name p)) ds' = Some e /\ with_fields e (redefine p (nextDutyId ds') now') (d_updatedAt e) = e) as (e & He & Hsame).
  { destruct (List.find _ ds) as [e|] eqn:E.
    - pose proof (find_some_iff _ _ _ E) as [_ Hne]. destruct Hc as [(Hw & -> & _)|(-> & _)]; [by exists e|].
      exists (with_fields e p now). split; [apply (find_replace _ _ _ e E); by apply bool_decide_eq_true|]. unfold with_fields. cbn. by destruct (d_boardGoal p).
    - destruct Hc as [-> _]. exists p. split; [apply find_snoc; [done|by apply bool_decide_eq_true]|]. rewrite Hp. unfold with_fields, redefine. cbn. by destruct (d_boardGoal p). }
  exists e. split; [by apply find_some_iff in He as [? _]|]. unfold Duty.upsertDuty. cbv zeta. rewrite Hs. cbn [bool_decide negb]. rewrite Hn. unfold find_named. cbn [mbind option_bind]. rewrite He.
  cbn [fmap option_fmap option_map orelse]. assert (d_schedule e = d_schedule p) as -> by (by rewrite <- Hsame). rewrite Hagain. cbn [mbind result_bind]. cbn [redefine d_name]. rewrite He.
  by rewrite decide_True.
Qed.

Lemma top_number_snoc ds d : top_number (ds ++ [d]) = Z.max (top_number ds) (duty_number (d_id d)).
Proof. unfold top_number. by rewrite fold_left_app. Qed.
Lemma remove_last ds d : d_id d ∉ map d_id ds -> remove_duty (d_id d) (ds ++ [d]) = ds.
Proof.
  induction ds as [|e ds IH]; cbn; [by rewrite decide_True|]. rewrite not_elem_of_cons. intros [Hne Hd]. rewrite decide_False by congruence. by rewrite IH.
Qed.

(** [nextDutyId] gives a removed duty's id again: once the newest duty is removed, the next one added takes its id, so a plan step that still names
    the removed duty's metric reads as a fix of the new one. *)
Theorem removed_duty_id_returns ds def1 now1 m1 p1 def2 now2 m2 ds3 p2 :
  upsertDuty ds def1 now1 m1 = Ok (ds ++ [p1], "added " +:+ d_id p1) ->
  upsertDuty (remove_duty (d_id p1) (ds ++ [p1])) def2 now2 m2 = Ok (ds3, "added " +:+ d_id p2) ->
  ds3 = ds ++ [p2] -> d_id p2 = d_id p1.
Proof.
  intros (q1 & _ & Hq1 & _ & _ & H1)%upsert_cases H2%upsert_cases ->.
  assert (d_id p1 = nextDutyId ds) as Hid1.
  { destruct (List.find (named (d_name q1)) ds) as [e|] eqn:E; [|destruct H1 as [[= <-]%app_inv_head _]; by rewrite Hq1].
    exfalso. assert (length (ds ++ [p1]) = length ds) as Hl; [|rewrite length_app in Hl; cbn in Hl; lia].
    destruct H1 as [(_ & -> & _)|(-> & _)]; [done|]. by apply replace_first_length with e. }
  rewrite remove_last in H2 by (rewrite Hid1; apply nextDutyId_fresh). destruct H2 as (q2 & _ & Hq2 & _ & _ & H2). rewrite Hid1.
  destruct (List.find (named (d_name q2)) ds) as [e|] eqn:E; [|destruct H2 as [[= <-]%app_inv_head _]; by rewrite Hq2].
  exfalso. assert (length (ds ++ [p2]) = length ds) as Hl; [|rewrite length_app in Hl; cbn in Hl; lia].
  destruct H2 as [(_ & -> & _)|(-> & _)]; [done|]. by apply replace_first_length with e.
Qed.
End Upserts.

(** ** Morning times *)

Lemma minutes_elem a b m : m ∈ minutes a b <-> a <= m <= b.
Proof. unfold minutes. rewrite elem_of_seqZ. lia. Qed.
Lemma first_minute p n : forall a m, List.find p (seqZ a (Z.of_nat n)) = Some m -> forall k, a <= k < m -> p k = false.
Proof.
  induction n as [|n IH]; intros a m; [done|]. rewrite seqZ_cons by lia. cbn [List.find]. destruct (p a) eqn:E; [intros [= ->]; lia|]. intros Hf k Hk.
  destruct (decide (k = a)) as [->|Hne]; [done|]. replace (Z.pred (Z.of_nat (S n))) with (Z.of_nat n) in Hf by lia. apply (IH _ _ Hf). lia.
Qed.
Lemma band_in_window p : 360 <= (MORNING_BANDS p).1 <= (MORNING_BANDS p).2 /\ (MORNING_BANDS p).2 <= 659.
Proof. destruct p; cbn; lia. Qed.

(** a new duty's morning time: it is a minute of the window 06:00 to 10:59; when a minute of the priority's band is free it is a free minute of the band,
    whatever the random draw; when none is and a later one of the window is free, it is the first free minute after the band; else it is a minute of the band. *)
Theorem morning_time_spec taken priority draw :
  exists m, morningTime taken priority draw = clock m /\
    let '(a, z) := MORNING_BANDS priority in
    360 <= m <= 659 /\
    ((exists k, a <= k <= z /\ clock k ∉ taken) -> a <= m <= z /\ clock m ∉ taken) /\
    ((forall k, a <= k <= z -> clock k ∈ taken) -> (exists k, z < k <= 659 /\ clock k ∉ taken) ->
       z < m /\ (clock m ∉ taken) /\ (forall k, z < k < m -> clock k ∈ taken)) /\
    ((forall k, a <= k <= 659 -> clock k ∈ taken) -> a <= m <= z).
Proof.
  unfold morningTime. pose proof (band_in_window priority) as Hband. destruct (MORNING_BANDS priority) as [a z]. cbn [fst snd] in Hband. cbn [MORNING_BANDS snd].
  destruct (base.filter (fun m => clock m ∉ taken) (minutes a z)) as [|m0 free] eqn:Efree.
  - assert (forall k, a <= k <= z -> clock k ∈ taken) as Hfull.
    { intros k Hk. destruct (decide (clock k ∈ taken)) as [|Hn]; [done|]. assert (k ∈ base.filter (fun m => clock m ∉ taken) (minutes a z)) as Hin by (by apply list_elem_of_filter; rewrite minutes_elem).
      rewrite Efree in Hin. by apply not_elem_of_nil in Hin. }
    destruct (List.find _ _) as [m|] eqn:Ef.
    + exists m. split; [done|]. apply List.find_some in Ef as Hm. destruct Hm as [Hm%list_elem_of_In Hfree%bool_decide_eq_true]. apply minutes_elem in Hm. split_and!; [lia|lia| | |].
      * intros (k & Hk & Hn). by destruct Hn; apply Hfull.
      * intros _ _. split_and!; [lia|done|]. intros k Hk. unfold minutes in Ef. rewrite <- (Z2Nat.id (Z.max 0 _)) in Ef by lia.
        apply first_minute with (k := k) in Ef; [|lia]. apply bool_decide_eq_false in Ef. by apply dec_stable.
      * intros Hall. exfalso. apply Hfree, Hall. lia.
    + eexists. split; [reflexivity|]. split_and!; [lia|lia| | |].
      * intros (k & Hk & Hn). by destruct Hn; apply Hfull.
      * intros _ (k & Hk & Hn). exfalso. apply List.find_none with (x := k) in Ef; [|apply list_elem_of_In, minutes_elem; lia]. by apply bool_decide_eq_false in Ef.
      * intros _. lia.
  - assert (exists m, nullish ((m0 :: free) !! Nat.min (length (m0 :: free) - 1) (draw (length (m0 :: free)))) m0 = m /\ m ∈ m0 :: free) as (m & -> & Hm).
    { eexists. split; [reflexivity|]. destruct ((m0 :: free) !! _) as [x|] eqn:E; [by apply list_elem_of_lookup_2 in E|by left]. }
    rewrite <- Efree in Hm. apply list_elem_of_filter in Hm as [Hfree Hm%minutes_elem]. exists m. split; [done|]. split_and!; [lia|lia|done| |lia].
    intros Hfull. destruct Hfree. by apply Hfull.
Qed.

(** ** Examples *)

Definition demo_duty (name : string) : json :=
  JObj [("name", JStr name); ("ownerWords", JStr "keep it up"); ("goal", JStr "no errors"); ("onMiss", JStr "fix it");
        ("metrics", JArr [JObj [("key", JStr "errors_24h"); ("label", JStr "Errors"); ("op", JStr "<="); ("target", JNum 0)]]);
        ("precheck", JObj [("command", JArr [JStr "node"; JStr "check.mjs"]); ("cwd", JStr "/srv")])].
Definition no_stray (fs : list (string * json)) : list string := [].
Definition demo_duties : list Duty := match upsertDuty no_stray [] (demo_duty "errors") 5 (Some "06:10") with Ok (ds, _) => ds | Throw _ => [] end.

Lemma upsert_duty_spec_witness :
  exists ds' r, upsertDuty no_stray demo_duties (demo_duty "uptime") 9 (Some "06:20") = Ok (ds', r) /\ r = "added d2" /\ distinct ds'.
Proof.
  destruct (upsertDuty no_stray demo_duties (demo_duty "uptime") 9 (Some "06:20")) as [[ds' r]|e] eqn:E; [|by vm_compute in E]. exists ds', r.
  split; [done|]. split; [by vm_compute in E; injection E as _ <-|].
  refine (proj1 (upsert_duty_spec no_stray demo_duties _ _ _ _ _ _ E)). split; apply (bool_decide_unpack _); by vm_compute.
Defined.

Lemma upsert_duty_idempotent_witness :
  exists e, e ∈ demo_duties /\ upsertDuty no_stray demo_duties (demo_duty "errors") 70 None = Ok (demo_duties, "unchanged " +:+ d_id e).
Proof.
  destruct (upsertDuty no_stray [] (demo_duty "errors") 5 (Some "06:10")) as [[ds' r]|e] eqn:E; [|by vm_compute in E].
  assert (demo_duties = ds') as -> by (unfold demo_duties; by rewrite E). exact (upsert_duty_idempotent no_stray [] _ _ _ _ _ 70 None E).
Defined.

Lemma removed_duty_id_returns_witness :
  exists p1 p2, d_name p1 = "uptime" /\ d_name p2 = "latency" /\ d_id p2 = d_id p1.
Proof.
  destruct (upsertDuty no_stray demo_duties (demo_duty "uptime") 9 (Some "06:20")) as [[ds2 r2]|e2] eqn:E2; [|by vm_compute in E2].
  set (p1 := nullish (last ds2) (redefine (nullish (head demo_duties) (mkDuty "" "" "" "" [] None (Every 1) (mkPrecheck [] "" 0) "" None Active 0 0 0 None None None)) "" 0)).
  destruct (upsertDuty no_stray demo_duties (demo_duty "latency") 9 (Some "06:20")) as [[ds3 r3]|e3] eqn:E3; [|by vm_compute in E3].
  set (p2 := nullish (last ds3) p1). exists p1, p2. split; [by vm_compute in E2; injection E2 as <- _|]. split; [by vm_compute in E3; injection E3 as <- _|].
  apply (removed_duty_id_returns no_stray demo_duties (demo_duty "uptime") 9 (Some "06:20") p1 (demo_duty "latency") 9 (Some "06:20") ds3 p2).
  - rewrite E2. vm_compute in E2. injection E2 as <- <-. by vm_compute.
  - assert (remove_duty (d_id p1) (demo_duties ++ [p1]) = demo_duties) as -> by (vm_compute in E2; injection E2 as <- _; by vm_compute). rewrite E3. vm_compute in E3. injection E3 as <- <-. by vm_compute.
  - vm_compute in E3. injection E3 as <- _. by vm_compute.
Defined.
