(* ===== verification/DutyJudge.v ===== *)
(** * Judging a duty: verdicts, streaks and fixes

    [chat-duties.ts] where it judges a precheck's output, [duty-streak.ts], [duty-card.ts] where it reads runs, and
    [duty-run.ts] where it makes a run's record ([apps/chat/web/src/lib/api/shared] and [apps/chat/server]).

    A metric's numbers are the fractions [Q] the finite doubles name, compared and subtracted exactly. How a number or a time prints is an argument. *)

From S2P Require Import Prelude Json Board BoardText BoardParse Duty.
From Stdlib Require Import QArith.QArith_base QArith.Qabs.
#[local] Open Scope string_scope.
#[local] Open Scope list_scope.
#[local] Open Scope Z_scope.

(** ** Data *)

Inductive Verdict := VMet | VMissed | VError | VSkipped.
#[export] Instance Verdict_eq : EqDecision Verdict.
Proof. solve_decision. Defined.

Record MetricResult := mkResult { v_value : Q; v_target : Q; v_op : Op; v_met : bool; v_lastEventAt : option Q; v_windowMs : option Q }.
Definition Results : Type := list (string * MetricResult).
Record FlaggedSlice := mkSlice { s_kind : string; s_excerpt : string; s_item : option string; s_host : option string; s_handOff : bool }.
(** A precheck's output; its values are JSON until they are read as numbers. *)
Record PrecheckOutput := mkOutput {
  o_metrics : list (string * json); o_flagged : list FlaggedSlice; o_lastEventAt : list (string * json); o_windowMs : list (string * json); o_items : list (string * json)
}.
(** What a run or its after-job measure reads. *)
Record Measure := mkMeasure { verdict : Verdict; metrics : Results; summary : string; parts : option Results; items : option Results }.
Record FixTarget := mkFixTarget { ft_current : Q; ft_target : Q; ft_direction : option Direction }.
Record FixLink := mkFix { fx_step : string; fx_job : option string; fx_live : bool; fx_hold : option string; fx_target : option FixTarget }.
Record DutyRunRecord := mkRun {
  run_at : Z; run_measure : Measure; run_error : option string; run_overrun : bool; run_fixes : list (string * FixLink); run_job : option (string * string);
  run_after : option (Z * Measure); run_cut : bool; run_readings : option (list (string * Q)); run_hostAway : option string
}.

(** ** Reading an output *)

Definition PLACEHOLDER : Q := 999999.
Definition isPlaceholder (q : Q) : bool := Qeq_bool q PLACEHOLDER || Qeq_bool q (Qopp PLACEHOLDER).
(** [typeof v === "number" && Number.isFinite(v)]: JSON gives no other number but one past the doubles. *)
Definition number (v : option json) : option Q := match v with Some (JNum n) => Some n | _ => None end.
(** A number that is a measure. *)
Definition value_at (k : string) (l : list (string * json)) : option Q :=
  match number (OMap.get k l) with Some n => if isPlaceholder n then None else Some n | None => None end.
Definition compares (o : Op) (value target : Q) : bool := match o with AtMost => Qle_bool value target | AtLeast => Qle_bool target value end.
Definition met (m : DutyMetric) (value : Q) : bool := compares (k_op m) value (k_target m).

Definition result_of (o : PrecheckOutput) (m : DutyMetric) (value : Q) : MetricResult :=
  mkResult value (k_target m) (k_op m) (met m value) (number (OMap.get (k_key m) (o_lastEventAt o))) (above_zero (OMap.get (k_key m) (o_windowMs o))).
Definition some_results {A} (l : list (string * A)) : option (list (string * A)) := match l with [] => None | _ => Some l end.

Definition metricParts (ms : list DutyMetric) (o : PrecheckOutput) : option Results :=
  some_results (fold_left (fun parts kv =>
    match List.find (fun m => starts_with (to_chars (k_key m +:+ "_")) (to_chars kv.1)) ms with
    | Some m =>
        if existsb (fun m => bool_decide (k_key m = kv.1)) ms then parts
        else match value_at kv.1 [kv] with Some v => OMap.set kv.1 (mkResult v (k_target m) (k_op m) (met m v) None None) parts | None => parts end
    | None => parts
    end) (o_metrics o) []).
Definition outputReadings (rs : option (list DutyReading)) (o : PrecheckOutput) : option (list (string * Q)) :=
  some_results (fold_left (fun found r => match value_at (rd_key r) (o_metrics o) with Some v => OMap.set (rd_key r) v found | None => found end) (nullish rs []) []).
Definition item_result (v : json) : option MetricResult :=
  match v with
  | JObj fs =>
      x ← number (field fs "value");
      t ← number (field fs "target");
      o ← parse_op (field fs "op");
      if isPlaceholder x then None else Some (mkResult x t o (compares o x t) None None)
  | _ => None
  end.
Definition outputItems (o : PrecheckOutput) : option Results :=
  some_results (fold_left (fun found kv => match item_result kv.2 with Some r => OMap.set kv.1 r found | None => found end) (o_items o) []).

Definition HOST_AWAY : string := "host_away".
Definition hostAwayOf (o : PrecheckOutput) : option string :=
  List.find (fun s => bool_decide (s_kind s = HOST_AWAY) && bool_decide (truthy (s_host s) <> None)) (o_flagged o) ≫= s_host.

(** ** Runs as judged *)

Definition effectiveRun (r : DutyRunRecord) : Measure := match run_after r with Some (_, m) => m | None => run_measure r end.
Definition is_measured (v : Verdict) : bool := match v with VMet | VMissed => true | _ => false end.
Definition measured (r : DutyRunRecord) : bool := is_measured (verdict (effectiveRun r)).
Definition taken_at (r : DutyRunRecord) : Z := match run_after r with Some (t, _) => t | None => run_at r end.

(** [measuredAt]. *)
Definition newer (found : bool) (t : Z) (newest : option Z) : option Z :=
  if found && match newest with Some n => n <? t | None => true end then Some t else newest.
Definition measuredAt (runs : list DutyRunRecord) (key : string) : option Z :=
  fold_left (fun newest r =>
    let newest := newer (OMap.has key (metrics (run_measure r))) (run_at r) newest in
    match run_after r with Some (t, m) => newer (OMap.has key (metrics m)) t newest | None => newest end) runs None.

Definition newestReading (runs : list DutyRunRecord) : option DutyRunRecord :=
  fold_left (fun best r => if measured r && match best with Some b => taken_at b <? taken_at r | None => true end then Some r else best) runs None.

Definition streakRuns (runs : list DutyRunRecord) : list DutyRunRecord :=
  match base.filter (fun r => measured r = true) runs with
  | [] => []
  | r :: l => r :: base.filter (fun r => run_cut r = false) l
  end.
Definition missStreak (runs : list DutyRunRecord) : nat :=
  length (take_while (fun r => bool_decide (verdict (effectiveRun r) = VMissed)) (streakRuns runs)).
Definition errorStreak (runs : list DutyRunRecord) : nat :=
  length (take_while (fun r => bool_decide (verdict (run_measure r) = VError)) (base.filter (fun r => verdict (run_measure r) <> VSkipped) runs)).

Section Judge.
(** [show] of a number, and the minute a time prints as. *)
Context (rounded : Q -> string) (iso_minute : Z -> string).

Definition show (m : DutyMetric) (value : Q) : string := rounded value +:+ nullish (k_unit m) "".

Definition SHAPE_FIX : string := "keep the one number the owner would ask about as the headline (" +:+ dquote +:+ "headline" +:+ dquote +:+
  ": true), keep up to 3 supporting numbers he can read, and leave the rest in the precheck output, where the run detail shows them".
Definition shapeNote (ms : list DutyMetric) : option string :=
  match dutyShapeProblem ms with
  | None => None
  | Some _ =>
      let headlines := length (base.filter (fun m => k_headline m = true) ms) in
      Some ("this duty is over the shape target of one headline and 3 more (" +:+ string_of_Z (Z.of_nat (length ms)) +:+ " metrics, " +:+
        (if bool_decide (headlines = 1%nat) then "1 headline" else string_of_Z (Z.of_nat headlines) +:+ " headlines") +:+
        "), and the verdict counts all of them; tell the chat to rework it with scripts/duties/add.ts: " +:+ SHAPE_FIX)
  end.

Definition sourceReasons (o : PrecheckOutput) : string :=
  let reasons := remove_dups (reverse (map (fun s => trim (s_excerpt s))
    (base.filter (fun s => s_kind s = "source_error" \/ s_kind s = "gap" \/ s_kind s = HOST_AWAY) (o_flagged o)))) in
  let text := String.concat "; " (take 4 (reverse reasons)) in
  if (300 <? String.length text)%nat then String.substring 0 299 text +:+ "…" else text.

Definition UNMEASURED_HEADLINE_MS : Z := 24 * 60 * 60000.
Definition oldest (runs : list DutyRunRecord) : option Z := match runs with [] => None | r :: l => Some (fold_left (fun m r => Z.min m (run_at r)) l (run_at r)) end.
(** [Math.round]. *)
Definition hours_of (ms : Z) : Z := (2 * ms + 3600000) / 7200000.
Definition staleHeadline (ms : list DutyMetric) (o : PrecheckOutput) (now : Z) (runs : list DutyRunRecord) : option string :=
  match verdictMetrics ms with
  | [] => None
  | lead :: _ =>
      if bool_decide (value_at (k_key lead) (o_metrics o) <> None) then None
      else
        let last_ := measuredAt runs (k_key lead) in
        match orelse last_ (oldest runs) with
        | None => None
        | Some since =>
            if now - since <=? UNMEASURED_HEADLINE_MS then None
            else Some ("unmeasured: " +:+ k_key lead +:+ ", the headline, has no value " +:+ (match last_ with None => "in any run since" | Some _ => "since its last measure at" end) +:+ " " +:+
                       iso_minute since +:+ "Z, " +:+ string_of_Z (hours_of (now - since)) +:+ " h ago, over the " +:+ string_of_Z (UNMEASURED_HEADLINE_MS / 3600000) +:+ " h limit")
        end
  end.

Definition miss_text (m : DutyMetric) (value : Q) : string :=
  k_key m +:+ " " +:+ show m value +:+ " (target " +:+ (match k_op m with AtMost => "at most" | AtLeast => "at least" end) +:+ " " +:+ show m (k_target m) +:+ ")".
Definition unmeasured_text (o : PrecheckOutput) (missing placeholders : list DutyMetric) : string :=
  let reasons := match missing ++ placeholders with [] => "" | _ => sourceReasons o end in
  String.concat " and " (
    (match missing with [] => [] | l => ["the precheck gave no value for " +:+ String.concat ", " (map k_key l)] end) ++
    (match placeholders with [] => [] | l => ["the precheck wrote the placeholder 999999 for " +:+ String.concat ", " (map k_key l)] end)) +:+
  (if bool_decide (reasons = "") then "" else " (" +:+ reasons +:+ ")").

(** One pass of the loop over the measured metrics: the results, and the misses in words. *)
Definition judge_metric (o : PrecheckOutput) (s : Results * list string) (m : DutyMetric) : Results * list string :=
  match number (OMap.get (k_key m) (o_metrics o)) with
  | Some v => (OMap.set (k_key m) (result_of o m v) s.1, if met m v then s.2 else s.2 ++ [miss_text m v])
  | None => s
  end.

Definition judgeCounted (ms : list DutyMetric) (o : PrecheckOutput) : Verdict * Results * string :=
  let note := shapeNote ms in
  let counted := verdictMetrics ms in
  let missing := base.filter (fun m => number (OMap.get (k_key m) (o_metrics o)) = None) counted in
  let placeholders := base.filter (fun m => number (OMap.get (k_key m) (o_metrics o)) <> None /\ value_at (k_key m) (o_metrics o) = None) counted in
  let unmeasured := unmeasured_text o missing placeholders in
  let absent := (length missing + length placeholders)%nat in
  let withNote ps := String.concat "; " (ps ++ option_list note) in
  if (0 <? absent)%nat && (absent =? length counted)%nat then (VError, [], withNote [unmeasured])
  else
    let end_ s := withNote (s :: if (0 <? absent)%nat then ["not measured: " +:+ unmeasured] else []) in
    let meas := base.filter (fun m => value_at (k_key m) (o_metrics o) <> None) counted in
    let '(results, misses) := fold_left (judge_metric o) meas ([], []) in
    let lead := match headlineMetric meas with
      | Some h => match OMap.get (k_key h) results with Some r => if v_met r then Some (k_key h +:+ " " +:+ show h (v_value r) +:+ " (on target)") else None | None => None end
      | None => None end in
    let all := "all " +:+ string_of_Z (Z.of_nat (length meas)) +:+ (if (0 <? absent)%nat then " measured" else "") +:+ " on target" in
    match misses with
    | [] => (VMet, results, end_ (match lead with Some l => l +:+ "; " +:+ all | None => all end))
    | _ => (VMissed, results, end_ (String.concat ", " (option_list lead ++ misses)))
    end.

Definition judge (ms : list DutyMetric) (o : PrecheckOutput) (history : option (Z * list DutyRunRecord)) : Measure :=
  let '(v, results, s) := judgeCounted ms o in
  if bool_decide (v = VError) then mkMeasure v results s None None
  else match history ≫= (fun h => staleHeadline ms o h.1 h.2) with
       | Some stale => mkMeasure VError results (stale +:+ "; " +:+ s) None None
       | None => mkMeasure v results s (metricParts ms o) (outputItems o)
       end.
End Judge.

(** ** Streaks *)

Definition CHANGE_APPROACH_MISSES : nat := 3.
Definition gap (r : MetricResult) : Q := Qabs (Qminus (v_value r) (v_target r)).
Definition fixMisses (streak : list DutyRunRecord) (key : string) (f : FixLink) : nat :=
  length (base.filter (fun r => match OMap.get key (run_fixes r) with Some n => bool_decide (fx_step n = fx_step f) && bool_decide (fx_job n = fx_job f) | None => false end = true) streak).
(** What the run's effective measure missed of [key]. *)
Definition missed_of (key : string) (r : DutyRunRecord) : option MetricResult :=
  match OMap.get key (metrics (effectiveRun r)) with Some m => if v_met m then None else Some m | None => None end.
Definition misses_key (key : string) (r : DutyRunRecord) : bool := match missed_of key r with Some _ => true | None => false end.

Record MetricStreak := mkStreak {
  k_of : string; k_misses : nat; k_moved : bool; k_since : Z; k_result : MetricResult; k_fix : option FixLink; k_quietSince : option Q; k_stuck : bool
}.
Definition streak_of (runs ordered : list DutyRunRecord) (newest : DutyRunRecord) (key : string) (r : MetricResult) : MetricStreak :=
  let streak := take_while (misses_key key) ordered in
  let oldest := nullish (last streak ≫= missed_of key) r in
  let moved := Q_lt (gap r) (gap oldest) in
  let fix_ := OMap.get key (run_fixes newest) in
  let judged := match fix_ with Some f => fixMisses streak key f | None => length streak end in
  let previous := List.find (fun x => run_at x <? run_at newest) (base.filter (fun x => measured x = true) runs) in
  let quiet := match v_lastEventAt r, previous with Some t, Some p => Q_lt t (inject_Z (run_at p)) | _, _ => false end in
  mkStreak key (length streak) moved (nullish (run_at <$> last streak) (run_at newest)) r fix_ (if quiet then v_lastEventAt r else None)
    ((CHANGE_APPROACH_MISSES <=? judged)%nat && negb moved && negb quiet).
Definition metricStreaks (runs : list DutyRunRecord) : list MetricStreak :=
  let ordered := streakRuns runs in
  match ordered with
  | [] => []
  | newest :: _ => omap (fun kr => if v_met kr.2 then None else Some (streak_of runs ordered newest kr.1 kr.2)) (metrics (effectiveRun newest))
  end.
Definition longest (l : list MetricStreak) : option MetricStreak :=
  fold_left (fun best x => match best with Some b => if (k_misses b <? k_misses x)%nat then Some x else best | None => Some x end) l None.
Definition leadMetric (ms : list DutyMetric) (l : list MetricStreak) : option MetricStreak :=
  orelse (List.find (fun x => bool_decide (Some (k_of x) = k_key <$> headlineMetric ms)) l) (longest l).

Definition verdict_read (r : DutyRunRecord) : option (Z * Verdict) :=
  let ms := map snd (metrics (run_measure r)) in
  if measured r then Some (taken_at r, verdict (effectiveRun r))
  else if bool_decide (verdict (run_measure r) = VSkipped) && negb (bool_decide (length ms = O)) then Some (run_at r, if forallb v_met ms then VMet else VMissed)
  else None.
Definition verdictNow (runs : list DutyRunRecord) : option Verdict :=
  snd <$> fold_left (fun best r => match verdict_read r with
    | Some x => if match best with Some b => b.1 <? x.1 | None => true end then Some x else best
    | None => best end) runs (None : option (Z * Verdict)).

(** *** A fix on its own runs *)

Record WorkedReading := mkWorked { w_item : string; w_value : Q; w_target : Q; w_op : option Op }.
Definition of_item (id : string) (r : MetricResult) : WorkedReading := mkWorked id (v_value r) (v_target r) (Some (v_op r)).
Definition item_of (r : DutyRunRecord) (id : string) : option WorkedReading := of_item id <$> OMap.get id (nullish (items (effectiveRun r)) []).
Definition workedReading (r : DutyRunRecord) (f : option FixLink) (step : string) (above same : list string) : option WorkedReading :=
  match item_of r step, head (omap (item_of r) same) with
  | Some x, _ => Some x
  | None, Some x => Some x
  | None, None =>
      match f ≫= (fun f => if decide (fx_step f = step) then fx_target f else None) with
      | Some t => Some (mkWorked step (ft_current t) (ft_target t) ((fun d => match d with Down => AtMost | Up => AtLeast end) <$> ft_direction t))
      | None => head (omap (item_of r) above)
      end
  end.

(** The runs of [key]'s streak that named [step], with what each missed. *)
Fixpoint named_runs (key step : string) (l : list DutyRunRecord) : list (DutyRunRecord * MetricResult * FixLink) :=
  match l with
  | [] => []
  | r :: l =>
      match missed_of key r, OMap.get key (run_fixes r) with
      | None, _ => []
      | Some _, None => named_runs key step l
      | Some m, Some f =>
          if decide (fx_step f = step) then if decide (fx_hold f = None) then (r, m, f) :: named_runs key step l else []
          else named_runs key step l
      end
  end.
Record FixStreak := mkFixStreak { f_misses : nat; f_moved : bool; f_worked : option (string * Q * Q * Q); f_judgedFrom : option Q }.
Definition onTarget (r : WorkedReading) : bool := match w_op r with Some o => compares o (w_value r) (w_target r) | None => false end.
Definition distance (r : WorkedReading) : Q := if onTarget r then 0 else Qabs (Qminus (w_value r) (w_target r)).
(** One run of the loop: the readings of the first run's item, and every miss. *)
Definition read_run (step : string) (above own : list string) (s : list WorkedReading * list MetricResult) (x : DutyRunRecord * MetricResult * FixLink) : list WorkedReading * list MetricResult :=
  let '(r, m, f) := x in
  let reading := workedReading r (Some f) step above own in
  (match reading with
   | Some w => if bool_decide (length s.2 = O) || bool_decide (Some (w_item w) = w_item <$> head s.1) then s.1 ++ [w] else s.1
   | None => s.1
   end, s.2 ++ [m]).
Definition fixStepStreak (runs : list DutyRunRecord) (key step : string) (above own : list string) (windowMs : option Q) : FixStreak :=
  let under := named_runs key step (streakRuns runs) in
  let judgedFrom := match windowMs, last under with Some w, Some x => Some (Qplus (inject_Z (run_at x.1.1)) w) | _, _ => None end in
  let judged := base.filter (fun x => match judgedFrom with Some t => negb (Q_lt (inject_Z (run_at x.1.1)) t) | None => true end = true) under in
  let '(readings, named) := fold_left (read_run step above own) judged ([], []) in
  match head readings, last readings with
  | Some now, Some first =>
      mkFixStreak (length readings) (onTarget now || Q_lt (distance now) (distance first)) (Some (w_item now, w_value first, w_value now, w_target now)) judgedFrom
  | _, _ =>
      mkFixStreak (length named) (match head named, last named with Some n, Some o => Q_lt (gap n) (gap o) | _, _ => false end) None judgedFrom
  end.

(** ** The card *)

Definition judgedRun (r : DutyRunRecord) (ms : list DutyMetric) : Measure :=
  let j := effectiveRun r in
  if negb (is_measured (verdict j)) then j
  else
    let counted := fold_left (fun c m => match OMap.get (k_key m) (metrics j) with Some x => OMap.set (k_key m) x c | None => c end) (verdictMetrics ms) [] in
    match counted with
    | [] => j
    | _ => mkMeasure (if existsb (fun x => negb (v_met x.2)) counted then VMissed else VMet) counted (summary j) None None
    end.
Definition card_missStreak (runs : list DutyRunRecord) (ms : list DutyMetric) : nat :=
  length (take_while (fun r => bool_decide (verdict (judgedRun r ms) = VMissed)) (streakRuns runs)).

Inductive DutyState := SMet | SMissed | SError | SPaused | SRunning | SNew.
Definition state_of (v : Verdict) : DutyState := match v with VMet => SMet | VMissed => SMissed | _ => SError end.
Definition dutyState (running paused : bool) (ms : list DutyMetric) (runs : list DutyRunRecord) : DutyState :=
  if running then SRunning else if paused then SPaused
  else match List.find (fun r => negb (bool_decide (verdict (run_measure r) = VSkipped))) runs with Some r => state_of (verdict (judgedRun r ms)) | None => SNew end.

Inductive AgentState := AWorking | AWaiting | AFailed | AIdle.
Record ChatAgent := mkAgent { a_name : string; a_sender : string; a_job : string; a_state : AgentState; a_queued : bool; a_subagents : nat }.
Definition jobLive (name : string) (agents : list ChatAgent) (fallback : bool) : bool :=
  match List.find (fun a => bool_decide (a_name a = name) || bool_decide (a_sender a = name) || bool_decide (a_job a = name)) agents with
  | None => fallback
  | Some a => match a_state a with AWorking | AWaiting => true | _ => a_queued a || (0 <? a_subagents a)%nat end
  end.
Inductive FixState := FixLive (job step : string) | FixIdle (job : option string) (step : string) | FixNone.
Definition fixState (f : option FixLink) (agents : list ChatAgent) : FixState :=
  match f with
  | None => FixNone
  | Some f =>
      match truthy (fx_job f) with
      | Some j => if jobLive j agents (fx_live f) then FixLive j (fx_step f) else FixIdle (Some j) (fx_step f)
      | None => FixIdle None (fx_step f)
      end
  end.
Record MissLine := mkLine { l_key : string; l_misses : nat; l_stuck : bool; l_fix : FixState }.
Record DutyCardModel := mkCard { c_headlineMiss : option MissLine; c_misses : list MissLine; c_onTarget : list string; c_streak : nat; c_job : option (string * string * bool) }.
Definition line_of (streaks : list MetricStreak) (agents : list ChatAgent) (m : DutyMetric) : option MissLine :=
  (fun x => mkLine (k_key m) (k_misses x) (k_stuck x) (fixState (k_fix x) agents)) <$> List.find (fun x => bool_decide (k_of x = k_key m)) streaks.
Definition dutyCard (runs : list DutyRunRecord) (duty_metrics : list DutyMetric) (agents : list ChatAgent) : DutyCardModel :=
  let ms := verdictMetrics duty_metrics in
  let headline := match ms with m :: _ => if k_headline m then Some m else None | [] => None end in
  let others := match headline with Some _ => tail ms | None => ms end in
  let streaks := metricStreaks runs in
  let results := match List.find measured runs with Some r => metrics (effectiveRun r) | None => [] end in
  mkCard (headline ≫= line_of streaks agents) (omap (line_of streaks agents) others)
    (map k_label (base.filter (fun m => v_met <$> OMap.get (k_key m) results = Some true) others)) (card_missStreak runs duty_metrics)
    ((fun j => (j.1, j.2, jobLive j.2 agents false)) <$> (List.find (fun r => bool_decide (run_job r <> None)) runs ≫= run_job)).

Inductive DutyStatusNow := NowMet | NowFixing (job : string) (by_fix : bool) | NowUnfixed | NowError | NowRunning | NowPaused | NowNew.
Definition live_line (l : MissLine) : option string := match l_fix l with FixLive j _ => Some j | _ => None end.
Definition dutyStatus (st : DutyState) (c : DutyCardModel) : DutyStatusNow :=
  match st with
  | SMissed =>
      match head (omap live_line (option_list (c_headlineMiss c) ++ c_misses c)), c_job c with
      | Some j, _ => NowFixing j true
      | None, Some (_, name, true) => NowFixing name false
      | None, _ => NowUnfixed
      end
  | SMet => NowMet | SError => NowError | SRunning => NowRunning | SPaused => NowPaused | SNew => NowNew
  end.

(** ** One run *)

(** A measured run as the after-job measure of the run before it. *)
Definition asAfter (r : DutyRunRecord) : option (Z * Measure) := if is_measured (verdict (run_measure r)) then Some (run_at r, run_measure r) else None.

Definition fix_of (live : string -> bool) (dutyId : string) (keys : list string) (out : list (string * FixLink)) (i : PlanItem) : list (string * FixLink) :=
  if negb (open_item i) then out
  else match truthy (f_duty (fields i)) with
       | None => out
       | Some d =>
           match map of_chars (split_on "/"%char (to_chars d)) with
           | id :: key :: _ =>
               if bool_decide (id = dutyId) && negb (bool_decide (key = "")) && bool_decide (key ∈ keys) && negb (OMap.has key out)
               then OMap.set key (mkFix (iid i) (truthy (f_job (fields i))) (match truthy (f_job (fields i)) with Some j => live j | None => false end) None None) out
               else out
           | _ => out
           end
       end.
Definition fixesOn (board : option ChatBoard) (dutyId : string) (keys : list string) (live : string -> bool) : list (string * FixLink) :=
  match board with None => [] | Some b => fold_left (fix_of live dutyId keys) (nodes (plan b)) [] end.

Section Measure.
Context (rounded : Q -> string) (iso_minute : Z -> string).

(** [measure]: the record of a run whose precheck gave an output or failed with a message, and whether the run ends with no job. *)
Definition measure (d : Duty) (at_ : Z) (previous : list DutyRunRecord) (board : option ChatBoard) (live : string -> bool) (outcome : result PrecheckOutput) (overrun : bool) : DutyRunRecord * bool :=
  let record := match outcome with
    | Ok o =>
        let j := judge rounded iso_minute (d_metrics d) o (Some (at_, previous)) in
        mkRun at_ j (if bool_decide (verdict j = VError) then Some (summary j) else None) overrun [] None None false (outputReadings (d_readings d) o) (hostAwayOf o)
    | Throw e => mkRun at_ (mkMeasure VError [] "the precheck failed" None None) (Some (String.substring 0 500 e)) overrun [] None None false None None
    end in
  let flagged := match outcome with Ok o => o_flagged o | Throw _ => [] end in
  let m := run_measure record in
  let counted := map k_key (verdictMetrics (d_metrics d)) in
  let missed := map fst (base.filter (fun kv => v_met kv.2 = false /\ kv.1 ∈ counted) (metrics m)) in
  let fixes := if bool_decide (verdict m = VMissed) then fixesOn board (d_id d) missed live else [] in
  let record := mkRun (run_at record) m (run_error record) overrun fixes None None false (run_readings record) (run_hostAway record) in
  let misses := if bool_decide (verdict m = VMissed) then base.filter (fun s => k_of s ∈ counted) (metricStreaks (record :: previous)) else [] in
  let acts := existsb (fun s => bool_decide (s_item s <> None) || s_handOff s) flagged in
  (record, bool_decide (verdict m = VMet) && bool_decide (length misses = O) && negb overrun && negb acts).

(** [measureAfter]. *)
Definition measureAfter (d : Duty) (at_ : Z) (runs : list DutyRunRecord) (outcome : result PrecheckOutput) : Z * Measure :=
  let last_ := take 10 (base.filter (fun r => verdict (run_measure r) <> VSkipped) runs) in
  (at_, match outcome with
        | Ok o => judge rounded iso_minute (d_metrics d) o (Some (at_, last_))
        | Throw e => mkMeasure VError [] ("the after-job measure failed: " +:+ String.substring 0 300 e) None None
        end).
End Measure.

(** ** What a verdict says *)

Lemma value_number k l v : value_at k l = Some v -> number (OMap.get k l) = Some v.
Proof. unfold value_at. destruct (number _) as [n|]; [|done]. by destruct (isPlaceholder n). Qed.

Section Fold.
Context (rounded : Q -> string) (o : PrecheckOutput).

Definition missed_text (m : DutyMetric) : option string :=
  match number (OMap.get (k_key m) (o_metrics o)) with Some v => if met m v then None else Some (miss_text rounded m v) | None => None end.
Lemma judge_misses l : forall s, (fold_left (judge_metric rounded o) l s).2 = s.2 ++ omap missed_text l.
Proof.
  induction l as [|m l IH]; intros s; cbn [fold_left omap list_omap]; [by rewrite app_nil_r|]. rewrite IH. unfold judge_metric, missed_text. destruct (number _) as [v|]; [|done].
  cbn [snd]. destruct (met m v); [done|]. by rewrite <- app_assoc.
Qed.
Lemma judge_results l : NoDup (map k_key l) -> forall s,
  (forall m v, m ∈ l -> number (OMap.get (k_key m) (o_metrics o)) = Some v -> OMap.get (k_key m) (fold_left (judge_metric rounded o) l s).1 = Some (result_of o m v)) /\
  (forall k, k ∉ map k_key l -> OMap.get k (fold_left (judge_metric rounded o) l s).1 = OMap.get k s.1).
Proof.
  induction l as [|m l IH]; intros Hnd s; [split; [by intros ? ? ?%not_elem_of_nil|done]|]. cbn [map fold_left] in *. apply NoDup_cons in Hnd as [Hm Hnd].
  destruct (IH Hnd (judge_metric rounded o s m)) as [IH1 IH2]. split.
  - intros x v [->|Hx]%elem_of_cons Hv; [|by apply IH1]. rewrite IH2 by done. unfold judge_metric. rewrite Hv. apply OMap.get_set_eq.
  - intros k Hk. apply not_elem_of_cons in Hk as [Hkm Hk]. rewrite IH2 by done. unfold judge_metric. destruct (number _); [|done]. by apply OMap.get_set_ne.
Qed.
End Fold.

Lemma verdict_keys ms : map k_key (verdictMetrics ms) ≡ₚ map k_key ms.
Proof.
  unfold verdictMetrics, headlineMetric. destruct (List.find k_headline ms) as [h|] eqn:E; [|done]. induction ms as [|m ms IH]; [done|]. cbn in *. destruct (k_headline m).
  - by injection E as ->.
  - rewrite <- (IH E). apply Permutation_swap.
Qed.

Definition counted_value (o : PrecheckOutput) (m : DutyMetric) : option Q := value_at (k_key m) (o_metrics o).

Lemma nodup_map_filter {A B} (f : A -> B) (P : A -> Prop) `{!forall x, Decision (P x)} l : NoDup (map f l) -> NoDup (map f (base.filter P l)).
Proof.
  induction l as [|x l IH]; [done|]. cbn [map]. intros [Hx Hl]%NoDup_cons. rewrite filter_cons. case_decide; [|by apply IH]. cbn [map]. apply NoDup_cons. split; [|by apply IH].
  intros (y & Hy & Hin)%list_elem_of_fmap. apply list_elem_of_filter in Hin as [_ Hin]. apply Hx, list_elem_of_fmap. by exists y.
Qed.
Lemma counted_partition o l :
  (length (base.filter (fun m => number (OMap.get (k_key m) (o_metrics o)) = None) l) +
   length (base.filter (fun m => number (OMap.get (k_key m) (o_metrics o)) <> None /\ value_at (k_key m) (o_metrics o) = None) l) +
   length (base.filter (fun m => value_at (k_key m) (o_metrics o) <> None) l) = length l)%nat.
Proof.
  induction l as [|m l IH]; [done|]. rewrite !filter_cons. unfold value_at in *. destruct (number (OMap.get (k_key m) (o_metrics o))) as [n|] eqn:E.
  - rewrite decide_False by done. destruct (isPlaceholder n).
    + rewrite decide_True by done. rewrite decide_False by naive_solver. cbn [length]. lia.
    + rewrite decide_False by naive_solver. rewrite decide_True by done. cbn [length]. lia.
  - rewrite decide_True by done. rewrite decide_False by naive_solver. rewrite decide_False by naive_solver. cbn [length]. lia.
Qed.

Lemma judgeCounted_spec rounded ms o : NoDup (map k_key ms) -> ms <> [] ->
  let j := judgeCounted rounded ms o in
  let meas := base.filter (fun m => counted_value o m <> None) (verdictMetrics ms) in
  (meas = [] -> j.1 = (VError, [])) /\
  (meas <> [] -> j.1.1 = (match omap (missed_text rounded o) meas with [] => VMet | _ => VMissed end) /\ j.1.2 = (fold_left (judge_metric rounded o) meas ([], [])).1).
Proof.
  intros Hnd Hne j meas. pose proof (counted_partition o (verdictMetrics ms)) as Hp. fold (counted_value o) in Hp.
  assert (verdictMetrics ms <> []) as Hc. { intros Hv. pose proof (verdict_keys ms) as Hk. rewrite Hv in Hk. symmetry in Hk. apply Permutation_nil_r in Hk. by destruct ms. }
  unfold j, judgeCounted. cbv zeta. set (a := length (base.filter (fun m => number _ = None) _)) in *. set (b := length (base.filter (fun m => _ /\ _) _)) in *.
  change (base.filter (fun m => value_at (k_key m) (o_metrics o) <> None) (verdictMetrics ms)) with meas in *. split.
  - intros Hm. rewrite Hm in Hp. cbn [length] in Hp. assert (0 < length (verdictMetrics ms))%nat by (destruct (verdictMetrics ms); cbn; [done|lia]).
    rewrite (proj2 (Nat.ltb_lt 0 (a + b)%nat)) by lia. by rewrite (proj2 (Nat.eqb_eq _ _)) by lia.
  - intros Hm. assert (0 < length meas)%nat by (destruct meas; cbn; [done|lia]). rewrite (proj2 (Nat.eqb_neq _ _)) by lia. rewrite andb_false_r.
    pose proof (judge_misses rounded o meas ([], [])) as Hmiss. cbn [snd app] in Hmiss. rewrite <- Hmiss. destruct (fold_left _ meas _) as [results misses]. cbn [fst snd]. by destruct misses.
Qed.
Lemma judge_cases rounded iso_minute ms o history :
  let jc := judgeCounted rounded ms o in let j := judge rounded iso_minute ms o history in
  let stale := history ≫= (fun h => staleHeadline iso_minute ms o h.1 h.2) in
  metrics j = jc.1.2 /\ verdict j = (if bool_decide (jc.1.1 = VError) then VError else match stale with Some _ => VError | None => jc.1.1 end).
Proof.
  unfold judge. destruct (judgeCounted rounded ms o) as [[v r] t]. cbn [fst snd]. case_bool_decide as Hv; [by rewrite Hv|]. by destruct (history ≫= _).
Qed.
Lemma missed_in rounded o m : is_Some (missed_text rounded o m) -> counted_value o m <> None -> exists v, counted_value o m = Some v /\ met m v = false.
Proof.
  intros [t Ht] Hv. destruct (counted_value o m) as [v|] eqn:E; [|done]. exists v. split; [done|]. unfold missed_text in Ht. rewrite (value_number _ _ _ E) in Ht. by destruct (met m v).
Qed.

Lemma missed_iff rounded ms o :
  omap (missed_text rounded o) (base.filter (fun m => counted_value o m <> None) (verdictMetrics ms)) <> [] <->
  exists m v, m ∈ verdictMetrics ms /\ counted_value o m = Some v /\ met m v = false.
Proof.
  set (meas := base.filter _ _). split.
  - intros Ho. destruct (omap (missed_text rounded o) meas) as [|t l] eqn:E; [done|].
    assert (t ∈ omap (missed_text rounded o) meas) as (m & Hmm & Ht)%list_elem_of_omap by (rewrite E; by left).
    apply list_elem_of_filter in Hmm as [Hn Hmv]. destruct (missed_in rounded o m) as (v & Hv1 & Hv2); [by rewrite Ht|done|]. by exists m, v.
  - intros (m & v & Hmv & Hv1 & Hv2) Ho. assert (miss_text rounded m v ∈ omap (missed_text rounded o) meas) as Ht; [|rewrite Ho in Ht; by apply not_elem_of_nil in Ht].
    apply list_elem_of_omap. exists m. split; [apply list_elem_of_filter; by rewrite Hv1|]. unfold missed_text. by rewrite (value_number _ _ _ Hv1), Hv2.
Qed.

(** what a verdict says: over the duty's counted metrics, error when none has a value or the headline went unmeasured past its limit, missed when a measured one
    is off target, met when all measured ones are on it; and the results hold exactly the measured metrics, each with its value against its own target. *)
Theorem judge_spec rounded iso_minute ms o history :
  NoDup (map k_key ms) -> ms <> [] ->
  let j := judge rounded iso_minute ms o history in
  let stale := history ≫= (fun h => staleHeadline iso_minute ms o h.1 h.2) in
  let all_unmeasured := forall m, m ∈ verdictMetrics ms -> counted_value o m = None in
  (verdict j = VError <-> all_unmeasured \/ stale <> None) /\
  (verdict j = VMissed <-> stale = None /\ exists m v, m ∈ verdictMetrics ms /\ counted_value o m = Some v /\ met m v = false) /\
  (verdict j = VMet <-> stale = None /\ ~ all_unmeasured /\ forall m v, m ∈ verdictMetrics ms -> counted_value o m = Some v -> met m v = true) /\
  (forall m, m ∈ verdictMetrics ms -> OMap.get (k_key m) (metrics j) = result_of o m <$> counted_value o m) /\
  (forall k, k ∉ map k_key ms -> OMap.get k (metrics j) = None).
Proof.
  intros Hnd Hne j stale all. destruct (judge_cases rounded iso_minute ms o history) as [Hmet Hver]. fold j in Hmet, Hver. fold stale in Hver.
  destruct (judgeCounted_spec rounded ms o Hnd Hne) as [Hnone Hsome]. set (meas := base.filter (fun m => counted_value o m <> None) (verdictMetrics ms)) in *.
  assert (forall m, m ∈ meas <-> m ∈ verdictMetrics ms /\ counted_value o m <> None) as Hin by (intros m; unfold meas; rewrite list_elem_of_filter; tauto).
  assert (all <-> meas = []) as Hall.
  { split; [|intros Hm m Hmv; destruct (counted_value o m) eqn:E; [|done]; exfalso; by apply (not_elem_of_nil m); rewrite <- Hm; apply Hin; rewrite E].
    intros Ha. destruct meas as [|m l]; [done|]. destruct (proj1 (Hin m)) as [Hmv Hn]; [by left|]. by destruct Hn; apply Ha. }
  assert (NoDup (map k_key (verdictMetrics ms))) as Hnd' by (by rewrite verdict_keys).
  assert (NoDup (map k_key meas)) as Hndm by (by apply nodup_map_filter).
  destruct (decide (meas = [])) as [Hm|Hm].
  - destruct (judgeCounted rounded ms o) as [[v r] t]. cbn [fst snd] in *. injection (Hnone Hm) as -> ->. cbn in Hver, Hmet. rewrite Hver, Hmet.
    split_and!; [split; [left; by apply Hall|done]|split; [done|intros (_ & m & v & Hmv & Hv & _); rewrite (proj2 Hall Hm m Hmv) in Hv; done]|split; [done|by intros (_ & [] & _); apply Hall]| |done].
    intros m Hmv. by rewrite (proj2 Hall Hm m Hmv).
  - destruct (Hsome Hm) as [Hv Hr]. destruct (judge_results rounded o meas Hndm ([], [])) as [Hres Hno]. rewrite Hmet, Hr.
    assert (~ all) as Hnall by (by rewrite Hall). rewrite Hv in Hver.
    pose proof (missed_iff rounded ms o) as Hmiss. fold meas in Hmiss.
    assert (bool_decide (match omap (missed_text rounded o) meas with [] => VMet | _ => VMissed end = VError) = false) as Hbd by (destruct (omap _ _); by apply bool_decide_eq_false).
    rewrite Hbd in Hver. split_and!.
    + rewrite Hver. destruct stale; [by split; [right|]|]. destruct (omap _ _); split; try done; by intros [].
    + rewrite <- Hmiss, Hver. destruct stale; [by split; [|intros []]|]. destruct (omap _ _); split; try done. by intros [_ []].
    + rewrite Hver. destruct stale; [by split; [|intros []]|]. assert ((forall m v, m ∈ verdictMetrics ms -> counted_value o m = Some v -> met m v = true) <-> omap (missed_text rounded o) meas = []) as ->.
      { split.
        - intros Hmet'. destruct (decide (omap (missed_text rounded o) meas = [])) as [|Ho]; [done|]. apply Hmiss in Ho as (m & v & H1 & H2 & H3). by rewrite (Hmet' m v) in H3.
        - intros Ho m v H1 H2. destruct (met m v) eqn:E; [done|]. exfalso. by apply Hmiss; [exists m, v|]. }
      destruct (omap _ _); split; try done; by intros (_ & _ & ?).
    + intros m Hmv. destruct (counted_value o m) as [v|] eqn:E; cbn.
      * apply Hres; [apply Hin; by rewrite E|by apply value_number].
      * rewrite Hno; [done|]. intros (x & Hx & Hxm)%list_elem_of_fmap. apply Hin in Hxm as [Hxm Hxv]. by rewrite (nodup_key k_key (verdictMetrics ms) m x) in E.
    + intros k Hk. rewrite Hno; [done|]. intros (x & -> & Hxm)%list_elem_of_fmap. apply Hk. rewrite <- verdict_keys. apply Hin in Hxm as [Hxm _]. apply list_elem_of_fmap. by exists x.
Qed.

(** ** What a streak counts *)

Lemma take_while_all {A} (p : A -> bool) l x : x ∈ take_while p l -> p x = true.
Proof. induction l as [|y l IH]; cbn; [by intros ?%not_elem_of_nil|]. destruct (p y) eqn:E; [|by intros ?%not_elem_of_nil]. intros [->|Hx]%elem_of_cons; [done|by apply IH]. Qed.
Lemma take_while_stop {A} (p : A -> bool) l y r : drop_while p l = y :: r -> p y = false.
Proof. induction l as [|x l IH]; cbn; [done|]. destruct (p x) eqn:E; [done|]. by intros [= -> _]. Qed.
Lemma streak_in runs r : r ∈ streakRuns runs -> r ∈ runs.
Proof.
  unfold streakRuns. destruct (base.filter (fun r => measured r = true) runs) as [|y l] eqn:E; [by intros ?%not_elem_of_nil|].
  intros Hr. assert (r ∈ y :: l) as Hin by (apply elem_of_cons in Hr as [->|[_ Hr]%list_elem_of_filter]; [by left|by right]). rewrite <- E in Hin. by apply list_elem_of_filter in Hin as [_ ?].
Qed.

(** The misses a streak is judged on: with a fix, those of its runs that name it. *)
Definition judged_misses (runs : list DutyRunRecord) (x : MetricStreak) : nat :=
  match k_fix x with Some f => fixMisses (take_while (misses_key (k_of x)) (streakRuns runs)) (k_of x) f | None => k_misses x end.

(** what a miss streak counts: its runs are the newest measured runs in a row that missed the metric, the newest one among them, and the run before them met it or
    did not measure it; it reads stuck only after three of those misses, of the same fix step and job when the newest run named one, and only when the value
    has come no closer to its target since the first. *)
Theorem streak_spec runs x :
  Forall (fun r => NoDup (OMap.keys (metrics (effectiveRun r)))) runs -> x ∈ metricStreaks runs ->
  exists missed rest, streakRuns runs = missed ++ rest /\ k_misses x = length missed /\ missed <> [] /\
    Forall (fun r => measured r = true /\ exists m, OMap.get (k_of x) (metrics (effectiveRun r)) = Some m /\ v_met m = false) missed /\
    match rest with [] => True | r :: _ => forall m, OMap.get (k_of x) (metrics (effectiveRun r)) = Some m -> v_met m = true end /\
    (k_stuck x = true -> (3 <= judged_misses runs x <= k_misses x)%nat /\ k_moved x = false).
Proof.
  intros Hkeys. unfold metricStreaks. destruct (streakRuns runs) as [|newest l] eqn:Es; [by intros ?%not_elem_of_nil|]. intros ([k m] & Hkm & Hx)%list_elem_of_omap. cbn [fst snd] in Hx.
  destruct (v_met m) eqn:Hmet; [done|]. injection Hx as <-. set (missed := take_while (misses_key k) (newest :: l)).
  exists missed, (drop_while (misses_key k) (newest :: l)). unfold judged_misses. cbn [k_of k_misses k_fix k_stuck k_moved streak_of]. rewrite Es. fold missed.
  assert (Forall (fun r => measured r = true) (newest :: l)) as Hmeas.
  { rewrite <- Es. unfold streakRuns. destruct (base.filter (fun r => measured r = true) runs) as [|r rs] eqn:E; [by apply Forall_nil_2|].
    assert (Forall (fun r => measured r = true) (r :: rs)) as Hf by (rewrite <- E; apply Forall_forall; by intros y [? _]%list_elem_of_filter).
    apply Forall_cons in Hf as [Hr Hf]. apply Forall_cons. split; [done|]. rewrite Forall_forall in *. intros y [_ Hy]%list_elem_of_filter. by apply Hf. }
  split_and!.
  - unfold missed. by rewrite take_drop_while.
  - done.
  - assert (newest ∈ runs) as Hin.
    { assert (newest ∈ streakRuns runs) as Hn by (rewrite Es; by left). by apply streak_in in Hn. }
    rewrite Forall_forall in Hkeys. specialize (Hkeys newest Hin). unfold missed. cbn [take_while]. unfold misses_key at 1, missed_of at 1. by rewrite (OMap.elem_get _ _ _ Hkeys Hkm), Hmet.
  - apply Forall_forall. intros r Hr. split.
    + rewrite Forall_forall in Hmeas. apply Hmeas. rewrite <- (take_drop_while (misses_key k) (newest :: l)). apply elem_of_app. by left.
    + apply take_while_all in Hr. unfold misses_key, missed_of in Hr. destruct (OMap.get k (metrics (effectiveRun r))) as [y|]; [|done]. exists y. split; [done|]. by destruct (v_met y).
  - destruct (drop_while (misses_key k) (newest :: l)) as [|r rest] eqn:Ed; [done|]. apply take_while_stop in Ed. intros y Hy. unfold misses_key, missed_of in Ed. rewrite Hy in Ed. by destruct (v_met y).
  - intros Hst. apply andb_true_iff in Hst as [[Hj Hmv%negb_true_iff]%andb_true_iff _]. apply Nat.leb_le in Hj. unfold CHANGE_APPROACH_MISSES in Hj. split; [|done]. split; [done|].
    destruct (OMap.get k (run_fixes newest)) as [f|]; [|done]. unfold fixMisses. apply length_filter.
Qed.

(** a cut run counts for nothing: once a newer run was measured, a run whose job was cut, or that measured nothing, can be taken out of the duty's
    runs without changing the runs a streak counts, the duty's miss streak or any metric's miss count. *)
Theorem cut_runs_do_not_count newer cut older :
  (exists r, r ∈ newer /\ measured r = true) -> run_cut cut = true \/ measured cut = false ->
  streakRuns (newer ++ cut :: older) = streakRuns (newer ++ older) /\ missStreak (newer ++ cut :: older) = missStreak (newer ++ older) /\
  map (fun x => (k_of x, k_misses x, k_moved x, k_since x)) (metricStreaks (newer ++ cut :: older)) =
  map (fun x => (k_of x, k_misses x, k_moved x, k_since x)) (metricStreaks (newer ++ older)).
Proof.
  intros (r & Hr & Hm) Hcut. assert (streakRuns (newer ++ cut :: older) = streakRuns (newer ++ older)) as Hs.
  { unfold streakRuns. rewrite !filter_app, filter_cons. destruct (base.filter (fun r => measured r = true) newer) as [|y l] eqn:E.
    - exfalso. assert (r ∈ base.filter (fun r => measured r = true) newer) as Hin by (by apply list_elem_of_filter). rewrite E in Hin. by apply not_elem_of_nil in Hin.
    - cbn [app]. case_decide as Hc; [|done]. destruct Hcut as [Hcut|Hcut]; [|congruence]. rewrite !filter_app, filter_cons_False by congruence. done. }
  unfold missStreak, metricStreaks. rewrite Hs. split_and!; [done|done|]. destruct (streakRuns (newer ++ older)) as [|n l]; [done|].
  induction (metrics (effectiveRun n)) as [|[k v] ms IH]; [done|]. cbn [omap list_omap snd fst]. destruct (v_met v); [exact IH|]. cbn [map]. by rewrite IH.
Qed.

(** ** Examples *)

Definition errors_metric : DutyMetric := mkMetric "errors_24h" "Errors" AtMost 0 None true None.
Definition uptime_metric : DutyMetric := mkMetric "uptime" "Uptime" AtLeast 99 (Some "%") false None.
Definition demo_output (errors uptime : Q) : PrecheckOutput := mkOutput [("errors_24h", JNum errors); ("uptime", JNum uptime)] [] [] [] [].
Definition no_print (q : Q) : string := "".
Definition demo_judge := judge no_print (fun _ => "") [errors_metric; uptime_metric].
Definition demo_run (at_ : Z) (errors : Q) (cut : bool) : DutyRunRecord :=
  mkRun at_ (demo_judge (demo_output errors 100) None) None false [] None None cut None None.

Lemma judge_spec_witness : verdict (demo_judge (demo_output 3 99) None) = VMissed /\ verdict (demo_judge (demo_output 0 999999) None) = VMet.
Proof.
  assert (NoDup (map k_key [errors_metric; uptime_metric])) as Hnd by (apply (bool_decide_unpack _); by vm_compute).
  split.
  - destruct (judge_spec no_print (fun _ => "") [errors_metric; uptime_metric] (demo_output 3 99) None Hnd ltac:(done)) as (_ & Hmiss & _). apply Hmiss. split; [done|].
    exists errors_metric, 3%Q. split_and!; [by left|by vm_compute|by vm_compute].
  - by vm_compute.
Defined.

Definition demo_runs : list DutyRunRecord := [demo_run 400 3 false; demo_run 300 3 true; demo_run 200 2 false; demo_run 100 2 false; demo_run 50 0 false].
Lemma streak_spec_witness : exists x, metricStreaks demo_runs = [x] /\ k_misses x = 3%nat /\ k_stuck x = true /\ k_moved x = false.
Proof.
  destruct (metricStreaks demo_runs) as [|x [|y l]] eqn:E; [by vm_compute in E| |by vm_compute in E]. exists x. split; [done|].
  assert (k_misses x = 3%nat /\ k_stuck x = true) as [Hm Hs] by (vm_compute in E; by injection E as <-). split_and!; [done|done|].
  destruct (streak_spec demo_runs x) as (ms & rs & _ & _ & _ & _ & _ & Hst).
  - repeat (apply Forall_cons; split; [apply (bool_decide_unpack _); by vm_compute|]). by apply Forall_nil_2.
  - rewrite E. by left.
  - by apply Hst.
Defined.
Lemma cut_runs_do_not_count_witness : streakRuns demo_runs = streakRuns [demo_run 400 3 false; demo_run 200 2 false; demo_run 100 2 false; demo_run 50 0 false].
Proof.
  refine (proj1 (cut_runs_do_not_count [demo_run 400 3 false] (demo_run 300 3 true) [demo_run 200 2 false; demo_run 100 2 false; demo_run 50 0 false] _ _)).
  - exists (demo_run 400 3 false). split; [by left|by vm_compute].
  - by left.
Defined.
