(* ===== verification/ChatDuties.v ===== *)
(** * A chat's duties and check-in on the chat server

    [Boards] of [apps/chat/server/boards.ts] where it keeps a chat's [duties.json]: the duty actions, the runs with their
    after-job measures, the check-in and the 30 s tick. Each handler is one step of [step]; where the code awaits, the
    handler is two steps, and other handlers can run between them.

    What a precheck measures ([measure], [measureAfter] of DutyJudge.v) and whether a job has ended are given with the step. *)

From S2P Require Import Prelude Json Board BoardParse Duty DutyJudge.
From Stdlib Require Import QArith.QArith_base.
#[local] Open Scope string_scope.
#[local] Open Scope list_scope.
#[local] Open Scope Z_scope.

(** ** When a schedule runs next *)

Definition DAY : Z := 86400000.
Definition OWNER_ZONE_OFFSET_MS : Z := 9 * 3600000.
(** [at.split(":").map(Number)], on a time [HHMM] takes. *)
Definition time_of_day (t : string) : Z :=
  match split_on ":"%char (to_chars t) with
  | [h; m] => digits_value h * 3600000 + digits_value m * 60000
  | _ => 0
  end.
Definition nextRun (s : DutySchedule) (from : Z) : Z :=
  match s with
  | Every minutes => from + minutes * 60000
  | Daily t =>
      let local_ := from + OWNER_ZONE_OFFSET_MS in
      let at_ := local_ - local_ mod DAY + time_of_day t - OWNER_ZONE_OFFSET_MS in
      if at_ <=? from then at_ + DAY else at_
  end.

(** ** The file *)

Inductive Until := UntilAt (t : Z) | Forever.
Record CheckInState := mkCheckIn { everyMs : Z; pausedUntil : option Until; lastAt : option Z }.
Record DutyFile := mkFile { duties : list Duty; runs : list (string * list DutyRunRecord); checkIn_ : option CheckInState }.
Definition DEFAULT_CHECK_IN_MS : Z := 120 * 60000.

Definition runs_of (f : DutyFile) (id : string) : list DutyRunRecord := nullish (OMap.get id (runs f)) [].
Definition with_duties (f : DutyFile) (ds : list Duty) : DutyFile := mkFile ds (runs f) (checkIn_ f).
Definition with_runs (f : DutyFile) (id : string) (l : list DutyRunRecord) : DutyFile := mkFile (duties f) (OMap.set id l (runs f)) (checkIn_ f).
Definition with_checkIn (f : DutyFile) (c : CheckInState) : DutyFile := mkFile (duties f) (runs f) (Some c).
Definition find_duty (f : DutyFile) (id : string) : option Duty := List.find (fun d => bool_decide (d_id d = id)) (duties f).
Definition change_duty (id : string) (g : Duty -> Duty) (f : DutyFile) : DutyFile :=
  match find_duty f id with Some d => with_duties f (replace_first (fun d => bool_decide (d_id d = id)) (g d) (duties f)) | None => f end.

Definition set_state (st : DutyStatus) (sc : DutySchedule) (now : Z) (d : Duty) : Duty :=
  mkDuty (d_id d) (d_name d) (d_ownerWords d) (d_goal d) (d_metrics d) (d_readings d) sc (d_precheck d) (d_onMiss d) (d_boardGoal d) st
    (d_createdAt d) now (d_runCount d) (d_lastRunAt d) (d_lastSlotAt d) (d_lastSkippedAt d).
Definition set_run (now : Z) (d : Duty) : Duty :=
  mkDuty (d_id d) (d_name d) (d_ownerWords d) (d_goal d) (d_metrics d) (d_readings d) (d_schedule d) (d_precheck d) (d_onMiss d) (d_boardGoal d) (d_status d)
    (d_createdAt d) (d_updatedAt d) (d_runCount d + 1) (Some now) (d_lastSlotAt d) (d_lastSkippedAt d).

(** ** Runs *)

Definition newest_first (a b : DutyRunRecord) : bool := run_at b <=? run_at a.
(** [[...runs].sort((a, b) => b.at - a.at)]. *)
Definition sorted_runs (l : list DutyRunRecord) : list DutyRunRecord := sort_by newest_first l.
Definition with_after (m : Z * Measure) (r : DutyRunRecord) : DutyRunRecord :=
  mkRun (run_at r) (run_measure r) (run_error r) (run_overrun r) (run_fixes r) (run_job r) (Some m) (run_cut r) (run_readings r) (run_hostAway r).
Definition has_job (r : DutyRunRecord) : bool := bool_decide (run_job r <> None).
(** The first run of the list that is the object [r], changed. *)
Fixpoint change_run (p : DutyRunRecord -> bool) (g : DutyRunRecord -> DutyRunRecord) (l : list DutyRunRecord) : list DutyRunRecord :=
  match l with [] => [] | r :: l => if p r then g r :: l else r :: change_run p g l end.

(** The end of [runDutyOnce]: the last job's run takes this run's measure as its after-job measure, unless it has one or its job still works and
    this run started none. *)
Definition takes_after (working : string -> bool) (record last_ : DutyRunRecord) : option (Z * Measure) :=
  match run_job last_, run_after last_ with
  | Some (_, name), None => if bool_decide (run_job record <> None) || negb (working name) then asAfter record else None
  | _, _ => None
  end.
Definition close_last (working : string -> bool) (record : DutyRunRecord) (l : list DutyRunRecord) : list DutyRunRecord :=
  match List.find has_job (sorted_runs l) with
  | Some last_ =>
      match takes_after working record last_ with
      | Some m => change_run (fun r => has_job r && (run_at r =? run_at last_) && bool_decide (run_after r = None)) (with_after m) l
      | None => l
      end
  | None => l
  end.
Definition run_end (id : string) (record : DutyRunRecord) (working : string -> bool) (f : DutyFile) : DutyFile :=
  with_runs f id (take 20 (sorted_runs (record :: close_last working record (runs_of f id)))).

(** The start of [runDutyOnce]; none when the duty is gone. *)
Definition run_begin (id : string) (now : Z) (f : DutyFile) : option DutyFile :=
  match find_duty f id with Some _ => Some (change_duty id (set_run now) f) | None => None end.

(** What [afterJob] looks at: the newest run with a job, when it has no after-job measure. *)
Definition run_to_measure (f : DutyFile) (id : string) : option Z :=
  match find_duty f id, List.find has_job (sorted_runs (runs_of f id)) with
  | Some _, Some r => if bool_decide (run_after r = None) then Some (run_at r) else None
  | _, _ => None
  end.
(** The end of [afterJob]: the measure goes into the run it was taken for, when that is there with none. *)
Definition measured_after (id : string) (at_ : Z) (m : Z * Measure) (f : DutyFile) : DutyFile :=
  match OMap.get id (runs f) with
  | Some l =>
      match List.find (fun r => run_at r =? at_) l with
      | Some r => if bool_decide (run_after r = None) then with_runs f id (change_run (fun r => (run_at r =? at_) && bool_decide (run_after r = None)) (with_after m) l) else f
      | None => f
      end
  | None => f
  end.

(** ** The duty actions *)

Inductive DutyAction :=
| SetDuty (definition : json) (morning : string)
| RemoveDuty (id : string) | Pause (id : string) | Resume (id : string) | Reschedule (id : string) (s : DutySchedule) | RunNow (id : string).

Definition keep_schedule (st : DutyStatus) (now : Z) (d : Duty) : Duty := set_state st (d_schedule d) now d.
Definition no_duty (id : string) : string := "No duty " +:+ id +:+ " on this chat.".
Definition acted (id : string) (g : Duty -> Duty) (f : DutyFile) : result DutyFile :=
  match find_duty f id with Some _ => Ok (change_duty id g f) | None => Throw (no_duty id) end.

Section Actions.
Context (dutyStrayBranches : list (string * json) -> list string).

(** [dutyAction]: the file it leaves; [RunNow] starts a run after it. [SetDuty] saves nothing when nothing changed. *)
Definition dutyAction (a : DutyAction) (now : Z) (f : DutyFile) : result DutyFile :=
  match a with
  | SetDuty def morning => r ← upsertDuty dutyStrayBranches (duties f) def now (Some morning); Ok (with_duties f r.1)
  | RemoveDuty id => Ok (match find_duty f id with Some _ => mkFile (remove_duty id (duties f)) (OMap.del id (runs f)) (checkIn_ f) | None => f end)
  | Pause id => acted id (keep_schedule Paused now) f
  | Resume id => acted id (keep_schedule Active now) f
  | Reschedule id s => acted id (fun d => set_state (d_status d) s now d) f
  | RunNow id => acted id (fun d => set_state (d_status d) (d_schedule d) now d) f
  end.
End Actions.

(** ** The check-in *)

Definition checkInState (test : bool) (f : DutyFile) : option CheckInState :=
  match checkIn_ f with Some c => Some c | None => if test then None else Some (mkCheckIn DEFAULT_CHECK_IN_MS None None) end.
Definition is_paused (now : Z) (p : option Until) : bool := match p with Some Forever => true | Some (UntilAt t) => now <? t | None => false end.
Record CheckInView := mkCheckInView { v_everyMs : Z; v_paused : bool; v_nextAt : option Z }.
(** [checkIn], from when the chat began. *)
Definition checkIn (test : bool) (created : option Z) (now : Z) (f : DutyFile) : CheckInView :=
  match checkInState test f with
  | None => mkCheckInView DEFAULT_CHECK_IN_MS false None
  | Some st =>
      let base := nullish (orelse (lastAt st) created) now in
      let paused := is_paused now (pausedUntil st) in
      mkCheckInView (everyMs st) paused
        (if paused then match pausedUntil st with Some (UntilAt t) => Some (Z.max t (base + everyMs st)) | _ => None end else Some (base + everyMs st))
  end.

Inductive PausePatch := NotPaused | PauseForever | PauseHour | PauseMorning.
Definition pause_until (p : PausePatch) (now : Z) : option Until :=
  match p with
  | NotPaused => None
  | PauseForever => Some Forever
  | PauseHour => Some (UntilAt (now + 3600000))
  | PauseMorning => Some (UntilAt (nextRun (Daily "09:00") now))
  end.
(** [setCheckIn], on a whole number of milliseconds. *)
Definition setCheckIn (every : option Z) (pause : option PausePatch) (now : Z) (f : DutyFile) : result DutyFile :=
  let st := nullish (checkIn_ f) (mkCheckIn DEFAULT_CHECK_IN_MS None None) in
  if match every with Some e => e <? 60000 | None => false end then Throw "A check-in runs at most once a minute."
  else Ok (with_checkIn f (mkCheckIn (nullish every (everyMs st)) (match pause with Some p => pause_until p now | None => pausedUntil st end) (lastAt st))).

(** ** The handlers together *)

(** A run in [dutyRuns]: it waits for an after-job measure, or its precheck goes. *)
Inductive Phase := Waiting | Going.
#[export] Instance Phase_eq : EqDecision Phase.
Proof. solve_decision. Defined.

(** [file] is duties.json; [dutyRuns], [afters] (with the run each measures) and [endChecks] are the maps in memory; [late] the ticks that wait for
    the submit of a check-in, each with its time and the file it read and changed, and [sent] the check-ins submitted. *)
Record Chat := mkChat {
  file : DutyFile; dutyRuns : list (string * Phase); afters : list (string * Z); endChecks : list (string * Z); late : list (Z * DutyFile); sent : list Z
}.
Definition with_file (s : Chat) (f : DutyFile) : Chat := mkChat f (dutyRuns s) (afters s) (endChecks s) (late s) (sent s).

(** [runDuty]: a second start while one runs shares it. *)
Definition runDuty (id : string) (s : Chat) : Chat :=
  if OMap.has id (dutyRuns s) then s else mkChat (file s) (OMap.set id Waiting (dutyRuns s)) (afters s) (endChecks s) (late s) (sent s).
Definition end_run (id : string) (s : Chat) : Chat := mkChat (file s) (OMap.del id (dutyRuns s)) (afters s) (endChecks s) (late s) (sent s).
(** [runDutyOnce], once the after-job measure it waits for is done. *)
Definition begin_run (id : string) (now : Z) (s : Chat) : Chat :=
  if bool_decide (OMap.get id (dutyRuns s) = Some Waiting) && negb (OMap.has id (afters s)) then
    match run_begin id now (file s) with
    | Some f => mkChat f (OMap.set id Going (dutyRuns s)) (afters s) (endChecks s) (late s) (sent s)
    | None => end_run id s
    end
  else s.
Definition finish_run (id : string) (record : DutyRunRecord) (working : string -> bool) (s : Chat) : Chat :=
  if bool_decide (OMap.get id (dutyRuns s) = Some Going) then end_run id (with_file s (run_end id record working (file s))) else s.

(** [afterJob] up to its await. *)
Definition afterJob (id : string) (s : Chat) : Chat :=
  if OMap.has id (afters s) || OMap.has id (dutyRuns s) || OMap.has id (endChecks s) then s
  else match run_to_measure (file s) id with
       | Some t => mkChat (file s) (dutyRuns s) (afters s) (OMap.set id t (endChecks s)) (late s) (sent s)
       | None => s
       end.
(** [jobEnded] has answered. *)
Definition job_ended (id : string) (ended : bool) (s : Chat) : Chat :=
  match OMap.get id (endChecks s) with
  | None => s
  | Some t =>
      let checks := OMap.del id (endChecks s) in
      if negb ended || OMap.has id (dutyRuns s) || OMap.has id (afters s) then mkChat (file s) (dutyRuns s) (afters s) checks (late s) (sent s)
      else mkChat (file s) (dutyRuns s) (OMap.set id t (afters s)) checks (late s) (sent s)
  end.
(** The after-job measure is done, or it failed. *)
Definition after_done (id : string) (m : option (Z * Measure)) (s : Chat) : Chat :=
  match OMap.get id (afters s) with
  | None => s
  | Some t => mkChat (match m with Some m => measured_after id t m (file s) | None => file s end) (dutyRuns s) (OMap.del id (afters s)) (endChecks s) (late s) (sent s)
  end.

Section Tick.
(** The chat is a walk's test agent, and when it began. *)
Context (test : bool) (created : option Z).

Definition due_duty (now : Z) (s : Chat) (d : Duty) : bool :=
  bool_decide (d_status d = Active) && negb (OMap.has (d_id d) (afters s)) && (nextRun (d_schedule d) (nullish (d_lastRunAt d) (d_createdAt d)) <=? now).
(** The tick's loop over the duties of the file it read. *)
Definition tick_duty (now : Z) (s : Chat) (d : Duty) : Chat :=
  let s := afterJob (d_id d) s in if due_duty now s d then runDuty (d_id d) s else s.
Definition tick_duties (now : Z) (f : DutyFile) (s : Chat) : Chat := fold_left (tick_duty now) (duties f) s.

(** [tick] up to the submit of a due check-in; with none due it goes on at once. *)
Definition tick (now : Z) (rootRunning : bool) (s : Chat) : Chat :=
  match checkInState test (file s), v_nextAt (checkIn test created now (file s)) with
  | Some st, Some t =>
      if (t <=? now) && negb rootRunning
      then mkChat (file s) (dutyRuns s) (afters s) (endChecks s) (late s ++ [(now, with_checkIn (file s) (mkCheckIn (everyMs st) (pausedUntil st) (Some now)))]) (sent s ++ [now])
      else tick_duties now (file s) s
  | _, _ => tick_duties now (file s) s
  end.
(** The submit is answered: the tick saves the file it read before it, and goes on. *)
Definition tick_save (k : nat) (s : Chat) : Chat :=
  match late s !! k with
  | None => s
  | Some (now, f) => tick_duties now f (mkChat f (dutyRuns s) (afters s) (endChecks s) (delete k (late s)) (sent s))
  end.
End Tick.

Inductive Event :=
| Act (a : DutyAction) (now : Z)
| SetCheckIn (every : option Z) (pause : option PausePatch) (now : Z)
| BeginRun (id : string) (now : Z) | FinishRun (id : string) (record : DutyRunRecord) (working : string -> bool) | RunThrew (id : string)
| AfterJob (id : string) | JobEnded (id : string) (ended : bool) | AfterDone (id : string) (m : option (Z * Measure))
| Tick (now : Z) (rootRunning : bool) | TickSave (k : nat).

Section Step.
Context (dutyStrayBranches : list (string * json) -> list string) (test : bool) (created : option Z).

Definition step (s : Chat) (e : Event) : Chat :=
  match e with
  | Act a now =>
      match dutyAction dutyStrayBranches a now (file s) with
      | Ok f => let s := with_file s f in match a with RunNow id => runDuty id s | _ => s end
      | Throw _ => s
      end
  | SetCheckIn every pause now => match setCheckIn every pause now (file s) with Ok f => with_file s f | Throw _ => s end
  | BeginRun id now => begin_run id now s
  | FinishRun id record working => finish_run id record working s
  | RunThrew id => if bool_decide (OMap.get id (dutyRuns s) = Some Going) then end_run id s else s
  | AfterJob id => afterJob id s
  | JobEnded id ended => job_ended id ended s
  | AfterDone id m => after_done id m s
  | Tick now running => tick test created now running s
  | TickSave k => tick_save k s
  end.
Definition run (s : Chat) (l : list Event) : Chat := fold_left step l s.
Definition init (f : DutyFile) : Chat := mkChat f [] [] [] [] [].
End Step.

(** ** The next run of a daily duty *)

Lemma not_colon c : code c <= 57 -> bool_decide (c = ":"%char) = false.
Proof. intros Hc. apply bool_decide_eq_false. intros ->. by apply Hc. Qed.
Lemma HHMM_time t : HHMM t = true -> exists h m, 0 <= h < 24 /\ 0 <= m < 60 /\ time_of_day t = h * 3600000 + m * 60000.
Proof.
  unfold HHMM, time_of_day. destruct (to_chars t) as [|a [|b [|c [|d [|e [|]]]]]]; try done. intros Ht.
  repeat match goal with Hx : _ && _ = true |- _ => apply andb_true_iff in Hx as [? ?] end.
  assert (48 <= code a <= 50 /\ 48 <= code b <= 57 /\ (code a = 50 -> code b <= 51)) as (Ha & Hb & Hab).
  { match goal with Hx : _ || _ = true |- _ => apply orb_true_iff in Hx as [Hx|Hx] end; unfold is_digit in *;
      repeat match goal with Hx : _ && _ = true |- _ => apply andb_true_iff in Hx as [? ?] end.
    - match goal with Hx : _ || _ = true |- _ => apply orb_true_iff in Hx as [Hx|Hx] end; lia.
    - lia. }
  unfold is_digit in *. simp_ok. subst c.
  cbn [split_on]. rewrite (not_colon e), (not_colon d), (not_colon b), (not_colon a) by lia. rewrite (bool_decide_eq_true_2 (":"%char = ":"%char)) by done.
  exists (10 * (code a - 48) + (code b - 48)), (10 * (code d - 48) + (code e - 48)). unfold digits_value, digit_value. cbn [fold_left]. split_and!; lia.
Qed.

(** C21: a daily duty runs at its time, once a day: for a time [HH:MM], the next run after any instant is later than it, at most a day later, at that minute of
    the owner's day, and no instant between them is at that minute. *)
Theorem next_daily_run t from :
  HHMM t = true ->
  let n := nextRun (Daily t) from in
  from < n <= from + DAY /\ (n + OWNER_ZONE_OFFSET_MS) mod DAY = time_of_day t /\
  forall k, from < k < n -> (k + OWNER_ZONE_OFFSET_MS) mod DAY <> time_of_day t.
Proof.
  intros (h & m & Hh & Hm & Ht)%HHMM_time n. assert (0 <= time_of_day t < DAY) as Hd by (rewrite Ht; unfold DAY; lia).
  subst n. unfold nextRun. set (o := OWNER_ZONE_OFFSET_MS). set (x := time_of_day t) in *. set (l := from + o).
  assert (DAY > 0) as HD by (unfold DAY; lia). pose proof (Z_div_mod_eq_full l DAY) as Hl. pose proof (Z_mod_lt l DAY HD) as Hr.
  assert (forall z, 0 <= z < DAY -> forall q, (DAY * q + z) mod DAY = z) as Hmod.
  { intros z Hz q. rewrite Z.add_comm, Z.mul_comm, Z.mod_add by lia. by apply Z.mod_small. }
  assert (forall k, (k + o) mod DAY = x -> exists q, k + o = DAY * q + x) as Hat.
  { intros k <-. exists ((k + o) / DAY). apply Z_div_mod_eq_full. }
  set (q := l / DAY) in *. replace (l - l mod DAY) with (DAY * q) by lia. destruct (DAY * q + x - o <=? from) eqn:E; simp_ok.
  - split_and!; [lia|lia| |].
    + replace (DAY * q + x - o + DAY + o) with (DAY * (q + 1) + x) by lia. by apply Hmod.
    + intros k Hk (p & Hp)%Hat. assert (q < p < q + 1) as ?; [nia|lia].
  - split_and!; [lia|lia| |].
    + replace (DAY * q + x - o + o) with (DAY * q + x) by lia. by apply Hmod.
    + intros k Hk (p & Hp)%Hat. assert (q - 1 < p < q) as ?; [nia|lia].
Qed.

(** ** One measure at a time *)

(** A run whose precheck goes has no after-job measure beside it. *)
Definition apart (s : Chat) : Prop := forall id, OMap.get id (dutyRuns s) = Some Going -> OMap.get id (afters s) = None.
(** Steps that touch neither map but to start a run waiting, or to look at a job. *)
Definition calm (s s' : Chat) : Prop :=
  afters s' = afters s /\ forall id, OMap.get id (dutyRuns s') = Some Going -> OMap.get id (dutyRuns s) = Some Going.

Lemma calm_refl s s' : dutyRuns s' = dutyRuns s -> afters s' = afters s -> calm s s'.
Proof. intros H1 H2. split; [done|]. by rewrite H1. Qed.
Lemma calm_trans a b c : calm a b -> calm b c -> calm a c.
Proof. intros [H1 H2] [H3 H4]. split; [congruence|auto]. Qed.
Lemma calm_apart s s' : calm s s' -> apart s -> apart s'.
Proof. intros [H1 H2] Hs id Hid. rewrite H1. by apply Hs, H2. Qed.

Lemma runDuty_calm id s : calm s (runDuty id s).
Proof.
  unfold runDuty. destruct (OMap.has id (dutyRuns s)); [by apply calm_refl|]. split; [done|]. intros k. cbn [dutyRuns]. rewrite OMap.get_set. by case_decide.
Qed.
Lemma end_run_calm id s : calm s (end_run id s).
Proof. split; [done|]. intros k. cbn [end_run dutyRuns]. rewrite OMap.get_del. by case_decide. Qed.
Lemma afterJob_calm id s : calm s (afterJob id s).
Proof. unfold afterJob. destruct (_ || _ || _); [by apply calm_refl|]. destruct (run_to_measure _ _); by apply calm_refl. Qed.
Lemma tick_duties_calm now f s : calm s (tick_duties now f s).
Proof.
  unfold tick_duties. revert s. induction (duties f) as [|d ds IH]; intros s; [by apply calm_refl|]. cbn [fold_left]. eapply calm_trans; [|apply IH]. unfold tick_duty.
  eapply calm_trans; [apply afterJob_calm|]. destruct (due_duty _ _ _); [apply runDuty_calm|by apply calm_refl].
Qed.

Section Reach.
Context (dutyStrayBranches : list (string * json) -> list string) (test : bool) (created : option Z).
Local Abbreviation step := (step dutyStrayBranches test created).
Local Abbreviation run := (run dutyStrayBranches test created).

Lemma step_apart s e : apart s -> apart (step s e).
Proof.
  intros Hs. destruct e as [a now|every pause now|id now|id record working|id|id|id ended|id m|now running|k]; cbn [ChatDuties.step].
  - destruct (dutyAction _ a now (file s)) as [f|]; [|done]. apply calm_apart with (with_file s f); [|done]. destruct a; try by apply calm_refl. apply runDuty_calm.
  - by destruct (setCheckIn _ _ _ _).
  - unfold begin_run. destruct (_ && _) eqn:E; [|done]. apply andb_true_iff in E as [_ Ha%negb_true_iff]. destruct (run_begin _ _ _) as [f|]; [|by apply (calm_apart s); [apply end_run_calm|]].
    intros k. cbn [dutyRuns afters]. rewrite OMap.get_set. case_decide as Hk; [|apply Hs]. subst k. intros _. unfold OMap.has in Ha. by destruct (OMap.get id (afters s)).
  - unfold finish_run. case_bool_decide; [|done]. apply (calm_apart s); [|done]. apply (calm_trans _ (with_file s (run_end id record working (file s)))); [by apply calm_refl|apply end_run_calm].
  - case_bool_decide; [|done]. apply (calm_apart s); [apply end_run_calm|done].
  - by apply (calm_apart s); [apply afterJob_calm|].
  - unfold job_ended. destruct (OMap.get id (endChecks s)) as [t|]; [|done]. destruct (_ || _ || _) eqn:E; [done|]. apply orb_false_iff in E as [[_ E]%orb_false_iff _].
    intros k Hk. cbn [dutyRuns afters] in *. rewrite OMap.get_set. case_decide as Hkid; [|by apply Hs]. subst k. unfold OMap.has in E. by rewrite Hk in E.
  - unfold after_done. destruct (OMap.get id (afters s)) as [t|]; [|done]. intros k Hk. cbn [dutyRuns afters] in *. rewrite OMap.get_del. case_decide; [done|by apply Hs].
  - unfold tick. destruct (checkInState test (file s)), (v_nextAt (checkIn test created now (file s))); try (apply (calm_apart s); [apply tick_duties_calm|done]). destruct (_ && _); [by apply (calm_apart s); [apply calm_refl|]|].
    by apply (calm_apart s); [apply tick_duties_calm|].
  - unfold tick_save. destruct (late s !! k) as [[now f]|]; [|done]. apply (calm_apart s); [|done].
    by apply (calm_trans _ (mkChat f (dutyRuns s) (afters s) (endChecks s) (delete k (late s)) (sent s))); [apply calm_refl|apply tick_duties_calm].
Qed.

(** A duty's precheck never runs beside its after-job measure: in any order of the chat's handlers, the owner's starts and overlapping ticks included, a run of a duty
    begins only with no after-job measure of it going, and none starts beside it. *)
Theorem measures_never_overlap f l id :
  OMap.get id (dutyRuns (run (init f) l)) = Some Going -> OMap.get id (afters (run (init f) l)) = None.
Proof.
  assert (apart (init f)) as Hi by done. revert Hi. generalize (init f) as s. induction l as [|e l IH]; intros s Hs; [apply Hs|]. apply IH, step_apart, Hs.
Qed.

(** ** The late save of a tick *)

Definition no_late_save (e : Event) : Prop := match e with TickSave _ => False | _ => True end.
(** Handlers that leave the file, the waiting ticks and what was sent. *)
Definition quiet (s s' : Chat) : Prop := file s' = file s /\ late s' = late s /\ sent s' = sent s.
Lemma quiet_trans a b c : quiet a b -> quiet b c -> quiet a c.
Proof. unfold quiet. intuition congruence. Qed.
Lemma runDuty_quiet id s : quiet s (runDuty id s).
Proof. unfold runDuty. by destruct (OMap.has id (dutyRuns s)). Qed.
Lemma afterJob_quiet id s : quiet s (afterJob id s).
Proof. unfold afterJob. destruct (_ || _ || _); [done|]. by destruct (run_to_measure _ _). Qed.
Lemma tick_duties_quiet now f s : quiet s (tick_duties now f s).
Proof.
  unfold tick_duties. revert s. induction (duties f) as [|d ds IH]; intros s; [done|]. cbn [fold_left]. eapply quiet_trans; [|apply IH]. unfold tick_duty.
  eapply quiet_trans; [apply afterJob_quiet|]. destruct (due_duty _ _ _); [apply runDuty_quiet|done].
Qed.
Definition checked_in (now : Z) (st : CheckInState) (f : DutyFile) : DutyFile := with_checkIn f (mkCheckIn (everyMs st) (pausedUntil st) (Some now)).
Lemma tick_due now s st t : checkInState test (file s) = Some st -> v_nextAt (checkIn test created now (file s)) = Some t -> t <= now ->
  tick test created now false s = mkChat (file s) (dutyRuns s) (afters s) (endChecks s) (late s ++ [(now, checked_in now st (file s))]) (sent s ++ [now]).
Proof. intros Hst Ht Hle. unfold tick. rewrite Hst, Ht. rewrite (proj2 (Z.leb_le t now) Hle). done. Qed.
Lemma tick_not_due now running s : (forall t, v_nextAt (checkIn test created now (file s)) = Some t -> now < t) -> quiet s (tick test created now running s).
Proof.
  intros Hno. unfold tick. destruct (checkInState test (file s)); [|apply tick_duties_quiet]. destruct (v_nextAt (checkIn test created now (file s))) as [t|]; [|apply tick_duties_quiet].
  specialize (Hno t eq_refl). rewrite (proj2 (Z.leb_gt t now)) by lia. apply tick_duties_quiet.
Qed.
Lemma save_file now f k s : late s !! k = Some (now, f) -> file (tick_save k s) = f /\ late (tick_save k s) = delete k (late s) /\ sent (tick_save k s) = sent s.
Proof. intros Hk. unfold tick_save. rewrite Hk. destruct (tick_duties_quiet now f (mkChat f (dutyRuns s) (afters s) (endChecks s) (delete k (late s)) (sent s))) as (H1 & H2 & H3). done. Qed.

Lemma step_late s e : no_late_save e -> exists r, late (step s e) = late s ++ r.
Proof.
  intros He. assert (forall s', late s' = late s -> exists r, late s' = late s ++ r) as Hsame by (intros s' ->; exists []; by rewrite app_nil_r).
  destruct e as [a now|every pause now|id now|id record working|id|id|id ended|id m|now running|k]; cbn [ChatDuties.step]; [| | | | | | | | |done].
  - destruct (dutyAction _ a now (file s)) as [f|]; [|by apply Hsame]. apply Hsame. destruct a; try done. by destruct (runDuty_quiet id (with_file s f)) as (_ & -> & _).
  - apply Hsame. by destruct (setCheckIn _ _ _ _).
  - apply Hsame. unfold begin_run. destruct (_ && _); [|done]. by destruct (run_begin _ _ _).
  - apply Hsame. unfold finish_run. by case_bool_decide.
  - apply Hsame. by case_bool_decide.
  - apply Hsame. by destruct (afterJob_quiet id s) as (_ & -> & _).
  - apply Hsame. unfold job_ended. destruct (OMap.get id (endChecks s)); [|done]. by destruct (_ || _ || _).
  - apply Hsame. unfold after_done. by destruct (OMap.get id (afters s)).
  - unfold tick. destruct (checkInState test (file s)), (v_nextAt (checkIn test created now (file s))); try (apply Hsame; by destruct (tick_duties_quiet now (file s) s) as (_ & -> & _)).
    destruct (_ && _); [by eexists|]. apply Hsame. by destruct (tick_duties_quiet now (file s) s) as (_ & -> & _).
Qed.
Lemma run_late l : Forall no_late_save l -> forall s, exists r, late (run s l) = late s ++ r.
Proof.
  induction 1 as [|e l He _ IH]; intros s; [exists []; by rewrite app_nil_r|]. destruct (step_late s e He) as [r1 Hr1]. destruct (IH (step s e)) as [r2 Hr2].
  exists (r1 ++ r2). cbn [ChatDuties.run fold_left]. unfold ChatDuties.run in Hr2. by rewrite Hr2, Hr1, app_assoc.
Qed.

(** a tick undoes what was written while its check-in was sent: whatever handlers run between a tick that sends a due check-in and the answer to its submit, runs
    recorded, duties paused, added or removed by the owner, after-job measures and check-in settings, the tick then saves the file it read before them with only
    the check-in's time changed. *)
Theorem tick_save_undoes now s st t l :
  late s = [] -> checkInState test (file s) = Some st -> v_nextAt (checkIn test created now (file s)) = Some t -> t <= now -> Forall no_late_save l ->
  file (run s (Tick now false :: l ++ [TickSave 0])) = checked_in now st (file s).
Proof.
  intros Hl Hst Ht Hle Hno. unfold ChatDuties.run. cbn [fold_left ChatDuties.step]. rewrite fold_left_app. cbn [fold_left ChatDuties.step].
  destruct (run_late l Hno (tick test created now false s)) as [r Hr]. unfold ChatDuties.run in Hr. rewrite (tick_due now s st t Hst Ht Hle) in *. cbn [late] in Hr. rewrite Hl in *. cbn [app] in Hr.
  eapply (save_file now (checked_in now st (file s)) 0). exact (f_equal (fun x => x !! 0%nat) Hr).
Qed.

(** a slow submit repeats a check-in: a tick that finds the check-in due sends it again while the submit of an earlier tick still waits, since the time of
    the last check-in is saved only once that submit is answered. *)
Theorem slow_submit_repeats_check_in now now' s st t :
  checkInState test (file s) = Some st -> v_nextAt (checkIn test created now (file s)) = Some t -> pausedUntil st = None -> lastAt st <> None -> t <= now -> now <= now' ->
  sent (run s [Tick now false; Tick now' false]) = sent s ++ [now; now'].
Proof.
  intros Hst Ht Hp Hlast Hle Hle'. unfold ChatDuties.run. cbn [fold_left ChatDuties.step]. rewrite (tick_due now s st t Hst Ht Hle).
  rewrite (tick_due now' _ st t); [cbn; by rewrite <- app_assoc|done| |lia]. revert Ht. cbn [file]. unfold checkIn. rewrite Hst, Hp. cbn [is_paused v_nextAt]. by destruct (lastAt st).
Qed.

(** a check-in that is answered in time runs once per interval: after a tick sends it and saves, no tick sends another until the interval has passed. *)
Theorem check_in_once_per_interval now now' s st t running :
  late s = [] -> checkInState test (file s) = Some st -> v_nextAt (checkIn test created now (file s)) = Some t -> t <= now -> now' < now + everyMs st ->
  sent (run s [Tick now false; TickSave 0; Tick now' running]) = sent s ++ [now].
Proof.
  intros Hl Hst Ht Hle Hlt. unfold ChatDuties.run. cbn [fold_left ChatDuties.step]. rewrite (tick_due now s st t Hst Ht Hle), Hl. set (s1 := mkChat _ _ _ _ _ _).
  destruct (save_file now (checked_in now st (file s)) 0 s1 eq_refl) as (Hf & _ & Hs). destruct (tick_not_due now' running (tick_save 0 s1)) as (_ & _ & ->); [|by rewrite Hs].
  rewrite Hf. intros u. unfold checkIn. cbn [checkInState checked_in with_checkIn checkIn_ lastAt pausedUntil everyMs orelse nullish default v_nextAt].
  destruct (is_paused now' (pausedUntil st)); [|intros [= <-]; lia]. destruct (pausedUntil st) as [[p|]|]; intros [= <-]; lia.
Qed.

(** ** What is recorded stays *)

Lemma change_run_keeps p g l r : r ∈ l -> p r = false -> r ∈ change_run p g l.
Proof.
  induction l as [|x l IH]; [by intros ?%not_elem_of_nil|]. cbn. intros [->|Hr]%elem_of_cons Hp; [rewrite Hp; by left|]. destruct (p x); right; [done|by apply IH].
Qed.
Lemma close_last_keeps working record l r : r ∈ l -> run_after r <> None -> r ∈ close_last working record l.
Proof.
  intros Hr Ha. unfold close_last. destruct (List.find has_job (sorted_runs l)) as [x|]; [|done]. destruct (takes_after working record x); [|done].
  apply change_run_keeps; [done|]. by rewrite (bool_decide_eq_false_2 _ Ha), andb_false_r.
Qed.
Lemma take_or_full {A} n (l : list A) x : x ∈ l -> x ∈ take n l \/ length (take n l) = n.
Proof. intros Hx. destruct (decide (length l <= n)%nat); [left; by rewrite take_ge|right; rewrite length_take; lia]. Qed.
Lemma runs_of_set f id k l : runs_of (with_runs f k l) id = if decide (id = k) then l else runs_of f id.
Proof. unfold runs_of, with_runs. cbn. rewrite OMap.get_set. by case_decide. Qed.

Definition keeps_measures (f f' : DutyFile) : Prop :=
  forall id r, r ∈ runs_of f id -> run_after r <> None -> r ∈ runs_of f' id \/ length (runs_of f' id) = 20%nat.
Lemma keeps_same f f' : runs f' = runs f -> keeps_measures f f'.
Proof. intros Hr id r Hin _. left. unfold runs_of in *. by rewrite Hr. Qed.
Lemma change_duty_runs id g f : runs (change_duty id g f) = runs f.
Proof. unfold change_duty. by destruct (find_duty f id). Qed.
Lemma run_end_keeps id record working f : keeps_measures f (run_end id record working f).
Proof.
  intros k r Hr Ha. unfold run_end. rewrite runs_of_set. case_decide as Hk; [subst k|by left]. apply take_or_full. unfold sorted_runs. apply elem_sort_by. right. by apply close_last_keeps.
Qed.
Lemma measured_after_keeps id t m f : keeps_measures f (measured_after id t m f).
Proof.
  intros k r Hr Ha. unfold measured_after. destruct (OMap.get id (runs f)) as [l|] eqn:El; [|by left]. destruct (List.find _ l) as [x|]; [|by left]. case_bool_decide; [|by left].
  left. rewrite runs_of_set. case_decide as Hk; [subst k|done]. apply change_run_keeps; [by unfold runs_of in Hr; rewrite El in Hr|]. by rewrite (bool_decide_eq_false_2 _ Ha), andb_false_r.
Qed.

Definition removes (e : Event) : Prop := match e with Act (RemoveDuty _) _ | TickSave _ => True | _ => False end.

(** an after-job measure, once in a run, stays: every handler but the removal of a duty and the late save of a tick leaves each run that has one as it is, until
    20 runs fill the duty's list. *)
Theorem recorded_measures_stay s e id r :
  ~ removes e -> r ∈ runs_of (file s) id -> run_after r <> None ->
  r ∈ runs_of (file (step s e)) id \/ length (runs_of (file (step s e)) id) = 20%nat.
Proof.
  intros He Hr Ha. enough (keeps_measures (file s) (file (step s e))) as Hk by by apply Hk.
  destruct e as [a now|every pause now|k now|k record working|k|k|k ended|k m|now running|k]; cbn [ChatDuties.step].
  - destruct (dutyAction dutyStrayBranches a now (file s)) as [f|] eqn:E; [|by apply keeps_same].
    assert (runs f = runs (file s)) as Hruns.
    { unfold dutyAction in E. destruct a as [def m|k|k|k|k sc|k]; [apply bind_ok in E as (x & _ & [= <-]); done|by destruct He|..];
        unfold acted in E; destruct (find_duty (file s) k); try done; injection E as <-; apply change_duty_runs. }
    apply keeps_same. destruct a; try done. by destruct (runDuty_quiet id0 (with_file s f)) as (-> & _).
  - apply keeps_same. unfold setCheckIn. by destruct (match every with Some _ => _ | None => _ end).
  - apply keeps_same. unfold begin_run, run_begin. destruct (_ && _); [|done]. destruct (find_duty (file s) k); [|done]. cbn [file]. apply change_duty_runs.
  - unfold finish_run. case_bool_decide; [apply run_end_keeps|by apply keeps_same].
  - apply keeps_same. by case_bool_decide.
  - apply keeps_same. by destruct (afterJob_quiet k s) as (-> & _).
  - apply keeps_same. unfold job_ended. destruct (OMap.get k (endChecks s)); [|done]. by destruct (_ || _ || _).
  - unfold after_done. destruct (OMap.get k (afters s)) as [t|]; [|by apply keeps_same]. destruct m as [m|]; [apply measured_after_keeps|by apply keeps_same].
  - apply keeps_same. unfold tick. destruct (checkInState test (file s)), (v_nextAt (checkIn test created now (file s))); try by destruct (tick_duties_quiet now (file s) s) as (-> & _).
    destruct (_ && _); [done|]. by destruct (tick_duties_quiet now (file s) s) as (-> & _).
  - by destruct He.
Qed.
End Reach.

(** ** Examples *)

Definition demo_check_in : CheckInState := mkCheckIn 7200000 None (Some 0).
Definition demo_file : DutyFile := mkFile demo_duties [] (Some demo_check_in).
Definition demo_chat : Chat := init demo_file.
Definition demo_step := run no_stray false None.

Lemma next_daily_run_witness : nextRun (Daily "06:10") 0 = 76200000 /\ 0 < nextRun (Daily "06:10") 0 <= DAY.
Proof. split; [by vm_compute|]. exact (proj1 (next_daily_run "06:10" 0 eq_refl)). Defined.

Definition a_start : list Event := [Act (RunNow "d1") 10; BeginRun "d1" 11; AfterJob "d1"].
Lemma measures_never_overlap_witness : OMap.get "d1" (dutyRuns (demo_step demo_chat a_start)) = Some Going /\ OMap.get "d1" (afters (demo_step demo_chat a_start)) = None.
Proof. split; [by vm_compute|]. apply (measures_never_overlap no_stray false None demo_file a_start "d1"). by vm_compute. Defined.

(** The owner pauses the duty and its run is recorded while the check-in is sent; the tick's save loses both. *)
Definition between : list Event := [Act (Pause "d1") 7200001; Act (RunNow "d1") 7200002; BeginRun "d1" 7200003; FinishRun "d1" (demo_run 7200003 3 false) (fun _ => false)].
Lemma tick_save_undoes_witness :
  map d_status (duties (file (demo_step demo_chat (Tick 7200000 false :: between)))) = [Paused] /\
  length (runs_of (file (demo_step demo_chat (Tick 7200000 false :: between))) "d1") = 1%nat /\
  file (demo_step demo_chat (Tick 7200000 false :: between ++ [TickSave 0])) = mkFile demo_duties [] (Some (mkCheckIn 7200000 None (Some 7200000))).
Proof.
  split; [by vm_compute|]. split; [by vm_compute|].
  apply (tick_save_undoes no_stray false None 7200000 demo_chat demo_check_in 7200000 between); [done|done|by vm_compute|lia|]. repeat constructor.
Defined.
Lemma slow_submit_repeats_check_in_witness : sent (demo_step demo_chat [Tick 7200000 false; Tick 7230000 false]) = [7200000; 7230000].
Proof. apply (slow_submit_repeats_check_in no_stray false None 7200000 7230000 demo_chat demo_check_in 7200000); [done|by vm_compute|done|done|lia|lia]. Defined.
Lemma check_in_once_per_interval_witness : sent (demo_step demo_chat [Tick 7200000 false; TickSave 0; Tick 7230000 false]) = [7200000].
Proof. apply (check_in_once_per_interval no_stray false None 7200000 7230000 demo_chat demo_check_in 7200000 false); [done|done|by vm_compute|lia|cbn; lia]. Defined.

Definition measured_run : DutyRunRecord := with_after (500, run_measure (demo_run 500 0 false)) (demo_run 400 3 false).
Definition measured_chat : Chat := init (mkFile demo_duties [("d1", [measured_run])] (Some demo_check_in)).
Lemma recorded_measures_stay_witness :
  let s := demo_step measured_chat [Act (RunNow "d1") 600; BeginRun "d1" 601] in
  measured_run ∈ runs_of (file (step no_stray false None s (FinishRun "d1" (demo_run 601 0 false) (fun _ => false)))) "d1".
Proof.
  intros s. destruct (recorded_measures_stay no_stray false None s (FinishRun "d1" (demo_run 601 0 false) (fun _ => false)) "d1" measured_run) as [Hr|Hl]; [by intros []|by left|done|exact Hr|by vm_compute in Hl].
Defined.
