(* ===== verification/BoardStore.v ===== *)
(** * A chat's board between the server's cache and pi-host's document

    [Boards] of [apps/chat/server/boards.ts] where it reads and writes a chat's [chat.board] document: the cache with its 15 s,
    the one read in flight that every caller shares, [apply] with its [docPut], and the doc events. A handler that awaits is one step up
    to each await; pi-host's own part of a read or a put is a step too. *)

From S2P Require Import Prelude Json Board BoardText BoardFlags BoardOps BoardTree BoardSpec BoardParse BoardTypes.
#[local] Open Scope string_scope.
#[local] Open Scope list_scope.
#[local] Open Scope Z_scope.

Definition BOARD_TTL_MS : Z := 15000.

(** What the server sees of a board: its [BoardView] without the steps that need a go. *)
Definition Cached : Type := option ChatBoard * Z.
Definition Request : Type := json * BoardActor * string.

(** [doc] is pi-host's document, [cache] the server's entry, [reading] when the read in flight began with what pi-host read for it, [waiting] the
    requests that wait for that read, and [flights] the puts in flight, marked once pi-host has stored them. *)
Record Store := mkStore {
  doc : option ChatBoard; cache : option Cached; reading : option (Z * option (option ChatBoard)); waiting : list Request; flights : list (ChatBoard * bool)
}.

Section Store.
Context `{Dates, Rules, Links}.

Definition fresh_cache (now : Z) (s : Store) : option Cached :=
  match cache s with Some c => if now - c.2 <? BOARD_TTL_MS then Some c else None | None => None end.
Definition remember (b : option ChatBoard) (now : Z) (s : Store) : Store := mkStore (doc s) (Some (b, now)) (reading s) (waiting s) (flights s).

(** [apply] once it has the board: every op, or none and the refusal; then the put. *)
Definition put_ops (b : option ChatBoard) (s : Store) (r : Request) : Store :=
  match apply_request (nullish b (emptyBoard r.2)) r.1.1 r.1.2 r.2 with
  | Fine x => mkStore (doc s) (cache s) (reading s) (waiting s) (flights s ++ [(x.1, false)])
  | _ => s
  end.
(** [apply] up to its first await: the ops are parsed, and the board comes from the cache or from the shared read. *)
Definition ask (now : Z) (r : Request) (s : Store) : Store :=
  match parseBoardOps r.1.1 with
  | Fine _ =>
      match fresh_cache now s with
      | Some c => put_ops c.1 s r
      | None => mkStore (doc s) (cache s) (match reading s with Some x => Some x | None => Some (now, None) end) (waiting s ++ [r]) (flights s)
      end
  | _ => s
  end.
(** pi-host reads the document for the read in flight. *)
Definition serve (s : Store) : Store :=
  match reading s with Some (t, None) => mkStore (doc s) (cache s) (Some (t, Some (doc s))) (waiting s) (flights s) | _ => s end.
(** [fetchBoard] after its await: a write that landed while it ran wins; a failed read keeps the board before it. *)
Definition read_board (t : Z) (seen : option (option ChatBoard)) (now : Z) (s : Store) : option ChatBoard * Store :=
  match cache s with
  | Some c => if t <? c.2 then (c.1, s) else let b := match seen with Some v => v | None => c.1 end in (b, remember b now s)
  | None => let b := match seen with Some v => v | None => None end in (b, remember b now s)
  end.
Definition read_done (now : Z) (ok : bool) (s : Store) : Store :=
  match reading s with
  | Some (t, Some v) =>
      let '(b, s1) := read_board t (if ok then Some v else None) now (mkStore (doc s) (cache s) None [] (flights s)) in
      fold_left (put_ops b) (waiting s) s1
  | _ => s
  end.
(** pi-host stores the [k]th put, and answers it. *)
Definition land (k : nat) (s : Store) : Store :=
  match flights s !! k with
  | Some (b, false) => mkStore (Some b) (cache s) (reading s) (waiting s) (<[k := (b, true)]> (flights s))
  | _ => s
  end.
Definition answered (now : Z) (k : nat) (s : Store) : Store :=
  match flights s !! k with
  | Some (b, true) => remember (Some b) now (mkStore (doc s) (cache s) (reading s) (waiting s) (delete k (flights s)))
  | _ => s
  end.
(** [docChanged]: pi-host tells of the document as it is. *)
Definition doc_changed (now : Z) (s : Store) : Store := remember (doc s) now s.

Inductive Step := Ask (now : Z) (r : Request) | Serve | ReadDone (now : Z) (ok : bool) | Land (k : nat) | Answered (now : Z) (k : nat) | DocChanged (now : Z).
Definition store_step (s : Store) (e : Step) : Store :=
  match e with
  | Ask now r => ask now r s | Serve => serve s | ReadDone now ok => read_done now ok s
  | Land k => land k s | Answered now k => answered now k s | DocChanged now => doc_changed now s
  end.
Definition store_run (s : Store) (l : list Step) : Store := fold_left store_step l s.

(** ** The theorems *)

(** A request served on its own: the read when the cache is stale, the put and its answer. *)
Definition alone (r : Z * Request) (s : Store) : list Step :=
  match fresh_cache r.1 s with
  | Some _ => [Ask r.1 r.2; Land 0; Answered r.1 0]
  | None => [Ask r.1 r.2; Serve; ReadDone r.1 true; Land 0; Answered r.1 0]
  end.
Definition serve_alone (s : Store) (r : Z * Request) : Store := store_run s (alone r s).
(** The cache, where it is fresh, has the document, and nothing is in flight. *)
Definition settled_store (b : ChatBoard) (s : Store) : Prop :=
  doc s = Some b /\ (forall c, cache s = Some c -> c.1 = Some b) /\ reading s = None /\ waiting s = [] /\ flights s = [].

Lemma put_ops_spec b s r : put_ops b s r = s \/ exists b', put_ops b s r = mkStore (doc s) (cache s) (reading s) (waiting s) (flights s ++ [(b', false)]).
Proof. unfold put_ops. destruct (apply_request _ _ _ _) as [x| |]; [right; by eexists|by left|by left]. Qed.

(** The put, its landing and its answer, from a store with nothing in flight. *)
Lemma put_lands now b s r : flights s = [] ->
  let s' := store_run (put_ops (Some b) s r) [Land 0; Answered now 0] in
  (s' = s /\ request b r = b) \/
  s' = mkStore (Some (request b r)) (Some (Some (request b r), now)) (reading s) (waiting s) [].
Proof.
  intros Hf. cbv zeta. destruct s as [d c rd w fl]. cbn in Hf. subst fl. unfold put_ops, request. change (nullish (Some b) (emptyBoard r.2)) with b. destruct (apply_request b _ _ _) as [x| |]; [|by left|by left]. by right.
Qed.
Lemma unparsed now b s r : (forall ops, parseBoardOps r.1.1 <> Fine ops) -> ask now r s = s /\ request b r = b.
Proof. intros Hp. unfold ask, request, apply_request. destruct (parseBoardOps r.1.1) as [ops| |]; [by destruct (Hp ops)|done|done]. Qed.

Lemma idle_steps s now now' ok : reading s = None -> flights s = [] -> store_run s [Serve; ReadDone now ok; Land 0; Answered now' 0] = s /\ store_run s [Land 0; Answered now' 0] = s.
Proof. intros Hr Hf. unfold store_run. cbn [fold_left store_step]. unfold serve, read_done. rewrite !Hr. unfold land. rewrite !Hf. cbn [lookup list_lookup]. unfold answered. by rewrite !Hf. Qed.

Lemma serve_alone_spec b s r : settled_store b s -> settled_store (request b r.2) (serve_alone s r).
Proof.
  intros Hset. pose proof Hset as (Hd & Hc & Hr & Hw & Hf). destruct r as [now r]. unfold serve_alone, alone. cbn [fst snd].
  assert ((exists ops, parseBoardOps r.1.1 = Fine ops) \/ forall ops, parseBoardOps r.1.1 <> Fine ops) as [(ops & Hp)|Hp] by (destruct (parseBoardOps r.1.1); [left; by eexists|by right|by right]).
  - assert (forall s0, settled_store b s0 -> settled_store (request b r) (store_run (put_ops (Some b) s0 r) [Land 0; Answered now 0])) as Hput.
    { intros s0 (H1' & H2' & H3' & H4' & H5'). destruct (put_lands now b s0 r H5') as [[-> ->]| ->]; [done|]. split_and!; try done. by intros c [= <-]. }
    destruct (fresh_cache now s) as [c|] eqn:Ec; unfold store_run; cbn [fold_left store_step]; unfold ask; rewrite Hp, Ec.
    + assert (c.1 = Some b) as Hcb. { apply Hc. unfold fresh_cache in Ec. destruct (cache s) as [c'|]; [|done]. destruct (_ <? _); [by injection Ec as ->|done]. }
      rewrite Hcb. by apply Hput.
    + rewrite Hr, Hw, Hf, Hd. unfold serve. cbn [reading doc cache waiting flights app]. unfold read_done. cbn [reading doc cache waiting flights].
      unfold read_board. cbn [cache]. destruct (cache s) as [c|] eqn:Ecc.
      * assert ((now <? c.2) = false) as ->. { unfold fresh_cache in Ec. rewrite Ecc in Ec. destruct (now - c.2 <? BOARD_TTL_MS) eqn:E; [done|]. unfold BOARD_TTL_MS in E. simp_ok. apply Z.ltb_ge. lia. }
        cbn [fold_left]. apply Hput. split_and!; try done. by intros x [= <-].
      * cbn [fold_left]. apply Hput. split_and!; try done. by intros x [= <-].
  - destruct (unparsed now b s r Hp) as [Ha Hq]. rewrite Hq. destruct (idle_steps s now now true Hr Hf) as [Hi1 Hi2].
    destruct (fresh_cache now s); unfold store_run in *; cbn [fold_left store_step] in *; rewrite Ha; [by rewrite Hi2|by rewrite Hi1].
Qed.

(** C22: requests served one after another all land: when each request's put is answered before the next request, the document is the one the reducer gives from the
    requests in order, over a fresh cache and over a stale one that is read again, and a refused request changes nothing. *)
Theorem serial_requests_all_land b s rs :
  settled_store b s -> settled_store (fold_left request (map snd rs) b) (fold_left serve_alone rs s).
Proof.
  revert b s. induction rs as [|r rs IH]; intros b s Hs; [done|]. cbn [map fold_left]. apply IH. by apply serve_alone_spec.
Qed.

(** C23: requests at the same time lose ops: when a second request is asked before the first one's put is answered, over a fresh cache, both are answered as done, and
    the document holds only the ops of the one whose put pi-host stored last. *)
Theorem concurrent_requests_lose_ops b now now' s r1 r2 b1 b2 ss1 ss2 :
  flights s = [] -> cache s = Some (Some b, now) -> now <= now' < now + BOARD_TTL_MS ->
  apply_request b r1.1.1 r1.1.2 r1.2 = Fine (b1, ss1) -> apply_request b r2.1.1 r2.1.2 r2.2 = Fine (b2, ss2) ->
  let s' := store_run s [Ask now r1; Ask now' r2; Land 0; Land 1; Answered now' 0; Answered now' 0] in
  doc s' = Some b2 /\ cache s' = Some (Some b2, now') /\ flights s' = [] /\
  doc (store_run s [Ask now r1; Ask now' r2; Land 1; Land 0]) = Some b1.
Proof.
  intros Hf Hc Hnow H1' H2'. destruct s as [d c rd w fl]. cbn in Hf, Hc. subst fl c.
  assert (forall raw actor t x, apply_request b raw actor t = Fine x -> exists ops, parseBoardOps raw = Fine ops) as Hparse.
  { intros raw actor t x Hx. unfold apply_request in Hx. destruct (parseBoardOps raw) as [ops| |]; [by exists ops|done|done]. }
  destruct (Hparse _ _ _ _ H1') as [ops1 Hp1], (Hparse _ _ _ _ H2') as [ops2 Hp2].
  assert (forall t fs, now <= t < now + BOARD_TTL_MS -> fresh_cache t (mkStore d (Some (Some b, now)) rd w fs) = Some (Some b, now)) as Hfresh.
  { intros t fs Ht. unfold fresh_cache. cbn [cache snd]. rewrite (proj2 (Z.ltb_lt _ _)) by lia. done. }
  unfold store_run. cbn [fold_left store_step]. unfold ask. rewrite Hp1, Hp2. rewrite Hfresh by (unfold BOARD_TTL_MS in *; lia). unfold put_ops. cbn [fst]. change (nullish (Some b) (emptyBoard r1.2)) with b. rewrite H1'. cbn [doc cache reading waiting flights app].
  rewrite Hfresh by lia. cbn [fst]. change (nullish (Some b) (emptyBoard r2.2)) with b. rewrite H2'. done.
Qed.

(** a read never undoes a write: a read of the document that pi-host served before a put was answered or a doc event came leaves the cache as that left it, and what
    it gives its callers is the newer board. *)
Theorem late_read_keeps_the_write s t v b now now' ok :
  reading s = Some (t, v) -> cache s = Some (Some b, now) -> t < now ->
  cache (read_done now' ok s) = Some (Some b, now) /\ (read_board t v now' s).1 = Some b.
Proof.
  intros Hr Hc Hlt. assert ((t <? now) = true) as Ht by by apply Z.ltb_lt. split; [|unfold read_board; rewrite Hc; cbn [snd]; by rewrite Ht].
  unfold read_done. rewrite Hr. destruct v as [v|]; [|done]. unfold read_board. cbn [cache]. rewrite Hc. cbn [snd]. rewrite Ht. cbn [fst].
  set (s1 := mkStore _ _ _ _ _). assert (cache s1 = Some (Some b, now)) as H1' by done. revert H1'. generalize s1. induction (waiting s) as [|r rs IH]; intros s2 H2'; [done|]. cbn [fold_left]. apply IH.
  destruct (put_ops_spec (Some b) s2 r) as [->|(b' & ->)]; done.
Qed.
End Store.

(** ** Examples *)

Definition demo_add (t : string) : Request := demo_request [("op", JStr "plan_add"); ("text", JStr t)].
Definition demo_store : Store := mkStore (Some demo_board) (Some (Some demo_board, 100)) None [] [].
Definition texts (s : Store) : option (list string) := (fun b => map text (nodes (plan b))) <$> doc s.
Definition demo_store_run := @store_run demo_dates demo_rules demo_links.

Lemma serial_requests_all_land_witness :
  let s := fold_left (@serve_alone demo_dates demo_rules demo_links) [(200, demo_add "one"); (90000, demo_add "two")] demo_store in
  doc s = Some (fold_left (@request demo_dates demo_rules demo_links) [demo_add "one"; demo_add "two"] demo_board) /\
  texts s = Some ["ship it"; "build the page"; "one"; "two"].
Proof.
  intros s. split; [|by vm_compute]. refine (proj1 (@serial_requests_all_land demo_dates demo_rules demo_links demo_board demo_store [(200, demo_add "one"); (90000, demo_add "two")] _)).
  split_and!; try done. by intros c [= <-].
Defined.
Lemma concurrent_requests_lose_ops_witness :
  texts (demo_store_run demo_store [Ask 200 (demo_add "one"); Ask 300 (demo_add "two"); Land 0; Land 1; Answered 300 0; Answered 300 0]) = Some ["ship it"; "build the page"; "two"].
Proof.
  destruct (@apply_request demo_dates demo_rules demo_links demo_board (demo_add "one").1.1 Agent "1") as [[b1 ss1]| |] eqn:E1; [|by vm_compute in E1|by vm_compute in E1].
  destruct (@apply_request demo_dates demo_rules demo_links demo_board (demo_add "two").1.1 Agent "1") as [[b2 ss2]| |] eqn:E2; [|by vm_compute in E2|by vm_compute in E2].
  destruct (@concurrent_requests_lose_ops demo_dates demo_rules demo_links demo_board 200 300 (mkStore (Some demo_board) (Some (Some demo_board, 200)) None [] [])
    (demo_add "one") (demo_add "two") b1 b2 ss1 ss2 eq_refl eq_refl ltac:(unfold BOARD_TTL_MS; lia) E1 E2) as (Hdoc & _).
  vm_compute in E2. injection E2 as <- _. by vm_compute.
Defined.
Lemma late_read_keeps_the_write_witness :
  cache (@read_done demo_dates demo_rules demo_links 400 true (mkStore (Some demo_board) (Some (Some (emptyBoard "2"), 300)) (Some (100, Some (Some demo_board))) [] [])) = Some (Some (emptyBoard "2"), 300).
Proof.
  exact (proj1 (@late_read_keeps_the_write demo_dates demo_rules demo_links (mkStore (Some demo_board) (Some (Some (emptyBoard "2"), 300)) (Some (100, Some (Some demo_board))) [] []) 100 (Some (Some demo_board)) (emptyBoard "2") 300 400 true eq_refl eq_refl ltac:(lia))).
Defined.
