(* ===== verification/Harness.v ===== *)
(** * The continual harness store

    [packages/pi-harness/src/core/store.ts]: the entries of a store by kind, how a file is read ([parseState]),
    what [JSON.stringify] writes, and the merged view of the global and the local store.  A store of a kind is a
    JavaScript object, an [OMap] in insertion order; integer-like ids, which JavaScript moves to the front, keep
    that order here, and the id [__proto__] is outside the model.  An entry's own fields are a record, and
    [he_rest] holds the other fields of its file, in order.  [String(v)] of a number, array or object is an argument. *)

From S2P Require Import Prelude Json.
From Stdlib Require Import QArith.QArith_base.
#[local] Open Scope string_scope.
#[local] Open Scope list_scope.
#[local] Open Scope Z_scope.

Class Texts := { String_of : json -> string }.

Inductive Kind := KPrompt | KMemory | KSkill | KSubagent.
#[export] Instance Kind_eq : EqDecision Kind.
Proof. solve_decision. Defined.
Inductive Scope := SLocal | SGlobal.
#[export] Instance Scope_eq : EqDecision Scope.
Proof. solve_decision. Defined.

Definition KINDS : list Kind := [KPrompt; KMemory; KSkill; KSubagent].
Definition kind_name (k : Kind) : string :=
  match k with KPrompt => "prompt" | KMemory => "memory" | KSkill => "skill" | KSubagent => "subagent" end.
Definition kind_of (s : string) : option Kind := List.find (fun k => bool_decide (kind_name k = s)) KINDS.
Definition scope_name (s : Scope) : string := match s with SLocal => "local" | SGlobal => "global" end.
Definition scope_of (v : option json) : option Scope :=
  match v with
  | Some (JStr s) => if bool_decide (s = "local") then Some SLocal else if bool_decide (s = "global") then Some SGlobal else None
  | _ => None
  end.

Abbreviation object := (list (string * json)).

Record HarnessEntry := mkEntry {
  he_id : string; he_kind : Kind; he_title : string; he_content : string; he_path : string; he_scope : Scope;
  he_reference : object; he_arguments : object; he_metadata : object;
  he_source : string; he_created : string; he_updated : string; he_version : Z; he_rest : object }.

Record RefinementEvent := mkEvent { ev_id : string; ev_trigger : string; ev_changes : list string; ev_rest : object }.

Record Entries := mkEntries { prompts : list (string * HarnessEntry); memories : list (string * HarnessEntry);
  skills : list (string * HarnessEntry); subagents : list (string * HarnessEntry) }.

Definition store (k : Kind) (es : Entries) : list (string * HarnessEntry) :=
  match k with KPrompt => prompts es | KMemory => memories es | KSkill => skills es | KSubagent => subagents es end.
Definition with_store (k : Kind) (m : list (string * HarnessEntry)) (es : Entries) : Entries :=
  match k with
  | KPrompt => mkEntries m (memories es) (skills es) (subagents es)
  | KMemory => mkEntries (prompts es) m (skills es) (subagents es)
  | KSkill => mkEntries (prompts es) (memories es) m (subagents es)
  | KSubagent => mkEntries (prompts es) (memories es) (skills es) m
  end.

Record HarnessState := mkState { schema : Q; entries : Entries; refinements : list RefinementEvent }.
Definition emptyState : HarnessState := mkState 1%Q (mkEntries [] [] [] []) [].
Definition entry (k : Kind) (id : string) (st : HarnessState) : option HarnessEntry := OMap.get id (store k (entries st)).

Lemma store_with_store k k' m es : store k (with_store k' m es) = if decide (k = k') then m else store k es.
Proof. by destruct k, k'. Qed.
Lemma with_store_twice k m m' es : with_store k m (with_store k m' es) = with_store k m es.
Proof. by destruct k. Qed.

(** ** Reading a file *)

(** The digits [Number.parseInt(s, 10)] reads. *)
Definition parse_int (s : string) : option Z :=
  let l := drop_while is_space (to_chars s) in
  let '(sign, l) := match l with c :: r => if bool_decide (c = "-"%char) then (-1, r) else if bool_decide (c = "+"%char) then (1, r) else (1, l) | [] => (1, l) end in
  match take_while is_digit l with [] => None | d => Some (sign * digits_value d) end.

Definition version_of (v : option json) : Z :=
  match v with
  | Some (JStr s) => default 1 (parse_int s)
  | Some (JNum q) => default 1 (integer_of q)
  | _ => 1
  end.

(** The fields an entry's record names; [topic] is dropped. *)
Definition ENTRY_FIELDS : list string :=
  ["id"; "kind"; "title"; "content"; "path"; "scope"; "reference"; "arguments"; "metadata"; "source"; "created_at"; "updated_at"; "version"; "topic"].
Definition is_rest (names : list string) (f : string * json) : bool := negb (bool_decide (f.1 ∈ names)).
Definition rest_of (names : list string) (fs : object) : object := List.filter (is_rest names) fs.

Definition parse_entry (k : Kind) (id : string) (scope : Scope) (v : json) : option HarnessEntry :=
  e ← as_object (Some v);
  title ← as_string (field e "title");
  content ← as_string (field e "content");
  Some (mkEntry id k title content
    (nullish (as_string (field e "path")) (nullish (as_string (field e "topic")) "general"))
    (nullish (scope_of (field e "scope")) scope)
    (nullish (as_object (field e "reference")) []) (nullish (as_object (field e "arguments")) []) (nullish (as_object (field e "metadata")) [])
    (nullish (as_string (field e "source")) "agent") (nullish (as_string (field e "created_at")) "") (nullish (as_string (field e "updated_at")) "")
    (version_of (field e "version")) (rest_of ENTRY_FIELDS e)).

Definition add_entry (k : Kind) (scope : Scope) (m : list (string * HarnessEntry)) (f : string * json) : list (string * HarnessEntry) :=
  match parse_entry k f.1 scope f.2 with Some e => OMap.set f.1 e m | None => m end.
Definition parse_store (k : Kind) (scope : Scope) (es : object) : list (string * HarnessEntry) :=
  fold_left (add_entry k scope) (nullish (as_object (field es (kind_name k))) []) [].

Section Read.
Context `{Texts}.

(** [String(value)]. *)
Definition js_String (v : json) : string :=
  match v with JStr s => s | JNull => "null" | JBool true => "true" | JBool false => "false" | v => String_of v end.
Definition changes_of (v : option json) : option (list string) :=
  match v with Some (JStr s) => Some [s] | Some (JArr l) => Some (map js_String l) | _ => None end.
Definition EVENT_FIELDS : list string := ["id"; "trigger"; "changes"].
Definition parse_event (v : json) : option RefinementEvent :=
  r ← as_object (Some v);
  id ← as_string (field r "id");
  trigger ← as_string (field r "trigger");
  changes ← changes_of (field r "changes");
  Some (mkEvent id trigger changes (rest_of EVENT_FIELDS r)).

Definition parseState (raw : json) (scope : Scope) : HarnessState :=
  match raw with
  | JObj data =>
      let es := nullish (as_object (field data "entries")) [] in
      mkState (match field data "schema" with Some (JNum q) => q | _ => 1%Q end)
        (mkEntries (parse_store KPrompt scope es) (parse_store KMemory scope es) (parse_store KSkill scope es) (parse_store KSubagent scope es))
        (omap parse_event (nullish (as_array (field data "refinements")) []))
  | _ => emptyState
  end.

(** [readState]: no file, or one that is no JSON, reads as an empty store. *)
Definition readState (file : option json) (scope : Scope) : HarnessState :=
  match file with Some raw => parseState raw scope | None => emptyState end.

(** ** Writing: the value [JSON.stringify] prints *)

Definition entry_json (e : HarnessEntry) : json :=
  JObj ([("id", JStr (he_id e)); ("kind", JStr (kind_name (he_kind e))); ("title", JStr (he_title e)); ("content", JStr (he_content e));
         ("path", JStr (he_path e)); ("scope", JStr (scope_name (he_scope e))); ("reference", JObj (he_reference e));
         ("arguments", JObj (he_arguments e)); ("metadata", JObj (he_metadata e)); ("source", JStr (he_source e));
         ("created_at", JStr (he_created e)); ("updated_at", JStr (he_updated e)); ("version", JNum (inject_Z (he_version e)))] ++ he_rest e).
Definition store_json (m : list (string * HarnessEntry)) : json := JObj (map (fun p => (p.1, entry_json p.2)) m).
Definition event_json (r : RefinementEvent) : json :=
  JObj ([("id", JStr (ev_id r)); ("trigger", JStr (ev_trigger r)); ("changes", JArr (map JStr (ev_changes r)))] ++ ev_rest r).
Definition state_json (st : HarnessState) : json :=
  JObj [("schema", JNum (schema st));
        ("entries", JObj (map (fun k => (kind_name k, store_json (store k (entries st)))) KINDS));
        ("refinements", JArr (map event_json (refinements st)))].

(** ** The merged view *)

(** The names every JavaScript object has from [Object.prototype]; all but [__proto__] are functions. *)
Definition INHERITED : list string :=
  ["constructor"; "toString"; "valueOf"; "toLocaleString"; "hasOwnProperty"; "isPrototypeOf"; "propertyIsEnumerable";
   "__defineGetter__"; "__defineSetter__"; "__lookupGetter__"; "__lookupSetter__"].
Definition inherited (id : string) : bool := bool_decide (id ∈ INHERITED).

Definition add_local (m : list (string * HarnessEntry)) (f : string * HarnessEntry) : list (string * HarnessEntry) :=
  OMap.set (if OMap.has f.1 m || inherited f.1 then scope_name (he_scope f.2) +:+ ":" +:+ f.1 else f.1) f.2 m.
Definition merge_store (g l : list (string * HarnessEntry)) : list (string * HarnessEntry) :=
  fold_left add_local l (fold_left (fun m f => OMap.set f.1 f.2 m) g []).
Definition qmax (a b : Q) : Q := if Qle_bool a b then b else a.
Definition mergeStates (global : HarnessState) (local : option HarnessState) : HarnessState :=
  let ls k := match local with Some l => store k (entries l) | None => [] end in
  let merged k := merge_store (store k (entries global)) (ls k) in
  mkState (qmax (schema global) (match local with Some l => schema l | None => 1%Q end))
    (mkEntries (merged KPrompt) (merged KMemory) (merged KSkill) (merged KSubagent))
    (refinements global ++ match local with Some l => refinements l | None => [] end).
End Read.

(** ** A store that was read keeps its shape, and reads back as it was written *)

Definition wf_rest (names : list string) (fs : object) : Prop := Forall (fun f => is_rest names f = true) fs.
Definition wf_store (k : Kind) (m : list (string * HarnessEntry)) : Prop :=
  NoDup (OMap.keys m) /\ Forall (fun p => he_id p.2 = p.1 /\ he_kind p.2 = k /\ wf_rest ENTRY_FIELDS (he_rest p.2)) m.
Definition wf_state (st : HarnessState) : Prop :=
  (forall k, wf_store k (store k (entries st))) /\ Forall (fun r => wf_rest EVENT_FIELDS (ev_rest r)) (refinements st).

Lemma rest_of_rest names fs : wf_rest names fs -> rest_of names fs = fs.
Proof. unfold rest_of. induction 1 as [|f fs Hf _ IH]; cbn; [done|]. by rewrite Hf, IH. Qed.
Lemma rest_of_wf names fs : wf_rest names (rest_of names fs).
Proof. apply List.Forall_forall. intros f [_ Hf]%List.filter_In. done. Qed.

Lemma parse_entry_json k id scope e :
  he_id e = id -> he_kind e = k -> wf_rest ENTRY_FIELDS (he_rest e) -> parse_entry k id scope (entry_json e) = Some e.
Proof.
  intros <- <- Hr. unfold parse_entry, entry_json. cbn [as_object mbind option_bind app]. lookups.
  cbn [as_string as_object nullish default from_option id mbind option_bind version_of]. rewrite integer_of_Z.
  match goal with |- context [rest_of ENTRY_FIELDS ?fs] => change (rest_of ENTRY_FIELDS fs) with (rest_of ENTRY_FIELDS (he_rest e)) end.
  rewrite (rest_of_rest _ _ Hr). by destruct e as [? ? ? ? ? []].
Qed.

Lemma set_wf k m id e : wf_store k m -> he_id e = id -> he_kind e = k -> wf_rest ENTRY_FIELDS (he_rest e) -> wf_store k (OMap.set id e m).
Proof.
  intros [Hn Hf] Hi Hk Hr. split; [by apply OMap.set_NoDup|].
  apply Forall_forall. intros p Hp. destruct (OMap.elem_set _ _ _ _ Hp) as [->|Hin]; [done|].
  by apply (proj1 (Forall_forall _ _) Hf).
Qed.
Lemma parse_entry_wf k id scope v e : parse_entry k id scope v = Some e -> he_id e = id /\ he_kind e = k /\ wf_rest ENTRY_FIELDS (he_rest e).
Proof.
  unfold parse_entry. destruct (as_object (Some v)) as [fs|]; [|done]. cbn.
  destruct (as_string (field fs "title")); [|done]. cbn. destruct (as_string (field fs "content")); [|done]. cbn.
  intros [= <-]. cbn. split_and!; [done..|]. apply rest_of_wf.
Qed.
Lemma parse_store_wf k scope es : wf_store k (parse_store k scope es).
Proof.
  unfold parse_store. assert (Hw : wf_store k []) by (split; [constructor|done]).
  revert Hw. generalize (@nil (string * HarnessEntry)). generalize (nullish (as_object (field es (kind_name k))) []).
  induction l as [|f l IH]; intros m Hm; cbn; [done|]. apply IH. unfold add_entry.
  destruct (parse_entry k f.1 scope f.2) as [e|] eqn:E; [|done].
  destruct (parse_entry_wf _ _ _ _ _ E) as (Hi & Hk & Hr). by apply set_wf.
Qed.

Section Spec.
Context `{Texts}.

Lemma parseState_wf raw scope : wf_state (parseState raw scope).
Proof.
  assert (He : wf_state emptyState) by (split; [intros []; split; constructor|constructor]).
  destruct raw as [| | | | |data]; cbn; try exact He. split.
  - intros []; apply parse_store_wf.
  - cbn. apply Forall_forall. intros r (v & _ & Hv)%list_elem_of_omap. unfold parse_event in Hv.
    destruct (as_object (Some v)) as [fs|]; [|done]. cbn in Hv.
    destruct (as_string (field fs "id")); [|done]. cbn in Hv. destruct (as_string (field fs "trigger")); [|done]. cbn in Hv.
    destruct (changes_of (field fs "changes")); [|done]. cbn in Hv. injection Hv as <-. apply rest_of_wf.
Qed.

Lemma parse_store_json k scope m acc : Forall (fun p => he_id p.2 = p.1 /\ he_kind p.2 = k /\ wf_rest ENTRY_FIELDS (he_rest p.2)) m ->
  NoDup (OMap.keys (acc ++ m)) ->
  fold_left (add_entry k scope) (map (fun p => (p.1, entry_json p.2)) m) acc = acc ++ m.
Proof.
  intros Hf. revert acc. induction Hf as [|[id e] m (Hi & Hk & Hr) Hf IH]; intros acc Hn; cbn; [by rewrite app_nil_r|].
  cbn in Hi, Hk, Hr. change (add_entry k scope acc (id, entry_json e)) with (match parse_entry k id scope (entry_json e) with Some e => OMap.set id e acc | None => acc end). rewrite (parse_entry_json k id scope e Hi Hk Hr).
  rewrite OMap.set_app_new.
  - rewrite IH; rewrite <- app_assoc; [done|exact Hn].
  - apply OMap.get_None. unfold OMap.keys in *. rewrite map_app in Hn. cbn in Hn. apply NoDup_app in Hn as (_ & Hd & _).
    intros Hin. apply (Hd id Hin). constructor.
Qed.

Lemma parse_event_json r : wf_rest EVENT_FIELDS (ev_rest r) -> parse_event (event_json r) = Some r.
Proof.
  intros Hr. unfold parse_event, event_json. cbn [as_object mbind option_bind app]. lookups.
  cbn [as_string changes_of mbind option_bind].
  match goal with |- context [rest_of EVENT_FIELDS ?fs] => change (rest_of EVENT_FIELDS fs) with (rest_of EVENT_FIELDS (ev_rest r)) end.
  rewrite (rest_of_rest _ _ Hr), map_map. cbn. rewrite map_id. by destruct r.
Qed.

Lemma parse_store_back k scope es : wf_store k (store k es) ->
  parse_store k scope (map (fun k => (kind_name k, store_json (store k es))) KINDS) = store k es.
Proof.
  intros [Hn Hw]. unfold parse_store.
  assert (Hf : field (map (fun k => (kind_name k, store_json (store k es))) KINDS) (kind_name k) = Some (store_json (store k es))) by by destruct k.
  rewrite Hf. exact (parse_store_json k scope _ [] Hw Hn).
Qed.

Lemma state_reads_back st scope : wf_state st -> parseState (state_json st) scope = st.
Proof.
  intros [Hs Hr]. destruct st as [sc es rs]. unfold parseState, state_json. lookups.
  cbn [as_object as_array nullish default from_option id entries refinements] in *. f_equal.
  - rewrite !parse_store_back by apply Hs. by destruct es.
  - clear -Hr. induction Hr as [|r rs Hr _ IH]; [done|]. cbn [map omap list_omap]. by rewrite parse_event_json, IH.
Qed.

(** whatever a harness file holds, reading it, writing the store and reading that again gives the same store:
    one write drops nothing a reader sees, the fields the code does not know included, and repeats nothing. *)
Theorem store_roundtrip raw scope scope' :
  parseState (state_json (parseState raw scope)) scope' = parseState raw scope.
Proof. apply state_reads_back, parseState_wf. Qed.
End Spec.
