(* ===== verification/Refine.v ===== *)
(** * Refines of the continual harness

    [packages/pi-harness/src/core/refine.ts]: the command's arguments, a model reply as a proposal, why an edit
    cannot apply, applying a proposal to a store ([applyProposal]), the edits that undo one ([rollbackProposal]),
    and the history and notice texts.  An edit's action and kind are the JSON the model sent; the store's own
    properties are looked up through the prototype, as [store[id]] is.  [JSON.parse] and the clock are arguments:
    the [n]th edit reads the clock at [now n].  An exception is [Throw], and [updateState] then writes nothing. *)

From S2P Require Import Prelude Json Harness.
#[local] Open Scope string_scope.
#[local] Open Scope list_scope.
#[local] Open Scope Z_scope.

Record RefineEdit := mkEdit {
  re_action : option json; re_kind : option json; re_id : option string; re_title : option string; re_content : option string;
  re_path : option string; re_reference : option object; re_arguments : option object; re_metadata : option object; re_reason : option string }.
Record RefineProposal := mkProposal { pr_summary : string; pr_rationale : string; pr_expected : string; pr_edits : list RefineEdit }.
(** [{...edit, id, applied, error, before, after}]. *)
Record AppliedEdit := mkApplied { ae_edit : RefineEdit; ae_id : string; ae_applied : bool; ae_error : option string;
  ae_before : option HarnessEntry; ae_after : option HarnessEntry }.
Record RefineResult := mkResult { rr_id : string; rr_summary : string; rr_rationale : string; rr_expected : string;
  rr_edits : list AppliedEdit; rr_rollbackOf : option string; rr_scope : option Scope }.

Inductive Action := ACreate | AUpdate | ADelete.
#[export] Instance Action_eq : EqDecision Action.
Proof. solve_decision. Defined.
Definition action_name (a : Action) : string := match a with ACreate => "create" | AUpdate => "update" | ADelete => "delete" end.
Definition action_of (v : option json) : option Action :=
  s ← as_string v; List.find (fun a => bool_decide (action_name a = s)) [ACreate; AUpdate; ADelete].
Definition edit_kind (e : RefineEdit) : option Kind := s ← as_string (re_kind e); kind_of s.

(** ** The command and the ids *)

Definition is_alnum (c : Ascii.ascii) : bool := ((97 <=? code c) && (code c <=? 122)) || is_digit c.
(** [replace(/[^a-z0-9]+/g, "_")]; [inside] is a run already written. *)
Fixpoint squeeze (inside : bool) (l : chars) : chars :=
  match l with
  | [] => []
  | c :: r => if is_alnum c then c :: squeeze false r else if inside then squeeze true r else "_"%char :: squeeze true r
  end.
Definition is_underscore (c : Ascii.ascii) : bool := bool_decide (c = "_"%char).
Definition strip_underscores (l : chars) : chars := reverse (drop_while is_underscore (reverse (drop_while is_underscore l))).
Definition slug_text (s : string) : string := of_chars (take 80 (strip_underscores (squeeze false (map lower (trim_chars (to_chars s)))))).

Definition USAGE : string := "Usage: /refine rollback <refinement-id>".
Record RefineArgs := mkArgs { ra_instructions : option string; ra_rollbackId : option string; ra_global : bool }.
(** [/^flag(?=\s|$)/]: the text after the flag. *)
Definition after_flag (l : chars) : option chars :=
  let flag := to_chars "--global" in
  if starts_with flag l then match drop (length flag) l with [] => Some [] | c :: r => if is_space c then Some (c :: r) else None end else None.
(** [/\s--global$/]: the text before it. *)
Definition before_flag (l : chars) : option chars :=
  match after_flag (reverse (take 8 (reverse l))), reverse (drop 8 (reverse l)) with
  | Some [], r => match reverse r with c :: r' => if is_space c then Some (reverse r') else None | [] => None end
  | _, _ => None
  end.
Definition parseRefineArgs (text : string) : result RefineArgs :=
  let rest := trim_chars (to_chars text) in
  let '(global, rest) := match after_flag rest with Some r => (true, trim_chars r) | None => (false, rest) end in
  if bool_decide (rest = to_chars "rollback") then Throw USAGE
  else
    let word := to_chars "rollback" in
    let tail := drop (length word) rest in
    match (if starts_with word rest then tail else []) with
    | c :: r =>
        if bool_decide (c = "009"%char) || bool_decide (c = " "%char) || bool_decide (c = "160"%char) then
          let id := trim_chars r in
          if bool_decide (id = to_chars "--global") then Throw USAGE
          else
            let '(global, id) := match before_flag id with Some i => (true, trim_chars i) | None => (global, id) end in
            if bool_decide (id = []) then Throw USAGE else Ok (mkArgs None (Some (of_chars id)) global)
        else Ok (mkArgs (Some (of_chars rest)) None global)
    | [] => Ok (mkArgs (if bool_decide (rest = []) then None else Some (of_chars rest)) None global)
    end.

(** ** The model's reply *)

Definition TRUNCATED_JSON : string :=
  "the model stopped before completing its JSON object. This usually means the output budget was exhausted; retry with a smaller request.".

(** The scan of [unfinishedJson]: depth, in a string, after a backslash. *)
Fixpoint json_scan (depth : Z) (inString escaped : bool) (l : chars) : bool :=
  match l with
  | [] => inString || (0 <? depth)
  | c :: r =>
      if escaped then json_scan depth inString false r
      else if inString then
        if bool_decide (c = "\"%char) then json_scan depth true true r
        else if bool_decide (c = "034"%char) then json_scan depth false false r
        else json_scan depth true false r
      else if bool_decide (c = "034"%char) then json_scan depth true false r
      else if bool_decide (c = "{"%char) || bool_decide (c = "["%char) then json_scan (depth + 1) false false r
      else if bool_decide (c = "}"%char) || bool_decide (c = "]"%char) then json_scan (depth - 1) false false r
      else json_scan depth false false r
  end.
Definition unfinishedJson (l : chars) : bool := json_scan 0 false false l.

Fixpoint index_of (p l : chars) : option nat :=
  if starts_with p l then Some O else match l with [] => None | _ :: r => S <$> index_of p r end.
Definition last_index_of (c : Ascii.ascii) (l : chars) : option nat :=
  match index_of [c] (reverse l) with Some i => Some (length l - 1 - i)%nat | None => None end.
Definition FENCE : chars := to_chars "```".
(** [/```(?:json)?\s*([\s\S]*?)```/]: the group of the first match. *)
Definition fenced (l : chars) : option chars :=
  i ← index_of FENCE l;
  let inside := drop (i + 3) l in
  let inside := if starts_with (to_chars "json") inside then drop 4 inside else inside in
  let inside := drop_while is_space inside in
  j ← index_of FENCE inside;
  Some (take j inside).

Section Reply.
(** [JSON.parse], with the message of what it throws. *)
Context `{Texts} (parse : chars -> string + json).

Definition parseStrict (l : chars) : result json :=
  match parse l with
  | inr v => Ok v
  | inl e => if unfinishedJson l then Throw TRUNCATED_JSON else Throw ("the model did not return valid JSON: " +:+ e)
  end.
Definition extractJson (reply : string) : result json :=
  let text := trim_chars (to_chars reply) in
  if starts_with ["{"%char] text && ends_with ["}"%char] text then parseStrict text
  else match fenced text with
  | Some inner => parseStrict (trim_chars inner)
  | None =>
      match index_of ["{"%char] text, last_index_of "}"%char text with
      | Some start, Some last =>
          if (start <? last)%nat then
            match parse (take (last + 1 - start) (drop start text)) with
            | inr v => Ok v
            | inl _ => parseStrict (drop start text)
            end
          else if unfinishedJson text then Throw TRUNCATED_JSON else Throw "Refiner did not return a JSON object"
      | _, _ => if unfinishedJson text then Throw TRUNCATED_JSON else Throw "Refiner did not return a JSON object"
      end
  end.

Definition normalize_edit (v : json) : option RefineEdit :=
  match v with
  | JObj e => Some (mkEdit (field e "action") (field e "kind") (as_string (field e "id")) (as_string (field e "title")) (as_string (field e "content"))
      (as_string (field e "path")) (as_object (field e "reference")) (as_object (field e "arguments")) (as_object (field e "metadata")) (as_string (field e "reason")))
  | JArr _ => Some (mkEdit None None None None None None None None None None)
  | _ => None
  end.
Definition normalizeProposal (fs : object) : RefineProposal :=
  mkProposal (nullish (as_string (field fs "summary")) "Refined continual harness state") (nullish (as_string (field fs "rationale")) "")
    (nullish (as_string (field fs "expectedOutcome")) "") (omap normalize_edit (nullish (as_array (field fs "edits")) [])).
Definition parseProposal (reply : string) : result RefineProposal :=
  v ← extractJson reply;
  match v with JObj fs => Ok (normalizeProposal fs) | _ => Throw "Refiner JSON must be an object" end.

Record ReviewDecision := mkReview { rd_shouldRefine : bool; rd_rationale : string; rd_instructions : option string }.
Definition parseReview (reply : string) : result ReviewDecision :=
  v ← extractJson reply;
  match v with
  | JObj fs => Ok (mkReview (match field fs "shouldRefine" with Some (JBool b) => b | _ => false end)
                     (nullish (as_string (field fs "rationale")) "No rationale provided.") (as_string (field fs "instructions")))
  | _ => Throw "Auto-refine review JSON must be an object"
  end.
End Reply.

(** ** One edit *)

(** [!text]: absent or empty. *)
Definition empty (s : option string) : bool := match s with Some s => bool_decide (s = "") | None => true end.
Definition is_empty (s : option string) : bool := match s with Some s => bool_decide (s = "") | None => false end.
Definition BASE : string := "base_system_prompt".
Definition has_text (fs : object) (k : string) : bool := negb (empty (as_string (field fs k))).

Definition first_problem (checks : list (bool * string)) : option string := snd <$> List.find fst checks.
Definition skill_problem (e : RefineEdit) (name : string) : option string :=
  match re_reference e with
  | None => first_problem [(bool_decide (re_arguments e = None), name +:+ " skill requires arguments"); (true, name +:+ " skill requires python reference")]
  | Some r => first_problem
      [(bool_decide (re_arguments e = None), name +:+ " skill requires arguments");
       (negb (bool_decide (as_string (field r "type") = Some "python")), name +:+ " skill reference.type must be python");
       (negb (has_text r "import" || has_text r "python_import"), name +:+ " skill requires python import");
       (negb (has_text r "callable" || has_text r "call_pattern"), name +:+ " skill requires callable or call_pattern")]
  end.

Definition stripScope (id : string) : string :=
  let l := to_chars id in
  if starts_with (to_chars "local:") l then of_chars (drop 6 l) else if starts_with (to_chars "global:") l then of_chars (drop 7 l) else id.

Definition js_undefined_or `{Texts} (v : option json) : string := match v with Some v => js_String v | None => "undefined" end.

Section Edits.
Context `{Texts}.

(** Why the edit cannot apply, or its action and kind. *)
Definition invalidEdit (e : RefineEdit) (id : string) : string + (Action * Kind) :=
  match action_of (re_action e) with
  | None => inl ("unsupported action " +:+ js_undefined_or (re_action e))
  | Some a =>
      match edit_kind e with
      | None => inl ("unsupported kind " +:+ js_undefined_or (re_kind e))
      | Some k =>
          let name := action_name a in
          match first_problem
            [(bool_decide (k = KPrompt) && (bool_decide (re_id e = Some BASE) || bool_decide (id = BASE)), "base system prompt is not editable");
             (negb (bool_decide (a = ACreate)) && empty (re_id e), name +:+ " requires id");
             (negb (bool_decide (a = ADelete)) && (empty (re_title e) || empty (re_content e)), name +:+ " requires title and content");
             (is_empty (re_id e), name +:+ " requires id to be a non-empty string when provided");
             (is_empty (re_path e), name +:+ " requires path to be a non-empty string when provided")] with
          | Some problem => inl problem
          | None => match (if bool_decide (a = ADelete) || negb (bool_decide (k = KSkill)) then None else skill_problem e name) with
                    | Some problem => inl problem
                    | None => inr (a, k)
                    end
          end
      end
  end.

(** [slug(edit.title ?? edit.kind, edit.kind)]; a kind that is no string has no [trim]. *)
Definition NOT_A_STRING : string := "Cannot read properties of undefined (reading 'trim')".
Definition kind_text (v : option json) : string := match v with Some JNull | None => "" | Some v => js_String v end.
Definition slug (title : option string) (kind : option json) : result string :=
  match title, kind with
  | Some t, _ => Ok (if bool_decide (slug_text t = "") then kind_text kind else slug_text t)
  | None, Some (JStr k) => Ok (if bool_decide (slug_text k = "") then k else slug_text k)
  | None, _ => Throw NOT_A_STRING
  end.
Definition edit_id (e : RefineEdit) : result string :=
  match re_id e with
  | Some id => Ok id
  | None => if bool_decide (action_of (re_action e) = Some ACreate) then slug (re_title e) (re_kind e) else Ok ""
  end.

(** [clone(store[id])]: an inherited function prints as [undefined], which does not parse. *)
Definition NOT_JSON : string := dquote +:+ "undefined" +:+ dquote +:+ " is not valid JSON".
Definition own (k : Kind) (id : string) (st : HarnessState) : result (option HarnessEntry) :=
  match entry k id st with
  | Some e => Ok (Some e)
  | None => if inherited id then Throw NOT_JSON else Ok None
  end.
Definition same_entry (a b : option HarnessEntry) : bool :=
  match a, b with None, None => true | Some a, Some b => json_eqb (entry_json a) (entry_json b) | _, _ => false end.

Definition put (k : Kind) (id : string) (e : HarnessEntry) (st : HarnessState) : HarnessState :=
  mkState (schema st) (with_store k (OMap.set id e (store k (entries st))) (entries st)) (refinements st).
Definition remove (k : Kind) (id : string) (st : HarnessState) : HarnessState :=
  mkState (schema st) (with_store k (OMap.del id (store k (entries st))) (entries st)) (refinements st).

Record ApplyOptions := mkOptions { ao_id : string; ao_scope : Scope; ao_rollbackOf : option string; ao_baseline : option HarnessState }.

(** The entry a create or an update stores. *)
Definition new_entry (k : Kind) (id : string) (e : RefineEdit) (before : option HarnessEntry) (scope : Scope) (stamp : string) : HarnessEntry :=
  let from {A} (f : HarnessEntry -> A) (d : A) : A := match before with Some b => f b | None => d end in
  mkEntry id k (nullish (re_title e) (from he_title id)) (nullish (re_content e) (from he_content ""))
    (nullish (re_path e) (from he_path "general")) (from he_scope scope)
    (nullish (re_reference e) (from he_reference [])) (nullish (re_arguments e) (from he_arguments [])) (nullish (re_metadata e) (from he_metadata []))
    "refine" (from he_created stamp) stamp (match before with Some b => he_version b + 1 | None => 1 end) [].

Definition Progress : Type := HarnessState * list (Kind * string).
Definition refused (p : Progress) (e : RefineEdit) (id : string) (before : option HarnessEntry) (error : string) : result (Progress * AppliedEdit) :=
  Ok (p, mkApplied e id false (Some error) before None).

(** The entry is not the one the planner saw, and this refine has not written it. *)
Definition changed_since (baseline : option HarnessState) (touched : list (Kind * string)) (k : Kind) (id : string) (before : option HarnessEntry) : result bool :=
  match baseline with
  | Some base => if bool_decide ((k, id) ∈ touched) then Ok false else b ← own k id base; Ok (negb (same_entry before b))
  | None => Ok false
  end.

(** One turn of the loop of [applyProposal]. *)
Definition apply_edit (o : ApplyOptions) (stamp : string) (p : Progress) (raw : RefineEdit) : result (Progress * AppliedEdit) :=
  let '(st, touched) := p in
  let e := mkEdit (re_action raw) (re_kind raw) (stripScope <$> re_id raw) (re_title raw) (re_content raw) (re_path raw)
             (re_reference raw) (re_arguments raw) (re_metadata raw) (re_reason raw) in
  id ← edit_id e;
  match invalidEdit e id with
  | inl problem => refused p e id None problem
  | inr (a, k) =>
      before ← own k id st;
      changed ← changed_since (ao_baseline o) touched k id before;
      if (changed : bool) then refused p e id before "entry changed during refinement planning"
      else match a, before with
      | ADelete, None => refused p e id None "entry not found"
      | ADelete, Some _ => Ok ((remove k id st, (k, id) :: touched), mkApplied e id true None before None)
      | ACreate, Some _ => refused p e id before "entry already exists"
      | AUpdate, None => refused p e id None "entry not found"
      | _, _ => let fresh := new_entry k id e before (ao_scope o) stamp in
                Ok ((put k id fresh st, (k, id) :: touched), mkApplied e id true None before (Some fresh))
      end
  end.

Fixpoint apply_edits (o : ApplyOptions) (now : nat -> string) (n : nat) (p : Progress) (edits : list RefineEdit) : result (Progress * list AppliedEdit) :=
  match edits with
  | [] => Ok (p, [])
  | e :: es =>
      one ← apply_edit o (now n) p e;
      rest ← apply_edits o now (S n) one.1 es;
      Ok (rest.1, one.2 :: rest.2)
  end.

Definition change_text (r : AppliedEdit) : string :=
  js_undefined_or (re_action (ae_edit r)) +:+ " " +:+ js_undefined_or (re_kind (ae_edit r)) +:+ ":" +:+ ae_id r.
Definition event_of (p : RefineProposal) (o : ApplyOptions) (rs : list AppliedEdit) (stamp : string) : RefinementEvent :=
  mkEvent (ao_id o) (pr_summary p) (map change_text (List.filter ae_applied rs))
    [("evidence", JStr (pr_rationale p)); ("outcome", JStr (pr_expected p)); ("created_at", JStr stamp)].

Definition applyProposal (now : nat -> string) (st : HarnessState) (p : RefineProposal) (o : ApplyOptions) : result (HarnessState * RefineResult) :=
  all ← apply_edits o now 0 (st, []) (pr_edits p);
  let st' := all.1.1 in
  let rs := all.2 in
  Ok (mkState (schema st') (entries st') (refinements st' ++ [event_of p o rs (now (length (pr_edits p)))]),
      mkResult (ao_id o) (pr_summary p) (pr_rationale p) (pr_expected p) rs (ao_rollbackOf o) (Some (ao_scope o))).

(** [updateState] of the store's file: the change reads it again under the lock, and a throw leaves it. *)
Definition updateState {R} (file : option json) (scope : Scope) (change : HarnessState -> result (HarnessState * R)) : option json * result R :=
  match change (readState file scope) with
  | Ok (st, r) => (Some (state_json st), Ok r)
  | Throw e => (file, Throw e)
  end.
End Edits.

(** ** Rolling back *)

Definition rollback_edit (record : string) (r : AppliedEdit) : option RefineEdit :=
  let reason := Some ("Rollback " +:+ record) in
  if ae_applied r then
    match ae_before r, ae_after r with
    | Some b, after => Some (mkEdit (Some (JStr (if bool_decide (after = None) then "create" else "update"))) (re_kind (ae_edit r)) (Some (ae_id r))
        (Some (he_title b)) (Some (he_content b)) (Some (he_path b)) (Some (he_reference b)) (Some (he_arguments b)) (Some (he_metadata b)) reason)
    | None, Some _ => Some (mkEdit (Some (JStr "delete")) (re_kind (ae_edit r)) (Some (ae_id r)) None None None None None None reason)
    | None, None => None
    end
  else None.
Definition rollbackProposal (r : RefineResult) : RefineProposal :=
  mkProposal ("Rollback refinement " +:+ rr_id r) ("Restores continual harness state snapshots from refinement " +:+ rr_id r +:+ ".")
    "Faulty refinement edits are reverted." (omap (rollback_edit (rr_id r)) (reverse (rr_edits r))).

(** The scope a record wrote to: its own, else the one scope all its entries have. *)
Definition edit_scope (r : AppliedEdit) : option Scope :=
  match ae_after r with Some e => Some (he_scope e) | None => he_scope <$> ae_before r end.
Definition recordScope (r : RefineResult) : option Scope :=
  match rr_scope r with
  | Some s => Some s
  | None => match remove_dups (omap edit_scope (rr_edits r)) with [s] => Some s | _ => None end
  end.

Definition with_scope (r : RefineResult) (s : Scope) : RefineResult :=
  mkResult (rr_id r) (rr_summary r) (rr_rationale r) (rr_expected r) (rr_edits r) (rr_rollbackOf r) (Some s).
Definition add_session (m : list (string * RefineResult)) (r : RefineResult) : list (string * RefineResult) :=
  OMap.set (rr_id r)
    (match rr_scope r, OMap.get (rr_id r) m with
     | None, Some old => match rr_scope old with Some s => with_scope r s | None => r end
     | _, _ => r
     end) m.
Definition mergeHistory (global session : list RefineResult) : list RefineResult :=
  OMap.vals (fold_left add_session session
    (fold_left (fun m r => OMap.set (rr_id r) (with_scope r (nullish (recordScope r) SGlobal)) m) global [])).

(** ** The notice *)

Definition MAX_CONTENT : nat := 180.
Definition truncate (text : string) (max : nat) : string :=
  let flat := trim_chars (collapse false (to_chars text)) in
  if (length flat <=? max)%nat then of_chars flat else of_chars (take (max - 3) flat) +:+ "...".

Section Notice.
Context `{Texts}.
Definition notice_line (r : RefineResult) (e : AppliedEdit) : option string :=
  if ae_applied e then
    let shown := match ae_after e with Some x => Some x | None => ae_before e end in
    let scope := nullish (he_scope <$> shown) (nullish (rr_scope r) SLocal) in
    Some ("- " +:+ js_undefined_or (re_action (ae_edit e)) +:+ " " +:+ js_undefined_or (re_kind (ae_edit e)) +:+ " [" +:+ scope_name scope +:+ ":" +:+ ae_id e +:+ "] "
          +:+ nullish (he_title <$> shown) (ae_id e) +:+ ": " +:+ truncate (nullish (he_content <$> shown) "") MAX_CONTENT)
  else None.
Definition NEWLINE : string := String.String "010"%char String.EmptyString.
Definition noticeBody (r : RefineResult) : string := String.concat NEWLINE (truncate (rr_summary r) MAX_CONTENT :: omap (notice_line r) (rr_edits r)).
Definition edit_text (e : AppliedEdit) : string := (if ae_applied e then "applied " else "failed ") +:+ change_text e.
Definition record_text (r : RefineResult) : string :=
  "[" +:+ rr_id r +:+ "]" +:+ match rr_rollbackOf r with Some b => if bool_decide (b = "") then "" else " rollbackOf=" +:+ b | None => "" end
  +:+ " " +:+ rr_summary r +:+ NEWLINE +:+ String.concat ", " (map edit_text (rr_edits r)) +:+ NEWLINE +:+ "Expected outcome: " +:+ rr_expected r.
Definition historyText (history : list RefineResult) : string :=
  match history with
  | [] => "No prior refinement history."
  | _ => String.concat (NEWLINE +:+ NEWLINE) (map record_text (drop (length history - 20) history))
  end.
End Notice.
