(* ===== verification/RefineSpec.v ===== *)
(** * What a refine does to a store

    The effect of each applied edit ([effect]) and of a whole proposal ([effects]); from it: a refine changes the
    entries its record lists and no other, spares an entry that changed since it was planned, and is undone by
    the rollback of its record.  Two stores are alike ([alike]) when they hold the same ids with the same texts:
    a rollback gives an entry a new version and time stamp. *)

From S2P Require Import Prelude Json Harness Refine.
#[local] Open Scope string_scope.
#[local] Open Scope list_scope.
#[local] Open Scope Z_scope.

(** ** Stores up to their texts *)

Definition Content : Type := string * string * string * object * object * object.
Definition content (e : HarnessEntry) : Content := (he_title e, he_content e, he_path e, he_reference e, he_arguments e, he_metadata e).
Definition alike (a b : HarnessState) : Prop := forall k id, content <$> entry k id a = content <$> entry k id b.

#[export] Instance alike_equivalence : Equivalence alike.
Proof.
  split.
  - by intros a k id.
  - intros a b Hab k id. by rewrite (Hab k id).
  - intros a b c Hab Hbc k id. by rewrite (Hab k id).
Qed.

Lemma entry_put k id k' id' e st :
  entry k id (put k' id' e st) = if decide (k = k' /\ id = id') then Some e else entry k id st.
Proof.
  unfold entry, put. cbn. rewrite store_with_store.
  destruct (decide (k = k')) as [->|]; [rewrite OMap.get_set|]; repeat case_decide; naive_solver.
Qed.
Lemma entry_remove k id k' id' st :
  entry k id (remove k' id' st) = if decide (k = k' /\ id = id') then None else entry k id st.
Proof.
  unfold entry, remove. cbn. rewrite store_with_store.
  destruct (decide (k = k')) as [->|]; [rewrite OMap.get_del|]; repeat case_decide; naive_solver.
Qed.

Lemma alike_put k id e e' a b : alike a b -> content e = content e' -> alike (put k id e a) (put k id e' b).
Proof. intros Hab He k' id'. rewrite !entry_put. case_decide; cbn; [by rewrite He|apply Hab]. Qed.
Lemma alike_remove k id a b : alike a b -> alike (remove k id a) (remove k id b).
Proof. intros Hab k' id'. rewrite !entry_remove. case_decide; [done|apply Hab]. Qed.

(** ** The entries a rollback can write back *)

Definition skill_reference (r : object) : bool :=
  bool_decide (as_string (field r "type") = Some "python") && (has_text r "import" || has_text r "python_import")
  && (has_text r "callable" || has_text r "call_pattern").
(** An entry that passes the checks of an update that repeats it. *)
Definition restorable (k : Kind) (e : HarnessEntry) : bool :=
  negb (bool_decide (he_title e = "")) && negb (bool_decide (he_content e = "")) && negb (bool_decide (he_path e = ""))
  && (negb (bool_decide (k = KSkill)) || skill_reference (he_reference e)).
Definition all_restorable (st : HarnessState) : Prop := forall k id e, entry k id st = Some e -> restorable k e = true.
(** An id that reads as itself: no scope before it, and no name every object has. *)
Definition plain_id (id : string) : bool := bool_decide (stripScope id = id) && negb (bool_decide (id = "")) && negb (inherited id).

Section Spec.
Context `{Texts}.

(** What an edit's record says of the step from one store to the next. *)
Inductive effect (st : HarnessState) (r : AppliedEdit) : HarnessState -> Prop :=
| refused_effect : ae_applied r = false -> effect st r st
| deleted_effect k b : ae_applied r = true -> edit_kind (ae_edit r) = Some k -> ~ (k = KPrompt /\ ae_id r = BASE) ->
    entry k (ae_id r) st = Some b -> ae_before r = Some b -> ae_after r = None -> effect st r (remove k (ae_id r) st)
| written_effect k e : ae_applied r = true -> edit_kind (ae_edit r) = Some k -> ~ (k = KPrompt /\ ae_id r = BASE) ->
    ae_before r = entry k (ae_id r) st -> ae_after r = Some e ->
    he_version e = match ae_before r with Some b => he_version b + 1 | None => 1 end ->
    ((forall b, ae_before r = Some b -> restorable k b = true) -> restorable k e = true) ->
    effect st r (put k (ae_id r) e st).

Inductive effects : HarnessState -> list AppliedEdit -> HarnessState -> Prop :=
| effects_nil st : effects st [] st
| effects_cons st r st1 rs st2 : effect st r st1 -> effects st1 rs st2 -> effects st (r :: rs) st2.

Lemma first_problem_none checks : first_problem checks = None <-> Forall (fun c => c.1 = false) checks.
Proof.
  unfold first_problem. induction checks as [|[b m] cs IH]; cbn; [split; [constructor|done]|].
  destruct b; cbn; split; [done|by inversion 1| |]; rewrite IH.
  - by constructor.
  - by inversion 1.
Qed.

Lemma invalidEdit_ok e id a k : invalidEdit e id = inr (a, k) ->
  action_of (re_action e) = Some a /\ edit_kind e = Some k /\ ~ (k = KPrompt /\ id = BASE)
  /\ (a <> ADelete -> empty (re_title e) = false /\ empty (re_content e) = false /\ is_empty (re_path e) = false
      /\ (k = KSkill -> exists r, re_reference e = Some r /\ skill_reference r = true)).
Proof.
  unfold invalidEdit. destruct (action_of (re_action e)) as [a'|]; [|done]. destruct (edit_kind e) as [k'|]; [|done].
  destruct (first_problem _) eqn:Hf; [done|]. apply first_problem_none in Hf.
  destruct (if bool_decide (a' = ADelete) || _ then _ else _) eqn:Hs; [done|]. intros [= -> ->].
  repeat (apply Forall_cons in Hf as [? Hf]; cbn in * ). split_and!; [done..| |].
  - intros [-> ->]. rewrite !bool_decide_true, orb_true_r in * by done. done.
  - intros Ha. rewrite (bool_decide_false (a = ADelete)) in * by done. cbn in *.
    match goal with X : empty _ || empty _ = false |- _ => apply orb_false_iff in X as [??] end. split_and!; [done..|]. intros ->. rewrite bool_decide_true in Hs by done. cbn in Hs.
    unfold skill_problem in Hs. destruct (re_reference e) as [r|].
    + apply first_problem_none in Hs. repeat (apply Forall_cons in Hs as [? Hs]; cbn in * ).
      exists r. split; [done|]. unfold skill_reference.
      repeat match goal with X : negb _ = false |- _ => apply negb_false_iff in X; rewrite ?X; clear X end. done.
    + apply first_problem_none in Hs. by repeat (apply Forall_cons in Hs as [? Hs]; cbn in * ).
Qed.

Lemma empty_false s : empty s = false <-> exists x, s = Some x /\ x <> "".
Proof. destruct s as [x|]; cbn; [rewrite bool_decide_eq_false|]; naive_solver. Qed.

Lemma new_entry_restorable a k id e before scope stamp :
  invalidEdit e id = inr (a, k) -> a <> ADelete -> (forall b, before = Some b -> restorable k b = true) ->
  restorable k (new_entry k id e before scope stamp) = true.
Proof.
  intros (_ & _ & _ & Hw)%invalidEdit_ok Ha Hb. destruct (Hw Ha) as ((t & Ht & Htn)%empty_false & (c & Hc & Hcn)%empty_false & Hp & Hs).
  assert (Hpath : he_path (new_entry k id e before scope stamp) <> "").
  { cbn. destruct (re_path e) as [p|]; cbn in *; [by apply bool_decide_eq_false in Hp|].
    destruct before as [b|]; cbn; [|done]. specialize (Hb b eq_refl). unfold restorable in Hb.
    destruct (bool_decide_reflect (he_path b = "")); [|done]. by rewrite andb_false_r in Hb. }
  unfold restorable. rewrite (bool_decide_false _ Hpath). cbn. rewrite Ht, Hc. cbn.
  rewrite !bool_decide_false by done. cbn. destruct (decide (k = KSkill)) as [->|]; [|by rewrite bool_decide_false].
  destruct (Hs eq_refl) as (r & Hr & Hok). rewrite Hr. cbn. by rewrite Hok.
Qed.

Lemma own_ok k id st b : own k id st = Ok b -> b = entry k id st.
Proof. unfold own. destruct (entry k id st); [|destruct (inherited id)]; congruence. Qed.

(** One turn of the loop: its record names the entry it wrote, or nothing changed; and with a baseline an
    applied edit found the planned entry or one this refine had written. *)
Lemma apply_edit_effect o stamp st t raw st1 t1 r :
  apply_edit o stamp (st, t) raw = Ok ((st1, t1), r) ->
  effect st r st1
  /\ ((ae_applied r = false /\ t1 = t) \/
      exists k, edit_kind (ae_edit r) = Some k /\ t1 = (k, ae_id r) :: t
                /\ forall base, ao_baseline o = Some base -> (k, ae_id r) ∈ t \/ same_entry (entry k (ae_id r) st) (entry k (ae_id r) base) = true).
Proof.
  unfold apply_edit. set (e := mkEdit _ _ _ _ _ _ _ _ _ _). intros (id & _ & Hr)%bind_ok.
  destruct (invalidEdit e id) as [problem|[a k]] eqn:Hi.
  { injection Hr as <- <- <-. split; [by constructor|by left]. }
  apply bind_ok in Hr as (before & Hown & Hr). apply own_ok in Hown as ->.
  apply bind_ok in Hr as (ch & Hch & Hr).
  destruct ch; [injection Hr as <- <- <-; split; [by constructor|by left]|].
  assert (Hbase : forall base, ao_baseline o = Some base -> (k, id) ∈ t \/ same_entry (entry k id st) (entry k id base) = true).
  { intros base Hb. unfold changed_since in Hch. rewrite Hb in Hch. case_bool_decide as Ht; [by left|right].
    apply bind_ok in Hch as (b & ->%own_ok & [= Hs]). by apply negb_false_iff in Hs. }
  pose proof (invalidEdit_ok _ _ _ _ Hi) as (_ & Hk & Hbs & _).
  destruct a; destruct (entry k id st) as [b|] eqn:Hb; injection Hr as <- <- <-; rewrite <- Hb in Hbase.
  - split; [by apply refused_effect|by left].
  - split; [|right; exists k; by split_and!]. apply written_effect; cbn; try done. apply (new_entry_restorable _ _ _ _ _ _ _ Hi). done.
  - split; [|right; exists k; by split_and!]. apply written_effect; cbn; try done. apply (new_entry_restorable _ _ _ _ _ _ _ Hi). done.
  - split; [by apply refused_effect|by left].
  - split; [|right; exists k; by split_and!]. by apply (deleted_effect _ (mkApplied e id true None (Some b) None) k b).
  - split; [by apply refused_effect|by left].
Qed.

Lemma apply_edits_effects o now n p es q rs : apply_edits o now n p es = Ok (q, rs) -> effects p.1 rs q.1.
Proof.
  revert n p rs. induction es as [|e es IH]; intros n [st t] rs; cbn.
  - intros [= <- <-]. constructor.
  - intros ([[st1 t1] r] & H1 & H2)%bind_ok. apply bind_ok in H2 as ([q' rs'] & H2 & [= <- <-]).
    apply apply_edit_effect in H1 as [H1 _]. econstructor; [exact H1|]. exact (IH _ (st1, t1) _ H2).
Qed.

Lemma effect_restorable st r st1 : effect st r st1 -> all_restorable st -> all_restorable st1.
Proof.
  intros He Hall. destruct He as [|k b _ _ _ _ _ _|k e _ _ _ Hb _ _ He]; [done| |]; intros k' id' x.
  - rewrite entry_remove. case_decide; [done|apply Hall].
  - rewrite entry_put. case_decide as Hd; [|apply Hall]. destruct Hd as [-> ->]. intros [= <-]. apply He.
    intros b. rewrite Hb. apply Hall.
Qed.

(** ** Undoing *)

Definition as_edit (a : string) (k : option json) (id : string) (b : HarnessEntry) (reason : option string) : RefineEdit :=
  mkEdit (Some (JStr a)) k (Some id) (Some (he_title b)) (Some (he_content b)) (Some (he_path b)) (Some (he_reference b))
    (Some (he_arguments b)) (Some (he_metadata b)) reason.

Lemma first_problem_pass checks : Forall (fun c => c.1 = false) checks -> first_problem checks = None.
Proof. apply first_problem_none. Qed.

Lemma not_base k id : ~ (k = KPrompt /\ id = BASE) -> bool_decide (k = KPrompt) && (bool_decide (Some id = Some BASE) || bool_decide (id = BASE)) = false.
Proof.
  intros Hn. destruct (bool_decide_reflect (k = KPrompt)) as [Hk|]; [|done].
  rewrite (bool_decide_false (Some id = Some BASE)), (bool_decide_false (id = BASE)); [done|..]; intros Hi; apply Hn; split; congruence.
Qed.

Lemma writing_back_valid a kj k id b reason :
  a <> ADelete -> (s ← as_string kj; kind_of s) = Some k -> plain_id id = true -> ~ (k = KPrompt /\ id = BASE) -> restorable k b = true ->
  invalidEdit (as_edit (action_name a) kj id b reason) id = inr (a, k).
Proof.
  intros Ha Hk Hp Hbs Hr. unfold invalidEdit.
  assert (Hact : action_of (re_action (as_edit (action_name a) kj id b reason)) = Some a) by by destruct a.
  rewrite Hact. unfold edit_kind. cbn [re_kind as_edit]. rewrite Hk.
  unfold restorable in Hr. unfold plain_id in Hp.
  repeat match goal with X : _ && _ = true |- _ => apply andb_true_iff in X as [X ?] end.
  repeat match goal with X : negb _ = true |- _ => apply negb_true_iff in X end.
  rewrite first_problem_pass.
  - rewrite (bool_decide_false (a = ADelete)) by done. cbn [negb orb]. destruct (decide (k = KSkill)) as [->|Hs].
    + rewrite bool_decide_true in * by done. cbn in *. unfold skill_problem, as_edit. cbn [re_reference re_arguments]. unfold skill_reference in *.
      repeat match goal with X : _ && _ = true |- _ => apply andb_true_iff in X as [X ?] end.
      repeat match goal with X : _ = true |- _ => rewrite X; clear X end. done.
    + by rewrite (bool_decide_false (k = KSkill)).
  - repeat constructor; cbn.
    + by apply not_base.
    + match goal with X : bool_decide (id = "") = false |- _ => rewrite X end. apply andb_false_r.
    + match goal with X : bool_decide (he_title b = "") = false, Y : bool_decide (he_content b = "") = false |- _ => rewrite X, Y end. apply andb_false_r.
    + done.
    + done.
Qed.

Lemma strip_plain id : plain_id id = true -> stripScope id = id.
Proof. intros [[?%bool_decide_eq_true _]%andb_true_iff _]%andb_true_iff. done. Qed.
Lemma own_plain k id st : plain_id id = true -> own k id st = Ok (entry k id st).
Proof. intros [_ Hn%negb_true_iff]%andb_true_iff. unfold own. by destruct (entry k id st); [|rewrite Hn]. Qed.

Lemma write_back o stamp s t a kj k id b reason :
  ao_baseline o = None -> (s ← as_string kj; kind_of s) = Some k -> plain_id id = true -> ~ (k = KPrompt /\ id = BASE) -> restorable k b = true ->
  (a = ACreate /\ entry k id s = None) \/ (a = AUpdate /\ entry k id s <> None) ->
  exists e t' r, apply_edit o stamp (s, t) (as_edit (action_name a) kj id b reason) = Ok ((put k id e s, t'), r)
                 /\ content e = content b /\ ae_applied r = true.
Proof.
  intros Ho Hk Hp Hbs Hr Ha. unfold apply_edit. cbn [as_edit re_id re_action re_kind re_title re_content re_path re_reference re_arguments re_metadata re_reason fmap option_fmap option_map].
  rewrite (strip_plain _ Hp). fold (as_edit (action_name a) kj id b reason).
  assert (Hne : a <> ADelete) by naive_solver. cbn [edit_id re_id as_edit mbind result_bind].
  rewrite (writing_back_valid a kj k id b reason) by done. rewrite (own_plain _ _ _ Hp). cbn [mbind result_bind]. rewrite Ho. cbn.
  destruct Ha as [[-> Hn]|[-> Hn]]; [rewrite Hn|destruct (entry k id s) as [x|]; [|done]]; by eexists _, _, _.
Qed.

Lemma delete_back o stamp s t kj k id reason :
  ao_baseline o = None -> (s ← as_string kj; kind_of s) = Some k -> plain_id id = true -> ~ (k = KPrompt /\ id = BASE) -> entry k id s <> None ->
  exists t' r, apply_edit o stamp (s, t) (mkEdit (Some (JStr "delete")) kj (Some id) None None None None None None reason) = Ok ((remove k id s, t'), r)
               /\ ae_applied r = true.
Proof.
  intros Ho Hk Hp Hbs Hn. unfold apply_edit. cbn [re_id re_action re_kind re_title re_content re_path re_reference re_arguments re_metadata re_reason fmap option_fmap option_map].
  rewrite (strip_plain _ Hp). cbn [edit_id re_id mbind result_bind].
  assert (Hi : invalidEdit (mkEdit (Some (JStr "delete")) kj (Some id) None None None None None None reason) id = inr (ADelete, k)).
  { unfold invalidEdit. cbn [re_action]. change (action_of (Some (JStr "delete"))) with (Some ADelete). unfold edit_kind. cbn [re_kind]. rewrite Hk.
    apply andb_true_iff in Hp as [[_ He%negb_true_iff]%andb_true_iff _].
    rewrite first_problem_pass; [done|]. repeat constructor; cbn; try done; try exact He. by apply not_base. }
  rewrite Hi, (own_plain _ _ _ Hp). cbn [mbind result_bind]. rewrite Ho. cbn.
  destruct (entry k id s) as [x|]; [|done]. by eexists _, _.
Qed.

Lemma undo_edit o stamp st r st1 s t e name :
  ao_baseline o = None -> effect st r st1 -> all_restorable st -> plain_id (ae_id r) = true -> alike s st1 ->
  rollback_edit name r = Some e ->
  exists s' t' r', apply_edit o stamp (s, t) e = Ok ((s', t'), r') /\ alike s' st /\ ae_applied r' = true.
Proof.
  intros Ho He Hall Hp Hs Hr. unfold rollback_edit in Hr.
  destruct He as [Ha|k b Ha Hk Hbs Hb Hbb Haf|k x Ha Hk Hbs Hbb Haf _ _]; rewrite Ha in Hr; [done|..].
  - rewrite Hbb, Haf in Hr. rewrite bool_decide_true in Hr by done. injection Hr as <-.
    pose proof (Hs k (ae_id r)) as Hn. rewrite entry_remove, decide_True in Hn by done. apply fmap_None in Hn.
    destruct (write_back o stamp s t ACreate _ k (ae_id r) b (Some ("Rollback " +:+ name)) Ho Hk Hp Hbs (Hall _ _ _ Hb)) as (e' & t' & r' & H1 & H2 & H3); [by left|].
    eexists _, t', r'. split_and!; [exact H1| |done]. intros k' id'. rewrite entry_put. case_decide as Hd.
    + destruct Hd as [-> ->]. rewrite Hb. cbn. by rewrite H2.
    + rewrite (Hs k' id'), entry_remove. by rewrite decide_False.
  - rewrite Haf in Hr. pose proof (Hs k (ae_id r)) as Hn. rewrite entry_put, decide_True in Hn by done.
    assert (Hin : entry k (ae_id r) s <> None) by (intros E; by rewrite E in Hn).
    destruct (ae_before r) as [b|] eqn:Hbe; injection Hr as <-.
    + destruct (write_back o stamp s t AUpdate _ k (ae_id r) b (Some ("Rollback " +:+ name)) Ho Hk Hp Hbs (Hall _ _ _ (eq_sym Hbb))) as (e' & t' & r' & H1 & H2 & H3); [by right|].
      eexists _, t', r'. split_and!; [exact H1| |done]. intros k' id'. rewrite entry_put. case_decide as Hd.
      * destruct Hd as [-> ->]. rewrite <- Hbb. cbn. by rewrite H2.
      * rewrite (Hs k' id'), entry_put. by rewrite decide_False.
    + destruct (delete_back o stamp s t _ k (ae_id r) (Some ("Rollback " +:+ name)) Ho Hk Hp Hbs Hin) as (t' & r' & H1 & H2).
      eexists _, t', r'. split_and!; [exact H1| |done]. intros k' id'. rewrite entry_remove. case_decide as Hd.
      * destruct Hd as [-> ->]. by rewrite <- Hbb.
      * rewrite (Hs k' id'), entry_put. by rewrite decide_False.
Qed.

#[local] Arguments apply_edit : simpl never.

Lemma apply_edits_app o now n p es es' :
  apply_edits o now n p (es ++ es') =
  (one ← apply_edits o now n p es; rest ← apply_edits o now (n + length es)%nat one.1 es'; Ok (rest.1, one.2 ++ rest.2)).
Proof.
  revert n p. induction es as [|e es IH]; intros n p; cbn.
  - rewrite Nat.add_0_r. by destruct (apply_edits o now n p es') as [[? ?]|].
  - destruct (apply_edit o (now n) p e) as [[p1 r]|]; cbn; [|done]. rewrite IH, Nat.add_succ_r. cbn.
    destruct (apply_edits o now (S n) p1 es) as [[p2 rs]|]; cbn; [|done].
    by destruct (apply_edits o now (S (n + length es)) p2 es') as [[p3 rs']|].
Qed.

Lemma undo_edits o now st rs st' name :
  ao_baseline o = None -> effects st rs st' -> all_restorable st -> Forall (fun r => plain_id (ae_id r) = true) rs ->
  forall s t n, alike s st' ->
  exists s' t' rs', apply_edits o now n (s, t) (omap (rollback_edit name) (reverse rs)) = Ok ((s', t'), rs')
                    /\ alike s' st /\ Forall (fun r => ae_applied r = true) rs'.
Proof.
  intros Ho He. induction He as [st|st r st1 rs st2 He _ IH]; intros Hall Hp s t n Hs; [by eexists _, _, _|].
  apply Forall_cons in Hp as [Hp Hps].
  destruct (IH (effect_restorable _ _ _ He Hall) Hps s t n Hs) as (s1 & t1 & rs1 & H1 & H2 & H3).
  rewrite reverse_cons, omap_app, apply_edits_app, H1. cbn.
  destruct (rollback_edit name r) as [e|] eqn:Hr; cbn.
  - match goal with |- context [apply_edit o ?stamp (s1, t1) e] =>
      destruct (undo_edit o stamp _ _ _ s1 t1 e name Ho He Hall Hp H2 Hr) as (s2 & t2 & r2 & G1 & G2 & G3) end.
    rewrite G1. cbn. eexists _, _, _. split_and!; [done|done|]. apply Forall_app. by repeat constructor.
  - rewrite app_nil_r. eexists _, _, _. split_and!; [done| |done].
    destruct He as [Ha|k b Ha _ _ _ Hb _|k x Ha _ _ _ Hb _ _]; [done| |]; unfold rollback_edit in Hr; rewrite Ha in Hr; [by rewrite Hb in Hr|].
    rewrite Hb in Hr. by destruct (ae_before r).
Qed.


(** ** What a refine changes *)

(** The last applied edit of the record that names the entry. *)
Definition names (k : Kind) (id : string) (r : AppliedEdit) : bool :=
  ae_applied r && bool_decide (edit_kind (ae_edit r) = Some k) && bool_decide (ae_id r = id).
Definition last_edit (k : Kind) (id : string) (rs : list AppliedEdit) : option AppliedEdit := last (List.filter (names k id) rs).

Lemma effect_entry st r st1 k id : effect st r st1 -> entry k id st1 = if names k id r then ae_after r else entry k id st.
Proof.
  intros [Ha|k' b Ha Hk _ _ _ Haf|k' e Ha Hk _ _ Haf _ _]; unfold names; rewrite Ha; [done|..]; cbn; rewrite Hk, Haf.
  - rewrite entry_remove. destruct (decide (k = k')) as [->|]; [rewrite bool_decide_true by done|rewrite bool_decide_false by congruence]; cbn; repeat case_decide; try case_bool_decide; naive_solver.
  - rewrite entry_put. destruct (decide (k = k')) as [->|]; [rewrite bool_decide_true by done|rewrite bool_decide_false by congruence]; cbn; repeat case_decide; try case_bool_decide; naive_solver.
Qed.

Lemma effects_entry st rs st' k id : effects st rs st' ->
  entry k id st' = match last_edit k id rs with Some r => ae_after r | None => entry k id st end.
Proof.
  unfold last_edit. induction 1 as [st|st r st1 rs st2 He _ IH]; [done|]. rewrite IH. cbn.
  rewrite (effect_entry _ _ _ k id He). destruct (names k id r); [|done].
  destruct (List.filter (names k id) rs) as [|r' rs']; [done|]. cbn. destruct (last (r' :: rs')) eqn:E; [done|]. by apply last_None in E.
Qed.

(** after a refine each entry is what the last applied edit of its record that names the entry says it is
    (gone after a delete), and an entry no applied edit names is as it was; the store gains one event, which
    lists exactly the applied edits, and keeps its schema and its earlier events. *)
Theorem refine_changes_what_it_lists now st p o st' r : applyProposal now st p o = Ok (st', r) ->
  (forall k id, entry k id st' = match last_edit k id (rr_edits r) with Some e => ae_after e | None => entry k id st end)
  /\ schema st' = schema st
  /\ exists ev, refinements st' = refinements st ++ [ev] /\ ev_id ev = ao_id o /\ ev_changes ev = map change_text (List.filter ae_applied (rr_edits r)).
Proof.
  unfold applyProposal. intros ([[s' t'] rs] & He & [= <- <-])%bind_ok. apply apply_edits_effects in He. cbn in *.
  assert (Hrest : schema s' = schema st /\ refinements s' = refinements st).
  { clear -He. induction He as [|st r st1 rs st2 He _ IH]; [done|]. destruct IH as [-> ->]. by destruct He. }
  destruct Hrest as [Hsc Hre]. split_and!; [|done|].
  - intros k id. exact (effects_entry _ _ _ k id He).
  - eexists. by rewrite Hre.
Qed.

Lemma apply_edits_spares o now base k id : ao_baseline o = Some base ->
  forall es n p q rs, apply_edits o now n p es = Ok (q, rs) -> (k, id) ∉ p.2 -> same_entry (entry k id p.1) (entry k id base) = false ->
  entry k id q.1 = entry k id p.1.
Proof.
  intros Hb es. induction es as [|e es IH]; intros n [st t] q rs; cbn [apply_edits].
  - by intros [= <- <-].
  - intros ([[st1 t1] r] & H1 & H2)%bind_ok Ht Hs. apply bind_ok in H2 as ([q' rs'] & H2 & [= <- <-]).
    apply apply_edit_effect in H1 as [He Hc]. cbn in *.
    assert (names k id r = false /\ (k, id) ∉ t1) as [Hn Ht1].
    { unfold names. destruct Hc as [[-> ->]|(k' & Hk & -> & Hbase)]; [done|]. rewrite Hk.
      destruct (decide (k' = k /\ ae_id r = id)) as [[-> <-]|Hne].
      - destruct (Hbase base Hb) as [Hin|Hse]; [done|congruence].
      - split; [|rewrite not_elem_of_cons; split; [naive_solver|done]].
        destruct (bool_decide_reflect (Some k' = Some k)); [|by rewrite andb_false_r]. destruct (bool_decide_reflect (ae_id r = id)); [naive_solver|]. by rewrite andb_false_r. }
    pose proof (effect_entry _ _ _ k id He) as E. rewrite Hn in E. rewrite (IH _ _ _ _ H2); [done|done|cbn; by rewrite E].
Qed.

(** a refine planned on one state of the store never writes or deletes an entry that has changed since: its
    entry stays as it is found, and every applied edit is of entries as planned. *)
Theorem refine_spares_changed_entries now st p o base st' r k id :
  ao_baseline o = Some base -> applyProposal now st p o = Ok (st', r) ->
  same_entry (entry k id st) (entry k id base) = false -> entry k id st' = entry k id st.
Proof.
  intros Hb Hp Hs. unfold applyProposal in Hp. apply bind_ok in Hp as ([[s' t'] rs] & He & [= <- <-]).
  apply (apply_edits_spares o now base k id Hb _ _ _ _ _ He); [apply not_elem_of_nil|done].
Qed.

(** ** An edit without a name *)

(** A create with no id, no title and no kind that is a string. *)
Definition nameless (e : RefineEdit) : bool :=
  bool_decide (action_of (re_action e) = Some ACreate) && bool_decide (re_id e = None) && bool_decide (re_title e = None)
  && bool_decide (as_string (re_kind e) = None).

Lemma nameless_throws o stamp p e : nameless e = true -> apply_edit o stamp p e = Throw NOT_A_STRING.
Proof.
  intros [[[Ha%bool_decide_eq_true Hi%bool_decide_eq_true]%andb_true_iff Ht%bool_decide_eq_true]%andb_true_iff Hk%bool_decide_eq_true]%andb_true_iff.
  destruct p as [st t]. unfold apply_edit, edit_id. cbn [re_id re_action re_title re_kind]. rewrite Hi, Ha. cbn. rewrite Ht.
  destruct (re_kind e) as [[]|]; try done.
Qed.

(** one edit the model sends with neither a title nor a kind that is a string throws the whole refine away:
    no edit applies, the file stays, and no record is kept, where every other bad edit is recorded as failed and
    the rest go on. *)
Theorem nameless_edit_loses_the_refine now file scope p o : existsb nameless (pr_edits p) = true ->
  exists message, updateState file scope (fun st => applyProposal now st p o) = (file, Throw message).
Proof.
  intros (e & Hin & He)%existsb_exists. unfold updateState, applyProposal.
  assert (Ht : forall n q, exists m, apply_edits o now n q (pr_edits p) = Throw m).
  { apply List.in_split in Hin as (l1 & l2 & ->). intros n q. rewrite apply_edits_app.
    destruct (apply_edits o now n q l1) as [[q1 rs1]|m]; cbn; [|by exists m]. rewrite (nameless_throws _ _ _ _ He). cbn. by eexists. }
  destruct (Ht 0%nat (readState file scope, [])) as [m ->]. cbn. by exists m.
Qed.
End Spec.

(** ** A store and a refine *)

Definition sample_texts : Texts := {| String_of := fun _ => "[object Object]" |}.
Definition sample_entry (id title : string) : HarnessEntry :=
  mkEntry id KMemory title "text" "general" SLocal [] [] [] "agent" "t0" "t0" 1 [].
Definition sample_state : HarnessState :=
  mkState (schema emptyState) (mkEntries [] [("a", sample_entry "a" "A"); ("b", sample_entry "b" "B")] [] []) [].
Definition sample_edit (action : string) (id title content : option string) : RefineEdit :=
  mkEdit (Some (JStr action)) (Some (JStr "memory")) id title content None None None None None.
Definition sample_proposal : RefineProposal := mkProposal "s" "r" "o"
  [sample_edit "update" (Some "a") (Some "A2") (Some "new"); sample_edit "create" None (Some "Third One") (Some "c");
   sample_edit "delete" (Some "a") None None; sample_edit "delete" (Some "missing") None None].
Definition sample_options (base : option HarnessState) : ApplyOptions := mkOptions "refine_1" SLocal None base.
Definition sample_now (n : nat) : string := "t1".
Definition sample_run (base : option HarnessState) : result (HarnessState * RefineResult) :=
  @applyProposal sample_texts sample_now sample_state sample_proposal (sample_options base).

Example sample_run_applies : (fun x => map ae_applied (rr_edits x.2)) <$> sample_run None = Ok [true; true; true; false].
Proof. by vm_compute. Qed.

Lemma sample_restorable : all_restorable sample_state.
Proof.
  intros k id e. unfold entry. destruct k; try done. cbn [store entries sample_state memories].
  intros He%OMap.get_elem. rewrite !elem_of_cons in He. destruct He as [[= -> ->]|[[= -> ->]|[]%not_elem_of_nil]]; by vm_compute.
Qed.


Lemma refine_changes_what_it_lists_witness : exists st1 r,
  sample_run None = Ok (st1, r) /\ entry KMemory "b" st1 = entry KMemory "b" sample_state /\ entry KMemory "a" st1 = None.
Proof.
  destruct (sample_run None) as [[st1 r]|m] eqn:E; [|by vm_compute in E]. exists st1, r. split; [done|].
  destruct (@refine_changes_what_it_lists sample_texts _ _ _ _ _ _ E) as [Hall _].
  vm_compute in E. injection E as _ E2. rewrite !Hall, <- E2. by vm_compute.
Defined.

(** The planner saw the store before [a] got its new title. *)
Definition sample_base : HarnessState :=
  mkState (schema emptyState) (mkEntries [] [("a", sample_entry "a" "Old A"); ("b", sample_entry "b" "B")] [] []) [].
Lemma refine_spares_changed_entries_witness : exists st1 r,
  sample_run (Some sample_base) = Ok (st1, r) /\ entry KMemory "a" st1 = Some (sample_entry "a" "A").
Proof.
  destruct (sample_run (Some sample_base)) as [[st1 r]|m] eqn:E; [|by vm_compute in E]. exists st1, r. split; [done|].
  exact (@refine_spares_changed_entries sample_texts _ _ _ (sample_options (Some sample_base)) sample_base _ _ KMemory "a" eq_refl E ltac:(by vm_compute)).
Defined.

Lemma nameless_edit_loses_the_refine_witness : exists message,
  @updateState sample_texts _ None SLocal
    (fun st => @applyProposal sample_texts sample_now st
       (mkProposal "s" "r" "o" [sample_edit "create" None (Some "Good") (Some "text"); mkEdit (Some (JStr "create")) None None None (Some "text") None None None None None])
       (sample_options None)) = (None, Throw message).
Proof. apply (@nameless_edit_loses_the_refine sample_texts). by vm_compute. Defined.

(** A memory titled [Constructor] reads the store's inherited [constructor], and the refine throws. *)
Example constructor_title_throws :
  is_ok (@applyProposal sample_texts sample_now sample_state (mkProposal "s" "r" "o" [sample_edit "create" None (Some "Constructor") (Some "text")]) (sample_options None)) = false.
Proof. by vm_compute. Qed.
