(* ===== verification/FileLock.v ===== *)
(** * The file lock of the harness stores

    [packages/pi-harness/src/core/lock.ts]: [<file>.lock] is a directory with its owner's pid; a lock whose owner
    died, or that has none and is older than 30 s, is cleared by the one process that owns
    [<file>.lock.recovery].  Every process is at one system call of [acquire], [enterRecovery] or [withFileLock],
    and an event runs the next call of one process, passes time, starts a process or kills one, so that a list of
    events is an interleaving of system calls.

    A directory has its inode, its modification time, the pid in [pid] and in [pid.new]; [maker] is the process
    whose [mkdir] made it, which nothing reads.  [own] writes and removes a file of its own name around its
    [link], so it is that one step; removing a directory with its files is one step; [pause] takes no step.
    Errors other than [EEXIST] and [ENOENT] are outside the model. *)

From S2P Require Import Prelude.
#[local] Open Scope Z_scope.

Definition staleMs : Z := 30000.
Definition waitMs : Z := 120000.

Record Dir := mkDir { inode : nat; mtime : Z; pid_file : option Z; pid_new : option Z; maker : Z }.

(** Where a process is: [PMkdir] to [PHeld] in [acquire] and the task, [PReadOwner] and [PProbe] in the check of
    the lock, [RMkdir] to [RPutBack] in [enterRecovery], [CReadOwner] to [CLeave] inside the recovery.  [since] is
    the time of the [mkdir], [link], rename or probe that let the process come this far. *)
Inductive Phase :=
| PMkdir (deadline : Z)
| PWrite (since deadline : Z)
| PRename (since deadline : Z)
| PHeld
| PReadOwner (deadline : Z)
| PProbe (owner : option Z) (deadline : Z)
| PWait (deadline : Z)
| RMkdir (deadline : Z)
| ROwn (since deadline : Z)
| RReadOwner (deadline : Z)
| RProbe (owner : option Z) (since deadline : Z)
| RMove (owner deadline : Z)
| RReadAside (owner : Z) (dir : nat) (aside since deadline : Z)
| RPutBack (dir : nat) (aside deadline : Z)
| CReadOwner (since deadline : Z)
| CProbe (owner : option Z) (since deadline : Z)
| CRemove (since deadline : Z)
| CLeave (since deadline : Z)
| PFailed
| PDone.

Record World := mkWorld { lock : option Dir; recovery : option Dir; inodes : nat; clock : Z; dead : gset Z; procs : gmap Z Phase }.

Inductive Event := Begin (p : Z) | Run (p : Z) | Tick (ms : Z) | Die (p : Z).

Definition with_phase (p : Z) (ph : Phase) (w : World) : World :=
  mkWorld (lock w) (recovery w) (inodes w) (clock w) (dead w) (<[p := ph]> (procs w)).
Definition with_lock (d : option Dir) (w : World) : World := mkWorld d (recovery w) (inodes w) (clock w) (dead w) (procs w).
Definition with_recovery (d : option Dir) (w : World) : World := mkWorld (lock w) d (inodes w) (clock w) (dead w) (procs w).

Definition new_dir (p : Z) (w : World) : Dir := mkDir (inodes w) (clock w) None None p.
Definition counted (w : World) : World := mkWorld (lock w) (recovery w) (S (inodes w)) (clock w) (dead w) (procs w).
Definition write_new (p : Z) (w : World) (d : Dir) : Dir := mkDir (inode d) (clock w) (pid_file d) (Some p) (maker d).
Definition rename_new (w : World) (d : Dir) : Dir := mkDir (inode d) (clock w) (pid_new d) None (maker d).
Definition with_pid (o : option Z) (w : World) (d : Dir) : Dir := mkDir (inode d) (clock w) o (pid_new d) (maker d).

(** [ownerOf]: the pid in the file, [null] when there is none. *)
Definition ownerOf (d : option Dir) : option Z := d ≫= pid_file.
(** [abandoned]: a dead owner, or none and a directory older than 30 s; a directory that is gone is not. *)
Definition abandoned (w : World) (d : option Dir) (owner : option Z) : bool :=
  match owner with
  | Some o => bool_decide (o ∈ dead w)
  | None => match d with Some d => staleMs <? (clock w - mtime d) | None => false end
  end.

(** The next system call of process [p] at phase [ph]. *)
Definition run (p : Z) (ph : Phase) (w : World) : World :=
  match ph with
  | PMkdir dl =>
      match lock w with
      | None => with_phase p (PWrite (clock w) dl) (counted (with_lock (Some (new_dir p w)) w))
      | Some _ => with_phase p (PReadOwner dl) w
      end
  | PWrite s dl =>
      match lock w with
      | Some d => with_phase p (PRename s dl) (with_lock (Some (write_new p w d)) w)
      | None => with_phase p PFailed w
      end
  | PRename s dl =>
      match lock w with
      | Some d => match pid_new d with
                  | Some _ => with_phase p PHeld (with_lock (Some (rename_new w d)) w)
                  | None => with_phase p PFailed w
                  end
      | None => with_phase p PFailed w
      end
  | PHeld => with_phase p PDone (with_lock None w)
  | PReadOwner dl => with_phase p (PProbe (ownerOf (lock w)) dl) w
  | PProbe o dl => with_phase p (if abandoned w (lock w) o then RMkdir dl else PWait dl) w
  | PWait dl => with_phase p (if dl <=? clock w then PFailed else PMkdir dl) w
  | RMkdir dl =>
      match recovery w with
      | None => with_phase p (ROwn (clock w) dl) (counted (with_recovery (Some (new_dir p w)) w))
      | Some _ => with_phase p (RReadOwner dl) w
      end
  | ROwn s dl =>
      match recovery w with
      | Some d => match pid_file d with
                  | None => with_phase p (CReadOwner (clock w) dl) (with_recovery (Some (with_pid (Some p) w d)) w)
                  | Some o => with_phase p (PWait dl) (with_recovery (Some (with_pid (Some o) w d)) w)
                  end
      | None => with_phase p (PWait dl) w
      end
  | RReadOwner dl => with_phase p (RProbe (ownerOf (recovery w)) (clock w) dl) w
  | RProbe o s dl =>
      with_phase p (if abandoned w (recovery w) o then match o with None => ROwn (clock w) dl | Some o => RMove o dl end else PWait dl) w
  | RMove o dl =>
      match recovery w with
      | Some d => match pid_file d with
                  | Some a => with_phase p (RReadAside o (inode d) a (clock w) dl) (with_recovery (Some (with_pid None w d)) w)
                  | None => with_phase p (PWait dl) w
                  end
      | None => with_phase p (PWait dl) w
      end
  | RReadAside o i a s dl =>
      match recovery w with
      | Some d => with_phase p (if bool_decide (inode d = i) then if a =? o then ROwn s dl else RPutBack i a dl else PWait dl) w
      | None => with_phase p (PWait dl) w
      end
  | RPutBack i a dl =>
      match recovery w with
      | Some d => if bool_decide (inode d = i) then
                    match pid_file d with
                    | None => with_phase p (PWait dl) (with_recovery (Some (with_pid (Some a) w d)) w)
                    | Some o => with_phase p (PWait dl) (with_recovery (Some (with_pid (Some o) w d)) w)
                    end
                  else with_phase p (PWait dl) w
      | None => with_phase p (PWait dl) w
      end
  | CReadOwner s dl => with_phase p (CProbe (ownerOf (lock w)) s dl) w
  | CProbe o s dl => with_phase p (if abandoned w (lock w) o then CRemove s dl else CLeave s dl) w
  | CRemove s dl => with_phase p (CLeave s dl) (with_lock None w)
  | CLeave s dl => with_phase p (PMkdir dl) (with_recovery None w)
  | PFailed | PDone => w
  end.

Definition step (w : World) (e : Event) : World :=
  match e with
  | Begin p => if bool_decide (p ∈ dead w) then w else match procs w !! p with None => with_phase p (PMkdir (clock w + waitMs)) w | Some _ => w end
  | Run p => if bool_decide (p ∈ dead w) then w else match procs w !! p with Some ph => run p ph w | None => w end
  | Tick ms => mkWorld (lock w) (recovery w) (inodes w) (clock w + Z.max 0 ms) (dead w) (procs w)
  | Die p => mkWorld (lock w) (recovery w) (inodes w) (clock w) ({[p]} ∪ dead w) (procs w)
  end.
Definition steps (w : World) (es : list Event) : World := fold_left step es w.

(** Process [p] lives and runs its task under the lock. *)
Definition holds (w : World) (p : Z) : Prop := (p ∉ dead w) /\ procs w !! p = Some PHeld.
#[export] Instance holds_dec w p : Decision (holds w p).
Proof. destruct (decide (p ∈ dead w)); [right; by intros []|]. destruct (procs w !! p) as [[]|] eqn:E; first [by left|right; intros []; congruence]. Defined.

(** The times between which no process may sit for more than 30 s: from a [mkdir] to the rename of its pid, and
    in the recovery from what lets a process in to its leaving. *)
Definition since_of (ph : Phase) : option Z :=
  match ph with
  | PWrite s _ | PRename s _ | ROwn s _ | RProbe _ s _ | RReadAside _ _ _ s _ | CReadOwner s _ | CProbe _ s _ | CRemove s _ | CLeave s _ => Some s
  | _ => None
  end.
Definition prompt (w : World) : Prop := map_Forall (fun _ ph => match since_of ph with Some s => clock w <= s + staleMs | None => True end) (procs w).

#[export] Instance prompt_dec w : Decision (prompt w).
Proof. apply map_Forall_dec. intros p ph. destruct (since_of ph); apply _. Defined.

(** The paths on which every state is prompt and nobody dies. *)
Inductive calm_path : World -> list Event -> World -> Prop :=
| calm_nil w : calm_path w [] w
| calm_cons w e es w' : (forall p, e <> Die p) -> prompt (step w e) -> calm_path (step w e) es w' -> calm_path w (e :: es) w'.

(** A lock and a recovery as crashes leave them, before any process comes: the directory is not there, or its
    maker is dead and its pid file is absent or names a dead process. *)
Definition left_behind (w : World) (d : option Dir) : Prop :=
  match d with
  | Some d => maker d ∈ dead w /\ (inode d < inodes w)%nat /\ match pid_file d with Some o => o ∈ dead w | None => True end
  | None => True
  end.
Definition initial (w : World) : Prop := procs w = ∅ /\ left_behind w (lock w) /\ left_behind w (recovery w).
