(* ===== verification/FileLockSpec.v ===== *)
(** * One holder of a file lock

    On a calm path from what a crash left, the lock has at most one holder, whatever the interleaving.  The
    invariant has two parts: [LockInv], which says whose the lock directory is and what the one process inside
    the recovery has seen, and [RecInv], which says who is inside the recovery, in two cases of what the crash
    left ([Unowned], [OwnedBy]).  Without calm, a death between two system calls gives two holders. *)

From S2P Require Import Prelude FileLock.
#[local] Open Scope Z_scope.

Definition owner_phase (ph : Phase) : bool := match ph with PWrite _ _ | PRename _ _ | PHeld => true | _ => false end.
Definition crit (ph : Phase) : bool := match ph with CReadOwner _ _ | CProbe _ _ _ | CRemove _ _ | CLeave _ _ => true | _ => false end.
Definition entering (ph : Phase) : bool := match ph with ROwn _ _ => true | RReadAside o _ a _ _ => a =? o | _ => false end.
Definition inside (ph : Phase) : bool := crit ph || entering ph.
Definition moving (ph : Phase) : bool := match ph with RMove _ _ | RReadAside _ _ _ _ _ | RPutBack _ _ _ => true | _ => false end.

Definition no_owner (w : World) : Prop := forall p ph, procs w !! p = Some ph -> owner_phase ph = false.

(** What the lock is while [p] makes or holds it. *)
Definition owns (p : Z) (ph : Phase) (d : Dir) : Prop :=
  maker d = p /\
  match ph with
  | PWrite s _ => pid_file d = None /\ s <= mtime d
  | PRename s _ => pid_file d = None /\ pid_new d = Some p /\ s <= mtime d
  | _ => pid_file d = Some p
  end.
(** What the process in the recovery knows of the lock. *)
Definition guard (w : World) (ph : Phase) : Prop :=
  match ph with
  | CProbe (Some o) _ _ => o ∈ dead w -> no_owner w /\ lock w <> None
  | CProbe None s _ => forall p d, procs w !! p = Some PHeld -> lock w = Some d -> s <= mtime d
  | CRemove _ _ => no_owner w /\ lock w <> None
  | _ => True
  end.

Record LockInv (w : World) : Prop := {
  li_alive : forall p ph, procs w !! p = Some ph -> p ∉ dead w;
  li_past : forall p ph s, procs w !! p = Some ph -> since_of ph = Some s -> s <= clock w;
  li_owns : forall p ph, procs w !! p = Some ph -> owner_phase ph = true -> exists d, lock w = Some d /\ owns p ph d;
  li_guard : forall p ph, procs w !! p = Some ph -> guard w ph }.

(** Two processes of the recovery are one. *)
Definition one_inside (w : World) : Prop :=
  forall p q x y, procs w !! p = Some x -> procs w !! q = Some y -> crit x = true -> crit y = true -> p = q.

Ltac look :=
  repeat match goal with
  | X : procs (with_phase _ _ _) !! _ = Some _ |- _ => cbn [procs with_phase with_lock with_recovery counted] in X
  | X : <[_ := _]> _ !! _ = Some _ |- _ => apply lookup_insert_Some in X as [[? ?]|[? ?]]
  end; simplify_eq/=.

Section Lock.
Context (w : World) (Inv : LockInv w) (One : one_inside w) (Prompt : prompt w).

Lemma owners_agree p q x y : procs w !! p = Some x -> procs w !! q = Some y -> owner_phase x = true -> owner_phase y = true -> p = q.
Proof.
  intros Hp Hq Hx Hy. destruct (li_owns _ Inv _ _ Hp Hx) as (d & Hd & Hm & _). destruct (li_owns _ Inv _ _ Hq Hy) as (d' & Hd' & Hm' & _). congruence.
Qed.

Lemma since_fresh p ph s : procs w !! p = Some ph -> since_of ph = Some s -> clock w <= s + staleMs.
Proof. intros Hp Hs. specialize (Prompt p ph Hp). cbn in Prompt. by rewrite Hs in Prompt. Qed.

(** A process moves on outside the lock: the lock's part of the invariant stands. *)
Lemma move_to p ph' : p ∉ dead w -> owner_phase ph' = false -> guard w ph' ->
  (forall s, since_of ph' = Some s -> s <= clock w) -> LockInv (with_phase p ph' w).
Proof.
  intros Hp Ho' Hg Hs.
  assert (Hno : no_owner w -> no_owner (with_phase p ph' w)) by (intros Hn q x Hq; look; [done|by eapply Hn]).
  assert (Hgu : forall x, guard w x -> guard (with_phase p ph' w) x).
  { intros x G. destruct x as [| | | | | | | | | | | | | | |[o|]| | | |]; try exact I.
    - intros Hd. destruct (G Hd). by split; [apply Hno|].
    - intros q d Hq Hd. look. by eapply G.
    - destruct G. by split; [apply Hno|]. }
  split.
  - intros q x Hq. look; [done|by eapply (li_alive _ Inv)].
  - intros q x s Hq Hsx. look; [by apply Hs|by eapply (li_past _ Inv)].
  - intros q x Hq Hx. look; [congruence|]. by eapply (li_owns _ Inv).
  - intros q x Hq. apply Hgu. look; [done|by eapply (li_guard _ Inv)].
Qed.
Lemma move_on p ph ph' : procs w !! p = Some ph -> owner_phase ph = false -> owner_phase ph' = false -> guard w ph' ->
  (forall s, since_of ph' = Some s -> s <= clock w) -> LockInv (with_phase p ph' w).
Proof. intros Hp _. apply move_to. by eapply (li_alive _ Inv). Qed.
End Lock.

(** The recovery directory may change: the lock's part does not read it. *)
Lemma lock_inv_recovery d w : LockInv w -> LockInv (with_recovery d w).
Proof.
  intros Inv. split.
  - apply (li_alive _ Inv).
  - apply (li_past _ Inv).
  - apply (li_owns _ Inv).
  - intros p ph Hp. pose proof (li_guard _ Inv p ph Hp) as G. by destruct ph as [| | | | | | | | | | | | | | |[]| | | |].
Qed.
Lemma lock_inv_counted w : LockInv w -> LockInv (counted w).
Proof.
  intros Inv. split.
  - apply (li_alive _ Inv).
  - apply (li_past _ Inv).
  - apply (li_owns _ Inv).
  - intros p ph Hp. pose proof (li_guard _ Inv p ph Hp) as G. by destruct ph as [| | | | | | | | | | | | | | |[]| | | |].
Qed.

Section LockSteps.
Context (w : World) (Inv : LockInv w) (One : one_inside w) (Prompt : prompt w).

(** No process owns a lock that is not there, or that another one owns. *)
Lemma gone_unowned : lock w = None -> no_owner w.
Proof.
  intros Hl p ph Hp. destruct (owner_phase ph) eqn:Ho; [|done]. destruct (li_owns _ Inv _ _ Hp Ho) as (d & Hd & _). congruence.
Qed.
Lemma owned_guard p ph q x : procs w !! p = Some ph -> owner_phase ph = true -> procs w !! q = Some x ->
  match x with CRemove _ _ => False | CProbe (Some o) _ _ => o ∉ dead w | _ => True end.
Proof.
  intros Hp Ho Hq. pose proof (li_guard _ Inv q x Hq) as G.
  destruct x as [| | | | | | | | | | | | | | |[o|]| | | |]; try exact I; cbn in G.
  - intros Hd. destruct (G Hd) as [Hn _]. specialize (Hn _ _ Hp). congruence.
  - destruct G as [Hn _]. specialize (Hn _ _ Hp). congruence.
Qed.
Lemma gone_guard q x : lock w = None -> procs w !! q = Some x ->
  match x with CRemove _ _ => False | CProbe (Some o) _ _ => o ∉ dead w | _ => True end.
Proof.
  intros Hl Hq. pose proof (li_guard _ Inv q x Hq) as G.
  destruct x as [| | | | | | | | | | | | | | |[o|]| | | |]; try exact I; cbn in G; naive_solver.
Qed.

(** [p] is the one process that owns the lock afterwards, with directory [d]. *)
Lemma take_over p ph ph' d : procs w !! p = Some ph -> (owner_phase ph = true \/ lock w = None) -> owner_phase ph' = true -> owns p ph' d ->
  (forall s, since_of ph' = Some s -> s <= clock w) -> (ph' = PHeld -> mtime d = clock w) ->
  LockInv (with_phase p ph' (with_lock (Some d) w)).
Proof.
  intros Hp Ho Ho' Hd Hs Hh.
  assert (Hothers : forall q x, q <> p -> procs w !! q = Some x -> owner_phase x = false).
  { intros q x Hqp Hq. destruct (owner_phase x) eqn:E; [|done]. destruct Ho as [Ho|Hl].
    - destruct Hqp. by apply (owners_agree w Inv q p x ph).
    - by rewrite (gone_unowned Hl _ _ Hq) in E. }
  assert (Hguards : forall q x, procs w !! q = Some x -> match x with CRemove _ _ => False | CProbe (Some o) _ _ => o ∉ dead w | _ => True end).
  { intros q x Hq. destruct Ho as [Ho|Hl]; [by apply (owned_guard p ph q)|by apply (gone_guard q)]. }
  split.
  - intros q x Hq. look; by eapply (li_alive _ Inv).
  - intros q x s Hq Hsx. look; [by apply Hs|by eapply (li_past _ Inv)].
  - intros q x Hq Hx. look; [by exists d|]. by rewrite (Hothers q x) in Hx.
  - intros q x Hq. look; [by destruct x|]. pose proof (Hguards q x ltac:(done)) as G.
    destruct x as [| | | | | | | | | | | | | | |[o|] s dl| | | |]; try exact I; cbn in *; [done| |done].
    intros q' d' Hq' Hd'. look.
    + rewrite (Hh eq_refl). by eapply (li_past _ Inv).
    + by specialize (Hothers _ _ ltac:(done) ltac:(done)).
Qed.

(** The lock goes, and [p] with it. *)
Lemma let_go p ph ph' : procs w !! p = Some ph -> (owner_phase ph = true \/ crit ph = true /\ no_owner w) -> owner_phase ph' = false ->
  guard w ph' -> crit ph = crit ph' -> (forall s, since_of ph' = Some s -> s <= clock w) ->
  match ph' with CProbe _ _ _ | CRemove _ _ => False | _ => True end ->
  LockInv (with_phase p ph' (with_lock None w)).
Proof.
  intros Hp Ho Ho' Hg Hc Hs Hne.
  assert (Hothers : forall q x, q <> p -> procs w !! q = Some x -> owner_phase x = false).
  { intros q x Hqp Hq. destruct (owner_phase x) eqn:E; [|done]. destruct Ho as [Ho|[_ Hn]].
    - destruct Hqp. by apply (owners_agree w Inv q p x ph).
    - by rewrite (Hn _ _ Hq) in E. }
  split.
  - intros q x Hq. look; by eapply (li_alive _ Inv).
  - intros q x s Hq Hsx. look; [by apply Hs|by eapply (li_past _ Inv)].
  - intros q x Hq Hx. look; [congruence|]. by rewrite (Hothers q x) in Hx.
  - intros q x Hq. look; [by destruct x|].
    assert (G : match x with CRemove _ _ => False | CProbe (Some o) _ _ => o ∉ dead w | _ => True end).
    { destruct Ho as [Ho|[Hcr Hn]]; [by apply (owned_guard p ph q)|].
      destruct x as [| | | | | | | | | | | | | | |[o|] s dl| | | |]; try exact I;
        match goal with X : p <> q, Y : procs w !! q = Some ?x |- _ => destruct X; by apply (One p q ph x) end. }
    destruct x as [| | | | | | | | | | | | | | |[o|] s dl| | | |]; try exact I; cbn in *; done.
Qed.
End LockSteps.

Lemma abandoned_lock w q o s dl d : LockInv w -> prompt w -> procs w !! q = Some (CProbe o s dl) -> lock w = Some d ->
  abandoned w (lock w) o = true -> no_owner w.
Proof.
  intros Inv Prompt Hq Hl Ha. pose proof (li_guard _ Inv _ _ Hq) as G. destruct o as [o|]; cbn in Ha, G.
  - apply bool_decide_eq_true in Ha. by destruct (G Ha).
  - rewrite Hl in Ha. apply Z.ltb_lt in Ha. intros p ph Hp. destruct (owner_phase ph) eqn:Ho; [exfalso|done].
    destruct (li_owns _ Inv _ _ Hp Ho) as (d' & Hd & Hm & Hown). assert (d' = d) as -> by congruence.
    destruct ph; try done; cbn in Hown.
    + pose proof (since_fresh w Prompt _ _ _ Hp eq_refl). lia.
    + pose proof (since_fresh w Prompt _ _ _ Hp eq_refl). lia.
    + pose proof (G p d Hp Hl). pose proof (since_fresh w Prompt _ _ _ Hq eq_refl). lia.
Qed.

Lemma probe_guard w s dl : LockInv w -> guard w (CProbe (ownerOf (lock w)) s dl).
Proof.
  intros Inv. unfold ownerOf. destruct (lock w) as [d|] eqn:Hl; cbn.
  - destruct (pid_file d) as [o|] eqn:Ho; cbn.
    + intros Hd. split; [|congruence]. intros p ph Hp. destruct (owner_phase ph) eqn:E; [exfalso|done].
      destruct (li_owns _ Inv _ _ Hp E) as (d' & Hd' & _ & Hown). assert (d' = d) as -> by congruence.
      pose proof (li_alive _ Inv _ _ Hp). destruct ph; try done; cbn in Hown; destruct_and?; congruence.
    + intros p d' Hp Hd'. destruct (li_owns _ Inv _ _ Hp eq_refl) as (d'' & Hd'' & _ & Hown). cbn in Hown. congruence.
  - intros p d Hp. congruence.
Qed.

Lemma phase_counted p ph w : with_phase p ph (counted w) = counted (with_phase p ph w).
Proof. done. Qed.
Lemma phase_recovery p ph d w : with_phase p ph (with_recovery d w) = with_recovery d (with_phase p ph w).
Proof. done. Qed.

Lemma run_lock_inv w p ph : LockInv w -> one_inside w -> prompt w -> procs w !! p = Some ph -> LockInv (run p ph w).
Proof.
  intros Inv One Prompt Hp.
  assert (Hmove : forall ph', owner_phase ph = false -> owner_phase ph' = false -> guard w ph' -> (forall s, since_of ph' = Some s -> s <= clock w) -> LockInv (with_phase p ph' w))
    by (intros; by apply (move_on w Inv p ph)).
  assert (Hold : forall s, since_of ph = Some s -> s <= clock w) by (intros s; by apply (li_past _ Inv p ph)).
  destruct ph; cbn [run].
  - destruct (lock w) as [d|] eqn:Hl; [by apply Hmove|]. rewrite phase_counted. apply lock_inv_counted.
    apply (take_over w Inv p (PMkdir deadline)); cbn; try done; [by right|by intros s [= <-]].
  - destruct (li_owns _ Inv _ _ Hp eq_refl) as (d & Hd & Hm & Hpid & Hs). rewrite Hd.
    apply (take_over w Inv p (PWrite since deadline)); cbn; try done; [by left|].
    split_and!; [done..|]. by apply Hold.
  - destruct (li_owns _ Inv _ _ Hp eq_refl) as (d & Hd & Hm & Hpid & Hn & Hs). rewrite Hd, Hn.
    apply (take_over w Inv p (PRename since deadline)); cbn; try done. by left.
  - apply (let_go w Inv One p PHeld); cbn; try done. by left.
  - by apply Hmove.
  - apply Hmove; by destruct (abandoned w (lock w) owner).
  - apply Hmove; by destruct (deadline <=? clock w).
  - destruct (recovery w); [by apply Hmove|]. rewrite phase_counted, phase_recovery. apply lock_inv_counted, lock_inv_recovery. apply Hmove; cbn; try done. by intros s [= <-].
  - destruct (recovery w) as [d|]; [|by apply Hmove]. destruct (pid_file d); rewrite phase_recovery; apply lock_inv_recovery; apply Hmove; cbn; try done. by intros s [= <-].
  - apply Hmove; cbn; try done. by intros s [= <-].
  - apply Hmove; destruct (abandoned w (recovery w) owner), owner; cbn; try done. by intros s [= <-].
  - destruct (recovery w) as [d|]; [|by apply Hmove]. destruct (pid_file d); [|by apply Hmove].
    rewrite phase_recovery; apply lock_inv_recovery. apply Hmove; cbn; try done. by intros s [= <-].
  - destruct (recovery w) as [d|]; [|by apply Hmove]. destruct (bool_decide (inode d = dir)), (aside =? owner); by apply Hmove.
  - destruct (recovery w) as [d|]; [|by apply Hmove]. destruct (bool_decide (inode d = dir)); [|by apply Hmove].
    destruct (pid_file d); rewrite phase_recovery; apply lock_inv_recovery; by apply Hmove.
  - apply Hmove; try done. by apply probe_guard.
  - destruct (abandoned w (lock w) owner) eqn:Ha; [|by apply Hmove]. apply Hmove; cbn; try done.
    assert (Hl : lock w <> None).
    { intros Hl. destruct owner as [o|]; [|by rewrite Hl in Ha]. apply bool_decide_eq_true in Ha. by destruct (li_guard _ Inv _ _ Hp Ha). }
    split; [|done]. destruct (lock w) as [d|] eqn:Hd; [|done]. rewrite <- Hd in Ha. by eapply abandoned_lock.
  - apply (let_go w Inv One p (CRemove since deadline)); cbn; try done. right. split; [done|]. by destruct (li_guard _ Inv _ _ Hp).
  - rewrite phase_recovery; apply lock_inv_recovery. by apply Hmove.
  - done.
  - done.
Qed.

(** ** The recovery *)

(** What the crash left names nobody, so nobody is ever seen dead, and a pid file names the process inside. *)
Record Unowned (w : World) : Prop := {
  un_moving : forall p ph, procs w !! p = Some ph -> moving ph = false;
  un_probe : forall p o s dl, procs w !! p = Some (RProbe (Some o) s dl) -> o ∉ dead w;
  un_pid : forall d x, recovery w = Some d -> pid_file d = Some x -> x ∉ dead w;
  un_crit : forall p ph, procs w !! p = Some ph -> crit ph = true -> exists d, recovery w = Some d /\ pid_file d = Some p }.

(** A pid moved aside out of directory [i] is of the process inside, while that directory is there. *)
Definition aside_of (w : World) (i : nat) (a : Z) : Prop :=
  (i < inodes w)%nat /\ forall d, recovery w = Some d -> inode d = i -> exists ph, procs w !! a = Some ph /\ crit ph = true.
Definition fits (o : Z) (w : World) (ph : Phase) : Prop :=
  match ph with
  | RProbe (Some x) _ _ => x ∈ dead w -> x = o
  | RProbe None _ _ => forall d, recovery w = Some d -> pid_file d <> Some o
  | RMove x _ => x = o
  | RReadAside x i a _ _ => x = o /\ (a <> x -> aside_of w i a)
  | RPutBack i a _ => aside_of w i a
  | _ => True
  end.
(** What the directory is while [p] is inside. *)
Definition mine (w : World) (p : Z) (ph : Phase) : Prop :=
  exists d s, recovery w = Some d /\ since_of ph = Some s /\ s <= mtime d /\ (pid_file d = None \/ crit ph = true /\ pid_file d = Some p)
  /\ match ph with RReadAside _ i _ _ _ => inode d = i | _ => True end.

(** The crash left the pid of the dead process [o], or nothing: at most one process is inside or entering. *)
Record OwnedBy (o : Z) (w : World) : Prop := {
  ob_dead : o ∈ dead w;
  ob_one : forall p q x y, procs w !! p = Some x -> procs w !! q = Some y -> inside x = true -> inside y = true -> p = q;
  ob_mine : forall p ph, procs w !! p = Some ph -> inside ph = true -> mine w p ph;
  ob_state : forall d, recovery w = Some d -> (pid_file d = Some o /\ forall p ph, procs w !! p = Some ph -> inside ph = false) \/ exists p ph, procs w !! p = Some ph /\ inside ph = true;
  ob_fits : forall p ph, procs w !! p = Some ph -> fits o w ph;
  ob_inode : forall d, recovery w = Some d -> (inode d < inodes w)%nat }.

Definition RecInv (w : World) : Prop := Unowned w \/ exists o, OwnedBy o w.

Lemma crit_inside ph : crit ph = true -> inside ph = true.
Proof. unfold inside. by intros ->. Qed.

Lemma rec_one_inside w : RecInv w -> one_inside w.
Proof.
  intros [U|[o O]] p q x y Hp Hq Hx Hy.
  - destruct (un_crit _ U _ _ Hp Hx) as (d & Hd & Hpid), (un_crit _ U _ _ Hq Hy) as (d' & Hd' & Hpid'). congruence.
  - by apply (ob_one _ _ O p q x y); [| |apply crit_inside..].
Qed.

(** ** Case one: nobody was named *)

Lemma un_same w w' : procs w' = procs w -> recovery w' = recovery w -> dead w' = dead w -> Unowned w -> Unowned w'.
Proof. intros Hp Hr Hd [H1 H2 H3 H4]. split; by rewrite ?Hp, ?Hr, ?Hd. Qed.

Section Unowned.
Context (w : World) (U : Unowned w) (Alive : forall p ph, procs w !! p = Some ph -> p ∉ dead w).

Lemma un_step p ph d :
  moving ph = false -> (forall o s dl, ph = RProbe (Some o) s dl -> o ∉ dead w) ->
  (forall d' x, d = Some d' -> pid_file d' = Some x -> x ∉ dead w) ->
  (forall q x, <[p := ph]> (procs w) !! q = Some x -> crit x = true -> exists d', d = Some d' /\ pid_file d' = Some q) ->
  Unowned (with_phase p ph (with_recovery d w)).
Proof.
  intros Hm Hpr Hd Hc. split.
  - intros q x Hq. look; [done|by eapply (un_moving _ U)].
  - intros q o s dl Hq. look; [by eapply Hpr|by eapply (un_probe _ U)].
  - exact Hd.
  - exact Hc.
Qed.
Lemma un_move_on p ph : moving ph = false -> (forall o s dl, ph = RProbe (Some o) s dl -> o ∉ dead w) ->
  (crit ph = true -> exists d, recovery w = Some d /\ pid_file d = Some p) -> Unowned (with_phase p ph w).
Proof.
  intros Hm Hpr Hc. apply (un_step p ph (recovery w) Hm Hpr).
  - apply (un_pid _ U).
  - intros q x Hq Hx. look; [by apply Hc|by eapply (un_crit _ U)].
Qed.

Ltac un_on := match goal with |- Unowned (with_phase ?p ?ph _) => apply (un_same (with_phase p ph w)); [done..|by apply un_move_on] end.

Lemma run_unowned p ph : procs w !! p = Some ph -> Unowned (run p ph w).
Proof.
  intros Hp. pose proof (un_moving _ U _ _ Hp) as Hm.
  assert (Hin : crit ph = true -> exists d, recovery w = Some d /\ pid_file d = Some p) by (by apply (un_crit _ U)).
  destruct ph; cbn [run]; try done; try un_on.
  - destruct (lock w); un_on.
  - destruct (lock w); un_on.
  - destruct (lock w) as [d|]; [|un_on]. destruct (pid_new d); un_on.
  - destruct (abandoned w (lock w) owner); un_on.
  - destruct (deadline <=? clock w); un_on.
  - destruct (recovery w) as [d|] eqn:Hr; [un_on|]. apply (un_same (with_phase p (ROwn (clock w) deadline) (with_recovery (Some (new_dir p w)) w))); [done..|]. apply (un_step p _ _); cbn; try done; [by intros d' x [= <-]|].
    intros q x Hq Hx. look. destruct (un_crit _ U _ _ ltac:(done) Hx) as (d' & Hd' & _). congruence.
  - destruct (recovery w) as [d|] eqn:Hr; [|un_on]. destruct (pid_file d) as [o|] eqn:Ho.
    + apply (un_step p _ _); cbn; try done; [intros d' x [= <-] [= <-]; by eapply (un_pid _ U)|].
      intros q x Hq Hx. look. destruct (un_crit _ U _ _ ltac:(done) Hx) as (d' & Hd' & Hpd). eexists. split; [done|]. cbn. congruence.
    + apply (un_step p _ _); cbn; try done; [intros d' x [= <-] [= <-]; by eapply Alive|].
      intros q x Hq Hx. look; [by eexists|]. destruct (un_crit _ U _ _ ltac:(done) Hx) as (d' & Hd' & Hpd). congruence.
  - apply un_move_on; [done| |done]. intros o s dl [= Ho _ _]. unfold ownerOf in Ho. destruct (recovery w) as [d|] eqn:Hr; [|done]. by eapply (un_pid _ U).
  - destruct (abandoned w (recovery w) owner) eqn:Ha; [|un_on]. destruct owner as [o|]; [|un_on].
    apply bool_decide_eq_true in Ha. by destruct (un_probe _ U _ _ _ _ Hp).
  - destruct (abandoned w (lock w) owner); un_on.
  - apply (un_step p _ _); cbn; try done. intros q x Hq Hx. look.
    destruct (Hin eq_refl) as (d & Hd & Hpd). destruct (un_crit _ U _ _ ltac:(done) Hx) as (d' & Hd' & Hpd'). congruence.
Qed.
End Unowned.

(** ** Case two: the pid of a dead process, or nothing *)

Lemma ob_same o w w' : procs w' = procs w -> recovery w' = recovery w -> dead w' = dead w -> (inodes w <= inodes w')%nat -> OwnedBy o w -> OwnedBy o w'.
Proof.
  intros Hp Hr Hd Hi [H1 H2 H3 H4 H5 H6].
  assert (Ha : forall i a, aside_of w i a -> aside_of w' i a) by (intros i a [A1 A2]; split; [lia|by rewrite Hr, Hp]).
  split.
  - by rewrite Hd.
  - by rewrite Hp.
  - unfold mine in *. by rewrite Hp, Hr.
  - by rewrite Hp, Hr.
  - intros p ph. rewrite Hp. intros Hph. specialize (H5 p ph Hph). destruct ph as [| | | | | | | | | | [x|] | | | | | | | | |]; cbn in *; try done; rewrite ?Hd, ?Hr; naive_solver.
  - intros d. rewrite Hr. intros Hrd. specialize (H6 d Hrd). lia.
Qed.

Section Owned.
Context (o : Z) (w : World) (O : OwnedBy o w) (Alive : forall p ph, procs w !! p = Some ph -> p ∉ dead w) (Prompt : prompt w).

(** While a process is inside, the pid file does not name the dead one, and the directory is fresh. *)
Lemma inside_pid p ph : procs w !! p = Some ph -> inside ph = true ->
  exists d, recovery w = Some d /\ pid_file d <> Some o /\ clock w <= mtime d + staleMs.
Proof.
  intros Hp Hi. destruct (ob_mine _ _ O _ _ Hp Hi) as (d & s & Hd & Hs & Hle & Hpid & _). exists d. split; [done|].
  pose proof (Alive _ _ Hp). pose proof (ob_dead _ _ O). pose proof (Prompt p ph Hp) as Hpr. cbn in Hpr. rewrite Hs in Hpr. split; [|lia].
  destruct Hpid as [->|[_ ->]]; [done|]. intros [= ->]. done.
Qed.

(** A process that is not inside moves on outside. *)
Lemma ob_move_to p ph' : (forall ph, procs w !! p = Some ph -> inside ph = false) -> inside ph' = false -> fits o w ph' -> OwnedBy o (with_phase p ph' w).
Proof.
  intros Hp Hi' Hf.
  assert (Hins : forall q x, inside x = true -> procs w !! q = Some x -> procs (with_phase p ph' w) !! q = Some x).
  { intros q x Hx Hq. cbn. rewrite lookup_insert_ne; [done|]. intros <-. rewrite (Hp x Hq) in Hx. done. }
  assert (Hback : forall q x, inside x = true -> procs (with_phase p ph' w) !! q = Some x -> procs w !! q = Some x) by (intros q x Hx Hq; look; [congruence|done]).
  assert (Ha : forall i a, aside_of w i a -> aside_of (with_phase p ph' w) i a).
  { intros i a [A1 A2]. split; [done|]. intros d Hd Hdi. destruct (A2 d Hd Hdi) as (x & Hx & Hc). exists x. split; [|done]. apply Hins; [by apply crit_inside|done]. }
  assert (Hfit : forall x, fits o w x -> fits o (with_phase p ph' w) x) by (intros []; cbn; try done; naive_solver).
  split.
  - apply (ob_dead _ _ O).
  - intros q q' x y Hq Hq' Hx Hy. apply (ob_one _ _ O q q' x y); by auto.
  - intros q x Hq Hx. apply (ob_mine _ _ O q x); by auto.
  - intros d Hd. destruct (ob_state _ _ O d Hd) as [[Hpid Hn]|(q & x & Hq & Hx)].
    + left. split; [done|]. intros q x Hq. look; [done|by eapply Hn].
    + right. exists q, x. split; [by apply Hins|done].
  - intros q x Hq. apply Hfit. look; [done|by eapply (ob_fits _ _ O)].
  - apply (ob_inode _ _ O).
Qed.

Lemma ob_move_on p ph ph' : procs w !! p = Some ph -> inside ph = false -> inside ph' = false -> fits o w ph' -> OwnedBy o (with_phase p ph' w).
Proof. intros Hp Hi. apply ob_move_to. intros. by simplify_eq. Qed.

(** A process that is inside takes its next step inside. *)
Lemma ob_stay p ph ph' : procs w !! p = Some ph -> inside ph = true -> inside ph' = true -> (crit ph = true -> crit ph' = true) ->
  since_of ph' = since_of ph -> (match ph' with RReadAside _ _ _ _ _ => False | _ => True end) -> fits o w ph' -> OwnedBy o (with_phase p ph' w).
Proof.
  intros Hp Hi Hi' Hc Hs Hne Hf.
  assert (Hback : forall q x, inside x = true -> procs (with_phase p ph' w) !! q = Some x -> exists y, procs w !! q = Some y /\ inside y = true /\ (q <> p -> x = y)).
  { intros q x Hx Hq. look; [by exists ph|by exists x]. }
  assert (Ha : forall i a, aside_of w i a -> aside_of (with_phase p ph' w) i a).
  { intros i a [A1 A2]. split; [done|]. intros d Hd Hdi. destruct (A2 d Hd Hdi) as (x & Hx & Hcx). cbn.
    destruct (decide (a = p)) as [->|Hap]; [rewrite lookup_insert; case_decide; [|done]; exists ph'; split; [done|apply Hc; congruence]|].
    rewrite lookup_insert_ne by done. by exists x. }
  assert (Hfit : forall x, fits o w x -> fits o (with_phase p ph' w) x) by (intros []; cbn; try done; naive_solver).
  split.
  - apply (ob_dead _ _ O).
  - intros q q' x y Hq Hq' Hx Hy. destruct (Hback q x Hx Hq) as (x' & Hx' & Hix & _), (Hback q' y Hy Hq') as (y' & Hy' & Hiy & _). by apply (ob_one _ _ O q q' x' y').
  - intros q x Hq Hx. look.
    + destruct (ob_mine _ _ O _ _ Hp Hi) as (d & s & Hd & Hsd & Hle & Hpid & _). exists d, s. split_and!; [done|congruence|done| |by destruct x].
      destruct Hpid as [|[? ?]]; [by left|right; auto].
    + apply (ob_mine _ _ O); done.
  - intros d Hd. right. exists p, ph'. cbn. rewrite lookup_insert. by case_decide.
  - intros q x Hq. apply Hfit. look; [done|by eapply (ob_fits _ _ O)].
  - apply (ob_inode _ _ O).
Qed.

(** A process becomes the one inside a directory that was just changed. *)
Lemma ob_enter p ph ph' d : procs w !! p = Some ph -> (forall q x, q <> p -> procs w !! q = Some x -> inside x = false) -> inside ph' = true ->
  (inode d < inodes w)%nat -> since_of ph' = Some (clock w) -> mtime d = clock w -> (pid_file d = None \/ crit ph' = true /\ pid_file d = Some p) ->
  match ph' with RReadAside x i a _ _ => inode d = i /\ x = o /\ a = o | _ => True end ->
  (forall q x, q <> p -> procs w !! q = Some x -> fits o w x -> fits o (with_phase p ph' (with_recovery (Some d) w)) x) ->
  OwnedBy o (with_phase p ph' (with_recovery (Some d) w)).
Proof.
  intros Hp Hoth Hi Hino Hs Hm Hpid Hr Hfit. pose proof (ob_dead _ _ O) as Hdead. pose proof (Alive _ _ Hp) as Hal.
  assert (Honly : forall q x, procs (with_phase p ph' (with_recovery (Some d) w)) !! q = Some x -> inside x = true -> q = p).
  { intros q x Hq Hx. look; [done|]. rewrite (Hoth q x) in Hx; done. }
  split.
  - done.
  - intros q q' x y Hq Hq' Hx Hy. by rewrite (Honly q x), (Honly q' y).
  - intros q x Hq Hx. look; [|rewrite (Hoth q x) in Hx; done]. exists d, (clock w). split_and!; [done..|lia|done|]. destruct x; naive_solver.
  - intros d' Hd'. right. exists p, ph'. cbn. rewrite lookup_insert. by case_decide.
  - intros q x Hq. look.
    + destruct x; try done; cbn in *; naive_solver.
    + apply (Hfit q); [done..|]. by eapply (ob_fits _ _ O).
  - by intros d' [= <-].
Qed.
End Owned.

Section OwnedSteps.
Context (o : Z) (w : World) (O : OwnedBy o w) (Alive : forall p ph, procs w !! p = Some ph -> p ∉ dead w) (Prompt : prompt w).

(** The directory and its mtime change under the one process inside. *)
Lemma ob_touch p ph ph' d x : procs w !! p = Some ph -> inside ph = false -> inside ph' = false -> fits o w ph' ->
  recovery w = Some d ->
  (pid_file d = x \/ pid_file d = None /\ (exists a y, x = Some a /\ procs w !! a = Some y /\ crit y = true)
    \/ x = None /\ exists a y, procs w !! a = Some y /\ inside y = true) ->
  (forall q y, procs w !! q = Some y -> since_of y <> None -> default 0 (since_of y) <= clock w) ->
  OwnedBy o (with_phase p ph' (with_recovery (Some (with_pid x w d)) w)).
Proof.
  intros Hp Hi Hi' Hf Hd Hx Hpast. pose proof (ob_move_on o w O p ph ph' Hp Hi Hi' Hf) as O'.
  assert (Hsame : forall i a, aside_of (with_phase p ph' w) i a -> aside_of (with_phase p ph' (with_recovery (Some (with_pid x w d)) w)) i a).
  { intros i a [A1 A2]. split; [done|]. intros d' [= <-] Hdi. by apply (A2 d Hd). }
  split.
  - apply (ob_dead _ _ O').
  - apply (ob_one _ _ O').
  - intros q y Hq Hy. destruct (ob_mine _ _ O' q y Hq Hy) as (d' & s & Hd' & Hs & Hle & Hpid & Hdir). cbn in Hd'. assert (d' = d) as -> by congruence.
    exists (with_pid x w d), s. cbn. split_and!; [done..| | |by destruct y].
    + look; [congruence|]. specialize (Hpast q y ltac:(done)). rewrite Hs in Hpast. cbn in Hpast. by apply Hpast.
    + destruct Hx as [<-|[(Hn & a & z & -> & Ha & Hz)|[-> _]]]; [done| |by left]. right.
      assert (q = a) as ->; [|split; [|done]].
      * look; [congruence|]. by apply (ob_one _ _ O q a y z); [done..|apply crit_inside].
      * look; congruence.
  - intros d' [= <-]. destruct (ob_state _ _ O' d Hd) as [[Hpid Hn]|Hin]; [|by right]. left. split; [|done]. cbn.
    destruct Hx as [<-|[(Hno & _)|(-> & a & z & Ha & Hz)]]; [done|congruence|].
    exfalso. destruct (decide (a = p)) as [->|Hap]; [congruence|]. assert (inside z = false); [|congruence].
    apply (Hn a z). cbn. by rewrite lookup_insert_ne.
  - intros q y Hq. specialize (ob_fits _ _ O' q y Hq). destruct y as [| | | | | | | | | | [z|] | | | | | | | | |]; cbn; try done; [|naive_solver..].
    intros F d' [= <-] Hpid. cbn in Hpid. destruct Hx as [<-|[(Hno & a & z & -> & Ha & Hz)|[-> _]]]; [by apply (F d)| |done].
    injection Hpid as ->. by apply (Alive _ _ Ha), (ob_dead _ _ O).
  - intros d' [= <-]. exact (ob_inode _ _ O d Hd).
Qed.
End OwnedSteps.

Ltac ob_on O := match goal with |- OwnedBy ?o (with_phase ?p ?ph ?x) =>
  match goal with H : procs ?w !! p = Some _ |- _ => apply (ob_same o (with_phase p ph w)); [done|done|done|cbn; lia|]; by eapply (ob_move_on o w O) end end.
Ltac ob_in O := match goal with |- OwnedBy ?o (with_phase ?p ?ph ?x) =>
  match goal with H : procs ?w !! p = Some _ |- _ => apply (ob_same o (with_phase p ph w)); [done|done|done|cbn; lia|]; by eapply (ob_stay o w O) end end.

Lemma run_owned o w p ph : OwnedBy o w -> LockInv w -> prompt w -> procs w !! p = Some ph -> OwnedBy o (run p ph w).
Proof.
  intros O Inv Prompt Hp. pose proof (li_alive _ Inv) as Alive.
  assert (Hpast : forall q y, procs w !! q = Some y -> since_of y <> None -> default 0 (since_of y) <= clock w).
  { intros q y Hq Hs. destruct (since_of y) as [s|] eqn:E; [|done]. by apply (li_past _ Inv q y). }
  pose proof (ob_fits _ _ O _ _ Hp) as F. pose proof (ob_mine _ _ O p ph Hp) as Mine.
  destruct ph; cbn [run]; try done; try ob_on O.
  - destruct (lock w); ob_on O.
  - destruct (lock w); ob_on O.
  - destruct (lock w) as [d|]; [|ob_on O]. destruct (pid_new d); ob_on O.
  - destruct (abandoned w (lock w) owner); ob_on O.
  - destruct (deadline <=? clock w); ob_on O.
  - destruct (recovery w) as [d|] eqn:Hr; [ob_on O|].
    assert (Oc : OwnedBy o (counted w)) by (eapply ob_same, O; [done..|cbn; lia]).
    apply (ob_same o (with_phase p (ROwn (clock w) deadline) (with_recovery (Some (new_dir p w)) (counted w)))); [done..|].
    apply (ob_enter o (counted w) Oc Alive p (RMkdir deadline)); cbn; try done.
    + intros q x _ Hq. destruct (inside x) eqn:E; [|done]. destruct (ob_mine _ _ O _ _ Hq E) as (d & s & Hd & _). congruence.
    + lia.
    + by left.
    + intros q x _ Hq _. pose proof (ob_fits _ _ O _ _ Hq) as G.
      assert (Hnew : forall i a, aside_of w i a -> aside_of (with_phase p (ROwn (clock w) deadline) (with_recovery (Some (new_dir p w)) (counted w))) i a).
      { intros i a [A1 A2]. split; [cbn; lia|]. intros d [= <-] Hi. cbn in Hi. lia. }
      destruct x as [| | | | | | | | | | [z|] | | | | | | | | |]; cbn in G |- *; try done; [by intros d [= <-]|naive_solver..].
  - destruct (Mine eq_refl) as (d & s & Hd & Hs & Hle & [Hpid|[? _]] & _); [|done]. rewrite Hd, Hpid.
    apply (ob_enter o w O Alive p (ROwn since deadline)); cbn; try done.
    + intros q x Hqp Hq. destruct (inside x) eqn:E; [|done]. destruct Hqp. by apply (ob_one _ _ O q p x (ROwn since deadline)).
    + by apply (ob_inode _ _ O).
    + by right.
    + intros q x Hqp Hq G.
      assert (Hsame : forall i a, aside_of w i a -> aside_of (with_phase p (CReadOwner (clock w) deadline) (with_recovery (Some (with_pid (Some p) w d)) w)) i a).
      { intros i a [A1 A2]. split; [done|]. intros d' [= <-] Hi. destruct (A2 d Hd Hi) as (y & Hy & Hc).
        assert (p = a) as <- by (apply (ob_one _ _ O p a _ _ Hp Hy eq_refl), crit_inside, Hc). by simplify_eq. }
      destruct x as [| | | | | | | | | | [z|] | | | | | | | | |]; cbn in G |- *; try done; [|naive_solver..].
      intros d' [= <-] [= ->]. by apply (Alive _ _ Hp), (ob_dead _ _ O).
  - apply (ob_move_on o w O p (RReadOwner deadline)); try done. unfold ownerOf. destruct (recovery w) as [d|] eqn:Hr; cbn; [|congruence].
    destruct (pid_file d) as [x|] eqn:Hpid; cbn; [|intros d' Hd'; congruence]. intros Hx.
    destruct (ob_state _ _ O d Hr) as [[Hpo _]|(q & y & Hq & Hy)]; [congruence|].
    destruct (ob_mine _ _ O _ _ Hq Hy) as (d' & s & Hd' & _ & _ & [Hn|[_ Hn]] & _); [congruence|].
    assert (x = q) as -> by congruence. by destruct (Alive _ _ Hq).
  - destruct (abandoned w (recovery w) owner) eqn:Ha; [|ob_on O]. destruct owner as [x|]; cbn in Ha, F.
    + apply bool_decide_eq_true in Ha. apply (ob_move_on o w O p (RProbe (Some x) since deadline)); cbn; auto.
    + exfalso. destruct (recovery w) as [d|] eqn:Hr; [|done]. apply Z.ltb_lt in Ha.
      destruct (ob_state _ _ O d Hr) as [[Hpo _]|(q & y & Hq & Hy)]; [by apply (F d)|].
      destruct (inside_pid o w O Alive Prompt q y Hq Hy) as (d' & Hd' & _ & Hle). assert (d' = d) as -> by congruence. lia.
  - destruct (recovery w) as [d|] eqn:Hr; [|ob_on O]. destruct (pid_file d) as [a|] eqn:Hpid; [|ob_on O]. cbn in F. subst owner.
    pose proof (ob_inode _ _ O d Hr) as Hino.
    destruct (ob_state _ _ O d Hr) as [[Hpo Hnone]|(q & y & Hq & Hy)].
    + assert (a = o) as -> by congruence. apply (ob_enter o w O Alive p (RMove o deadline)); cbn; try done.
      * intros q x _ Hq. by eapply Hnone.
      * unfold inside. cbn. apply Z.eqb_refl.
      * by left.
      * intros q x Hqp Hq G.
        assert (Hsame : forall i b, aside_of w i b -> aside_of (with_phase p (RReadAside o (inode d) o (clock w) deadline) (with_recovery (Some (with_pid None w d)) w)) i b).
        { intros i b [A1 A2]. split; [done|]. intros d' [= <-] Hi. destruct (A2 d Hr Hi) as (y & Hy & Hc). 
          pose proof (crit_inside _ Hc). pose proof (Hnone _ _ Hy). congruence. }
        destruct x as [| | | | | | | | | | [z|] | | | | | | | | |]; cbn in G |- *; try done; [by intros d' [= <-]|naive_solver..].
    + destruct (ob_mine _ _ O _ _ Hq Hy) as (d' & s & Hd' & _ & _ & [Hn|[Hc Hn]] & _); [congruence|].
      assert (a = q) as -> by congruence.
      assert (Hqo : q <> o) by (intros ->; by apply (Alive _ _ Hq), (ob_dead _ _ O)).
      apply (ob_touch o w O Alive p (RMove o deadline)); try done.
      * unfold inside. cbn. by apply Z.eqb_neq.
      * cbn. split; [done|]. intros _. split; [done|]. intros d'' _ _. by exists y.
      * right. right. split; [done|]. by exists q, y.
  - cbn in F. destruct F as [-> F]. destruct (Z.eqb_spec aside o) as [->|Hao].
    + destruct Mine as (d & s & Hd & _ & _ & _ & Hi); [unfold inside; cbn; apply Z.eqb_refl|]. rewrite Hd, bool_decide_true by done.
      apply (ob_stay o w O p (RReadAside o dir o since deadline)); try done. unfold inside. cbn. apply Z.eqb_refl.
    + assert (Hni : inside (RReadAside o dir aside since deadline) = false) by (unfold inside; cbn; by apply Z.eqb_neq).
      destruct (recovery w) as [d|] eqn:Hr; [|by apply (ob_move_on o w O p _ _ Hp)].
      destruct (bool_decide (inode d = dir)); [|by apply (ob_move_on o w O p _ _ Hp)]. apply (ob_move_on o w O p _ _ Hp); try done. by apply F.
  - destruct (recovery w) as [d|] eqn:Hr; [|ob_on O]. case_bool_decide as Hi; [|ob_on O]. destruct F as [_ F]. destruct (F d Hr Hi) as (y & Hy & Hc).
    destruct (pid_file d) as [x|] eqn:Hpid; apply (ob_touch o w O Alive p (RPutBack dir aside deadline)); try done; [by left|].
    right. left. split; [done|]. by exists aside, y.
  - ob_in O.
  - destruct (abandoned w (lock w) owner); ob_in O.
  - ob_in O.
  - assert (Hnone : forall q x, q <> p -> procs w !! q = Some x -> inside x = false).
    { intros q x Hqp Hq. destruct (inside x) eqn:E; [|done]. destruct Hqp. by apply (ob_one _ _ O q p x (CLeave since deadline)). }
    assert (Hout : forall q x, procs (with_phase p (PMkdir deadline) (with_recovery None w)) !! q = Some x -> inside x = false) by (intros q x Hq; look; [done|by apply (Hnone q)]).
    split; try done.
    + apply (ob_dead _ _ O).
    + intros q q' x y Hq _ Hx. by rewrite (Hout q x Hq) in Hx.
    + intros q x Hq Hx. by rewrite (Hout q x Hq) in Hx.
    + intros q x Hq. look; [done|]. pose proof (ob_fits _ _ O q x ltac:(done)) as G.
      assert (Hall : forall i a, aside_of w i a -> aside_of (with_phase p (PMkdir deadline) (with_recovery None w)) i a) by (intros i a [A1 _]; by split).
      destruct x as [| | | | | | | | | | [z|] | | | | | | | | |]; cbn in G |- *; try done; naive_solver.
Qed.

(** ** The theorem *)

Definition Inv (w : World) : Prop := LockInv w /\ RecInv w.

(** No process is there yet. *)
Ltac nobody Hp := intros; exfalso; match goal with X : procs _ !! _ = Some _ |- _ => rewrite Hp, lookup_empty in X; discriminate end.

Lemma initial_inv w : initial w -> Inv w.
Proof.
  intros (Hp & _ & Hr). split; [split; nobody Hp|].
  destruct (recovery w) as [d|] eqn:Hd; [destruct (pid_file d) as [o|] eqn:Ho|].
  - right. exists o. destruct Hr as (Hm & Hi & Hdead). rewrite Ho in Hdead. split; try done; try nobody Hp.
    + rewrite Hd. intros d' [= <-]. left. split; [done|]. nobody Hp.
    + rewrite Hd. by intros d' [= <-].
  - left. split; try nobody Hp. rewrite Hd. intros d' x [= <-]. congruence.
  - left. split; try nobody Hp. by rewrite Hd.
Qed.

Lemma step_inv w e : Inv w -> prompt w -> (forall p, e <> Die p) -> Inv (step w e).
Proof.
  intros [L R] Prompt Hdie. destruct e as [p|p|ms|p]; cbn [step]; [| | |by destruct (Hdie p)].
  - case_bool_decide as Hd; [done|]. destruct (procs w !! p) as [ph|] eqn:Hp; [done|]. split; [by apply move_to|].
    destruct R as [U|[o O]]; [left; by apply (un_move_on w U)|right; exists o].
    apply (ob_move_to o w O); try done. intros ph. congruence.
  - case_bool_decide as Hd; [done|]. destruct (procs w !! p) as [ph|] eqn:Hp; [|done]. split.
    + apply run_lock_inv; try done. by apply rec_one_inside.
    + destruct R as [U|[o O]]; [left|right; exists o; by apply run_owned]. apply run_unowned; try done. apply (li_alive _ L).
  - split.
    + destruct L as [L1 L2 L3 L4]. split; try done. intros p ph s Hp Hs. specialize (L2 p ph s Hp Hs). cbn. lia.
    + destruct R as [[U1 U2 U3 U4]|[o [O1 O2 O3 O4 O5 O6]]]; [by left|right; exists o]. by split.
Qed.

Lemma calm_inv w es w' : calm_path w es w' -> Inv w -> prompt w -> Inv w' /\ prompt w'.
Proof. induction 1 as [|w e es w' Hd Hp _ IH]; intros HI HP; [done|]. apply IH; [by apply step_inv|done]. Qed.

(** C25: whatever a crash left of the lock and of its recovery, and in whatever order the system calls of any number
    of processes come, at most one process holds the lock at any moment, when no process dies on the way and none
    sits for more than 30 s between its mkdir and its rename or inside the recovery. *)
Theorem one_holder w es w' : initial w -> calm_path w es w' -> forall p q, holds w' p -> holds w' q -> p = q.
Proof.
  intros Hi Hc p q [_ Hp] [_ Hq]. destruct (calm_inv _ _ _ Hc (initial_inv _ Hi)) as [[L _] _].
  - intros r x Hr. destruct Hi as [Hn _]. by rewrite Hn, lookup_empty in Hr.
  - by apply (owners_agree w' L p q PHeld PHeld).
Qed.

(** ** A lock whose holder crashed, and three processes that come *)

Definition crashed : World := mkWorld (Some (mkDir 0 0 (Some 9) None 9)) None 1 100000 {[9]} ∅.
Lemma crashed_initial : initial crashed.
Proof. split; [done|]. split; [|done]. split_and!; cbn; [set_solver|lia|set_solver]. Qed.

Fixpoint calm_check (w : World) (es : list Event) : bool :=
  match es with
  | [] => true
  | e :: es => match e with Die _ => false | _ => true end && bool_decide (prompt (step w e)) && calm_check (step w e) es
  end.
Lemma calm_check_path w es : calm_check w es = true -> calm_path w es (steps w es).
Proof.
  revert w. induction es as [|e es IH]; intros w Hc; cbn in *; [constructor|].
  apply andb_true_iff in Hc as [[Hd Hp%bool_decide_eq_true]%andb_true_iff Hc]. constructor; [by destruct e|done|by apply IH].
Qed.

(** Process 1 sees the dead owner, clears the lock through the recovery and takes it; 2 waits its turn. *)
Definition recovered : list Event :=
  [Begin 1; Begin 2; Run 1; Run 1; Run 1; Run 2; Run 2; Run 2; Run 1; Run 2; Run 1; Run 1; Run 1; Run 1; Run 1; Tick 40; Run 1; Run 1; Run 1].
Lemma one_holder_witness : holds (steps crashed recovered) 1 /\ forall q, holds (steps crashed recovered) q -> 1 = q.
Proof.
  assert (H1 : holds (steps crashed recovered) 1) by by apply (bool_decide_unpack _); vm_compute.
  split; [exact H1|]. intros q Hq.
  exact (one_holder crashed recovered _ crashed_initial (calm_check_path crashed recovered ltac:(by vm_compute)) 1 q H1 Hq).
Defined.

(** 2 is inside the recovery and has read that 1 owns the lock; 1 finishes its task and its process ends; 3 takes
    the free lock; 2 finds 1 dead, removes the lock of 3 and takes it. *)
Definition taken_over : list Event :=
  [Begin 1; Begin 2; Run 1; Run 1; Run 1; Run 2; Run 2; Run 2; Run 1; Run 1; Run 1; Run 1; Run 1; Run 1; Run 2; Run 2; Run 1; Run 1; Run 1; Run 2;
   Run 1; Begin 3; Run 3; Run 3; Run 3; Die 1; Run 2; Run 2; Run 2; Run 2; Run 2; Run 2].

(** the check of the lock inside the recovery reads the owner and then asks whether that process lives, with no
    lock on the lock itself: when the owner releases it and its process ends between the two, and a third process
    takes the lock, the recovery removes a live process's lock and two hold it at once, with no time passing and
    nobody dying while it holds or makes the lock. *)
Theorem exit_during_check_breaks_lock :
  initial crashed /\ Forall (fun n => prompt (steps crashed (take n taken_over))) (seq 0 33)
  /\ holds (steps crashed taken_over) 2 /\ holds (steps crashed taken_over) 3.
Proof.
  split; [exact crashed_initial|]. split; [by apply (bool_decide_unpack _); vm_compute|].
  split; by apply (bool_decide_unpack _); vm_compute.
Qed.
