(* ===== verification/Turns.v ===== *)
(** * Turns and message keys of a thread

    [apps/chat/web/src/lib/api/shared/turns.ts] and [message-key.ts]: how the messages of a thread become the
    turns a page shows, and the names that survive paging.  A turn is built in place: [on_run] changes the run
    new messages belong to, which is the turn of the last exchange of the current turn, or the turn itself; the
    code keeps that object in [run].  Timestamps are integers of milliseconds; texts are units below 256.
    [triggerSummary], which cuts labels out of header lines, is left out. *)

From S2P Require Import Prelude.
#[local] Open Scope string_scope.
#[local] Open Scope list_scope.
#[local] Open Scope Z_scope.

(** ** Messages *)

Inductive Part := TextPart (text : string) | ThinkingPart (thinking : string) | ToolCallPart (id name : string) | ImagePart (url : string).
Inductive Content := Plain (text : string) | Parts (parts : list Part).
Inductive StopReason := Stop | Length | ToolUse | Error | Aborted | Deferred.
#[export] Instance StopReason_eq : EqDecision StopReason.
Proof. solve_decision. Defined.
Inductive SystemKind := BashExecution | BranchSummary | CompactionSummary.

Inductive Message :=
| User (content : Content) (timestamp : Z)
| Assistant (content : list Part) (stopReason : StopReason) (timestamp : Z)
| ToolResult (toolCallId : string) (durationMs : option Z) (timestamp : Z)
| Custom (customType : string) (content : Content) (timestamp : Z)
| SystemNote (kind : SystemKind) (text : string) (timestamp : Z).

Definition timestamp_of (m : Message) : Z :=
  match m with User _ t | Assistant _ _ t | ToolResult _ _ t | Custom _ _ t | SystemNote _ _ t => t end.

Record ToolRun := mkRun { tr_id : string; tr_running : bool; tr_startedAt : Z }.

Inductive WorkItem :=
| Thinking (text : string) (messageIndex partIndex : nat)
| Tool (id : string) (result : option Message) (run : option ToolRun) (messageIndex partIndex : nat)
| Note (text : string) (messageIndex : nat)
| System (message : Message) (messageIndex : nat)
| Trigger (message : Message) (messageIndex : nat)
| Exchange (turn : Turn) (messageIndex : nat)
with Turn := mkTurn (key : string) (prompt trigger : option nat) (work : list WorkItem)
  (reply : option (Message * nat * bool)) (failure : option nat) (startedAt endedAt : Z) (live : bool).

Definition key (t : Turn) := let 'mkTurn k _ _ _ _ _ _ _ _ := t in k.
Definition prompt (t : Turn) := let 'mkTurn _ p _ _ _ _ _ _ _ := t in p.
Definition trigger (t : Turn) := let 'mkTurn _ _ g _ _ _ _ _ _ := t in g.
Definition work (t : Turn) := let 'mkTurn _ _ _ w _ _ _ _ _ := t in w.
Definition reply (t : Turn) := let 'mkTurn _ _ _ _ r _ _ _ _ := t in r.
Definition failure (t : Turn) := let 'mkTurn _ _ _ _ _ f _ _ _ := t in f.
Definition endedAt (t : Turn) := let 'mkTurn _ _ _ _ _ _ _ e _ := t in e.
Definition live (t : Turn) := let 'mkTurn _ _ _ _ _ _ _ _ l := t in l.

Definition with_work (w : list WorkItem) (t : Turn) : Turn := let 'mkTurn k p g _ r f s e l := t in mkTurn k p g w r f s e l.
Definition with_reply (r : option (Message * nat * bool)) (t : Turn) : Turn := let 'mkTurn k p g w _ f s e l := t in mkTurn k p g w r f s e l.
Definition with_failure (f : option nat) (t : Turn) : Turn := let 'mkTurn k p g w r _ s e l := t in mkTurn k p g w r f s e l.
Definition until (at_ : Z) (t : Turn) : Turn := let 'mkTurn k p g w r f s e l := t in mkTurn k p g w r f s (Z.max e at_) l.
Definition with_live (l : bool) (t : Turn) : Turn := let 'mkTurn k p g w r f s e _ := t in mkTurn k p g w r f s e l.
Definition with_prompt (p : option nat) (t : Turn) : Turn := let 'mkTurn k _ g w r f s e l := t in mkTurn k p g w r f s e l.
Definition with_trigger (g : option nat) (t : Turn) : Turn := let 'mkTurn k p _ w r f s e l := t in mkTurn k p g w r f s e l.
Definition push_work (ws : list WorkItem) (t : Turn) : Turn := with_work (work t ++ ws) t.

(** ** Texts and triggers *)

Definition text_parts (ps : list Part) : list string := omap (fun p => match p with TextPart s => Some s | _ => None end) ps.
Definition messageText (c : Content) : string :=
  match c with Plain s => s | Parts ps => String.concat (nl +:+ nl) (text_parts ps) end.
Definition content_of (m : Message) : Content :=
  match m with User c _ | Custom _ c _ => c | Assistant ps _ _ => Parts ps | SystemNote _ s _ => Plain s | ToolResult _ _ _ => Plain "" end.
Definition text_of (m : Message) : string := trim (messageText (content_of m)).

Definition PROMPT_TYPES : list string :=
  ["agent_message"; "heartbeat_prompt"; "async_bash_completion"; "goal_context"; "rlm_child_terminal_notice"; "rlm_child_failure"; "prime-agent.update_restart"].
Definition isPromptCustom (customType : string) : bool := bool_decide (customType ∈ PROMPT_TYPES).
Definition opensTurn (customType : string) : bool := bool_decide (customType = "heartbeat_prompt").
Definition is_trigger (m : Message) : bool := match m with Custom t _ _ => isPromptCustom t | _ => false end.

(** The header line [[...]] at the start of a trigger's text, and the rest. *)
Definition header_split (l : chars) : option (chars * chars) :=
  match l with
  | "["%char :: r =>
      let inside := take_while (fun c => negb (bool_decide (c = "]"%char) || bool_decide (c = "010"%char))) r in
      match inside, drop (length inside) r with
      | _ :: _, "]"%char :: rest => Some (inside, drop_while is_space rest)
      | _, _ => None
      end
  | _ => None
  end.
Definition triggerBody (text : string) : string :=
  let trimmed := trim_chars (to_chars text) in
  of_chars (trim_chars (match header_split trimmed with Some (_, rest) => rest | None => trimmed end)).

(** ** Runs *)

Definition is_exchange (w : WorkItem) : bool := match w with Exchange _ _ => true | _ => false end.
(** [work.findLast(exchange)]. *)
Definition lastExchange (t : Turn) : option Turn :=
  last (omap (fun w => match w with Exchange e _ => Some e | _ => None end) (work t)).
Definition currentRun (t : Turn) : Turn := default t (lastExchange t).
Definition exchangesOf (t : Turn) : list Turn := omap (fun w => match w with Exchange e _ => Some e | _ => None end) (work t).
Definition ownRun (t : Turn) : Turn :=
  if existsb is_exchange (work t) then with_live false (with_work (List.filter (fun w => negb (is_exchange w)) (work t)) t) else t.

(** The last exchange of the work, changed. *)
Fixpoint on_last_exchange (f : Turn -> Turn) (ws : list WorkItem) : option (list WorkItem) :=
  match ws with
  | [] => None
  | w :: r =>
      match on_last_exchange f r with
      | Some r' => Some (w :: r')
      | None => match w with Exchange e i => Some (Exchange (f e) i :: r) | _ => None end
      end
  end.
(** Changing the run new messages belong to, in its turn. *)
Definition on_run (f : Turn -> Turn) (t : Turn) : Turn :=
  match on_last_exchange f (work t) with Some ws => with_work ws t | None => f t end.

Definition toolDurationMs (result : option Message) (run : option ToolRun) (now : Z) : option Z :=
  match result with
  | Some (ToolResult _ (Some d) _) => Some d
  | _ => match run with Some r => Some (Z.max 0 (now - tr_startedAt r)) | None => None end
  end.

Definition toolResults (ms : list Message) : list (string * Message) :=
  fold_left (fun acc m => match m with ToolResult id _ _ => OMap.set id m acc | _ => acc end) ms [].

(** The work an assistant message adds for one part. *)
Definition part_work (results : list (string * Message)) (textIsNote : bool) (index : nat) (partIndex : nat) (p : Part) : list WorkItem :=
  match p with
  | ThinkingPart s => if bool_decide (trim s = "") then [] else [Thinking s index partIndex]
  | ToolCallPart id _ => [Tool id (OMap.get id results) None index partIndex]
  | TextPart s => if textIsNote && negb (bool_decide (trim s = "")) then [Note (trim s) index] else []
  | ImagePart _ => []
  end.
Definition parts_work (results : list (string * Message)) (textIsNote : bool) (index : nat) (ps : list Part) : list WorkItem :=
  concat (imap (part_work results textIsNote index) ps).

Definition failed_stop (s : StopReason) : bool := match s with Error | Aborted => true | _ => false end.

(** The run's earlier reply, when it is not live, becomes a note. *)
Definition reply_to_note (t : Turn) : Turn :=
  match reply t with
  | Some (m, i, false) => with_reply None (if bool_decide (text_of m = "") then t else push_work [Note (text_of m) i] t)
  | _ => t
  end.

Definition addAssistant (results : list (string * Message)) (live_ : bool) (index : nat) (ps : list Part) (stop : StopReason) (at_ : Z) (t : Turn) : Turn :=
  let m := Assistant ps stop at_ in
  let failed := failed_stop stop in
  let answered := match reply t with Some (p, _, l) => negb l && negb (bool_decide (text_of p = "")) | None => false end in
  if failed && negb live_ && bool_decide (text_of m = "") && answered then until at_ (with_failure (Some index) t)
  else
    let t := reply_to_note t in
    let textIsNote := bool_decide (stop = ToolUse) && negb failed && negb live_ in
    let t := push_work (parts_work results textIsNote index ps) t in
    let t := if negb textIsNote && (negb (bool_decide (text_of m = "")) || failed || live_) then with_reply (Some (m, index, live_)) t else t in
    until at_ t.

Definition openTurn (key : string) (at_ : Z) : Turn := mkTurn key None None [] None None at_ at_ false.

(** ** Message keys *)

Record MessageKey := mkKey { k_at : Z; k_n : nat }.
#[export] Instance MessageKey_eq : EqDecision MessageKey.
Proof. solve_decision. Defined.

(** The messages just before, latest first, that share the timestamp. *)
Definition messageKey (times : list Z) (index : nat) : MessageKey :=
  let at_ := nth index times 0 in
  mkKey at_ (length (take_while (fun t => t =? at_) (reverse (take index times)))).
Fixpoint keyIndex_from (times : list Z) (k : MessageKey) (fuel : nat) : option nat :=
  match fuel with
  | O => None
  | S i => if (nth i times 0 =? k_at k) && bool_decide (k_n (messageKey times i) = k_n k) then Some i else keyIndex_from times k i
  end.
(** [keyIndex], with [-1] as [None]. *)
Definition keyIndex (times : list Z) (k : MessageKey) : option nat := keyIndex_from times k (length times).

Inductive OlderCursor := FileCursor (end_ : Z) (id : string) | MessageCursor (k : MessageKey).
Definition formatCursor (c : OlderCursor) : string :=
  match c with
  | FileCursor e id => "f" +:+ string_of_Z e +:+ "." +:+ id
  | MessageCursor k => "m" +:+ string_of_Z (k_at k) +:+ "." +:+ string_of_Z (Z.of_nat (k_n k))
  end.
Definition MAX_SAFE : Z := 9007199254740991.
Definition is_word (c : Ascii.ascii) : bool :=
  is_digit c || ((65 <=? code c) && (code c <=? 90)) || ((97 <=? code c) && (code c <=? 122)) || (code c =? 95) || (code c =? 45).
(** [\d+] and the dot after it. *)
Definition number_dot (l : chars) : option (Z * chars) :=
  match take_while is_digit l, drop_while is_digit l with
  | d :: ds, "."%char :: rest => Some (digits_value (d :: ds), rest)
  | _, _ => None
  end.
Definition safe (n : Z) : bool := n <=? MAX_SAFE.
Definition parseCursor (text : string) : option OlderCursor :=
  match to_chars text with
  | "f"%char :: l =>
      match number_dot l with
      | Some (e, id) => if forallb is_word id && (1 <=? length id)%nat && (length id <=? 128)%nat && safe e then Some (FileCursor e (of_chars id)) else None
      | None => None
      end
  | "m"%char :: l =>
      match number_dot l with
      | Some (at_, n) => if forallb is_digit n && (1 <=? length n)%nat && safe at_ && safe (digits_value n)
                         then Some (MessageCursor (mkKey at_ (Z.to_nat (digits_value n)))) else None
      | None => None
      end
  | _ => None
  end.

(** ** Building *)

Definition turn_key (times : list Z) (index : nat) : string :=
  let k := messageKey times index in "turn-" +:+ string_of_Z (k_at k) +:+ "." +:+ string_of_Z (Z.of_nat (k_n k)).

(** The turns before the current one, the current one, and whether its run settled. *)
Record Builder := mkBuilder { b_done : list Turn; b_current : option Turn; b_settled : bool }.
Definition turns_of (b : Builder) : list Turn := b_done b ++ match b_current b with Some t => [t] | None => [] end.

Definition plain_message (m : Message) : bool := match m with User _ _ => false | _ => true end.

(** A message of the current run. *)
Definition take_message (results : list (string * Message)) (index : nat) (m : Message) (run : Turn) : Turn :=
  match m with
  | Assistant ps stop at_ => addAssistant results false index ps stop at_ run
  | ToolResult _ _ at_ => until at_ run
  | _ => if is_trigger m then push_work [Trigger m index] run else push_work [System m index] run
  end.
Definition settles (m : Message) (settled : bool) : bool :=
  match m with Assistant _ stop _ => negb (bool_decide (stop = ToolUse)) | _ => settled end.

Definition add_message (times : list Z) (results : list (string * Message)) (b : Builder) (im : nat * Message) : Builder :=
  let '(index, m) := im in
  let fresh := openTurn (turn_key times index) (timestamp_of m) in
  let start t := mkBuilder (turns_of b) (Some t) false in
  match m, b_current b with
  | User _ _, _ => start (with_prompt (Some index) fresh)
  | Custom ty _ _, None => if isPromptCustom ty && b_settled b then start (with_trigger (Some index) fresh)
                           else mkBuilder (b_done b) (Some (take_message results index m fresh)) (settles m (b_settled b))
  | Custom ty _ _, Some t =>
      if isPromptCustom ty && b_settled b then
        if opensTurn ty then start (with_trigger (Some index) fresh)
        else mkBuilder (b_done b) (Some (push_work [Exchange (with_trigger (Some index) fresh) index] t)) false
      else mkBuilder (b_done b) (Some (on_run (take_message results index m) t)) (settles m (b_settled b))
  | _, None => mkBuilder (b_done b) (Some (take_message results index m fresh)) (settles m (b_settled b))
  | _, Some t => mkBuilder (b_done b) (Some (on_run (take_message results index m) t)) (settles m (b_settled b))
  end.
Definition build (ms : list Message) : Builder :=
  fold_left (add_message (map timestamp_of ms) (toolResults ms)) (imap pair ms) (mkBuilder [] None true).
Definition buildTurns (ms : list Message) : list Turn := turns_of (build ms).

(** ** The live tail *)

Definition run_of (tools : list ToolRun) (id : string) : option ToolRun := List.find (fun r => bool_decide (tr_id r = id)) tools.
Fixpoint item_with_runs (tools : list ToolRun) (w : WorkItem) : WorkItem :=
  match w with
  | Tool id res _ i j => Tool id res (run_of tools id) i j
  | Exchange (mkTurn k p g ws r f s e l) i => Exchange (mkTurn k p g (map (item_with_runs tools) ws) r f s e l) i
  | w => w
  end.
Definition withRuns (tools : list ToolRun) (t : Turn) : Turn := with_work (map (item_with_runs tools) (work t)) t.

Definition liveTurn (last_ : option Turn) (streaming : option (list Part * StopReason * Z)) (tools : list ToolRun) (messageCount : nat) (running : bool) (now : Z) : option Turn :=
  match streaming, existsb tr_running tools, running with
  | None, false, false => None
  | _, _, _ =>
      let base := match last_ with Some t => t | None => openTurn "turn-live" (match streaming with Some (_, _, at_) => at_ | None => now end) end in
      let t := with_live true (withRuns tools base) in
      let t := match on_last_exchange (with_live true) (work t) with Some ws => with_work ws t | None => t end in
      Some match streaming with
           | Some (ps, stop, at_) => on_run (addAssistant [] true messageCount ps stop at_) t
           | None => t
           end
  end.

Definition workCounts (ws : list WorkItem) : nat * nat :=
  (length (List.filter (fun w => match w with Tool _ _ _ _ _ => true | _ => false end) ws),
   length (List.filter (fun w => match w with Tool _ _ _ _ _ | Thinking _ _ _ | Exchange _ _ => false | _ => true end) ws)).
