(* ===== verification/TurnsSpec.v ===== *)
(** * What a page shows of a thread

    Keys: a message's key finds it again, keys survive an older page, and a cursor reads back.  Turns: every text
    of the agent is shown exactly once, the prompts of the turns are the owner's messages in order, and an older
    page in front leaves the keys of the turns behind it alone. *)

From S2P Require Import Prelude Turns.
#[local] Open Scope string_scope.
#[local] Open Scope list_scope.
#[local] Open Scope Z_scope.

(** ** Keys *)

Lemma messageKey_S times j : (S j < length times)%nat ->
  k_n (messageKey times (S j)) = if nth j times 0 =? nth (S j) times 0 then S (k_n (messageKey times j)) else O.
Proof.
  intros Hj. unfold messageKey. cbn [k_n]. destruct (nth_lookup_or_length times j 0) as [Hl|]; [|lia].
  rewrite (take_S_r _ _ _ Hl), reverse_app. cbn [reverse rev_append app take_while].
  change (reverse [nth j times 0] ++ reverse (take j times)) with (nth j times 0 :: reverse (take j times)). cbn [take_while].
  destruct (Z.eqb_spec (nth j times 0) (nth (S j) times 0)) as [E|]; [|done]. cbn. by rewrite E.
Qed.
Lemma key_ext a b : k_at a = k_at b -> k_n a = k_n b -> a = b.
Proof. destruct a, b. cbn. congruence. Qed.
Lemma messageKey_0 times : k_n (messageKey times 0) = O.
Proof. done. Qed.

(** Timestamps that never step back. *)
Definition in_order (times : list Z) : Prop := forall i, (S i < length times)%nat -> nth i times 0 <= nth (S i) times 0.

Lemma in_order_le times i j : in_order times -> (i <= j)%nat -> (j < length times)%nat -> nth i times 0 <= nth j times 0.
Proof.
  intros Ho Hij. induction Hij as [|j Hij IH]; intros Hj; [lia|]. specialize (Ho j Hj). specialize (IH ltac:(lia)). lia.
Qed.
Lemma keys_rise times i j : in_order times -> (i < j)%nat -> (j < length times)%nat -> nth i times 0 = nth j times 0 ->
  (k_n (messageKey times i) < k_n (messageKey times j))%nat.
Proof.
  intros Ho Hij. induction j as [|j IH]; intros Hj He; [lia|].
  assert (Hm : nth j times 0 = nth (S j) times 0).
  { pose proof (in_order_le times i j Ho ltac:(lia) ltac:(lia)). pose proof (Ho j Hj). lia. }
  rewrite messageKey_S by done. rewrite Hm, Z.eqb_refl. destruct (decide (i = j)) as [->|]; [lia|].
  specialize (IH ltac:(lia) ltac:(lia) ltac:(lia)). lia.
Qed.

Lemma key_scan times i n : in_order times -> (i < n)%nat -> (n <= length times)%nat -> keyIndex_from times (messageKey times i) n = Some i.
Proof.
  intros Ho. induction n as [|n IH]; intros Hi Hn; [lia|]. cbn [keyIndex_from].
  destruct (decide (n = i)) as [->|Hne]; [by rewrite Z.eqb_refl, bool_decide_true|].
  destruct (Z.eqb_spec (nth n times 0) (k_at (messageKey times i))) as [E|]; [|apply IH; lia]. cbn in E |- *.
  rewrite bool_decide_false; [apply IH; lia|]. pose proof (keys_rise times i n Ho ltac:(lia) ltac:(lia) (eq_sym E)) as Hlt. cbn in Hlt. lia.
Qed.

(** in a thread whose timestamps never step back, the key of a message finds that message and no other. *)
Theorem key_finds_its_message times i : in_order times -> (i < length times)%nat -> keyIndex times (messageKey times i) = Some i.
Proof. intros Ho Hi. by apply key_scan. Qed.

(** Two messages whose times step back and forth share a key, and it finds the later one. *)
Example keys_of_a_clock_that_steps_back : messageKey [5; 4; 5] 0 = messageKey [5; 4; 5] 2 /\ keyIndex [5; 4; 5] (messageKey [5; 4; 5] 0) = Some 2%nat.
Proof. by vm_compute. Qed.

Lemma nth_page (older page : list Z) i : nth (length older + i) (older ++ page) 0 = nth i page 0.
Proof. rewrite app_nth2 by lia. f_equal. lia. Qed.

(** A page does not split the messages that share a timestamp. *)
Definition splits_none (older page : list Z) : Prop := forall t, last older = Some t -> head page <> Some t.

Lemma key_in_front older page i : splits_none older page -> (i < length page)%nat ->
  messageKey (older ++ page) (length older + i) = messageKey page i.
Proof.
  intros Hs. induction i as [|i IH]; intros Hi.
  - rewrite Nat.add_0_r. unfold messageKey. f_equal; [by rewrite <- (Nat.add_0_r (length older)), nth_page|].
    rewrite take_app_length. cbn. destruct (last older) as [t|] eqn:E; [|by apply last_None in E as ->].
    apply last_Some in E as [l ->]. rewrite reverse_app. cbn.
    replace (nth (length (l ++ [t])) ((l ++ [t]) ++ page) 0) with (nth 0 page 0) by (by rewrite <- (nth_page (l ++ [t]) page 0), Nat.add_0_r).
    destruct page as [|p page]; [cbn in Hi; lia|]. cbn. specialize (Hs t ltac:(by rewrite last_snoc)). cbn in Hs.
    destruct (Z.eqb_spec t p); [congruence|done].
  - specialize (IH ltac:(lia)). rewrite Nat.add_succ_r.
    assert (E1 : k_at (messageKey (older ++ page) (S (length older + i))) = k_at (messageKey page (S i))) by (cbn [messageKey k_at]; by rewrite <- Nat.add_succ_r, nth_page).
    assert (E2 : k_n (messageKey (older ++ page) (S (length older + i))) = k_n (messageKey page (S i))).
    { rewrite !messageKey_S; [|lia|rewrite length_app; lia]. rewrite IH, nth_page, <- Nat.add_succ_r, nth_page. done. }
    by apply key_ext.
Qed.

(** ** Cursors *)

Definition readable (c : OlderCursor) : Prop :=
  match c with
  | FileCursor e id => 0 <= e <= MAX_SAFE /\ id <> "" /\ (String.length id <= 128)%nat /\ forallb is_word (to_chars id) = true
  | MessageCursor k => 0 <= k_at k <= MAX_SAFE /\ Z.of_nat (k_n k) <= MAX_SAFE
  end.

Lemma number_dot_text n rest : 0 <= n -> number_dot (to_chars (string_of_Z n) ++ "."%char :: rest) = Some (n, rest).
Proof.
  intros Hn. destruct (string_of_Z_digits n Hn) as (Hd & Hv & Hne). unfold number_dot.
  destruct (take_while_app is_digit (to_chars (string_of_Z n)) ("."%char :: rest)) as [-> ->]; [done|by intros x [= <-]|].
  destruct (to_chars (string_of_Z n)) as [|d ds]; [done|]. by rewrite Hv.
Qed.

(** a cursor the server can make, in a file or before a message, is read back from its text as it was. *)
Theorem cursor_roundtrip c : readable c -> parseCursor (formatCursor c) = Some c.
Proof.
  destruct c as [e id|[at_ n]]; unfold parseCursor, formatCursor; cbn [readable k_at k_n].
  - intros (He & Hid & Hlen & Hw). rewrite !to_chars_app. change (to_chars "f") with ["f"%char]. change (to_chars ".") with ["."%char]. cbn [app].
    rewrite number_dot_text by lia. rewrite Hw. assert (Hl : length (to_chars id) = String.length id) by (clear; unfold to_chars; induction id as [|c id IH]; [done|]; cbn; by rewrite IH).
    rewrite Hl. assert (1 <= String.length id)%nat by (destruct id; [done|cbn; lia]).
    rewrite (proj2 (Nat.leb_le 1 _)), (proj2 (Nat.leb_le _ 128)) by done. unfold safe. rewrite (proj2 (Z.leb_le _ _)) by lia. cbn.
    by rewrite of_to_chars.
  - intros (Ha & Hn). rewrite !to_chars_app. change (to_chars "m") with ["m"%char]. change (to_chars ".") with ["."%char]. cbn [app].
    rewrite number_dot_text by lia. destruct (string_of_Z_digits (Z.of_nat n) ltac:(lia)) as (Hd & Hv & Hne). rewrite Hd, Hv. unfold safe.
    rewrite !(proj2 (Z.leb_le _ _)) by lia. destruct (to_chars (string_of_Z (Z.of_nat n))); [done|]. cbn. by rewrite Nat2Z.id.
Qed.

(** ** The owner's messages *)

Definition is_user (m : Message) : bool := match m with User _ _ => true | _ => false end.
Definition user_indices (l : list (nat * Message)) : list nat := omap (fun im => if is_user im.2 then Some im.1 else None) l.

Lemma prompt_on_run f t : (forall r, prompt (f r) = prompt r) -> prompt (on_run f t) = prompt t.
Proof. intros Hf. unfold on_run. destruct (on_last_exchange f (work t)); [by destruct t|done]. Qed.
Lemma key_on_run f t : (forall r, key (f r) = key r) -> key (on_run f t) = key t.
Proof. intros Hf. unfold on_run. destruct (on_last_exchange f (work t)); [by destruct t|done]. Qed.

Lemma addAssistant_keeps res l i ps st a t : key (addAssistant res l i ps st a t) = key t /\ prompt (addAssistant res l i ps st a t) = prompt t.
Proof.
  unfold addAssistant. destruct (failed_stop st && negb l && _ && _); [by destruct t|].
  assert (H : key (reply_to_note t) = key t /\ prompt (reply_to_note t) = prompt t).
  { unfold reply_to_note. destruct (reply t) as [[[m j] []]|]; try done. destruct (bool_decide _); by destruct t. }
  destruct (reply_to_note t). destruct (negb _ && _); exact H.
Qed.
Lemma take_message_keeps res i m t : key (take_message res i m t) = key t /\ prompt (take_message res i m t) = prompt t.
Proof. destruct m; cbn; [by destruct t|apply addAssistant_keeps|by destruct t|destruct (isPromptCustom _); by destruct t|by destruct t]. Qed.

(** Whether a message opens a turn, and whether the run is settled after it. *)
Definition opens (settled open : bool) (m : Message) : bool :=
  match m with
  | User _ _ => true
  | Custom ty _ _ => if isPromptCustom ty && settled then negb open || opensTurn ty else negb open
  | _ => negb open
  end.
Definition settled_after (settled : bool) (m : Message) : bool :=
  match m with User _ _ => false | Custom ty _ _ => if isPromptCustom ty && settled then false else settled | _ => settles m settled end.
Definition is_open (b : Builder) : bool := match b_current b with Some _ => true | None => false end.

(** One message: what it does to the keys and the prompts. *)
Lemma add_message_keys times res b i m :
  map key (turns_of (add_message times res b (i, m))) = map key (turns_of b) ++ (if opens (b_settled b) (is_open b) m then [turn_key times i] else [])
  /\ omap prompt (turns_of (add_message times res b (i, m))) = omap prompt (turns_of b) ++ (if is_user m then [i] else [])
  /\ b_settled (add_message times res b (i, m)) = settled_after (b_settled b) m /\ is_open (add_message times res b (i, m)) = true.
Proof.
  assert (Hrun : forall t, b_current b = Some t -> forall s,
    map key (turns_of (mkBuilder (b_done b) (Some (on_run (take_message res i m) t)) s)) = map key (turns_of b) ++ []
    /\ omap prompt (turns_of (mkBuilder (b_done b) (Some (on_run (take_message res i m) t)) s)) = omap prompt (turns_of b) ++ []).
  { intros t Hb s. unfold turns_of. rewrite Hb. cbn. rewrite !map_app, !omap_app, !app_nil_r. cbn.
    rewrite key_on_run, prompt_on_run; [done|intros r; apply take_message_keeps..]. }
  assert (Hstart : forall t s, map key (turns_of (mkBuilder (turns_of b) (Some t) s)) = map key (turns_of b) ++ [key t]
    /\ omap prompt (turns_of (mkBuilder (turns_of b) (Some t) s)) = omap prompt (turns_of b) ++ omap prompt [t]).
  { intros t s. unfold turns_of at 1 3. cbn. by rewrite map_app, omap_app. }
  assert (Hfirst : b_current b = None -> is_user m = false -> forall s,
    map key (turns_of (mkBuilder (b_done b) (Some (take_message res i m (openTurn (turn_key times i) (timestamp_of m)))) s)) = map key (turns_of b) ++ [turn_key times i]
    /\ omap prompt (turns_of (mkBuilder (b_done b) (Some (take_message res i m (openTurn (turn_key times i) (timestamp_of m)))) s)) = omap prompt (turns_of b) ++ []).
  { intros Hb _ s. unfold turns_of. rewrite Hb. cbn. rewrite !map_app, !omap_app, !app_nil_r. cbn.
    destruct (take_message_keeps res i m (openTurn (turn_key times i) (timestamp_of m))) as [-> Hp]. cbn in Hp. by rewrite Hp, app_nil_r. }
  unfold add_message, opens, settled_after, is_open. destruct m; cbn [is_user settles].
  - destruct (Hstart (with_prompt (Some i) (openTurn (turn_key times i) (timestamp_of (User content timestamp)))) false) as [-> ->]. by split_and!.
  - destruct (b_current b) as [t|] eqn:Hb; [destruct (Hrun t eq_refl (negb (bool_decide (stopReason = ToolUse)))) as [-> ->]|destruct (Hfirst eq_refl eq_refl (negb (bool_decide (stopReason = ToolUse)))) as [-> ->]]; by split_and!.
  - destruct (b_current b) as [t|] eqn:Hb; [destruct (Hrun t eq_refl (b_settled b)) as [-> ->]|destruct (Hfirst eq_refl eq_refl (b_settled b)) as [-> ->]]; by split_and!.
  - destruct (b_current b) as [t|] eqn:Hb; cbn [negb orb].
    + destruct (isPromptCustom customType && b_settled b); [destruct (opensTurn customType)|].
      * destruct (Hstart (with_trigger (Some i) (openTurn (turn_key times i) (timestamp_of (Custom customType content timestamp)))) false) as [-> ->]. by split_and!.
      * unfold turns_of. rewrite Hb. cbn. rewrite !map_app, !omap_app, !app_nil_r. by destruct t; auto.
      * destruct (Hrun t eq_refl (b_settled b)) as [-> ->]. by split_and!.
    + destruct (isPromptCustom customType && b_settled b).
      * destruct (Hstart (with_trigger (Some i) (openTurn (turn_key times i) (timestamp_of (Custom customType content timestamp)))) false) as [-> ->]. by split_and!.
      * destruct (Hfirst eq_refl eq_refl (b_settled b)) as [-> ->]. by split_and!.
  - destruct (b_current b) as [t|] eqn:Hb; [destruct (Hrun t eq_refl (b_settled b)) as [-> ->]|destruct (Hfirst eq_refl eq_refl (b_settled b)) as [-> ->]]; by split_and!.
Qed.

Lemma build_prompts times res l b :
  omap prompt (turns_of (fold_left (add_message times res) l b)) = omap prompt (turns_of b) ++ user_indices l.
Proof.
  revert b. induction l as [|[i m] l IH]; intros b; cbn [fold_left]; [by rewrite app_nil_r|].
  rewrite IH. destruct (add_message_keys times res b i m) as (_ & -> & _). rewrite <- app_assoc. f_equal. cbn. by destruct (is_user m).
Qed.

(** the prompts of a thread's turns are the owner's messages, each once and in their order: no message of the
    owner is folded into another turn, and no other message is shown as one. *)
Theorem prompts_are_the_owners_messages ms : omap prompt (buildTurns ms) = user_indices (imap pair ms).
Proof. unfold buildTurns, build. by rewrite build_prompts. Qed.

(** ** An older page in front *)

(** The keys of a run of messages, from their own keys and the state before them. *)
Fixpoint keys_from (settled open : bool) (l : list (string * Message)) : list string :=
  match l with
  | [] => []
  | (k, m) :: l => (if opens settled open m then [k] else []) ++ keys_from (settled_after settled m) true l
  end.
Lemma build_keys times res l b :
  map key (turns_of (fold_left (add_message times res) l b))
  = map key (turns_of b) ++ keys_from (b_settled b) (is_open b) (map (fun im => (turn_key times im.1, im.2)) l).
Proof.
  revert b. induction l as [|[i m] l IH]; intros b; cbn [fold_left]; [by rewrite app_nil_r|].
  rewrite IH. destruct (add_message_keys times res b i m) as (-> & _ & -> & ->). by rewrite <- app_assoc.
Qed.
Lemma buildTurns_keys ms : map key (buildTurns ms) = keys_from true false (map (fun im => (turn_key (map timestamp_of ms) im.1, im.2)) (imap pair ms)).
Proof. unfold buildTurns, build. by rewrite build_keys. Qed.

Lemma keys_from_app l r s o : exists s' o', keys_from s o (l ++ r) = keys_from s o l ++ keys_from s' o' r.
Proof.
  revert s o. induction l as [|[k m] l IH]; intros s o; cbn; [by exists s, o|].
  destruct (IH (settled_after s m) true) as (s' & o' & ->). exists s', o'. by rewrite app_assoc.
Qed.

Lemma turn_key_prefix times more i : (i < length times)%nat -> turn_key (times ++ more) i = turn_key times i.
Proof. intros Hi. unfold turn_key, messageKey. rewrite app_nth1 by done. by rewrite take_app_le by lia. Qed.

(** a page that opens with a message of the owner and splits no timestamp keeps every turn and its key when the
    older messages load in front of it: their turns come before it and nothing else changes its list. *)
Theorem turns_keep_their_keys older page m rest : page = m :: rest -> is_user m = true ->
  splits_none (map timestamp_of older) (map timestamp_of page) ->
  map key (buildTurns (older ++ page)) = map key (buildTurns older) ++ map key (buildTurns page).
Proof.
  intros Hp Hu Hs. rewrite !buildTurns_keys, imap_app, !map_app.
  match goal with |- keys_from _ _ (?l ++ ?r) = _ => destruct (keys_from_app l r true false) as (s & o & ->) end. f_equal.
  - f_equal. apply list_eq. intros i. rewrite !list_lookup_fmap, !list_lookup_imap. destruct (older !! i) as [x|] eqn:E; [|done]. cbn.
    do 2 f_equal. apply turn_key_prefix. rewrite length_map. by eapply lookup_lt_Some.
  - assert (Hk : map (fun im => (turn_key (map timestamp_of older ++ map timestamp_of page) im.1, im.2)) (imap (fun n => pair (length older + n)%nat) page)
                 = map (fun im => (turn_key (map timestamp_of page) im.1, im.2)) (imap pair page)).
    { apply list_eq. intros i. rewrite !list_lookup_fmap, !list_lookup_imap. destruct (page !! i) as [x|] eqn:E; [|done]. cbn. do 2 f_equal.
      unfold turn_key. rewrite <- (length_map timestamp_of older). rewrite key_in_front; [done|done|]. rewrite length_map. by eapply lookup_lt_Some. }
    rewrite Hk, Hp. cbn. by destruct m.
Qed.

(** ** The agent's texts *)

Fixpoint shown_item (w : WorkItem) : list (nat * string) :=
  match w with
  | Note s i => [(i, s)]
  | Exchange (mkTurn _ _ _ ws r _ _ _ _) _ =>
      concat (map shown_item ws) ++ match r with Some (m, i, _) => if bool_decide (text_of m = "") then [] else [(i, text_of m)] | None => [] end
  | _ => []
  end.
Definition shown_work (ws : list WorkItem) : list (nat * string) := concat (map shown_item ws).
Definition shown_reply (t : Turn) : list (nat * string) :=
  match reply t with Some (m, i, _) => if bool_decide (text_of m = "") then [] else [(i, text_of m)] | None => [] end.
(** The texts of the agent on a turn, with the messages they are of: its notes, its reply and its exchanges'. *)
Definition shown (t : Turn) : list (nat * string) := shown_work (work t) ++ shown_reply t.
Definition shown_turns (ts : list Turn) : list (nat * string) := concat (map shown ts).

(** The texts of a message: each text of a call for tools, or the whole text of a reply. *)
Definition texts_of (i : nat) (m : Message) : list (nat * string) :=
  match m with
  | Assistant ps ToolUse _ => omap (fun p => match p with TextPart s => if bool_decide (trim s = "") then None else Some (i, trim s) | _ => None end) ps
  | Assistant _ _ _ => if bool_decide (text_of m = "") then [] else [(i, text_of m)]
  | _ => []
  end.

Lemma shown_exchange e i : shown_item (Exchange e i) = shown e.
Proof. by destruct e. Qed.
Lemma shown_work_app a b : shown_work (a ++ b) = shown_work a ++ shown_work b.
Proof. unfold shown_work. by rewrite map_app, concat_app. Qed.
Lemma shown_push ws t : shown (push_work ws t) ≡ₚ shown t ++ shown_work ws.
Proof.
  destruct t as [k p g w r f s e lv]. unfold shown, shown_reply, push_work. cbn [work with_work reply]. rewrite shown_work_app, <- !app_assoc.
  by rewrite (Permutation_app_comm (shown_work ws)).
Qed.
Lemma shown_until a t : shown (until a t) = shown t.
Proof. by destruct t. Qed.

(** A reply that is still streaming is replaced; one that is not is kept as a note. *)
Definition quiet (t : Turn) : Prop := match reply t with Some (_, _, l) => l = false | None => True end.

Lemma shown_reply_to_note t : quiet t -> shown (reply_to_note t) ≡ₚ shown t /\ reply (reply_to_note t) = None.
Proof.
  unfold quiet, reply_to_note. intros Hq. destruct t as [k p g ws [[[m i] l]|] f s e lv]; cbn in *; [subst l|done].
  case_bool_decide as Ht; (split; [|done]); unfold shown, shown_reply, push_work; cbn [work with_work with_reply reply].
  - rewrite ?bool_decide_true by done. done.
  - rewrite ?bool_decide_false by done. rewrite shown_work_app. by rewrite app_nil_r.
Qed.

Lemma shown_parts results i ps n : shown_work (concat (imap (fun j => part_work results true i (n + j)%nat) ps)) =
  omap (fun p => match p with TextPart s => if bool_decide (trim s = "") then None else Some (i, trim s) | _ => None end) ps.
Proof.
  revert n. induction ps as [|p ps IH]; intros n; [done|]. cbn [imap concat]. rewrite shown_work_app.
  rewrite (imap_ext _ (fun j => part_work results true i (S n + j)%nat)) by (intros j x _; cbn; by rewrite Nat.add_succ_r).
  rewrite IH. destruct p as [s|s|id nm|u]; cbn; [by case_bool_decide|by case_bool_decide|done|done].
Qed.
Lemma shown_parts_none results i ps n : shown_work (concat (imap (fun j => part_work results false i (n + j)%nat) ps)) = [].
Proof.
  revert n. induction ps as [|p ps IH]; intros n; [done|]. cbn [imap concat]. rewrite shown_work_app.
  rewrite (imap_ext _ (fun j => part_work results false i (S n + j)%nat)) by (intros j x _; cbn; by rewrite Nat.add_succ_r).
  rewrite IH. destruct p as [s|s|id nm|u]; cbn; [done|by case_bool_decide|done|done].
Qed.

Lemma addAssistant_shows results i ps stop at_ t : quiet t ->
  shown (addAssistant results false i ps stop at_ t) ≡ₚ shown t ++ texts_of i (Assistant ps stop at_) /\ quiet (addAssistant results false i ps stop at_ t).
Proof.
  intros Hq. unfold addAssistant. cbn [negb andb orb].
  destruct (failed_stop stop && _ && _ && _) eqn:Hf.
  - rewrite shown_until. destruct t as [k p g ws r f s e lv]. split; [|exact Hq].
    repeat (apply andb_true_iff in Hf as [Hf ?]). assert (texts_of i (Assistant ps stop at_) = []) as ->; [|by rewrite app_nil_r].
    unfold texts_of. destruct stop; try done; match goal with X : bool_decide (text_of _ = "") = true |- _ => by rewrite X end.
  - clear Hf. destruct (shown_reply_to_note t Hq) as [Hs Hr]. set (u := reply_to_note t) in *.
    destruct (decide (stop = ToolUse)) as [->|Hstop].
    + rewrite bool_decide_true by done. cbn [failed_stop negb andb orb]. rewrite shown_until, shown_push, Hs. split.
      * apply Permutation_app_head, reflexive_eq. exact (shown_parts results i ps 0).
      * unfold quiet, u in *. destruct (reply_to_note t). cbn in *. by rewrite Hr.
    + rewrite bool_decide_false by done. cbn [negb andb orb]. rewrite orb_false_r.
      assert (Hp : shown (push_work (parts_work results false i ps) u) ≡ₚ shown t).
      { rewrite shown_push, Hs. assert (shown_work (parts_work results false i ps) = []) as -> by exact (shown_parts_none results i ps 0). by rewrite app_nil_r. }
      assert (Hpr : reply (push_work (parts_work results false i ps) u) = None) by (clear -Hr; by destruct u).
      set (v := push_work _ u) in *. assert (Ht : texts_of i (Assistant ps stop at_) = if bool_decide (text_of (Assistant ps stop at_) = "") then [] else [(i, text_of (Assistant ps stop at_))]) by by destruct stop.
      rewrite Ht. rewrite shown_until. clearbody v. destruct v as [k p g ws r f s e lv]. cbn in Hpr. subst r.
      unfold shown in Hp at 1. cbn in Hp. rewrite app_nil_r in Hp.
      destruct (bool_decide_reflect (text_of (Assistant ps stop at_) = "")) as [E|E]; cbn [negb orb].
      * destruct (failed_stop stop); cbn; (split; [|done]); unfold shown, shown_reply; cbn; rewrite ?bool_decide_true by done; by rewrite !app_nil_r.
      * split; [|done]. unfold shown, shown_reply. cbn. rewrite bool_decide_false by done. by rewrite Hp.
Qed.

Lemma on_last_exchange_Some f ws ws' : on_last_exchange f ws = Some ws' ->
  exists l e i r, ws = l ++ Exchange e i :: r /\ ws' = l ++ Exchange (f e) i :: r /\ existsb is_exchange r = false.
Proof.
  assert (Hnone : forall ws, on_last_exchange f ws = None -> existsb is_exchange ws = false).
  { clear. induction ws as [|w ws IH]; cbn; [done|]. destruct (on_last_exchange f ws) eqn:E; [done|]. rewrite IH by done. by destruct w. }
  revert ws'. induction ws as [|w ws IH]; intros ws'; cbn; [done|]. destruct (on_last_exchange f ws) as [r|] eqn:E.
  - intros [= <-]. destruct (IH _ eq_refl) as (l & e & i & r' & -> & -> & Hr). by exists (w :: l), e, i, r'.
  - destruct w; try done. intros [= <-]. exists [], turn, messageIndex, ws. split_and!; [done..|]. by apply Hnone.
Qed.
Lemma on_last_exchange_None f ws : on_last_exchange f ws = None <-> existsb is_exchange ws = false.
Proof.
  induction ws as [|w ws IH]; cbn; [done|]. destruct (on_last_exchange f ws) eqn:E.
  - split; [done|]. destruct IH as [_ IH]. destruct (existsb is_exchange ws); [by rewrite orb_true_r|by specialize (IH eq_refl)].
  - rewrite (proj1 IH eq_refl). by destruct w.
Qed.
Lemma no_exchange ws : existsb is_exchange ws = false -> omap (fun w => match w with Exchange e _ => Some e | _ => None end) ws = [].
Proof. induction ws as [|w ws IH]; cbn; [done|]. intros [Hw Hws]%orb_false_iff. destruct w; try done; by apply IH. Qed.

Lemma currentRun_on_run f t : (forall r, existsb is_exchange (work r) = false -> existsb is_exchange (work (f r)) = false) -> currentRun (on_run f t) = f (currentRun t).
Proof.
  intros Hf. unfold on_run. destruct (on_last_exchange f (work t)) as [ws|] eqn:E.
  - destruct (on_last_exchange_Some _ _ _ E) as (l & e & i & r & Hw & -> & Hr). destruct t as [k p g w rp fl s en lv]. cbn in Hw. subst w.
    unfold currentRun, lastExchange. cbn [work with_work]. rewrite !omap_app. cbn. rewrite (no_exchange r Hr), !last_snoc. done.
  - apply on_last_exchange_None in E. unfold currentRun, lastExchange. rewrite (no_exchange _ E), (no_exchange _ (Hf t E)). done.
Qed.

Lemma shown_on_run f t X : quiet (currentRun t) -> (forall r, existsb is_exchange (work r) = false -> existsb is_exchange (work (f r)) = false) ->
  (forall r, quiet r -> shown (f r) ≡ₚ shown r ++ X /\ quiet (f r)) -> shown (on_run f t) ≡ₚ shown t ++ X /\ quiet (currentRun (on_run f t)).
Proof.
  intros Hq Hex Hf. split; [|rewrite currentRun_on_run by done; by apply Hf]. unfold on_run.
  destruct (on_last_exchange f (work t)) as [ws|] eqn:E.
  - destruct (on_last_exchange_Some _ _ _ E) as (l & e & i & r & Hw & -> & Hr).
    assert (Hc : currentRun t = e) by (unfold currentRun, lastExchange; rewrite Hw, omap_app; cbn; by rewrite (no_exchange r Hr), last_snoc).
    rewrite Hc in Hq. destruct (Hf e Hq) as [Hs _]. destruct t as [k p g w rp fl s en lv]. cbn in Hw. subst w.
    unfold shown at 1 2. cbn [work with_work reply]. unfold shown_reply. cbn [reply with_work]. rewrite !shown_work_app.
    change (shown_work (Exchange (f e) i :: r)) with (shown_item (Exchange (f e) i) ++ shown_work r).
    change (shown_work (Exchange e i :: r)) with (shown_item (Exchange e i) ++ shown_work r).
    rewrite !shown_exchange, Hs, <- !app_assoc. do 2 apply Permutation_app_head. rewrite (Permutation_app_comm X). by rewrite <- app_assoc.
  - apply Hf. apply on_last_exchange_None in E. unfold currentRun, lastExchange in Hq. by rewrite (no_exchange _ E) in Hq.
Qed.

Lemma parts_no_exchange results b i ps n : existsb is_exchange (concat (imap (fun j => part_work results b i (n + j)%nat) ps)) = false.
Proof.
  revert n. induction ps as [|p ps IH]; intros n; [done|]. cbn [imap concat]. rewrite existsb_app.
  rewrite (imap_ext _ (fun j => part_work results b i (S n + j)%nat)) by (intros j x _; cbn; by rewrite Nat.add_succ_r).
  rewrite IH, orb_false_r. destruct p; cbn; repeat case_match; done.
Qed.
Lemma take_message_no_exchange results i m r : existsb is_exchange (work r) = false -> existsb is_exchange (work (take_message results i m r)) = false.
Proof.
  intros Hr. destruct r as [k p g w rp fl s en lv]. cbn in Hr. destruct m; cbn; try (rewrite existsb_app, Hr; done); try done.
  - unfold addAssistant. destruct (failed_stop stopReason && _ && _ && _); [done|].
    assert (Hu : existsb is_exchange (work (reply_to_note (mkTurn k p g w rp fl s en lv))) = false).
    { unfold reply_to_note. cbn. destruct rp as [[[mm j] []]|]; try done. destruct (bool_decide _); cbn; [done|]. by rewrite existsb_app, Hr. }
    destruct (reply_to_note _) as [k' p' g' w' r' f' s' e' l']. cbn in Hu.
    destruct (negb _ && _); cbn; rewrite existsb_app, Hu; exact (parts_no_exchange results _ i content 0).
  - destruct (isPromptCustom customType); cbn; by rewrite existsb_app, Hr.
Qed.

Lemma take_message_shows results i m r : is_user m = false -> quiet r ->
  shown (take_message results i m r) ≡ₚ shown r ++ texts_of i m /\ quiet (take_message results i m r).
Proof.
  intros Hu Hq. destruct m; try done; cbn [take_message texts_of is_trigger].
  - by apply addAssistant_shows.
  - rewrite shown_until, app_nil_r. split; [done|by destruct r].
  - destruct (isPromptCustom customType); (split; [rewrite shown_push; cbn; by rewrite !app_nil_r|by destruct r]).
  - split; [rewrite shown_push; cbn; by rewrite !app_nil_r|by destruct r].
Qed.

Definition quiet_builder (b : Builder) : Prop := forall t, b_current b = Some t -> quiet (currentRun t).
Lemma shown_turns_app a b : shown_turns (a ++ b) = shown_turns a ++ shown_turns b.
Proof. unfold shown_turns. by rewrite map_app, concat_app. Qed.

Lemma shown_turns_one d t : shown_turns (d ++ [t]) = shown_turns d ++ shown t.
Proof. rewrite shown_turns_app. unfold shown_turns at 2. cbn. by rewrite app_nil_r. Qed.
Lemma turns_some d t s : turns_of (mkBuilder d (Some t) s) = d ++ [t].
Proof. done. Qed.
Lemma turns_current b t : b_current b = Some t -> turns_of b = b_done b ++ [t].
Proof. unfold turns_of. by intros ->. Qed.
Lemma turns_none b : b_current b = None -> turns_of b = b_done b.
Proof. unfold turns_of. intros ->. apply app_nil_r. Qed.

Lemma add_message_shows times results b i m : quiet_builder b ->
  shown_turns (turns_of (add_message times results b (i, m))) ≡ₚ shown_turns (turns_of b) ++ texts_of i m
  /\ quiet_builder (add_message times results b (i, m)).
Proof.
  intros Hq.
  assert (Hstart : forall t s, shown t = [] -> quiet (currentRun t) ->
    shown_turns (turns_of (mkBuilder (turns_of b) (Some t) s)) ≡ₚ shown_turns (turns_of b) ++ [] /\ quiet_builder (mkBuilder (turns_of b) (Some t) s)).
  { intros t s Hs Hqt. rewrite turns_some, shown_turns_one, Hs. split; [done|]. by intros t' [= <-]. }
  assert (Hrun : is_user m = false -> forall t s, b_current b = Some t ->
    shown_turns (turns_of (mkBuilder (b_done b) (Some (on_run (take_message results i m) t)) s)) ≡ₚ shown_turns (turns_of b) ++ texts_of i m
    /\ quiet_builder (mkBuilder (b_done b) (Some (on_run (take_message results i m) t)) s)).
  { intros Hu t s Hb. destruct (shown_on_run (take_message results i m) t (texts_of i m) (Hq t Hb) (take_message_no_exchange results i m)) as [Hs Hqt].
    - intros r. by apply take_message_shows.
    - split; [|by intros t' [= <-]]. by rewrite turns_some, (turns_current b t Hb), !shown_turns_one, Hs, app_assoc. }
  assert (Hfirst : is_user m = false -> forall t s, b_current b = None -> shown t = [] -> existsb is_exchange (work t) = false -> quiet t ->
    shown_turns (turns_of (mkBuilder (b_done b) (Some (take_message results i m t)) s)) ≡ₚ shown_turns (turns_of b) ++ texts_of i m
    /\ quiet_builder (mkBuilder (b_done b) (Some (take_message results i m t)) s)).
  { intros Hu t s Hb Hs Hx Hqt. destruct (take_message_shows results i m t Hu Hqt) as [Hs' Hq']. split.
    - by rewrite turns_some, (turns_none b Hb), shown_turns_one, Hs', Hs.
    - intros t' [= <-]. unfold currentRun, lastExchange. rewrite (no_exchange _ (take_message_no_exchange results i m t Hx)). exact Hq'. }
  unfold add_message. destruct m; cbn [texts_of settles].
  - by apply Hstart.
  - destruct (b_current b) as [t|]; [by apply Hrun|by apply Hfirst].
  - destruct (b_current b) as [t|]; [by apply Hrun|by apply Hfirst].
  - destruct (b_current b) as [t|] eqn:Hb; destruct (isPromptCustom customType && b_settled b); [destruct (opensTurn customType)|..].
    + by apply Hstart.
    + split.
      * by rewrite turns_some, (turns_current b t Hb), !shown_turns_one, shown_push, app_assoc.
      * intros t' [= <-]. unfold currentRun, lastExchange. destruct t as [k p g w rp fl st en lv]. cbn [work with_work push_work]. rewrite omap_app. match goal with |- context [omap ?f [Exchange ?e ?j]] => change (omap f [Exchange e j]) with [e] end. by rewrite last_snoc.
    + by apply Hrun.
    + by apply Hstart.
    + by apply Hfirst.
  - destruct (b_current b) as [t|]; [by apply Hrun|by apply Hfirst].
Qed.

Lemma build_shows times results l b : quiet_builder b ->
  shown_turns (turns_of (fold_left (add_message times results) l b)) ≡ₚ shown_turns (turns_of b) ++ concat (map (fun im => texts_of im.1 im.2) l).
Proof.
  revert b. induction l as [|[i m] l IH]; intros b Hq; cbn [fold_left map concat fst snd]; [by rewrite app_nil_r|].
  destruct (add_message_shows times results b i m Hq) as [Hs Hq']. by rewrite (IH _ Hq'), Hs, <- app_assoc.
Qed.

(** C26: the turns of a thread show every text of the agent exactly once: each text of a call for tools as a note, and
    the whole text of any other reply as a reply or, once a later reply has its place, as a note; a failed call with
    no text takes nothing away, and messages that arrive later hide nothing. *)
Theorem every_text_is_shown_once ms : shown_turns (buildTurns ms) ≡ₚ concat (imap texts_of ms).
Proof.
  unfold buildTurns, build. rewrite build_shows by done. cbn [turns_of b_done b_current app shown_turns map concat].
  assert (H : forall n, map (fun im => texts_of im.1 im.2) (imap (fun i => pair (n + i)%nat) ms) = imap (fun i => texts_of (n + i)%nat) ms).
  { induction ms as [|m ms IH]; intros n; [done|]. cbn. f_equal.
    rewrite (imap_ext _ (fun i => pair (S n + i)%nat)) by (intros j x _; cbn; by rewrite Nat.add_succ_r). rewrite IH.
    apply imap_ext. intros j x _. cbn. by rewrite Nat.add_succ_r. }
  apply reflexive_eq. f_equal. exact (H 0%nat).
Qed.

(** ** A thread *)

Definition sample_thread : list Message :=
  [User (Plain "hello") 1; Assistant [TextPart "looking"; ToolCallPart "c1" "bash"] ToolUse 2; ToolResult "c1" (Some 30) 2;
   Assistant [TextPart "done"] Stop 3; Custom "agent_message" (Plain "[agent-message from a] hi") 4; Assistant [TextPart "noted"] Stop 5].
Definition sample_next : list Message := [User (Plain "more") 6; Assistant [TextPart "yes"] Stop 6].

Example sample_texts_shown : shown_turns (buildTurns sample_thread) = [(1, "looking"); (5, "noted"); (3, "done")]%nat.
Proof. by vm_compute. Qed.

Lemma key_finds_its_message_witness : keyIndex [1; 1; 2] (messageKey [1; 1; 2] 1) = Some 1%nat.
Proof.
  apply (key_finds_its_message [1; 1; 2] 1); [|cbn; lia].
  intros i Hi. cbn in Hi. destruct i as [|[|i]]; cbn; [lia|lia|lia].
Defined.

Lemma cursor_roundtrip_witness : parseCursor (formatCursor (FileCursor 1024 "a-b_9")) = Some (FileCursor 1024 "a-b_9").
Proof. apply cursor_roundtrip. split_and!; [done|done|done|cbn; lia|by vm_compute]. Defined.

Lemma turns_keep_their_keys_witness :
  map key (buildTurns (sample_thread ++ sample_next)) = map key (buildTurns sample_thread) ++ map key (buildTurns sample_next)
  /\ map key (buildTurns sample_next) = ["turn-6.0"].
Proof.
  split; [|by vm_compute]. apply (turns_keep_their_keys sample_thread sample_next (User (Plain "more") 6) [Assistant [TextPart "yes"] Stop 6]); [done|done|].
  intros t Ht. cbn in Ht. injection Ht as <-. done.
Defined.
