(* ===== verification/QueueWatch.v ===== *)
(** * Following a run's place in the turn queue

    [apps/chat/server/queue.ts], class [QueueWatch]: a conversation followed from an input on, its place read every
    3 s until the run works or ends.  An entry is an object, so [objects] holds the entries by name and [followed]
    the name each conversation has now: a read that awaits pi-host's ticket keeps the name it started with.  [read]
    is two steps, up to its await and after it, and the steps say which pending timer fires and which read is
    answered; [trace] is what the pages ([Emitted]) and the listeners ([Heard]) are told.  The log is outside, and listeners
    do not throw. *)

From S2P Require Import Prelude.
#[local] Open Scope string_scope.
#[local] Open Scope list_scope.
#[local] Open Scope Z_scope.

Definition READ_EVERY_MS : Z := 3000.
Definition FOLLOW_MS : Z := 60 * 60000.
Definition NONE_READS : nat := 3.

Inductive TurnPlace := Working (kind : string) | Queued (position total : Z) | Marked | NoPlace.
#[export] Instance TurnPlace_eq : EqDecision TurnPlace.
Proof. solve_decision. Defined.

Definition waitingPlace (p : option TurnPlace) : option TurnPlace :=
  match p with Some (Queued _ _ | Marked) => p | _ => None end.

(** [place?.state === "working"]. *)
Definition is_working (p : option TurnPlace) : bool := match p with Some (Working _) => true | _ => false end.

(** [f_of] is the conversation an entry was made for, which nothing reads. *)
Record Followed := mkFollowed { f_of : string; f_place : option TurnPlace; f_listeners : list nat; f_timer : option nat; f_until : Z; f_nones : nat }.
Inductive Told := Emitted (id : string) (place : option TurnPlace) | Heard (listener : nat) (place : option TurnPlace).

Record Watch := mkWatch { objects : gmap nat Followed; followed : list (string * nat); next : nat;
  timers : list (nat * string); reads : list (nat * string); trace : list Told }.
Definition new_watch : Watch := mkWatch ∅ [] 0 [] [] [].

Definition entry_of (w : Watch) (e : nat) : Followed := default (mkFollowed "" None [] None 0 0) (objects w !! e).
Definition with_entry (e : nat) (f : Followed) (w : Watch) : Watch :=
  mkWatch (<[e := f]> (objects w)) (followed w) (next w) (timers w) (reads w) (trace w).

(** [place(id)]. *)
Definition place (w : Watch) (id : string) : option TurnPlace :=
  match OMap.get id (followed w) with Some e => f_place (entry_of w e) | None => None end.

Definition set_place (id : string) (e : nat) (p : option TurnPlace) (w : Watch) : Watch :=
  let f := entry_of w e in
  if bool_decide (p = f_place f) then w
  else mkWatch (<[e := mkFollowed (f_of f) p (f_listeners f) (f_timer f) (f_until f) (f_nones f)]> (objects w)) (followed w) (next w) (timers w) (reads w)
         (trace w ++ Emitted id p :: map (fun l => Heard l p) (f_listeners f)).

(** [clearTimeout(entry.timer)]. *)
Definition clear_timer (f : Followed) (w : Watch) : Watch :=
  mkWatch (objects w) (followed w) (next w)
    (match f_timer f with Some t => List.filter (fun p => negb (bool_decide (p.1 = t))) (timers w) | None => timers w end) (reads w) (trace w).
Definition end_follow (id : string) (e : nat) (w : Watch) : Watch :=
  let w := set_place id e None (clear_timer (entry_of w e) w) in
  mkWatch (objects w) (OMap.del id (followed w)) (next w) (timers w) (reads w) (trace w).

(** [entry.timer = setTimeout(() => this.read(id))]. *)
Definition set_timer (id : string) (e : nat) (w : Watch) : Watch :=
  let f := entry_of w e in
  mkWatch (<[e := mkFollowed (f_of f) (f_place f) (f_listeners f) (Some (next w)) (f_until f) (f_nones f)]> (objects w)) (followed w) (S (next w))
    ((next w, id) :: timers w) (reads w) (trace w).

Definition add_listener (l : option nat) (ls : list nat) : list nat :=
  match l with Some l => if bool_decide (l ∈ ls) then ls else ls ++ [l] | None => ls end.

Definition follow (id : string) (first : option TurnPlace) (listener : option nat) (now : Z) (w : Watch) : Watch :=
  let '(e, w) := match OMap.get id (followed w) with
                 | Some e => (e, w)
                 | None => (next w, mkWatch (<[next w := mkFollowed id None [] None 0 0]> (objects w)) (OMap.set id (next w) (followed w)) (S (next w)) (timers w) (reads w) (trace w))
                 end in
  let f := entry_of w e in
  let w := with_entry e (mkFollowed (f_of f) (f_place f) (add_listener listener (f_listeners f)) (f_timer f) (now + FOLLOW_MS) (f_nones f)) w in
  let w := set_place id e (waitingPlace first) w in
  if is_working first then end_follow id e w
  else match f_timer (entry_of w e) with Some _ => w | None => set_timer id e w end.

(** A timer fires: [read] up to its await. *)
Definition fire (t : nat) (id : string) (w : Watch) : Watch :=
  let w := mkWatch (objects w) (followed w) (next w) (List.filter (fun p => negb (bool_decide (p = (t, id)))) (timers w)) (reads w) (trace w) in
  match OMap.get id (followed w) with
  | None => w
  | Some e =>
      let f := entry_of w e in
      let w := with_entry e (mkFollowed (f_of f) (f_place f) (f_listeners f) None (f_until f) (f_nones f)) w in
      mkWatch (objects w) (followed w) (next w) (timers w) ((e, id) :: reads w) (trace w)
  end.

(** The first read [(e, id)], gone. *)
Fixpoint drop_read (r : nat * string) (l : list (nat * string)) : list (nat * string) :=
  match l with [] => [] | x :: l => if bool_decide (x = r) then l else x :: drop_read r l end.

(** [read] after its await: pi-host's ticket, [None] inside for no ticket, or a throw; [working] is the conversation's status. *)
Definition answered (e : nat) (id : string) (ticket : result (option TurnPlace)) (working : bool) (now : Z) (w : Watch) : Watch :=
  let w := mkWatch (objects w) (followed w) (next w) (timers w) (drop_read (e, id) (reads w)) (trace w) in
  let again w := if bool_decide (OMap.get id (followed w) = Some e) then set_timer id e w else w in
  match ticket with
  | Throw _ => again w
  | Ok t =>
      let p := nullish t NoPlace in
      let f := entry_of w e in
      let nones := if bool_decide (p = NoPlace) && negb working then S (f_nones f) else O in
      let w := with_entry e (mkFollowed (f_of f) (f_place f) (f_listeners f) (f_timer f) (f_until f) nones) w in
      if is_working (Some p) || (NONE_READS <=? nones)%nat || (f_until f <? now) then end_follow id e w
      else again (set_place id e (waitingPlace (Some p)) w)
  end.

Definition stop (w : Watch) : Watch :=
  mkWatch (objects w) [] (next w)
    (List.filter (fun p => negb (existsb (fun ie => bool_decide (f_timer (entry_of w ie.2) = Some p.1)) (followed w))) (timers w)) (reads w) (trace w).

Inductive Event :=
| Follow (id : string) (first : option TurnPlace) (listener : option nat) (now : Z)
| Fire (t : nat) (id : string)
| Answer (e : nat) (id : string) (ticket : result (option TurnPlace)) (working : bool) (now : Z)
| Stop.
(** An event happens when its timer is pending or its read in flight. *)
Definition step (w : Watch) (ev : Event) : Watch :=
  match ev with
  | Follow id first l now => follow id first l now w
  | Fire t id => if bool_decide ((t, id) ∈ timers w) then fire t id w else w
  | Answer e id ticket working now => if bool_decide ((e, id) ∈ reads w) then answered e id ticket working now w else w
  | Stop => stop w
  end.
Definition steps (w : Watch) (evs : list Event) : Watch := fold_left step evs w.

(** The place a page that hears every [Emitted] shows. *)
Definition shown_by (id : string) (tr : list Told) : option TurnPlace :=
  fold_left (fun acc t => match t with Emitted i p => if bool_decide (i = id) then p else acc | Heard _ _ => acc end) tr None.

(** ** A followed conversation is polled *)

Definition polled (w : Watch) : Prop :=
  forall id e, OMap.get id (followed w) = Some e ->
  (exists t, f_timer (entry_of w e) = Some t /\ (t, id) ∈ timers w) \/ (e, id) ∈ reads w.
(** Entries and timers are named once, and a timer an entry names is of its conversation. *)
Record Named (w : Watch) : Prop := {
  nm_followed : forall id e, OMap.get id (followed w) = Some e -> exists f, objects w !! e = Some f /\ f_of f = id;
  nm_reads : forall e id, (e, id) ∈ reads w -> exists f, objects w !! e = Some f /\ f_of f = id;
  nm_objects : forall e f, objects w !! e = Some f -> (e < next w)%nat;
  nm_timer : forall e f t, objects w !! e = Some f -> f_timer f = Some t -> (t < next w)%nat /\ forall id, (t, id) ∈ timers w -> id = f_of f;
  nm_pending : forall t id, (t, id) ∈ timers w -> (t < next w)%nat }.

(** [polled] but for one entry. *)
Definition polled_but (x : nat) (w : Watch) : Prop :=
  forall id e, e <> x -> OMap.get id (followed w) = Some e -> (exists t, f_timer (entry_of w e) = Some t /\ (t, id) ∈ timers w) \/ (e, id) ∈ reads w.

(** The two differ in what no timer and no read depends on. *)
Definition similar (w w' : Watch) : Prop :=
  followed w' = followed w /\ next w' = next w /\ timers w' = timers w /\ reads w' = reads w
  /\ forall e, (fun f => (f_of f, f_timer f)) <$> objects w' !! e = (fun f => (f_of f, f_timer f)) <$> objects w !! e.

Lemma similar_entry w w' e f' : similar w w' -> objects w' !! e = Some f' -> exists f, objects w !! e = Some f /\ f_of f = f_of f' /\ f_timer f = f_timer f'.
Proof. intros (_ & _ & _ & _ & H) He. specialize (H e). rewrite He in H. destruct (objects w !! e) as [f|]; cbn in H; [|done]. exists f. by simplify_eq. Qed.
Lemma similar_sym w w' : similar w w' -> similar w' w.
Proof. intros (?&?&?&?&?). by split_and!. Qed.
Lemma similar_trans w w' w'' : similar w w' -> similar w' w'' -> similar w w''.
Proof. intros (F&N&T&R&H) (F2&N2&T2&R2&H2). repeat split; [congruence..|]. intros e. by rewrite H2. Qed.
Lemma similar_timer w w' e : similar w w' -> f_timer (entry_of w' e) = f_timer (entry_of w e).
Proof. intros (_ & _ & _ & _ & H). specialize (H e). unfold entry_of. destruct (objects w' !! e), (objects w !! e); cbn in *; naive_solver. Qed.

Lemma similar_named w w' : similar w w' -> Named w -> Named w'.
Proof.
  intros Hs [N1 N2 N3 N4 N5]. pose proof (similar_sym _ _ Hs) as Hs'. destruct (Hs) as (Hf & Hn & Ht & Hr & _). split.
  - intros id e. rewrite Hf. intros (f & He & Ho)%N1. destruct (similar_entry _ _ _ _ Hs' He) as (f' & ? & ? & _). exists f'. naive_solver.
  - intros e id. rewrite Hr. intros (f & He & Ho)%N2. destruct (similar_entry _ _ _ _ Hs' He) as (f' & ? & ? & _). exists f'. naive_solver.
  - intros e f' He. destruct (similar_entry _ _ _ _ Hs He) as (f & ? & _). rewrite Hn. by eapply N3.
  - intros e f' t He Hft. destruct (similar_entry _ _ _ _ Hs He) as (f & He' & Ho & Hto). rewrite Hn, Ht, <- Ho. apply (N4 e f t He'). congruence.
  - intros t id. rewrite Ht, Hn. apply N5.
Qed.
Lemma similar_polled w w' x : similar w w' -> polled_but x w -> polled_but x w'.
Proof.
  intros Hs Hp id e He Hg. rewrite (similar_timer _ _ _ Hs). destruct Hs as (Hf & _ & Ht & Hr & _). rewrite Hf in Hg. rewrite Ht, Hr. by apply Hp.
Qed.

Lemma entry_insert w e f e' : entry_of (with_entry e f w) e' = if decide (e' = e) then f else entry_of w e'.
Proof. unfold entry_of, with_entry. cbn. case_decide as H; [subst; by rewrite lookup_insert_eq|by rewrite lookup_insert_ne]. Qed.

Lemma similar_with_entry e f w g : objects w !! e = Some g -> f_of f = f_of g -> f_timer f = f_timer g -> similar w (with_entry e f w).
Proof.
  intros He Ho Ht. split_and!; try done. intros e'. cbn. destruct (decide (e' = e)) as [->|]; [|by rewrite lookup_insert_ne].
  rewrite lookup_insert_eq, He. cbn. congruence.
Qed.
Lemma similar_set_place id e p w g : objects w !! e = Some g -> similar w (set_place id e p w).
Proof.
  intros He. unfold set_place. case_bool_decide; [by split_and!|]. assert (Heq : entry_of w e = g) by (unfold entry_of; by rewrite He).
  split_and!; try done. cbn. intros e'. destruct (decide (e' = e)) as [->|]; [|by rewrite lookup_insert_ne]. rewrite lookup_insert_eq, He, Heq. done.
Qed.

Lemma named_set_timer id e w g : Named w -> objects w !! e = Some g -> f_of g = id -> Named (set_timer id e w).
Proof.
  intros [N1 N2 N3 N4 N5] He Ho. assert (Heq : entry_of w e = g) by (unfold entry_of; by rewrite He). unfold set_timer. rewrite Heq. split; cbn.
  - intros id' e' (f & Hf & Hid)%N1. destruct (decide (e' = e)) as [->|]; [rewrite lookup_insert_eq; eexists; split; [done|]; cbn; congruence|rewrite lookup_insert_ne by done; by exists f].
  - intros e' id' (f & Hf & Hid)%N2. destruct (decide (e' = e)) as [->|]; [rewrite lookup_insert_eq; eexists; split; [done|]; cbn; congruence|rewrite lookup_insert_ne by done; by exists f].
  - intros e' f' Hf'. destruct (decide (e' = e)) as [->|]; [specialize (N3 e g He); lia|]. rewrite lookup_insert_ne in Hf' by done. specialize (N3 _ _ Hf'). lia.
  - intros e' f' t Hf' Ht. destruct (decide (e' = e)) as [->|].
    + rewrite lookup_insert_eq in Hf'. injection Hf' as <-. cbn in *. injection Ht as <-. split; [lia|]. intros id'. rewrite elem_of_cons. intros [[= ->]|Hin]; [done|]. specialize (N5 _ _ Hin). lia.
    + rewrite lookup_insert_ne in Hf' by done. destruct (N4 _ _ _ Hf' Ht) as [Hlt Hall]. split; [lia|]. intros id'. rewrite elem_of_cons. intros [[= -> ->]|Hin]; [lia|by apply Hall].
  - intros t id'. rewrite elem_of_cons. intros [[= -> ->]|Hin]; [lia|]. specialize (N5 _ _ Hin). lia.
Qed.
Lemma polled_set_timer id e w : polled_but e w -> OMap.get id (followed w) = Some e -> (forall id', OMap.get id' (followed w) = Some e -> id' = id) -> polled (set_timer id e w).
Proof.
  intros Hp Hg Hone id' e' Hg'. unfold set_timer in *. cbn in *. destruct (decide (e' = e)) as [->|Hne].
  - left. exists (next w). unfold entry_of. cbn. rewrite lookup_insert_eq. cbn. rewrite (Hone id') by done. by split; [|left].
  - destruct (Hp id' e' Hne Hg') as [(t & Ht & Hin)|Hin]; [left; exists t|by right]. unfold entry_of in *. cbn. rewrite lookup_insert_ne by done. by split; [|right].
Qed.

Lemma one_entry w id id' e : Named w -> OMap.get id (followed w) = Some e -> OMap.get id' (followed w) = Some e -> id' = id.
Proof. intros N (f & Hf & <-)%(nm_followed _ N) (f' & Hf' & <-)%(nm_followed _ N). congruence. Qed.

(** Fewer timers and fewer followed conversations: what is left is named and polled. *)
Lemma named_fewer w fo ts rs : Named w -> (forall id e, OMap.get id fo = Some e -> OMap.get id (followed w) = Some e) ->
  (forall t id, (t, id) ∈ ts -> (t, id) ∈ timers w) -> (forall e id, (e, id) ∈ rs -> (e, id) ∈ reads w) ->
  Named (mkWatch (objects w) fo (next w) ts rs (trace w)).
Proof.
  intros [N1 N2 N3 N4 N5] Hf Ht Hr. split; cbn.
  - intros id e Hg. by apply N1, Hf.
  - intros e id Hin. by apply N2, Hr.
  - done.
  - intros e f t He Hft. destruct (N4 _ _ _ He Hft) as [Hlt Hall]. split; [done|]. intros id Hin. by apply Hall, Ht.
  - intros t id Hin. by eapply N5, Ht.
Qed.

Lemma get_del_Some id id' (m : list (string * nat)) e : OMap.get id (OMap.del id' m) = Some e -> id <> id' /\ OMap.get id m = Some e.
Proof. rewrite OMap.get_del. case_decide; [done|]. done. Qed.

(** Ending one follow keeps the others named and polled. *)
Lemma named_clear_timer f w : Named w -> Named (clear_timer f w).
Proof.
  intros N. unfold clear_timer. apply named_fewer; try done. intros t i. destruct (f_timer f); [|done].
  intros Hin%list_elem_of_In. apply List.filter_In in Hin as [Hin _]. by apply list_elem_of_In.
Qed.
Lemma end_follow_keeps id e w g : Named w -> objects w !! e = Some g -> f_of g = id -> polled_but e w ->
  Named (end_follow id e w) /\ polled (end_follow id e w).
Proof.
  intros N He Ho Hp. assert (Heq : entry_of w e = g) by (unfold entry_of; by rewrite He).
  pose proof (named_clear_timer (entry_of w e) w N) as Nv.
  assert (Hs : similar (clear_timer (entry_of w e) w) (set_place id e None (clear_timer (entry_of w e) w))) by (by apply (similar_set_place _ _ _ _ g)).
  unfold end_follow. set (u := set_place id e None (clear_timer (entry_of w e) w)) in *. split.
  - apply (named_fewer u); [by apply (similar_named _ _ Hs)|by intros i e' [_ ?]%get_del_Some|done|done].
  - intros id' e' [Hne Hg]%get_del_Some. destruct (Hs) as (Hf & _ & Ht & Hr & _). rewrite Hf in Hg. cbn in Hg.
    change (entry_of (mkWatch _ _ _ _ _ _) e') with (entry_of u e'). rewrite (similar_timer _ _ e' Hs). cbn [timers reads]. rewrite Ht, Hr.
    assert (Hne' : e' <> e). { intros ->. destruct (nm_followed _ N _ _ Hg) as (f & Hfe & Hof). congruence. }
    destruct (Hp id' e' Hne' Hg) as [(t & Hft & Hin)|Hin]; [left; exists t; split; [done|]|by right].
    unfold clear_timer. cbn [timers]. destruct (f_timer (entry_of w e)) as [t'|] eqn:Hte; [|done].
    apply list_elem_of_In, List.filter_In. split; [by apply list_elem_of_In|].
    cbn. apply negb_true_iff, bool_decide_eq_false. intros <-. rewrite Heq in Hte. destruct (nm_timer _ N e g t He Hte) as [_ Hall]. specialize (Hall _ Hin). congruence.
Qed.

Definition good (w : Watch) : Prop := Named w /\ polled w.

Lemma polled_but_all w e : polled w -> polled_but e w.
Proof. intros Hp id e' _. apply Hp. Qed.
(** An entry no conversation follows now leaves the rest as it is. *)
Lemma polled_but_unfollowed w e : polled_but e w -> (forall id, OMap.get id (followed w) <> Some e) -> polled w.
Proof. intros Hp Hn id e' Hg. apply Hp; [|done]. intros ->. by apply (Hn id). Qed.

(** The end of [follow] and of [read]: end the follow, or see that a timer is set. *)
Lemma set_timer_good id e w g : Named w -> objects w !! e = Some g -> f_of g = id -> OMap.get id (followed w) = Some e -> polled_but e w -> good (set_timer id e w).
Proof.
  intros N He Ho Hg Hp. split; [by apply (named_set_timer _ _ _ g)|]. apply polled_set_timer; [done..|].
  intros id' Hg'. symmetry. by apply (one_entry w _ _ e).
Qed.

Lemma stop_good w : Named w -> good (stop w).
Proof.
  intros N. split; [|by intros id e Hg]. apply named_fewer; try done.
  intros t i Hin%list_elem_of_In. apply List.filter_In in Hin as [Hin _]. by apply list_elem_of_In.
Qed.

Lemma similar_object w w' e g : similar w w' -> objects w !! e = Some g -> exists g', objects w' !! e = Some g' /\ f_of g' = f_of g /\ f_timer g' = f_timer g.
Proof. intros Hs He. destruct (similar_entry _ _ _ _ (similar_sym _ _ Hs) He) as (g' & ? & ? & ?). by exists g'. Qed.

Lemma fire_good t id w : good w -> good (fire t id w).
Proof.
  intros [N Hp]. unfold fire. set (l := List.filter _ (timers w)).
  assert (Hl : forall t' i, (t', i) ∈ l <-> (t', i) ∈ timers w /\ (t', i) <> (t, id)).
  { intros t' i. unfold l. rewrite !list_elem_of_In, List.filter_In, negb_true_iff, bool_decide_eq_false. done. }
  set (v := mkWatch (objects w) (followed w) (next w) l (reads w) (trace w)).
  assert (Nv : Named v) by (apply named_fewer; [done|done| |done]; by intros t' i [? _]%Hl).
  change (followed v) with (followed w). destruct (OMap.get id (followed w)) as [e|] eqn:He.
  - destruct (nm_followed _ N _ _ He) as (g & Hg & Ho). assert (Heq : entry_of w e = g) by (unfold entry_of; by rewrite Hg).
    change (entry_of v e) with (entry_of w e). rewrite Heq. destruct Nv as [N1 N2 N3 N4 N5]. split.
    + assert (Hin : forall e' i, (exists f, objects w !! e' = Some f /\ f_of f = i) ->
        exists f, <[e := mkFollowed (f_of g) (f_place g) (f_listeners g) None (f_until g) (f_nones g)]> (objects w) !! e' = Some f /\ f_of f = i).
      { intros e' i (f & Hf & Hid). destruct (decide (e' = e)) as [->|]; [rewrite lookup_insert_eq; eexists; split; [done|]; cbn; congruence|rewrite lookup_insert_ne by done; by exists f]. }
      split; cbn.
      * intros i e' Hg'. by apply Hin, N1.
      * intros e' i. rewrite elem_of_cons. intros [[= -> ->]|Hr]; [apply Hin; by exists g|by apply Hin, N2].
      * intros e' f Hf. destruct (decide (e' = e)) as [->|]; [by apply (N3 e g)|]. rewrite lookup_insert_ne in Hf by done. by apply (N3 e' f).
      * intros e' f t' Hf Ht'. destruct (decide (e' = e)) as [->|]; [rewrite lookup_insert_eq in Hf; by injection Hf as <-|]. rewrite lookup_insert_ne in Hf by done. by apply (N4 e').
      * done.
    + intros i e' Hg'. cbn in Hg'. cbn. destruct (decide (e' = e)) as [->|Hne].
      * right. rewrite (one_entry w id i e N He Hg'). left.
      * destruct (Hp i e' Hg') as [(t' & Ht' & Hin)|Hin]; [|by right; right].
        left. exists t'. split; [unfold entry_of in *; cbn; by rewrite lookup_insert_ne|]. apply Hl. split; [done|].
        intros [= -> ->]. apply Hne. congruence.
  - split; [done|]. intros i e' Hg'. cbn in Hg'. destruct (Hp i e' Hg') as [(t' & Ht' & Hin)|Hin]; [left; exists t'|by right].
    split; [done|]. apply Hl. split; [done|]. intros [= -> ->]. congruence.
Qed.

Lemma drop_read_in r x l : x ∈ drop_read r l -> x ∈ l.
Proof. induction l as [|y l IH]; cbn; [done|]. case_bool_decide; [by right|]. rewrite !elem_of_cons. naive_solver. Qed.
Lemma drop_read_other r x l : x <> r -> x ∈ l -> x ∈ drop_read r l.
Proof. intros Hne. induction l as [|y l IH]; cbn; [done|]. rewrite elem_of_cons. intros [->|Hin]; case_bool_decide as Hy; rewrite ?elem_of_cons; naive_solver. Qed.

Lemma answered_good e id ticket working now w : good w -> (e, id) ∈ reads w -> good (answered e id ticket working now w).
Proof.
  intros [N Hp] Hin. unfold answered. set (v := mkWatch (objects w) (followed w) (next w) (timers w) (drop_read (e, id) (reads w)) (trace w)).
  assert (Nv : Named v) by (apply named_fewer; try done; intros e' i; apply drop_read_in).
  assert (Hpv : polled_but e v).
  { intros i e' Hne Hg. destruct (Hp i e' Hg) as [?|Hr]; [by left|right]. apply drop_read_other; [congruence|done]. }
  destruct (nm_reads _ N _ _ Hin) as (g & Hg & Ho).
  assert (Hagain : forall u, similar v u -> good (if bool_decide (OMap.get id (followed u) = Some e) then set_timer id e u else u)).
  { intros u Hs. destruct (similar_object _ _ _ _ Hs Hg) as (g' & Hg' & Ho' & _).
    pose proof (similar_named _ _ Hs Nv) as Nu. pose proof (similar_polled _ _ _ Hs Hpv) as Hpu. case_bool_decide as Hf.
    - apply (set_timer_good _ _ _ g'); [done..|congruence|done|done].
    - split; [done|]. apply (polled_but_unfollowed _ e); [done|]. intros i Hi. apply Hf.
      destruct (nm_followed _ Nu _ _ Hi) as (g2 & ? & ?). congruence. }
  destruct ticket as [t|]; [|by apply Hagain; repeat split].
  set (n := if _ && _ then _ else _). set (u := with_entry e _ v).
  assert (Hs : similar v u).
  { assert (Heq : entry_of v e = g) by (unfold entry_of, v; cbn; by rewrite Hg). apply (similar_with_entry _ _ _ g); [done|cbn; by rewrite Heq|cbn; by rewrite Heq]. }
  destruct (similar_object _ _ _ _ Hs Hg) as (g' & Hg' & Ho' & _). case_match.
  - apply (end_follow_keeps _ _ _ g'); [by apply (similar_named v)|done|congruence|by apply (similar_polled v)].
  - apply Hagain. apply (similar_trans _ u); [done|]. by apply (similar_set_place _ _ _ _ g').
Qed.

(** A new entry, not yet followed from anywhere else. *)
Lemma new_entry_keeps id w : good w -> OMap.get id (followed w) = None ->
  let v := mkWatch (<[next w := mkFollowed id None [] None 0 0]> (objects w)) (OMap.set id (next w) (followed w)) (S (next w)) (timers w) (reads w) (trace w) in
  Named v /\ polled_but (next w) v.
Proof.
  intros [[N1 N2 N3 N4 N5] Hp] Hnone v.
  assert (Hold : forall e f, objects w !! e = Some f -> objects v !! e = Some f).
  { intros e f Hf. cbn. rewrite lookup_insert_ne; [done|]. intros <-. specialize (N3 _ _ Hf). lia. }
  split; [split|]; cbn -[objects].
  - intros i e. rewrite OMap.get_set. case_decide as Hi.
    + intros [= <-]. eexists. split; [apply lookup_insert_eq|done].
    + intros (f & Hf & ?)%N1. exists f. split; [by apply Hold|done].
  - intros e i (f & Hf & ?)%N2. exists f. split; [by apply Hold|done].
  - intros e f. cbn. destruct (decide (e = next w)) as [->|]; [lia|]. rewrite lookup_insert_ne by done. intros Hf%N3. lia.
  - intros e f t. cbn. destruct (decide (e = next w)) as [->|]; [rewrite lookup_insert_eq; by intros [= <-]|].
    rewrite lookup_insert_ne by done. intros Hf Ht. destruct (N4 _ _ _ Hf Ht). split; [lia|done].
  - intros t i Hin%N5. lia.
  - intros i e Hne Hg. cbn in Hg. rewrite OMap.get_set in Hg. case_decide; [by injection Hg|].
    destruct (Hp i e Hg) as [(t & Ht & Hin)|Hin]; [left; exists t|by right]. split; [|done].
    unfold entry_of in *. cbn. by rewrite lookup_insert_ne.
Qed.

Lemma follow_good id first l now w : good w -> good (follow id first l now w).
Proof.
  intros Hw. unfold follow.
  destruct (match OMap.get id (followed w) with Some e => _ | None => _ end) as [e v] eqn:Hev.
  assert (Hv : Named v /\ polled_but e v /\ OMap.get id (followed v) = Some e).
  { destruct (OMap.get id (followed w)) eqn:Hg; injection Hev as <- <-.
    - destruct Hw as [Hn Hp]. split; [done|]. split; [by apply polled_but_all|done].
    - destruct (new_entry_keeps id w Hw Hg). split; [done|]. split; [done|apply OMap.get_set_eq]. }
  assert (Hpoll : (exists t, f_timer (entry_of v e) = Some t) -> polled v).
  { intros [t Ht]. destruct (OMap.get id (followed w)) eqn:Hg; injection Hev as <- <-; [by destruct Hw|].
    unfold entry_of in Ht. cbn in Ht. by rewrite lookup_insert_eq in Ht. }
  destruct Hv as (Nv & Hpv & Hf). destruct (nm_followed _ Nv _ _ Hf) as (g & Hg & Ho).
  assert (Heq : entry_of v e = g) by (unfold entry_of; by rewrite Hg).
  set (u := with_entry e _ v).
  assert (Hs : similar v u) by (apply (similar_with_entry _ _ _ g); [done|cbn; by rewrite Heq|cbn; by rewrite Heq]).
  destruct (similar_object _ _ _ _ Hs Hg) as (g1 & Hg1 & Ho1 & _).
  pose proof (similar_trans _ _ _ Hs (similar_set_place id e (waitingPlace first) u g1 Hg1)) as Hx.
  set (x := set_place id e (waitingPlace first) u) in *. clearbody x.
  destruct (similar_object _ _ _ _ Hx Hg) as (g2 & Hg2 & Ho2 & Ht2).
  pose proof (similar_named _ _ Hx Nv) as Nx. pose proof (similar_polled _ _ _ Hx Hpv) as Hpx.
  assert (Hfx : OMap.get id (followed x) = Some e) by (destruct Hx as [-> _]; done).
  destruct (is_working first).
  - apply (end_follow_keeps _ _ _ g2); [done|done|congruence|done].
  - destruct (f_timer (entry_of x e)) eqn:Ht.
    + split; [done|]. rewrite (similar_timer _ _ _ Hx) in Ht. assert (Hpol : polled v) by (apply Hpoll; by eexists).
      intros i e' Hi. rewrite (similar_timer _ _ _ Hx). destruct Hx as (Hff & _ & Htt & Hrr & _). rewrite Htt, Hrr. apply Hpol. by rewrite <- Hff.
    + apply (set_timer_good _ _ _ g2); [done|done|congruence|done|done].
Qed.

Lemma step_good w ev : good w -> good (step w ev).
Proof.
  intros Hw. destruct ev as [id first l now|t id|e id ticket working now|]; cbn.
  - by apply follow_good.
  - case_bool_decide; [by apply fire_good|done].
  - case_bool_decide; [by apply answered_good|done].
  - by apply stop_good, Hw.
Qed.
Lemma steps_good evs : good (steps new_watch evs).
Proof.
  unfold steps. assert (H : good new_watch). { split; [split; try set_solver|done]; cbn; intros *; rewrite ?lookup_empty; try done; set_solver. }
  revert H. generalize new_watch. induction evs as [|ev evs IH]; cbn; intros w Hw; [done|]. by apply IH, step_good.
Qed.

(** No follow is ever forgotten: whatever calls, timers and answers came before and in whatever order, reads that
    overlap and reads that throw included, every conversation [QueueWatch] follows has a timer pending that the entry
    names, or a read of its entry in flight.  So each followed place is read again until the run works, the reads
    find no run, the hour is over or the watch stops. *)
Theorem followed_is_polled evs id e : OMap.get id (followed (steps new_watch evs)) = Some e ->
  (exists t, f_timer (entry_of (steps new_watch evs) e) = Some t /\ (t, id) ∈ timers (steps new_watch evs)) \/ (e, id) ∈ reads (steps new_watch evs).
Proof. apply steps_good. Qed.
Lemma followed_is_polled_witness :
  let evs := [Follow "t" (Some (Queued 12 160)) None 0; Fire 1 "t"; Answer 0 "t" (Throw "down") false 3000] in
  OMap.get "t" (followed (steps new_watch evs)) = Some 0%nat /\ (2%nat, "t") ∈ timers (steps new_watch evs).
Proof.
  split; [by vm_compute|]. destruct (followed_is_polled [Follow "t" (Some (Queued 12 160)) None 0; Fire 1 "t"; Answer 0 "t" (Throw "down") false 3000] "t" 0) as [(t & Ht & Hin)|Hin].
  - by vm_compute.
  - vm_compute in Ht. injection Ht as <-. exact Hin.
  - vm_compute in Hin. by inversion Hin.
Defined.

(** A read that pi-host answers after its follow ended is told to the page all the same.  A conversation queued at 3
    is followed, its timer fires, an input of its own finds the run working, so the follow ends and the page shows
    nothing; then the first read is answered with its old place, and the page shows the conversation queued again, with
    [place] null, no follow, no timer and no read left that would correct it. *)
Theorem late_read_shows_an_ended_place :
  let w := steps new_watch [Follow "t" (Some (Queued 3 5)) None 0; Fire 1 "t"; Follow "t" (Some (Working "thread")) None 3000; Answer 0 "t" (Ok (Some (Queued 3 5))) true 3001] in
  shown_by "t" (trace w) = Some (Queued 3 5) /\ place w "t" = None /\ timers w = [] /\ reads w = [].
Proof. by vm_compute. Qed.
