(* ===== verification/RoomData.v ===== *)
(** * Rooms, posts and the post log of the chat server

    [apps/chat/server/agent-store.ts]: the rows of channels and Solo rooms, a room's posts with their deliveries,
    and the append-only log a room's posts are read back from.  A post's id is its seq as [p<seq>], so [p_id] is
    computed.  The log file is its lines as the write queue leaves them (Disk.v): the lines that parse, in order.
    A patch has the fields the rooms set or read; reactions, edit times and test marks are outside, and so are DM rows. *)

From S2P Require Import Prelude.
#[local] Open Scope string_scope.
#[local] Open Scope list_scope.
#[local] Open Scope Z_scope.

(** ** Rows *)

Inductive WakeOn := WakeAll | WakeNone.
Record RoomMember := mkMember { m_agent : string; m_wakeOn : WakeOn; m_addedAt : Z }.
Inductive RoomKind := Channel (purpose : string) (homeChat : option string) | Solo (agenda : string) (closedAt : option Z).
Record GroupRoom := mkRoom { g_id : string; g_kind : RoomKind; g_name : string; g_createdAt : Z; g_archived : bool; g_test : bool; g_members : list RoomMember }.
#[export] Instance WakeOn_eq : EqDecision WakeOn.
Proof. solve_decision. Defined.
#[export] Instance RoomMember_eq : EqDecision RoomMember.
Proof. solve_decision. Defined.
#[export] Instance RoomKind_eq : EqDecision RoomKind.
Proof. solve_decision. Defined.

Definition is_channel (row : GroupRoom) : bool := match g_kind row with Channel _ _ => true | Solo _ _ => false end.

(** ** Posts *)

Inductive DeliveryState := DSending | DDelivered | DFailed | DStopped.
Record Bundle := mkBundle { b_requestId : string; b_members : list string }.
Record RoomDelivery := mkDelivery {
  d_target : string; d_state : DeliveryState; d_attempts : Z; d_at : Z; d_requestId : string; d_submission : option Z;
  d_error : option string; d_thread : option string; d_away : option string; d_waited : bool; d_bundle : option Bundle }.
#[export] Instance DeliveryState_eq : EqDecision DeliveryState.
Proof. solve_decision. Defined.
#[export] Instance Bundle_eq : EqDecision Bundle.
Proof. solve_decision. Defined.
#[export] Instance RoomDelivery_eq : EqDecision RoomDelivery.
Proof. solve_decision. Defined.

Record RoomPost := mkPost {
  p_seq : Z; p_room : string; p_author : string; p_text : string; p_images : list string; p_at : Z; p_requestId : string;
  p_why : option string; p_source : option (string * Z); p_jobs : list string; p_deliveries : list RoomDelivery;
  p_mentions : list string; p_hops : Z; p_threadRoot : option string; p_deletedAt : option Z }.
Definition post_id (seq : Z) : string := "p" +:+ string_of_Z seq.
Definition p_id (p : RoomPost) : string := post_id (p_seq p).

Record PostPatch := mkPatch { pp_deliveries : option (list RoomDelivery); pp_jobs : option (list string); pp_text : option string; pp_images : option (list string); pp_deletedAt : option Z }.
Definition deliveries_patch (ds : list RoomDelivery) : PostPatch := mkPatch (Some ds) None None None None.
Definition jobs_patch (js : list string) : PostPatch := mkPatch None (Some js) None None None.
(** [Object.assign(post, patch)]. *)
Definition assign (x : PostPatch) (p : RoomPost) : RoomPost :=
  mkPost (p_seq p) (p_room p) (p_author p) (nullish (pp_text x) (p_text p)) (nullish (pp_images x) (p_images p)) (p_at p) (p_requestId p)
    (p_why p) (p_source p) (nullish (pp_jobs x) (p_jobs p)) (nullish (pp_deliveries x) (p_deliveries p))
    (p_mentions p) (p_hops p) (p_threadRoot p) (orelse (pp_deletedAt x) (p_deletedAt p)).

(** ** The log *)

Inductive LogLine := LPost (p : RoomPost) | LSet (id : string) (x : PostPatch).

Definition post_by_id (id : string) (ps : list RoomPost) : option RoomPost := List.find (fun p => bool_decide (p_id p = id)) ps.
Definition patch_id (id : string) (x : PostPatch) (ps : list RoomPost) : list RoomPost :=
  map (fun p => if bool_decide (p_id p = id) then assign x p else p) ps.
Definition read_line (ps : list RoomPost) (l : LogLine) : list RoomPost :=
  match l with
  | LPost p => match post_by_id (p_id p) ps with Some _ => ps | None => ps ++ [p] end
  | LSet id x => patch_id id x ps
  end.
(** What [postsOf] reads from a room's file. *)
Definition read_log (ls : list LogLine) : list RoomPost := fold_left read_line ls [].

Definition byRequestId (requestId : string) (ps : list RoomPost) : option RoomPost := List.find (fun p => bool_decide (p_requestId p = requestId)) ps.
Definition last_seq (ps : list RoomPost) : Z := match last_of ps with Some p => p_seq p | None => 0 end.

(** A room's posts in memory and its file. *)
Record RoomLog := mkLog { rl_posts : list RoomPost; rl_file : list LogLine }.
Definition no_log : RoomLog := mkLog [] [].
Definition with_seq (seq : Z) (p : RoomPost) : RoomPost :=
  mkPost seq (p_room p) (p_author p) (p_text p) (p_images p) (p_at p) (p_requestId p) (p_why p) (p_source p) (p_jobs p) (p_deliveries p)
    (p_mentions p) (p_hops p) (p_threadRoot p) (p_deletedAt p).

(** [append]: the seq the input comes with is none yet. *)
Definition append (input : RoomPost) (l : RoomLog) : RoomPost * bool * RoomLog :=
  match byRequestId (p_requestId input) (rl_posts l) with
  | Some p => (p, false, l)
  | None => let p := with_seq (last_seq (rl_posts l) + 1) input in
            (p, true, mkLog (rl_posts l ++ [p]) (rl_file l ++ [LPost p]))
  end.
Definition set_post (id : string) (x : PostPatch) (l : RoomLog) : RoomLog := mkLog (patch_id id x (rl_posts l)) (rl_file l ++ [LSet id x]).

(** ** The log reads back *)

Lemma post_id_inj a b : 0 <= a -> 0 <= b -> post_id a = post_id b -> a = b.
Proof.
  intros Ha Hb H. assert (Hs : string_of_Z a = string_of_Z b) by (by injection H).
  destruct (string_of_Z_digits a Ha) as (_ & Hva & _), (string_of_Z_digits b Hb) as (_ & Hvb & _). by rewrite <- Hva, <- Hvb, Hs.
Qed.

(** The seqs count up from 1. *)
Definition counted (ps : list RoomPost) : Prop := map p_seq ps = map Z.of_nat (seq 1 (length ps)).

Lemma assign_seq x p : p_seq (assign x p) = p_seq p.
Proof. done. Qed.
Lemma patch_seqs id x ps : map p_seq (patch_id id x ps) = map p_seq ps.
Proof. unfold patch_id. rewrite map_map. apply map_ext. intros p. by case_bool_decide. Qed.
Lemma counted_patch id x ps : counted ps -> counted (patch_id id x ps).
Proof. unfold counted. rewrite patch_seqs. unfold patch_id. by rewrite length_map. Qed.
Lemma counted_last ps : counted ps -> last_seq ps = Z.of_nat (length ps).
Proof.
  intros H. unfold last_seq, last_of. destruct ps as [|p ps _] using rev_ind; [done|].
  rewrite last_snoc. unfold counted in H. rewrite length_app, map_app, seq_app, map_app in H. cbn in H. apply app_inj_tail in H as [_ H]. rewrite H, length_app. cbn. lia.
Qed.
Lemma counted_snoc ps p : counted ps -> p_seq p = last_seq ps + 1 -> counted (ps ++ [p]).
Proof.
  intros H Hp. pose proof (counted_last _ H) as Hl. unfold counted in *. rewrite length_app, seq_app, !map_app, H. cbn. f_equal. f_equal. lia.
Qed.
Lemma counted_bounds ps p : counted ps -> p ∈ ps -> 1 <= p_seq p <= last_seq ps.
Proof.
  intros H Hp. rewrite (counted_last _ H). apply (list_elem_of_fmap_2 p_seq) in Hp. change (p_seq <$> ps) with (map p_seq ps) in Hp.
  rewrite H in Hp. apply list_elem_of_In, in_map_iff in Hp as (n & <- & Hn%in_seq). lia.
Qed.
Lemma counted_nodup ps : counted ps -> NoDup (map p_seq ps).
Proof. intros ->. apply NoDup_ListNoDup, Finite.Injective_map_NoDup; [intros ???; lia|apply seq_NoDup]. Qed.
Lemma counted_id ps p q : counted ps -> p ∈ ps -> q ∈ ps -> p_id p = p_id q -> p = q.
Proof.
  intros H Hp Hq Hid. pose proof (counted_bounds _ _ H Hp). pose proof (counted_bounds _ _ H Hq).
  apply (nodup_key p_seq ps); [by apply counted_nodup|done|done|]. apply post_id_inj; [lia|lia|done].
Qed.

Lemma post_by_id_Some id ps p : post_by_id id ps = Some p -> p ∈ ps /\ p_id p = id.
Proof. intros [Hin Hb]%find_some. split; [by apply list_elem_of_In|]. by apply bool_decide_eq_true in Hb. Qed.
Lemma post_by_id_None id ps : post_by_id id ps = None -> forall p, p ∈ ps -> p_id p <> id.
Proof. intros H p Hp Hid. pose proof (find_none _ _ H p ltac:(by apply list_elem_of_In)) as Hb. by apply bool_decide_eq_false in Hb. Qed.
Lemma post_by_id_in ps p : counted ps -> p ∈ ps -> post_by_id (p_id p) ps = Some p.
Proof.
  intros H Hp. destruct (post_by_id (p_id p) ps) as [q|] eqn:E; [|by apply post_by_id_None with (p := p) in E].
  apply post_by_id_Some in E as [Hq Hid]. f_equal. by apply (counted_id ps).
Qed.
Lemma byRequestId_Some r ps p : byRequestId r ps = Some p -> p ∈ ps /\ p_requestId p = r.
Proof. intros [Hin Hb]%find_some. split; [by apply list_elem_of_In|]. by apply bool_decide_eq_true in Hb. Qed.
Lemma byRequestId_None r ps : byRequestId r ps = None -> forall p, p ∈ ps -> p_requestId p <> r.
Proof. intros H p Hp Hid. pose proof (find_none _ _ H p ltac:(by apply list_elem_of_In)) as Hb. by apply bool_decide_eq_false in Hb. Qed.

Lemma elem_patch id x ps q : q ∈ patch_id id x ps <-> exists p, p ∈ ps /\ q = (if bool_decide (p_id p = id) then assign x p else p).
Proof. unfold patch_id. rewrite list_elem_of_In, in_map_iff. split; intros (p & H1 & H2); exists p; rewrite ?list_elem_of_In in *; naive_solver. Qed.

(** A room's log in order: it reads back as the posts in memory, their ids are distinct and so are their dedup keys. *)
Record good_log (l : RoomLog) : Prop := {
  gl_counted : counted (rl_posts l);
  gl_keys : NoDup (map p_requestId (rl_posts l));
  gl_file : read_log (rl_file l) = rl_posts l }.

Lemma good_no_log : good_log no_log.
Proof. split; [done|apply NoDup_nil_2|done]. Qed.
Lemma patch_keys id x ps : map p_requestId (patch_id id x ps) = map p_requestId ps.
Proof. unfold patch_id. rewrite map_map. apply map_ext. intros p. by case_bool_decide. Qed.
Lemma read_log_snoc ls l : read_log (ls ++ [l]) = read_line (read_log ls) l.
Proof. unfold read_log. by rewrite fold_left_app. Qed.
Lemma good_set id x l : good_log l -> good_log (set_post id x l).
Proof.
  intros [Hc Hk Hf]. split; cbn -[read_log]; [by apply counted_patch|by rewrite patch_keys|]. by rewrite read_log_snoc, Hf.
Qed.
Lemma good_append input l p c l' : good_log l -> append input l = (p, c, l') -> good_log l' /\ p ∈ rl_posts l' /\ p_requestId p = p_requestId input.
Proof.
  intros [Hc Hk Hf]. unfold append. destruct (byRequestId (p_requestId input) (rl_posts l)) as [q|] eqn:E; intros [= <- <- <-].
  - apply byRequestId_Some in E as [Hin Hr]. done.
  - assert (Hn : p_seq (with_seq (last_seq (rl_posts l) + 1) input) = last_seq (rl_posts l) + 1) by done.
    set (p := with_seq _ input) in *. split; [|split; [set_solver|done]]. split; cbn -[read_log].
    + by apply counted_snoc.
    + rewrite map_app. apply NoDup_app. split_and!; [done| |apply NoDup_singleton].
      intros r Hr Hr'. apply list_elem_of_singleton in Hr' as ->. apply list_elem_of_In, in_map_iff in Hr as (q & Hq & Hin). by apply (byRequestId_None _ _ E q); [apply list_elem_of_In|].
    + rewrite read_log_snoc, Hf. cbn. destruct (post_by_id (p_id p) (rl_posts l)) as [q|] eqn:Eq; [|done].
      apply post_by_id_Some in Eq as [Hin Hid]. pose proof (counted_bounds _ _ Hc Hin).
      apply post_id_inj in Hid; [lia|lia|]. rewrite Hn. lia.
Qed.
