(* ===== verification/RoomText.v ===== *)
(** * The texts a room's agents read, and the headers read back

    [apps/chat/server/group-rooms.ts]: the envelope of a post, with the posts its reader missed, the bundle of posts
    that waited for a box, and [envelopeHeaders], which finds each post's seq and hops again in an input's text; with
    [agedPost] of [rooms.ts].  What time texts look like, the names of principals and the line of reactions are
    arguments.  The middle dot is the unit 183, and the ellipsis, which is outside 8 bits, is an argument too. *)

From S2P Require Import Prelude RoomData.
#[local] Open Scope string_scope.
#[local] Open Scope list_scope.
#[local] Open Scope Z_scope.

Definition CONTEXT_POSTS : nat := 5.
Definition CONTEXT_CLIP : nat := 2048.
Definition AGENDA_CLIP : nat := 300.

Class RoomTexts := { iso : Z -> string; hours_1 : Z -> string; ellipsis : string; name_of : string -> string; reactionsLine : RoomPost -> string }.

Definition DOT : Ascii.ascii := "183"%char.
Definition LF : Ascii.ascii := "010"%char.
Definition dot : string := String.String DOT "".
(** [s.slice(0, n)]. *)
Definition slice (n : nat) (s : string) : string := of_chars (take n (to_chars s)).
Definition join (sep : string) (l : list string) : string := String.concat sep l.
Definition units (s : string) : Z := Z.of_nat (length (to_chars s)).
(** [s.replace(/\n+/g, " ")]. *)
Fixpoint flat_chars (inrun : bool) (l : chars) : chars :=
  match l with
  | [] => []
  | c :: r => if bool_decide (c = LF) then if inrun then flat_chars true r else " "%char :: flat_chars true r else c :: flat_chars false r
  end.
Definition flat (s : string) : string := of_chars (flat_chars false (to_chars s)).

(** [roomLabel] and [refusal]. *)
Definition roomLabel (row : GroupRoom) : string :=
  match g_kind row with Channel _ _ => "#" +:+ g_name row | Solo _ _ => "Solo " +:+ dquote +:+ g_name row +:+ dquote end.
Definition refusal (row : GroupRoom) : option string :=
  if g_archived row then Some ("An archived room takes no posts; unarchive " +:+ roomLabel row +:+ " to post in it.")
  else match g_kind row with
       | Solo _ (Some _) => Some ("A closed Solo room takes no posts; reopen " +:+ roomLabel row +:+ " to post in it.")
       | _ => None
       end.
Definition queuedNote (box : string) : string := "queued, " +:+ box +:+ " is offline".

Section Text.
Context `{RoomTexts}.

Definition clock (at_ now : Z) : string :=
  (if bool_decide (slice 10 (iso at_) = slice 10 (iso now)) then "" else of_chars (drop 5 (take 10 (to_chars (iso at_)))) +:+ " ")
  +:+ of_chars (drop 11 (take 16 (to_chars (iso at_)))) +:+ "Z".
(** [Math.round] rounds a half up. *)
Definition ago (ms : Z) : string :=
  if ms <? 3600000 then string_of_Z (Z.max 1 ((2 * ms + 60000) / 120000)) +:+ " min" else hours_1 ms +:+ " h".
Definition aged_line (opening : string) (at_ : Z) (box : string) (now : Z) : string :=
  opening +:+ ago (now - at_) +:+ " ago at " +:+ clock at_ now +:+ "; the chat server held it while " +:+ box +:+ " was offline]".
Definition agedPost (text : string) (at_ : Z) (box : string) (now : Z) : string := aged_line "[written " at_ box now +:+ nl +:+ nl +:+ text.

Definition plural (n : nat) : string := if (1 <? n)%nat then "s" else "".
Definition context (p : RoomPost) : string :=
  let n := length (p_images p) in
  let images := if (0 <? n)%nat then " [" +:+ string_of_Z (Z.of_nat n) +:+ " image" +:+ plural n +:+ " attached]" else "" in
  let reactions := reactionsLine p in
  string_of_Z (p_seq p) +:+ " " +:+ name_of (p_author p) +:+ ": " +:+ slice CONTEXT_CLIP (p_text p) +:+ images
  +:+ if bool_decide (reactions = "") then "" else " " +:+ reactions.

Definition label (row : GroupRoom) : string :=
  match g_kind row with
  | Channel _ _ => "#" +:+ g_name row
  | Solo agenda _ =>
      "Solo " +:+ dquote +:+ g_name row +:+ dquote +:+ " (" +:+ g_id row +:+ "): "
      +:+ (if Z.of_nat AGENDA_CLIP <? units agenda then slice AGENDA_CLIP agenda +:+ ellipsis else agenda)
      +:+ " " +:+ dot +:+ " with " +:+ join ", " (map (fun m => name_of (m_agent m)) (g_members row))
  end.
Definition header_line (row : GroupRoom) (p : RoomPost) : string :=
  "[" +:+ flat (label row) +:+ " " +:+ dot +:+ " post " +:+ string_of_Z (p_seq p) +:+ " from " +:+ name_of (p_author p)
  +:+ (if bool_decide (p_author p = "owner") then " (owner)" else "") +:+ " " +:+ dot +:+ " hops " +:+ string_of_Z (p_hops p) +:+ "]".

Definition last_n {A} (n : nat) (l : list A) : list A := drop (length l - n) l.
Definition thread_of (posts : list RoomPost) (p : RoomPost) : list RoomPost :=
  let root := nullish (p_threadRoot p) (p_id p) in
  last_n CONTEXT_POSTS (List.filter (fun q => (bool_decide (p_id q = root) || bool_decide (p_threadRoot q = Some root)) && (p_seq q <? p_seq p)
                                              && bool_decide (p_deletedAt q = None)) posts).
Definition envelope (row : GroupRoom) (posts : list RoomPost) (p : RoomPost) (missed : list RoomPost) : string :=
  let thread := if is_channel row then thread_of posts p else [] in
  join nl ([header_line row p; ""; p_text p]
           ++ (if bool_decide (missed = []) then [] else [""; "(channel before this post)"] ++ map context missed)
           ++ (if bool_decide (thread = []) then [] else [""; "(thread so far)"] ++ map context thread)).

Definition bundleText (row : GroupRoom) (posts members missed : list RoomPost) (box : string) (now : Z) : string :=
  let n := string_of_Z (Z.of_nat (length members)) in
  join (nl +:+ nl)
    (("[" +:+ n +:+ " posts in " +:+ roomLabel row +:+ " waited while " +:+ box +:+ " was offline and go together in this one input, oldest first]")
     :: imap (fun i p => aged_line ("[" +:+ string_of_Z (Z.of_nat (S i)) +:+ " of " +:+ n +:+ ", written ") (p_at p) box now +:+ nl +:+ nl
                         +:+ envelope row posts p (if bool_decide (i = O) then missed else [])) members).
End Text.

(** ** Reading the headers back *)

Definition POST : chars := DOT :: to_chars " post ".
Definition FROM : chars := to_chars " from ".
Definition HOPS : chars := " "%char :: DOT :: to_chars " hops ".

(** [[^\n]* · hops (\d+)\]$] on what follows [ from ]. *)
Definition tail_hops (l : chars) : option Z :=
  match reverse l with
  | c :: r =>
      let ds := take_while is_digit r in
      if bool_decide (c = "]"%char) && negb (bool_decide (ds = [])) && starts_with (reverse HOPS) (drop_while is_digit r)
      then Some (digits_value (reverse ds)) else None
  | [] => None
  end.
(** [HEADER] matched at the first unit: the post's seq and hops. *)
Definition header_at (l : chars) : option (Z * Z) :=
  if starts_with POST l then
    let r := drop (length POST) l in
    let ds := take_while is_digit r in
    let r := drop_while is_digit r in
    if negb (bool_decide (ds = [])) && starts_with FROM r
    then (fun hops => (digits_value ds, hops)) <$> tail_hops (drop (length FROM) r) else None
  else None.
(** [HEADER.exec(line)]: the leftmost match. *)
Fixpoint header (l : chars) : option (Z * Z) :=
  match header_at l with Some x => Some x | None => match l with [] => None | _ :: r => header r end end.

(** [/^\[(written |\d+ posts in )/]. *)
Definition waits_line (l : chars) : bool :=
  match l with
  | c :: r => bool_decide (c = "["%char) && (starts_with (to_chars "written ") r
      || (negb (bool_decide (take_while is_digit r = [])) && starts_with (to_chars " posts in ") (drop_while is_digit r)))
  | [] => false
  end.
Definition envelopeHeaders (text : string) : list (Z * Z) :=
  let lines := split_on LF (to_chars text) in
  match header (default [] (head lines)) with
  | Some x => [x]
  | None => if waits_line (default [] (head lines)) then reverse (omap header lines) else []
  end.

(** ** Lines and headers *)

Lemma split_on_app c a b : split_on c (a ++ c :: b) = split_on c a ++ split_on c b.
Proof.
  induction a as [|d a IH]; cbn; [by rewrite bool_decide_eq_true_2|]. case_bool_decide; [by rewrite IH|]. rewrite IH.
  pose proof (split_on_nonempty c a). by destruct (split_on c a).
Qed.
Lemma split_on_none c a : c ∉ a -> split_on c a = [a].
Proof. intros H. pose proof (split_join c [a]) as Hj. apply Hj; [done|]. by apply Forall_singleton. Qed.
Lemma head_split c h r : c ∉ h -> head (split_on c (h ++ c :: r)) = Some h.
Proof. intros H. by rewrite split_on_app, (split_on_none c h). Qed.
Lemma line_in_split c a h b : c ∉ h -> h ∈ split_on c (a ++ c :: h ++ c :: b).
Proof. intros H. rewrite split_on_app, split_on_app, (split_on_none c h) by done. set_solver. Qed.

Lemma starts_with_app {A} `{EqDecision A} (p l : list A) : starts_with p (p ++ l) = true.
Proof. induction p; cbn; [done|]. by rewrite bool_decide_eq_true_2. Qed.

(** A unit where [header_at] could match. *)
Definition marked (l : chars) : bool :=
  starts_with POST l && match drop (length POST) l with c :: _ => is_digit c | [] => false end.
Fixpoint quiet (l : chars) : bool := negb (marked l) && match l with [] => true | _ :: r => quiet r end.

Lemma header_at_marked l x : header_at l = Some x -> marked l = true.
Proof.
  unfold header_at, marked. destruct (starts_with POST l); [|done]. destruct (drop (length POST) l) as [|c r]; cbn; [done|].
  destruct (is_digit c); [done|]. by rewrite bool_decide_eq_true_2.
Qed.
Lemma quiet_no_dot l : DOT ∉ l -> quiet l = true.
Proof.
  induction l as [|c l IH]; [done|]. intros [Hc Hl]%not_elem_of_cons. cbn [quiet]. rewrite IH by done.
  unfold marked, POST. cbn [starts_with]. by rewrite bool_decide_eq_false_2.
Qed.
(** What stands in front of [ · post] and is quiet stays quiet. *)
Lemma quiet_front l m : quiet l = true -> header (l ++ " "%char :: DOT :: m) = header (DOT :: m).
Proof.
  assert (Hsp : header (" "%char :: DOT :: m) = header (DOT :: m)) by done.
  induction l as [|c l IH]; [done|]. cbn [quiet]. intros [Hm Hq]%andb_true_iff. cbn [app].
  rewrite <- IH by done. change (header ?l) with (match header_at l with Some x => Some x | None => match l with [] => None | _ :: r => header r end end) at 1.
  destruct (header_at (c :: l ++ " "%char :: DOT :: m)) as [x|] eqn:E; [|done]. exfalso. apply header_at_marked in E.
  apply negb_true_iff in Hm. unfold marked, POST in *. cbn [to_chars String.list_ascii_of_string] in *.
  destruct l as [|c1 [|c2 [|c3 [|c4 [|c5 [|c6 [|c7 l]]]]]]]; cbn in E, Hm; try congruence; simp_ok; done.
Qed.

Lemma take_digits n r : 0 <= n -> (forall x, head r = Some x -> is_digit x = false) ->
  take_while is_digit (to_chars (string_of_Z n) ++ r) = to_chars (string_of_Z n) /\ drop_while is_digit (to_chars (string_of_Z n) ++ r) = r.
Proof. intros Hn Hr. destruct (string_of_Z_digits n Hn) as (Hd & _ & _). by apply take_while_app. Qed.

Lemma tail_hops_text x n : 0 <= n -> tail_hops (x ++ HOPS ++ to_chars (string_of_Z n) ++ ["]"%char]) = Some n.
Proof.
  intros Hn. destruct (string_of_Z_digits n Hn) as (Hd & Hv & Hne). unfold tail_hops.
  rewrite !reverse_app. cbn [reverse app rev_append]. change (reverse ["]"%char]) with ["]"%char]. cbn [app].
  destruct (take_while_app is_digit (reverse (to_chars (string_of_Z n))) (reverse HOPS ++ reverse x)) as [Ht Hdw].
  - apply forallb_forall. intros c Hc. rewrite forallb_forall in Hd. apply Hd. apply list_elem_of_In. apply list_elem_of_In in Hc. by apply elem_of_reverse.
  - by intros c [= <-].
  - rewrite <- app_assoc, Ht, Hdw, starts_with_app, reverse_involutive, Hv, bool_decide_eq_true_2, bool_decide_eq_false_2; [done| |done].
    intros Hr. apply Hne. by rewrite <- (reverse_involutive (to_chars _)), Hr.
Qed.
(** No header ends like this. *)
Lemma header_tail_none l c r : reverse l = "]"%char :: c :: r -> is_digit c = false -> header l = None.
Proof.
  intros Hl Hc. assert (Hs : forall a s, l = a ++ s -> tail_hops s = None).
  { intros a s ->. rewrite reverse_app in Hl. unfold tail_hops. destruct (reverse s) as [|x [|y s']] eqn:E; [done| |].
    - cbn. by rewrite andb_false_r.
    - cbn in Hl. injection Hl as -> -> _. cbn. rewrite Hc. cbn. by rewrite ?andb_false_r. }
  assert (Hat : forall a s, l = a ++ s -> header_at s = None).
  { intros a s Ha. unfold header_at. case_match; [|done]. case_match; [|done].
    set (k := drop (length POST) s). rewrite (Hs (a ++ take (length POST) s ++ take_while is_digit k ++ take (length FROM) (drop_while is_digit k))); [done|].
    rewrite <- !app_assoc. rewrite (take_drop (length FROM)), take_drop_while. unfold k. by rewrite take_drop. }
  clear Hl. assert (H : forall a s, l = a ++ s -> header s = None); [|by apply (H [])].
  intros a s. revert a. induction s as [|x s IH]; intros a Ha; cbn [header]; rewrite (Hat a _ Ha); [done|].
  apply (IH (a ++ [x])). by rewrite <- app_assoc.
Qed.

(** ** What the headers of an input name *)

(** Times, hours and the ellipsis hold no line feed. *)
Class RoomTextLaws `{RoomTexts} := { iso_line : forall t, LF ∉ to_chars (iso t); hours_line : forall t, LF ∉ to_chars (hours_1 t) }.
(** A room whose label cannot be taken for a header: no Solo agenda or name that holds [· post <n>]. *)
Definition plain_label `{RoomTexts} (row : GroupRoom) : Prop := quiet (to_chars (flat (label row))) = true.
Definition one_line (s : string) : Prop := LF ∉ to_chars s.

Lemma flat_line b l : LF ∉ flat_chars b l.
Proof.
  revert b. induction l as [|c l IH]; cbn; intros b; [by apply not_elem_of_nil|]. case_bool_decide.
  - destruct b; [done|]. apply not_elem_of_cons. split; [done|apply IH].
  - apply not_elem_of_cons. split; [done|apply IH].
Qed.
Lemma digits_line n : 0 <= n -> one_line (string_of_Z n).
Proof.
  intros Hn Hin. destruct (string_of_Z_digits n Hn) as (Hd & _ & _). rewrite forallb_forall in Hd. apply list_elem_of_In, Hd in Hin. done.
Qed.
Lemma one_line_app a b : one_line (a +:+ b) <-> one_line a /\ one_line b.
Proof. unfold one_line. rewrite to_chars_app. apply not_elem_of_app. Qed.
Lemma one_line_bool s : forallb (fun c => negb (bool_decide (c = LF))) (to_chars s) = true -> one_line s.
Proof. intros H Hin. rewrite forallb_forall in H. apply list_elem_of_In, H in Hin. by rewrite bool_decide_eq_true_2 in Hin. Qed.
Ltac one_line := repeat (apply one_line_app; split); try done; try (by apply one_line_bool).

Section Headers.
Context `{RoomTextLaws}.

Lemma header_of_line row p : plain_label row -> 0 <= p_seq p -> 0 <= p_hops p ->
  header (to_chars (header_line row p)) = Some (p_seq p, p_hops p).
Proof.
  intros Hq Hs Hh. unfold header_line. rewrite !to_chars_app. change (to_chars "[") with ["["%char]. change (to_chars " ") with [" "%char].
  change (to_chars dot) with [DOT]. change (to_chars "]") with ["]"%char]. cbn [app].
  change ("["%char :: ?l ++ " "%char :: DOT :: ?m) with (("["%char :: l) ++ " "%char :: DOT :: m).
  rewrite quiet_front by (cbn [quiet]; rewrite Hq, andb_true_r; done).
  set (own := if bool_decide _ then _ else _). set (sq := to_chars (string_of_Z (p_seq p))).
  match goal with |- header ?m = _ => assert (Hm : m = POST ++ sq ++ FROM ++ (to_chars (name_of (p_author p)) ++ to_chars own) ++ HOPS ++ to_chars (string_of_Z (p_hops p)) ++ ["]"%char]) end.
  { unfold POST, HOPS. cbn [app]. rewrite <- !app_assoc. done. }
  rewrite Hm. clear Hm. set (rest := (_ ++ _) ++ HOPS ++ _).
  assert (Hat : header_at (POST ++ sq ++ FROM ++ rest) = Some (p_seq p, p_hops p)).
  { unfold header_at. rewrite starts_with_app, drop_app_length. destruct (string_of_Z_digits _ Hs) as (_ & Hv & Hne).
    destruct (take_digits (p_seq p) (FROM ++ rest) Hs) as [Ht Hd]; [by intros x [= <-]|]. fold sq in Ht, Hd, Hne, Hv. rewrite Ht, Hd.
    rewrite bool_decide_eq_false_2 by done. rewrite starts_with_app. cbn [negb andb]. rewrite drop_app_length. unfold rest. rewrite tail_hops_text by done. cbn. by rewrite Hv. }
  change (header ?l) with (match header_at l with Some x => Some x | None => match l with [] => None | _ :: r => header r end end).
  by rewrite Hat.
Qed.
Lemma header_line_one row p : one_line (name_of (p_author p)) -> 0 <= p_seq p -> 0 <= p_hops p -> one_line (header_line row p).
Proof.
  intros Hn Hs Hh. unfold header_line. one_line.
  - unfold one_line, flat, to_chars, of_chars. rewrite String.list_ascii_of_string_of_list_ascii. apply flat_line.
  - by apply digits_line.
  - by case_bool_decide; apply one_line_bool.
  - by apply digits_line.
Qed.

Lemma join_head sep a b l : join sep (a :: b :: l) = a +:+ sep +:+ join sep (b :: l).
Proof. done. Qed.
Lemma envelope_lines row posts p missed : exists rest, to_chars (envelope row posts p missed) = to_chars (header_line row p) ++ LF :: rest.
Proof.
  unfold envelope. cbn [app]. rewrite join_head, !to_chars_app. change (to_chars nl) with [LF]. by eexists.
Qed.

(** Reading the headers of an envelope back gives exactly the seq and the
    hops of the post it was made from, whatever the post says and whatever posts go along as context, in a room whose
    label cannot be taken for a header itself and for an author whose name is one line. *)
Lemma envelope_headers row posts p missed : plain_label row -> one_line (name_of (p_author p)) -> 0 <= p_seq p -> 0 <= p_hops p ->
  envelopeHeaders (envelope row posts p missed) = [(p_seq p, p_hops p)].
Proof.
  intros Hq Hn Hs Hh. destruct (envelope_lines row posts p missed) as [rest Hr]. unfold envelopeHeaders. rewrite Hr, head_split by by apply header_line_one.
  change (default [] (Some ?h)) with h. by rewrite header_of_line.
Qed.

Lemma aged_line_text opening at_ box now : one_line opening -> one_line box ->
  exists pre, one_line (aged_line opening at_ box now) /\ to_chars (aged_line opening at_ box now) = to_chars opening ++ pre /\ header (to_chars (aged_line opening at_ box now)) = None.
Proof.
  intros Ho Hb. unfold aged_line. eexists. split; [|split; [by rewrite to_chars_app|]].
  - assert (Hago : one_line (ago (now - at_))).
    { unfold ago. case_match; one_line; [apply digits_line; lia|apply hours_line]. }
    assert (Hsub : forall k n t, one_line (of_chars (drop k (take n (to_chars (iso t)))))).
    { intros k n t Hin. unfold one_line, to_chars, of_chars in Hin. rewrite String.list_ascii_of_string_of_list_ascii in Hin.
      apply (iso_line t). apply list_elem_of_lookup in Hin as [i Hi]. rewrite lookup_drop in Hi. apply lookup_take_Some in Hi as [Hi _]. apply list_elem_of_lookup. by eexists. }
    unfold clock. one_line. case_bool_decide; one_line.
  - apply (header_tail_none _ "e"%char (reverse (to_chars (opening +:+ ago (now - at_) +:+ " ago at " +:+ clock at_ now +:+ "; the chat server held it while " +:+ box +:+ " was offlin")))); [|done].
    rewrite !to_chars_app, !reverse_app. rewrite <- !app_assoc. reflexivity.
Qed.

Lemma header_in_lines row p a b : plain_label row -> one_line (name_of (p_author p)) -> 0 <= p_seq p -> 0 <= p_hops p ->
  (p_seq p, p_hops p) ∈ reverse (omap header (split_on LF (a ++ LF :: to_chars (header_line row p) ++ LF :: b))).
Proof.
  intros Hq Hn Hs Hh. apply elem_of_reverse, list_elem_of_omap. exists (to_chars (header_line row p)). split; [|by apply header_of_line].
  by apply line_in_split, header_line_one.
Qed.

(** A post alone that waited. *)
Lemma aged_headers row posts p missed box now : plain_label row -> one_line (name_of (p_author p)) -> 0 <= p_seq p -> 0 <= p_hops p -> one_line box ->
  (p_seq p, p_hops p) ∈ envelopeHeaders (agedPost (envelope row posts p missed) (p_at p) box now).
Proof.
  intros Hq Hn Hs Hh Hb. destruct (envelope_lines row posts p missed) as [rest Hr]. destruct (aged_line_text "[written " (p_at p) box now) as (pre & Hone & Htext & Hnone); [by apply one_line_bool|done|].
  unfold envelopeHeaders, agedPost. rewrite !to_chars_app. change (to_chars nl) with [LF]. cbn [app]. rewrite head_split by done. change (default [] (Some ?h)) with h. rewrite Hnone.
  replace (waits_line _) with true by (by rewrite Htext). rewrite Hr.
  change (?x ++ LF :: LF :: ?y) with (x ++ [LF] ++ LF :: y). rewrite app_assoc. by apply header_in_lines.
Qed.

Lemma append_nil s : s +:+ "" = s.
Proof. rewrite <- (of_to_chars (s +:+ "")), to_chars_app, app_nil_r. apply of_to_chars. Qed.
Lemma append_assoc a b c : (a +:+ b) +:+ c = a +:+ b +:+ c.
Proof. rewrite <- (of_to_chars ((a +:+ b) +:+ c)), <- (of_to_chars (a +:+ b +:+ c)). by rewrite !to_chars_app, app_assoc. Qed.
Lemma join_elem sep l x : x ∈ l -> exists a b, join sep l = a +:+ x +:+ b.
Proof.
  induction l as [|y l IH]; [by intros ?%elem_of_nil|]. intros [->|Hx]%elem_of_cons.
  - destruct l as [|z l]; [exists "", ""; cbn; by rewrite append_nil|exists "", (sep +:+ join sep (z :: l)); by rewrite join_head].
  - destruct (IH Hx) as (a & b & Hj). destruct l as [|z l]; [by apply elem_of_nil in Hx|]. exists (y +:+ sep +:+ a), b. by rewrite join_head, Hj, !append_assoc.
Qed.

(** The headers of a bundle hold each of its posts. *)
Lemma bundle_headers row posts members missed box now p : plain_label row -> one_line (roomLabel row) -> one_line box ->
  Forall (fun q => one_line (name_of (p_author q)) /\ 0 <= p_seq q /\ 0 <= p_hops q) members -> p ∈ members ->
  (p_seq p, p_hops p) ∈ envelopeHeaders (bundleText row posts members missed box now).
Proof.
  intros Hq Hl Hb Hms Hp. destruct (proj1 (Forall_forall _ _) Hms _ Hp) as (Hn & Hs & Hh).
  assert (Hn0 : one_line (string_of_Z (Z.of_nat (length members)))) by (apply digits_line; lia).
  unfold bundleText. set (n := string_of_Z (Z.of_nat (length members))) in *. set (first := "[" +:+ n +:+ _). set (blocks := imap _ members).
  assert (Hblk : exists o e, (aged_line o (p_at p) box now +:+ nl +:+ nl +:+ envelope row posts p e) ∈ blocks).
  { apply list_elem_of_lookup in Hp as [i Hi]. eexists _, _. apply list_elem_of_lookup. exists i. unfold blocks. rewrite list_lookup_imap, Hi. done. }
  destruct Hblk as (o & e & Hblk). destruct (envelope_lines row posts p e) as [rest Hr].
  destruct (join_elem (nl +:+ nl) _ _ Hblk) as (a & b & Hj). destruct blocks as [|blk blocks]; [by apply elem_of_nil in Hblk|].
  rewrite join_head, Hj. unfold envelopeHeaders. rewrite !to_chars_app. change (to_chars nl) with [LF]. cbn [app].
  assert (Hfirst : one_line first) by (unfold first; one_line).
  rewrite head_split by done. change (default [] (Some ?h)) with h.
  assert (Hnone : header (to_chars first) = None).
  { apply (header_tail_none _ "t"%char (reverse (to_chars ("[" +:+ n +:+ " posts in " +:+ roomLabel row +:+ " waited while " +:+ box +:+ " was offline and go together in this one input, oldest firs")))); [|done].
    unfold first. rewrite !to_chars_app, !reverse_app, <- !app_assoc. reflexivity. }
  rewrite Hnone.
  assert (Hw : waits_line (to_chars first) = true).
  { unfold first. rewrite !to_chars_app. change (to_chars "[") with ["["%char]. cbn [app waits_line]. rewrite bool_decide_eq_true_2 by done. unfold n.
    match goal with |- context [take_while is_digit (_ ++ ?r)] => destruct (take_digits (Z.of_nat (length members)) r ltac:(lia)) as [Ht Hd]; [by intros x [= <-]|] end.
    rewrite Ht, Hd, starts_with_app. destruct (string_of_Z_digits (Z.of_nat (length members)) ltac:(lia)) as (_ & _ & Hne).
    rewrite (bool_decide_eq_false_2 _ Hne). apply orb_true_r. }
  rewrite Hw, Hr.
  match goal with |- _ ∈ reverse (omap header (split_on LF ?t)) => replace t with
    ((to_chars first ++ LF :: LF :: to_chars a ++ to_chars (aged_line o (p_at p) box now) ++ [LF]) ++ LF :: to_chars (header_line row p) ++ LF :: (rest ++ to_chars b)) end.
  - by apply header_in_lines.
  - cbn [app]. rewrite <- !app_assoc. cbn [app]. rewrite <- !app_assoc. done.
Qed.

(** C29: The input an agent gets names every post it carries: read back, the headers of a post's envelope are exactly its
    seq and hops; those of an envelope that waited for its box hold them; and those of one input that bundles the posts
    that waited hold the seq and hops of each of them.  So the hops the reader's answer counts from are at least those of
    every post it answers, and what the posts say cannot hide a header. *)
Theorem inputs_name_their_posts row posts members missed box now p : plain_label row -> one_line (roomLabel row) -> one_line box ->
  Forall (fun q => one_line (name_of (p_author q)) /\ 0 <= p_seq q /\ 0 <= p_hops q) members -> p ∈ members ->
  envelopeHeaders (envelope row posts p missed) = [(p_seq p, p_hops p)]
  /\ (p_seq p, p_hops p) ∈ envelopeHeaders (agedPost (envelope row posts p missed) (p_at p) box now)
  /\ (p_seq p, p_hops p) ∈ envelopeHeaders (bundleText row posts members missed box now).
Proof.
  intros Hq Hl Hb Hms Hp. destruct (proj1 (Forall_forall _ _) Hms _ Hp) as (Hn & Hs & Hh).
  split_and!; [by apply envelope_headers|by apply aged_headers|by apply bundle_headers].
Qed.
End Headers.

(** Texts to run the model with. *)
Definition plain_texts : RoomTexts := {| iso := fun _ => "2026-10-29T08:03:00.000Z"; hours_1 := fun _ => "1.5"; ellipsis := "..."; name_of := fun s => s; reactionsLine := fun _ => "" |}.
Lemma plain_text_laws : @RoomTextLaws plain_texts.
Proof.
  split; intros t.
  - apply (one_line_bool "2026-10-29T08:03:00.000Z"). reflexivity.
  - apply (one_line_bool "1.5"). reflexivity.
Qed.

Definition demo_room : GroupRoom := mkRoom "ch_1" (Channel "" None) "dev" 0 false false [mkMember "ag_a" WakeAll 0; mkMember "ag_b" WakeAll 0].
Definition demo_post (seq : Z) (author : string) (hops : Z) : RoomPost :=
  mkPost seq "ch_1" author "hello" [] 0 ("r" +:+ string_of_Z seq) None None [] [] [] hops None None.

Lemma inputs_name_their_posts_witness :
  (2, 1) ∈ envelopeHeaders (@bundleText plain_texts demo_room [] [demo_post 1 "owner" 0; demo_post 2 "ag_a" 1] [] "box" 0).
Proof.
  destruct (@inputs_name_their_posts plain_texts plain_text_laws demo_room [] [demo_post 1 "owner" 0; demo_post 2 "ag_a" 1] [] "box" 0 (demo_post 2 "ag_a" 1)) as (_ & _ & H).
  - by vm_compute.
  - by apply one_line_bool.
  - by apply one_line_bool.
  - apply Forall_cons; split; [|apply Forall_cons; split; [|apply Forall_nil_2]]; split; [by apply one_line_bool|done|by apply one_line_bool|done].
  - set_solver.
  - exact H.
Defined.
