(* ===== verification/Rooms.v ===== *)
(** * Channels and Solo rooms: rows, posts and deliveries

    [apps/chat/server/group-rooms.ts], class [GroupRooms].  A room and a post are named by id and seq, as the code's
    objects are by reference.  What a handler reads of the rest of the server is the [Env] of its step.  [deliver]
    awaits twice, for the comm thread and for pi-host's answer, and is a [Flight] in between; [release] awaits each
    [deliver] it starts and is a [Release].  [timers] is the code's map, [pending] the timeouts that can still fire:
    [deliver] forgets a timeout in the map without clearing it.  [saved] is [rooms.json] as last saved, and a [Crash]
    loses the end of any post log.  [sent] is what was submitted to pi-host, with the hops of the posts for the theorems. *)

From S2P Require Import Prelude Outbox RoomData RoomText.
#[local] Open Scope string_scope.
#[local] Open Scope list_scope.
#[local] Open Scope Z_scope.

Definition MAX_HOPS : Z := 6.

Record AgentRec := mkAgent { ar_id : string; ar_name : string; ar_host : string; ar_archived : bool }.
(** [record] is [agents.record], [registered] the id [memberId] finds, [agents] [agents.list()]. *)
Record Env := mkEnv { now : Z; record : string -> option AgentRec; registered : string -> option string; agents : list AgentRec; linkAway : string -> bool; hasUpload : string -> bool }.

Definition Key : Type := string * Z * string.
Record Flight := mkFlight { fl_id : nat; fl_key : Key; fl_members : list Z; fl_delivery : RoomDelivery; fl_bundle : option Bundle; fl_missed : list Z;
  fl_host : string; fl_images : list string; fl_thread : option string }.
Record Release := mkRelease { re_id : nat; re_box : string; re_now : Z; re_rows : list string; re_room : string; re_targets : list (string * list Z);
  re_target : string; re_heads : list Z; re_wait : option nat }.
Record Sent := mkSent { sn_thread : string; sn_room : string; sn_target : string; sn_posts : list Z; sn_hops : list Z; sn_requestId : string; sn_text : string;
  sn_images : list string; sn_ownerTurn : bool }.
Record FeedTurn := mkTurn { ft_input : Z; ft_lastPost : option string; ft_jobs : option (list string); ft_post : option string; ft_hops : option Z }.
Record OpenCall := mkCall { oc_text : string; oc_entry : Z; oc_why : option string }.
Record FeedCursor := mkCursor { fc_entry : Z; fc_open : list (string * OpenCall); fc_turn : option FeedTurn }.

Record Rooms := mkRooms {
  rows : list GroupRoom; logs : list (string * RoomLog); feeds : list (string * FeedCursor); reads : list (string * (Z * Z));
  saved : list GroupRoom * list (string * FeedCursor);
  timers : list (Key * nat); pending : list (nat * Key * Z); inflight : list Key; flights : list Flight; releases : list Release;
  next : nat; stopped : bool; sent : list Sent }.
Definition new_rooms : Rooms := mkRooms [] [] [] [] ([], []) [] [] [] [] [] 0 true [].

Definition with_rows (v : list GroupRoom) (s : Rooms) : Rooms :=
  mkRooms v (logs s) (feeds s) (reads s) (saved s) (timers s) (pending s) (inflight s) (flights s) (releases s) (next s) (stopped s) (sent s).
Definition with_logs (v : list (string * RoomLog)) (s : Rooms) : Rooms :=
  mkRooms (rows s) v (feeds s) (reads s) (saved s) (timers s) (pending s) (inflight s) (flights s) (releases s) (next s) (stopped s) (sent s).
Definition with_feeds (v : list (string * FeedCursor)) (s : Rooms) : Rooms :=
  mkRooms (rows s) (logs s) v (reads s) (saved s) (timers s) (pending s) (inflight s) (flights s) (releases s) (next s) (stopped s) (sent s).
Definition with_reads (v : list (string * (Z * Z))) (s : Rooms) : Rooms :=
  mkRooms (rows s) (logs s) (feeds s) v (saved s) (timers s) (pending s) (inflight s) (flights s) (releases s) (next s) (stopped s) (sent s).
Definition with_timers (t : list (Key * nat)) (p : list (nat * Key * Z)) (s : Rooms) : Rooms :=
  mkRooms (rows s) (logs s) (feeds s) (reads s) (saved s) t p (inflight s) (flights s) (releases s) (next s) (stopped s) (sent s).
Definition with_flights (i : list Key) (f : list Flight) (s : Rooms) : Rooms :=
  mkRooms (rows s) (logs s) (feeds s) (reads s) (saved s) (timers s) (pending s) i f (releases s) (next s) (stopped s) (sent s).
Definition with_releases (v : list Release) (s : Rooms) : Rooms :=
  mkRooms (rows s) (logs s) (feeds s) (reads s) (saved s) (timers s) (pending s) (inflight s) (flights s) v (next s) (stopped s) (sent s).
Definition with_next (s : Rooms) : Rooms :=
  mkRooms (rows s) (logs s) (feeds s) (reads s) (saved s) (timers s) (pending s) (inflight s) (flights s) (releases s) (S (next s)) (stopped s) (sent s).
Definition with_stopped (b : bool) (s : Rooms) : Rooms :=
  mkRooms (rows s) (logs s) (feeds s) (reads s) (saved s) (timers s) (pending s) (inflight s) (flights s) (releases s) (next s) b (sent s).
Definition with_sent (x : Sent) (s : Rooms) : Rooms :=
  mkRooms (rows s) (logs s) (feeds s) (reads s) (saved s) (timers s) (pending s) (inflight s) (flights s) (releases s) (next s) (stopped s) (sent s ++ [x]).
Definition saveRooms (s : Rooms) : Rooms :=
  mkRooms (rows s) (logs s) (feeds s) (reads s) (rows s, feeds s) (timers s) (pending s) (inflight s) (flights s) (releases s) (next s) (stopped s) (sent s).

Definition log_of (s : Rooms) (room : string) : RoomLog := nullish (OMap.get room (logs s)) no_log.
Definition postsOf (s : Rooms) (room : string) : list RoomPost := rl_posts (log_of s room).
Definition with_log (room : string) (l : RoomLog) (s : Rooms) : Rooms := with_logs (OMap.set room l (logs s)) s.
Definition post_at (ps : list RoomPost) (seq : Z) : option RoomPost := List.find (fun p => p_seq p =? seq) ps.
Definition delivery_to (target : string) (p : RoomPost) : option RoomDelivery := List.find (fun d => bool_decide (d_target d = target)) (p_deliveries p).

(** ** Rows *)

Definition slug_char (c : Ascii.ascii) : bool :=
  ((97 <=? code c) && (code c <=? 122)) || is_digit c || (code c =? 45) || (code c =? 95).
(** [.replace(/[^a-z0-9-_]+/g, "-")]. *)
Fixpoint dash_runs (inrun : bool) (l : chars) : chars :=
  match l with
  | [] => []
  | c :: r => if slug_char c then c :: dash_runs false r else if inrun then dash_runs true r else "-"%char :: dash_runs true r
  end.
Definition is_dash (c : Ascii.ascii) : bool := code c =? 45.
Definition strip_dashes (l : chars) : chars := reverse (drop_while is_dash (reverse (drop_while is_dash l))).
Definition drop_hash (l : chars) : chars := match l with c :: r => if bool_decide (c = "#"%char) then r else l | [] => [] end.
Definition channelName (name : string) : string := of_chars (strip_dashes (dash_runs false (map lower (drop_hash (trim_chars (to_chars name)))))).

(** [s.lastIndexOf(c)]. *)
Definition last_index (c : Ascii.ascii) (l : chars) : Z :=
  match find_index (fun d => bool_decide (d = c)) (reverse l) with Some i => Z.of_nat (length l) - 1 - Z.of_nat i | None => -1 end.
Definition nameFromAgenda `{RoomTexts} (agenda : string) : string :=
  let line := trim_chars (default [] (head (split_on LF (trim_chars (to_chars agenda))))) in
  if (length line <=? 48)%nat then of_chars line
  else let cut := take 48 line in
       let at_ := last_index " "%char cut in
       of_chars (take (Z.to_nat (if 20 <? at_ then at_ else 48)) cut) +:+ ellipsis.

(** [row(id)]: where the row is. *)
Definition row_index (id : string) (rs : list GroupRoom) : option nat :=
  match find_index (fun r => bool_decide (g_id r = id)) rs with
  | Some i => Some i
  | None => find_index (fun r => is_channel r && negb (g_archived r) && bool_decide (g_name r = channelName id)) rs
  end.
Definition row_of (s : Rooms) (id : string) : option GroupRoom := row_index id (rows s) ≫= fun i => rows s !! i.

Definition memberId (env : Env) (id : string) : result string :=
  match registered env id with
  | Some agent => Ok agent
  | None => Throw ("No agent " +:+ id +:+ ": only a registered agent joins a room, not a job or a thread.")
  end.
Fixpoint memberIds (env : Env) (ids : list string) : result (list string) :=
  match ids with [] => Ok [] | id :: r => a ← memberId env id; l ← memberIds env r; Ok (a :: l) end.

(** Whether an open channel at another place has [name]. *)
Definition clash (name : string) (i : nat) (rs : list GroupRoom) : bool :=
  existsb (fun jr => negb (bool_decide (jr.1 = i)) && is_channel jr.2 && negb (g_archived jr.2) && bool_decide (g_name jr.2 = name)) (imap pair rs).

Definition set_name (v : string) (r : GroupRoom) : GroupRoom := mkRoom (g_id r) (g_kind r) v (g_createdAt r) (g_archived r) (g_test r) (g_members r).
Definition set_kind (v : RoomKind) (r : GroupRoom) : GroupRoom := mkRoom (g_id r) v (g_name r) (g_createdAt r) (g_archived r) (g_test r) (g_members r).
Definition set_archived (v : bool) (r : GroupRoom) : GroupRoom := mkRoom (g_id r) (g_kind r) (g_name r) (g_createdAt r) v (g_test r) (g_members r).
Definition set_members (v : list RoomMember) (r : GroupRoom) : GroupRoom := mkRoom (g_id r) (g_kind r) (g_name r) (g_createdAt r) (g_archived r) (g_test r) v.
Definition on_row (i : nat) (f : GroupRoom -> GroupRoom) (s : Rooms) : Rooms := with_rows (alter f i (rows s)) s.

(** A handler that may throw keeps what it changed before. *)
Definition Op : Type := Rooms -> result unit * Rooms.
Definition op_seq (a b : Op) : Op := fun s => match a s with (Ok _, s') => b s' | r => r end.
Definition op_done : Op := fun s => (Ok tt, s).
Definition op_fail (message : string) : Op := fun s => (Throw message, s).
Definition op_do (f : Rooms -> Rooms) : Op := fun s => (Ok tt, f s).
Infix ";;;" := op_seq (at level 60, right associativity).

(** A [RoomPatch]; [rp_homeChat] is [Some None] for null. *)
Record RoomPatch := mkRoomPatch { rp_name : option string; rp_agenda : option string; rp_closed : option bool; rp_archived : option bool; rp_homeChat : option (option string) }.

Definition update_name (i : nat) (row : GroupRoom) (v : option string) : Op :=
  match v with
  | None => op_done
  | Some v => let name := if is_channel row then channelName v else trim v in
              fun s => if bool_decide (name = "") then (Throw (if is_channel row then "A channel needs a name with a letter or digit in it." else "A room's name is not blank."), s)
                       else if is_channel row && clash name i (rows s) then (Throw ("A channel named #" +:+ name +:+ " already exists."), s)
                       else (Ok tt, on_row i (set_name name) s)
  end.
Definition update_agenda (i : nat) (row : GroupRoom) (v : option string) : Op :=
  match v, g_kind row with
  | None, _ => op_done
  | Some v, Solo _ c => if bool_decide (trim v = "") then op_fail "A Solo room's agenda is not blank." else op_do (on_row i (set_kind (Solo (trim v) c)))
  | Some v, Channel _ h => op_do (on_row i (set_kind (Channel v h)))
  end.
(** [closedAt ??= now], or gone; the agenda is the one [update_agenda] may have set. *)
Definition set_closed (closed : bool) (now : Z) (r : GroupRoom) : GroupRoom :=
  match g_kind r with Solo a c => set_kind (Solo a (if closed then Some (nullish c now) else None)) r | Channel _ _ => r end.
Definition update_closed (i : nat) (row : GroupRoom) (v : option bool) (now : Z) : Op :=
  match v, g_kind row with
  | None, _ => op_done
  | Some _, Channel _ _ => op_fail "A channel is not closed; archive it instead."
  | Some closed, Solo _ _ => op_do (on_row i (set_closed closed now))
  end.
Definition update_archived (i : nat) (v : option bool) : Op := fun s =>
  match v, rows s !! i with
  | Some v, Some row =>
      if negb v && g_archived row && is_channel row && clash (g_name row) i (rows s)
      then (Throw ("A channel named #" +:+ g_name row +:+ " is open; rename one of them before you unarchive this one."), s)
      else (Ok tt, on_row i (set_archived v) s)
  | _, _ => (Ok tt, s)
  end.
Definition set_homeChat (v : option string) (r : GroupRoom) : GroupRoom := match g_kind r with Channel p _ => set_kind (Channel p v) r | Solo _ _ => r end.
Definition update_homeChat (i : nat) (row : GroupRoom) (v : option (option string)) : Op :=
  match v, g_kind row with
  | None, _ => op_done
  | Some _, Solo _ _ => op_fail "A Solo room shows its members' boards; only a channel has a home chat."
  | Some v, Channel _ _ => op_do (on_row i (set_homeChat v))
  end.
Definition update (env : Env) (id : string) (x : RoomPatch) : Op := fun s =>
  match row_index id (rows s) ≫= fun i => pair i <$> rows s !! i with
  | None => (Throw ("No room " +:+ id +:+ "."), s)
  | Some (i, row) =>
      (update_name i row (rp_name x) ;;; update_agenda i row (rp_agenda x) ;;; update_closed i row (rp_closed x) (now env) ;;;
       update_archived i (rp_archived x) ;;; update_homeChat i row (rp_homeChat x) ;;; op_do saveRooms) s
  end.

Definition add_member (wakeOn : WakeOn) (now : Z) (ms : list RoomMember) (agent : string) : list RoomMember :=
  if existsb (fun m => bool_decide (m_agent m = agent)) ms then ms else ms ++ [mkMember agent wakeOn now].
(** [WAKE_ON] is the two values of [WakeOn]; any other is [None] inside. *)
Definition addMembers (env : Env) (id : string) (given : list string) (wakeOn : option (option WakeOn)) : Op := fun s =>
  match row_index id (rows s) with
  | None => (Throw ("No room " +:+ id +:+ "."), s)
  | Some i =>
      if bool_decide (given = []) then (Throw "A member add needs agents, a list of agent ids.", s)
      else match wakeOn with
      | Some None => (Throw "A member's wakeOn is one of all, none.", s)
      | _ => match memberIds env given with
             | Throw e => (Throw e, s)
             | Ok ids => let w := nullish (wakeOn ≫= fun w => w) WakeAll in
                         (Ok tt, saveRooms (on_row i (fun r => set_members (fold_left (add_member w (now env)) ids (g_members r)) r) s))
             end
      end
  end.
Definition removeMember (env : Env) (id agent : string) : Op := fun s =>
  match row_index id (rows s) with
  | None => (Throw ("No room " +:+ id +:+ "."), s)
  | Some i => let key := nullish (registered env agent) agent in
              (Ok tt, saveRooms (on_row i (fun r => set_members (List.filter (fun m => negb (bool_decide (m_agent m = key))) (g_members r)) r) s))
  end.

(** ** Timers *)

(** [clearTimeout] of the map's handle, then a new timeout. *)
Definition schedule (key : Key) (delay : Z) (s : Rooms) : Rooms :=
  if stopped s then s
  else let p := match OMap.get key (timers s) with Some h => List.filter (fun x => negb (bool_decide (x.1.1 = h))) (pending s) | None => pending s end in
       with_next (with_timers (OMap.set key (next s) (timers s)) (p ++ [(next s, key, delay)]) s).
Definition stop (s : Rooms) : Rooms :=
  with_timers [] (List.filter (fun x => negb (bool_decide (x.1.1 ∈ OMap.vals (timers s)))) (pending s)) (with_stopped true s).

(** ** Posts *)

(** Who a post wakes. *)
Definition wakes (env : Env) (row : GroupRoom) (author : string) (mentions : list string) : list string :=
  let held a := match record env a with Some _ => true | None => false end in
  map m_agent (List.filter (fun m => negb (bool_decide (m_agent m = author)) && bool_decide (m_wakeOn m = WakeAll) && held (m_agent m)) (g_members row))
  ++ List.filter (fun a => negb (bool_decide (a = "owner")) && negb (bool_decide (a = author))
                           && negb (existsb (fun m => bool_decide (m_agent m = a)) (g_members row)) && held a) mentions.
Definition delivery_key (room id target : string) : string := "d:" +:+ room +:+ ":" +:+ id +:+ ":" +:+ target.
Definition bundle_key (room id target : string) : string := "b:" +:+ room +:+ ":" +:+ id +:+ ":" +:+ target.
Definition deliveriesFor (env : Env) (row : GroupRoom) (id : string) (draft : RoomPost) : list RoomDelivery :=
  match refusal row with
  | Some _ => []
  | None => map (fun target =>
      let over := MAX_HOPS <=? p_hops draft in
      mkDelivery target (if over then DStopped else DSending) 0 (now env) (delivery_key (g_id row) id target) None
        (if over then Some ("Stopped after " +:+ string_of_Z MAX_HOPS +:+ " agent-to-agent hops with no post from you.") else None) None None false None)
      (wakes env row (p_author draft) (p_mentions draft))
  end.
Definition with_deliveries (ds : list RoomDelivery) (p : RoomPost) : RoomPost := assign (deliveries_patch ds) p.
(** A post not yet appended, whose seq is none. *)
Definition mkDraft (row : GroupRoom) (author text : string) (images : list string) (at_ : Z) (requestId : string) (why : option string) (source : option (string * Z))
  (jobs mentions : list string) (hops : Z) (threadRoot : option string) : RoomPost :=
  mkPost 0 (g_id row) author text images at_ requestId why source jobs [] mentions hops threadRoot None.

Definition write (env : Env) (row : GroupRoom) (draft : RoomPost) (s : Rooms) : RoomPost * Rooms :=
  match byRequestId (p_requestId draft) (postsOf s (g_id row)) with
  | Some p => (p, s)
  | None =>
      let ds := deliveriesFor env row (post_id (last_seq (postsOf s (g_id row)) + 1)) draft in
      let '(p, created, l) := append (with_deliveries ds draft) (log_of s (g_id row)) in
      let s := with_log (g_id row) l s in
      (p, if created : bool then fold_left (fun s d => if bool_decide (d_state d = DSending) then schedule (g_id row, p_seq p, d_target d) 0 s else s) ds s else s)
  end.

Definition ownerPost (env : Env) (row : GroupRoom) (text requestId : string) (images mentions : list string) (threadRoot : option string) (s : Rooms) : RoomPost * Rooms :=
  let '(p, s) := write env row (mkDraft row "owner" text images (now env) requestId None None [] mentions 0 threadRoot) s in
  (p, with_reads (OMap.set (g_id row) (p_at p, p_seq p) (reads s)) s).

(** The failed deliveries go again. *)
Definition resend (now : Z) (d : RoomDelivery) : RoomDelivery :=
  if bool_decide (d_state d = DFailed)
  then mkDelivery (d_target d) DSending (d_attempts d) now (d_requestId d) (d_submission d) None (d_thread d) (d_away d) (d_waited d) (d_bundle d) else d.
Definition retry_post (env : Env) (row : GroupRoom) (p : RoomPost) (s : Rooms) : Rooms :=
  let failed := List.filter (fun d => bool_decide (d_state d = DFailed)) (p_deliveries p) in
  if bool_decide (failed = []) then s
  else let l := set_post (p_id p) (deliveries_patch (map (resend (now env)) (p_deliveries p))) (log_of s (g_id row)) in
       fold_left (fun s d => schedule (g_id row, p_seq p, d_target d) 0 s) failed (with_log (g_id row) l s).
Definition retry (env : Env) (id requestId : string) : Op := fun s =>
  match row_of s id with
  | None => (Throw ("No room " +:+ id +:+ "."), s)
  | Some row =>
      match byRequestId requestId (postsOf s (g_id row)), refusal row with
      | None, _ => (Throw ("No post " +:+ requestId +:+ " in " +:+ roomLabel row +:+ "."), s)
      | Some _, Some refused => (Throw refused, s)
      | Some p, None => (Ok tt, retry_post env row p s)
      end
  end.

(** A [SendRequest] to a room. *)
Record SendRequest := mkSend { sr_text : string; sr_requestId : string; sr_images : list string; sr_mentions : list string; sr_threadRoot : option string }.
Definition no_thread (row : GroupRoom) (ps : list RoomPost) (root : string) : bool :=
  negb (is_channel row) || negb (existsb (fun p => bool_decide (p_id p = root) && bool_decide (p_threadRoot p = None)) ps).
Definition post (env : Env) (id : string) (r : SendRequest) : Op := fun s =>
  match row_of s id with
  | None => (Throw ("No room " +:+ id +:+ "."), s)
  | Some row =>
      let ps := postsOf s (g_id row) in
      match byRequestId (sr_requestId r) ps with
      | Some p => if existsb (fun d => bool_decide (d_state d = DFailed)) (p_deliveries p) then retry env (g_id row) (p_requestId p) s else (Ok tt, s)
      | None =>
          match refusal row with
          | Some refused => (Throw refused, s)
          | None =>
              match sr_threadRoot r with
              | Some root => if no_thread row ps root then (Throw ("No thread " +:+ root +:+ " in " +:+ roomLabel row +:+ "."), s)
                             else (Ok tt, (ownerPost env row (sr_text r) (sr_requestId r) (sr_images r) (unique (omap (registered env) (List.filter (fun m => negb (bool_decide (m = "owner"))) (sr_mentions r)))) (Some root) s).2)
              | None => (Ok tt, (ownerPost env row (sr_text r) (sr_requestId r) (sr_images r) (unique (omap (registered env) (List.filter (fun m => negb (bool_decide (m = "owner"))) (sr_mentions r)))) None s).2)
              end
          end
      end
  end.

Inductive InputKind := KChannel | KSolo | KOther.
Record RoomInput := mkInput { ri_kind : InputKind; ri_name : option string; ri_agenda : option string; ri_homeChat : option string; ri_members : list string; ri_test : bool }.
(** [uuid] is [randomUUID().slice(0, 8)]. *)
Definition create `{RoomTexts} (env : Env) (uuid : string) (input : RoomInput) : Op := fun s =>
  match ri_kind input with
  | KOther => (Throw "A room's kind is channel or solo.", s)
  | k =>
      match memberIds env (ri_members input) with
      | Throw e => (Throw e, s)
      | Ok ids =>
          let members := map (fun a => mkMember a WakeAll (now env)) (unique ids) in
          let push row s := saveRooms (with_rows (rows s ++ [row]) s) in
          match k with
          | KChannel =>
              let name := channelName (nullish (ri_name input) "") in
              if bool_decide (name = "") then (Throw "A channel needs a name.", s)
              else if existsb (fun r => is_channel r && bool_decide (g_name r = name) && negb (g_archived r)) (rows s) then (Throw ("A channel named #" +:+ name +:+ " already exists."), s)
              else (Ok tt, push (mkRoom ("ch_" +:+ uuid) (Channel (trim (nullish (ri_agenda input) "")) (ri_homeChat input)) name (now env) false (ri_test input) members) s)
          | _ =>
              let agenda := trim (nullish (ri_agenda input) "") in
              if bool_decide (agenda = "") then (Throw "A Solo room needs an agenda.", s)
              else if bool_decide (members = []) then (Throw "A Solo room needs at least one agent.", s)
              else let given := trim (nullish (ri_name input) "") in
                   let row := mkRoom ("so_" +:+ uuid) (Solo agenda None) (if bool_decide (given = "") then nameFromAgenda agenda else given) (now env) false (ri_test input) members in
                   (Ok tt, (ownerPost env row agenda ("agenda:" +:+ g_id row) [] [] None (push row s)).2)
          end
      end
  end.

(** ** Delivery *)

Definition put_delivery (room target : string) (next : RoomDelivery) (s : Rooms) (p : RoomPost) : Rooms :=
  with_log room (set_post (p_id p) (deliveries_patch (map (fun d => if bool_decide (d_target d = target) then next else d) (p_deliveries p))) (log_of s room)) s.
(** [set] of [deliver]: the delivery to [target] of each member that has one. *)
Definition set_all (room target : string) (members : list Z) (patch : RoomDelivery -> RoomDelivery) (s : Rooms) : Rooms :=
  fold_left (fun s seq => match post_at (postsOf s room) seq with
                          | Some p => match delivery_to target p with Some d => put_delivery room target (patch d) s p | None => s end
                          | None => s
                          end) members s.

Definition bundle_of (target : string) (p : RoomPost) : option Bundle := delivery_to target p ≫= d_bundle.
Definition bundleMembers (ps : list RoomPost) (target : string) (p : RoomPost) : list RoomPost :=
  match bundle_of target p with Some b => omap (fun id => post_by_id id ps) (b_members b) | None => [p] end.
(** The post whose delivery goes: any other member of a bundle hands over to its first. *)
Fixpoint lead (fuel : nat) (ps : list RoomPost) (target : string) (p : RoomPost) : RoomPost :=
  match fuel, bundle_of target p with
  | S fuel, Some b => if bool_decide (head (b_members b) = Some (p_id p)) then p
                      else match head (b_members b) ≫= fun id => post_by_id id ps with Some h => lead fuel ps target h | None => p end
  | _, _ => p
  end.

(** A root post's earlier root posts that [target] has not had. *)
Fixpoint after_last {A} (f : A -> bool) (l : list A) : list A :=
  match l with [] => [] | x :: r => if f x && negb (existsb f r) then r else if existsb f r then after_last f r else x :: r end.
Definition missed (row : GroupRoom) (ps : list RoomPost) (p : RoomPost) (target : string) : list RoomPost :=
  if negb (is_channel row) || negb (bool_decide (p_threadRoot p = None)) then []
  else let roots := List.filter (fun q => bool_decide (p_threadRoot q = None) && (p_seq q <? p_seq p) && bool_decide (p_deletedAt q = None)) ps in
       last_n CONTEXT_POSTS (after_last (fun q => bool_decide (p_author q = target) || existsb (fun d => bool_decide (d_target d = target)) (p_deliveries q)) roots).

Definition with_state (st : DeliveryState) (now : Z) (error : string) (d : RoomDelivery) : RoomDelivery :=
  mkDelivery (d_target d) st (d_attempts d) now (d_requestId d) (d_submission d) (Some error) (d_thread d) (d_away d) (d_waited d) (d_bundle d).

(** [deliver] up to its first await, and the flight it starts. *)
Definition deliver (env : Env) (room : string) (seq : Z) (target : string) (s : Rooms) : Rooms * option nat :=
  match post_at (postsOf s room) seq with
  | None => (s, None)
  | Some p0 =>
      let ps := postsOf s room in
      let p := lead (length ps) ps target p0 in
      let key := (room, p_seq p, target) in
      let s := with_timers (OMap.del key (timers s)) (pending s) s in
      match delivery_to target p, row_of s room with
      | Some d, Some row =>
          if stopped s || negb (bool_decide (d_state d = DSending)) || bool_decide (key ∈ inflight s) then (s, None)
          else let members := bundleMembers ps target p in
               match record env target, refusal row with
               | None, r => (set_all room target (map p_seq members) (with_state DFailed (now env) (nullish r ("No agent " +:+ target +:+ "."))) s, None)
               | Some _, Some refused => (set_all room target (map p_seq members) (with_state DStopped (now env) refused) s, None)
               | Some agent, None =>
                   let ms := missed row ps p target in
                   let images := List.filter (hasUpload env) (List.concat (map p_images (ms ++ members))) in
                   let f := mkFlight (next s) key (map p_seq members) d (bundle_of target p) (map p_seq ms) (ar_host agent) images None in
                   (with_next (with_flights (inflight s ++ [key]) (flights s ++ [f]) s), Some (next s))
               end
      | _, _ => (s, None)
      end
  end.

Definition flight_of (id : nat) (s : Rooms) : option Flight := List.find (fun f => Nat.eqb (fl_id f) id) (flights s).
Definition end_flight (f : Flight) (s : Rooms) : Rooms :=
  with_flights (List.filter (fun k => negb (bool_decide (k = fl_key f))) (inflight s)) (List.filter (fun g => negb (Nat.eqb (fl_id g) (fl_id f))) (flights s)) s.

(** What a call of pi-host threw: its box away, or a message. *)
Inductive HostError := HostAway (box : string) | HostFailed (message : string).

Definition away_delivery (now : Z) (box : string) (d : RoomDelivery) : RoomDelivery :=
  mkDelivery (d_target d) (d_state d) (d_attempts d) now (d_requestId d) (d_submission d) (Some (queuedNote box)) (d_thread d) (Some box) (d_waited d) (d_bundle d).
Definition refused_delivery (now attempts : Z) (message : string) (d : RoomDelivery) : RoomDelivery :=
  mkDelivery (d_target d) DFailed attempts now (d_requestId d) (d_submission d) (Some message) (d_thread d) (d_away d) (d_waited d) (d_bundle d).
Definition later_delivery (now attempts : Z) (message : string) (d : RoomDelivery) : RoomDelivery :=
  mkDelivery (d_target d) (d_state d) attempts now (d_requestId d) (d_submission d) (if 3 <=? attempts then Some message else None) (d_thread d) None (d_waited d) (d_bundle d).
Definition taken_delivery (now submission : Z) (thread target : string) (d : RoomDelivery) : RoomDelivery :=
  mkDelivery target DDelivered (d_attempts d + 1) now (d_requestId d) (Some submission) None (Some thread) None (d_waited d) (d_bundle d).

(** The [catch] of [deliver], and its [finally]. *)
Definition deliver_failed (env : Env) (f : Flight) (e : HostError) (s : Rooms) : Rooms :=
  let '(room, seq, target) := fl_key f in
  let attempts := d_attempts (fl_delivery f) + 1 in
  let message := match e with HostFailed m => m | HostAway box => queuedNote box end in
  let away := match e with HostAway box => Some box | HostFailed _ => if linkAway env (fl_host f) then Some (fl_host f) else None end in
  end_flight f
    (match away with
     | Some box => set_all room target (fl_members f) (away_delivery (now env) box) s
     | None => if refusedForGood message then set_all room target (fl_members f) (refused_delivery (now env) attempts message) s
               else schedule (fl_key f) (retryWait attempts) (set_all room target (fl_members f) (later_delivery (now env) attempts message) s)
     end).

Section Submit.
Context `{RoomTexts}.

Definition members_of (s : Rooms) (room : string) (seqs : list Z) : list RoomPost := omap (post_at (postsOf s room)) seqs.
Definition submit_text (env : Env) (row : GroupRoom) (s : Rooms) (f : Flight) : string :=
  let '(room, seq, _) := fl_key f in
  let ps := postsOf s room in
  let members := members_of s room (fl_members f) in
  let ms := members_of s room (fl_missed f) in
  match fl_bundle f, post_at ps seq with
  | Some _, _ => bundleText row ps members ms (fl_host f) (now env)
  | None, Some p => if d_waited (fl_delivery f) then agedPost (envelope row ps p ms) (p_at p) (fl_host f) (now env) else envelope row ps p ms
  | None, None => ""
  end.
(** The comm thread is there: its cursor, and the submit up to pi-host's answer. *)
Definition submit (env : Env) (f : Flight) (thread : string) (s : Rooms) : Rooms :=
  let '(room, seq, target) := fl_key f in
  let s := match OMap.get thread (feeds s) with Some _ => s | None => saveRooms (with_feeds (OMap.set thread (mkCursor 0 [] None) (feeds s)) s) end in
  match row_of s room with
  | None => s
  | Some row =>
      let members := members_of s room (fl_members f) in
      let g := mkFlight (fl_id f) (fl_key f) (fl_members f) (fl_delivery f) (fl_bundle f) (fl_missed f) (fl_host f) (fl_images f) (Some thread) in
      with_sent (mkSent thread room target (fl_members f) (map p_hops members)
                   (match fl_bundle f with Some b => b_requestId b | None => d_requestId (fl_delivery f) end)
                   (submit_text env row s f) (fl_images f) (existsb (fun p => bool_decide (p_author p = "owner")) members))
        (with_flights (inflight s) (map (fun h => if Nat.eqb (fl_id h) (fl_id f) then g else h) (flights s)) s)
  end.
Definition thread_ready (env : Env) (id : nat) (answer : string + HostError) (s : Rooms) : Rooms :=
  match flight_of id s with
  | Some f => match fl_thread f, answer with
              | None, inl thread => submit env f thread s
              | None, inr e => deliver_failed env f e s
              | Some _, _ => s
              end
  | None => s
  end.
(** pi-host's answer to the submit. *)
Definition answered (env : Env) (id : nat) (answer : Z + HostError) (s : Rooms) : Rooms :=
  match flight_of id s with
  | Some f => match fl_thread f, answer with
              | Some thread, inl submission => let '(room, _, target) := fl_key f in
                                               end_flight f (set_all room target (fl_members f) (taken_delivery (now env) submission thread target) s)
              | Some _, inr e => deliver_failed env f e s
              | None, _ => s
              end
  | None => s
  end.
End Submit.

(** ** A box comes back *)

Definition waits_for (box : string) (d : RoomDelivery) : bool := bool_decide (d_state d = DSending) && bool_decide (d_away d = Some box).
(** Per target, the posts that wait for [box], in order. *)
Definition waiting (box : string) (ps : list RoomPost) : list (string * list Z) :=
  fold_left (fun m p => fold_left (fun m d => if waits_for box d then OMap.set (d_target d) (nullish (OMap.get (d_target d) m) [] ++ [p_seq p]) m else m) (p_deliveries p) m) ps [].

Definition released (now : Z) (bundle : option Bundle) (d : RoomDelivery) : RoomDelivery :=
  mkDelivery (d_target d) (d_state d) (d_attempts d) now (d_requestId d) (d_submission d) None (d_thread d) None true (orelse bundle (d_bundle d)).
Definition bundle_up (now : Z) (room target : string) (seqs : list Z) (s : Rooms) : Rooms :=
  let fresh := List.filter (fun p => bool_decide (bundle_of target p = None)) (members_of s room seqs) in
  let bundle := match fresh with p :: _ :: _ => Some (mkBundle (bundle_key room (p_id p) target) (map p_id fresh)) | _ => None end in
  fold_left (fun s seq => match post_at (postsOf s room) seq with
                          | Some p => match delivery_to target p with
                                      | Some d => put_delivery room target (released now (if bool_decide (seq ∈ map p_seq fresh) then bundle else None) d) s p
                                      | None => s
                                      end
                          | None => s
                          end) seqs s.
Definition heads_of (room target : string) (seqs : list Z) (s : Rooms) : list Z :=
  List.filter (fun seq => match post_at (postsOf s room) seq with
                          | Some p => match bundle_of target p with Some b => bool_decide (head (b_members b) = Some (p_id p)) | None => true end
                          | None => false
                          end) seqs.

(** The next target with a delivery to try, in a room or in the rooms after it. *)
Fixpoint next_target (now : Z) (room : string) (ts : list (string * list Z)) (s : Rooms) : Rooms * option (string * list Z * list (string * list Z)) :=
  match ts with
  | [] => (s, None)
  | (target, seqs) :: ts =>
      let s := bundle_up now room target seqs s in
      match heads_of room target seqs s with [] => next_target now room ts s | hs => (s, Some (target, hs, ts)) end
  end.
Fixpoint next_room (now : Z) (box : string) (rooms : list string) (s : Rooms) : Rooms * option (string * list string * (string * list Z * list (string * list Z))) :=
  match rooms with
  | [] => (s, None)
  | room :: rooms => match next_target now room (waiting box (postsOf s room)) s with (s, Some t) => (s, Some (room, rooms, t)) | (s, None) => next_room now box rooms s end
  end.

(** [release] from one [await this.deliver(head, target)] to the next. *)
Definition release_deliver (env : Env) (t : Release) (s : Rooms) : Rooms * option Release :=
  match re_heads t with
  | [] => (s, None)
  | h :: hs => let '(s, f) := deliver env (re_room t) h (re_target t) s in
               (s, Some (mkRelease (re_id t) (re_box t) (re_now t) (re_rows t) (re_room t) (re_targets t) (re_target t) hs f))
  end.
Definition release_run (env : Env) (t : Release) (s : Rooms) : Rooms * option Release :=
  match re_heads t with
  | _ :: _ => release_deliver env t s
  | [] =>
      match next_target (re_now t) (re_room t) (re_targets t) s with
      | (s, Some (target, hs, ts)) => release_deliver env (mkRelease (re_id t) (re_box t) (re_now t) (re_rows t) (re_room t) ts target hs None) s
      | (s, None) =>
          match next_room (re_now t) (re_box t) (re_rows t) s with
          | (s, Some (room, rooms, (target, hs, ts))) => release_deliver env (mkRelease (re_id t) (re_box t) (re_now t) rooms room ts target hs None) s
          | (s, None) => (s, None)
          end
      end
  end.
Definition release (env : Env) (box : string) (s : Rooms) : Rooms :=
  let t := mkRelease (next s) box (now env) (map g_id (rows s)) "" [] "" [] None in
  let '(s, t) := release_run env t (with_next s) in
  match t with Some t => with_releases (releases s ++ [t]) s | None => s end.
(** The awaited [deliver] is over. *)
Definition release_on (env : Env) (id : nat) (s : Rooms) : Rooms :=
  match List.find (fun t => Nat.eqb (re_id t) id) (releases s) with
  | None => s
  | Some t =>
      if match re_wait t with Some f => bool_decide (is_Some (flight_of f s)) | None => false end then s
      else let '(s, t') := release_run env t s in
           with_releases (match t' with Some t' => map (fun u => if Nat.eqb (re_id u) id then t' else u) (releases s)
                                      | None => List.filter (fun u => negb (Nat.eqb (re_id u) id)) (releases s) end) s
  end.

(** ** An agent's post, the start and a crash *)

Fixpoint contains (p l : chars) : bool := starts_with p l || match l with [] => false | _ :: r => contains p r end.
Definition is_word (c : Ascii.ascii) : bool := is_digit c || ((65 <=? code c) && (code c <=? 90)) || ((97 <=? code c) && (code c <=? 122)) || (code c =? 95).
(** [/@(owner|You)\b/.test(text)]. *)
Fixpoint names_owner (l : chars) : bool :=
  existsb (fun w => starts_with (to_chars w) l && match drop (String.length w) l with c :: _ => negb (is_word c) | [] => true end) ["@owner"; "@You"]
  || match l with [] => false | _ :: r => names_owner r end.
Section Speak.
Context `{RoomTexts}.

Definition mentionsIn (env : Env) (row : GroupRoom) (text author : string) : list string :=
  let ids := unique (map m_agent (g_members row) ++ map ar_id (List.filter (fun a => negb (ar_archived a)) (agents env))) in
  List.filter (fun a => negb (bool_decide (a = author)) && contains (to_chars ("@" +:+ name_of a)) (to_chars text)) ids
  ++ (if names_owner (to_chars text) then ["owner"] else []).

(** What the feed knows of a speaking call. *)
Record Spoken := mkSpoken { sp_text : string; sp_at : Z; sp_requestId : string; sp_why : option string; sp_source : option (string * Z); sp_jobs : list string }.
(** [side.post]: the agent's post, one hop after the post that started its turn, in that post's thread. *)
Definition speak (env : Env) (row : GroupRoom) (author : string) (x : Spoken) (turn : option FeedTurn) (s : Rooms) : RoomPost * Rooms :=
  let ps := postsOf s (g_id row) in
  let started := (turn ≫= ft_post) ≫= fun id => post_by_id id ps in
  let root := if is_channel row then (fun p => nullish (p_threadRoot p) (p_id p)) <$> started else None in
  write env row (mkDraft row author (sp_text x) [] (sp_at x) (sp_requestId x) (sp_why x) (sp_source x) (sp_jobs x) (mentionsIn env row (sp_text x) author)
                   (nullish (turn ≫= ft_hops) 0 + 1) root) s.
End Speak.

Definition sending_keys (s : Rooms) : list Key :=
  concat (map (fun row => concat (map (fun p => map (fun d => (p_room p, p_seq p, d_target d)) (List.filter (fun d => bool_decide (d_state d = DSending)) (p_deliveries p)))
                                      (postsOf s (g_id row)))) (rows s)).
Definition start (s : Rooms) : Rooms :=
  let s := with_stopped false s in fold_left (fun s k => schedule k 0 s) (sending_keys s) s.

(** The process dies, and the next one reads the files; each log lost its last lines. *)
Definition crash_log (lost : nat) (l : RoomLog) : RoomLog := let ls := take (length (rl_file l) - lost) (rl_file l) in mkLog (read_log ls) ls.
Definition crash (lost : string -> nat) (s : Rooms) : Rooms :=
  mkRooms (saved s).1 (map (fun kl => (kl.1, crash_log (lost kl.1) kl.2)) (logs s)) (saved s).2 (reads s) (saved s) [] [] [] [] [] (next s) true (sent s).

Definition markRead (id : string) (seq : option Z) (now : Z) : Op := fun s =>
  match row_of s id with
  | None => (Throw ("No room " +:+ id +:+ "."), s)
  | Some row => let last := last_seq (postsOf s (g_id row)) in
                (Ok tt, with_reads (OMap.set (g_id row) (now, Z.min (nullish seq last) last) (reads s)) s)
  end.

(** ** Steps *)

Inductive Event :=
| Create (uuid : string) (input : RoomInput) | Update (id : string) (x : RoomPatch)
| AddMembers (id : string) (given : list string) (wakeOn : option (option WakeOn)) | RemoveMember (id agent : string)
| Post (id : string) (r : SendRequest) | Retry (id requestId : string) | MarkRead (id : string) (seq : option Z)
| Speak (id author : string) (x : Spoken) (turn : option FeedTurn)
| Fire (handle : nat) | ThreadReady (flight : nat) (answer : string + HostError) | Answered (flight : nat) (answer : Z + HostError)
| BoxBack (box : string) | ReleaseOn (id : nat)
| Start | Stop | Crash (lost : string -> nat).

Definition fire (env : Env) (h : nat) (s : Rooms) : Rooms :=
  match List.find (fun x => Nat.eqb x.1.1 h) (pending s) with
  | Some (_, (room, seq, target), _) => (deliver env room seq target (with_timers (timers s) (List.filter (fun x => negb (Nat.eqb x.1.1 h)) (pending s)) s)).1
  | None => s
  end.

Definition step `{RoomTexts} (env : Env) (ev : Event) (s : Rooms) : Rooms :=
  match ev with
  | Create uuid input => (create env uuid input s).2
  | Update id x => (update env id x s).2
  | AddMembers id given w => (addMembers env id given w s).2
  | RemoveMember id agent => (removeMember env id agent s).2
  | Post id r => (post env id r s).2
  | Retry id r => (retry env id r s).2
  | MarkRead id seq => (markRead id seq (now env) s).2
  | Speak id author x turn => match row_of s id with Some row => (speak env row author x turn s).2 | None => s end
  | Fire h => fire env h s
  | ThreadReady f a => thread_ready env f a s
  | Answered f a => answered env f a s
  | BoxBack box => release env box s
  | ReleaseOn id => release_on env id s
  | Start => start s
  | Stop => stop s
  | Crash lost => crash lost s
  end.
Definition steps `{RoomTexts} (evs : list (Env * Event)) (s : Rooms) : Rooms := fold_left (fun s ev => step ev.1 ev.2 s) evs s.
