(* ===== verification/RoomsSpec.v ===== *)
(** * What the rooms promise

    The invariant of every run ([Inv]): each post log is made of lines its posts allow ([log_ok]), so that any prefix
    of it a crash leaves is one too, and flights, releases and submissions name posts within the hop limit.  From it:
    a post at the limit is never submitted, a key names its posts, open channels keep distinct names, and a delivery
    that is not part of a bundle is driven.  Two ways a bundle loses a post end the file. *)

From S2P Require Import Prelude Outbox RoomData RoomText Rooms.
#[local] Open Scope string_scope.
#[local] Open Scope list_scope.
#[local] Open Scope Z_scope.

(** ** Well-formed logs *)

(** A delivery of the post [p] among [ps]. *)
Record wf_delivery (room : string) (ps : list RoomPost) (p : RoomPost) (d : RoomDelivery) : Prop := {
  wd_author : d_target d <> p_author p;
  wd_key : d_requestId d = delivery_key room (p_id p) (d_target d);
  wd_hops : MAX_HOPS <= p_hops p -> d_state d = DStopped /\ d_bundle d = None;
  wd_bundle : forall b, d_bundle d = Some b -> b_requestId b = bundle_key room (default "" (head (b_members b))) (d_target d)
                /\ forall id, id ∈ b_members b -> exists q, post_by_id id ps = Some q /\ p_hops q < MAX_HOPS }.
Definition wf_post (room : string) (ps : list RoomPost) (p : RoomPost) : Prop :=
  p_room p = room /\ NoDup (map d_target (p_deliveries p)) /\ Forall (wf_delivery room ps p) (p_deliveries p).
Record wf_posts (room : string) (ps : list RoomPost) : Prop := {
  wp_counted : counted ps;
  wp_keys : NoDup (map p_requestId ps);
  wp_posts : forall p, p ∈ ps -> wf_post room ps p }.

(** A line the posts before it allow. *)
Definition ok_line (room : string) (ps : list RoomPost) (l : LogLine) : Prop :=
  match l with
  | LPost p => p_seq p = last_seq ps + 1 /\ byRequestId (p_requestId p) ps = None /\ wf_post room ps p
  | LSet id x => exists p ds, p ∈ ps /\ id = p_id p /\ x = deliveries_patch ds /\ map d_target ds = map d_target (p_deliveries p) /\ Forall (wf_delivery room ps p) ds
  end.
Definition log_ok (room : string) (l : RoomLog) : Prop :=
  rl_posts l = read_log (rl_file l) /\ forall k line, rl_file l !! k = Some line -> ok_line room (read_log (take k (rl_file l))) line.

Lemma find_app_some {A} (f : A -> bool) l r x : List.find f l = Some x -> List.find f (l ++ r) = Some x.
Proof. induction l; cbn; [done|]. by destruct (f a). Qed.

(** The posts after a line hold what a delivery needs of the posts before it. *)
Lemma find_after room ps l id q : ok_line room ps l -> counted ps -> post_by_id id ps = Some q -> exists q', post_by_id id (read_line ps l) = Some q' /\ p_hops q' = p_hops q /\ p_author q' = p_author q /\ p_seq q' = p_seq q.
Proof.
  intros Hok Hc Hf. destruct l as [p|id' x]; cbn.
  - exists q. destruct (post_by_id (p_id p) ps) eqn:E; [done|]. split; [|done]. by apply find_app_some.
  - destruct Hok as (p & ds & Hp & -> & -> & _). apply post_by_id_Some in Hf as [Hq Hid].
    set (q' := if bool_decide (p_id q = p_id p) then assign (deliveries_patch ds) q else q).
    assert (Hsame : p_id q' = p_id q /\ p_hops q' = p_hops q /\ p_author q' = p_author q /\ p_seq q' = p_seq q) by (unfold q'; by case_bool_decide).
    exists q'. split; [|tauto]. rewrite <- Hid. destruct Hsame as [<- _]. apply post_by_id_in; [by apply counted_patch|].
    apply elem_patch. by exists q.
Qed.
Lemma wf_delivery_after room ps l p p' d : ok_line room ps l -> counted ps -> p_author p' = p_author p -> p_hops p' = p_hops p -> p_id p' = p_id p ->
  wf_delivery room ps p d -> wf_delivery room (read_line ps l) p' d.
Proof.
  intros Hok Hc Ha Hh Hid [D1 D2 D3 D4]. split; rewrite ?Ha, ?Hh, ?Hid; [done..|]. intros b Hb. destruct (D4 b Hb) as [Hkey Hall]. split; [done|].
  intros id Hin. destruct (Hall id Hin) as (q & Hq & Hlt). destruct (find_after _ _ _ _ _ Hok Hc Hq) as (q' & ? & ? & _). exists q'. split; [done|lia].
Qed.

Lemma wf_after room ps l : wf_posts room ps -> ok_line room ps l -> wf_posts room (read_line ps l).
Proof.
  intros [Hc Hk Hp] Hok. pose proof Hok as Hok'. destruct l as [p|id x].
  - destruct Hok as (Hseq & Hnew & Hroom & Hnd & Hds).
    assert (Hfresh : post_by_id (p_id p) ps = None).
    { destruct (post_by_id (p_id p) ps) as [q|] eqn:E; [|done]. apply post_by_id_Some in E as [Hq Hid]. pose proof (counted_bounds _ _ Hc Hq).
      apply post_id_inj in Hid; lia. }
    assert (Hl : read_line ps (LPost p) = ps ++ [p]) by (cbn; by rewrite Hfresh). split.
    + rewrite Hl. by apply counted_snoc.
    + rewrite Hl, map_app. apply NoDup_app. split_and!; [done| |apply NoDup_singleton]. intros r Hr Hr'. apply list_elem_of_singleton in Hr' as ->.
      apply list_elem_of_In, in_map_iff in Hr as (q & Hq & Hin). by apply (byRequestId_None _ _ Hnew q); [apply list_elem_of_In|].
    + intros q Hq. assert (Hwf : wf_post room ps q) by (rewrite Hl in Hq; apply elem_of_app in Hq as [Hq|Hq%list_elem_of_singleton]; [by apply Hp|by subst]).
      destruct Hwf as (H1 & H2 & H3). split_and!; [done..|]. eapply Forall_impl; [exact H3|]. intros d Hd. by apply (wf_delivery_after room ps _ q).
  - destruct Hok as (p & ds & Hin & -> & -> & Htg & Hds). cbn [read_line]. split.
    + by apply counted_patch.
    + by rewrite patch_keys.
    + intros q' (q & Hq & ->)%elem_patch. destruct (Hp q Hq) as (H1 & H2 & H3). case_bool_decide as Hid.
      * assert (q = p) as -> by by apply (counted_id ps). split_and!; [done|cbn; by rewrite Htg|]. cbn. eapply Forall_impl; [exact Hds|].
        intros d Hd. apply (wf_delivery_after room ps (LSet (p_id p) (deliveries_patch ds)) p); try done.
      * split_and!; [done..|]. eapply Forall_impl; [exact H3|]. intros d Hd. by apply (wf_delivery_after room ps (LSet (p_id p) (deliveries_patch ds)) q).
Qed.

Lemma log_ok_no_log room : log_ok room no_log.
Proof. by split. Qed.
Lemma log_ok_prefix room l k : log_ok room l -> log_ok room (mkLog (read_log (take k (rl_file l))) (take k (rl_file l))).
Proof.
  intros [_ Hl]. split; [done|]. cbn. intros j line Hj. apply lookup_take_Some in Hj as [Hj Hlt]. rewrite take_take, Nat.min_l by lia. by apply Hl.
Qed.
Lemma log_ok_wf room l : log_ok room l -> wf_posts room (rl_posts l).
Proof.
  intros [Hp Hl]. rewrite Hp. clear Hp. induction (rl_file l) as [|line ls IH] using rev_ind.
  - split; [done|apply NoDup_nil_2|by intros p ?%elem_of_nil].
  - rewrite read_log_snoc. apply wf_after.
    + apply IH. intros k x Hk. specialize (Hl k x). rewrite lookup_app_l in Hl by (by apply lookup_lt_Some in Hk).
      rewrite take_app_le in Hl by (apply Nat.lt_le_incl; by apply lookup_lt_Some in Hk). by apply Hl.
    + specialize (Hl (length ls) line). rewrite take_app_length in Hl. apply Hl. by rewrite lookup_app_r, Nat.sub_diag.
Qed.
Lemma log_ok_snoc room l line : log_ok room l -> ok_line room (rl_posts l) line -> log_ok room (mkLog (read_line (rl_posts l) line) (rl_file l ++ [line])).
Proof.
  intros [Hp Hl] Hok. split; cbn [rl_posts rl_file]; [by rewrite read_log_snoc, Hp|]. intros k x Hk. destruct (decide (k < length (rl_file l))%nat).
  - rewrite lookup_app_l in Hk by done. rewrite take_app_le by lia. by apply Hl.
  - apply lookup_lt_Some in Hk as Hlt. rewrite length_app in Hlt. cbn in Hlt. assert (k = length (rl_file l)) as -> by lia.
    rewrite lookup_app_r, Nat.sub_diag in Hk by lia. cbn in Hk. injection Hk as <-. rewrite take_app_length, <- Hp. done.
Qed.

(** ** States *)

Definition logs_ok (s : Rooms) : Prop := forall room, log_ok room (log_of s room).
(** A post within the hop limit. *)
Definition live_post (s : Rooms) (room : string) (seq : Z) : Prop := exists p, post_at (postsOf s room) seq = Some p /\ p_hops p < MAX_HOPS.
Definition good_bundle (s : Rooms) (room target : string) (b : Bundle) : Prop :=
  b_requestId b = bundle_key room (default "" (head (b_members b))) target /\ forall id, id ∈ b_members b -> exists seq, id = post_id seq /\ live_post s room seq.

Lemma post_at_Some ps seq p : post_at ps seq = Some p -> p ∈ ps /\ p_seq p = seq.
Proof. intros [Hin Hb]%find_some. split; [by apply list_elem_of_In|by apply Z.eqb_eq]. Qed.
Lemma post_at_in ps p : counted ps -> p ∈ ps -> post_at ps (p_seq p) = Some p.
Proof.
  intros Hc Hp. destruct (post_at ps (p_seq p)) as [q|] eqn:E.
  - apply post_at_Some in E as [Hq Hs]. f_equal. by apply (nodup_key p_seq ps); [apply counted_nodup|..].
  - pose proof (find_none _ _ E p ltac:(by apply list_elem_of_In)) as Hb. cbn in Hb. by rewrite Z.eqb_refl in Hb.
Qed.
Lemma delivery_to_Some target p d : delivery_to target p = Some d -> d ∈ p_deliveries p /\ d_target d = target.
Proof. intros [Hin Hb]%find_some. split; [by apply list_elem_of_In|by apply bool_decide_eq_true in Hb]. Qed.
Lemma logs_wf s room : logs_ok s -> wf_posts room (postsOf s room).
Proof. intros H. apply log_ok_wf, H. Qed.
Lemma wf_of s room p d : logs_ok s -> p ∈ postsOf s room -> d ∈ p_deliveries p -> wf_delivery room (postsOf s room) p d.
Proof. intros H Hp Hd. destruct (wp_posts _ _ (logs_wf _ _ H) _ Hp) as (_ & _ & Hall). rewrite Forall_forall in Hall. by apply Hall. Qed.

(** One state after another, with the same flights, releases and submissions, whose posts only gained lines. *)
Definition advance (s s' : Rooms) : Prop :=
  logs_ok s -> logs_ok s' /\ (forall room seq, live_post s room seq -> live_post s' room seq)
    /\ flights s' = flights s /\ releases s' = releases s /\ sent s' = sent s.
Lemma advance_trans s s' s'' : advance s s' -> advance s' s'' -> advance s s''.
Proof. intros H1 H2 Hs. destruct (H1 Hs) as (L1 & P1 & F1 & R1 & S1). destruct (H2 L1) as (L2 & P2 & F2 & R2 & S2). split_and!; [done|auto|congruence..]. Qed.
Lemma advance_same s s' : logs s' = logs s -> flights s' = flights s -> releases s' = releases s -> sent s' = sent s -> advance s s'.
Proof. intros Hl Hf Hr Ht Hs. split_and!; [|intros room seq|done..]; unfold logs_ok, live_post, postsOf, log_of in *; by rewrite Hl. Qed.
Lemma advance_fold {A} (P : Rooms -> A -> Prop) (f : Rooms -> A -> Rooms) l s :
  (forall s s' x, advance s s' -> logs_ok s -> P s x -> P s' x) -> (forall s x, P s x -> advance s (f s x)) -> Forall (P s) l -> advance s (fold_left f l s).
Proof.
  intros Hmono Hstep. revert s. induction l as [|x l IH]; intros s Hall; [by apply advance_same|]. apply Forall_cons in Hall as [Hx Hl]. cbn.
  intros Hs. assert (Ha := Hstep s x Hx). apply (advance_trans _ (f s x)); [done| |done]. apply IH. eapply Forall_impl; [exact Hl|]. intros y Hy. by apply (Hmono s).
Qed.
Lemma advance_schedule key delay s : advance s (schedule key delay s).
Proof. unfold schedule. destruct (stopped s); by apply advance_same. Qed.

Lemma log_of_with room l s room' : log_of (with_log room l s) room' = if decide (room' = room) then l else log_of s room'.
Proof. unfold log_of, with_log. cbn. rewrite OMap.get_set. by case_decide. Qed.
Lemma advance_line room line s : ok_line room (postsOf s room) line ->
  advance s (with_log room (mkLog (read_line (postsOf s room) line) (rl_file (log_of s room) ++ [line])) s).
Proof.
  intros Hok Hs. split_and!; [| |done..].
  - intros room'. rewrite log_of_with. case_decide; [subst; by apply log_ok_snoc|apply Hs].
  - intros room' seq (p & Hp & Hh). unfold live_post, postsOf. rewrite log_of_with. case_decide; [subst|by exists p]. cbn [rl_posts].
    pose proof (logs_wf _ room Hs) as W. apply post_at_Some in Hp as [Hin <-].
    destruct (find_after room _ line _ _ Hok (wp_counted _ _ W) (post_by_id_in _ _ (wp_counted _ _ W) Hin)) as (q & Hq & Hqh & _ & Hqs).
    apply post_by_id_Some in Hq as [Hq _]. exists q. split; [|lia]. rewrite <- Hqs. apply post_at_in; [|done].
    by apply (wp_counted room), wf_after.
Qed.

Lemma live_mono s s' room seq : advance s s' -> logs_ok s -> live_post s room seq -> live_post s' room seq.
Proof. intros Ha Hs. by apply Ha. Qed.
Lemma good_bundle_mono s s' room target b : advance s s' -> logs_ok s -> good_bundle s room target b -> good_bundle s' room target b.
Proof. intros Ha Hs [Hk Hm]. split; [done|]. intros id Hin. destruct (Hm id Hin) as (seq & Hid & Hl). exists seq. split; [done|]. by apply (live_mono s). Qed.

(** One delivery put in the place of another of the post. *)
Lemma advance_put room target s p d d' : p ∈ postsOf s room -> p_hops p < MAX_HOPS -> delivery_to target p = Some d ->
  d_target d' = target -> d_requestId d' = d_requestId d -> (forall b, d_bundle d' = Some b -> d_bundle d = Some b \/ good_bundle s room target b) ->
  advance s (put_delivery room target d' s p).
Proof.
  intros Hp Hh Hd Ht Hr Hb Hs. unfold put_delivery, set_post. apply (advance_line room (LSet (p_id p) _)); [|done].
  destruct (delivery_to_Some _ _ _ Hd) as [Hin Htd]. eexists p, _. split; [done|]. split; [done|]. split; [done|]. split.
  - rewrite map_map. apply map_ext. intros e. case_bool_decide; congruence.
  - apply Forall_forall. intros e He. apply list_elem_of_In, in_map_iff in He as (e0 & <- & He0). apply list_elem_of_In in He0.
    pose proof (wf_of _ _ _ _ Hs Hp He0) as We. case_bool_decide; [|done]. pose proof (wf_of _ _ _ _ Hs Hp Hin) as [D1 D2 D3 D4]. split.
    + congruence.
    + congruence.
    + lia.
    + intros b Hb'. destruct (Hb b Hb') as [Hold|[Hk Hm]]; [rewrite Ht, <- Htd; by apply D4|]. rewrite Ht. split; [done|].
      intros id Hid. destruct (Hm id Hid) as (seq & -> & q & Hq & Hqh). apply post_at_Some in Hq as [Hq <-]. exists q. split; [|done].
      apply (post_by_id_in _ q); [by apply (wp_counted room), logs_wf|done].
Qed.

Definition good_patch (target : string) (patch : RoomDelivery -> RoomDelivery) : Prop :=
  forall d, d_target d = target -> d_target (patch d) = target /\ d_requestId (patch d) = d_requestId d /\ d_bundle (patch d) = d_bundle d.
Lemma advance_set_all room target members patch s : good_patch target patch -> Forall (live_post s room) members -> advance s (set_all room target members patch s).
Proof.
  intros Hg. apply (advance_fold (fun s => live_post s room)); [intros; by eapply live_mono|].
  clear s. intros s seq (p & Hp & Hh). rewrite Hp. destruct (delivery_to target p) as [d|] eqn:Hd; [|by apply advance_same].
  destruct (delivery_to_Some _ _ _ Hd) as [_ Ht]. destruct (Hg d Ht) as (G1 & G2 & G3). apply post_at_Some in Hp as [Hin _].
  apply (advance_put _ _ _ _ d); [done|done|done|done|done|]. intros b. rewrite G3. by left.
Qed.

(** ** Each operation keeps the logs *)

Lemma advance_schedules {A} (key : A -> Key) (cond : A -> bool) l s : advance s (fold_left (fun s x => if cond x then schedule (key x) 0 s else s) l s).
Proof.
  apply (advance_fold (fun _ _ => True)); [done| |by apply Forall_true]. intros s' x _. destruct (cond x); [apply advance_schedule|by apply advance_same].
Qed.

Lemma nodup_filter {A} (f : A -> bool) l : NoDup l -> NoDup (List.filter f l).
Proof. intros H. apply NoDup_ListNoDup, List.NoDup_filter. by apply NoDup_ListNoDup. Qed.
Lemma elem_filter {A} (f : A -> bool) l x : x ∈ List.filter f l <-> x ∈ l /\ f x = true.
Proof. by rewrite !list_elem_of_In, filter_In. Qed.
Lemma nodup_map_List_filter {A B} (g : A -> B) (f : A -> bool) l : NoDup (map g l) -> NoDup (map g (List.filter f l)).
Proof.
  induction l as [|x l IH]; cbn; [done|]. intros [Hn Hd]%NoDup_cons. destruct (f x); cbn; [|by apply IH]. apply NoDup_cons. split; [|by apply IH].
  intros Hin. apply Hn. apply list_elem_of_In, in_map_iff in Hin as (y & <- & [Hy _]%filter_In). by apply list_elem_of_In, in_map.
Qed.

Definition wf_draft (row : GroupRoom) (draft : RoomPost) : Prop :=
  p_room draft = g_id row /\ p_deliveries draft = [] /\ NoDup (map m_agent (g_members row)) /\ NoDup (List.filter (fun a => negb (bool_decide (a = "owner"))) (p_mentions draft)).
Lemma wakes_spec env row author mentions : NoDup (map m_agent (g_members row)) -> NoDup (List.filter (fun a => negb (bool_decide (a = "owner"))) mentions) ->
  NoDup (wakes env row author mentions) /\ forall a, a ∈ wakes env row author mentions -> a <> author.
Proof.
  intros Hm Hn. unfold wakes. split.
  - apply NoDup_app. split_and!.
    + by apply nodup_map_List_filter.
    + intros a Ha Hb. apply list_elem_of_In, in_map_iff in Ha as (m & <- & [Hin _]%filter_In). apply elem_filter in Hb as [_ Hb]. simp_ok.
      assert (existsb (fun m0 => bool_decide (m_agent m0 = m_agent m)) (g_members row) = true); [|congruence].
      apply existsb_exists. exists m. split; [done|by apply bool_decide_eq_true].
    + assert (H : List.filter (fun a => negb (bool_decide (a = "owner")) && negb (bool_decide (a = author)) && negb (existsb (fun m => bool_decide (m_agent m = a)) (g_members row)) && match record env a with Some _ => true | None => false end) mentions
        = List.filter (fun a => negb (bool_decide (a = author)) && negb (existsb (fun m => bool_decide (m_agent m = a)) (g_members row)) && match record env a with Some _ => true | None => false end)
            (List.filter (fun a => negb (bool_decide (a = "owner"))) mentions)).
      { clear. induction mentions as [|a l IH]; [done|]. cbn. destruct (negb (bool_decide (a = "owner"))); cbn; [|done]. by rewrite IH. }
      rewrite H. by apply nodup_filter.
  - intros a [Ha|Ha]%elem_of_app.
    + apply list_elem_of_In, in_map_iff in Ha as (m & <- & [_ Hb]%filter_In). by simp_ok.
    + apply elem_filter in Ha as [_ Hb]. by simp_ok.
Qed.

Lemma advance_write env row draft s : wf_draft row draft -> advance s (write env row draft s).2.
Proof.
  intros (Hroom & Hno & Hm & Hn). unfold write. destruct (byRequestId _ _) eqn:Hnew; [by apply advance_same|].
  set (ds := deliveriesFor _ _ _ _). unfold append. change (p_requestId (with_deliveries ds draft)) with (p_requestId draft). fold (postsOf s (g_id row)). rewrite Hnew.
  cbn [snd]. apply (advance_trans _ (with_log (g_id row) (mkLog (postsOf s (g_id row) ++ [with_seq (last_seq (postsOf s (g_id row)) + 1) (with_deliveries ds draft)])
    (rl_file (log_of s (g_id row)) ++ [LPost (with_seq (last_seq (postsOf s (g_id row)) + 1) (with_deliveries ds draft))])) s)).
  2: { apply advance_schedules. }
  intros Hs. pose proof (logs_wf _ (g_id row) Hs) as W. set (p := with_seq _ _) in *.
  assert (Hok : ok_line (g_id row) (postsOf s (g_id row)) (LPost p)).
  { split; [done|]. split; [done|]. split; [done|]. destruct (wakes_spec env row (p_author draft) (p_mentions draft) Hm Hn) as [Hnd Hself].
    cbn [p with_seq with_deliveries assign deliveries_patch p_deliveries pp_deliveries nullish default from_option id]. unfold ds, deliveriesFor. destruct (refusal row).
    { split; [apply NoDup_nil_2|apply Forall_nil_2]. }
    split.
    - rewrite map_map. cbn. by rewrite map_id.
    - apply Forall_forall. intros d Hd. apply list_elem_of_In, in_map_iff in Hd as (a & <- & Ha). apply list_elem_of_In in Ha. split; cbn.
      + by apply Hself.
      + done.
      + intros Hh. rewrite (proj2 (Z.leb_le _ _)) by exact Hh. done.
      + done. }
  pose proof (advance_line (g_id row) (LPost p) s Hok Hs) as Ha. cbn [read_line] in Ha.
  assert (Hf : post_by_id (p_id p) (postsOf s (g_id row)) = None).
  { destruct (post_by_id _ _) as [q|] eqn:E; [|done]. apply post_by_id_Some in E as [Hq Hid]. pose proof (counted_bounds _ _ (wp_counted _ _ W) Hq) as Hbd.
    apply post_id_inj in Hid; [| lia|cbn; lia]. cbn in Hid. lia. }
  by rewrite Hf in Ha.
Qed.

Lemma advance_ownerPost env row text requestId images mentions root s : NoDup (map m_agent (g_members row)) -> NoDup mentions -> advance s (ownerPost env row text requestId images mentions root s).2.
Proof.
  intros Hm Hn. unfold ownerPost. destruct (write _ _ _ _) as [p s'] eqn:E. apply (advance_trans _ s'); [|by apply advance_same].
  change s' with ((p, s').2). rewrite <- E. apply advance_write. split_and!; [done|done|done|by apply nodup_filter].
Qed.

Lemma resend_wf room ps p d now : p_hops p < MAX_HOPS -> wf_delivery room ps p d -> wf_delivery room ps p (resend now d).
Proof. intros Hh [D1 D2 D3 D4]. unfold resend. case_bool_decide; split; try done. cbn. lia. Qed.
Lemma advance_retry env row p s : p ∈ postsOf s (g_id row) -> advance s (retry_post env row p s).
Proof.
  intros Hp. unfold retry_post. case_bool_decide as Hf; [by apply advance_same|].
  intros Hs. assert (Hh : p_hops p < MAX_HOPS).
  { destruct (decide (p_hops p < MAX_HOPS)); [done|]. exfalso. apply Hf.
    destruct (List.filter _ (p_deliveries p)) as [|d l] eqn:E; [done|]. assert (Hd : d ∈ List.filter (fun d => bool_decide (d_state d = DFailed)) (p_deliveries p)) by (rewrite E; left).
    apply elem_filter in Hd as [Hd Hb]. simp_ok. destruct (wd_hops _ _ _ _ (wf_of _ _ _ _ Hs Hp Hd)); [lia|congruence]. }
  eapply (advance_trans s); [apply (advance_line (g_id row) (LSet (p_id p) (deliveries_patch (map (resend (now env)) (p_deliveries p)))))|apply (advance_schedules (fun d => (g_id row, p_seq p, d_target d)) (fun _ => true))|done].
  eexists p, _. split_and!; [done|done|done| |].
  - rewrite map_map. apply map_ext. intros d. unfold resend. by case_bool_decide.
  - apply Forall_forall. intros e He. apply list_elem_of_In, in_map_iff in He as (d & <- & Hd). apply list_elem_of_In in Hd. apply resend_wf; [done|]. by apply wf_of.
Qed.

(** ** A release *)

Definition target_ok (s : Rooms) (room : string) (t : string * list Z) : Prop := Forall (live_post s room) t.2.
Definition release_ok (s : Rooms) (t : Release) : Prop := Forall (live_post s (re_room t)) (re_heads t) /\ Forall (target_ok s (re_room t)) (re_targets t).

Lemma members_of_live s room seqs : Forall (live_post s room) seqs -> map p_seq (members_of s room seqs) = seqs /\ Forall (fun p => p ∈ postsOf s room /\ p_hops p < MAX_HOPS) (members_of s room seqs).
Proof.
  intros H. unfold members_of. induction H as [|seq seqs (p & Hp & Hh) _ IH]; [by split|]. cbn. rewrite Hp. cbn. destruct IH as [IH1 IH2]. apply post_at_Some in Hp as [Hin <-].
  split; [by f_equal|]. by constructor.
Qed.

Lemma advance_bundle_up now room target seqs s : Forall (live_post s room) seqs -> advance s (bundle_up now room target seqs s).
Proof.
  intros Hl. unfold bundle_up. set (fresh := List.filter _ (members_of s room seqs)). set (bundle := match fresh with p :: _ :: _ => _ | _ => None end).
  assert (Hb : forall b, bundle = Some b -> good_bundle s room target b).
  { intros b Hb. unfold bundle in Hb. assert (Hids : b_members b = map p_id fresh /\ b_requestId b = bundle_key room (default "" (head (b_members b))) target).
    { destruct fresh as [|p [|q l]]; [done|done|]. injection Hb as <-. done. }
    destruct Hids as [Hids Hkey]. split; [done|]. intros id Hid. rewrite Hids in Hid. apply list_elem_of_In, in_map_iff in Hid as (p & <- & [Hp _]%filter_In).
    destruct (members_of_live _ _ _ Hl) as [Hseqs Hall]. apply list_elem_of_In in Hp. exists (p_seq p). split; [done|].
    rewrite Forall_forall in Hl. apply Hl. rewrite <- Hseqs. by apply list_elem_of_fmap_2. }
  clearbody bundle. apply (advance_fold (fun s seq => live_post s room seq /\ forall b, bundle = Some b -> good_bundle s room target b)).
  - intros s1 s2 x Ha H1 [Hx Hg]. split; [by eapply live_mono|]. intros b ?. eapply good_bundle_mono; [done..|]. by apply Hg.
  - intros s1 seq [(p & Hp & Hh) Hg]. rewrite Hp. destruct (delivery_to target p) as [d|] eqn:Hd; [|by apply advance_same].
    destruct (delivery_to_Some _ _ _ Hd) as [_ Ht]. apply post_at_Some in Hp as [Hin _]. apply (advance_put _ _ _ _ d); [done|done|done|done|done|].
    intros b. cbn. case_bool_decide; [|by left]. destruct bundle as [b'|]; cbn; [|by left]. intros [= <-]. right. by apply Hg.
  - eapply Forall_impl; [exact Hl|]. done.
Qed.
Lemma live_heads room target seqs s : Forall (live_post s room) seqs -> Forall (live_post s room) (heads_of room target seqs s).
Proof. intros H. apply Forall_forall. intros seq [Hin _]%elem_filter. rewrite Forall_forall in H. by apply H. Qed.

Lemma next_target_ok now room ts s : logs_ok s -> Forall (target_ok s room) ts -> forall s' r, next_target now room ts s = (s', r) ->
  advance s s' /\ forall target hs ts', r = Some (target, hs, ts') -> Forall (live_post s' room) hs /\ Forall (target_ok s' room) ts'.
Proof.
  intros Hs Hts. revert s Hs Hts. induction ts as [|[target seqs] ts IH]; intros s Hs Hts s' r; cbn.
  - intros [= <- <-]. by split; [apply advance_same|].
  - apply Forall_cons in Hts as [Ht Hts]. pose proof (advance_bundle_up now room target seqs s Ht) as Ha. set (s1 := bundle_up now room target seqs s) in *.
    assert (Hts1 : Forall (target_ok s1 room) ts).
    { eapply Forall_impl; [exact Hts|]. intros x Hx. unfold target_ok in *. eapply Forall_impl; [exact Hx|]. intros y. by apply live_mono. }
    assert (Ht1 : Forall (live_post s1 room) seqs) by (eapply Forall_impl; [exact Ht|]; intros y; by apply live_mono).
    destruct (heads_of room target seqs s1) as [|h hs] eqn:E.
    + intros Hn. destruct (IH s1 ltac:(by apply Ha) Hts1 _ _ Hn) as [Ha' Hr]. split; [by eapply advance_trans|done].
    + intros [= <- <-]. split; [done|]. intros ? ? ? [= <- <- <-]. split; [|done]. rewrite <- E. by apply live_heads.
Qed.

Lemma waiting_ok s room box : logs_ok s -> Forall (target_ok s room) (waiting box (postsOf s room)).
Proof.
  intros Hs. unfold waiting. assert (H : forall ps m, (forall p, p ∈ ps -> p ∈ postsOf s room) -> Forall (target_ok s room) m ->
    Forall (target_ok s room) (fold_left (fun m p => fold_left (fun m d => if waits_for box d then OMap.set (d_target d) (nullish (OMap.get (d_target d) m) [] ++ [p_seq p]) m else m) (p_deliveries p) m) ps m)).
  2: { apply H; [done|by apply Forall_nil_2]. }
  induction ps as [|p ps IH]; intros m Hps Hm; [done|]. cbn. apply IH; [set_solver|]. assert (Hp : p ∈ postsOf s room) by set_solver.
  assert (Hd : forall d, d ∈ p_deliveries p -> waits_for box d = true -> p_hops p < MAX_HOPS).
  { intros d Hin Hw. unfold waits_for in Hw. simp_ok. destruct (decide (p_hops p < MAX_HOPS)); [done|]. destruct (wd_hops _ _ _ _ (wf_of _ _ _ _ Hs Hp Hin)); [lia|congruence]. }
  revert Hd m Hm. induction (p_deliveries p) as [|d ds IHd]; intros Hd m Hm; [done|]. cbn. apply IHd; [intros e He; apply Hd; by right|].
  destruct (waits_for box d) eqn:Hw; [|done]. apply Forall_forall. intros x [->|Hx]%OMap.elem_set; [|rewrite Forall_forall in Hm; by apply Hm].
  unfold target_ok. cbn. apply Forall_app. split.
  - destruct (OMap.get (d_target d) m) as [l|] eqn:E; [|by apply Forall_nil_2]. apply OMap.get_elem in E. rewrite Forall_forall in Hm. exact (Hm _ E).
  - apply Forall_singleton. exists p. split; [|apply (Hd d); [left|done]]. apply post_at_in; [|done]. by apply (wp_counted room), logs_wf.
Qed.
Lemma next_room_ok now box rooms s : logs_ok s -> forall s' r, next_room now box rooms s = (s', r) ->
  advance s s' /\ forall room rs target hs ts, r = Some (room, rs, (target, hs, ts)) -> Forall (live_post s' room) hs /\ Forall (target_ok s' room) ts.
Proof.
  revert s. induction rooms as [|room rooms IH]; intros s Hs s' r; cbn.
  - intros [= <- <-]. by split; [apply advance_same|].
  - destruct (next_target now room (waiting box (postsOf s room)) s) as [s1 [[[target hs] ts]|]] eqn:E;
      destruct (next_target_ok _ _ _ _ Hs (waiting_ok s room box Hs) _ _ E) as [Ha Hr].
    + intros [= <- <-]. split; [done|]. intros ? ? ? ? ? [= <- <- <- <- <-]. by apply (Hr _ _ _ eq_refl).
    + intros Hn. destruct (IH s1 ltac:(by apply Ha) _ _ Hn) as [Ha' Hr']. split; [by eapply advance_trans|done].
Qed.

(** ** Flights and submissions *)

Record flight_ok (s : Rooms) (f : Flight) : Prop := {
  fo_members : Forall (live_post s (fl_key f).1.1) (fl_members f);
  fo_key : d_requestId (fl_delivery f) = delivery_key (fl_key f).1.1 (post_id (fl_key f).1.2) (fl_key f).2;
  fo_bundle : match fl_bundle f with
              | None => fl_members f = [(fl_key f).1.2]
              | Some b => b_members b = map post_id (fl_members f) /\ b_requestId b = bundle_key (fl_key f).1.1 (default "" (head (b_members b))) (fl_key f).2
              end }.
(** What was submitted: posts within the hop limit, under the key of the one post or of the bundle's first. *)
Record sent_ok (x : Sent) : Prop := {
  so_hops : Forall (fun h => h < MAX_HOPS) (sn_hops x) /\ length (sn_hops x) = length (sn_posts x);
  so_key : (exists seq, sn_posts x = [seq] /\ sn_requestId x = delivery_key (sn_room x) (post_id seq) (sn_target x))
           \/ sn_requestId x = bundle_key (sn_room x) (default "" (head (map post_id (sn_posts x)))) (sn_target x) }.
Definition rows_ok (rs : list GroupRoom) : Prop := Forall (fun r => NoDup (map m_agent (g_members r))) rs.
Record Inv (s : Rooms) : Prop := {
  in_logs : logs_ok s;
  in_rows : rows_ok (rows s) /\ rows_ok (saved s).1;
  in_flights : Forall (flight_ok s) (flights s);
  in_releases : Forall (release_ok s) (releases s);
  in_sent : Forall sent_ok (sent s) }.

Lemma flight_mono s s' f : (forall room seq, live_post s room seq -> live_post s' room seq) -> flight_ok s f -> flight_ok s' f.
Proof. intros H [F1 F2 F3]. split; [|done..]. eapply Forall_impl; [exact F1|]. intros seq. apply H. Qed.
Lemma release_mono s s' t : (forall room seq, live_post s room seq -> live_post s' room seq) -> release_ok s t -> release_ok s' t.
Proof.
  intros H [R1 R2]. split; [eapply Forall_impl; [exact R1|]; intros seq; apply H|]. eapply Forall_impl; [exact R2|]. intros x Hx. unfold target_ok in *. eapply Forall_impl; [exact Hx|]. intros seq. apply H.
Qed.
(** A step that only writes lines, with rows that stay well formed. *)
Lemma Inv_advance s s' : Inv s -> advance s s' -> rows_ok (rows s') -> rows_ok (saved s').1 -> Inv s'.
Proof.
  intros [I1 I2 I3 I4 I5] Ha Hr Hv. destruct (Ha I1) as (A1 & A2 & A3 & A4 & A5). split; [done|done| | |by rewrite A5].
  - rewrite A3. eapply Forall_impl; [exact I3|]. intros f. by apply flight_mono.
  - rewrite A4. eapply Forall_impl; [exact I4|]. intros t. by apply release_mono.
Qed.

Lemma lead_in fuel ps target p : p ∈ ps -> lead fuel ps target p ∈ ps.
Proof.
  revert p. induction fuel as [|n IH]; intros p Hp; cbn; [done|]. destruct (bundle_of target p) as [b|]; [|done]. case_bool_decide; [done|].
  destruct (head (b_members b)) as [id|]; cbn; [|done]. destruct (post_by_id id ps) as [h|] eqn:E; [|done]. apply IH. by apply post_by_id_Some in E as [? _].
Qed.
Lemma bundleMembers_ok s room target p d : logs_ok s -> p ∈ postsOf s room -> delivery_to target p = Some d -> d_state d = DSending ->
  let ms := bundleMembers (postsOf s room) target p in
  Forall (live_post s room) (map p_seq ms)
  /\ match bundle_of target p with
     | None => map p_seq ms = [p_seq p]
     | Some b => b_members b = map post_id (map p_seq ms) /\ b_requestId b = bundle_key room (default "" (head (b_members b))) target
     end.
Proof.
  intros Hs Hp Hd Hst. destruct (delivery_to_Some _ _ _ Hd) as [Hin Ht]. pose proof (wf_of _ _ _ _ Hs Hp Hin) as [D1 D2 D3 D4].
  pose proof (wp_counted _ _ (logs_wf _ room Hs)) as Hc. unfold bundleMembers, bundle_of. rewrite Hd. cbn. destruct (d_bundle d) as [b|] eqn:Eb.
  - destruct (D4 b eq_refl) as [Hk Hm]. rewrite Ht in Hk.
    assert (H : Forall (live_post s room) (map p_seq (omap (fun id => post_by_id id (postsOf s room)) (b_members b))) /\ b_members b = map post_id (map p_seq (omap (fun id => post_by_id id (postsOf s room)) (b_members b)))).
    { clear Hk Eb D4. induction (b_members b) as [|id ids IH]; [by split; [apply Forall_nil_2|]|]. destruct (Hm id ltac:(left)) as (q & Hq & Hqh). cbn. rewrite Hq. cbn.
      destruct IH as [IH1 IH2]; [intros id' H'; apply Hm; by right|]. apply post_by_id_Some in Hq as [Hqin Hqid]. split.
      - constructor; [|done]. exists q. split; [by apply post_at_in|done].
      - rewrite <- IH2. by rewrite <- Hqid. }
    destruct H as [H1 H2]. split_and!; done.
  - cbn. split; [|done]. apply Forall_singleton. exists p. split; [by apply post_at_in|]. destruct (decide (p_hops p < MAX_HOPS)); [done|]. destruct D3; [lia|congruence].
Qed.

Lemma good_patches target now e n box : good_patch target (with_state DFailed now e) /\ good_patch target (with_state DStopped now e) /\ good_patch target (away_delivery now box)
  /\ good_patch target (refused_delivery now n e) /\ good_patch target (later_delivery now n e).
Proof. split_and!; intros d Hd; by split_and!. Qed.
Lemma good_taken target now n thread : good_patch target (taken_delivery now n thread target).
Proof. intros d Hd. by split_and!. Qed.

(** What only writes lines. *)
Lemma set_all_logs room target members patch s : exists v, set_all room target members patch s = with_logs v s.
Proof.
  unfold set_all. revert s. induction members as [|x l IH]; intros s; cbn; [by exists (logs s); destruct s|].
  destruct (post_at _ x) as [p|]; [destruct (delivery_to target p) as [d|]|]; [|apply IH|apply IH].
  destruct (IH (put_delivery room target (patch d) s p)) as [v Hv]. exists v. rewrite Hv. by destruct s.
Qed.

(** [deliver] writes lines, or starts a flight of posts within the limit. *)
Lemma deliver_ok env room seq target s s' r : logs_ok s -> deliver env room seq target s = (s', r) ->
  (advance s s' /\ rows s' = rows s /\ saved s' = saved s)
  \/ (exists f, flights s' = flights s ++ [f] /\ flight_ok s' f /\ logs s' = logs s /\ rows s' = rows s /\ saved s' = saved s /\ releases s' = releases s /\ sent s' = sent s).
Proof.
  intros Hs. unfold deliver. destruct (post_at (postsOf s room) seq) as [p0|] eqn:Hp0; [|intros [= <- <-]; left; by split; [apply advance_same|]].
  apply post_at_Some in Hp0 as [Hp0 _]. pose proof (lead_in (length (postsOf s room)) _ target _ Hp0) as Hp. set (p := lead _ _ _ _) in *. clearbody p. clear Hp0 p0.
  set (s1 := with_timers _ _ s). assert (Hsame : advance s s1) by by apply advance_same. change (row_of s1 room) with (row_of s room).
  destruct (delivery_to target p) as [d|] eqn:Hd; [|intros [= <- <-]; by left]. destruct (row_of s room) as [row|]; [|intros [= <- <-]; by left].
  destruct (stopped s1 || _ || _) eqn:Hg; [intros [= <- <-]; by left|]. simp_ok.
  destruct (bundleMembers_ok s room target p d Hs Hp Hd ltac:(done)) as [Hlive Hb]. set (ms := bundleMembers _ _ _) in *.
  assert (Hset : forall patch, good_patch target patch -> forall (t : option nat), (set_all room target (map p_seq ms) patch s1, t) = (s', r) -> advance s s' /\ rows s' = rows s /\ saved s' = saved s).
  { intros patch Hpatch t [= <- _]. split.
    - apply (advance_trans _ s1); [done|]. apply advance_set_all; [done|]. eapply Forall_impl; [exact Hlive|]. intros x. apply Hsame. done.
    - destruct (set_all_logs room target (map p_seq ms) patch s1) as [v Hv]. by rewrite Hv. }
  destruct (record env target) as [agent|]; [destruct (refusal row) as [refused|]|].
  - intros Heq. left. eapply Hset; [|exact Heq]. intros e He; by split_and!.
  - intros [= <- _]. right. eexists. split_and!; try done. destruct (delivery_to_Some _ _ _ Hd) as [Hin Ht]. split; cbn.
    + done.
    + rewrite (wd_key _ _ _ _ (wf_of _ _ _ _ Hs Hp Hin)). by rewrite Ht.
    + done.
  - intros Heq. left. eapply Hset; [|exact Heq]. intros e He; by split_and!.
Qed.

(** ** Every step keeps the invariant *)

Definition same_rows (s s' : Rooms) : Prop := rows s' = rows s /\ saved s' = saved s.
Lemma same_rows_trans s s' s'' : same_rows s s' -> same_rows s' s'' -> same_rows s s''.
Proof. intros [H1 H2] [H3 H4]. split; congruence. Qed.
Lemma same_rows_schedule key delay s : same_rows s (schedule key delay s).
Proof. unfold schedule. by destruct (stopped s). Qed.
Lemma same_rows_schedules {A} (key : A -> Key) (cond : A -> bool) l s : same_rows s (fold_left (fun s x => if cond x then schedule (key x) 0 s else s) l s).
Proof.
  revert s. induction l as [|x l IH]; intros s; cbn; [done|]. eapply same_rows_trans; [|apply IH]. destruct (cond x); [apply same_rows_schedule|done].
Qed.
Lemma same_rows_write env row draft s : same_rows s (write env row draft s).2.
Proof.
  unfold write. destruct (byRequestId _ _); [done|]. destruct (append _ _) as [[p c] l]. cbn. destruct c; [|done].
  destruct (same_rows_schedules (fun d => (g_id row, p_seq p, d_target d)) (fun d => bool_decide (d_state d = DSending)) (deliveriesFor env row (post_id (last_seq (postsOf s (g_id row)) + 1)) draft) (with_log (g_id row) l s)) as [H1 H2].
  split; [exact H1|exact H2].
Qed.
Lemma same_rows_ownerPost env row text requestId images mentions root s : same_rows s (ownerPost env row text requestId images mentions root s).2.
Proof.
  unfold ownerPost. match goal with |- context [write ?a ?b ?c ?d] => pose proof (same_rows_write a b c d) as H; destruct (write a b c d) as [p s'] end. exact H.
Qed.
Lemma same_rows_retry env row p s : same_rows s (retry_post env row p s).
Proof.
  unfold retry_post. case_bool_decide; [done|].
  destruct (same_rows_schedules (fun d => (g_id row, p_seq p, d_target d)) (fun _ => true) (List.filter (fun d => bool_decide (d_state d = DFailed)) (p_deliveries p))
    (with_log (g_id row) (set_post (p_id p) (deliveries_patch (map (resend (now env)) (p_deliveries p))) (log_of s (g_id row))) s)) as [H1 H2]. split; [exact H1|exact H2].
Qed.
Lemma same_rows_fold {A} (f : Rooms -> A -> Rooms) l s : (forall s x, same_rows s (f s x)) -> same_rows s (fold_left f l s).
Proof. intros Hf. revert s. induction l as [|x l IH]; intros s; cbn; [done|]. eapply same_rows_trans; [apply Hf|apply IH]. Qed.
Lemma same_rows_bundle_up now room target seqs s : same_rows s (bundle_up now room target seqs s).
Proof. unfold bundle_up. apply same_rows_fold. intros s' x. destruct (post_at _ x) as [p|]; [|done]. by destruct (delivery_to target p). Qed.
Lemma same_rows_next_target now room ts s : same_rows s (next_target now room ts s).1.
Proof.
  revert s. induction ts as [|[target seqs] ts IH]; intros s; cbn; [done|]. destruct (heads_of _ _ _ _); [|apply same_rows_bundle_up].
  eapply same_rows_trans; [apply same_rows_bundle_up|apply IH].
Qed.
Lemma same_rows_next_room now box rooms s : same_rows s (next_room now box rooms s).1.
Proof.
  revert s. induction rooms as [|room rooms IH]; intros s; cbn; [done|]. pose proof (same_rows_next_target now room (waiting box (postsOf s room)) s) as Hn.
  destruct (next_target _ _ _ _) as [s1 [[[target hs] ts]|]]; cbn in *; [done|]. by eapply same_rows_trans.
Qed.

Lemma Inv_same s s' : Inv s -> advance s s' -> same_rows s s' -> Inv s'.
Proof. intros I Ha [Hr Hv]. apply (Inv_advance s); [done|done| |]; rewrite ?Hr, ?Hv; apply I. Qed.

Lemma row_of_in s id row : row_of s id = Some row -> row ∈ rows s.
Proof. unfold row_of. destruct (row_index id (rows s)) as [i|]; cbn; [|done]. intros H. apply list_elem_of_lookup. by exists i. Qed.
Lemma row_members s id row : Inv s -> row_of s id = Some row -> NoDup (map m_agent (g_members row)).
Proof. intros I Hr%row_of_in. destruct (in_rows _ I) as [Hrs _]. unfold rows_ok in Hrs. rewrite Forall_forall in Hrs. by apply Hrs. Qed.

Lemma Rooms_retry env id requestId s : Inv s -> Inv (retry env id requestId s).2.
Proof.
  intros I. unfold retry. destruct (row_of s id) as [row|]; [|done]. destruct (byRequestId _ _) as [p|] eqn:Hp; [|done]. destruct (refusal row); [done|].
  apply byRequestId_Some in Hp as [Hp _]. apply (Inv_same s); [done|by apply advance_retry|apply same_rows_retry].
Qed.
Lemma Inv_post env id r s : Inv s -> Inv (post env id r s).2.
Proof.
  intros I. unfold post. destruct (row_of s id) as [row|] eqn:Hrow; [|done]. destruct (byRequestId _ _) as [p|]; [destruct (existsb _ _); [by apply Rooms_retry|done]|].
  destruct (refusal row); [done|]. pose proof (row_members _ _ _ I Hrow) as Hm.
  assert (Ho : forall root, Inv (ownerPost env row (sr_text r) (sr_requestId r) (sr_images r) (unique (omap (registered env) (List.filter (fun m => negb (bool_decide (m = "owner"))) (sr_mentions r)))) root s).2).
  { intros root. apply (Inv_same s); [done|apply advance_ownerPost; [done|apply NoDup_unique]|apply same_rows_ownerPost]. }
  destruct (sr_threadRoot r) as [root|]; [destruct (no_thread row _ root); [done|apply Ho]|apply Ho].
Qed.

(** Rows. *)
Lemma rows_ok_alter i f rs : (forall r, NoDup (map m_agent (g_members r)) -> NoDup (map m_agent (g_members (f r)))) -> rows_ok rs -> rows_ok (alter f i rs).
Proof.
  intros Hf Hr. unfold rows_ok in *. apply Forall_forall. intros r Hin. apply list_elem_of_lookup in Hin as [j Hj]. rewrite Forall_forall in Hr.
  destruct (decide (i = j)) as [->|Hne].
  - rewrite list_lookup_alter_eq in Hj. destruct (rs !! j) as [r0|] eqn:E; [|done]. cbn in Hj. injection Hj as <-. apply Hf, Hr. apply list_elem_of_lookup. by exists j.
  - rewrite list_lookup_alter_ne in Hj by done. apply Hr. apply list_elem_of_lookup. by exists j.
Qed.
(** A handler that only changes rows. *)
Definition row_op (a : Op) : Prop := forall s, rows_ok (rows s) -> rows_ok (saved s).1 ->
  let s' := (a s).2 in rows_ok (rows s') /\ rows_ok (saved s').1 /\ advance s s'.
Lemma row_op_seq a b : row_op a -> row_op b -> row_op (a ;;; b).
Proof.
  intros Ha Hb s H1 H2. unfold op_seq. specialize (Ha s H1 H2). destruct (a s) as [[u|e] s1]; cbn in *; [|done]. destruct Ha as (A1 & A2 & A3). destruct (Hb s1 A1 A2) as (B1 & B2 & B3).
  split_and!; [done|done|by eapply advance_trans].
Qed.
Lemma row_op_skip a : (forall s, (a s).2 = s) -> row_op a.
Proof. intros H s H1 H2. cbn. rewrite H. split_and!; [done|done|by apply advance_same]. Qed.
Lemma row_op_alter i f a : (forall r, g_members (f r) = g_members r) -> (forall s, (a s).2 = s \/ (a s).2 = on_row i f s) -> row_op a.
Proof.
  intros Hf Ha s H1 H2. cbn. destruct (Ha s) as [-> | ->]; (split_and!; [|done|by apply advance_same]); [done|]. cbn. apply rows_ok_alter; [|done]. intros r. by rewrite Hf.
Qed.
Lemma row_op_save : row_op (op_do saveRooms).
Proof. intros s H1 H2. cbn. split_and!; [done|done|by apply advance_same]. Qed.
Lemma Inv_row_op a s : Inv s -> row_op a -> Inv (a s).2.
Proof. intros I Ha. destruct (in_rows _ I) as [H1 H2]. destruct (Ha s H1 H2) as (A1 & A2 & A3). by apply (Inv_advance s). Qed.

Lemma members_set_closed c n r : g_members (set_closed c n r) = g_members r.
Proof. unfold set_closed. by destruct (g_kind r). Qed.
Lemma members_set_homeChat v r : g_members (set_homeChat v r) = g_members r.
Proof. unfold set_homeChat. by destruct (g_kind r). Qed.
Lemma Inv_update env id x s : Inv s -> Inv (update env id x s).2.
Proof.
  intros I. unfold update. destruct (row_index id (rows s) ≫= _) as [[i row]|]; [|done]. apply Inv_row_op; [done|]. repeat apply row_op_seq; [..|apply row_op_save].
  - unfold update_name. destruct (rp_name x) as [v|]; [|by apply row_op_skip]. apply (row_op_alter i (set_name (if is_channel row then channelName v else trim v))); [done|].
    intros u. case_bool_decide; [by left|]. destruct (_ && _); [by left|by right].
  - unfold update_agenda. destruct (rp_agenda x) as [v|]; [|by apply row_op_skip]. destruct (g_kind row) as [pu h|ag c].
    + apply (row_op_alter i (set_kind (Channel v h))); [done|]. by right.
    + case_bool_decide; [by apply row_op_skip|]. apply (row_op_alter i (set_kind (Solo (trim v) c))); [done|]. by right.
  - unfold update_closed. destruct (rp_closed x) as [c|]; [|by apply row_op_skip]. destruct (g_kind row); [by apply row_op_skip|].
    apply (row_op_alter i (set_closed c (now env))); [apply members_set_closed|]. by right.
  - unfold update_archived. destruct (rp_archived x) as [v|]; [|by apply row_op_skip; intros u; destruct (rows u !! i)].
    apply (row_op_alter i (set_archived v)); [done|]. intros u. destruct (rows u !! i); [|by left]. destruct (_ && _); [by left|by right].
  - unfold update_homeChat. destruct (rp_homeChat x) as [v|]; [|by apply row_op_skip]. destruct (g_kind row); [|by apply row_op_skip].
    apply (row_op_alter i (set_homeChat v)); [apply members_set_homeChat|]. by right.
Qed.

Lemma add_member_nodup w n ms a : NoDup (map m_agent ms) -> NoDup (map m_agent (add_member w n ms a)).
Proof.
  intros H. unfold add_member. destruct (existsb _ ms) eqn:E; [done|]. rewrite map_app. apply NoDup_app. split_and!; [done| |apply NoDup_singleton].
  intros x Hx ->%list_elem_of_singleton. apply list_elem_of_In, in_map_iff in Hx as (m & Hm & Hin). cbn in Hm.
  assert (existsb (fun m => bool_decide (m_agent m = a)) ms = true); [|congruence]. apply existsb_exists. exists m. split; [done|by apply bool_decide_eq_true].
Qed.
Lemma Inv_addMembers env id given w s : Inv s -> Inv (addMembers env id given w s).2.
Proof.
  intros I. unfold addMembers. destruct (row_index id (rows s)) as [i|]; [|done]. case_bool_decide; [done|].
  assert (Hadd : forall ids v, Inv (saveRooms (on_row i (fun r => set_members (fold_left (add_member v (now env)) ids (g_members r)) r) s))).
  { intros ids v. destruct (in_rows _ I) as [H1 H2]. assert (Hr : rows_ok (alter (fun r => set_members (fold_left (add_member v (now env)) ids (g_members r)) r) i (rows s))).
    { apply rows_ok_alter; [|done]. intros r. cbn. generalize (g_members r). induction ids as [|a ids IH]; intros ms Hms; cbn; [done|]. by apply IH, add_member_nodup. }
    apply (Inv_advance s); [done|by apply advance_same|done|done]. }
  destruct w as [[v|]|]; [|done|]; destruct (memberIds env given) as [ids|e]; try done; apply Hadd.
Qed.
Lemma Inv_removeMember env id agent s : Inv s -> Inv (removeMember env id agent s).2.
Proof.
  intros I. unfold removeMember. destruct (row_index id (rows s)) as [i|]; [|done]. destruct (in_rows _ I) as [H1 H2].
  match goal with |- Inv (_, saveRooms (on_row i ?f s)).2 => assert (Hr : rows_ok (alter f i (rows s))) by (apply rows_ok_alter; [|done]; intros r Hr; by apply nodup_map_List_filter) end.
  apply (Inv_advance s); [done|by apply advance_same|done|done].
Qed.
Lemma Inv_create `{RoomTexts} env uuid input s : Inv s -> Inv (create env uuid input s).2.
Proof.
  intros I. unfold create. destruct (in_rows _ I) as [H1 H2].
  assert (Hpush : forall row, NoDup (map m_agent (g_members row)) -> Inv (saveRooms (with_rows (rows s ++ [row]) s))).
  { intros row Hrow. assert (Hr : rows_ok (rows s ++ [row])) by (apply Forall_app; split; [done|by apply Forall_singleton]). apply (Inv_advance s); [done|by apply advance_same|done|done]. }
  assert (Hms : forall ids, NoDup (map m_agent (map (fun a => mkMember a WakeAll (now env)) (unique ids)))).
  { intros ids. rewrite map_map. cbn. rewrite map_id. apply NoDup_unique. }
  destruct (ri_kind input); [| |done]; (destruct (memberIds env (ri_members input)) as [ids|e]; [|done]).
  - case_bool_decide; [done|]. destruct (existsb _ _); [done|]. apply Hpush, Hms.
  - case_bool_decide; [done|]. case_bool_decide; [done|]. cbn [snd]. match goal with |- Inv (ownerPost env ?row _ _ _ _ _ ?u).2 => pose proof (Hpush row (Hms ids)) as I'; apply (Inv_same u); [exact I'| |] end.
    + apply advance_ownerPost; [apply Hms|apply NoDup_nil_2].
    + apply same_rows_ownerPost.
Qed.

Lemma Inv_flights s s' fs : Inv s -> advance s (with_flights (inflight s) (flights s) s') -> flights s' = fs -> same_rows s s' ->
  (forall f, f ∈ fs -> f ∈ flights s \/ flight_ok s' f) -> Inv s'.
Proof.
  intros I Ha Hf [Hr Hv] Hall. destruct (Ha (in_logs _ I)) as (A1 & A2 & A3 & A4 & A5). split.
  - exact A1.
  - rewrite Hr, Hv. apply I.
  - rewrite Hf. apply Forall_forall. intros f Hin. destruct (Hall f Hin) as [Hold|]; [|done]. pose proof (in_flights _ I) as If. rewrite Forall_forall in If.
    apply (flight_mono s); [exact A2|]. by apply If.
  - cbn in A4. rewrite A4. pose proof (in_releases _ I) as Ir. eapply Forall_impl; [exact Ir|]. intros t. by apply release_mono.
  - cbn in A5. rewrite A5. apply I.
Qed.

Lemma Rooms_deliver env room seq target s s' r : Inv s -> deliver env room seq target s = (s', r) -> Inv s'.
Proof.
  intros I Hd. destruct (deliver_ok _ _ _ _ _ _ _ (in_logs _ I) Hd) as [(Ha & H1 & H2)|(f & Hf & Hok & Hl & H1 & H2 & Hr & Hs)].
  - by apply (Inv_same s).
  - apply (Inv_flights s s' (flights s ++ [f])); [done|by apply advance_same|done|done|]. intros g [Hg|Hg%list_elem_of_singleton]%elem_of_app; [by left|subst; by right].
Qed.
Lemma Inv_fire env h s : Inv s -> Inv (fire env h s).
Proof.
  intros I. unfold fire. destruct (List.find _ (pending s)) as [[[h' [[room seq] target]] d]|]; [|done].
  match goal with |- context [deliver env room seq target ?u] => destruct (deliver env room seq target u) as [s' r] eqn:E; apply (Rooms_deliver _ _ _ _ _ _ _ (Inv_same s u I ltac:(by apply advance_same) ltac:(done)) E) end.
Qed.

Lemma flight_of_in id s f : flight_of id s = Some f -> f ∈ flights s.
Proof. intros [H _]%find_some. by apply list_elem_of_In. Qed.
Lemma flight_in_ok id s f : Inv s -> flight_of id s = Some f -> flight_ok s f.
Proof. intros I Hf%flight_of_in. pose proof (in_flights _ I) as If. rewrite Forall_forall in If. by apply If. Qed.

(** Ending a flight after its patch. *)
Lemma Inv_end_flight s s' f : Inv s -> advance s s' -> same_rows s s' -> Inv (end_flight f s').
Proof.
  intros I Ha Hr. pose proof (Inv_same _ _ I Ha Hr) as I'. apply (Inv_flights s' _ (flights (end_flight f s'))); [done|by apply advance_same|done|done|].
  intros g [Hg _]%elem_filter. by left.
Qed.
Lemma same_rows_set_all room target ms patch s : same_rows s (set_all room target ms patch s).
Proof. destruct (set_all_logs room target ms patch s) as [v ->]. done. Qed.
Lemma Inv_failed env f e s : Inv s -> flight_ok s f -> Inv (deliver_failed env f e s).
Proof.
  intros I Hf. unfold deliver_failed. pose proof (fo_members _ _ Hf) as Hm. destruct (fl_key f) as [[room seq] target] eqn:Hk. cbn in Hm.
  assert (Hset : forall patch, good_patch target patch -> advance s (set_all room target (fl_members f) patch s)) by (intros; by apply advance_set_all).
  destruct (match e with HostAway box => Some box | HostFailed _ => if linkAway env (fl_host f) then Some (fl_host f) else None end) as [box|].
  - apply (Inv_end_flight s); [done|apply Hset; by intros d Hd; split_and!|apply same_rows_set_all].
  - destruct (refusedForGood _).
    + apply (Inv_end_flight s); [done|apply Hset; by intros d Hd; split_and!|apply same_rows_set_all].
    + apply (Inv_end_flight s); [done| |].
      * eapply advance_trans; [|apply advance_schedule]. apply Hset. by intros d Hd; split_and!.
      * eapply same_rows_trans; [apply same_rows_set_all|apply same_rows_schedule].
Qed.
Lemma Inv_answered env id a s : Inv s -> Inv (answered env id a s).
Proof.
  intros I. unfold answered. destruct (flight_of id s) as [f|] eqn:Hf; [|done]. pose proof (flight_in_ok _ _ _ I Hf) as Hok. destruct (fl_thread f) as [thread|]; [|done].
  destruct a as [n|e]; [|by apply Inv_failed]. pose proof (fo_members _ _ Hok) as Hm. destruct (fl_key f) as [[room seq] target] eqn:Hk. cbn in Hm.
  apply (Inv_end_flight s); [done|apply advance_set_all; [by intros d Hd; split_and!|done]|apply same_rows_set_all].
Qed.

Section Submit.
Context `{RoomTexts}.

Lemma Inv_submit env f thread s : Inv s -> f ∈ flights s -> Inv (submit env f thread s).
Proof.
  intros I Hin. pose proof (in_flights _ I) as If. rewrite Forall_forall in If. specialize (If f Hin). unfold submit. destruct (fl_key f) as [[room seq] target] eqn:Hk.
  set (u := match OMap.get thread (feeds s) with Some _ => s | None => _ end).
  assert (Iu : Inv u). { unfold u. destruct (OMap.get thread (feeds s)); [done|]. destruct (in_rows _ I). apply (Inv_advance s); [done|by apply advance_same|done|done]. }
  assert (Hu : logs u = logs s /\ flights u = flights s) by (unfold u; by destruct (OMap.get thread (feeds s))). clearbody u.
  destruct (row_of u room) as [row|]; [|done]. set (g := mkFlight _ _ _ _ _ _ _ _ (Some thread)). set (x := mkSent _ _ _ _ _ _ _ _ _).
  assert (If' : flight_ok u f) by (pose proof (in_flights _ Iu) as Iuf; rewrite Forall_forall in Iuf; apply Iuf; by rewrite (proj2 Hu)).
  assert (Hx : sent_ok x).
  { destruct If' as [Hm Hkey Hb]. rewrite Hk in *. cbn in Hm, Hkey, Hb. destruct (members_of_live u room _ Hm) as [Hseqs Hall]. split; cbn.
    - split; [|rewrite length_map; rewrite <- Hseqs at 2; by rewrite length_map]. apply Forall_forall. intros h Hh. apply list_elem_of_In, in_map_iff in Hh as (p & <- & Hp).
      rewrite Forall_forall in Hall. apply Hall. by apply list_elem_of_In.
    - destruct (fl_bundle f) as [b|]; [right; destruct Hb as [H1 H2]; by rewrite H2, H1|left; by exists seq]. }
  assert (Iw : Inv (with_flights (inflight u) (map (fun h => if Nat.eqb (fl_id h) (fl_id f) then g else h) (flights u)) u)).
  { eapply (Inv_flights u); [done|by apply advance_same|done|done|]. intros h Hh. apply list_elem_of_In, in_map_iff in Hh as (h0 & <- & Hh0).
    destruct (Nat.eqb _ _); [right|left; by apply list_elem_of_In]. destruct If' as [Hm Hkey Hb]. rewrite Hk in *. split; done. }
  destruct Iw as [W1 W2 W3 W4 W5]. split; [exact W1|exact W2|eapply Forall_impl; [exact W3|intros h; by apply flight_mono]|eapply Forall_impl; [exact W4|intros t; by apply release_mono]|]. cbn. apply Forall_app. split; [exact W5|by apply Forall_singleton].
Qed.
Lemma Inv_thread_ready env id a s : Inv s -> Inv (thread_ready env id a s).
Proof.
  intros I. unfold thread_ready. destruct (flight_of id s) as [f|] eqn:Hf; [|done]. destruct (fl_thread f); [done|]. destruct a as [thread|e].
  - apply Inv_submit; [done|by eapply flight_of_in].
  - apply Inv_failed; [done|by eapply flight_in_ok].
Qed.
End Submit.

(** Releases. *)
Lemma Inv_release_deliver env t s s' t' : Inv s -> release_ok s t -> release_deliver env t s = (s', t') -> Inv s' /\ forall u, t' = Some u -> release_ok s' u.
Proof.
  intros I [Hh Hts]. unfold release_deliver. destruct (re_heads t) as [|h hs] eqn:E; [intros [= <- <-]; by split|].
  destruct (deliver env (re_room t) h (re_target t) s) as [s1 r] eqn:Hd. intros [= <- <-]. split; [by eapply Rooms_deliver|]. intros u [= <-].
  assert (Hlive : forall room seq, live_post s room seq -> live_post s1 room seq).
  { destruct (deliver_ok _ _ _ _ _ _ _ (in_logs _ I) Hd) as [(Ha & _)|(f & _ & _ & Hl & _)]; [intros; by eapply live_mono; [|apply I|]|].
    intros room seq. unfold live_post, postsOf, log_of. by rewrite Hl. }
  apply Forall_cons in Hh as [_ Hh]. apply (release_mono s s1 (mkRelease (re_id t) (re_box t) (re_now t) (re_rows t) (re_room t) (re_targets t) (re_target t) hs r) Hlive). by split.
Qed.
Lemma Inv_release_run env t s s' t' : Inv s -> release_ok s t -> release_run env t s = (s', t') -> Inv s' /\ forall u, t' = Some u -> release_ok s' u.
Proof.
  intros I Ht. unfold release_run. destruct (re_heads t) eqn:E; [|by apply Inv_release_deliver].
  destruct (next_target (re_now t) (re_room t) (re_targets t) s) as [s1 [[[target hs] ts]|]] eqn:En; destruct (next_target_ok _ _ _ _ (in_logs _ I) (proj2 Ht) _ _ En) as [Ha Hr];
    assert (I1 : Inv s1) by (apply (Inv_same s); [done|done|]; pose proof (same_rows_next_target (re_now t) (re_room t) (re_targets t) s) as Hsr; by rewrite En in Hsr).
  - apply Inv_release_deliver; [done|]. destruct (Hr _ _ _ eq_refl). by split.
  - destruct (next_room (re_now t) (re_box t) (re_rows t) s1) as [s2 [[[room rooms] [[target hs] ts]]|]] eqn:Em; destruct (next_room_ok _ _ _ _ (in_logs _ I1) _ _ Em) as [Ha2 Hr2];
      assert (I2 : Inv s2) by (apply (Inv_same s1); [done|done|]; pose proof (same_rows_next_room (re_now t) (re_box t) (re_rows t) s1) as Hsr; by rewrite Em in Hsr).
    + apply Inv_release_deliver; [done|]. destruct (Hr2 _ _ _ _ _ eq_refl). by split.
    + intros [= <- <-]. by split.
Qed.
Lemma Inv_with_releases s rs : Inv s -> Forall (release_ok s) rs -> Inv (with_releases rs s).
Proof.
  intros [I1 I2 I3 I4 I5] Hr. split; [exact I1|exact I2|eapply Forall_impl; [exact I3|intros f; by apply flight_mono]| |exact I5].
  eapply Forall_impl; [exact Hr|intros t; by apply release_mono].
Qed.
Lemma Inv_release env box s : Inv s -> Inv (release env box s).
Proof.
  intros I. unfold release. assert (In : Inv (with_next s)) by (apply (Inv_same s); [done|by apply advance_same|done]). destruct (release_run _ _ _) as [s' t'] eqn:E.
  destruct (fun Ht => Inv_release_run _ _ _ _ _ In Ht E) as [I' Ht]; [split; apply Forall_nil_2|]. destruct t' as [t|]; [|done]. apply Inv_with_releases; [done|]. apply Forall_app. split; [apply I'|]. apply Forall_singleton. by apply Ht.
Qed.
Lemma Inv_release_on env id s : Inv s -> Inv (release_on env id s).
Proof.
  intros I. unfold release_on. destruct (List.find _ (releases s)) as [t|] eqn:Ef; [|done]. apply find_some in Ef as [Hin _]. apply list_elem_of_In in Hin.
  destruct (match re_wait t with Some f => _ | None => false end); [done|]. destruct (release_run env t s) as [s' t'] eqn:E.
  pose proof (in_releases _ I) as Ir. rewrite Forall_forall in Ir. destruct (Inv_release_run _ _ _ _ _ I (Ir t Hin) E) as [I' Ht].
  apply Inv_with_releases; [done|]. pose proof (in_releases _ I') as Ir'. rewrite Forall_forall in Ir'. apply Forall_forall. destruct t' as [t'|].
  - intros u Hu. apply list_elem_of_In, in_map_iff in Hu as (u0 & <- & Hu0%list_elem_of_In). destruct (Nat.eqb _ _); [by apply Ht|by apply Ir'].
  - intros u [Hu _]%elem_filter. by apply Ir'.
Qed.

(** ** Every run *)

Lemma Rooms_start s : Inv s -> Inv (start s).
Proof.
  intros I. unfold start. apply (Inv_same s); [done| |].
  - eapply (advance_trans _ (with_stopped false s)); [by apply advance_same|]. apply (advance_schedules (fun k => k) (fun _ => true)).
  - eapply (same_rows_trans _ (with_stopped false s)); [done|]. apply (same_rows_schedules (fun k => k) (fun _ => true)).
Qed.
Lemma get_map_vals {V W} (f : string -> V -> W) k (m : list (string * V)) : OMap.get k (map (fun kl => (kl.1, f kl.1 kl.2)) m) = f k <$> OMap.get k m.
Proof.
  induction m as [|[k' v] m IH]; [done|]. change (map ?g ((k', v) :: m)) with ((k', f k' v) :: map g m). unfold OMap.get; fold (@OMap.get string W _) (@OMap.get string V _).
  case_decide; [by subst|done].
Qed.
Lemma Rooms_crash lost s : Inv s -> Inv (crash lost s).
Proof.
  intros [I1 [I2 I2'] I3 I4 I5]. split; [|by split|by apply Forall_nil_2|by apply Forall_nil_2|done]. intros room. unfold log_of, crash. cbn.
  rewrite (get_map_vals (fun k l => crash_log (lost k) l)). specialize (I1 room). unfold log_of in I1. destruct (OMap.get room (logs s)) as [l|]; cbn in *; [by apply log_ok_prefix|apply log_ok_no_log].
Qed.
Lemma Rooms_stop s : Inv s -> Inv (stop s).
Proof. intros I. by apply (Inv_same s); [|apply advance_same|]. Qed.
Lemma Inv_markRead id seq n s : Inv s -> Inv (markRead id seq n s).2.
Proof. intros I. unfold markRead. destruct (row_of s id); [|done]. by apply (Inv_same s); [|apply advance_same|]. Qed.

Section Runs.
Context `{RoomTexts}.

Lemma mentions_nodup env row text author : NoDup (List.filter (fun a => negb (bool_decide (a = "owner"))) (mentionsIn env row text author)).
Proof.
  unfold mentionsIn. rewrite List.filter_app. assert (Hn : List.filter (fun a => negb (bool_decide (a = "owner"))) (if names_owner (to_chars text) then ["owner"] else []) = []) by (by destruct (names_owner _)).
  rewrite Hn, app_nil_r. apply nodup_filter, nodup_filter, NoDup_unique.
Qed.
Lemma Inv_speak env row author x turn s : Inv s -> NoDup (map m_agent (g_members row)) -> Inv (speak env row author x turn s).2.
Proof.
  intros I Hm. unfold speak. apply (Inv_same s); [done| |apply same_rows_write]. apply advance_write. split_and!; [done|done|done|apply mentions_nodup].
Qed.
Lemma Rooms_step env ev s : Inv s -> Inv (step env ev s).
Proof.
  intros I. destruct ev as [uuid input|id x|id given w|id agent|id r|id r|id seq|id author x turn|h|f a|f a|box|id| | |lost]; cbn.
  - by apply Inv_create.
  - by apply Inv_update.
  - by apply Inv_addMembers.
  - by apply Inv_removeMember.
  - by apply Inv_post.
  - by apply Rooms_retry.
  - by apply Inv_markRead.
  - destruct (row_of s id) as [row|] eqn:E; [|done]. apply Inv_speak; [done|by eapply row_members].
  - by apply Inv_fire.
  - by apply Inv_thread_ready.
  - by apply Inv_answered.
  - by apply Inv_release.
  - by apply Inv_release_on.
  - by apply Rooms_start.
  - by apply Rooms_stop.
  - by apply Rooms_crash.
Qed.
Lemma Rooms_steps evs : Inv (steps evs new_rooms).
Proof.
  unfold steps. assert (I : Inv new_rooms). { split; [intros room; apply log_ok_no_log|split; apply Forall_nil_2|apply Forall_nil_2|apply Forall_nil_2|apply Forall_nil_2]. }
  revert I. generalize new_rooms. induction evs as [|[env ev] evs IH]; cbn; intros s I; [done|]. by apply IH, Rooms_step.
Qed.

(** C27: An agent loop stops: in any run of the rooms, whatever posts, tries, answers, bundles, restarts and crashes that
    lose the end of a log it has, no post six or more agent hops from the owner's last post is ever submitted to an agent,
    alone or as part of a bundle. *)
Theorem no_submit_past_the_hop_limit evs x h : x ∈ sent (steps evs new_rooms) -> h ∈ sn_hops x -> h < MAX_HOPS.
Proof.
  intros Hx Hh. pose proof (in_sent _ (Rooms_steps evs)) as Hs. rewrite Forall_forall in Hs. destruct (so_hops _ (Hs x Hx)) as [Hall _]. rewrite Forall_forall in Hall. by apply Hall.
Qed.

(** C28: A post reaches each reader through one delivery of its own: in every state of any run, crashes included, a room's
    posts have the seqs 1, 2, 3, ... and distinct dedup keys, and each post's deliveries name distinct agents, never the
    author, each under the key made of the room, the post and the agent; a delivery at the hop limit is stopped. *)
Theorem one_delivery_per_reader evs room p d : p ∈ postsOf (steps evs new_rooms) room -> d ∈ p_deliveries p ->
  NoDup (map d_target (p_deliveries p)) /\ d_target d <> p_author p /\ d_requestId d = delivery_key room (p_id p) (d_target d)
  /\ (MAX_HOPS <= p_hops p -> d_state d = DStopped)
  /\ map p_seq (postsOf (steps evs new_rooms) room) = map Z.of_nat (seq 1 (length (postsOf (steps evs new_rooms) room)))
  /\ NoDup (map p_requestId (postsOf (steps evs new_rooms) room)).
Proof.
  intros Hp Hd. pose proof (in_logs _ (Rooms_steps evs)) as Hl. pose proof (logs_wf _ room Hl) as [W1 W2 W3]. destruct (wf_of _ _ _ _ Hl Hp Hd) as [D1 D2 D3 D4].
  destruct (W3 p Hp) as (_ & Hn & _). split_and!; [done|done|done| |done|done]. intros Hh. by apply D3.
Qed.
End Runs.

(** ** Runs to look at *)

Definition demo_agents : list AgentRec := [mkAgent "ag_a" "a" "box" false; mkAgent "ag_b" "b" "box" false].
Definition demo_env (t : Z) : Env :=
  mkEnv t (fun a => List.find (fun r => bool_decide (ar_id r = a)) demo_agents) (fun a => ar_id <$> List.find (fun r => bool_decide (ar_id r = a)) demo_agents) demo_agents (fun _ => false) (fun _ => true).
Definition at_zero (evs : list Event) : list (Env * Event) := map (fun ev => (demo_env 0, ev)) evs.
Abbreviation demo_run evs := (@steps plain_texts (at_zero evs) new_rooms).
(** Two owner posts to one agent, each tried once while its box is away. *)
Definition two_wait : list Event :=
  [Start; Create "1" (mkInput KChannel (Some "dev") None None ["ag_a"] false); Post "ch_1" (mkSend "one" "r1" [] [] None); Post "ch_1" (mkSend "two" "r2" [] [] None);
   Fire 0; ThreadReady 2 (inr (HostAway "box")); Fire 1; ThreadReady 3 (inr (HostAway "box"))].
Definition delivery_state (s : Rooms) (seq : Z) (target : string) : option DeliveryState :=
  d_state <$> (post_at (postsOf s "ch_1") seq ≫= delivery_to target).


(** A failed post of a bundle that is sent again never goes.  Two posts wait for a box and go as one bundle, pi-host
    refuses it, and both fail; the owner sends the second one again, and its try hands over to the first post of the
    bundle, which is failed, so nothing is submitted: the post stays [DSending], which its page shows as queued, with no
    timer, no flight and no release left, and a restart tries it to the same end. *)
Theorem resent_bundle_member_is_stuck :
  let s := demo_run (two_wait ++ [BoxBack "box"; ThreadReady 5 (inl "t1"); Answered 5 (inr (HostFailed "archived")); ReleaseOn 4; Retry "ch_1" "r2"; Fire 6]) in
  delivery_state s 1 "ag_a" = Some DFailed /\ delivery_state s 2 "ag_a" = Some DSending /\ pending s = [] /\ flights s = [] /\ releases s = []
  /\ let s' := demo_run (two_wait ++ [BoxBack "box"; ThreadReady 5 (inl "t1"); Answered 5 (inr (HostFailed "archived")); ReleaseOn 4; Retry "ch_1" "r2"; Fire 6; Crash (fun _ => 0%nat); Start; Fire 7]) in
     delivery_state s' 2 "ag_a" = Some DSending /\ pending s' = [] /\ flights s' = [].
Proof. by vm_compute. Qed.

(** A box that comes back while its posts are being tried can lose one of them.  After a restart both waiting posts
    are tried at once; the box's link comes back, and [release] bundles them though they are in flight; the first one is
    taken alone, the second one's try fails, and its next try hands over to the first post of the bundle, which is
    delivered: the second post is never submitted again. *)
Theorem release_during_tries_loses_a_post :
  let s := demo_run (two_wait ++ [Crash (fun _ => 0%nat); Start; Fire 4; Fire 5; BoxBack "box"; ThreadReady 6 (inl "t1"); Answered 6 (inl 9); ThreadReady 7 (inr (HostFailed "timeout")); ReleaseOn 8; Fire 9]) in
  map sn_posts (sent s) = [[1]] /\ delivery_state s 1 "ag_a" = Some DDelivered /\ delivery_state s 2 "ag_a" = Some DSending
  /\ pending s = [] /\ flights s = [] /\ releases s = [].
Proof. by vm_compute. Qed.

(** An agent post five hops from the owner goes, and the answer to it stops. *)
Definition five_hops : list Event :=
  [Start; Create "1" (mkInput KChannel (Some "dev") None None ["ag_a"; "ag_b"] false);
   Speak "dev" "ag_a" (mkSpoken "hi" 0 "m:1" None None []) (Some (mkTurn 1 None None None (Some 4)));
   Speak "dev" "ag_b" (mkSpoken "no" 0 "m:2" None None []) (Some (mkTurn 1 None None None (Some 5))); Fire 0; ThreadReady 1 (inl "t1"); Answered 1 (inl 7)].
Lemma no_submit_past_the_hop_limit_witness : exists x, x ∈ sent (demo_run five_hops) /\ sn_hops x = [5] /\ 5 < MAX_HOPS.
Proof.
  assert (Hh : map sn_hops (sent (demo_run five_hops)) = [[5]]) by by vm_compute. destruct (sent (demo_run five_hops)) as [|x l] eqn:E; [done|]. cbn in Hh. injection Hh as Hh _.
  assert (Hx : x ∈ sent (demo_run five_hops)) by (rewrite E; left). assert (H5 : 5 ∈ sn_hops x) by (rewrite Hh; left).
  exists x. split; [left|]. split; [done|]. exact (@no_submit_past_the_hop_limit plain_texts _ x 5 Hx H5).
Defined.
Lemma one_delivery_per_reader_witness : exists p d, p ∈ postsOf (demo_run five_hops) "ch_1" /\ d ∈ p_deliveries p /\ d_state d = DStopped /\ d_requestId d = "d:ch_1:p2:ag_a".
Proof.
  destruct (post_at (postsOf (demo_run five_hops) "ch_1") 2) as [p|] eqn:Ep; [|by vm_compute in Ep].
  destruct (delivery_to "ag_a" p) as [d|] eqn:Ed; [|vm_compute in Ep; injection Ep as <-; by vm_compute in Ed].
  apply post_at_Some in Ep as Hp. destruct Hp as [Hp _]. apply delivery_to_Some in Ed as Hd. destruct Hd as [Hd Ht].
  destruct (@one_delivery_per_reader plain_texts _ "ch_1" p d Hp Hd) as (_ & _ & Hkey & Hstop & _).
  exists p, d. split; [done|]. split; [done|]. vm_compute in Ep. injection Ep as <-. split; [by apply Hstop|]. rewrite Hkey, Ht. by vm_compute.
Defined.
