(* ===== verification/RoomsRows.v ===== *)
(** * The rows of channels and Solo rooms

    Only the row operations change rows; the channels that are open keep distinct names through every run, and a
    channel's name is in one normal form, so the room a name finds is one room. *)

From S2P Require Import Prelude Outbox RoomData RoomText Rooms RoomsSpec.
#[local] Open Scope string_scope.
#[local] Open Scope list_scope.
#[local] Open Scope Z_scope.

(** ** What leaves the rows alone *)

Definition keeps_rows (s s' : Rooms) : Prop := rows s' = rows s /\ ((saved s').1 = (saved s).1 \/ (saved s').1 = rows s).
Lemma keeps_same_rows s s' : same_rows s s' -> keeps_rows s s'.
Proof. intros [H1 H2]. split; [done|left; congruence]. Qed.
Lemma keeps_trans s s' s'' : keeps_rows s s' -> same_rows s' s'' -> keeps_rows s s''.
Proof. intros [H1 H2] [H3 H4]. split; [congruence|]. rewrite H4. done. Qed.
Lemma keeps_retry env id requestId s : keeps_rows s (retry env id requestId s).2.
Proof. unfold retry. destruct (row_of s id); [|by apply keeps_same_rows]. destruct (byRequestId _ _); [|by apply keeps_same_rows]. destruct (refusal _); [by apply keeps_same_rows|]. apply keeps_same_rows, same_rows_retry. Qed.
Lemma keeps_post env id r s : keeps_rows s (post env id r s).2.
Proof.
  unfold post. destruct (row_of s id) as [row|]; [|by apply keeps_same_rows]. destruct (byRequestId _ _); [destruct (existsb _ _); [apply keeps_retry|by apply keeps_same_rows]|].
  destruct (refusal row); [by apply keeps_same_rows|]. destruct (sr_threadRoot r) as [root|]; [destruct (no_thread row _ root); [by apply keeps_same_rows|]|]; apply keeps_same_rows, same_rows_ownerPost.
Qed.
Lemma same_rows_deliver env room seq target s : logs_ok s -> same_rows s (deliver env room seq target s).1.
Proof.
  intros Hs. destruct (deliver env room seq target s) as [s' r] eqn:E. destruct (deliver_ok _ _ _ _ _ _ _ Hs E) as [(_ & H1 & H2)|(f & _ & _ & _ & H1 & H2 & _)]; by split.
Qed.
Lemma same_rows_failed env f e s : same_rows s (deliver_failed env f e s).
Proof.
  unfold deliver_failed. destruct (fl_key f) as [[room seq] target]. destruct (match e with HostAway box => _ | HostFailed _ => _ end) as [box|]; [|destruct (refusedForGood _)].
  - eapply same_rows_trans; [apply same_rows_set_all|done].
  - eapply same_rows_trans; [apply same_rows_set_all|done].
  - eapply same_rows_trans; [apply same_rows_set_all|]. eapply same_rows_trans; [apply same_rows_schedule|done].
Qed.
Lemma same_rows_release_deliver env t s : logs_ok s -> same_rows s (release_deliver env t s).1.
Proof.
  intros Hs. unfold release_deliver. destruct (re_heads t) as [|h hs]; [done|]. pose proof (same_rows_deliver env (re_room t) h (re_target t) s Hs) as H. by destruct (deliver _ _ _ _ s).
Qed.
Lemma same_rows_release_run env t s : Inv s -> release_ok s t -> same_rows s (release_run env t s).1.
Proof.
  intros I Ht. unfold release_run. destruct (re_heads t) eqn:E; [|by apply same_rows_release_deliver, I].
  pose proof (same_rows_next_target (re_now t) (re_room t) (re_targets t) s) as H1.
  destruct (next_target (re_now t) (re_room t) (re_targets t) s) as [s1 [[[target hs] ts]|]] eqn:En; destruct (next_target_ok _ _ _ _ (in_logs _ I) (proj2 Ht) _ _ En) as [Ha Hr]; cbn in H1.
  - eapply same_rows_trans; [exact H1|]. apply same_rows_release_deliver. by apply Ha, I.
  - pose proof (same_rows_next_room (re_now t) (re_box t) (re_rows t) s1) as H2.
    destruct (next_room (re_now t) (re_box t) (re_rows t) s1) as [s2 [[[room rooms] [[target hs] ts]]|]] eqn:Em; destruct (next_room_ok _ _ _ _ ltac:(by apply Ha, I) _ _ Em) as [Ha2 Hr2]; cbn in H2.
    + eapply same_rows_trans; [exact H1|]. eapply same_rows_trans; [exact H2|]. apply same_rows_release_deliver. by apply Ha2, Ha, I.
    + by eapply same_rows_trans.
Qed.
Definition row_event (ev : Event) : bool :=
  match ev with Create _ _ | Update _ _ | AddMembers _ _ _ | RemoveMember _ _ | Crash _ => true | _ => false end.
Lemma keeps_step `{RoomTexts} env ev s : Inv s -> row_event ev = false -> keeps_rows s (step env ev s).
Proof.
  intros I Hev. destruct ev as [uuid input|id x|id given w|id agent|id r|id r|id seq|id author x turn|h|f a|f a|box|id| | |lost]; try done; cbn.
  - apply keeps_post.
  - apply keeps_retry.
  - apply keeps_same_rows. unfold markRead. by destruct (row_of s id).
  - destruct (row_of s id); apply keeps_same_rows; [apply same_rows_write|done].
  - apply keeps_same_rows. unfold fire. destruct (List.find _ (pending s)) as [[[h' [[room seq] target]] d]|]; [|done].
    match goal with |- same_rows s (deliver ?e ?r ?q ?t ?u).1 => eapply (same_rows_trans _ u); [done|apply same_rows_deliver, (in_logs _ (Inv_same s u I ltac:(by apply advance_same) ltac:(done)))] end.
  - unfold thread_ready. destruct (flight_of f s) as [g|]; [|by apply keeps_same_rows]. destruct (fl_thread g); [by apply keeps_same_rows|]. destruct a as [thread|e]; [|apply keeps_same_rows, same_rows_failed].
    unfold submit. destruct (fl_key g) as [[room seq] target]. destruct (OMap.get thread (feeds s)); (destruct (row_of _ room); [|first [by apply keeps_same_rows|split; [done|by right]]]); first [by apply keeps_same_rows|split; [done|by right]].
  - apply keeps_same_rows. unfold answered. destruct (flight_of f s) as [g|]; [|done]. destruct (fl_thread g); [|done]. destruct a as [n|e]; [|apply same_rows_failed].
    destruct (fl_key g) as [[room seq] target]. eapply same_rows_trans; [apply same_rows_set_all|done].
  - apply keeps_same_rows. unfold release. assert (In : Inv (with_next s)) by (apply (Inv_same s); [done|by apply advance_same|done]).
    match goal with |- context [release_run env ?t ?u] => assert (Hr : same_rows u (release_run env t u).1) by (apply same_rows_release_run; [done|split; apply Forall_nil_2]); destruct (release_run env t u) as [s' [t'|]] end; exact Hr.
  - apply keeps_same_rows. unfold release_on. destruct (List.find _ (releases s)) as [t|] eqn:Ef; [|done]. apply find_some in Ef as [Hin _]. apply list_elem_of_In in Hin.
    destruct (match re_wait t with Some f => _ | None => false end); [done|]. pose proof (in_releases _ I) as Ir. rewrite Forall_forall in Ir.
    pose proof (same_rows_release_run env t s I (Ir t Hin)) as Hr. destruct (release_run env t s) as [s' t']. exact Hr.
  - apply keeps_same_rows. unfold start. eapply (same_rows_trans _ (with_stopped false s)); [done|]. apply (same_rows_schedules (fun k => k) (fun _ => true)).
  - by apply keeps_same_rows.
Qed.

(** ** Open channels *)

Definition open_channel (r : GroupRoom) : bool := is_channel r && negb (g_archived r).
Definition distinct_names (rs : list GroupRoom) : Prop :=
  forall i j r r', rs !! i = Some r -> rs !! j = Some r' -> open_channel r = true -> open_channel r' = true -> g_name r = g_name r' -> i = j.

Lemma clash_false name i rs j r : clash name i rs = false -> rs !! j = Some r -> open_channel r = true -> g_name r = name -> j = i.
Proof.
  intros Hc Hj Ho Hn. destruct (decide (j = i)) as [|Hne]; [done|]. exfalso. unfold clash in Hc.
  assert (existsb (fun jr : nat * GroupRoom => negb (bool_decide (jr.1 = i)) && is_channel jr.2 && negb (g_archived jr.2) && bool_decide (g_name jr.2 = name)) (imap pair rs) = true); [|congruence].
  apply existsb_exists. exists (j, r). split.
  - apply list_elem_of_In, list_elem_of_lookup. exists j. by rewrite list_lookup_imap, Hj.
  - cbn. rewrite (bool_decide_eq_false_2 _ Hne), (bool_decide_eq_true_2 _ Hn). unfold open_channel in Ho. simp_ok. rewrite H. cbn. by rewrite H0.
Qed.
(** A row changed so that no other open channel has its name. *)
Lemma distinct_alter i f rs row : distinct_names rs -> rs !! i = Some row ->
  (open_channel (f row) = true -> forall j r, rs !! j = Some r -> open_channel r = true -> g_name r = g_name (f row) -> j = i) -> distinct_names (alter f i rs).
Proof.
  intros Hd Hi Hf a b r r' Ha Hb Ho Ho' Hn. destruct (decide (i = a)) as [<-|Hia], (decide (i = b)) as [<-|Hib]; [done| | |].
  - rewrite list_lookup_alter_eq, Hi in Ha. rewrite list_lookup_alter_ne in Hb by done. cbn in Ha. injection Ha as <-. symmetry. by apply (Hf Ho b r').
  - rewrite list_lookup_alter_eq, Hi in Hb. rewrite list_lookup_alter_ne in Ha by done. cbn in Hb. injection Hb as <-. by apply (Hf Ho' a r).
  - rewrite list_lookup_alter_ne in Ha, Hb by done. by apply (Hd a b r r').
Qed.
Lemma distinct_alter_same i f rs : distinct_names rs -> (forall r, open_channel (f r) = true -> open_channel r = true) -> (forall r, g_name (f r) = g_name r) -> distinct_names (alter f i rs).
Proof.
  intros Hd Ho Hn. destruct (rs !! i) as [row|] eqn:E.
  - apply (distinct_alter _ _ _ row); [done|done|]. intros H j r Hj Hr Hnr. apply (Hd j i r row); [done|done|done|by apply Ho|congruence].
  - replace (alter f i rs) with rs; [done|]. symmetry. apply list_eq. intros j. destruct (decide (i = j)) as [<-|]; [by rewrite list_lookup_alter_eq, E|by rewrite list_lookup_alter_ne].
Qed.

(** A part of [update], on a state where row [i] is of the kind [row] was. *)
Definition kind_at (i : nat) (row : GroupRoom) (s : Rooms) : Prop := exists r, rows s !! i = Some r /\ is_channel r = is_channel row.
Definition names_ok (s : Rooms) : Prop := distinct_names (rows s) /\ distinct_names (saved s).1.
Definition names_op (i : nat) (row : GroupRoom) (a : Op) : Prop := forall s, kind_at i row s -> names_ok s -> kind_at i row (a s).2 /\ names_ok (a s).2.
Lemma names_op_seq i row a b : names_op i row a -> names_op i row b -> names_op i row (a ;;; b).
Proof. intros Ha Hb s H1 H2. unfold op_seq. specialize (Ha s H1 H2). destruct (a s) as [[u|e] s1]; cbn in *; [|done]. apply Hb; apply Ha. Qed.
Lemma names_op_skip i row a : (forall s, (a s).2 = s) -> names_op i row a.
Proof. intros H s H1 H2. by rewrite H. Qed.
Lemma names_op_alter i row f a : (forall r, is_channel r = is_channel row -> is_channel (f r) = is_channel r) -> (forall s, kind_at i row s -> names_ok s -> (a s).2 = s \/
    (a s).2 = on_row i f s /\ forall r, rows s !! i = Some r -> open_channel (f r) = true -> forall j r', rows s !! j = Some r' -> open_channel r' = true -> g_name r' = g_name (f r) -> j = i) -> names_op i row a.
Proof.
  intros Hk Ha s H1 [H2 H3]. destruct (Ha s H1 (conj H2 H3)) as [-> |[-> Hf]]; [done|]. destruct H1 as (r & Hr & Hkr). split.
  - exists (f r). cbn. rewrite list_lookup_alter_eq, Hr. split; [done|]. rewrite <- Hkr. by apply Hk.
  - split; [|done]. cbn. apply (distinct_alter _ _ _ r); [done|done|]. by apply Hf.
Qed.
(** A part that keeps names and opens nothing. *)
Lemma names_op_quiet i row f a : (forall r, is_channel r = is_channel row -> is_channel (f r) = is_channel r) -> (forall r, g_name (f r) = g_name r /\ g_archived (f r) = g_archived r) ->
  (forall s, (a s).2 = s \/ (a s).2 = on_row i f s) -> names_op i row a.
Proof.
  intros Hk Hf Ha. apply (names_op_alter i row f); [done|]. intros s (r0 & Hr0 & Hk0) [Hd _]. destruct (Ha s) as [H|H]; [by left|right]. split; [done|].
  intros r Hr Ho j r' Hj Ho' Hn. assert (r0 = r) as -> by congruence. destruct (Hf r) as [Hn' Ha']. apply (Hd j i r' r); [done|done|done| |congruence].
  unfold open_channel in *. by rewrite Hk, Ha' in Ho.
Qed.

Lemma names_update_name i row v : names_op i row (update_name i row v).
Proof.
  unfold update_name. destruct v as [v|]; [|by apply names_op_skip]. set (name := if is_channel row then channelName v else trim v).
  apply (names_op_alter i row (set_name name)); [done|]. intros s (r0 & Hr0 & Hk0) [Hd _]. case_bool_decide; [by left|]. destruct (is_channel row && clash name i (rows s)) eqn:Ec; [by left|right].
  split; [done|]. intros r Hr Ho j r' Hj Ho' Hn. assert (r0 = r) as -> by congruence. cbn in Hn. unfold open_channel in Ho. simp_ok.
  change (is_channel (set_name name r)) with (is_channel r) in *. rewrite <- Hk0 in Ec. destruct (is_channel r); [|done]. cbn in Ec. by apply (clash_false name i (rows s) j r').
Qed.
Lemma names_update_archived i row v : names_op i row (update_archived i v).
Proof.
  unfold update_archived. destruct v as [v|]; [|by apply names_op_skip; intros s; destruct (rows s !! i)].
  apply (names_op_alter i row (set_archived v)); [done|]. intros s (r0 & Hr0 & Hk0) [Hd _]. rewrite Hr0. destruct (negb v && g_archived r0 && is_channel r0 && clash (g_name r0) i (rows s)) eqn:Ec; [by left|right].
  split; [done|]. intros r Hr Ho j r' Hj Ho' Hn. assert (r0 = r) as -> by congruence. cbn in Hn. unfold open_channel in Ho. cbn in Ho.
  change (is_channel (set_archived v r)) with (is_channel r) in *. simp_ok. rewrite H, H0 in Ec. cbn in Ec. destruct (g_archived r) eqn:Ea; cbn in Ec.
  - by apply (clash_false (g_name r) i (rows s) j r').
  - apply (Hd j i r' r); [done|done|done| |done]. unfold open_channel. by rewrite H, Ea.
Qed.

Lemma names_update env id x s : names_ok s -> names_ok (update env id x s).2.
Proof.
  intros Hn. unfold update. destruct (row_index id (rows s) ≫= _) as [[i row]|] eqn:Ei; [|done].
  assert (Hrow : rows s !! i = Some row). { destruct (row_index id (rows s)) as [k|]; cbn in Ei; [|done]. destruct (rows s !! k) eqn:Ek; cbn in Ei; [|done]. injection Ei as <- <-. done. }
  assert (Hop : names_op i row (update_name i row (rp_name x) ;;; update_agenda i row (rp_agenda x) ;;; update_closed i row (rp_closed x) (now env) ;;;
       update_archived i (rp_archived x) ;;; update_homeChat i row (rp_homeChat x) ;;; op_do saveRooms)).
  { repeat apply names_op_seq.
    - apply names_update_name.
    - unfold update_agenda. destruct (rp_agenda x) as [v|]; [|by apply names_op_skip]. destruct (g_kind row) as [pu h|ag c] eqn:Ek.
      + apply (names_op_quiet i row (set_kind (Channel v h))); [|done|by right]. intros r ->. unfold is_channel. by rewrite Ek.
      + case_bool_decide; [by apply names_op_skip|]. apply (names_op_quiet i row (set_kind (Solo (trim v) c))); [|done|by right]. intros r ->. unfold is_channel. by rewrite Ek.
    - unfold update_closed. destruct (rp_closed x) as [c|]; [|by apply names_op_skip]. destruct (g_kind row); [by apply names_op_skip|].
      apply (names_op_quiet i row (set_closed c (now env))); [| |by right]; intros r; unfold set_closed, is_channel; by destruct (g_kind r) eqn:Ek; cbn; rewrite ?Ek.
    - apply names_update_archived.
    - unfold update_homeChat. destruct (rp_homeChat x) as [v|]; [|by apply names_op_skip]. destruct (g_kind row); [|by apply names_op_skip].
      apply (names_op_quiet i row (set_homeChat v)); [| |by right]; intros r; unfold set_homeChat, is_channel; by destruct (g_kind r) eqn:Ek; cbn; rewrite ?Ek.
    - intros u Hk [H1 H2]. by split. }
  apply Hop; [by exists row|done].
Qed.

Lemma distinct_members i f rs : (forall r, g_name (f r) = g_name r /\ g_archived (f r) = g_archived r /\ g_kind (f r) = g_kind r) -> distinct_names rs -> distinct_names (alter f i rs).
Proof. intros Hf Hd. apply distinct_alter_same; [done| |intros r; apply Hf]. intros r. destruct (Hf r) as (_ & H1 & H2). unfold open_channel, is_channel. by rewrite H1, H2. Qed.
Lemma names_addMembers env id given w s : names_ok s -> names_ok (addMembers env id given w s).2.
Proof.
  intros [H1 H2]. unfold addMembers. destruct (row_index id (rows s)) as [i|]; [|done]. case_bool_decide; [done|].
  destruct w as [[v|]|]; [|done|]; (destruct (memberIds env given) as [ids|e]; [|done]); split; by apply distinct_members.
Qed.
Lemma names_removeMember env id agent s : names_ok s -> names_ok (removeMember env id agent s).2.
Proof. intros [H1 H2]. unfold removeMember. destruct (row_index id (rows s)) as [i|]; [|done]. split; by apply distinct_members. Qed.
Lemma distinct_snoc rs row : distinct_names rs -> (open_channel row = true -> forall r, r ∈ rs -> open_channel r = true -> g_name r <> g_name row) -> distinct_names (rs ++ [row]).
Proof.
  intros Hd Hnew i j r r' Hi Hj Ho Ho' Hn. apply lookup_app_Some in Hi as [Hi|[Hil Hi]], Hj as [Hj|[Hjl Hj]].
  - by apply (Hd i j r r').
  - apply list_lookup_singleton_Some in Hj as [_ <-]. exfalso. apply (Hnew Ho' r); [apply list_elem_of_lookup; by exists i|done|done].
  - apply list_lookup_singleton_Some in Hi as [_ <-]. exfalso. apply (Hnew Ho r'); [apply list_elem_of_lookup; by exists j|done|done].
  - apply list_lookup_singleton_Some in Hi as [Hi _], Hj as [Hj _]. lia.
Qed.

Section Names.
Context `{RoomTexts}.

Lemma names_create env uuid input s : names_ok s -> names_ok (create env uuid input s).2.
Proof.
  intros [H1 H2]. unfold create. destruct (ri_kind input); [| |done]; (destruct (memberIds env (ri_members input)) as [ids|e]; [|done]).
  - case_bool_decide; [done|]. destruct (existsb _ (rows s)) eqn:Ex; [done|]. assert (Hd : distinct_names (rows s ++ [mkRoom ("ch_" +:+ uuid) (Channel (trim (nullish (ri_agenda input) "")) (ri_homeChat input)) (channelName (nullish (ri_name input) "")) (now env) false (ri_test input)
      (map (fun a => mkMember a WakeAll (now env)) (unique ids))])); [|done].
    apply distinct_snoc; [done|]. cbn. intros _ r Hr Ho Hn. rewrite (proj2 (existsb_exists _ _)) in Ex; [done|]. exists r. split; [by apply list_elem_of_In|].
    apply andb_true_iff in Ho as [Ho1 Ho2]. by rewrite Ho1, Ho2, (bool_decide_eq_true_2 _ Hn).
  - case_bool_decide; [done|]. case_bool_decide; [done|]. cbn [snd]. match goal with |- names_ok (ownerPost env ?row ?t ?q ?im ?me ?ro ?u).2 => destruct (same_rows_ownerPost env row t q im me ro u) as [Hr Hv] end.
    unfold names_ok. rewrite Hr, Hv. split; cbn; by apply distinct_snoc.
Qed.
Lemma names_step env ev s : Inv s -> names_ok s -> names_ok (step env ev s).
Proof.
  intros I Hn. destruct (row_event ev) eqn:E.
  - destruct ev as [uuid input|id x|id given w|id agent|id r|id r|id seq|id author x turn|h|f a|f a|box|id| | |lost]; try done; cbn.
    + by apply names_create.
    + by apply names_update.
    + by apply names_addMembers.
    + by apply names_removeMember.
    + destruct Hn as [H1 H2]. by split.
  - destruct (keeps_step env ev s I E) as [Hr Hv], Hn as [H1 H2]. unfold names_ok. rewrite Hr. split; [done|]. by destruct Hv as [-> | ->].
Qed.

(** No two open channels share a name: in any run of the rooms, after creates, renames, archives and unarchives in any
    order, updates that throw half way and crashes included, two places of the room list that hold channels which are not
    archived and have one name are one place.  So the room a post or a member is sent to by name is one room. *)
Theorem open_channels_have_distinct_names evs i j r r' : let rs := rows (steps evs new_rooms) in
  rs !! i = Some r -> rs !! j = Some r' -> is_channel r = true -> is_channel r' = true -> g_archived r = false -> g_archived r' = false -> g_name r = g_name r' -> i = j.
Proof.
  assert (Hn : names_ok (steps evs new_rooms)).
  { unfold steps. assert (Hs : Inv new_rooms /\ names_ok new_rooms). { split; [apply (Rooms_steps [])|split; intros a b x y Ha; by destruct a]. }
    revert Hs. generalize new_rooms. induction evs as [|[env ev] evs IH]; cbn; intros s [I Hs]; [done|]. apply IH. split; [by apply Rooms_step|by apply names_step]. }
  intros rs Hi Hj Hc Hc' Ha Ha' Heq. apply (proj1 Hn i j r r'); [done|done| | |done]; unfold open_channel; [by rewrite Hc, Ha|by rewrite Hc', Ha'].
Qed.
End Names.

(** An archived channel renamed to an open one's name cannot open. *)
Lemma open_channels_have_distinct_names_witness :
  let evs := [Create "1" (mkInput KChannel (Some "Dev") None None ["ag_a"] false); Update "ch_1" (mkRoomPatch None None None (Some true) None);
              Create "2" (mkInput KChannel (Some "#dev") None None ["ag_a"] false); Update "ch_1" (mkRoomPatch None None None (Some false) None);
              Update "ch_1" (mkRoomPatch (Some "dev 2") None None (Some false) None)] in
  map (fun r => (g_id r, g_name r, g_archived r)) (rows (demo_run evs)) = [("ch_1", "dev-2", false); ("ch_2", "dev", false)] /\ 1%nat = 1%nat.
Proof.
  set (evs := [Create "1" _; _; _; _; _]). assert (Hr : map (fun r => (g_id r, g_name r, g_archived r)) (rows (demo_run evs)) = [("ch_1", "dev-2", false); ("ch_2", "dev", false)]) by by vm_compute.
  split; [done|]. destruct (rows (demo_run evs) !! 1%nat) as [r|] eqn:E; [|by vm_compute in E].
  apply (@open_channels_have_distinct_names plain_texts (at_zero evs) 1 1 r r); [done|done|..]; vm_compute in E; injection E as <-; done.
Defined.

(** ** The normal form of a channel's name *)

(** Lower-case letters, digits, [-] and [_], with no [-] at either end. *)
Definition name_form (l : chars) : Prop :=
  forallb slug_char l = true /\ (forall c, head l = Some c -> is_dash c = false) /\ (forall c, last l = Some c -> is_dash c = false).
Lemma dash_runs_slug b l : forallb slug_char (dash_runs b l) = true.
Proof. revert b. induction l as [|c l IH]; intros b; cbn; [done|]. destruct (slug_char c) eqn:E; cbn; [by rewrite E, IH|]. destruct b; [apply IH|]. cbn. apply IH. Qed.
Lemma forallb_sub {A} (f : A -> bool) l l' : (forall x, x ∈ l' -> x ∈ l) -> forallb f l = true -> forallb f l' = true.
Proof. intros Hs Hf. rewrite forallb_forall in *. intros x Hx. apply Hf. apply list_elem_of_In, Hs. by apply list_elem_of_In. Qed.
Lemma drop_while_sub {A} (p : A -> bool) l x : x ∈ drop_while p l -> x ∈ l.
Proof. induction l as [|y l IH]; cbn; [done|]. destruct (p y); [intros H; right; by apply IH|done]. Qed.
Lemma drop_while_head {A} (p : A -> bool) l x : head (drop_while p l) = Some x -> p x = false.
Proof. induction l as [|y l IH]; cbn; [done|]. destruct (p y) eqn:E; [done|]. intros [= <-]. done. Qed.
Lemma drop_while_last {A} (p : A -> bool) l x : last (drop_while p l) = Some x -> last l = Some x.
Proof. induction l as [|y l IH]; [done|]. cbn [drop_while]. destruct (p y); [|done]. intros Hl. destruct l as [|z l]; [done|]. cbn [last]. by apply IH. Qed.
Lemma head_reverse {A} (l : list A) : head (reverse l) = last l.
Proof. destruct l as [|x l _] using rev_ind; [done|]. by rewrite reverse_app, last_snoc. Qed.
Lemma last_reverse {A} (l : list A) : last (reverse l) = head l.
Proof. rewrite <- (reverse_involutive l) at 2. by rewrite head_reverse. Qed.
Lemma strip_form l : forallb slug_char l = true -> name_form (strip_dashes l).
Proof.
  intros Hs. unfold strip_dashes. split_and!.
  - eapply forallb_sub; [|exact Hs]. intros x Hx. apply elem_of_reverse, drop_while_sub in Hx. rewrite elem_of_reverse in Hx. by eapply drop_while_sub.
  - intros c. rewrite head_reverse. intros Hc%drop_while_last. rewrite last_reverse in Hc. by apply drop_while_head in Hc.
  - intros c. rewrite last_reverse. apply drop_while_head.
Qed.
Lemma channelName_form name : name_form (to_chars (channelName name)).
Proof. unfold channelName. rewrite to_of_chars. apply strip_form, dash_runs_slug. Qed.

Lemma slug_plain c : slug_char c = true -> lower c = c /\ is_space c = false /\ c <> "#"%char.
Proof. destruct c as [[] [] [] [] [] [] [] []]; vm_compute; try done; intros; by split_and!. Qed.
Lemma strip_form_id l : name_form l -> strip_dashes l = l.
Proof.
  intros (_ & Hh & Hl). unfold strip_dashes. destruct l as [|c l]; [done|]. assert (Hd : drop_while is_dash (c :: l) = c :: l) by (cbn; by rewrite (Hh c eq_refl)).
  rewrite Hd. destruct (reverse (c :: l)) as [|e r] eqn:E; [by apply (f_equal length) in E; rewrite length_reverse in E|].
  cbn [drop_while]. rewrite (Hl e); [by rewrite <- E, reverse_involutive|]. by rewrite <- head_reverse, E.
Qed.
Lemma dash_runs_id b l : forallb slug_char l = true -> dash_runs b l = l.
Proof. revert b. induction l as [|c l IH]; intros b; cbn; [done|]. intros [Hc Hl]%andb_true_iff. by rewrite Hc, IH. Qed.

(** A channel's name is a normal form: [channelName] of any text is lower-case letters, digits, dashes and underscores
    with no dash at either end, and taking the name of a name changes nothing, so a channel is found by its own name as
    by any text that names it. *)
Theorem channelName_idempotent name : channelName (channelName name) = channelName name.
Proof.
  pose proof (channelName_form name) as Hf. set (n := channelName name) in *. unfold channelName. destruct Hf as (Hs & Hh & Hl).
  assert (Hlow : forall l, forallb slug_char l = true -> map lower l = l).
  { induction l as [|c l IH]; cbn; [done|]. intros [Hc Hr]%andb_true_iff. rewrite IH by done. by destruct (slug_plain c Hc) as [-> _]. }
  assert (Htrim : trim_chars (to_chars n) = to_chars n).
  { destruct (to_chars n) as [|c l] eqn:E; [done|]. rewrite <- E in *. destruct (last (to_chars n)) as [e|] eqn:Ee; [|by rewrite E in Ee; apply last_None in Ee].
    rewrite forallb_forall in Hs. apply (trim_chars_id _ c e); [by rewrite E|done| |].
    - apply slug_plain, Hs. rewrite E. by left.
    - apply slug_plain, Hs. apply list_elem_of_In. by apply last_Some_elem_of. }
  rewrite Htrim. assert (Hhash : drop_hash (to_chars n) = to_chars n).
  { destruct (to_chars n) as [|c l] eqn:E; [done|]. cbn in Hs. apply andb_true_iff in Hs as [Hc _]. cbn. rewrite bool_decide_eq_false_2; [done|]. by apply slug_plain. }
  by rewrite Hhash, Hlow, dash_runs_id, strip_form_id, of_to_chars.
Qed.
