(* ===== verification/RoomFeed.v ===== *)
(** * From a comm thread back to its room

    [readFeedThread] of [apps/chat/server/rooms.ts] with the group rooms' side of it ([side] of [group-rooms.ts]): the
    entries of an agent's comm thread after the cursor become the agent's posts in the room, one hop further than the
    post its turn answers.  An entry's message has what the feed reads of it.  A page is read without an await, so a page
    is one step, on the cursor and the rooms; that one reader runs per thread ([feed]) is outside. *)

From S2P Require Import Prelude Outbox RoomData RoomText Rooms RoomsSpec.
#[local] Open Scope string_scope.
#[local] Open Scope list_scope.
#[local] Open Scope Z_scope.

(** A block of an assistant message: [text], [to] and [why] are the call's arguments that are strings. *)
Inductive FeedBlock := FText (text : string) | FCall (id name : string) (text to why : option string) | FOtherBlock.
Inductive FeedMessage :=
| FUser (text : string)
| FAssistant (bs : list FeedBlock)
| FToolResult (toolCallId : option string) (toolName text : string) (isError : bool) (timestamp : option Z) (conversationId : option Z) (conversations : list Z).
Record FeedEntry := mkFeedEntry { fe_id : Z; fe_kind : string; fe_via : option string; fe_message : option FeedMessage }.

Definition TELL_OWNER_TOOL : string := "tell_owner".
Definition SEND_MESSAGE_TOOL : string := "send_message".
Definition TELL_OWNER_HELD : string := "Kept as a note, not sent".
Definition is_user (m : option FeedMessage) : bool := match m with Some (FUser _) => true | _ => false end.
Definition isInput (e : FeedEntry) : bool :=
  bool_decide (fe_kind e ∈ INPUT_KINDS) || (is_user (fe_message e) && negb (bool_decide (fe_kind e ∈ TURN_KINDS))).
Definition entry_text (e : FeedEntry) : string :=
  match fe_message e with
  | Some (FUser t) | Some (FToolResult _ _ t _ _ _ _) => t
  | Some (FAssistant bs) => join nl (omap (fun b => match b with FText t => Some t | _ => None end) bs)
  | None => ""
  end.

(** A string argument that is not blank, trimmed. *)
Definition said (s : option string) : option string := s ≫= fun s => let t := trim s in if bool_decide (t = "") then None else Some t.
(** [sentMessage]: the call's id, text and [to]. *)
Definition sentMessage (b : FeedBlock) : option (string * string * option string) :=
  match b with
  | FCall id name text to _ => if bool_decide (name = TELL_OWNER_TOOL) || bool_decide (name = SEND_MESSAGE_TOOL) then (fun t => (id, t, said to)) <$> said text else None
  | _ => None
  end.
Definition held (toolName text : string) : bool := bool_decide (toolName = TELL_OWNER_TOOL) && starts_with (to_chars TELL_OWNER_HELD) (to_chars text).
Definition job_id (thread : string) (n : Z) : string := thread +:+ ":" +:+ string_of_Z n.
Definition jobsIn (thread : string) (conversationId : option Z) (conversations : list Z) : list string :=
  unique (map (job_id thread) (option_list conversationId ++ conversations)).

(** [aimedHere]. *)
Definition aimedHere (row : GroupRoom) (to : string) : bool :=
  let name := of_chars (map lower (drop_hash (trim_chars (to_chars to)))) in
  bool_decide (name = to_lower (g_id row)) || bool_decide (name = to_lower (g_name row)).

(** ** The turn an input starts *)

Fixpoint first_named (f : RoomPost -> bool) (hs : list (Z * Z)) (ps : list RoomPost) : option RoomPost :=
  match hs with [] => None | h :: r => match List.find (fun p => (p_seq p =? h.1) && f p) ps with Some p => Some p | None => first_named f r ps end end.
Definition ownerPostOf (ps : list RoomPost) (agent thread : string) (e : FeedEntry) : option string :=
  match first_named (fun p => bool_decide (p_author p = "owner")) (envelopeHeaders (entry_text e)) ps with
  | Some p => Some (p_id p)
  | None => p_id <$> List.find (fun p => bool_decide (p_author p = "owner") && existsb (fun d => bool_decide (d_target d = agent) && bool_decide (d_thread d = Some thread)) (p_deliveries p)) (reverse ps)
  end.
Definition max_hops (hs : list (Z * Z)) : Z := foldr (fun h m => Z.max h.2 m) 0 hs.
Definition turn_of (ps : list RoomPost) (row : GroupRoom) (agent thread : string) (e : FeedEntry) (previous : option FeedTurn) : FeedTurn :=
  if bool_decide (fe_kind e = "pi.user") then mkTurn (fe_id e) None None (ownerPostOf ps agent thread e) (Some 0)
  else if bool_decide (fe_kind e = "agent.message") && bool_decide (fe_via e = Some (g_id row)) then
    let hs := envelopeHeaders (entry_text e) in
    mkTurn (fe_id e) None None (p_id <$> first_named (fun _ => true) hs ps) (Some (max_hops hs))
  else mkTurn (fe_id e) None None (previous ≫= ft_post) (previous ≫= ft_hops).

(** ** An entry *)

Section Feed.
Context `{RoomTexts}.
Variables (env : Env) (row : GroupRoom) (agent thread : string).

Definition open_block (entry : Z) (op : list (string * OpenCall)) (b : FeedBlock) : list (string * OpenCall) :=
  match sentMessage b with
  | Some (id, text, to) =>
      if match to with Some t => aimedHere row t | None => true end
      then OMap.set id (mkCall text entry (match b with FCall _ _ _ _ why => said why | _ => None end)) op else op
  | None => op
  end.
Definition feed_key (id : string) : string := "m:" +:+ thread +:+ ":" +:+ id.
(** The call whose result this is, when it went out: the post, and the turn it leaves. *)
Definition result_post (call : OpenCall) (id : string) (at_ : option Z) (turn : option FeedTurn) (s : Rooms) : RoomPost * option FeedTurn * Rooms :=
  let '(p, s) := speak env row agent (mkSpoken (oc_text call) (nullish at_ (now env)) (feed_key id) (oc_why call) (Some (thread, oc_entry call))
                                        (nullish (turn ≫= ft_jobs) [])) turn s in
  (p, (fun t => mkTurn (ft_input t) (Some (p_id p)) None (ft_post t) (ft_hops t)) <$> turn, s).
(** The jobs a tool result names. *)
Definition add_jobs (entry : Z) (jobs : list string) (turn : option FeedTurn) (s : Rooms) : option FeedTurn * Rooms :=
  if bool_decide (jobs = []) then (turn, s)
  else let t := nullish turn (mkTurn entry None None None None) in
       match ft_lastPost t ≫= fun id => post_by_id id (postsOf s (g_id row)) with
       | Some p =>
           let all := unique (p_jobs p ++ jobs) in
           (Some t, if Nat.eqb (length all) (length (p_jobs p)) then s else with_log (g_id row) (set_post (p_id p) (jobs_patch all) (log_of s (g_id row))) s)
       | None => (Some (mkTurn (ft_input t) (ft_lastPost t) (Some (unique (nullish (ft_jobs t) [] ++ jobs))) (ft_post t) (ft_hops t)), s)
       end.

Definition readFeedEntry (e : FeedEntry) (cs : FeedCursor * Rooms) : FeedCursor * Rooms :=
  let '(c, s) := cs in
  if isInput e then (mkCursor (fc_entry c) (fc_open c) (Some (turn_of (postsOf s (g_id row)) row agent thread e (fc_turn c))), s)
  else match fe_message e with
  | Some (FAssistant bs) => (mkCursor (fc_entry c) (fold_left (open_block (fe_id e)) bs (fc_open c)) (fc_turn c), s)
  | Some (FToolResult id toolName text isError at_ conv convs) =>
      let '(op, turn, s) :=
        match id ≫= fun id => pair id <$> OMap.get id (fc_open c) with
        | Some (id, call) =>
            let op := OMap.del id (fc_open c) in
            if isError || held toolName text then (op, fc_turn c, s)
            else let '(_, turn, s) := result_post call id at_ (fc_turn c) s in (op, turn, s)
        | None => (fc_open c, fc_turn c, s)
        end in
      let '(turn, s) := add_jobs (fe_id e) (jobsIn thread conv convs) turn s in
      (mkCursor (fc_entry c) op turn, s)
  | _ => (c, s)
  end.
(** The entries of a page past the cursor. *)
Definition read_entry (cs : FeedCursor * Rooms) (e : FeedEntry) : FeedCursor * Rooms :=
  if fe_id e <=? fc_entry cs.1 then cs
  else let '(c, s) := readFeedEntry e cs in (mkCursor (fe_id e) (fc_open c) (fc_turn c), s).
Definition read_page (c : FeedCursor) (es : list FeedEntry) (s : Rooms) : FeedCursor * Rooms := fold_left read_entry es (c, s).
(** A page of [readFeedThread] on the thread's cursor, saved after it. *)
Definition feed_page (es : list FeedEntry) (s : Rooms) : Rooms :=
  let '(c, s) := read_page (nullish (OMap.get thread (feeds s)) (mkCursor 0 [] None)) es s in
  saveRooms (with_feeds (OMap.set thread c (feeds s)) s).

(** ** Reading a page again *)

(** The dedup keys a page's posts have, which do not depend on what the rooms hold. *)
Fixpoint feed_keys (last : Z) (op : list (string * OpenCall)) (es : list FeedEntry) : list string :=
  match es with
  | [] => []
  | e :: es =>
      if fe_id e <=? last then feed_keys last op es
      else if isInput e then feed_keys (fe_id e) op es
      else match fe_message e with
      | Some (FAssistant bs) => feed_keys (fe_id e) (fold_left (open_block (fe_id e)) bs op) es
      | Some (FToolResult id toolName text isError _ _ _) =>
          match id ≫= fun id => pair id <$> OMap.get id op with
          | Some (id, _) => (if isError || held toolName text then [] else [feed_key id]) ++ feed_keys (fe_id e) (OMap.del id op) es
          | None => feed_keys (fe_id e) op es
          end
      | _ => feed_keys (fe_id e) op es
      end
  end.
Definition room_keys (s : Rooms) : list string := map p_requestId (postsOf s (g_id row)).

Lemma postsOf_schedules {A} (key : A -> Key) (cond : A -> bool) l s room : postsOf (fold_left (fun s x => if cond x then schedule (key x) 0 s else s) l s) room = postsOf s room.
Proof.
  revert s. induction l as [|x l IH]; intros s; cbn; [done|]. rewrite IH. destruct (cond x); [|done]. unfold schedule. by destruct (stopped s).
Qed.
(** A post is written when its key is new, at the end, and not at all else. *)
Lemma speak_keys x turn s : room_keys (speak env row agent x turn s).2 =
  if bool_decide (sp_requestId x ∈ room_keys s) then room_keys s else room_keys s ++ [sp_requestId x].
Proof.
  unfold speak, write. set (draft := mkDraft _ _ _ _ _ _ _ _ _ _ _ _). change (p_requestId draft) with (sp_requestId x).
  destruct (byRequestId (sp_requestId x) (postsOf s (g_id row))) as [p|] eqn:E.
  - apply byRequestId_Some in E as [Hp Hk]. rewrite bool_decide_eq_true_2; [done|]. unfold room_keys. rewrite <- Hk. by apply (list_elem_of_fmap_2 p_requestId).
  - unfold append. change (p_requestId (with_deliveries _ draft)) with (sp_requestId x). fold (postsOf s (g_id row)). rewrite E. cbn [snd].
    unfold room_keys at 1. rewrite (postsOf_schedules (fun d => (g_id row, _, d_target d))). unfold postsOf at 1. rewrite log_of_with, decide_True by done. cbn [rl_posts]. rewrite map_app.
    rewrite bool_decide_eq_false_2; [done|]. intros Hin. apply list_elem_of_In, in_map_iff in Hin as (p & Hk & Hp). apply (byRequestId_None _ _ E p); [by apply list_elem_of_In|done].
Qed.
Lemma patch_room_keys id x s : room_keys (with_log (g_id row) (set_post id x (log_of s (g_id row))) s) = room_keys s.
Proof. unfold room_keys, postsOf at 1. rewrite log_of_with, decide_True by done. cbn. apply patch_keys. Qed.
Lemma add_jobs_keys entry jobs turn s : room_keys (add_jobs entry jobs turn s).2 = room_keys s.
Proof.
  unfold add_jobs. case_bool_decide; [done|]. destruct (_ ≫= _) as [p|]; [|done]. cbn. destruct (Nat.eqb _ _); [done|]. apply patch_room_keys.
Qed.

Lemma read_page_keys es c s : let s' := (read_page c es s).2 in
  (forall k, k ∈ feed_keys (fc_entry c) (fc_open c) es -> k ∈ room_keys s') /\ (exists new, room_keys s' = room_keys s ++ new)
  /\ ((forall k, k ∈ feed_keys (fc_entry c) (fc_open c) es -> k ∈ room_keys s) -> room_keys s' = room_keys s).
Proof.
  revert c s. induction es as [|e es IH]; intros c s; cbn [read_page fold_left].
  { split_and!; [set_solver|exists []; by rewrite app_nil_r|done]. }
  assert (Hpage : forall cs, fold_left read_entry es cs = read_page cs.1 es cs.2) by (by intros []). rewrite Hpage. clear Hpage.
  unfold read_entry. cbn [fst snd feed_keys]. destruct (fe_id e <=? fc_entry c); [apply IH|]. unfold readFeedEntry. destruct (isInput e); [apply (IH (mkCursor _ _ _))|].
  destruct (fe_message e) as [[t|bs|id toolName text isError at_ conv convs]|]; try apply (IH (mkCursor (fe_id e) _ _)).
  destruct (id ≫= fun id0 => pair id0 <$> OMap.get id0 (fc_open c)) as [[i call]|]; cbn [fst snd].
  - destruct (isError || held toolName text).
    + destruct (add_jobs _ _ (fc_turn c) s) as [turn s1] eqn:Ej. pose proof (add_jobs_keys (fe_id e) (jobsIn thread conv convs) (fc_turn c) s) as Hk. rewrite Ej in Hk. cbn in Hk. cbn [app].
      destruct (IH (mkCursor (fe_id e) (OMap.del i (fc_open c)) turn) s1) as (I1 & I2 & I3). rewrite Hk in I2, I3. done.
    + unfold result_post. set (x := mkSpoken _ _ _ _ _ _). pose proof (speak_keys x (fc_turn c) s) as Hsp. destruct (speak env row agent x (fc_turn c) s) as [p s1]. cbn in Hsp.
      destruct (add_jobs _ _ _ s1) as [turn s2] eqn:Ej. match type of Ej with add_jobs ?a ?b ?t ?u = _ => pose proof (add_jobs_keys a b t u) as Hk; rewrite Ej in Hk end. cbn in Hk.
      destruct (IH (mkCursor (fe_id e) (OMap.del i (fc_open c)) turn) s2) as (I1 & (new & I2) & I3). cbn [fc_entry fc_open fc_turn fst snd] in *. rewrite Hk in I2, I3.
      assert (Hkey : feed_key i ∈ room_keys s1) by (rewrite Hsp; case_bool_decide; set_solver). split_and!.
      * intros k. cbn [app]. rewrite elem_of_cons. intros [->|Hin]; [rewrite I2; set_solver|by apply I1].
      * rewrite I2, Hsp. case_bool_decide; [by exists new|]. exists ([feed_key i] ++ new). by rewrite app_assoc.
      * intros Hall. rewrite bool_decide_eq_true_2 in Hsp by (apply Hall; left). rewrite I3; [done|]. intros k Hin. rewrite Hsp. apply Hall. by right.
  - destruct (add_jobs _ _ (fc_turn c) s) as [turn s1] eqn:Ej. pose proof (add_jobs_keys (fe_id e) (jobsIn thread conv convs) (fc_turn c) s) as Hk. rewrite Ej in Hk. cbn in Hk.
    destruct (IH (mkCursor (fe_id e) (fc_open c) turn) s1) as (I1 & I2 & I3). rewrite Hk in I2, I3. done.
Qed.
End Feed.

(** Reading entries again lands nothing twice: when a crash loses the saved cursor of a comm thread after its entries
    were read, reading the same entries from the old cursor, on rooms that hold at least the posts the first read left,
    adds no post; and the first read leaves in the room, in order, the posts it had and at most one post per speaking
    call's key. *)
Theorem rereading_adds_nothing `{RoomTexts} env row agent thread env' c es s s2 :
  (forall k, k ∈ room_keys row (read_page env row agent thread c es s).2 -> k ∈ room_keys row s2) ->
  room_keys row (read_page env' row agent thread c es s2).2 = room_keys row s2
  /\ exists new, room_keys row (read_page env row agent thread c es s).2 = room_keys row s ++ new.
Proof.
  intros Hsub. destruct (read_page_keys env row agent thread es c s) as (H1 & H2 & _). split; [|done].
  destruct (read_page_keys env' row agent thread es c s2) as (_ & _ & H3). apply H3. intros k Hk. by apply Hsub, H1.
Qed.

(** ** Hops across a comm thread *)

Lemma max_hops_ge hs x : x ∈ hs -> x.2 <= max_hops hs.
Proof. induction hs as [|y hs IH]; [by intros ?%elem_of_nil|]. cbn. intros [->|Hin]%elem_of_cons; [lia|]. specialize (IH Hin). unfold max_hops in IH. lia. Qed.

Section Hops.
Context `{RoomTextLaws}.

(** What a submit's text names. *)
Lemma submit_names env f s row p : Inv s -> f ∈ flights s -> row_of s (fl_key f).1.1 = Some row ->
  plain_label row -> one_line (roomLabel row) -> one_line (fl_host f) -> (forall q, q ∈ postsOf s (fl_key f).1.1 -> one_line (name_of (p_author q)) /\ 0 <= p_hops q) ->
  p ∈ members_of s (fl_key f).1.1 (fl_members f) -> (p_seq p, p_hops p) ∈ envelopeHeaders (submit_text env row s f).
Proof.
  intros I Hf Hrow Hq Hl Hb Hn Hp. pose proof (in_flights _ I) as If. rewrite Forall_forall in If. destruct (If f Hf) as [Hm Hkey Hbun].
  destruct (members_of_live s _ _ Hm) as [Hseqs Hall]. rewrite Forall_forall in Hall. unfold submit_text. destruct (fl_key f) as [[room seq] target]. cbn [fst snd] in *.
  assert (Hok : forall q, q ∈ members_of s room (fl_members f) -> one_line (name_of (p_author q)) /\ 0 <= p_seq q /\ 0 <= p_hops q).
  { intros q Hin. destruct (Hall q Hin) as [Hq' _]. destruct (Hn q Hq'). pose proof (counted_bounds _ _ (wp_counted _ _ (logs_wf _ room (in_logs _ I))) Hq'). split_and!; [done|lia|done]. }
  destruct (Hok p Hp) as (N1 & N2 & N3). destruct (fl_bundle f) as [b|].
  - apply bundle_headers; [done|done|done|by apply Forall_forall|done].
  - assert (Hps : post_at (postsOf s room) seq = Some p).
    { destruct (Hall p Hp) as [Hin _]. rewrite Hbun in Hp. unfold members_of in Hp. cbn in Hp. destruct (post_at (postsOf s room) seq) as [q|]; cbn in Hp; [|by apply elem_of_nil in Hp].
      by apply list_elem_of_singleton in Hp as ->. }
    rewrite Hps. destruct (d_waited (fl_delivery f)).
    + by apply aged_headers.
    + rewrite envelope_headers by done. by left.
Qed.

(** An agent's answer is one hop further than every post it answers: when a submission's text comes back as the input
    of a turn in the comm thread, the turn's hops are at least those of each post the submission carried, alone, aged or
    in a bundle, whatever the posts say; and the post the turn makes in the room has more hops than each of them.  With
    the hop limit this bounds every chain of agents that answer each other. *)
Theorem answers_are_one_hop_further env f s row e env' ps agent comm previous sp s' h : Inv s -> f ∈ flights s ->
  row_of s (fl_key f).1.1 = Some row -> plain_label row -> one_line (roomLabel row) -> one_line (fl_host f) ->
  (forall q, q ∈ postsOf s (fl_key f).1.1 -> one_line (name_of (p_author q)) /\ 0 <= p_hops q) ->
  fe_kind e = "agent.message" -> fe_via e = Some (g_id row) -> entry_text e = submit_text env row s f ->
  h ∈ map p_hops (members_of s (fl_key f).1.1 (fl_members f)) ->
  let turn := turn_of ps row agent comm e previous in
  (exists n, ft_hops turn = Some n /\ h <= n)
  /\ (sp_requestId sp ∉ room_keys row s' -> h < p_hops (speak env' row agent sp (Some turn) s').1).
Proof.
  intros I Hf Hrow Hq Hl Hb Hn Hk Hv Ht Hh turn. assert (Hturn : exists n, ft_hops turn = Some n /\ h <= n).
  { apply list_elem_of_In, in_map_iff in Hh as (p & <- & Hp). apply list_elem_of_In in Hp. unfold turn, turn_of. rewrite Hk, Hv. rewrite bool_decide_eq_false_2, !bool_decide_eq_true_2 by done. cbn [andb ft_hops].
    eexists. split; [done|]. rewrite Ht. apply (max_hops_ge _ (p_seq p, p_hops p)). by apply submit_names. }
  split; [done|]. intros Hnew. destruct Hturn as (n & Hn' & Hle). clearbody turn. unfold speak. unfold write. set (draft := mkDraft _ _ _ _ _ _ _ _ _ _ _ _).
  destruct (byRequestId (p_requestId draft) (postsOf s' (g_id row))) as [p|] eqn:E.
  - exfalso. apply Hnew. apply byRequestId_Some in E as [Hp Hkey]. unfold room_keys. change (sp_requestId sp) with (p_requestId draft). rewrite <- Hkey. by apply (list_elem_of_fmap_2 p_requestId).
  - unfold append. change (p_requestId (with_deliveries _ draft)) with (p_requestId draft). fold (postsOf s' (g_id row)). rewrite E. cbn. rewrite Hn'. cbn. lia.
Qed.
End Hops.

Lemma rereading_adds_nothing_witness :
  let es := [mkFeedEntry 1 "agent.message" (Some "ch_1") (Some (FUser "[#dev"));
             mkFeedEntry 2 "pi.assistant" None (Some (FAssistant [FCall "c1" "send_message" (Some "done") None None]));
             mkFeedEntry 3 "pi.tool-result" None (Some (FToolResult (Some "c1") "send_message" "ok" false (Some 9) None []))] in
  let read s := (@read_page plain_texts (demo_env 0) demo_room "ag_a" "t1" (mkCursor 0 [] None) es s).2 in
  room_keys demo_room (read new_rooms) = ["m:t1:c1"] /\ room_keys demo_room (read (read new_rooms)) = ["m:t1:c1"].
Proof.
  split; [by vm_compute|]. match goal with |- room_keys _ (read_page _ _ _ _ ?c ?es ?s2).2 = _ =>
    destruct (@rereading_adds_nothing plain_texts (demo_env 0) demo_room "ag_a" "t1" (demo_env 0) c es new_rooms s2 ltac:(done)) as [H _] end.
  rewrite H. by vm_compute.
Defined.

(** The post five hops from the owner in flight, and its text back as an input of the reader's comm thread. *)
Definition in_flight : list Event := take 5 five_hops.
Definition demo_flight : option Flight := head (flights (demo_run in_flight)).
Definition its_row : GroupRoom := nullish (row_of (demo_run in_flight) "ch_1") demo_room.
Definition its_entry (f : Flight) : FeedEntry := mkFeedEntry 1 "agent.message" (Some "ch_1") (Some (FUser (@submit_text plain_texts (demo_env 0) its_row (demo_run in_flight) f))).
Lemma answers_are_one_hop_further_witness : exists f, demo_flight = Some f /\
  exists n, ft_hops (turn_of (postsOf (demo_run in_flight) "ch_1") its_row "ag_b" "t1" (its_entry f) None) = Some n /\ 5 <= n.
Proof.
  destruct (flights (demo_run in_flight)) as [|f l] eqn:Ef; [by vm_compute in Ef|].
  assert (Hkey : fl_key f = ("ch_1", 1, "ag_b") /\ fl_members f = [1] /\ fl_host f = "box") by (vm_compute in Ef; injection Ef as <- _; by vm_compute).
  destruct Hkey as (Hkey & Hms & Hhost). exists f. split; [unfold demo_flight; by rewrite Ef|].
  pose proof (@answers_are_one_hop_further plain_texts plain_text_laws (demo_env 0) f (demo_run in_flight) its_row (its_entry f) (demo_env 0) (postsOf (demo_run in_flight) "ch_1")
    "ag_b" "t1" None (mkSpoken "ok" 0 "m:9" None None []) (demo_run in_flight) 5) as H. rewrite Hkey, Hms, Hhost in H. cbn [fst snd] in H. destruct H as [H _].
  - apply Rooms_steps.
  - rewrite Ef. left.
  - by vm_compute.
  - by vm_compute.
  - apply one_line_bool. by vm_compute.
  - by apply one_line_bool.
  - assert (Hall : forallb (fun q => forallb (fun c => negb (bool_decide (c = LF))) (to_chars (@name_of plain_texts (p_author q))) && (0 <=? p_hops q)) (postsOf (demo_run in_flight) "ch_1") = true) by by vm_compute.
    rewrite forallb_forall in Hall. intros q Hq. apply list_elem_of_In, Hall in Hq. apply andb_true_iff in Hq as [H1 H2]. split; [by apply one_line_bool|by apply Z.leb_le].
  - done.
  - by vm_compute.
  - done.
  - assert (Hh : map p_hops (members_of (demo_run in_flight) "ch_1" [1]) = [5]) by by vm_compute. rewrite Hh. left.
  - exact H.
Defined.
