(* ===== verification/Shell.v ===== *)
(** * Reading shell text

    [packages/sieun-rules/src/shell.ts]: the words, commands and substitutions of a shell text, as every rule of the
    global guard reads them ([lex]), with here-documents dropped first ([stripHeredocs]); the program a command runs
    ([effective]), the script of a [sh -c] ([shellScript]) and the variables a script sets itself ([expandVars]).

    The code walks the text by an index; here each loop takes the text that is left and gives back what is left after
    it.  The main loop and the loop in double quotes do not recur on a tail of their text, so they take fuel and
    [lex_ends] shows that one round per character is enough. *)

From S2P Require Import Prelude.
#[local] Open Scope string_scope.
#[local] Open Scope list_scope.
#[local] Open Scope Z_scope.

Definition SQUOTE : Ascii.ascii := "'"%char.
Definition DQUOTE : Ascii.ascii := "034"%char.
Definition BTICK : Ascii.ascii := "`"%char.
Definition BSLASH : Ascii.ascii := "\"%char.
Definition NEWLINE : Ascii.ascii := "010"%char.

(** [\w], and [[A-Za-z_]]. *)
Definition letter (c : Ascii.ascii) : bool := ((65 <=? code c) && (code c <=? 90)) || ((97 <=? code c) && (code c <=? 122)).
Definition name_start (c : Ascii.ascii) : bool := letter c || (code c =? 95).
Definition word_char (c : Ascii.ascii) : bool := name_start c || is_digit c.

Definition head_is (c : Ascii.ascii) (l : chars) : bool := match l with d :: _ => bool_decide (d = c) | [] => false end.

(** [parts.join(sep)]. *)
Fixpoint words_join (sep : string) (l : list string) : string :=
  match l with [] => "" | [x] => x | x :: r => x +:+ sep +:+ words_join sep r end.

(** ** Here-documents *)

(** What the pattern of [stripHeredocs] reads after the two less-than signs: a dash perhaps, space, a quote perhaps, the tag and
    the same quote. *)
Definition tag_after (l : chars) : option chars :=
  let l := if head_is "-"%char l then drop 1 l else l in
  let l := drop_while is_space l in
  let '(quote, l) := match l with c :: r => if bool_decide (c = SQUOTE) || bool_decide (c = DQUOTE) then (Some c, r) else (None, l) | [] => (None, l) end in
  match l with
  | c :: _ =>
      if name_start c then
        let tag := take_while word_char l in
        match quote, drop_while word_char l with
        | None, _ => Some tag
        | Some q, d :: _ => if bool_decide (d = q) then Some tag else None
        | Some _, [] => None
        end
      else None
  | [] => None
  end.
(** [line.match(...)]: the first place in the line where the pattern matches. *)
Fixpoint heredoc_tag (l : chars) : option chars :=
  match l with
  | [] => None
  | c :: r =>
      match (if bool_decide (c = "<"%char) && head_is "<"%char r then tag_after (drop 1 r) else None) with
      | Some tag => Some tag
      | None => heredoc_tag r
      end
  end.
Fixpoint strip_lines (endTag : option chars) (lines : list chars) : list chars :=
  match lines with
  | [] => []
  | line :: r =>
      match endTag with
      | Some tag => strip_lines (if bool_decide (trim_chars line = tag) || bool_decide (trim_chars line = "009"%char :: tag) then None else endTag) r
      | None => line :: strip_lines (heredoc_tag line) r
      end
  end.
Definition strip_chars (l : chars) : chars := join_with NEWLINE (strip_lines None (split_on NEWLINE l)).
Definition stripHeredocs (str : string) : string := of_chars (strip_chars (to_chars str)).

(** ** The lexer *)

Record Lex := mkLex { lx_commands : list (list string); lx_nested : list string; lx_argv : list string; lx_cur : chars; lx_has : bool }.
Definition lex_start : Lex := mkLex [] [] [] [] false.

Definition endWord (s : Lex) : Lex :=
  if lx_has s then mkLex (lx_commands s) (lx_nested s) (lx_argv s ++ [of_chars (lx_cur s)]) [] false else s.
Definition endCmd (s : Lex) : Lex :=
  let s := endWord s in
  match lx_argv s with [] => s | a => mkLex (lx_commands s ++ [a]) (lx_nested s) [] (lx_cur s) (lx_has s) end.
(** [cur += l], and [cur += l; has = true]. *)
Definition grow (l : chars) (s : Lex) : Lex := mkLex (lx_commands s) (lx_nested s) (lx_argv s) (lx_cur s ++ l) (lx_has s).
Definition put (l : chars) (s : Lex) : Lex := mkLex (lx_commands s) (lx_nested s) (lx_argv s) (lx_cur s ++ l) true.
Definition nest (inner : chars) (s : Lex) : Lex := mkLex (lx_commands s) (lx_nested s ++ [of_chars inner]) (lx_argv s) (lx_cur s) (lx_has s).

Definition onto (c : Ascii.ascii) (x : chars * chars) : chars * chars := (c :: x.1, x.2).
(** The loop of [grabBalanced]: the characters before the matching close, and those after it. *)
Fixpoint balanced (open close : Ascii.ascii) (depth : Z) (q : option Ascii.ascii) (l : chars) : chars * chars :=
  match l with
  | [] => ([], [])
  | ch :: r =>
      match q with
      | Some d =>
          if bool_decide (ch = BSLASH) && bool_decide (d = DQUOTE)
          then match r with [] => ([ch], []) | e :: r' => onto ch (onto e (balanced open close depth q r')) end
          else onto ch (balanced open close depth (if bool_decide (ch = d) then None else q) r)
      | None =>
          if bool_decide (ch = SQUOTE) || bool_decide (ch = DQUOTE) then onto ch (balanced open close depth (Some ch) r)
          else if bool_decide (ch = open) then onto ch (balanced open close (depth + 1) q r)
          else if bool_decide (ch = close) then (if depth - 1 =? 0 then ([], r) else onto ch (balanced open close (depth - 1) q r))
          else onto ch (balanced open close depth q r)
      end
  end.
(** [grabBalanced("(", ")", start)] on the text from [start]. *)
Definition grabBalanced (l : chars) : chars * chars := let '(i, rest) := balanced "("%char ")"%char 0 None l in (drop 1 i, rest).
(** [grabBacktick] on the text after the backtick. *)
Fixpoint grabBacktick (l : chars) : chars * chars :=
  match l with
  | [] => ([], [])
  | c :: r =>
      if bool_decide (c = BSLASH) then match r with [] => ([c], []) | d :: r' => onto c (onto d (grabBacktick r')) end
      else if bool_decide (c = BTICK) then ([], r) else onto c (grabBacktick r)
  end.

(** The loop between double quotes. *)
Fixpoint dquoted (fuel : nat) (l : chars) (s : Lex) : option (Lex * chars) :=
  match fuel with
  | O => None
  | S f =>
      match l with
      | [] => Some (s, [])
      | c :: r =>
          if bool_decide (c = DQUOTE) then Some (s, r)
          else if bool_decide (c = BSLASH) then match r with [] => Some (s, []) | d :: r' => dquoted f r' (grow [d] s) end
          else if bool_decide (c = "$"%char) && head_is "("%char r then let '(inner, rest) := grabBalanced r in dquoted f rest (nest inner s)
          else if bool_decide (c = BTICK) then let '(inner, rest) := grabBacktick r in dquoted f rest (nest inner s)
          else dquoted f r (grow [c] s)
      end
  end.

Definition redirect_char (c : Ascii.ascii) : bool :=
  is_space c || bool_decide (c = ">"%char) || bool_decide (c = "&"%char) || is_digit c || bool_decide (c = "-"%char).
(** [i += str[i + 1] === c ? 2 : 1] on the text after [i]. *)
Definition skip_same (c : Ascii.ascii) (r : chars) : chars := match r with d :: r' => if bool_decide (d = c) then r' else r | [] => [] end.

(** One round of the main loop at the character [c], with [r] after it. *)
Definition lex_step (c : Ascii.ascii) (r : chars) (s : Lex) : option (Lex * chars) :=
  if bool_decide (c = BSLASH) then Some (put (take 1 r) s, drop 1 r)
  else if bool_decide (c = SQUOTE) then
    let inside d := negb (bool_decide (d = SQUOTE)) in Some (put (take_while inside r) s, drop 1 (drop_while inside r))
  else if bool_decide (c = DQUOTE) then '(s, rest) ← dquoted (S (length r)) r s; Some (put [] s, rest)
  else if bool_decide (c = BTICK) then let '(inner, rest) := grabBacktick r in Some (nest inner s, rest)
  else if bool_decide (c = "$"%char) && head_is "("%char r then let '(inner, rest) := grabBalanced r in Some (nest inner s, rest)
  else if bool_decide (c = "("%char) then let '(inner, rest) := grabBalanced (c :: r) in Some (nest inner s, rest)
  else if bool_decide (c = NEWLINE) || bool_decide (c = ";"%char) then Some (endCmd s, r)
  else if bool_decide (c = "&"%char) then Some (endCmd s, skip_same c r)
  else if bool_decide (c = "|"%char) then Some (endCmd s, skip_same c r)
  else if bool_decide (c = ">"%char) || bool_decide (c = "<"%char) then Some (endWord s, drop_while redirect_char r)
  else if is_space c then Some (endWord s, r)
  else Some (put [c] s, r).
Fixpoint lex_loop (fuel : nat) (l : chars) (s : Lex) : option Lex :=
  match fuel with
  | O => None
  | S f => match l with [] => Some (endCmd s) | c :: r => '(s, rest) ← lex_step c r s; lex_loop f rest s end
  end.

Record Lexed := mkLexed { commands : list (list string); nested : list string }.
Definition lexed (s : Lex) : Lexed := mkLexed (lx_commands s) (lx_nested s).
Definition lex (str : string) : Lexed :=
  match lex_loop (S (String.length str)) (to_chars str) lex_start with Some s => lexed s | None => mkLexed [] [] end.

(** ** The program a command runs *)

Definition SHELLS : list string := ["sh"; "bash"; "zsh"; "dash"; "ksh"; "mksh"; "ash"].
Definition KEYWORDS : list string := ["if"; "then"; "else"; "elif"; "do"; "while"; "until"; "!"; "{"].
Definition WRAPPERS : list string := ["command"; "exec"; "time"; "nice"; "nohup"; "setsid"; "stdbuf"; "ionice"; "builtin"; "caffeinate"].
Definition among (l : list string) (w : string) : bool := bool_decide (w ∈ l).

Definition dashed (w : string) : bool := starts_with ["-"%char] (to_chars w).
(** [/^[A-Za-z_][A-Za-z0-9_]*=/.test(w)]. *)
Definition assigns (w : string) : bool :=
  match to_chars w with
  | c :: r => name_start c && head_is "="%char (drop_while word_char r)
  | [] => false
  end.
Fixpoint user_flags (l : list string) : list string :=
  match l with
  | w :: r => if dashed w then (if among ["-u"; "--user"] w then match r with _ :: r' => user_flags r' | [] => [] end else user_flags r) else l
  | [] => []
  end.
(** Each round drops the first word at least, so the words bound the rounds. *)
Fixpoint effective_go (fuel : nat) (argv : list string) : list string :=
  match fuel, argv with
  | S f, w :: r =>
      if assigns w then effective_go f r
      else if among ["sudo"; "doas"] w then effective_go f (user_flags r)
      else if bool_decide (w = "env") then effective_go f (drop_while (fun w => dashed w || assigns w) r)
      else if among WRAPPERS w || among KEYWORDS w then effective_go f r
      else argv
  | _, _ => argv
  end.
Definition effective (argv : list string) : list string := effective_go (length argv) argv.

(** [basename] of a POSIX path. *)
Definition not_slash (c : Ascii.ascii) : bool := negb (bool_decide (c = "/"%char)).
Definition basename (path : string) : string :=
  of_chars (reverse (take_while not_slash (drop_while (fun c => negb (not_slash c)) (reverse (to_chars path))))).
(** [basename(eff[0] ?? "")]. *)
Definition program (eff : list string) : string := basename (default "" (head eff)).

(** [/^-[a-z]*c$/.test(w)]. *)
Definition c_flag (w : string) : bool :=
  let l := to_chars w in
  head_is "-"%char l && forallb (fun c => (97 <=? code c) && (code c <=? 122)) (drop 1 l) && bool_decide (last (drop 1 l) = Some "c"%char).
Fixpoint after_c (l : list string) : option string :=
  match l with w :: r => if c_flag w then (match r with x :: _ => if bool_decide (x = "") then None else Some x | [] => None end) else after_c r | [] => None end.
Definition shellScript (eff : list string) : option string := after_c (drop 1 eff).

(** The command [ssh] runs on its host: the words after its flags and the host. *)
Definition SSH_VALUE : list string := map (fun c => of_chars ["-"%char; c]) (to_chars "bcDEeFIiJLlmOoPpQRSWwB").
Fixpoint ssh_flags (l : list string) : list string :=
  match l with
  | w :: r => if dashed w then (if among SSH_VALUE w then match r with _ :: r' => ssh_flags r' | [] => [] end else ssh_flags r) else l
  | [] => []
  end.
Definition ssh_remote (args : list string) : string := words_join " " (drop 1 (ssh_flags args)).

(** The words that are no flags, where a flag of [valued] takes the word after it. *)
Fixpoint positionals (args valued : list string) : list string :=
  match args with
  | w :: r => if among valued w then match r with _ :: r' => positionals r' valued | [] => [] end
              else (if dashed w then [] else [w]) ++ positionals r valued
  | [] => []
  end.

(** ** Variables the script sets *)

(** The variable at the start of the text, [$NAME] or [${NAME}] with either brace missing: its length and its name. *)
Definition var_at (l : chars) : option (nat * chars) :=
  let r := drop 1 l in
  let b := if head_is "{"%char r then 1%nat else 0%nat in
  let r := drop b r in
  if head_is "$"%char l && match r with c :: _ => name_start c | [] => false end then
    let name := take_while word_char r in
    Some ((1 + b + length name + (if head_is "}"%char (drop_while word_char r) then 1 else 0))%nat, name)
  else None.
Fixpoint sub_chars (vars : list (string * string)) (skip : nat) (l : chars) : chars :=
  match l with
  | [] => []
  | c :: r =>
      match skip with
      | S k => sub_chars vars k r
      | O =>
          match var_at l with
          | Some (n, name) => match OMap.get (of_chars name) vars with Some v => to_chars v | None => take n l end ++ sub_chars vars (pred n) r
          | None => c :: sub_chars vars 0 r
          end
      end
  end.
Definition sub (vars : list (string * string)) (word : string) : string := of_chars (sub_chars vars 0 (to_chars word)).

Definition is_eq (c : Ascii.ascii) : bool := bool_decide (c = "="%char).
Definition set_var (vars : list (string * string)) (w : string) : list (string * string) :=
  let l := to_chars w in
  OMap.set (of_chars (take_while (fun c => negb (is_eq c)) l)) (sub vars (of_chars (drop 1 (drop_while (fun c => negb (is_eq c)) l)))) vars.
Fixpoint expandVars (cmds : list (list string)) (vars : list (string * string)) : list (list string) * list (string * string) :=
  match cmds with
  | [] => ([], vars)
  | raw :: r =>
      let words := if among ["export"; "declare"; "local"; "readonly"] (default "" (head raw)) then drop 1 raw else raw in
      if negb (bool_decide (words = [])) && forallb assigns words then expandVars r (fold_left set_var words vars)
      else let '(out, vars') := expandVars r vars in (map (sub vars) raw :: out, vars')
  end.

(** ** Hints *)

(** A word with a boundary on both sides; [prev] is the character before the text. *)
Definition bounded (prev : option Ascii.ascii) : bool := match prev with Some c => negb (word_char c) | None => true end.
Fixpoint hinted (hint : list string) (prev : option Ascii.ascii) (l : chars) : bool :=
  (bounded prev && existsb (fun w => starts_with (to_chars w) l && bounded (head (drop (String.length w) l))) hint)
  || match l with c :: r => hinted hint (Some c) r | [] => false end.

(** ** Verdicts *)

(** What a rule says of a command it refuses. *)
Record Verdict := mkVerdict { v_rule : string; v_command : string; v_reason : string }.
#[export] Instance Verdict_eq : EqDecision Verdict.
Proof. solve_decision. Defined.
(** [text.slice(0, 300)]. *)
Definition clip300 (s : string) : string := of_chars (take 300 (to_chars s)).
