(* ===== verification/ShellSpec.v ===== *)
(** * What reading a shell text promises

    The lexer of [Shell] ends, reads back what shell quoting wrote, and goes on with the text after a command as with a
    text of its own; a command's program does not change when it is taken again. *)

From S2P Require Import Prelude Shell.
#[local] Open Scope string_scope.
#[local] Open Scope list_scope.
#[local] Open Scope Z_scope.

(** ** The loops end *)

Lemma onto_snd c x : (onto c x).2 = x.2.
Proof. done. Qed.
Lemma balanced_shrinks o c d q l : (length (balanced o c d q l).2 <= length l)%nat.
Proof.
  remember (length l) as n eqn:Hn. revert d q l Hn. induction (lt_wf n) as [n _ IH]. intros d q l ->. destruct l as [|ch r]; [cbn; lia|].
  assert (Hr : forall d q, (length (balanced o c d q r).2 <= S (length r))%nat) by (intros d' q'; etransitivity; [by eapply IH; [|done]; cbn; lia|lia]).
  cbn [balanced length]. repeat (case_match; rewrite ?onto_snd; auto with lia); cbn; try lia.
  subst r. etransitivity; [eapply IH; [|done]; cbn; lia|cbn; lia].
Qed.
Lemma grabBalanced_shrinks l : (length (grabBalanced l).2 <= length l)%nat.
Proof. unfold grabBalanced. pose proof (balanced_shrinks "("%char ")"%char 0 None l) as H. by destruct (balanced _ _ _ _ l). Qed.
(** What an opened parenthesis takes is more than nothing. *)
Lemma grabBalanced_opened r : (length (grabBalanced ("("%char :: r)).2 <= length r)%nat.
Proof.
  unfold grabBalanced. change (balanced "("%char ")"%char 0 None ("("%char :: r)) with (onto "("%char (balanced "("%char ")"%char 1 None r)).
  pose proof (balanced_shrinks "("%char ")"%char 1 None r) as H. by destruct (balanced _ _ _ _ r).
Qed.
Lemma grabBacktick_shrinks l : (length (grabBacktick l).2 <= length l)%nat.
Proof.
  remember (length l) as n eqn:Hn. revert l Hn. induction (lt_wf n) as [n _ IH]. intros l ->. destruct l as [|c r]; [cbn; lia|].
  cbn [grabBacktick length]. repeat (case_match; rewrite ?onto_snd); cbn [fst snd length]; try lia.
  - subst r. etransitivity; [eapply IH; [|done]; cbn; lia|cbn; lia].
  - etransitivity; [eapply IH; [|done]; cbn; lia|lia].
Qed.
Lemma drop_while_shrinks {A} (p : A -> bool) l : (length (drop_while p l) <= length l)%nat.
Proof. induction l as [|x l IH]; cbn; [lia|]. destruct (p x); cbn; lia. Qed.

Lemma dquoted_ends f l s : (length l < f)%nat -> exists s' rest, dquoted f l s = Some (s', rest) /\ (length rest <= length l)%nat.
Proof.
  revert l s. induction f as [|f IH]; [lia|]. intros l s Hl. destruct l as [|c r]; [by exists s, []|]. cbn [dquoted].
  assert (Hgo : forall rest s', (length rest <= length r)%nat -> exists s'' rest', dquoted f rest s' = Some (s'', rest') /\ (length rest' <= length (c :: r))%nat).
  { intros rest s' Hr. cbn in Hl. destruct (IH rest s') as (s'' & rest' & He & Hle); [lia|]. exists s'', rest'. split; [done|]. cbn. lia. }
  case_bool_decide; [exists s, r; split; [done|cbn; lia]|]. case_bool_decide.
  { destruct r as [|d r']; [exists s, []; split; [done|cbn; lia]|]. apply Hgo. cbn. lia. }
  destruct (bool_decide (c = "$"%char) && head_is "("%char r); [|case_bool_decide; [|by apply Hgo]].
  - pose proof (grabBalanced_shrinks r). destruct (grabBalanced r). by apply Hgo.
  - pose proof (grabBacktick_shrinks r). destruct (grabBacktick r). by apply Hgo.
Qed.

Lemma lex_step_shrinks c r s : exists s' rest, lex_step c r s = Some (s', rest) /\ (length rest <= length r)%nat.
Proof.
  unfold lex_step. set (b := bool_decide (c = "$"%char) && head_is "("%char r).
  case_bool_decide; [eexists _, _; split; [done|rewrite length_drop; lia]|].
  case_bool_decide; [eexists _, _; split; [done|rewrite length_drop; pose proof (drop_while_shrinks (fun d => negb (bool_decide (d = SQUOTE))) r); lia]|].
  case_bool_decide; [destruct (dquoted_ends (S (length r)) r s) as (s' & rest & -> & Hle); [lia|]; by eexists _, _|].
  case_bool_decide; [pose proof (grabBacktick_shrinks r); destruct (grabBacktick r); by eexists _, _|].
  destruct b; [pose proof (grabBalanced_shrinks r); destruct (grabBalanced r); by eexists _, _|].
  case_bool_decide as Hp; [subst c; pose proof (grabBalanced_opened r); destruct (grabBalanced _); by eexists _, _|].
  destruct (_ || _); [by eexists _, _|].
  case_bool_decide; [|case_bool_decide]; [eexists _, _; split; [done|]; unfold skip_same; repeat case_match; cbn; lia..|].
  destruct (_ || _); [eexists _, _; split; [done|apply drop_while_shrinks]|]. destruct (is_space c); by eexists _, _.
Qed.

(** The lexer reads every text to its end: one round of its main loop and one of its loop in double quotes per
    character left are enough whatever the text holds (quotes, parentheses and backticks that never close too), and more
    fuel gives the same words, commands and substitutions. *)
Theorem lex_ends l s : exists s', forall fuel, (length l < fuel)%nat -> lex_loop fuel l s = Some s'.
Proof.
  remember (length l) as n eqn:Hn. revert l s Hn. induction (lt_wf n) as [n _ IH]. intros l s ->.
  destruct l as [|c r]; [exists (endCmd s); intros [|f]; [lia|done]|].
  destruct (lex_step_shrinks c r s) as (s1 & rest & He & Hle). destruct (IH (length rest) ltac:(cbn; lia) rest s1 eq_refl) as [s' Hs'].
  exists s'. intros [|f] Hf; [lia|]. cbn [lex_loop]. rewrite He. cbn. apply Hs'. cbn in Hf. lia.
Qed.

(** ** Reading on *)

(** The lexer from a state on. *)
Definition lexes (l : chars) (s : Lex) : Lex := default s (lex_loop (S (length l)) l s).
Lemma length_to_chars s : length (to_chars s) = String.length s.
Proof. induction s as [|c s IH]; [done|]. cbn. by rewrite <- IH. Qed.
Lemma lex_lexes str : lex str = lexed (lexes (to_chars str) lex_start).
Proof.
  unfold lex, lexes. rewrite <- length_to_chars. destruct (lex_ends (to_chars str) lex_start) as [s' Hs].
  by rewrite (Hs (S (length (to_chars str)))) by lia.
Qed.
Lemma lexes_cons c r s s1 rest : lex_step c r s = Some (s1, rest) -> lexes (c :: r) s = lexes rest s1.
Proof.
  intros He. unfold lexes.
  destruct (lex_step_shrinks c r s) as (s1' & rest' & He' & Hle). rewrite He in He'. injection He' as <- <-.
  destruct (lex_ends rest s1) as [s' Hs]. rewrite (Hs (S (length rest))) by lia. change (lex_loop (S (length (c :: r))) (c :: r) s) with ('(s, rest) ← lex_step c r s; lex_loop (length (c :: r)) rest s).
  rewrite He. cbn [mbind option_bind]. rewrite (Hs (length (c :: r))) by (cbn; lia). done.
Qed.

(** Commands and substitutions read before do not change what is read next. *)
Definition frame (cs : list (list string)) (ns : list string) (s : Lex) : Lex :=
  mkLex (cs ++ lx_commands s) (ns ++ lx_nested s) (lx_argv s) (lx_cur s) (lx_has s).
Definition framed (cs : list (list string)) (ns : list string) (x : Lex * chars) : Lex * chars := (frame cs ns x.1, x.2).
Lemma frame_endCmd cs ns s : endCmd (frame cs ns s) = frame cs ns (endCmd s).
Proof. destruct s as [c n a u []]; unfold endCmd, endWord, frame; cbn; destruct a; cbn; by rewrite ?app_assoc. Qed.
Lemma frame_endWord cs ns s : endWord (frame cs ns s) = frame cs ns (endWord s).
Proof. by destruct s as [c n a u []]. Qed.
Lemma frame_nest cs ns i s : nest i (frame cs ns s) = frame cs ns (nest i s).
Proof. destruct s. unfold nest, frame. cbn. by rewrite app_assoc. Qed.
Lemma frame_dquoted cs ns f l s : dquoted f l (frame cs ns s) = framed cs ns <$> dquoted f l s.
Proof.
  revert l s. induction f as [|f IH]; [done|]. intros l s. destruct l as [|c r]; [done|]. cbn [dquoted].
  repeat case_match; try done; rewrite ?frame_nest; apply (IH _ (grow _ s)) || apply IH.
Qed.
Lemma frame_step cs ns c r s : lex_step c r (frame cs ns s) = framed cs ns <$> lex_step c r s.
Proof.
  unfold lex_step. rewrite frame_dquoted. repeat (case_bool_decide || match goal with |- context [if ?b then _ else _] => destruct b end); cbn [andb orb];
    rewrite ?frame_endCmd, ?frame_endWord, ?frame_nest; try done.
  all: try (destruct (dquoted _ r s) as [[s' rest]|]; done). all: try (destruct (grabBacktick r); by rewrite ?frame_nest).
  all: destruct (grabBalanced _); by rewrite ?frame_nest.
Qed.
Lemma frame_lexes cs ns l s : lexes l (frame cs ns s) = frame cs ns (lexes l s).
Proof.
  remember (length l) as n eqn:Hn. revert l s Hn. induction (lt_wf n) as [n _ IH]. intros l s ->. destruct l as [|c r]; [apply frame_endCmd|].
  destruct (lex_step_shrinks c r s) as (s1 & rest & He & Hle). rewrite (lexes_cons _ _ _ _ _ He).
  rewrite (lexes_cons c r (frame cs ns s) (frame cs ns s1) rest); [|by rewrite frame_step, He]. eapply IH; [|done]. cbn. lia.
Qed.

(** ** Quoted text *)

(** A word as shell quoting writes it: between quotes, with each quote of its own escaped outside them. *)
Fixpoint esc (w : chars) : chars :=
  match w with [] => [] | c :: r => if bool_decide (c = SQUOTE) then [SQUOTE; BSLASH; SQUOTE; SQUOTE] ++ esc r else c :: esc r end.
Definition quoted (w : string) : chars := SQUOTE :: esc (to_chars w) ++ [SQUOTE].
Fixpoint quoted_words (ws : list string) : chars :=
  match ws with [] => [] | [w] => quoted w | w :: r => quoted w ++ " "%char :: quoted_words r end.
(** What may stand between two commands. *)
Definition SEPARATORS : list chars := [[";"%char]; [NEWLINE]; to_chars "&&"; to_chars "||"; to_chars "| "; to_chars "& "].
(** Commands, each with the separator after it. *)
Definition script (cmds : list (list string * chars)) : chars := concat (map (fun x => quoted_words x.1 ++ x.2) cmds).

Lemma put_put a b s : put a (put b s) = put (b ++ a) s.
Proof. unfold put. cbn. by rewrite app_assoc. Qed.
Lemma squote_step pre rest s : SQUOTE ∉ pre -> lex_step SQUOTE (pre ++ SQUOTE :: rest) s = Some (put pre s, rest).
Proof.
  intros Hp. unfold lex_step. cbn [bool_decide]. rewrite bool_decide_eq_false_2, bool_decide_eq_true_2 by done.
  destruct (take_while_app (fun d => negb (bool_decide (d = SQUOTE))) pre (SQUOTE :: rest)) as [-> ->]; [|by intros x [= <-]|done].
  apply forallb_forall. intros x Hx%list_elem_of_In. rewrite bool_decide_eq_false_2; [done|by intros ->].
Qed.
Lemma lexes_esc w pre rest s : SQUOTE ∉ pre -> lexes (SQUOTE :: pre ++ esc w ++ SQUOTE :: rest) s = lexes rest (put (pre ++ w) s).
Proof.
  revert pre s. induction w as [|c w IH]; intros pre s Hp; cbn [esc].
  - rewrite app_nil_r. apply lexes_cons. by apply squote_step.
  - case_bool_decide as Hc; cbn [app].
    + subst c. erewrite lexes_cons by (by apply squote_step). erewrite (lexes_cons BSLASH) by done. cbn [take drop].
      change (SQUOTE :: esc w ++ SQUOTE :: rest) with (SQUOTE :: [] ++ esc w ++ SQUOTE :: rest).
      rewrite IH by (by intros ?%elem_of_nil). by rewrite !put_put.
    + change (pre ++ c :: esc w ++ SQUOTE :: rest) with (pre ++ [c] ++ esc w ++ SQUOTE :: rest). rewrite app_assoc, IH; [by rewrite <- app_assoc|].
      set_solver.
Qed.
Lemma lexes_quoted w rest s : lexes (quoted w ++ rest) s = lexes rest (put (to_chars w) s).
Proof. change (quoted w ++ rest) with (SQUOTE :: (esc (to_chars w) ++ [SQUOTE]) ++ rest). rewrite <- app_assoc. change ([SQUOTE] ++ rest) with (SQUOTE :: rest). apply (lexes_esc (to_chars w) []). by intros ?%elem_of_nil. Qed.

(** Between two commands. *)
Definition between (cs : list (list string)) (ns : list string) (argv : list string) : Lex := mkLex cs ns argv [] false.
Lemma lexes_words ws rest cs ns argv : ws <> [] ->
  lexes (quoted_words ws ++ rest) (between cs ns argv) = lexes rest (mkLex cs ns (argv ++ removelast ws) (to_chars (default "" (last ws))) true).
Proof.
  revert argv. induction ws as [|w ws IH]; [done|]. intros argv _. destruct ws as [|w' ws].
  - cbn [quoted_words removelast last default]. by rewrite lexes_quoted, app_nil_r.
  - change (quoted_words (w :: w' :: ws)) with (quoted w ++ " "%char :: quoted_words (w' :: ws)). rewrite <- app_assoc, lexes_quoted.
    cbn [app]. erewrite lexes_cons by done. unfold endWord, put. cbn [lx_has lx_commands lx_nested lx_argv lx_cur between app]. rewrite of_to_chars.
    change (mkLex cs ns (argv ++ [w]) [] false) with (between cs ns (argv ++ [w])). rewrite IH by done. cbn [removelast last]. by rewrite <- app_assoc.
Qed.
Lemma removelast_last ws : ws <> [] -> removelast ws ++ [default "" (last ws)] = ws.
Proof. induction ws as [|w ws IH]; [done|]. intros _. destruct ws as [|w' ws]; [done|].
  change (w :: (removelast (w' :: ws) ++ [default "" (last (w' :: ws))]) = w :: w' :: ws). by rewrite IH.
Qed.
Lemma end_words ws cs ns : ws <> [] -> endCmd (mkLex cs ns (removelast ws) (to_chars (default "" (last ws))) true) = between (cs ++ [ws]) ns [].
Proof. intros Hw. unfold endCmd, endWord. cbn. rewrite of_to_chars, removelast_last by done. by destruct ws. Qed.
Lemma lexes_command ws sep rest cs ns : ws <> [] -> sep ∈ SEPARATORS ->
  lexes (quoted_words ws ++ sep ++ rest) (between cs ns []) = lexes rest (between (cs ++ [ws]) ns []).
Proof.
  intros Hw Hs. rewrite lexes_words by done. cbn [app]. pose proof (end_words ws cs ns Hw) as He.
  unfold SEPARATORS in Hs. rewrite !elem_of_cons, elem_of_nil in Hs. destruct Hs as [->|[->|[->|[->|[->|[->|[]]]]]]]; cbn [app to_chars String.list_ascii_of_string].
  all: erewrite lexes_cons by done; rewrite He; try done; by erewrite lexes_cons by done.
Qed.
Lemma lexes_script cmds rest cs ns : Forall (fun x => x.1 <> [] /\ x.2 ∈ SEPARATORS) cmds ->
  lexes (script cmds ++ rest) (between cs ns []) = lexes rest (between (cs ++ map fst cmds) ns []).
Proof.
  intros Hc. revert cs. induction Hc as [|[ws sep] cmds [Hw Hs] _ IH]; intros cs; [by rewrite app_nil_r|].
  unfold script. cbn [map concat fst snd]. fold (script cmds). rewrite <- !app_assoc. rewrite lexes_command by done. rewrite IH. by rewrite <- app_assoc.
Qed.

(** A script and then any text: the script's commands come first, and the text is read as alone. *)
Lemma lex_script cmds rest : Forall (fun x => x.1 <> [] /\ x.2 ∈ SEPARATORS) cmds ->
  lex (of_chars (script cmds ++ rest)) = mkLexed (map fst cmds ++ commands (lex (of_chars rest))) (nested (lex (of_chars rest))).
Proof.
  intros Hc. rewrite !lex_lexes, !to_of_chars. change lex_start with (between [] [] []) at 1. rewrite lexes_script by done.
  change (between ([] ++ map fst cmds) [] []) with (mkLex (map fst cmds) [] [] [] false).
  replace (mkLex (map fst cmds) [] [] [] false) with (frame (map fst cmds) [] lex_start) by (unfold frame; cbn; by rewrite app_nil_r).
  by rewrite frame_lexes.
Qed.
Lemma lex_last_command ws : ws <> [] -> lex (of_chars (quoted_words ws)) = mkLexed [ws] [].
Proof.
  intros Hw. rewrite lex_lexes, to_of_chars. rewrite <- (app_nil_r (quoted_words ws)). change lex_start with (between [] [] []). rewrite lexes_words by done.
  change (lexes [] ?s) with (endCmd s). cbn [app]. by rewrite end_words.
Qed.

(** C30: What shell quoting writes, the lexer reads: the text of any list of commands, whose words hold whatever characters
    they like and are each written in quotes, is read as exactly those commands with exactly those words and no
    substitution, whichever separators stand between the commands; and the text that follows them is read as it would be
    alone. *)
Theorem lex_reads_quoted cmds ws rest : Forall (fun x => x.1 <> [] /\ x.2 ∈ SEPARATORS) cmds -> ws <> [] ->
  lex (of_chars (script cmds ++ quoted_words ws)) = mkLexed (map fst cmds ++ [ws]) []
  /\ commands (lex (of_chars (script cmds ++ rest))) = map fst cmds ++ commands (lex (of_chars rest))
  /\ nested (lex (of_chars (script cmds ++ rest))) = nested (lex (of_chars rest)).
Proof. intros Hc Hw. rewrite !lex_script, lex_last_command by done. done. Qed.
Lemma lex_reads_quoted_witness :
  let cmds := [(["echo"; "it's $(not) `run` # &"; ""], [";"%char]); (["FOO=1"; dquote], to_chars "| ")] in
  lex (of_chars (script cmds ++ quoted_words ["a b"; "'"])) = mkLexed [["echo"; "it's $(not) `run` # &"; ""]; ["FOO=1"; dquote]; ["a b"; "'"]] [].
Proof.
  intros cmds. destruct (lex_reads_quoted cmds ["a b"; "'"] []) as [H _]; [|done|exact H].
  apply Forall_cons. split; [split; [done|by left]|]. apply Forall_cons. split; [split; [done|do 4 right; by left]|by apply Forall_nil].
Defined.

(** ** Texts without here-documents *)

Lemma heredoc_plain c l : c <> "<"%char -> heredoc_tag (c :: l) = heredoc_tag l.
Proof. intros Hc. cbn. by rewrite bool_decide_eq_false_2. Qed.
Lemma strip_cons c l : c <> "<"%char -> strip_chars (c :: l) = c :: strip_chars l.
Proof.
  intros Hc. unfold strip_chars. cbn [split_on]. pose proof (split_on_nonempty NEWLINE l) as Hn. case_bool_decide as Hnl.
  - subst. destruct (split_on NEWLINE l) as [|w ws]; [done|]. done.
  - destruct (split_on NEWLINE l) as [|w ws]; [done|]. cbn [strip_lines]. rewrite heredoc_plain by done. by destruct (strip_lines _ ws).
Qed.
Lemma strip_app a l : "<"%char ∉ a -> strip_chars (a ++ l) = a ++ strip_chars l.
Proof. induction a as [|c a IH]; [done|]. intros Ha. cbn [app]. rewrite strip_cons by set_solver. by rewrite IH by set_solver. Qed.
Lemma strip_no_heredoc l : "<"%char ∉ l -> strip_chars l = l.
Proof. intros Hl. rewrite <- (app_nil_r l) at 1. rewrite strip_app by done. by rewrite app_nil_r. Qed.

(** ** Programs *)

Lemma user_flags_shrinks l : (length (user_flags l) <= length l)%nat.
Proof.
  remember (length l) as n eqn:Hn. revert l Hn. induction (lt_wf n) as [n _ IH]. intros l ->. destruct l as [|w r]; [cbn; lia|]. cbn [user_flags length].
  destruct (dashed w); [|cbn; lia]. destruct (among _ w).
  - destruct r as [|x r']; [cbn; lia|]. etransitivity; [eapply IH; [|done]; cbn; lia|cbn; lia].
  - etransitivity; [eapply IH; [|done]; cbn; lia|lia].
Qed.
(** A word [effective] stops at. *)
Definition runs (w : string) : bool :=
  negb (assigns w) && negb (among ["sudo"; "doas"] w) && negb (bool_decide (w = "env")) && negb (among WRAPPERS w || among KEYWORDS w).
Lemma effective_go_runs f argv : (length argv <= f)%nat -> match effective_go f argv with w :: _ => runs w = true | [] => True end.
Proof.
  revert argv. induction f as [|f IH]; intros [|w r] Hf; cbn in Hf; [done|lia|done|]. cbn [effective_go].
  destruct (assigns w) eqn:E1; [apply IH; lia|]. destruct (among ["sudo"; "doas"] w) eqn:E2; [apply IH; pose proof (user_flags_shrinks r); lia|].
  case_bool_decide as E3; [apply IH; pose proof (drop_while_shrinks (fun w => dashed w || assigns w) r); lia|].
  destruct (among WRAPPERS w || among KEYWORDS w) eqn:E4; [apply IH; lia|]. unfold runs. rewrite E1, E2, E4, bool_decide_eq_false_2 by done. done.
Qed.
Lemma effective_runs_id w r : runs w = true -> effective (w :: r) = w :: r.
Proof.
  unfold runs, effective. cbn [length effective_go]. destruct (assigns w), (among ["sudo"; "doas"] w); try done. case_bool_decide; [done|]. by destruct (_ || _).
Qed.

(** ** Scripts in scripts *)

(** A text as the script of a shell, that of another, and so on. *)
Fixpoint wrapped (shells : list string) (t : chars) : chars :=
  match shells with [] => t | sh :: r => quoted_words [sh; "-c"; of_chars (wrapped r t)] end.
Definition LT : Ascii.ascii := "<"%char.

Lemma no_lt_bool w : bool_decide (LT ∈ to_chars w) = false -> LT ∉ to_chars w.
Proof. apply bool_decide_eq_false. Qed.
Lemma no_lt_esc w : LT ∉ w -> LT ∉ esc w.
Proof.
  induction w as [|c w IH]; [done|]. intros Hw. cbn [esc]. rewrite not_elem_of_cons in Hw. destruct Hw as [H1 H2]. case_bool_decide.
  - intros Hin. repeat (apply elem_of_cons in Hin as [Hin|Hin]; [done|]). by apply IH.
  - intros [Heq|Hin]%elem_of_cons; [done|by apply IH].
Qed.
Lemma no_lt_quoted w : LT ∉ to_chars w -> LT ∉ quoted w.
Proof. intros Hw%no_lt_esc [Hin|[Hin|Hin%list_elem_of_singleton]%elem_of_app]%elem_of_cons; done. Qed.
Lemma no_lt_words ws : (forall w, w ∈ ws -> LT ∉ to_chars w) -> LT ∉ quoted_words ws.
Proof.
  induction ws as [|w ws IH]; intros Hw; [by intros ?%elem_of_nil|]. destruct ws as [|w' ws]; [apply no_lt_quoted, Hw; by left|].
  change (quoted_words (w :: w' :: ws)) with (quoted w ++ " "%char :: quoted_words (w' :: ws)).
  intros [Hin|[Hin|Hin]%elem_of_cons]%elem_of_app; [|done|].
  - revert Hin. apply no_lt_quoted, Hw. by left.
  - revert Hin. apply IH. intros x Hx. apply Hw. by right.
Qed.
Lemma no_lt_shell sh : sh ∈ SHELLS -> LT ∉ to_chars sh.
Proof. unfold SHELLS. rewrite !elem_of_cons, elem_of_nil. intros [->|[->|[->|[->|[->|[->|[->|[]]]]]]]]; by apply no_lt_bool. Qed.
Lemma no_lt_wrapped shells t : Forall (fun sh => sh ∈ SHELLS) shells -> LT ∉ t -> LT ∉ wrapped shells t.
Proof.
  intros Hs Ht. induction Hs as [|sh shells Hsh _ IH]; [done|]. cbn [wrapped]. apply no_lt_words. intros w. rewrite !elem_of_cons, elem_of_nil.
  intros [->|[->|[->|[]]]]; [by apply no_lt_shell|by apply no_lt_bool|by rewrite to_of_chars].
Qed.
Lemma quoted_words_nonempty ws : ws <> [] -> quoted_words ws <> [].
Proof. destruct ws as [|w [|w' ws]]; done. Qed.
Lemma wrapped_nonempty shells t : t <> [] -> wrapped shells t <> [].
Proof. destruct shells; [done|]. intros _. by apply quoted_words_nonempty. Qed.

Lemma strip_text l : LT ∉ l -> stripHeredocs (of_chars l) = of_chars l.
Proof. intros Hl. unfold stripHeredocs. by rewrite to_of_chars, strip_no_heredoc. Qed.
Lemma of_chars_empty l : of_chars l = "" -> l = [].
Proof. intros H%(f_equal to_chars). by rewrite to_of_chars in H. Qed.

(** ** Where a command stands in a text *)

Lemma starts_with_prefix {A} `{EqDecision A} (p l : list A) : starts_with p (p ++ l) = true.
Proof. induction p as [|c p IH]; [done|]. cbn. by rewrite bool_decide_eq_true_2. Qed.
Lemma starts_with_iff {A} `{EqDecision A} (p l : list A) : starts_with p l = true <-> exists r, l = p ++ r.
Proof.
  split; [|intros [r ->]; apply starts_with_prefix]. revert l. induction p as [|c p IH]; intros l; [by exists l|]. destruct l as [|d l]; [done|]. cbn.
  rewrite andb_true_iff. intros [<-%bool_decide_eq_true (r & ->)%IH]. by exists r.
Qed.
Lemma esc_app a b : esc (a ++ b) = esc a ++ esc b.
Proof. induction a as [|c a IH]; [done|]. cbn. case_bool_decide; by rewrite IH. Qed.
Lemma quoted_words_in w ws : w ∈ ws -> exists p q, quoted_words ws = p ++ quoted w ++ q.
Proof.
  induction ws as [|x ws IH]; [by intros ?%elem_of_nil|]. intros Hw. destruct ws as [|y ws].
  - apply list_elem_of_singleton in Hw as ->. exists [], []. cbn. by rewrite app_nil_r.
  - change (quoted_words (x :: y :: ws)) with (quoted x ++ " "%char :: quoted_words (y :: ws)). apply elem_of_cons in Hw as [->|Hw]; [by eexists [], _|].
    destruct (IH Hw) as (p & q & ->). exists (quoted x ++ " "%char :: p), q. by rewrite <- app_assoc.
Qed.
Definition good_script (cmds : list (list string * chars)) : Prop := Forall (fun x => x.1 <> [] /\ x.2 ∈ SEPARATORS) cmds.
Lemma lex_alone cmds : good_script cmds -> lex (of_chars (script cmds)) = mkLexed (map fst cmds) [].
Proof. intros Hc. rewrite <- (app_nil_r (script cmds)), lex_script by done. change (lex (of_chars [])) with (mkLexed [] []). cbn [commands nested]. by rewrite app_nil_r. Qed.
Lemma script_in argv cmds : argv ∈ map fst cmds -> exists p q, script cmds = p ++ quoted_words argv ++ q.
Proof.
  induction cmds as [|[a sep] cmds IH]; cbn; [by intros ?%elem_of_nil|]. intros [->|Hin]%elem_of_cons.
  - exists [], (sep ++ script cmds). unfold script. cbn. by rewrite <- app_assoc.
  - destruct (IH Hin) as (p & q & Hs). exists ((quoted_words a ++ sep) ++ p), q. unfold script in *. cbn. rewrite Hs. by rewrite <- !app_assoc.
Qed.
(** A word holds its base name. *)
Lemma basename_in w : exists a b, to_chars w = a ++ to_chars (basename w) ++ b.
Proof.
  unfold basename. rewrite to_of_chars. set (l := reverse (to_chars w)). set (sl := fun c => negb (not_slash c)).
  exists (reverse (drop_while not_slash (drop_while sl l))), (reverse (take_while sl l)). rewrite <- !reverse_app. rewrite <- (reverse_involutive (to_chars w)). fold l. f_equal.
  rewrite <- (take_drop_while sl l) at 1. rewrite <- app_assoc. f_equal. by rewrite take_drop_while.
Qed.

(** ** A command behind assignments *)

Lemma effective_assigns sets argv : Forall (fun w => assigns w = true) sets -> effective (sets ++ argv) = effective argv.
Proof. intros Hs. induction Hs as [|w sets Hw _ IH]; [done|]. unfold effective at 1. cbn [app length effective_go]. by rewrite Hw. Qed.

(** ** Words without variables *)

Lemma sub_plain vars w : "$"%char ∉ to_chars w -> sub vars w = w.
Proof.
  intros Hw. unfold sub. assert (E : sub_chars vars 0 (to_chars w) = to_chars w); [|by rewrite E, of_to_chars].
  induction (to_chars w) as [|c l IH]; [done|]. rewrite not_elem_of_cons in Hw. destruct Hw as [Hc Hl]. cbn [sub_chars]. unfold var_at. cbn [head_is].
  rewrite (bool_decide_eq_false_2 (c = "$"%char)) by done. by rewrite IH.
Qed.

(** ** Mentions *)

Section Hint.
Variable hint : list string.
Hypothesis plain : forall w, w ∈ hint -> esc (to_chars w) = to_chars w.

(** A word of the hint in a text, with word boundaries inside the text or at its ends. *)
Definition says (l : chars) : Prop :=
  exists a w b, w ∈ hint /\ l = a ++ to_chars w ++ b /\ bounded (last a) = true /\ bounded (head b) = true.
Lemma hinted_at prev a w b : w ∈ hint -> bounded (match last a with Some c => Some c | None => prev end) = true -> bounded (head b) = true ->
  hinted hint prev (a ++ to_chars w ++ b) = true.
Proof.
  intros Hw Ha Hb. revert prev Ha. induction a as [|c a IH]; intros prev Ha.
  - assert (Hx : existsb (fun v => starts_with (to_chars v) (to_chars w ++ b) && bounded (head (drop (String.length v) (to_chars w ++ b)))) hint = true).
    { apply existsb_exists. exists w. split; [by apply list_elem_of_In|]. rewrite starts_with_prefix, <- length_to_chars, drop_app_length. done. }
    cbn [last] in Ha. cbn [app]. destruct (to_chars w ++ b); cbn [hinted]; by rewrite Ha, Hx.
  - cbn [app hinted]. apply orb_true_iff. right. apply IH. destruct a as [|d a]; [done|]. change (last (c :: d :: a)) with (last (d :: a)) in Ha.
    destruct (last (d :: a)) eqn:E; [done|by apply last_None in E].
Qed.
Lemma says_hinted l : says l -> hinted hint None l = true.
Proof. intros (a & w & b & Hw & -> & Ha & Hb). apply hinted_at; [done| |done]. by destruct (last a). Qed.

Lemma bounded_quote a : bounded (last a) = true -> bounded (last (SQUOTE :: esc a)) = true.
Proof.
  destruct a as [|c a _] using rev_ind; [done|]. rewrite last_snoc, esc_app. intros Hc. rewrite app_comm_cons, last_app. cbn [esc]. by case_bool_decide.
Qed.
Lemma bounded_unquote b r : bounded (head b) = true -> bounded (head (esc b ++ SQUOTE :: r)) = true.
Proof. destruct b as [|c b]; [done|]. cbn. by case_bool_decide. Qed.
Lemma says_quoted w : says (to_chars w) -> says (quoted w).
Proof.
  intros (a & x & b & Hx & Hl & Ha & Hb). exists (SQUOTE :: esc a), x, (esc b ++ [SQUOTE]). unfold quoted. rewrite Hl, !esc_app, plain by done.
  split_and!; [done| |by apply bounded_quote|by apply bounded_unquote]. cbn. by rewrite <- !app_assoc.
Qed.
(** Quotes around a word keep what it says in any text. *)
Lemma says_in w p q : says (to_chars w) -> says (p ++ quoted w ++ q).
Proof.
  intros (a & x & b & Hx & Hl & Ha & Hb). exists (p ++ SQUOTE :: esc a), x, (esc b ++ SQUOTE :: q). unfold quoted. rewrite Hl, !esc_app, plain by done.
  split_and!; [done| | |by apply bounded_unquote].
  - by rewrite <- !app_assoc, <- !app_comm_cons, <- !app_assoc.
  - rewrite last_app. pose proof (bounded_quote a Ha). by destruct (last (SQUOTE :: esc a)) eqn:E; [|apply last_None in E].
Qed.

(** ** The path of a program *)

Lemma reverse_to_chars (l : chars) : l = reverse (reverse l).
Proof. by rewrite reverse_involutive. Qed.
(** A word with that base name holds it between slashes or the word's ends. *)
Lemma basename_says w x : x ∈ hint -> basename w = x -> says (to_chars w).
Proof.
  intros Hx Hb. unfold basename in Hb. set (l := reverse (to_chars w)) in *. set (sl := fun c => negb (not_slash c)) in *.
  assert (Hl : to_chars w = reverse (drop_while not_slash (drop_while sl l)) ++ to_chars x ++ reverse (take_while sl l)).
  { rewrite <- Hb, to_of_chars. rewrite <- !reverse_app. rewrite (reverse_to_chars (to_chars w)). fold l. f_equal.
    rewrite <- (take_drop_while sl l) at 1. rewrite <- app_assoc. f_equal. by rewrite take_drop_while. }
  exists (reverse (drop_while not_slash (drop_while sl l))), x, (reverse (take_while sl l)). split_and!; [done|done| |].
  - destruct (drop_while not_slash (drop_while sl l)) as [|c r] eqn:E; [done|]. rewrite reverse_cons, last_snoc.
    assert (Hc : not_slash c = false) by (clear -E; revert c r E; induction (drop_while sl l) as [|y r' IH]; [done|]; cbn; destruct (not_slash y) eqn:Ey; [eauto|]; by intros c r [= <- _]).
    unfold not_slash in Hc. case_bool_decide; [by subst|done].
  - destruct (reverse (take_while sl l)) as [|c r] eqn:E; [done|]. assert (Hc : c ∈ take_while sl l) by (apply elem_of_reverse; rewrite E; by left).
    assert (Hs : sl c = true) by (clear -Hc; induction l as [|y l IH]; [by apply elem_of_nil in Hc|]; cbn in Hc; destruct (sl y) eqn:Ey; [|by apply elem_of_nil in Hc]; apply elem_of_cons in Hc as [->|Hc]; [done|by apply IH]).
    unfold sl, not_slash in Hs. rewrite negb_involutive in Hs. apply bool_decide_eq_true in Hs as ->. done.
Qed.
Lemma says_wrapped shells t : says t -> says (wrapped shells t).
Proof.
  intros Ht. induction shells as [|sh shells IH]; [done|]. cbn [wrapped]. destruct (quoted_words_in (of_chars (wrapped shells t)) [sh; "-c"; of_chars (wrapped shells t)]) as (p & q & ->); [set_solver|].
  apply says_in. by rewrite to_of_chars.
Qed.
End Hint.
Lemma effective_in argv w : w ∈ effective argv -> w ∈ argv.
Proof.
  unfold effective. generalize (length argv). intros f. revert argv. induction f as [|f IH]; intros [|x r]; [done..|]. cbn [effective_go].
  assert (Hu : forall l, w ∈ user_flags l -> w ∈ l).
  { intros l. remember (length l) as n eqn:Hn. revert l Hn. induction (lt_wf n) as [n _ IHn]. intros l ->. destruct l as [|y l]; [done|]. cbn [user_flags]. destruct (dashed y); [|done].
    destruct (among _ y); [destruct l as [|z l]; [by intros ?%elem_of_nil|]|]; intros Hw; apply elem_of_cons; right; [apply elem_of_cons; right|]; (eapply IHn; [|done|exact Hw]); cbn; lia. }
  assert (Hd : forall p l, w ∈ drop_while p l -> w ∈ l).
  { intros p l. induction l as [|y l IHl]; cbn; [done|]. destruct (p y); [intros H; right; by apply IHl|done]. }
  destruct (assigns x); [intros H; right; by apply IH|]. destruct (among _ x); [intros H; right; by apply Hu, IH|]. case_bool_decide; [intros H'; right; by eapply Hd, IH|].
  destruct (_ || _); [intros H'; right; by apply IH|done].
Qed.
(** With no variable set, a word stays as it is. *)
Lemma sub_nil w : sub [] w = w.
Proof.
  unfold sub. assert (E : forall l k, sub_chars [] k l = drop k l); [|by rewrite E, drop_0, of_to_chars].
  induction l as [|c r IH]; intros k; [by destruct k|]. destruct k as [|k]; [|apply IH]. cbn [sub_chars]. destruct (var_at (c :: r)) as [[n name]|] eqn:Ev; [|by rewrite IH].
  cbn [OMap.get]. rewrite IH. unfold var_at in Ev. destruct (_ && _); [|done]. injection Ev as <- _. cbn [Nat.add take pred app]. by rewrite take_drop.
Qed.
(** A command that sets no variables is kept, and its words when they name none. *)
Definition sets_only (raw : list string) : bool :=
  let words := if among ["export"; "declare"; "local"; "readonly"] (default "" (head raw)) then drop 1 raw else raw in
  negb (bool_decide (words = [])) && forallb assigns words.
Lemma expandVars_keeps cmds vars argv : argv ∈ cmds -> sets_only argv = false -> Forall (fun w => "$"%char ∉ to_chars w) argv -> argv ∈ (expandVars cmds vars).1.
Proof.
  intros Hin Hs Hd. revert vars. induction cmds as [|raw cmds IH]; intros vars; [by apply elem_of_nil in Hin|]. cbn [expandVars]. fold (sets_only raw).
  apply elem_of_cons in Hin as [<-|Hin].
  - rewrite Hs. destruct (expandVars cmds vars) as [out vs]. cbn [fst]. apply elem_of_cons. left. symmetry.
    clear -Hd. induction Hd as [|w ws Hw _ IH]; [done|]. cbn. by rewrite sub_plain, IH.
  - destruct (sets_only raw); [by apply IH|]. specialize (IH Hin vars). destruct (expandVars cmds vars). by right.
Qed.
Lemma expandVars_one raw : sets_only raw = false -> expandVars [raw] [] = ([raw], []).
Proof. intros Hs. cbn [expandVars]. fold (sets_only raw). rewrite Hs. f_equal. f_equal. clear. induction raw as [|w ws IH]; [done|]. cbn. by rewrite sub_nil, IH. Qed.
