(* ===== verification/Kill.v ===== *)
(** * The rule against kills by pattern

    [packages/sieun-rules/src/kill.ts]: the verdicts on a shell text that kills processes it did not start by name:
    [pkill], [killall], and a [kill] whose pids come from [pgrep], [pidof] or [ps].  The code's depths are fuel: a
    script inside a script is judged to seven levels ([depth > 6] ends it) and its programs are looked for to five. *)

From S2P Require Import Prelude Shell.
#[local] Open Scope string_scope.
#[local] Open Scope list_scope.
#[local] Open Scope Z_scope.

Definition PREFIX : string := "global-rules kill guard:".
Definition KILL_TAIL : string :=
  "Stop only a process you started: call `h.kill()` on its bash() handle, or `kill <pid>` (or `kill -- -<pgid>` for a group you " +:+
  "started) with the pid you kept from `$!`, `h.pid` or a pid file; use pgrep or ps only to look. On 10-29 at 04:24 KST " +:+
  "`pkill -f 'svelte-check' -U $(id -u)` on the owner's Mac killed every process with 501 in its argv, a Prime worker's 43 sessions " +:+
  "included. This is a hard limit, because a stray kill is destructive to shared state (c98).".
Definition KILLERS : list string := ["kill"; "pkill"; "killall"].
Definition SOURCES : list string := ["pgrep"; "pidof"; "ps"].

(** The words whose mention has a text judged. *)
Definition HINT : list string := ["pkill"; "killall"; "kill"].

(** The program names of the commands in a text and in its substitutions, in the order they are first seen. *)
Fixpoint programs_of (fuel : nat) (text : string) : list string :=
  match fuel with
  | O => []
  | S f => let x := lex text in map (fun argv => program (effective argv)) (commands x) ++ concat (map (programs_of f) (nested x))
  end.
Definition programs (text : string) : list string := unique (programs_of 5 text).

(** [/^-(?:[A-Za-z]+\d*|\d+)$/.test(w)]: all letters come before all digits, and there is one of either. *)
Definition signal_option (w : string) : bool :=
  let l := drop 1 (to_chars w) in
  dashed w && negb (bool_decide (l = [])) && forallb is_digit (drop_while letter l).
Definition targets (args : list string) : list string :=
  let args := match args with
              | w :: r => if among ["-s"; "-n"] w then drop 1 r else if signal_option w then r else args
              | [] => []
              end in
  match args with w :: r => if bool_decide (w = "--") then r else args | [] => [] end.

(** The name in a pid word that is one variable, perhaps negated. *)
Definition var_ref (p : string) : option string :=
  let l := to_chars p in
  let l := if head_is "-"%char l then drop 1 l else l in
  if head_is "$"%char l then
    let l := drop 1 l in
    let l := if head_is "{"%char l then drop 1 l else l in
    let name := take_while word_char l in
    let rest := drop_while word_char l in
    if negb (bool_decide (name = [])) && (bool_decide (rest = []) || bool_decide (rest = ["}"%char])) then Some (of_chars name) else None
  else None.
(** A word that assigns the empty string, as [p=$(...)] reads once its substitution is taken out: its name. *)
Definition empty_assign (w : string) : option string :=
  match to_chars w with
  | c :: r =>
      if name_start c && bool_decide (drop_while word_char r = ["="%char]) then Some (of_chars (c :: take_while word_char r)) else None
  | [] => None
  end.

Definition refuse (eff : list string) (what : string) : Verdict :=
  let text := words_join " " eff in
  mkVerdict "kill" text (PREFIX +:+ " `" +:+ clip300 text +:+ "` " +:+ what +:+ ". " +:+ KILL_TAIL).

(** The names whose values come from outside the text, after a command. *)
Definition feed (raw : list string) (fed : list string) : list string :=
  let eff := effective raw in
  fed ++ match raw with ["for"; x; "in"] => [x] | _ => [] end ++ omap empty_assign raw
  ++ (if bool_decide (program eff = "read") then List.filter (fun a => negb (dashed a)) (drop 1 eff) else []).

(** The verdicts on one command; [judge] judges a script it starts. *)
Definition judge_command (judge : string -> list Verdict) (sources fed : list string) (raw : list string) : list Verdict :=
  let eff := effective raw in
  let name := program eff in
  let args := drop 1 eff in
  if among ["pkill"; "killall"] name then
    [refuse eff ("kills every process whose " +:+ (if bool_decide (name = "killall") then "name" else "name or command line") +:+ " matches, in every session on the box")]
  else if bool_decide (name = "kill") then
    let pids := targets args in
    if among pids "-1" then [refuse eff "signals every process you may signal (pid -1)"]
    else if negb (bool_decide (sources = []))
            && (bool_decide (pids = []) || existsb (fun p => match var_ref p with Some x => among fed x | None => false end) pids)
    then [refuse eff ("kills the pids " +:+ words_join " or " sources +:+ " found by pattern")]
    else []
  else if bool_decide (name = "xargs") then
    match List.find (fun a => among KILLERS (basename a)) args with
    | Some killer =>
        if negb (bool_decide (basename killer = "kill")) || negb (bool_decide (sources = []))
        then [refuse eff ("kills the pids " +:+ (if bool_decide (sources = []) then "a pattern" else words_join " or " sources) +:+ " found")]
        else []
    | None => []
    end
  else if among ["timeout"; "watch"] name then
    let rest := List.filter (fun a => negb (dashed a)) args in
    if (1 <? length rest)%nat then judge (words_join " " (drop (if bool_decide (name = "timeout") then 1 else 0) rest)) else []
  else if bool_decide (name = "ssh") then
    let remote := ssh_remote args in
    if bool_decide (remote = "") then [] else judge remote
  else if among SHELLS name then match shellScript eff with Some s => judge s | None => [] end
  else [].
Fixpoint judge_commands (judge : string -> list Verdict) (sources : list string) (cmds : list (list string)) (fed : list string) : list Verdict :=
  match cmds with
  | [] => []
  | raw :: r => let fed := feed raw fed in judge_command judge sources fed raw ++ judge_commands judge sources r fed
  end.
Definition sources_of (clean : string) : list string := List.filter (among SOURCES) (programs clean).
Fixpoint judge (fuel : nat) (text : string) : list Verdict :=
  match fuel with
  | O => []
  | S f =>
      let clean := stripHeredocs text in
      let x := lex clean in
      judge_commands (judge f) (sources_of clean) (commands x) [] ++ concat (map (judge f) (nested x))
  end.
Definition LEVELS : nat := 7.
Definition judgeKill (text : string) : list Verdict := if hinted HINT None (to_chars text) then judge LEVELS text else [].
