(* ===== verification/KillSpec.v ===== *)
(** * What the rule against kills by pattern catches, and what gets past it

    A [pkill] or [killall] is refused behind wrappers, among other commands and inside scripts of scripts to the depth
    the rule looks; a text that kills only pids it names passes; and the forms that hide a kill from the rule. *)

From S2P Require Import Prelude Shell ShellSpec Kill.
#[local] Open Scope string_scope.
#[local] Open Scope list_scope.
#[local] Open Scope Z_scope.

(** ** The hint *)

Definition says_kill : chars -> Prop := says HINT.
Lemma esc_plain w : w ∈ HINT -> esc (to_chars w) = to_chars w.
Proof. unfold HINT. rewrite !elem_of_cons, elem_of_nil. by intros [->|[->|[->|[]]]]. Qed.
Definition killer (argv : list string) : Prop := program (effective argv) = "pkill" \/ program (effective argv) = "killall".
Lemma killer_says argv p q : killer argv -> says_kill (p ++ quoted_words argv ++ q).
Proof.
  intros Hk. unfold killer, program in Hk. destruct (effective argv) as [|w r] eqn:E; [by destruct Hk|]. cbn [head default] in Hk.
  assert (Hw : w ∈ argv) by (apply effective_in; rewrite E; by left). destruct (quoted_words_in w argv Hw) as (p' & q' & ->).
  rewrite <- !app_assoc. rewrite app_assoc. apply (says_in HINT esc_plain). destruct Hk as [Hk|Hk]; (eapply (basename_says HINT); [|exact Hk]); unfold HINT; set_solver.
Qed.

(** ** Scripts in scripts *)

(** A shell's script is judged as the script alone, one level deeper. *)
Lemma judge_shell f sh t : sh ∈ SHELLS -> t <> [] -> LT ∉ t -> judge (S f) (of_chars (quoted_words [sh; "-c"; of_chars t])) = judge f (of_chars t).
Proof.
  intros Hsh Ht Hlt. cbn [judge]. assert (Hw : LT ∉ quoted_words [sh; "-c"; of_chars t]).
  { change (LT ∉ wrapped [sh] t). apply no_lt_wrapped; [by apply Forall_singleton|done]. }
  rewrite strip_text, lex_last_command by done. cbn [commands nested judge_commands map concat]. rewrite !app_nil_r. set (src := sources_of _).
  unfold judge_command. assert (Hr : runs sh = true /\ among ["pkill"; "killall"] (basename sh) = false /\ bool_decide (basename sh = "kill") = false
    /\ bool_decide (basename sh = "xargs") = false /\ among ["timeout"; "watch"] (basename sh) = false /\ bool_decide (basename sh = "ssh") = false /\ among SHELLS (basename sh) = true).
  { revert Hsh. unfold SHELLS at 1. rewrite !elem_of_cons, elem_of_nil. by intros [->|[->|[->|[->|[->|[->|[->|[]]]]]]]]; vm_compute. }
  destruct Hr as (Hr & H1 & H2 & H3 & H4 & H5 & H6). rewrite effective_runs_id by done. unfold program. cbn zeta. cbn [head default from_option id]. rewrite H1, H2, H3, H4, H5, H6.
  unfold shellScript. cbn [drop after_c]. change (c_flag "-c") with true. cbn iota. rewrite bool_decide_eq_false_2; [done|]. by intros ?%of_chars_empty.
Qed.
Lemma judge_wrapped shells f t : Forall (fun sh => sh ∈ SHELLS) shells -> t <> [] -> LT ∉ t ->
  judge (length shells + f) (of_chars (wrapped shells t)) = judge f (of_chars t).
Proof.
  intros Hs Ht Hlt. induction Hs as [|sh shells Hsh Hs IH]; [done|]. cbn [wrapped length Nat.add]. rewrite judge_shell; [done|done|by apply wrapped_nonempty|by apply no_lt_wrapped].
Qed.
(** ** What is refused *)

Lemma killer_refused jd src fed argv : killer argv -> exists v, v ∈ judge_command jd src fed argv /\ v_rule v = "kill" /\ v_command v = words_join " " (effective argv).
Proof.
  intros Hk. unfold judge_command. replace (among ["pkill"; "killall"] (program (effective argv))) with true; [eexists; split; [by left|done]|].
  symmetry. apply bool_decide_eq_true_2. destruct Hk as [-> | ->]; set_solver.
Qed.
Lemma commands_refused jd src fed argv cmds : argv ∈ cmds -> killer argv ->
  exists v, v ∈ judge_commands jd src cmds fed /\ v_rule v = "kill" /\ v_command v = words_join " " (effective argv).
Proof.
  revert fed. induction cmds as [|x cmds IH]; intros fed; [by intros ?%elem_of_nil|]. cbn [judge_commands]. intros [->|Hin]%elem_of_cons Hk.
  - destruct (killer_refused jd src (feed x fed) x Hk) as (v & Hv & H). exists v. split; [apply elem_of_app; by left|done].
  - destruct (IH (feed x fed) Hin Hk) as (v & Hv & H). exists v. split; [apply elem_of_app; by right|done].
Qed.
Lemma script_refused f cmds rest argv : good_script cmds -> argv ∈ map fst cmds -> killer argv -> LT ∉ script cmds ->
  exists v, v ∈ judge (S f) (of_chars (script cmds ++ rest)) /\ v_rule v = "kill" /\ v_command v = words_join " " (effective argv).
Proof.
  intros Hc Hin Hk Hlt. cbn [judge]. unfold stripHeredocs at 2. rewrite to_of_chars, strip_app by done. rewrite lex_script by done. cbn [commands nested].
  edestruct commands_refused as (v & Hv & H); [|exact Hk|exists v; split; [|exact H]; apply elem_of_app; left; exact Hv]. apply elem_of_app. by left.
Qed.


(** ** What passes *)

(** A command the rule has nothing on: none of the programs it follows or refuses, or a kill of pids the words name. *)
Definition harmless (argv : list string) : Prop :=
  let name := program (effective argv) in
  let pids := targets (drop 1 (effective argv)) in
  among (["pkill"; "killall"; "xargs"; "timeout"; "watch"; "ssh"] ++ SHELLS) name = false
  /\ (name = "kill" -> pids <> [] /\ Forall (fun p => p <> "-1" /\ var_ref p = None) pids).
Lemma harmless_passes jd src fed argv : harmless argv -> judge_command jd src fed argv = [].
Proof.
  unfold harmless, judge_command. cbn zeta. set (name := program (effective argv)). set (pids := targets _). intros [Hn Hk].
  assert (Ha : forall l, forallb (among (["pkill"; "killall"; "xargs"; "timeout"; "watch"; "ssh"] ++ SHELLS)) l = true -> among l name = false).
  { intros l Hl. apply bool_decide_eq_false in Hn. apply bool_decide_eq_false_2. intros Hin%list_elem_of_In. rewrite forallb_forall in Hl. by apply Hn, (bool_decide_eq_true_1 _ (Hl _ Hin)). }
  rewrite !Ha by reflexivity. case_bool_decide as E.
  - destruct (Hk E) as [Hne Hall]. rewrite Forall_forall in Hall. rewrite (bool_decide_eq_false_2 (pids = [])) by done. unfold among at 1. rewrite bool_decide_eq_false_2 by (intros Hin; by destruct (Hall _ Hin)).
    replace (existsb _ pids) with false; [by rewrite andb_false_r|]. symmetry. apply not_true_is_false. intros (p & Hp%list_elem_of_In & Hv)%existsb_exists. destruct (Hall p Hp) as [_ Hnone]. by rewrite Hnone in Hv.
  - rewrite !bool_decide_eq_false_2; [done|..]; intros Heq; apply bool_decide_eq_false in Hn; apply Hn; rewrite Heq; set_solver.
Qed.
(** A kill of named pids passes: a list of commands none of which runs a program the rule refuses or follows, and whose
    kills each name their targets in literal words (pids, groups, job numbers), gives no verdict, whatever else its
    words say: a commit message or a pattern for grep that says pkill does not count. *)
Theorem literal_kills_pass cmds : good_script cmds -> LT ∉ script cmds -> (forall argv, argv ∈ map fst cmds -> harmless argv) ->
  judgeKill (of_chars (script cmds)) = [].
Proof.
  intros Hc Hlt Hall. unfold judgeKill. case_match; [|done]. unfold LEVELS. cbn [judge]. rewrite strip_text by done. rewrite <- (app_nil_r (script cmds)) at 2 3.
  rewrite lex_script by done. change (lex (of_chars [])) with (mkLexed [] []). cbn [commands nested map concat]. rewrite !app_nil_r.
  set (jd := fun _ : string => _). clearbody jd || idtac. generalize (@nil string) as fed. induction (map fst cmds) as [|x l IH]; [done|]. intros fed. cbn [judge_commands].
  rewrite harmless_passes by (apply Hall; by left). apply IH. intros a Ha. apply Hall. by right.
Qed.

(** ** Witnesses *)

Definition demo_script : list (list string * chars) := [(["cd"; "/tmp"], to_chars "&&"); (["FOO=1"; "sudo"; "-u"; "me"; "/usr/bin/pkill"; "-f"; "it's"], [";"%char])].
Lemma demo_script_good : good_script demo_script.
Proof. apply Forall_cons. split; [split; [done|do 2 right; by left]|]. apply Forall_singleton. split; [done|by left]. Qed.
Definition named_kills : list (list string * chars) := [(["kill"; "-9"; "123"; "%1"], [";"%char]); (["git"; "commit"; "-m"; "pkill -f x"], [NEWLINE])].
Lemma literal_kills_pass_witness : judgeKill (of_chars (script named_kills)) = [].
Proof.
  apply literal_kills_pass.
  - apply Forall_cons. split; [split; [done|by left]|]. apply Forall_singleton. split; [done|right; by left].
  - rewrite <- (to_of_chars (script named_kills)). apply no_lt_bool. by vm_compute.
  - intros argv [->|[->|[]%elem_of_nil]%elem_of_cons]%elem_of_cons; (split; [vm_compute; reflexivity|]); [|intros H; vm_compute in H; discriminate].
    intros _. split; [vm_compute; discriminate|]. change (targets _) with ["123"; "%1"]. repeat (apply Forall_cons; split; [by vm_compute|]). by apply Forall_nil.
Defined.

(** ** What gets past the rule *)

Definition in_quotes (s : string) : string := dquote +:+ s +:+ dquote.
(** Five forms hide a kill by pattern from the rule, each beside the form it catches: the substitution in double quotes,
    whose empty word counts as a pid; the wrapper with a flag, whose flag counts as the program; the line after a comment
    with an apostrophe, which opens a quote; the line after a here-string or a shift, which opens a here-document; and the
    shell that [timeout] starts, whose words lose their quotes and flags. *)
Theorem forms_past_the_kill_rule :
  Forall (fun x => judgeKill x.1 <> [] /\ judgeKill x.2 = [])
    [("kill $(pgrep node)", "kill " +:+ in_quotes "$(pgrep node)");
     ("nice pkill node", "nice -n 5 pkill node");
     ("# do not stop" +:+ nl +:+ "pkill node", "# don't stop" +:+ nl +:+ "pkill node");
     ("cat < x" +:+ nl +:+ "pkill node", "cat <<<x" +:+ nl +:+ "pkill node");
     ("echo $((2*k))" +:+ nl +:+ "pkill node", "echo $((1<<k))" +:+ nl +:+ "pkill node");
     ("bash -c 'pkill node'", "timeout 5 bash -c 'pkill node'")].
Proof. repeat (apply Forall_cons; split; [split; [by vm_compute|by vm_compute]|]). by apply Forall_nil. Qed.
