(* ===== verification/Caps.v ===== *)
(** * The rule against resource caps

    [packages/sieun-rules/src/caps.ts]: the verdicts on a shell text that sets a memory, CPU, IO, task or priority cap, as
    an argument of [docker], [systemd-run], [systemctl], [nice] and the like, of a command they start, or of a script a
    shell or [ssh] runs.  The code's depth is fuel: [LEVELS] words or texts inside one another are judged ([depth > 6]
    ends it). *)

From S2P Require Import Prelude Shell.
#[local] Open Scope string_scope.
#[local] Open Scope list_scope.
#[local] Open Scope Z_scope.

Definition PREFIX : string := "global-rules cap guard:".
Definition CAP_TAIL : string :=
  "Owner rule c107 keeps every memory, CPU, IO, task and priority cap off a box unless he asked for that one, and on 10-24 a hand-typed " +:+
  "`docker run --cpus 8` made the box parity duty read resource_limits_set 2. Drop the setting and size the run by its worker count instead, " +:+
  "such as `-e JOBS=N` for a container or a test runner's workers option. `heavy <size> -- <cmd>` stays allowed, since the owner asked for it " +:+
  "on 10-19. A cap the owner asks for goes into deploy/linux with his words, as setup-cpu.sh and heavy do.".

Definition DOCKER_CAPS : list string :=
  ["--cpus"; "--cpu-quota"; "--cpu-period"; "--cpu-shares"; "-c"; "--cpu-rt-runtime"; "--cpu-rt-period"; "--cpuset-cpus"; "--cpuset-mems";
   "-m"; "--memory"; "--memory-swap"; "--memory-reservation"; "--kernel-memory"; "--pids-limit"; "--blkio-weight"; "--blkio-weight-device";
   "--device-read-bps"; "--device-write-bps"; "--device-read-iops"; "--device-write-iops"].
Definition DOCKER_BOOL : list string :=
  ["-d"; "--detach"; "-i"; "--interactive"; "-t"; "--tty"; "--rm"; "--privileged"; "--init"; "--read-only"; "-P"; "--publish-all";
   "--oom-kill-disable"; "--no-healthcheck"; "--help"; "-q"; "--quiet"; "--sig-proxy"; "--use-api-socket"; "--disable-content-trust"].
Definition DOCKER_GLOBAL_VALUE : list string :=
  ["-H"; "--host"; "--context"; "-c"; "--config"; "-l"; "--log-level"; "--tlscacert"; "--tlscert"; "--tlskey"].

(** ** Unit properties *)

Definition prefixed (p w : string) : bool := starts_with (to_chars p) (to_chars w).
Definition words_only (l : chars) : bool := forallb word_char l.
(** [UNIT_CAP.test(w)]: the names in full, then those with a part left open. *)
Definition UNIT_NAMES : list string :=
  ["CPUQuota"; "CPUQuotaPeriodSec"; "CPUWeight"; "StartupCPUWeight"; "CPUShares"; "StartupCPUShares"; "AllowedCPUs"; "StartupAllowedCPUs";
   "AllowedMemoryNodes"; "CPUAffinity"; "MemoryMax"; "MemoryHigh"; "MemoryLow"; "MemoryMin"; "MemorySwapMax"; "MemoryZSwapMax"; "MemoryLimit";
   "TasksMax"; "Nice"; "CPUSchedulingPolicy"; "CPUSchedulingPriority"; "IOSchedulingClass"; "IOSchedulingPriority"].
Definition open_name (p w : string) : bool :=
  prefixed p w && let l := drop (String.length p) (to_chars w) in negb (bool_decide (l = [])) && words_only l.
Definition UNIT_CAP (w : string) : bool :=
  among UNIT_NAMES w || open_name "StartupMemory" w || open_name "BlockIO" w
  || (prefixed "IO" w && let l := drop 2 (to_chars w) in words_only l && (ends_with (to_chars "Max") l || ends_with (to_chars "Weight") l)).
Definition UNSET (w : string) : bool := among ["infinity"; ""] w.

Definition not_eq (c : Ascii.ascii) : bool := negb (is_eq c).
(** [w.slice(0, w.indexOf(=))], and the text after the sign when there is one. *)
Definition name_part (w : string) : string := of_chars (take_while not_eq (to_chars w)).
Definition value_part (w : string) : option string := match drop_while not_eq (to_chars w) with _ :: r => Some (of_chars r) | [] => None end.
Definition sets_cap (p : string) : bool :=
  match value_part p with Some v => negb (bool_decide (name_part p = "")) && UNIT_CAP (name_part p) && negb (UNSET v) | None => false end.
Definition capProps (props : list string) : list string := List.filter sets_cap props.

(** ** Words of a command *)

(** The words after the flags at the front, where a flag of [valued] takes the word after it. *)
Fixpoint skip_flags (valued : list string) (l : list string) : list string :=
  match l with
  | w :: r => if dashed w then (if among valued w then match r with _ :: r' => skip_flags valued r' | [] => [] end else skip_flags valued r) else l
  | [] => []
  end.
(** The words from the first [--] on. *)
Fixpoint from_dash (l : list string) : option (list string) :=
  match l with w :: r => if bool_decide (w = "--") then Some r else from_dash r | [] => None end.
Fixpoint after_words (skip : nat) (words : list string) : list string :=
  match words with
  | w :: r => if dashed w then after_words skip r else match skip with O => words | S k => after_words k r end
  | [] => []
  end.
Definition after (words : list string) (skip : nat) : list string := match from_dash words with Some r => r | None => after_words skip words end.

(** ** Docker *)

(** The letters of a short option: the caps among them, and whether the next word is its value. *)
Fixpoint letter_caps (letters : chars) : list string * bool :=
  match letters with
  | [] => ([], false)
  | c :: r =>
      let flag := of_chars ["-"%char; c] in
      let cap := if among DOCKER_CAPS flag then [flag] else [] in
      if among DOCKER_BOOL flag then (cap ++ (letter_caps r).1, (letter_caps r).2) else (cap, bool_decide (r = []))
  end.
Fixpoint dockerCaps (args : list string) : list string :=
  match args with
  | [] => []
  | w :: r =>
      let next (valued : bool) := if valued then match r with _ :: r' => dockerCaps r' | [] => [] end else dockerCaps r in
      if bool_decide (w = "--") then []
      else if negb (dashed w) || bool_decide (w = "-") then []
      else if prefixed "--" w then
        let name := name_part w in
        (if among DOCKER_CAPS name then [name] else []) ++ next (bool_decide (value_part w = None) && negb (among DOCKER_BOOL name))
      else let '(found, valued) := letter_caps (drop 1 (to_chars w)) in found ++ next valued
  end.
Definition docker (args : list string) : option string :=
  let rest := skip_flags DOCKER_GLOBAL_VALUE args in
  let rest := if bool_decide (head rest = Some "container") then drop 1 rest else rest in
  match rest with
  | sub :: r =>
      if among ["run"; "create"; "update"] sub then
        match dockerCaps r with [] => None | found => Some ("a container limit (" +:+ words_join ", " (unique found) +:+ ")") end
      else None
  | [] => None
  end.

(** ** systemd-run *)

Definition RUN_VALUE : list string :=
  ["-p"; "--property"; "-u"; "--unit"; "--description"; "--slice"; "-E"; "--setenv"; "--uid"; "--gid"; "-M"; "--machine"; "-H"; "--host";
   "--working-directory"; "--on-active"; "--on-boot"; "--on-startup"; "--on-unit-active"; "--on-unit-inactive"; "--on-calendar";
   "--timer-property"; "--path-property"; "--socket-property"; "--service-type"; "--nice"; "-C"; "--capsule"].
(** [/^-p./]: any character but a line's end. *)
Definition attached_p (w : string) : bool :=
  match to_chars w with a :: b :: c :: _ => bool_decide (a = "-"%char) && bool_decide (b = "p"%char) && negb (bool_decide (c = NEWLINE) || bool_decide (c = "013"%char)) | _ => false end.
(** The properties, whether it sets a priority, and the command. *)
Record UnitRun := mkUnitRun { ur_props : list string; ur_nice : bool; ur_command : list string }.
Definition with_prop (p : string) (u : UnitRun) : UnitRun := mkUnitRun (p :: ur_props u) (ur_nice u) (ur_command u).
Definition with_nice (b : bool) (u : UnitRun) : UnitRun := mkUnitRun (ur_props u) (b || ur_nice u) (ur_command u).
Fixpoint unit_run (args : list string) : UnitRun :=
  match args with
  | [] => mkUnitRun [] false []
  | w :: r =>
      if bool_decide (w = "--") then mkUnitRun [] false r
      else if negb (dashed w) then mkUnitRun [] false args
      else if among ["-p"; "--property"] w then match r with p :: r' => with_prop p (unit_run r') | [] => with_prop "" (mkUnitRun [] false []) end
      else if prefixed "--property=" w then with_prop (of_chars (drop 11 (to_chars w))) (unit_run r)
      else if attached_p w then with_prop (of_chars (drop 2 (to_chars w))) (unit_run r)
      else
        with_nice (bool_decide (w = "--nice") || prefixed "--nice=" w)
          (if among RUN_VALUE w then match r with _ :: r' => unit_run r' | [] => mkUnitRun [] false [] end else unit_run r)
  end.
Definition systemdRun (args : list string) : list string * list string :=
  let u := unit_run args in (capProps (ur_props u) ++ (if ur_nice u then ["--nice"] else []), ur_command u).

(** ** One command *)

Definition PASS : list string :=
  ["command"; "exec"; "time"; "nohup"; "setsid"; "builtin"; "caffeinate"; "then"; "else"; "elif"; "do"; "while"; "until"; "!"; "{"].
Fixpoint env_words (l : list string) : list string :=
  match l with
  | w :: r => if dashed w || assigns w then (if bool_decide (w = "-u") then match r with _ :: r' => env_words r' | [] => [] end else env_words r) else l
  | [] => []
  end.
(** The words from the program on; each round drops the first word at least. *)
Fixpoint runs_from (fuel : nat) (argv : list string) : list string :=
  match fuel, argv with
  | S f, w :: r =>
      if assigns w || among PASS w then runs_from f r
      else if among ["sudo"; "doas"] w then runs_from f (user_flags r)
      else if bool_decide (w = "env") then runs_from f (env_words r)
      else argv
  | _, _ => argv
  end.
Definition eff_of (argv : list string) : list string := runs_from (length argv) argv.

Definition refuse (eff : list string) (what : string) : Verdict :=
  let text := words_join " " eff in
  mkVerdict "cap" text (PREFIX +:+ " `" +:+ clip300 text +:+ "` sets " +:+ what +:+ ". " +:+ CAP_TAIL).
Definition refuse_if (b : bool) (eff : list string) (what : string) : list Verdict := if b then [refuse eff what] else [].
Definition asks_only (args : list string) : bool := forallb (among ["--help"; "--version"]) args.
Definition unit_limit (caps : list string) : string := "a unit limit (" +:+ words_join ", " caps +:+ ")".
Definition some_words (l : list string) : bool := negb (bool_decide (l = [])).

(** The verdicts on one program's words; [argv_of] and [text_of] judge the command and the script it starts, one level deeper. *)
Definition judge_program (argv_of : list string -> list Verdict) (text_of : string -> list Verdict) (eff : list string) : list Verdict :=
  match eff with
  | [] => []
  | w :: args =>
      let name := basename w in
      if bool_decide (name = "nice") then refuse_if (negb (asks_only args)) eff "a CPU priority (nice)"
      else if bool_decide (name = "renice") then refuse_if (negb (asks_only args)) eff "a CPU priority (renice)"
      else if bool_decide (name = "cpulimit") then refuse_if (some_words args) eff "a CPU limit (cpulimit)"
      else if bool_decide (name = "ionice") then
        refuse_if (existsb (fun a => prefixed "-c" a || prefixed "--class" a || prefixed "-n" a) args
                   || some_words (positionals args ["-p"; "--pid"; "-P"; "--pgid"; "-u"; "--uid"])) eff "an IO priority (ionice)"
      else if bool_decide (name = "taskset") then refuse_if (1 <? length (positionals args []))%nat eff "a CPU pin (taskset)"
      else if bool_decide (name = "heavy") then argv_of (after args 1)
      else if bool_decide (name = "choom") then argv_of (after args (if bool_decide (head args = Some "-n") then 1 else 0))
      else if bool_decide (name = "timeout") then argv_of (drop 1 (skip_flags ["-s"; "-k"; "--signal"; "--kill-after"] args))
      else if bool_decide (name = "stdbuf") then argv_of (skip_flags ["-i"; "-o"; "-e"] args)
      else if among ["docker"; "podman"] name then match docker args with Some what => [refuse eff what] | None => [] end
      else if bool_decide (name = "systemd-run") then
        let '(caps, command) := systemdRun args in refuse_if (some_words caps) eff (unit_limit caps) ++ argv_of command
      else if bool_decide (name = "systemctl") then
        let caps := match find_index (fun a => bool_decide (a = "set-property")) args with Some at_ => capProps (drop (S at_) args) | None => [] end in
        refuse_if (some_words caps) eff (unit_limit caps)
      else if bool_decide (name = "ssh") then let remote := ssh_remote args in if bool_decide (remote = "") then [] else text_of remote
      else if among SHELLS name then match shellScript eff with Some s => text_of s | None => [] end
      else []
  end.

(** ** Levels *)

(** [judgeArgv] and [judge] with so many levels left: a text's commands stay on its level, what they start is one deeper. *)
Fixpoint judges (levels : nat) : (list string -> list Verdict) * (string -> list Verdict) :=
  match levels with
  | O => (fun _ => [], fun _ => [])
  | S n =>
      let deeper := judges n in
      let argv_here argv := judge_program deeper.1 deeper.2 (eff_of argv) in
      (argv_here, fun text => let x := lex (stripHeredocs text) in concat (map argv_here (commands x)) ++ concat (map deeper.2 (nested x)))
  end.
Definition judgeArgv (levels : nat) : list string -> list Verdict := (judges levels).1.
Definition judge (levels : nat) : string -> list Verdict := (judges levels).2.
Definition LEVELS : nat := 7.
Definition judgeCaps (text : string) : list Verdict := judge LEVELS text.
