(* ===== verification/CapsSpec.v ===== *)
(** * What the rule against resource caps reads

    The options of a [docker run], written in any of the forms Docker takes, are read as they were meant, and the words of
    the container's own command never count; a command is judged the same behind other words and inside other commands,
    shells and [ssh], to the depth the rule looks; and the forms that hide a cap from it. *)

From S2P Require Import Prelude Shell ShellSpec Caps.
#[local] Open Scope string_scope.
#[local] Open Scope list_scope.
#[local] Open Scope Z_scope.

(** ** The options of a container *)

(** An option as it is meant: a long one with its value after a sign, in the next word or with none; letters that take
    no value, and perhaps one at their end that does, in the same word or the next. *)
Inductive Opt :=
| LongEq (name value : string)
| LongFlag (name : string)
| LongNext (name value : string)
| Letters (flags : chars)
| LettersNext (flags : chars) (c : Ascii.ascii) (value : string)
| LettersJoined (flags : chars) (c : Ascii.ascii) (value : chars).
Definition flag_of (c : Ascii.ascii) : string := of_chars ["-"%char; c].
Definition cluster (l : chars) : string := of_chars ("-"%char :: l).
Definition words_of (o : Opt) : list string :=
  match o with
  | LongEq n v => [n +:+ "=" +:+ v]
  | LongFlag n => [n]
  | LongNext n v => [n; v]
  | Letters l => [cluster l]
  | LettersNext l c v => [cluster (l ++ [c]); v]
  | LettersJoined l c v => [cluster (l ++ c :: v)]
  end.
Definition cap_name (n : string) : list string := if among DOCKER_CAPS n then [n] else [].
Definition caps_of (o : Opt) : list string :=
  match o with
  | LongEq n _ | LongFlag n | LongNext n _ => cap_name n
  | Letters _ => []
  | LettersNext _ c _ | LettersJoined _ c _ => cap_name (flag_of c)
  end.
Definition long_name (n : string) : Prop := prefixed "--" n = true /\ n <> "--" /\ forallb not_eq (to_chars n) = true.
Definition bool_letters (l : chars) : Prop := Forall (fun c => among DOCKER_BOOL (flag_of c) = true) l.
Definition valued_letter (c : Ascii.ascii) : Prop := among DOCKER_BOOL (flag_of c) = false /\ c <> "-"%char.
Definition opt_ok (o : Opt) : Prop :=
  match o with
  | LongEq n _ => long_name n
  | LongFlag n => long_name n /\ among DOCKER_BOOL n = true
  | LongNext n _ => long_name n /\ among DOCKER_BOOL n = false
  | Letters l => l <> [] /\ bool_letters l
  | LettersNext l c _ => bool_letters l /\ valued_letter c
  | LettersJoined l c v => bool_letters l /\ valued_letter c /\ v <> []
  end.
(** The options stop at the end, at [--] and at a word that is none: the image, or a lone dash. *)
Definition options_end (rest : list string) : Prop :=
  match rest with [] => True | w :: _ => w = "--" \/ w = "-" \/ dashed w = false end.

Lemma name_part_plain n : forallb not_eq (to_chars n) = true -> name_part n = n /\ value_part n = None.
Proof.
  intros Hn. unfold name_part, value_part. destruct (take_while_app not_eq (to_chars n) []) as [Ht Hd]; [done..|].
  rewrite app_nil_r in Ht, Hd. rewrite Ht, Hd. by rewrite of_to_chars.
Qed.
Lemma name_part_eq n v : forallb not_eq (to_chars n) = true -> name_part (n +:+ "=" +:+ v) = n /\ value_part (n +:+ "=" +:+ v) = Some v.
Proof.
  intros Hn. unfold name_part, value_part. rewrite to_chars_app. cbn [to_chars]. rewrite to_chars_app.
  destruct (take_while_app not_eq (to_chars n) (to_chars "=" ++ to_chars v)) as [-> ->]; [done|by intros x [= <-]|].
  cbn. by rewrite !of_to_chars.
Qed.
Lemma prefixed_app p n v : prefixed p n = true -> prefixed p (n +:+ v) = true.
Proof.
  unfold prefixed. rewrite to_chars_app. generalize (to_chars p), (to_chars n), (to_chars v). intros a. induction a as [|x a IH]; [done|].
  intros [|y b] c; [done|]. cbn. rewrite !andb_true_iff. intros [H1 H2]. split; [done|by apply IH].
Qed.
Lemma long_word n : prefixed "--" n = true -> n <> "--" -> bool_decide (n = "--") = false /\ negb (dashed n) || bool_decide (n = "-") = false.
Proof.
  intros Hp Hn. rewrite bool_decide_eq_false_2 by done. split; [done|]. assert (Hd : dashed n = true).
  { revert Hp. unfold prefixed, dashed. destruct (to_chars n) as [|c l]; [done|]. cbn. rewrite andb_true_r. by intros [-> _]%andb_true_iff. }
  rewrite Hd. apply bool_decide_eq_false_2. by intros ->.
Qed.
Lemma letter_caps_bools l r : bool_letters l -> letter_caps (l ++ r) = letter_caps r.
Proof.
  intros Hl. induction Hl as [|c l Hc _ IH]; [done|]. cbn [app letter_caps]. fold (flag_of c). rewrite Hc, IH.
  assert (Hn : among DOCKER_CAPS (flag_of c) = false).
  { apply bool_decide_eq_true in Hc. apply negb_true_iff. revert Hc. generalize (flag_of c). intros w Hw%list_elem_of_In. by apply (proj1 (forallb_forall (fun w => negb (among DOCKER_CAPS w)) DOCKER_BOOL) eq_refl). }
  rewrite Hn. by destruct (letter_caps r).
Qed.
Lemma letter_caps_valued c r : valued_letter c -> letter_caps (c :: r) = (cap_name (flag_of c), bool_decide (r = [])).
Proof. intros [Hb _]. cbn [letter_caps]. fold (flag_of c). by rewrite Hb. Qed.
Lemma bool_letters_head l : bool_letters l -> head l <> Some "-"%char.
Proof. intros Hl Hh. destruct Hl as [|c l Hc _]; [done|]. injection Hh as ->. done. Qed.
(** A word of letters is an option, and no long one. *)
Lemma cluster_word l : l <> [] -> head l <> Some "-"%char ->
  bool_decide (cluster l = "--") = false /\ negb (dashed (cluster l)) || bool_decide (cluster l = "-") = false /\ prefixed "--" (cluster l) = false
  /\ drop 1 (to_chars (cluster l)) = l.
Proof.
  intros Hl Hh. unfold cluster, prefixed, dashed. rewrite !to_of_chars. destruct l as [|c l]; [done|]. assert (Hc : c <> "-"%char) by (intros ->; by apply Hh).
  split_and!; [| |cbn; repeat case_bool_decide; naive_solver|done].
  - apply bool_decide_eq_false_2. intros E%(f_equal to_chars). rewrite to_of_chars in E. by injection E.
  - apply orb_false_iff. split; [done|]. apply bool_decide_eq_false_2. intros E%(f_equal to_chars). rewrite to_of_chars in E. by injection E.
Qed.
Lemma dockerCaps_letters l c : l <> [] -> head l <> Some "-"%char -> letter_caps l = c ->
  forall r, dockerCaps (cluster l :: r) = c.1 ++ (if c.2 then match r with _ :: r' => dockerCaps r' | [] => [] end else dockerCaps r).
Proof. intros Hl Hh Hc r. destruct (cluster_word l Hl Hh) as (H1 & H2 & H3 & H4). cbn [dockerCaps]. rewrite H1, H2, H3, H4, Hc. by destruct c. Qed.

Lemma dockerCaps_opt o r : opt_ok o -> dockerCaps (words_of o ++ r) = caps_of o ++ dockerCaps r.
Proof.
  destruct o as [n v|n|n v|l|l c v|l c v]; cbn [opt_ok words_of caps_of app].
  - intros (Hp & Hn & He). destruct (name_part_eq n v He) as [E1 E2]. pose proof (prefixed_app _ _ ("=" +:+ v) Hp) as Hp'.
    destruct (long_word _ Hp') as [H1 H2]; [intros E; rewrite E in E2; done|]. cbn [dockerCaps]. rewrite H1, H2, Hp', E1, E2. done.
  - intros [(Hp & Hn & He) Hb]. destruct (name_part_plain n He) as [E1 E2]. destruct (long_word _ Hp Hn) as [H1 H2].
    cbn [dockerCaps]. rewrite H1, H2, Hp, E1, E2, Hb. done.
  - intros [(Hp & Hn & He) Hb]. destruct (name_part_plain n He) as [E1 E2]. destruct (long_word _ Hp Hn) as [H1 H2].
    cbn [dockerCaps]. rewrite H1, H2, Hp, E1, E2, Hb. done.
  - intros [Hl Hb]. rewrite (dockerCaps_letters l ([], false)); [done|done|by apply bool_letters_head|]. rewrite <- (app_nil_r l). by rewrite letter_caps_bools.
  - intros [Hb Hc]. rewrite (dockerCaps_letters _ (cap_name (flag_of c), true)); [done|by destruct l| |].
    + destruct l as [|a l]; [intros [= E]; by destruct Hc|by apply (bool_letters_head (a :: l))].
    + rewrite letter_caps_bools by done. by rewrite letter_caps_valued.
  - intros (Hb & Hc & Hv). rewrite (dockerCaps_letters _ (cap_name (flag_of c), false)); [done|by destruct l| |].
    + destruct l as [|a l]; [intros [= E]; by destruct Hc|by apply (bool_letters_head (a :: l))].
    + rewrite letter_caps_bools by done. rewrite letter_caps_valued by done. by rewrite bool_decide_eq_false_2.
Qed.
Lemma dockerCaps_end rest : options_end rest -> dockerCaps rest = [].
Proof.
  destruct rest as [|w r]; [done|]. intros Hw. cbn [dockerCaps]. case_bool_decide as E; [done|].
  destruct Hw as [Hw|[->|Hw]]; [done|done|]. by rewrite Hw.
Qed.
Definition opt_words (opts : list Opt) : list string := concat (map words_of opts).
Definition opt_caps (opts : list Opt) : list string := concat (map caps_of opts).
Lemma dockerCaps_opts opts rest : Forall opt_ok opts -> options_end rest -> dockerCaps (opt_words opts ++ rest) = opt_caps opts.
Proof.
  intros Ho Hr. unfold opt_words, opt_caps. induction Ho as [|o opts Ho _ IH]; [by apply dockerCaps_end|]. cbn [map concat].
  by rewrite <- app_assoc, dockerCaps_opt, IH.
Qed.

(** ** The program a command runs *)

Lemma env_words_shrinks l : (length (env_words l) <= length l)%nat.
Proof.
  remember (length l) as n eqn:Hn. revert l Hn. induction (lt_wf n) as [n _ IH]. intros l ->. destruct l as [|w r]; [cbn; lia|]. cbn [env_words length].
  destruct (dashed w || assigns w); [|cbn; lia]. case_bool_decide.
  - destruct r as [|x r']; [cbn; lia|]. etransitivity; [eapply IH; [|done]; cbn; lia|cbn; lia].
  - etransitivity; [eapply IH; [|done]; cbn; lia|lia].
Qed.
Lemma runs_from_fuel f g argv : (length argv <= f)%nat -> (length argv <= g)%nat -> runs_from f argv = runs_from g argv.
Proof.
  revert g argv. induction f as [|f IH]; intros [|g] [|w r] Hf Hg; cbn in Hf, Hg; try done; try lia. cbn [runs_from].
  pose proof (user_flags_shrinks r). pose proof (env_words_shrinks r). repeat case_match; auto; apply IH; lia.
Qed.
Lemma eff_cons w r : eff_of (w :: r) =
  if assigns w || among PASS w then eff_of r else if among ["sudo"; "doas"] w then eff_of (user_flags r)
  else if bool_decide (w = "env") then eff_of (env_words r) else w :: r.
Proof.
  unfold eff_of. cbn [length runs_from]. pose proof (user_flags_shrinks r). pose proof (env_words_shrinks r).
  repeat case_match; auto; apply runs_from_fuel; lia.
Qed.
(** A word the rule takes for the program, and words it reads past. *)
Definition stays (w : string) : bool := negb (dashed w || assigns w || among PASS w || among ["sudo"; "doas"; "env"] w).
Definition passes (w : string) : bool := assigns w || among PASS w || among ["sudo"; "doas"; "env"] w.
Lemma among_app a b w : among (a ++ b) w = among a w || among b w.
Proof. unfold among. destruct (bool_decide (w ∈ a)) eqn:E; [apply bool_decide_eq_true in E|apply bool_decide_eq_false in E];
  [apply bool_decide_eq_true_2; set_solver|apply bool_decide_ext; set_solver]. Qed.
Lemma eff_stays w r : stays w = true -> eff_of (w :: r) = w :: r.
Proof.
  unfold stays. rewrite eff_cons. change ["sudo"; "doas"; "env"] with (["sudo"; "doas"] ++ ["env"]). rewrite among_app.
  rewrite !negb_orb, !andb_true_iff, !negb_true_iff. intros [[[_ ->] ->] [-> He]]. cbn. rewrite bool_decide_eq_false_2; [done|].
  intros ->. by vm_compute in He.
Qed.
Lemma assigns_plain w : assigns w = true -> dashed w = false.
Proof. unfold assigns, dashed. destruct (to_chars w) as [|c l]; [done|]. cbn. case_bool_decide as E; [|done]. by rewrite <- E. Qed.
Lemma passes_plain w : passes w = true -> dashed w = false.
Proof.
  unfold passes. rewrite !orb_true_iff. intros [[H|H]|H]; [by apply assigns_plain|..]; apply bool_decide_eq_true in H; apply negb_true_iff; revert w H;
    (intros w Hw%list_elem_of_In; match type of Hw with In _ ?l => exact (proj1 (forallb_forall (fun w => negb (dashed w)) l) eq_refl w Hw) end).
Qed.
Definition leads (argv : list string) : Prop := match argv with w :: _ => dashed w = false | [] => False end.
Lemma leads_app b argv : Forall (fun w => passes w = true) b -> leads argv -> leads (b ++ argv).
Proof. intros Hb Ha. destruct Hb as [|w b Hw _]; [done|]. by apply passes_plain. Qed.
Lemma user_flags_leads argv : leads argv -> user_flags argv = argv.
Proof. destruct argv as [|w r]; [done|]. cbn. by intros ->. Qed.
Lemma stays_plain w : stays w = true -> dashed w = false /\ assigns w = false.
Proof. unfold stays. rewrite negb_true_iff, !orb_false_iff. by intros [[[-> ->] _] _]. Qed.
Lemma eff_env b w r : Forall (fun w => passes w = true) b -> stays w = true -> eff_of (env_words (b ++ w :: r)) = eff_of (b ++ w :: r).
Proof.
  intros Hb Hw. induction Hb as [|x b Hx _ IH]; cbn [app env_words].
  - by destruct (stays_plain w Hw) as [-> ->].
  - rewrite (passes_plain _ Hx). cbn [orb]. destruct (assigns x) eqn:Ea; [|done]. rewrite bool_decide_eq_false_2 by (intros ->; done).
    rewrite IH. by rewrite (eff_cons x), Ea.
Qed.
Lemma eff_before b w r : Forall (fun w => passes w = true) b -> stays w = true -> eff_of (b ++ w :: r) = w :: r.
Proof.
  intros Hb Hw. assert (Hl : leads (w :: r)) by (by apply stays_plain).
  induction Hb as [|x b Hx Hb IH]; [by apply eff_stays|]. cbn [app]. rewrite eff_cons, user_flags_leads by (by apply leads_app). rewrite eff_env, IH by done.
  revert Hx. unfold passes. change ["sudo"; "doas"; "env"] with (["sudo"; "doas"] ++ ["env"]). rewrite among_app.
  destruct (assigns x || among PASS x); [done|]. destruct (among ["sudo"; "doas"] x); [done|]. cbn. unfold among. case_bool_decide as E; [|done].
  apply list_elem_of_singleton in E as ->. done.
Qed.

(** ** Levels *)

Lemma judgeArgv_S n argv : judgeArgv (S n) argv = judge_program (judgeArgv n) (judge n) (eff_of argv).
Proof. done. Qed.
Lemma judge_caps_level n text : judge (S n) text = let x := lex (stripHeredocs text) in concat (map (judgeArgv (S n)) (commands x)) ++ concat (map (judge n) (nested x)).
Proof. done. Qed.
Definition plain (ws : list string) : Prop := Forall (fun w => LT ∉ to_chars w) ws.
Definition as_text (argv : list string) : string := of_chars (quoted_words argv).
Lemma plain_text argv : plain argv -> LT ∉ quoted_words argv.
Proof. intros Hp. apply no_lt_words. by rewrite <- Forall_forall. Qed.
Lemma judge_text n argv : argv <> [] -> plain argv -> judge n (as_text argv) = judgeArgv n argv.
Proof.
  intros Ha Hp. destruct n as [|n]; [done|]. rewrite judge_caps_level. unfold as_text. rewrite strip_text by (by apply plain_text). rewrite lex_last_command by done.
  cbn [commands nested map concat]. by rewrite !app_nil_r.
Qed.

(** What may start a command, one level up. *)
Inductive Link :=
| ByShell (shell : string)
| BySsh (host : string)
| ByHeavy (size : string)
| ByTimeout (duration : string)
| ByStdbuf
| ByUnit (name : string).
Definition link_head (l : Link) : string :=
  match l with ByShell sh => sh | BySsh _ => "ssh" | ByHeavy _ => "heavy" | ByTimeout _ => "timeout" | ByStdbuf => "stdbuf" | ByUnit _ => "systemd-run" end.
Definition link_args (l : Link) (argv : list string) : list string :=
  match l with
  | ByShell _ => ["-c"; as_text argv]
  | BySsh host => [host; as_text argv]
  | ByHeavy size => size :: "--" :: argv
  | ByTimeout duration => duration :: argv
  | ByStdbuf => "-oL" :: argv
  | ByUnit name => "--user" :: "--unit" :: name :: "--" :: argv
  end.
Definition link_word (l : Link) : string := match l with ByShell sh => sh | BySsh w | ByHeavy w | ByTimeout w | ByUnit w => w | ByStdbuf => "" end.
Definition link_ok (l : Link) : Prop :=
  (LT ∉ to_chars (link_word l)) /\ dashed (link_word l) = false /\ (match l with ByShell sh => sh ∈ SHELLS | _ => True end).
(** Each link stands behind words the rule reads past. *)
Fixpoint chain (links : list (list string * Link)) (argv : list string) : list string :=
  match links with [] => argv | (b, l) :: r => b ++ link_head l :: link_args l (chain r argv) end.
Definition links_ok (links : list (list string * Link)) : Prop :=
  Forall (fun x => Forall (fun w => passes w = true) x.1 /\ plain x.1 /\ link_ok x.2) links.

Lemma shell_word sh : sh ∈ SHELLS -> stays sh = true /\ basename sh = sh.
Proof. unfold SHELLS. rewrite !elem_of_cons, elem_of_nil. by intros [->|[->|[->|[->|[->|[->|[->|[]]]]]]]]; vm_compute. Qed.
Lemma link_stays l : link_ok l -> stays (link_head l) = true.
Proof. destruct l; try done. intros (_ & _ & Hs). by apply shell_word. Qed.
Lemma chain_leads links argv : links_ok links -> leads argv -> leads (chain links argv).
Proof.
  intros Hl Ha. destruct Hl as [|[b l] links (Hb & _ & Hl) _]; [done|]. cbn [chain]. apply leads_app; [done|].
  by apply stays_plain, link_stays.
Qed.
Lemma leads_nonempty argv : leads argv -> argv <> [].
Proof. by destruct argv. Qed.
Lemma chain_plain links argv : links_ok links -> plain argv -> plain (chain links argv).
Proof.
  intros Hl Ha. unfold plain in *. induction Hl as [|[b l] links (Hb & Hp & Hw & _ & Hs) _ IH]; [done|]. cbn [chain fst snd] in *. rewrite Forall_app, Forall_cons.
  assert (Ht : LT ∉ to_chars (as_text (chain links argv))) by (unfold as_text; rewrite to_of_chars; by apply plain_text).
  split_and!; [done|destruct l; first [done|by apply no_lt_bool]|]. destruct l; cbn [link_args link_word] in *; repeat (apply Forall_cons; split; [first [done|by apply no_lt_bool]|]); done.
Qed.
Lemma judge_link n b l argv : Forall (fun w => passes w = true) b -> link_ok l -> leads argv -> plain argv ->
  judgeArgv (S n) (b ++ link_head l :: link_args l argv) = judgeArgv n argv.
Proof.
  intros Hb Hl Ha Hp. rewrite judgeArgv_S, eff_before by (try done; by apply link_stays). pose proof (leads_nonempty _ Ha) as Hne.
  assert (Ht : bool_decide (as_text argv = "") = false).
  { apply bool_decide_eq_false_2. intros E%of_chars_empty. by eapply quoted_words_nonempty. }
  destruct Hl as (_ & Hd & Hs). destruct l as [sh|host|size|d| |name]; cbn [link_head link_args link_word] in *.
  - rewrite <- (judge_text n) by done. unfold judge_program. destruct (shell_word sh Hs) as [_ ->].
    replace (shellScript (sh :: ["-c"; as_text argv])) with (Some (as_text argv)) by (cbn; by rewrite Ht).
    revert Hs. unfold SHELLS at 1. rewrite !elem_of_cons, elem_of_nil. by intros [->|[->|[->|[->|[->|[->|[->|[]]]]]]]].
  - rewrite <- (judge_text n) by done. transitivity (if bool_decide (ssh_remote [host; as_text argv] = "") then [] else judge n (ssh_remote [host; as_text argv])); [done|].
    unfold ssh_remote. cbn [ssh_flags]. rewrite Hd. cbn [drop words_join]. by rewrite Ht.
  - transitivity (judgeArgv n (after (size :: "--" :: argv) 1)); [done|]. unfold after. cbn [from_dash]. rewrite bool_decide_eq_false_2 by (intros ->; done). done.
  - transitivity (judgeArgv n (drop 1 (skip_flags ["-s"; "-k"; "--signal"; "--kill-after"] (d :: argv)))); [done|]. cbn [skip_flags]. by rewrite Hd.
  - transitivity (judgeArgv n (skip_flags ["-i"; "-o"; "-e"] argv)); [done|]. destruct argv as [|w r]; [done|]. cbn [skip_flags]. change (dashed w = false) in Ha. by rewrite Ha.
  - done.
Qed.
Lemma chain_judged n links argv : links_ok links -> leads argv -> plain argv -> judgeArgv (length links + n) (chain links argv) = judgeArgv n argv.
Proof.
  intros Hl Ha Hp. induction Hl as [|[b l] links (Hb & _ & Hok) Hl IH]; [done|]. cbn [chain length Nat.add fst snd] in *.
  rewrite judge_link; [done|done|done|by apply chain_leads|by apply chain_plain].
Qed.
Lemma chain_too_deep n links argv : links_ok links -> leads argv -> plain argv -> (n <= length links)%nat -> judgeArgv n (chain links argv) = [].
Proof.
  revert n. intros n Hl Ha Hp. revert n. induction Hl as [|[b l] links (Hb & _ & Hok) Hl IH]; intros [|n] Hn; cbn in Hn; try done; [lia|]. cbn [chain fst snd] in *.
  rewrite judge_link; [apply IH; lia|done|done|by apply chain_leads|by apply chain_plain].
Qed.

(** ** A container's command *)

(** A flag of [docker] itself, with its value when it takes one. *)
Definition global_ok (g : string * option string) : Prop :=
  dashed g.1 = true /\ (among DOCKER_GLOBAL_VALUE g.1 = match g.2 with Some _ => true | None => false end).
Definition global_words (globals : list (string * option string)) : list string :=
  concat (map (fun g => g.1 :: match g.2 with Some v => [v] | None => [] end) globals).
Definition SUBS : list string := ["run"; "create"; "update"].
(** What [docker] is given: its flags, perhaps [container], the subcommand, its options and the words after them. *)
Definition docker_args (globals : list (string * option string)) (container : bool) (sub : string) (opts : list Opt) (rest : list string) : list string :=
  global_words globals ++ (if container then ["container"] else []) ++ sub :: opt_words opts ++ rest.

Lemma skip_globals globals r : Forall global_ok globals -> skip_flags DOCKER_GLOBAL_VALUE (global_words globals ++ r) = skip_flags DOCKER_GLOBAL_VALUE r.
Proof.
  intros Hg. unfold global_words. induction Hg as [|[f v] globals [Hd Ha] _ IH]; [done|]. cbn [map concat fst snd] in *. rewrite <- app_assoc.
  destruct v; cbn [app skip_flags]; by rewrite Hd, Ha.
Qed.
Lemma docker_reads globals container sub opts rest : Forall global_ok globals -> sub ∈ SUBS -> Forall opt_ok opts -> options_end rest ->
  docker (docker_args globals container sub opts rest)
  = match opt_caps opts with [] => None | found => Some ("a container limit (" +:+ words_join ", " (unique found) +:+ ")") end.
Proof.
  intros Hg Hs Ho Hr. unfold docker, docker_args. rewrite skip_globals by done.
  assert (Hsub : dashed sub = false /\ bool_decide (Some sub = Some "container") = false /\ among ["run"; "create"; "update"] sub = true).
  { unfold SUBS in Hs. rewrite !elem_of_cons, elem_of_nil in Hs. by destruct Hs as [->|[->|[->|[]]]]; vm_compute. }
  destruct Hsub as (H1 & H2 & H3). destruct container; cbn [app].
  - change (skip_flags DOCKER_GLOBAL_VALUE ("container" :: ?r)) with ("container" :: r). cbn [head drop]. rewrite bool_decide_eq_true_2 by done. by rewrite H3, dockerCaps_opts.
  - cbn [skip_flags]. rewrite H1. cbn [head]. by rewrite H2, H3, dockerCaps_opts.
Qed.

Definition demo_opts : list Opt :=
  [LongFlag "--rm"; Letters (to_chars "it"); LettersNext [] "e"%char "JOBS=8"; LongNext "--name" "x"; LongEq "--cpus" "8"; LettersNext (to_chars "i") "m"%char "5g"; LettersJoined [] "c"%char (to_chars "512")].
Lemma demo_opts_ok : Forall opt_ok demo_opts.
Proof.
  repeat (apply Forall_cons; split); try apply Forall_nil; cbn [opt_ok]; unfold long_name, valued_letter, bool_letters; split_and?; try done; try (by vm_compute).
  all: repeat (apply Forall_cons; split; [by vm_compute|]); by apply Forall_nil.
Qed.
Lemma plain_bool ws : forallb (fun w => negb (bool_decide (LT ∈ to_chars w))) ws = true -> plain ws.
Proof. intros Hw. apply Forall_forall. intros w Hin%list_elem_of_In. rewrite forallb_forall in Hw. apply no_lt_bool, negb_true_iff, (Hw _ Hin). Qed.
Definition demo_links : list (list string * Link) := [([], ByTimeout "60"); (["nohup"; "sudo"], ByShell "bash")].

(** ** What gets past the rule *)

(** Five forms hide a cap from the rule, each beside the form it catches: an option of [podman] that takes no value and
    that the table does not know, whose next option counts as its value; the flag of a word the rule reads past, which
    counts as the program; a command given to [heavy] that holds a double dash of its own, where only the words after
    it are read; letters of [systemd-run] in one word; and a command that [xargs] starts. *)
Theorem forms_past_the_cap_rule :
  Forall (fun x => judgeCaps x.1 <> [] /\ judgeCaps x.2 = [])
    [("podman run --cpus 8 img", "podman run --replace --cpus 8 img");
     ("time nice -n 5 make", "time -p nice -n 5 make");
     ("heavy 4 nice -n 5 make", "heavy 4 nice -n 5 npm test -- x");
     ("systemd-run -t -p CPUQuota=50% make", "systemd-run -tp CPUQuota=50% make");
     ("nice -n 5 make", "echo make | xargs nice -n 5")].
Proof. repeat (apply Forall_cons; split; [split; [by vm_compute|by vm_compute]|]). by apply Forall_nil. Qed.
