(* ===== verification/Pm2.v ===== *)
(** * The rule against pm2 with a relative home

    [packages/sieun-rules/src/pm2.ts]: the verdicts on a shell text that runs [pm2] with a relative [PM2_HOME], which the
    text sets in front of the command, earlier as a variable, or by a loop's words; and what it reads of a kernel's
    environment is left to [defaultPm2Home], which only asks the disk.  The code's depth is fuel, as in [Kill].

    The code keeps two maps while it walks a text and hands copies of them to the scripts inside it; here they are
    arguments, and a walk gives back the maps it ends with. *)

From S2P Require Import Prelude Shell.
#[local] Open Scope string_scope.
#[local] Open Scope list_scope.
#[local] Open Scope Z_scope.

Definition PREFIX : string := "global-rules pm2 guard:".
Definition PM2_TAIL : string :=
  "A relative PM2_HOME is a folder under the command's cwd, and pm2 starts an empty God Daemon in a home where none runs: on 10-26 " +:+
  "`PM2_HOME=.cache/pm2-dev pm2 ...` run in apps/virev-demo left one there with no app for two days. Give PM2_HOME the absolute home of the " +:+
  "daemon you mean, such as /Users/sieunpark/Documents/Github/auto-sns-agent/.cache/pm2-dev on the Mac or " +:+
  "/home/sieun/Documents/Github/auto-sns-agent/.cache/pm2-dev on us-metal02.".

(** Whether the command runs the pm2 program: [pm2] by any path, or through npx, pnpm or yarn. *)
Definition runsPm2 (eff : list string) : bool :=
  let name := program eff in
  let rest := List.filter (fun w => negb (dashed w)) (drop 1 eff) in
  if bool_decide (name = "pm2") then true
  else if bool_decide (name = "npx") then bool_decide (program rest = "pm2")
  else if among ["pnpm"; "yarn"] name then
    bool_decide ((if bool_decide (head rest = Some "exec") || bool_decide (head rest = Some "dlx") then head (drop 1 rest) else head rest) = Some "pm2")
  else false.

Definition home_word (w : string) : bool := starts_with (to_chars "PM2_HOME=") (to_chars w).
(** The [PM2_HOME] a command sets in front of its program. *)
Definition homeOf (argv eff : list string) : option string :=
  (fun w => of_chars (drop 9 (to_chars w))) <$> last (List.filter home_word (take (length argv - length eff) argv)).
Definition relative (home : string) : bool :=
  match to_chars home with [] => false | c :: _ => negb (bool_decide (c = "/"%char) || bool_decide (c = "~"%char) || bool_decide (c = "$"%char)) end.
(** The name when the home is one variable. *)
Definition loop_var (home : string) : option string :=
  let l := to_chars home in
  if head_is "$"%char l then
    let l := drop 1 l in
    let l := if head_is "{"%char l then drop 1 l else l in
    let name := take_while word_char l in
    let rest := drop_while word_char l in
    if negb (bool_decide (name = [])) && (bool_decide (rest = []) || bool_decide (rest = ["}"%char])) then Some (of_chars name) else None
  else None.

(** [vars] and [loops]. *)
Record Known := mkKnown { vars : list (string * string); loops : list (string * list string) }.
Definition nothing : Known := mkKnown [] [].

(** The homes a command may run pm2 with: a loop's words, else the one it has, else none. *)
Definition homes_of (k : Known) (argv eff : list string) : list string :=
  let home := match homeOf argv eff with Some h => Some h | None => OMap.get "PM2_HOME" (vars k) end in
  match home with
  | None => []
  | Some h => match match loop_var h with Some x => OMap.get x (loops k) | None => None end with Some ws => ws | None => [h] end
  end.
Definition refuse (argv eff : list string) (bad : string) : Verdict :=
  mkVerdict "pm2" (words_join " " eff)
    (PREFIX +:+ " `" +:+ clip300 (words_join " " argv) +:+ "` runs pm2 with the relative PM2_HOME " +:+ bad +:+ ". " +:+ PM2_TAIL).

(** One command: the verdicts on it, and the maps after it.  A command that only sets variables gives [expandVars] no words. *)
Definition judge_command (judge : Known -> string -> list Verdict) (raw : list string) (k : Known) : list Verdict * Known :=
  let k := match raw with x :: w :: y :: ws => if bool_decide (x = "for") && bool_decide (y = "in") then mkKnown (vars k) (OMap.set w ws (loops k)) else k | _ => k end in
  let '(out, vs) := expandVars [raw] (vars k) in
  let k := mkKnown vs (loops k) in
  match out with
  | [] => ([], k)
  | argv :: _ =>
      let eff := effective argv in
      let name := program eff in
      (if runsPm2 eff then match List.find relative (homes_of k argv eff) with Some bad => [refuse argv eff bad] | None => [] end
       else if bool_decide (name = "ssh") then let remote := ssh_remote (drop 1 eff) in if bool_decide (remote = "") then [] else judge nothing remote
       else if among SHELLS name then match shellScript eff with Some s => judge k s | None => [] end
       else [], k)
  end.
Fixpoint judge_commands (judge : Known -> string -> list Verdict) (cmds : list (list string)) (k : Known) : list Verdict * Known :=
  match cmds with
  | [] => ([], k)
  | raw :: r => let '(out, k) := judge_command judge raw k in let '(more, k) := judge_commands judge r k in (out ++ more, k)
  end.
Fixpoint judge (fuel : nat) (k : Known) (text : string) : list Verdict :=
  match fuel with
  | O => []
  | S f =>
      let x := lex (stripHeredocs text) in
      let '(out, k) := judge_commands (judge f) (commands x) k in
      out ++ concat (map (judge f k) (nested x))
  end.
Definition LEVELS : nat := 7.
Fixpoint says_pm2 (l : chars) : bool := starts_with (to_chars "pm2") l || match l with [] => false | _ :: r => says_pm2 r end.
Definition judgePm2 (text : string) : list Verdict := if says_pm2 (to_chars text) then judge LEVELS nothing text else [].
