(* ===== verification/Pm2Spec.v ===== *)
(** * What the pm2 rule reads as a home

    On a script of plain commands the rule is the walk a reader would do: a variable holds from where it is set, a home in
    front of a command overrides it, and each pm2 command whose home is relative gets one verdict. *)

From S2P Require Import Prelude Shell ShellSpec Pm2.
#[local] Open Scope string_scope.
#[local] Open Scope list_scope.
#[local] Open Scope Z_scope.

(** ** Scripts of plain commands *)

(** A command as it is meant: one that sets a variable for the rest of the script, or one that runs a program, with variables of its own. *)
Inductive Cmd :=
| Assign (export : bool) (name value : string)
| Run (sets : list (string * string)) (prog : string) (args : list string).
Definition set_word (x : string * string) : string := x.1 +:+ "=" +:+ x.2.
Definition words_of (c : Cmd) : list string :=
  match c with
  | Assign export n v => (if export then ["export"] else []) ++ [set_word (n, v)]
  | Run sets prog args => map set_word sets ++ prog :: args
  end.
Definition set_home (n v : string) (home : option string) : option string := if bool_decide (n = "PM2_HOME") then Some v else home.
(** What stands in front of a command wins over what was set before it, and there the last one wins. *)
Definition home_for (sets : list (string * string)) (home : option string) : option string := fold_left (fun h x => set_home x.1 x.2 h) sets home.
(** The verdicts a script should get, from the home set before it on. *)
Fixpoint expected (cmds : list Cmd) (home : option string) : list Verdict :=
  match cmds with
  | [] => []
  | Assign _ n v :: r => expected r (set_home n v home)
  | Run sets prog args as c :: r =>
      match home_for sets home with
      | Some h => if runsPm2 (prog :: args) && relative h then [refuse (words_of c) (prog :: args) h] else []
      | None => []
      end ++ expected r home
  end.

(** A variable's name, and words the shell leaves as they are. *)
Definition name_ok (n : string) : Prop := match to_chars n with c :: r => name_start c = true /\ forallb word_char r = true | [] => False end.
Definition no_dollar (w : string) : Prop := "$"%char ∉ to_chars w.
Definition set_ok (x : string * string) : Prop := name_ok x.1 /\ no_dollar x.2.
(** A program the rule neither reads past nor looks into, and no loop or declaration. *)
Definition prog_ok (w : string) : Prop :=
  runs w = true /\ among (["for"; "export"; "declare"; "local"; "readonly"]) w = false /\ basename w <> "ssh" /\ among SHELLS (basename w) = false.
Definition cmd_ok (c : Cmd) : Prop :=
  match c with
  | Assign _ n v => set_ok (n, v)
  | Run sets prog args => Forall set_ok sets /\ prog_ok prog /\ no_dollar prog /\ Forall no_dollar args
  end.

Lemma word_char_plain c : word_char c = true -> c <> "="%char /\ c <> "$"%char.
Proof. intros Hc. by split; intros ->. Qed.
Lemma name_start_word c : name_start c = true -> word_char c = true.
Proof. unfold word_char. by intros ->. Qed.
Lemma name_plain n : name_ok n -> forallb word_char (to_chars n) = true /\ n <> "".
Proof.
  unfold name_ok. intros Hn. split; [|by intros ->]. destruct (to_chars n) as [|c r]; [done|]. destruct Hn as [Hc Hr]. cbn. by rewrite name_start_word.
Qed.
Lemma set_chars x : to_chars (set_word x) = to_chars x.1 ++ "="%char :: to_chars x.2.
Proof. unfold set_word. rewrite to_chars_app. cbn [to_chars]. by rewrite to_chars_app. Qed.
Lemma name_take n l : name_ok n -> take_while (fun c => negb (is_eq c)) (to_chars n ++ "="%char :: l) = to_chars n /\ drop_while (fun c => negb (is_eq c)) (to_chars n ++ "="%char :: l) = "="%char :: l.
Proof.
  intros [Hn _]%name_plain. apply take_while_app; [|by intros x [= <-]].
  apply forallb_forall. intros c Hc. rewrite forallb_forall in Hn. apply Hn, word_char_plain in Hc as [Hc _]. unfold is_eq. by rewrite bool_decide_eq_false_2.
Qed.
Lemma set_assigns x : set_ok x -> assigns (set_word x) = true.
Proof.
  intros [Hn _]. unfold assigns. rewrite set_chars. revert Hn. unfold name_ok. destruct (to_chars x.1) as [|c r] eqn:E; [done|]. intros [Hc Hr]. cbn [app]. rewrite Hc. cbn [andb].
  destruct (take_while_app word_char r ("="%char :: to_chars x.2)) as [_ ->]; [done|by intros y [= <-]|done].
Qed.
Lemma set_no_dollar x : set_ok x -> no_dollar (set_word x).
Proof.
  intros [[Hn _]%name_plain Hv]. unfold no_dollar. rewrite set_chars, elem_of_app, elem_of_cons. intros [Hin%list_elem_of_In|[Heq|Hin]]; [|done|done].
  rewrite forallb_forall in Hn. by apply Hn, word_char_plain in Hin as [_ ?].
Qed.
Lemma set_var_word vs x : set_ok x -> set_var vs (set_word x) = OMap.set x.1 x.2 vs.
Proof.
  intros [Hn Hv]. unfold set_var. rewrite set_chars. destruct (name_take x.1 (to_chars x.2) Hn) as [-> ->]. rewrite skipn_cons, skipn_O, !of_to_chars. by rewrite sub_plain.
Qed.
Lemma home_word_set x : set_ok x -> home_word (set_word x) = bool_decide (x.1 = "PM2_HOME") /\ (x.1 = "PM2_HOME" -> of_chars (drop 9 (to_chars (set_word x))) = x.2).
Proof.
  intros [Hn _]. unfold home_word. rewrite set_chars. split.
  - case_bool_decide as E; [by rewrite E|]. apply not_true_is_false. intros Hs. apply E.
    destruct (name_take x.1 (to_chars x.2) Hn) as [Ht _].
    apply starts_with_iff in Hs as [r Hr]. rewrite Hr in Ht. cbn in Ht. rewrite <- (of_to_chars x.1), <- Ht. done.
  - intros E. rewrite E. change (drop 9 _) with (to_chars x.2). by rewrite of_to_chars.
Qed.

(** ** One command *)

Lemma homes_in_front sets : Forall set_ok sets ->
  (fun w => of_chars (drop 9 (to_chars w))) <$> last (List.filter home_word (map set_word sets)) = home_for sets None.
Proof.
  unfold home_for. induction sets as [|x sets IH] using rev_ind; [done|]. rewrite Forall_app, Forall_singleton. intros [Hs Hx].
  rewrite map_app, List.filter_app, fold_left_app, <- IH by done. destruct (home_word_set x Hx) as [Hw Hv]. cbn [map fold_left List.filter]. rewrite Hw. unfold set_home.
  case_bool_decide as E; [|by rewrite app_nil_r]. rewrite last_snoc. cbn [fmap option_fmap option_map]. by rewrite Hv.
Qed.
Lemma home_for_none sets home : home_for sets home = match home_for sets None with Some h => Some h | None => home end.
Proof.
  unfold home_for. induction sets as [|x sets IH] using rev_ind; [done|]. rewrite !fold_left_app. cbn [fold_left]. unfold set_home. case_bool_decide; [done|apply IH].
Qed.
Lemma sub_words vs ws : Forall no_dollar ws -> map (sub vs) ws = ws.
Proof. intros Hw. induction Hw as [|w ws Hw _ IH]; [done|]. cbn. by rewrite sub_plain, IH. Qed.
Lemma sets_words sets : Forall set_ok sets -> Forall no_dollar (map set_word sets) /\ Forall (fun w => assigns w = true) (map set_word sets).
Proof. intros Hs. rewrite !Forall_map. split; (eapply Forall_impl; [exact Hs|]); [apply set_no_dollar|apply set_assigns]. Qed.
Lemma prog_facts w : prog_ok w -> assigns w = false /\ effective [w] = [w].
Proof. intros [Hr _]. split; [|by apply effective_runs_id]. unfold runs in Hr. by destruct (assigns w). Qed.

(** The maps the rule keeps, for a script that has set this home. *)
Definition knows (k : Known) (home : option string) : Prop := loops k = [] /\ OMap.get "PM2_HOME" (vars k) = home.
Lemma judge_assign jd k home export n v : set_ok (n, v) -> knows k home ->
  exists k', judge_command jd (words_of (Assign export n v)) k = ([], k') /\ knows k' (set_home n v home).
Proof.
  intros Hx [Hl Hg]. exists (mkKnown (OMap.set n v (vars k)) (loops k)). split.
  - unfold judge_command. cbn [words_of]. assert (E : expandVars [(if export then ["export"] else []) ++ [set_word (n, v)]] (vars k) = ([], OMap.set n v (vars k))).
    { cbn [expandVars]. assert (Hw : (if among ["export"; "declare"; "local"; "readonly"] (default "" (head ((if export then ["export"] else []) ++ [set_word (n, v)])))
        then drop 1 ((if export then ["export"] else []) ++ [set_word (n, v)]) else (if export then ["export"] else []) ++ [set_word (n, v)]) = [set_word (n, v)]).
      { destruct export; [done|]. cbn [app head default from_option id]. pose proof (set_assigns _ Hx) as Ha. unfold among. case_bool_decide as Hin; [|done].
        rewrite !elem_of_cons, elem_of_nil in Hin. destruct Hin as [E|[E|[E|[E|[]]]]]; rewrite E in Ha; by vm_compute in Ha. }
      rewrite Hw. cbn [forallb fold_left]. rewrite set_assigns by done. cbn. by rewrite set_var_word. }
    destruct export; cbn [app] in *; by rewrite E.
  - split; [done|]. cbn [vars]. rewrite OMap.get_set. unfold set_home. case_decide as E; [subst n; by rewrite bool_decide_eq_true_2|]. by rewrite bool_decide_eq_false_2.
Qed.
Lemma run_expands k sets prog args : cmd_ok (Run sets prog args) -> expandVars [words_of (Run sets prog args)] (vars k) = ([words_of (Run sets prog args)], vars k).
Proof.
  intros (Hs & Hp & Hd & Ha). destruct (sets_words sets Hs) as [Hsd Hsa]. destruct (prog_facts prog Hp) as [Hpa _]. destruct Hp as (_ & Hq & _).
  cbn [words_of expandVars]. rewrite (sub_words (vars k)) by (apply Forall_app; by split; [|apply Forall_cons]).
  assert (Hh : among ["export"; "declare"; "local"; "readonly"] (default "" (head (map set_word sets ++ prog :: args))) = false).
  { destruct Hsa as [|w ws Hw _]; cbn [app head default from_option id].
    - apply bool_decide_eq_false in Hq. apply bool_decide_eq_false_2. set_solver.
    - apply bool_decide_eq_false_2. rewrite !elem_of_cons, elem_of_nil. intros [E|[E|[E|[E|[]]]]]; rewrite E in Hw; by vm_compute in Hw. }
  rewrite Hh, forallb_app. cbn [forallb]. rewrite Hpa. cbn [andb]. by rewrite !andb_false_r.
Qed.
Lemma judge_run jd k home sets prog args : cmd_ok (Run sets prog args) -> knows k home ->
  judge_command jd (words_of (Run sets prog args)) k = (expected [Run sets prog args] home, k).
Proof.
  intros Hok [Hl Hg]. pose proof (run_expands k _ _ _ Hok) as He. destruct Hok as (Hs & Hp & _ & _). destruct (sets_words sets Hs) as [_ Hsa].
  assert (Hf : effective (words_of (Run sets prog args)) = prog :: args) by (cbn [words_of]; rewrite effective_assigns by done; apply effective_runs_id, Hp).
  unfold judge_command.
  replace (match words_of (Run sets prog args) with x :: w :: y :: ws => if bool_decide (x = "for") && bool_decide (y = "in") then mkKnown (vars k) (OMap.set w ws (loops k)) else k | _ => k end) with k.
  2: { destruct (words_of _) as [|x [|w [|y ws]]] eqn:E; try done. rewrite (bool_decide_eq_false_2 (x = "for")); [done|]. intros ->. cbn [words_of] in E.
       destruct Hsa as [|z zs Hz _]; injection E as -> _; [by destruct Hp as (_ & Hq & _)|by vm_compute in Hz]. }
  rewrite He. destruct k as [vs ls]. cbn [loops vars] in *. subst ls. rewrite Hf. destruct Hp as (_ & _ & Hssh & Hsh).
  change (program (prog :: args)) with (basename prog). rewrite (bool_decide_eq_false_2 (basename prog = "ssh")) by done. rewrite Hsh. f_equal.
  unfold homes_of, homeOf. cbn [vars loops words_of]. rewrite length_app, Nat.add_sub, length_map. rewrite take_app_length' by (by rewrite length_map). rewrite homes_in_front, Hg by done. cbn [expected].
  rewrite (home_for_none sets home). rewrite app_nil_r. destruct (runsPm2 (prog :: args)); [|by destruct (match home_for sets None with Some h => Some h | None => home end)].
  destruct (match home_for sets None with Some h => Some h | None => home end) as [h|]; [|done]. cbn [andb].
  replace (match match loop_var h with Some x => OMap.get x [] | None => None end with Some ws => ws | None => [h] end) with [h] by (by destruct (loop_var h)).
  cbn. by destruct (relative h).
Qed.

(** ** The hint *)

Definition PM2 : chars := to_chars "pm2".
Definition mentions (l : chars) : Prop := exists a b, l = a ++ PM2 ++ b.
Lemma mentions_says l : mentions l -> says_pm2 l = true.
Proof.
  intros (a & b & ->). induction a as [|c a IH]; [done|]. cbn [app says_pm2]. apply orb_true_iff. by right.
Qed.
Lemma mentions_app a l b : mentions l -> mentions (a ++ l ++ b).
Proof. intros (x & y & ->). exists (a ++ x), (y ++ b). by rewrite <- !app_assoc. Qed.
Lemma mentions_quoted w : mentions (to_chars w) -> mentions (quoted w).
Proof. intros (a & b & E). exists (SQUOTE :: esc a), (esc b ++ [SQUOTE]). unfold quoted. rewrite E, !esc_app. change (esc PM2) with PM2. cbn. by rewrite <- !app_assoc. Qed.
Lemma basename_mentions w : basename w = "pm2" -> mentions (to_chars w).
Proof. intros E. destruct (basename_in w) as (a & b & Hw). rewrite E in Hw. by exists a, b. Qed.
Lemma pm2_word eff : runsPm2 eff = true -> exists w, w ∈ eff /\ mentions (to_chars w).
Proof.
  assert (Hr : forall w n, w ∈ drop n (List.filter (fun w => negb (dashed w)) (drop 1 eff)) -> w ∈ eff).
  { intros w n Hw. assert (Hw' : w ∈ List.filter (fun w => negb (dashed w)) (drop 1 eff)) by (by eapply elem_of_drop_weaken || (rewrite <- (take_drop n (List.filter _ _)), elem_of_app; by right)).
    apply list_elem_of_In, filter_In in Hw' as [Hw'%list_elem_of_In _]. rewrite <- (take_drop 1 eff), elem_of_app. by right. }
  unfold runsPm2. case_bool_decide as E1.
  { intros _. destruct eff as [|w eff]; [done|]. exists w. split; [by left|by apply basename_mentions]. }
  assert (Hone : forall l : list string, (forall w, w ∈ l -> w ∈ eff) -> basename (default "" (head l)) = "pm2" -> exists w, w ∈ eff /\ mentions (to_chars w)).
  { intros l Hl Hb. destruct l as [|w l]; [done|]. exists w. split; [apply Hl; by left|by apply basename_mentions]. }
  case_bool_decide as E2.
  { intros Hb%bool_decide_eq_true. eapply Hone; [|exact Hb]. intros w Hw. by apply (Hr w 0%nat). }
  destruct (among _ _); [|done]. intros Hb%bool_decide_eq_true. set (rest := List.filter _ _) in *.
  destruct (_ || _); [apply (Hone (drop 1 rest)); [by intros w; apply Hr|]|apply (Hone rest); [by intros w; apply (Hr w 0%nat)|]]; by rewrite Hb.
Qed.
Lemma run_mentions sets prog args : runsPm2 (prog :: args) = true -> mentions (quoted_words (words_of (Run sets prog args))).
Proof.
  intros (w & Hw & Hm)%pm2_word. destruct (quoted_words_in w (words_of (Run sets prog args))) as (p & q & ->); [cbn; rewrite elem_of_app; by right|].
  by apply mentions_app, mentions_quoted.
Qed.

(** ** A script *)

Definition script_of (cmds : list (Cmd * chars)) : chars := script (map (fun x => (words_of x.1, x.2)) cmds).
Definition cmds_ok (cmds : list (Cmd * chars)) : Prop := Forall (fun x => cmd_ok x.1 /\ x.2 ∈ SEPARATORS) cmds.
Lemma words_nonempty c : words_of c <> [].
Proof. destruct c as [[] n v|sets prog args]; [done..|]. cbn. by destruct (map set_word sets). Qed.
Lemma cmds_good cmds : cmds_ok cmds -> good_script (map (fun x => (words_of x.1, x.2)) cmds).
Proof. intros Hc. apply Forall_map. eapply Forall_impl; [exact Hc|]. intros [c sep] [_ Hs]. split; [apply words_nonempty|done]. Qed.
Lemma judge_level f k text : judge (S f) k text =
  let x := lex (stripHeredocs text) in let '(out, k) := judge_commands (judge f) (commands x) k in out ++ concat (map (judge f k) (nested x)).
Proof. done. Qed.
Lemma judge_script jd k home cmds : cmds_ok cmds -> knows k home ->
  exists k', judge_commands jd (map (fun x => words_of x.1) cmds) k = (expected (map fst cmds) home, k').
Proof.
  intros Hc. revert k home. induction Hc as [|[c sep] cmds [Hok _] _ IH]; intros k home Hk; [by exists k|]. cbn [map judge_commands fst snd] in *.
  destruct c as [export n v|sets prog args].
  - destruct (judge_assign jd k home export n v Hok Hk) as (k1 & -> & Hk1). destruct (IH k1 _ Hk1) as [k2 ->]. by exists k2.
  - rewrite (judge_run jd k home) by done. destruct (IH k home Hk) as [k2 ->]. exists k2. cbn [expected]. by rewrite app_nil_r.
Qed.
Lemma expected_mentions cmds home : expected (map fst cmds) home <> [] -> mentions (script_of cmds).
Proof.
  revert home. induction cmds as [|[c sep] cmds IH]; intros home; [done|]. cbn [map fst]. intros He.
  change (script_of ((c, sep) :: cmds)) with ((quoted_words (words_of c) ++ sep) ++ script_of cmds).
  destruct c as [export n v|sets prog args]; cbn [expected] in He.
  - rewrite <- (app_nil_r (script_of cmds)). eapply mentions_app, IH, He.
  - destruct (runsPm2 (prog :: args)) eqn:Ep.
    + rewrite <- app_assoc. apply (mentions_app []). by apply run_mentions.
    + rewrite <- (app_nil_r (script_of cmds)). eapply mentions_app, (IH home). by destruct (home_for sets home).
Qed.

(** The rule reads a home as the shell would: on every script of commands that set variables or run programs with
    variables of their own in front, written with quotes and any separators, whose words hold no variable, the verdicts
    are exactly one per command that runs pm2 (by any path, or through npx, pnpm or yarn) with a relative home, in order, where the
    home is the last one in front of the command and else the last one set before it. *)
Theorem pm2_homes_are_read cmds : cmds_ok cmds -> LT ∉ script_of cmds -> judgePm2 (of_chars (script_of cmds)) = expected (map fst cmds) None.
Proof.
  intros Hc Hlt. unfold judgePm2. rewrite to_of_chars. destruct (says_pm2 (script_of cmds)) eqn:Es.
  - change LEVELS with (S 6). rewrite judge_level, strip_text by done. unfold script_of. rewrite lex_alone by (by apply cmds_good). cbn zeta. cbn [commands nested map concat].
    replace (map fst (map (fun x => (words_of x.1, x.2)) cmds)) with (map (fun x => words_of x.1) cmds) by (by rewrite map_map).
    destruct (judge_script (judge 6) nothing None cmds Hc) as [k' Hk]; [done|]. rewrite Hk. apply app_nil_r.
  - destruct (expected (map fst cmds) None) eqn:Ee; [done|]. assert (Hm : mentions (script_of cmds)) by (apply (expected_mentions cmds None); by rewrite Ee).
    by rewrite (mentions_says _ Hm) in Es.
Qed.
Definition demo_cmds : list (Cmd * chars) :=
  [(Assign true "PM2_HOME" "/a", [";"%char]); (Run [] "pm2" ["list"], [NEWLINE]); (Run [("PM2_HOME", ".cache/pm2-dev")] "npx" ["-y"; "pm2"; "jlist"], to_chars "&&");
   (Assign false "PM2_HOME" "x y", [";"%char]); (Run [("A", "1"); ("PM2_HOME", "~/p")] "/usr/bin/pm2" ["kill"], [";"%char]); (Run [] "yarn" ["dlx"; "pm2"; "l"], [";"%char])].
Lemma pm2_homes_are_read_witness : map v_command (judgePm2 (of_chars (script_of demo_cmds))) = ["npx -y pm2 jlist"; "yarn dlx pm2 l"].
Proof.
  rewrite pm2_homes_are_read.
  - reflexivity.
  - assert (Hn : forall n v, name_ok n -> bool_decide ("$"%char ∈ to_chars v) = false -> set_ok (n, v)) by (intros n v H1 H2; split; [done|exact (bool_decide_eq_false_1 _ H2)]).
    assert (Hd : forall w, bool_decide ("$"%char ∈ to_chars w) = false -> no_dollar w) by (intros w H; exact (bool_decide_eq_false_1 _ H)).
    repeat (apply Forall_cons; split); try (by apply Forall_nil); (split; [|by vm_compute; repeat constructor]); cbn [cmd_ok fst]; try (by apply Hn).
    all: split_and!; try (by apply Hd); repeat (apply Forall_cons; split); try (by apply Forall_nil); try (by apply Hd); try (by apply Hn); by vm_compute.
  - rewrite <- (to_of_chars (script_of demo_cmds)). apply no_lt_bool. by vm_compute.
Defined.

(** ** What the rule reads otherwise *)

(** A subshell is read with the variables the whole script ends with, so a home set after it hides its relative one, or
    has it refused for a home it does not run with; and a home in front of a shell does not reach the shell's script. *)
Theorem pm2_homes_read_otherwise :
  Forall (fun x => judgePm2 x.1 <> [] /\ judgePm2 x.2 = [])
    [("export PM2_HOME=a; (pm2 list)", "export PM2_HOME=a; (pm2 list); export PM2_HOME=/b");
     ("export PM2_HOME=/b; (pm2 list); export PM2_HOME=a", "export PM2_HOME=/b; pm2 list; export PM2_HOME=a");
     ("bash -c 'PM2_HOME=a pm2 list'", "PM2_HOME=a bash -c 'pm2 list'");
     ("PM2_HOME=a env -i pm2 list", "PM2_HOME=a env -u X pm2 list")].
Proof. repeat (apply Forall_cons; split; [split; [by vm_compute|by vm_compute]|]). by apply Forall_nil. Qed.
