(* ===== verification/Paths.v ===== *)
(** * Paths of a box

    What the rules that follow a command's folder take from Node's [path] (POSIX) and the home folder: [resolve],
    [dirname], and [expandHome] of [packages/sieun-rules/src/sieun-pi.ts].  A path is kept as the names between its slashes
    while it is resolved. *)

From S2P Require Import Prelude Shell.
#[local] Open Scope string_scope.
#[local] Open Scope list_scope.
#[local] Open Scope Z_scope.

Definition SLASH : Ascii.ascii := "/"%char.
Definition absolute (p : string) : bool := head_is SLASH (to_chars p).
(** The names of a path: what is between its slashes, without the empty ones and the dots. *)
Definition names (p : string) : list chars := List.filter (fun w => negb (bool_decide (w = []) || bool_decide (w = ["."%char]))) (split_on SLASH (to_chars p)).
(** The names after a list of names from the folder [at_], which is innermost first: two dots leave a folder, and nothing leaves the root. *)
Fixpoint walk (at_ : list chars) (ns : list chars) : list chars :=
  match ns with
  | [] => at_
  | n :: r => walk (if bool_decide (n = ["."%char; "."%char]) then drop 1 at_ else n :: at_) r
  end.
Definition path_of (at_ : list chars) : string := match at_ with [] => "/" | _ => of_chars (SLASH :: join_with SLASH (reverse at_)) end.
(** [resolve(base, p)] for an absolute [base]. *)
Definition resolve (base p : string) : string := path_of (walk (if absolute p then [] else walk [] (names base)) (names p)).
(** [dirname] of an absolute path. *)
Definition dirname (p : string) : string :=
  match drop_while not_slash (drop_while (fun c => negb (not_slash c)) (reverse (to_chars p))) with
  | [] | [_] => "/"
  | _ :: r => of_chars (reverse r)
  end.

(** [p.replace(/^(?:~|\$HOME|\$\{HOME\})(?=\/|$)/, homedir())]. *)
Definition HOMES : list string := ["~"; "$HOME"; "${HOME}"].
Definition expandHome (home p : string) : string :=
  let l := to_chars p in
  match List.find (fun h => starts_with (to_chars h) l && (let r := drop (String.length h) l in bool_decide (r = []) || head_is SLASH r)) HOMES with
  | Some h => home +:+ of_chars (drop (String.length h) l)
  | None => p
  end.

(** ** Laws *)

(** A folder as [resolve] leaves it: names without slashes, none of them empty, a dot or two dots. *)
Definition name_ok (n : chars) : Prop := n <> [] /\ n <> ["."%char] /\ n <> ["."%char; "."%char] /\ SLASH ∉ n.
Lemma split_no_sep c l n : n ∈ split_on c l -> c ∉ n.
Proof.
  revert n. induction l as [|d l IH]; intros n; cbn [split_on].
  - intros ->%list_elem_of_singleton. by intros ?%elem_of_nil.
  - case_bool_decide as E; [intros [->|Hin]%elem_of_cons; [by intros ?%elem_of_nil|by apply IH]|].
    destruct (split_on c l) as [|w ws]; [intros ->%list_elem_of_singleton; set_solver|].
    intros [->|Hin]%elem_of_cons; [|apply IH; by right]. intros [<-|Hin]%elem_of_cons; [done|]. revert Hin. apply IH. by left.
Qed.
Lemma names_ok p n : n ∈ names p -> n <> [] /\ n <> ["."%char] /\ SLASH ∉ n.
Proof.
  unfold names. rewrite list_elem_of_In, filter_In, <- list_elem_of_In, negb_true_iff, orb_false_iff, !bool_decide_eq_false. intros (Hin & H1 & H2).
  split_and!; [done|done|]. by eapply split_no_sep.
Qed.
Lemma steps_ok at_ ns : Forall name_ok at_ -> (forall n, n ∈ ns -> n <> [] /\ n <> ["."%char] /\ SLASH ∉ n) -> Forall name_ok (walk at_ ns).
Proof.
  revert at_. induction ns as [|n ns IH]; intros at_ Ha Hn; [done|]. cbn [walk]. apply IH; [|intros m Hm; apply Hn; by right].
  case_bool_decide as E; [by apply Forall_drop|]. apply Forall_cons. split; [|done]. destruct (Hn n) as (H1 & H2 & H3); [by left|]. done.
Qed.
Lemma walk_app at_ a b : walk at_ (a ++ b) = walk (walk at_ a) b.
Proof. revert at_. induction a as [|n a IH]; intros at_; [done|]. cbn [app walk]. apply IH. Qed.
(** The names of a resolved folder lead to it again. *)
Lemma names_path at_ : Forall name_ok at_ -> names (path_of at_) = reverse at_.
Proof.
  intros Ha. assert (Hf : forall ns, Forall name_ok ns -> List.filter (fun w => negb (bool_decide (w = []) || bool_decide (w = ["."%char]))) ns = ns).
  { intros ns Hn. induction Hn as [|n ns (H1 & H2 & _) _ IH]; [done|]. cbn [List.filter]. rewrite !bool_decide_eq_false_2 by done. cbn. by rewrite IH. }
  destruct at_ as [|n at_]; [done|]. unfold path_of, names. rewrite to_of_chars. cbn [split_on]. rewrite bool_decide_eq_true_2 by done.
  rewrite split_join; [|by intros E%(f_equal length); rewrite length_reverse in E|].
  - cbn [List.filter]. rewrite bool_decide_eq_true_2 by done. cbn [orb negb]. apply Hf. by apply Forall_reverse.
  - eapply Forall_impl; [by apply Forall_reverse|]. intros m (_ & _ & _ & Hs). exact Hs.
Qed.
Lemma walk_reverse at_ : Forall name_ok at_ -> walk [] (reverse at_) = at_.
Proof.
  intros Ha. induction Ha as [|n at_ (_ & _ & H & _) _ IH]; [done|]. rewrite reverse_cons, walk_app, IH. cbn [walk]. by rewrite bool_decide_eq_false_2.
Qed.
Lemma resolved_names base p : Forall name_ok (walk (if absolute p then [] else walk [] (names base)) (names p)).
Proof. apply steps_ok; [|by apply names_ok]. destruct (absolute p); [by apply Forall_nil|]. apply steps_ok; [by apply Forall_nil|by apply names_ok]. Qed.
(** Going to a folder and from there to another is going to both. *)
Lemma resolve_resolve base p q : absolute q = false ->
  resolve (resolve base p) q = path_of (walk (walk (if absolute p then [] else walk [] (names base)) (names p)) (names q)).
Proof. intros Hq. unfold resolve at 1. rewrite Hq. unfold resolve. by rewrite names_path, walk_reverse by apply resolved_names. Qed.
(** A folder that was resolved is where it is. *)
Lemma resolve_twice base p : resolve (resolve base p) "." = resolve base p.
Proof. by rewrite resolve_resolve. Qed.
Example resolve_runs : (resolve "/a/b" "../c/./d//", resolve "/a" "/x/..", resolve "/a" "", dirname "/a/b/.git", dirname "/a") = ("/a/c/d", "/", "/a", "/a/b", "/").
Proof. reflexivity. Qed.
