(* ===== verification/SieunPi.v ===== *)
(** * The rule against rewriting history in sieun-pi

    [packages/sieun-rules/src/sieun-pi.ts]: the verdicts on a shell text that force-pushes, resets hard, or rewrites commits a
    remote branch holds, in a checkout of this repository, wherever the text goes with [cd] and git's own flags.  What git
    answers in a folder and the real path of a folder are the box's ([Box]). *)

From S2P Require Import Prelude Shell Paths.
#[local] Open Scope string_scope.
#[local] Open Scope list_scope.
#[local] Open Scope Z_scope.

(** What the rule asks the box: the home folder, this package's own checkout, a folder's real path, and git's trimmed
    output, where a call that fails has none. *)
Class Box := {
  homedir : string;
  SOURCE_ROOT : string;
  realpath : string -> option string;
  git : string -> list string -> option string
}.

(** [ORIGIN.test(url)]: the owner and the name at the end, perhaps with [.git] and a slash. *)
Definition ORIGINS : list string := ["sieu-n/sieun-pi"; "sieu-n/sieun-pi.git"; "sieu-n/sieun-pi/"; "sieu-n/sieun-pi.git/"].
Definition ORIGIN (url : string) : bool := existsb (fun o => ends_with (to_chars ("/" +:+ o)) (to_chars url) || ends_with (to_chars (":" +:+ o)) (to_chars url)) ORIGINS.
Definition REBASE_STEP : list string := ["--continue"; "--abort"; "--skip"; "--quit"; "--edit-todo"; "--show-current-patch"].
Definition REBASE_VALUE_OPTS : list string := ["--onto"; "-s"; "--strategy"; "-X"; "--strategy-option"; "-x"; "--exec"].
Definition PREFIX : string := "global-rules sieun-pi guard:".
Definition SIEUN_PI_TAIL : string :=
  "sieun-pi has one contributor, so its local checkout is ground truth: rebase and amend are fine while " +:+
  "no remote branch holds the commits they rewrite. History already on a remote is never rewritten, and " +:+
  "`git reset --hard` would drop uncommitted work in the checkout.".

Definition begins (p w : string) : bool := starts_with (to_chars p) (to_chars w).
Definition rest_of (p w : string) : string := of_chars (drop (String.length p) (to_chars w)).
(** [/^-[^-]*f/.test(w)]: an f before any second dash. *)
Definition short_f (w : string) : bool := dashed w && existsb (fun c => bool_decide (c = "f"%char)) (take_while (fun c => negb (bool_decide (c = "-"%char))) (drop 1 (to_chars w))).
Definition isForcePush (a : list string) : bool :=
  existsb (fun w => short_f w || among ["--force"; "--force-with-lease"] w || begins "--force-with-lease=" w || begins "+" w) a.

Record GitCall := mkGitCall { targetDir : string; sub : option string; args : list string }.

Section Judge.
Context {B : Box}.

(** [resolve(dir, expandHome(p ?? .))]. *)
Definition go (dir : string) (p : option string) : string := resolve dir (expandHome homedir (default "." p)).
Definition finish (dir : string) (gitDir : option string) (l : list string) : GitCall :=
  mkGitCall (match gitDir with Some g => dirname g | None => dir end) (head l) (drop 1 l).
(** The loop of [parseGit] on the words after [git]. *)
Fixpoint parse_flags (dir : string) (gitDir : option string) (l : list string) : GitCall :=
  match l with
  | [] => finish dir gitDir []
  | a :: r =>
      let next (d : string) (g : option string) := match r with _ :: r' => parse_flags d g r' | [] => finish d g [] end in
      if bool_decide (a = "-C") then next (go dir (head r)) gitDir
      else if among ["-c"; "--config-env"] a then next dir gitDir
      else if bool_decide (a = "--git-dir") then next dir (Some (go dir (head r)))
      else if begins "--git-dir=" a then parse_flags dir (Some (go dir (Some (rest_of "--git-dir=" a)))) r
      else if bool_decide (a = "--work-tree") then next (go dir (head r)) gitDir
      else if begins "--work-tree=" a then parse_flags (go dir (Some (rest_of "--work-tree=" a))) gitDir r
      else if dashed a then parse_flags dir gitDir r
      else finish dir gitDir l
  end.
Definition parseGit (eff : list string) (cwd : string) : GitCall := parse_flags cwd None (drop 1 eff).

Definition isSieunPi (dir : string) : bool :=
  match git dir ["rev-parse"; "--show-toplevel"] ≫= realpath with
  | None => false
  | Some top =>
      bool_decide (realpath SOURCE_ROOT = Some top)
      || match git dir ["remote"; "get-url"; "origin"] with Some url => ORIGIN url | None => false end
  end.

(** The revisions [git rebase] rewrites. *)
Definition rebaseRange (args : list string) : list string :=
  let p := positionals args REBASE_VALUE_OPTS in
  if among args "--root" then [default "HEAD" (head p)]
  else [default "@{upstream}" (head p) +:+ ".." +:+ default "HEAD" (head (drop 1 p))].
(** Whether a remote branch holds one of them, when git can tell. *)
Definition onRemote (dir : string) (range : list string) : option bool :=
  all ← git dir (["rev-list"; "--count"] ++ range);
  mine ← git dir (["rev-list"; "--count"] ++ range ++ ["--not"; "--remotes"]);
  Some (negb (bool_decide (all = mine))).

Definition unproven (sub : option string) : string := "`git " +:+ default "undefined" sub +:+ "`: could not prove the rewritten commits are on no remote branch".
Definition judgeGit (eff : list string) (cwd : string) : option string :=
  let c := parseGit eff cwd in
  let sub_is (s : string) := bool_decide (sub c = Some s) in
  let rebase := sub_is "rebase" && negb (existsb (among REBASE_STEP) (args c)) in
  let amend := sub_is "commit" && among (args c) "--amend" in
  let force := sub_is "push" && isForcePush (args c) in
  let hard := sub_is "reset" && among (args c) "--hard" in
  if negb (rebase || amend || force || hard) || negb (isSieunPi (targetDir c)) then None
  else if force then Some "`git push --force` in sieun-pi"
  else if hard then Some "`git reset --hard` in sieun-pi"
  else if amend then
    match git (targetDir c) ["branch"; "-r"; "--contains"; "HEAD"] with
    | Some out => if bool_decide (out = "") then None else Some "`git commit --amend`: HEAD is already on a remote branch"
    | None => Some (unproven (sub c))
    end
  else match onRemote (targetDir c) (rebaseRange (args c)) with
       | Some on => if on then Some "`git rebase`: it rewrites commits already on a remote branch" else None
       | None => Some (unproven (sub c))
       end.

(** Where the words [cd] leave the script, when they name a folder. *)
Definition moves (eff : list string) : option string :=
  match eff with
  | c :: d :: _ => if bool_decide (basename c = "cd") && negb (bool_decide (d = "")) && negb (dashed d) then Some d else None
  | _ => None
  end.
Definition runs_git (eff : list string) : bool :=
  match eff with w :: _ => bool_decide (basename w = "git") || ends_with (to_chars "/git") (to_chars w) | [] => false end.
Definition refuse (eff : list string) (reason : string) : Verdict :=
  mkVerdict "sieun-pi" (words_join " " eff) (PREFIX +:+ " " +:+ reason +:+ ". " +:+ SIEUN_PI_TAIL).
(** One command: its verdicts and the folder after it; [inner] collects the script of a shell, one level deeper. *)
Definition collect_command (inner : string -> string -> list Verdict) (argv : list string) (running : string) : list Verdict * string :=
  let eff := effective argv in
  match moves eff with
  | Some d => ([], resolve running (expandHome homedir d))
  | None =>
      (if runs_git eff then match judgeGit eff running with Some reason => [refuse eff reason] | None => [] end
       else match eff with
            | [] => []
            | w :: _ => if among SHELLS (basename w) then match shellScript eff with Some s => inner s running | None => [] end else []
            end, running)
  end.
Fixpoint collect_commands (inner : string -> string -> list Verdict) (cmds : list (list string)) (running : string) : list Verdict * string :=
  match cmds with
  | [] => ([], running)
  | argv :: r =>
      let '(out, running) := collect_command inner argv running in
      let '(more, running) := collect_commands inner r running in (out ++ more, running)
  end.
Fixpoint collect (fuel : nat) (command cwd : string) : list Verdict :=
  match fuel with
  | O => []
  | S f => let x := lex command in (collect_commands (collect f) (commands x) cwd).1 ++ concat (map (fun inner => collect f inner cwd) (nested x))
  end.
Definition LEVELS : nat := 5.
Definition judgeSieunPi (text cwd : string) : list Verdict := collect LEVELS (stripHeredocs text) cwd.
End Judge.
