(* ===== verification/SieunPiSpec.v ===== *)
(** * History on a remote is kept

    A script the rule lets pass rewrites no commit that a remote branch holds: each of its git commands is judged in the
    folder it runs in, as [cd] and git's flags lead to it, at the top or in shells inside shells. *)

From S2P Require Import Prelude Shell ShellSpec Paths SieunPi.
#[local] Open Scope string_scope.
#[local] Open Scope list_scope.
#[local] Open Scope Z_scope.

(** What git's answers mean: the commits a range names in a checkout, those remote branches hold, and the last one. *)
Class GitLaws `{Box} := {
  commits_of : string -> list string -> gset string;
  held : string -> gset string;
  head_of : string -> string;
  count_law : forall d range out, "--not" ∉ range -> git d (["rev-list"; "--count"] ++ range) = Some out -> out = string_of_Z (Z.of_nat (size (commits_of d range)));
  count_not_law : forall d range out, "--not" ∉ range -> git d (["rev-list"; "--count"] ++ range ++ ["--not"; "--remotes"]) = Some out ->
    out = string_of_Z (Z.of_nat (size (commits_of d range ∖ held d)));
  contains_law : forall d out, git d ["branch"; "-r"; "--contains"; "HEAD"] = Some out -> (out = "" <-> head_of d ∉ held d)
}.

Section Spec.
Context `{GitLaws}.

(** A git command that leaves what remote branches hold, in this repository's checkouts. *)
Definition keeps_history (c : GitCall) : Prop :=
  isSieunPi (targetDir c) = true ->
  (sub c = Some "push" -> isForcePush (args c) = false)
  /\ (sub c = Some "reset" -> "--hard" ∉ args c)
  /\ (sub c = Some "commit" -> "--amend" ∈ args c -> head_of (targetDir c) ∉ held (targetDir c))
  /\ (sub c = Some "rebase" -> Forall (fun a => a ∉ REBASE_STEP) (args c) -> commits_of (targetDir c) (rebaseRange (args c)) ## held (targetDir c)).

Lemma same_count (a b : gset string) : string_of_Z (Z.of_nat (size a)) = string_of_Z (Z.of_nat (size (a ∖ b))) -> a ## b.
Proof.
  unfold string_of_Z. intros E%(inj pretty)%Nat2Z.inj. assert (Hs : a ∖ b ⊆ a) by set_solver.
  apply set_subseteq_size_eq in Hs; [set_solver|lia].
Qed.
Lemma last_plain (a b : string) : to_chars (a +:+ ".." +:+ b) <> to_chars "--not".
Proof.
  rewrite to_chars_app. cbn [to_chars]. rewrite to_chars_app. intros E.
  assert (Hin : "."%char ∈ to_chars "--not") by (rewrite <- E; set_solver).
  exact (bool_decide_eq_false_1 _ (eq_refl : bool_decide ("."%char ∈ to_chars "--not") = false) Hin).
Qed.
Lemma positionals_plain l valued w : w ∈ positionals l valued -> dashed w = false.
Proof.
  remember (length l) as n eqn:Hn. revert l Hn. induction (lt_wf n) as [n _ IH]. intros l ->. destruct l as [|x r]; [by intros ?%elem_of_nil|]. cbn [positionals].
  destruct (among valued x).
  - destruct r as [|y r']; [by intros ?%elem_of_nil|]. intros Hw. (eapply IH; [|done|exact Hw]). cbn. lia.
  - rewrite elem_of_app. intros [Hw|Hw]; [|eapply IH; [|done|exact Hw]; cbn; lia]. destruct (dashed x) eqn:E; [by apply elem_of_nil in Hw|]. by apply list_elem_of_singleton in Hw as ->.
Qed.
(** No range asks git to leave commits out. *)
Lemma range_plain l : "--not" ∉ rebaseRange l.
Proof.
  unfold rebaseRange. destruct (among l "--root"); rewrite list_elem_of_singleton.
  - destruct (positionals l REBASE_VALUE_OPTS) as [|w ws] eqn:E; [done|]. cbn. intros <-. assert (Hw : dashed "--not" = false) by (eapply positionals_plain; rewrite E; by left). done.
  - intros E%(f_equal to_chars). by eapply last_plain.
Qed.
Lemma onRemote_false d l : onRemote d (rebaseRange l) = Some false -> commits_of d (rebaseRange l) ## held d.
Proof.
  unfold onRemote. destruct (git d (["rev-list"; "--count"] ++ rebaseRange l)) as [all|] eqn:Ea; [|done].
  destruct (git d (["rev-list"; "--count"] ++ rebaseRange l ++ ["--not"; "--remotes"])) as [mine|] eqn:Em; [|done].
  intros [= E]. apply negb_false_iff, bool_decide_eq_true in E as <-.
  apply count_law in Ea; [|apply range_plain]. apply count_not_law in Em; [|apply range_plain]. apply same_count. by rewrite <- Ea, <- Em.
Qed.

Lemma judgeGit_passes eff cwd : judgeGit eff cwd = None -> keeps_history (parseGit eff cwd).
Proof.
  unfold judgeGit, keeps_history. set (c := parseGit eff cwd). intros Hj Hs. rewrite Hs in Hj. cbn [negb] in Hj. rewrite orb_false_r in Hj.
  destruct (bool_decide (sub c = Some "push") && isForcePush (args c)) eqn:Ef; [rewrite !orb_true_r in Hj; cbn in Hj; by rewrite ?orb_true_r in Hj|].
  destruct (bool_decide (sub c = Some "reset") && among (args c) "--hard") eqn:Eh; [rewrite !orb_true_r in Hj; by cbn in Hj|]. rewrite !orb_false_r in Hj.
  split_and!.
  - intros E. by rewrite E in Ef.
  - intros E Hin. rewrite E in Eh. unfold among in Eh. by rewrite (bool_decide_eq_true_2 ("--hard" ∈ args c)) in Eh.
  - intros E Hin. rewrite E in Hj. unfold among in Hj. rewrite (bool_decide_eq_true_2 ("--amend" ∈ args c)) in Hj by done.
    rewrite (bool_decide_eq_true_2 (Some "commit" = Some "commit")), (bool_decide_eq_false_2 (Some "commit" = Some "rebase")) in Hj by done. cbn [andb orb negb] in Hj.
    destruct (git (targetDir c) _) as [out|] eqn:Eg; [|done]. apply contains_law in Eg. case_bool_decide as Eo; [|done]. by apply Eg.
  - intros E Hst. rewrite E in Hj. replace (existsb (among REBASE_STEP) (args c)) with false in Hj.
    + rewrite (bool_decide_eq_true_2 (Some "rebase" = Some "rebase")), (bool_decide_eq_false_2 (Some "rebase" = Some "commit")) in Hj by done. cbn [andb orb negb] in Hj. destruct (onRemote _ _) as [[]|] eqn:Eo; try done. by apply onRemote_false.
    + symmetry. apply not_true_is_false. intros (a & Ha%list_elem_of_In & Hm%bool_decide_eq_true)%existsb_exists. rewrite Forall_forall in Hst. by apply (Hst a).
Qed.

(** ** Scripts *)

(** The commands of a script that go nowhere, each with the folder it runs in. *)
Fixpoint places (cwd : string) (cmds : list (list string)) : list (list string * string) :=
  match cmds with
  | [] => []
  | argv :: r =>
      match moves (effective argv) with
      | Some d => places (resolve cwd (expandHome homedir d)) r
      | None => (effective argv, cwd) :: places cwd r
      end
  end.
Lemma commands_keep inner cmds cwd eff dir : (collect_commands inner cmds cwd).1 = [] -> (eff, dir) ∈ places cwd cmds -> runs_git eff = true -> keeps_history (parseGit eff dir).
Proof.
  revert cwd. induction cmds as [|argv cmds IH]; intros cwd; [by intros _ ?%elem_of_nil|]. cbn [collect_commands places]. unfold collect_command.
  destruct (moves (effective argv)) as [d|]; [|intros Hc Hin Hg].
  - specialize (IH (resolve cwd (expandHome homedir d))). destruct (collect_commands _ _ _) as [more k]. cbn [fst app] in *. exact IH.
  - specialize (IH cwd). destruct (collect_commands inner cmds cwd) as [more k]. cbn [fst] in *. apply app_nil in Hc as [Hc Hm].
    apply elem_of_cons in Hin as [[= -> ->]|Hin]; [|by apply IH]. rewrite Hg in Hc. apply judgeGit_passes. by destruct (judgeGit _ _).
Qed.
Lemma collect_shell f sh t cwd : sh ∈ SHELLS -> t <> [] -> collect (S f) (of_chars (quoted_words [sh; "-c"; of_chars t])) cwd = collect f (of_chars t) cwd.
Proof.
  intros Hsh Ht. cbn [collect]. rewrite lex_last_command by done. cbn [commands nested collect_commands map concat]. rewrite app_nil_r.
  unfold collect_command.
  assert (Hr : runs sh = true /\ moves [sh; "-c"; of_chars t] = None /\ runs_git [sh; "-c"; of_chars t] = false /\ among SHELLS (basename sh) = true).
  { unfold moves, runs_git. revert Hsh. unfold SHELLS at 1. rewrite !elem_of_cons, elem_of_nil. by intros [->|[->|[->|[->|[->|[->|[->|[]]]]]]]]; vm_compute. }
  destruct Hr as (Hr & Hm & Hg & Hs). rewrite effective_runs_id, Hm, Hg, Hs by done.
  unfold shellScript. cbn [drop after_c]. change (c_flag "-c") with true. cbn iota. rewrite bool_decide_eq_false_2; [|by intros ?%of_chars_empty].
  cbn [fst]. by rewrite app_nil_r.
Qed.
Lemma collect_wrapped shells f t cwd : Forall (fun sh => sh ∈ SHELLS) shells -> t <> [] ->
  collect (length shells + f) (of_chars (wrapped shells t)) cwd = collect f (of_chars t) cwd.
Proof.
  intros Hs Ht. induction Hs as [|sh shells Hsh Hs IH]; [done|]. cbn [wrapped length Nat.add]. rewrite collect_shell; [done|done|by apply wrapped_nonempty].
Qed.

End Spec.

(** ** A box *)

Definition demo_root : string := "/home/u/src/sieun-pi".
Definition demo_commits (d : string) (range : list string) : gset string := if decide (range = ["main..HEAD"]) then {["c3"]} else {["c1"; "c2"; "c3"]}.
Definition demo_held (d : string) : gset string := {["c1"; "c2"]}.
(** A checkout two of whose three commits a remote branch holds; no other folder is one. *)
#[local] Instance demo_box : Box := {
  homedir := "/home/u"; SOURCE_ROOT := demo_root; realpath := Some;
  git d l :=
    if bool_decide (d = demo_root) then
      match l with
      | "rev-list" :: "--count" :: r =>
          Some (string_of_Z (Z.of_nat (size (if decide ("--not" ∈ r) then demo_commits d (take (length r - 2) r) ∖ demo_held d else demo_commits d r))))
      | ["rev-parse"; "--show-toplevel"] => Some d
      | ["branch"; "-r"; "--contains"; "HEAD"] => Some ""
      | _ => None
      end
    else None
}.
#[local] Program Instance demo_laws : GitLaws := { commits_of := demo_commits; held := demo_held; head_of _ := "c3" }.
Next Obligation. intros d range out Hr. cbn. case_bool_decide; [|done]. intros [= <-]. by destruct (decide ("--not" ∈ range)). Qed.
Next Obligation.
  intros d range out Hr. cbn. case_bool_decide; [|done]. intros [= <-]. destruct (decide _) as [_|Hn]; [|destruct Hn; set_solver].
  rewrite length_app. cbn [length]. rewrite Nat.add_sub. by rewrite take_app_length.
Qed.
Next Obligation. intros d out. cbn. case_bool_decide; [|done]. intros [= <-]. split; [intros _; unfold demo_held; set_solver|done]. Qed.

Definition demo_rebase : list (list string * chars) := [(["cd"; "~/src"], to_chars "&&"); (["git"; "-C"; "sieun-pi"; "rebase"; "main"], [";"%char]); (["ls"], [NEWLINE])].

(** ** What the rule reads otherwise *)

(** A subshell is judged in the folder the session started in, not in the one [cd] led to, so the same command passes
    between parentheses, and one that runs in another folder is refused there. *)
Theorem subshell_forgets_the_folder :
  judgeSieunPi "cd ~/src/sieun-pi && git reset --hard" "/tmp" <> []
  /\ judgeSieunPi "cd ~/src/sieun-pi && (git reset --hard)" "/tmp" = []
  /\ judgeSieunPi "(cd ~/src/sieun-pi && git reset --hard)" "/tmp" <> []
  /\ judgeSieunPi "cd /tmp && (git reset --hard)" "/home/u/src/sieun-pi" <> [].
Proof. split_and!; by vm_compute. Qed.
