(* ===== verification/Walk.v ===== *)
(** * The rule against walks of home and of the wiki content

    [packages/sieun-rules/src/walk.ts]: the verdicts on a shell text whose [find], [rg] or recursive [grep] walks all of home,
    the wiki content root, or a folder that holds one of them.  The real path of a path and the content root a
    configuration names are the box's ([Disk]). *)

From S2P Require Import Prelude Shell Paths.
#[local] Open Scope string_scope.
#[local] Open Scope list_scope.
#[local] Open Scope Z_scope.

(** The home folder, the process's own, a path's real path when it is there, and the content root that wiki.json names. *)
Class Disk := {
  homedir : string;
  process_cwd : string;
  realpath : string -> option string;
  configured_root : option string
}.

Definition PREFIX : string := "global-rules wiki walk guard:".
Definition WALK_TAIL : string :=
  "Owner rule 6: never walk all of home or the wiki content root, which holds about 100 GB of sessions/ and agents/; on 11-04 two wiki " +:+
  "jobs' recursive globs of it held a pool slot and a CPU for 56 and 24 min. Walk only the folder you need. For wiki pages, ask the wiki " +:+
  "API: `httpx.get(wiki.base_url() + '/wiki/api/agent/find', params={'glob': 'apps/**'}).json()['results']` lists the pages of one " +:+
  "curated folder, and `/wiki/api/agent/grep` with `params={'pattern': 'mermaid', 'glob': 'apps/**', 'context': 0}` returns one row per " +:+
  "matching line with its `path`; run each for apps/**, domains/**, projects/** and experiments/**. On disk on us-metal02, walk one " +:+
  "curated folder at a time, such as `glob.glob(os.path.expanduser('~/.pi/wiki/content/apps/**/*.html'), recursive=True)` or `rg -l " +:+
  "mermaid ~/.pi/wiki/content/apps ~/.pi/wiki/content/domains ~/.pi/wiki/content/projects ~/.pi/wiki/content/experiments`. For home, " +:+
  "name the folder you mean, such as `rg -l x ~/src/sieun-pi` or `find ~/.config -name auth.json`, or list it with `find ~ -maxdepth 3`.".
Definition SHALLOW : Z := 3.
Definition HINT : list string := ["find"; "rg"; "grep"; "egrep"; "fgrep"].
Definition MAGIC (l : chars) : bool := existsb (fun c => bool_decide (c = "*"%char) || bool_decide (c = "?"%char) || bool_decide (c = "["%char)) l.

(** ** Flags of rg and grep *)

Definition RG_VALUE : list string :=
  ["-A"; "-B"; "-C"; "-e"; "-f"; "-g"; "-m"; "-M"; "-r"; "-t"; "-T"; "-j"; "-d"; "-E";
   "--after-context"; "--before-context"; "--context"; "--regexp"; "--file"; "--glob"; "--iglob"; "--max-count"; "--max-columns";
   "--replace"; "--type"; "--type-not"; "--threads"; "--max-depth"; "--maxdepth"; "--encoding"; "--type-add"; "--type-clear";
   "--ignore-file"; "--sort"; "--sortr"; "--color"; "--colors"; "--context-separator"; "--field-context-separator";
   "--field-match-separator"; "--path-separator"; "--max-filesize"; "--dfa-size-limit"; "--regex-size-limit"; "--engine"; "--pre";
   "--pre-glob"; "--hostname-bin"; "--hyperlink-format"; "--generate"].
Definition GREP_VALUE : list string :=
  ["-e"; "-f"; "-m"; "-A"; "-B"; "-C"; "-d"; "-D";
   "--regexp"; "--file"; "--max-count"; "--after-context"; "--before-context"; "--context"; "--include"; "--exclude";
   "--exclude-from"; "--exclude-dir"; "--label"; "--color"; "--colour"; "--binary-files"; "--devices"; "--directories";
   "--group-separator"].

Record Parsed := mkParsed { positional : list string; flags : list (string * string) }.
Definition with_flag (k v : string) (p : Parsed) : Parsed := mkParsed (positional p) (OMap.set k v (flags p)).
Definition with_word (w : string) (p : Parsed) : Parsed := mkParsed (positional p ++ [w]) (flags p).
Definition starts (p w : string) : bool := starts_with (to_chars p) (to_chars w).
(** [a.slice(0, eq)] and [a.slice(eq + 1)] at the first sign. *)
Definition cut_eq (w : string) : option (string * string) :=
  match drop_while (fun c => negb (is_eq c)) (to_chars w) with
  | _ :: r => Some (of_chars (take_while (fun c => negb (is_eq c)) (to_chars w)), of_chars r)
  | [] => None
  end.
(** The letters of a short option from the second on: the flags they set, and the letter whose value is the next word. *)
Fixpoint letter_flags (values : list string) (letters : chars) (p : Parsed) : Parsed * option string :=
  match letters with
  | [] => (p, None)
  | c :: r =>
      let flag := of_chars ["-"%char; c] in
      if among values flag then match r with [] => (p, Some flag) | _ => (with_flag flag (of_chars r) p, None) end
      else letter_flags values r (with_flag flag "" p)
  end.
Fixpoint parse_from (values : list string) (args : list string) (p : Parsed) : Parsed :=
  match args with
  | [] => p
  | a :: r =>
      let next (flag : string) (p : Parsed) := match r with v :: r' => parse_from values r' (with_flag flag v p) | [] => with_flag flag "" p end in
      if bool_decide (a = "--") then mkParsed (positional p ++ r) (flags p)
      else if starts "--" a then
        match cut_eq a with
        | Some (k, v) => parse_from values r (with_flag k v p)
        | None => if among values a then next a p else parse_from values r (with_flag a "" p)
        end
      else if dashed a && (1 <? String.length a)%nat then
        match letter_flags values (drop 1 (to_chars a)) p with
        | (p, Some flag) => next flag p
        | (p, None) => parse_from values r p
        end
      else parse_from values r (with_word a p)
  end.
Definition parse (args values : list string) : Parsed := parse_from values args (mkParsed [] []).
Definition flag (k : string) (p : Parsed) : option string := OMap.get k (flags p).
Definition has_flag (k : string) (p : Parsed) : bool := OMap.has k (flags p).

Definition shallow (value : option string) : bool :=
  match value with
  | Some v => negb (bool_decide (v = "")) && forallb is_digit (to_chars v) && (digits_value (to_chars v) <=? SHALLOW)
  | None => false
  end.

(** ** The folders a command walks *)

(** [/^-(?:[HLP]|O\d* |D)$/] without the blank. *)
Definition find_option (w : string) : bool :=
  match to_chars w with
  | d :: c :: r => bool_decide (d = "-"%char)
      && (among ["-H"; "-L"; "-P"; "-D"] w || (bool_decide (c = "O"%char) && forallb is_digit r))
  | _ => false
  end.
Fixpoint after_options (args : list string) : list string :=
  match args with
  | w :: r => if find_option w then (if bool_decide (w = "-D") then match r with _ :: r' => after_options r' | [] => [] end else after_options r) else args
  | [] => []
  end.
Definition expression (w : string) : bool := match to_chars w with c :: _ => bool_decide (c ∈ ["-"%char; "("%char; "!"%char; ","%char]) | [] => false end.
Definition or_here (paths : list string) : list string := match paths with [] => ["."] | _ => paths end.
Definition patterned (p : Parsed) : bool := has_flag "-e" p || has_flag "--regexp" p || has_flag "-f" p || has_flag "--file" p.
Definition roots (name : string) (args : list string) (piped : bool) : list string :=
  if bool_decide (name = "find") then
    let paths := take_while (fun w => negb (expression w)) (after_options args) in
    if match find_index (fun a => bool_decide (a = "-maxdepth")) args with Some d => shallow (args !! S d) | None => false end then [] else or_here paths
  else if bool_decide (name = "rg") then
    let p := parse args RG_VALUE in
    if shallow (orelse (flag "--max-depth" p) (orelse (flag "--maxdepth" p) (flag "-d" p))) then []
    else
      let listing := has_flag "--files" p || has_flag "--type-list" p in
      let paths := if listing || patterned p then positional p else drop 1 (positional p) in
      match paths with [] => if piped && negb listing then [] else ["."] | _ => paths end
  else if among ["grep"; "egrep"; "fgrep"] name then
    let p := parse args GREP_VALUE in
    let recursive := has_flag "-r" p || has_flag "-R" p || has_flag "--recursive" p || has_flag "--dereference-recursive" p
                     || bool_decide (flag "-d" p = Some "recurse") || bool_decide (flag "--directories" p = Some "recurse") in
    if recursive then or_here (if patterned p then positional p else drop 1 (positional p)) else []
  else [].

Section Judge.
Context {D : Disk}.

(** ** What a folder holds *)

Definition real (path : string) : string := default (resolve process_cwd path) (realpath path).
(** [root.replace(/^~(?=\/|$)/, home)]. *)
Definition home_first (home p : string) : string :=
  match to_chars p with c :: r => if bool_decide (c = "~"%char) && (bool_decide (r = []) || head_is SLASH r) then home +:+ of_chars r else p | [] => p end.
Definition contentRoot (home : string) : string :=
  match configured_root with
  | Some root => real (home_first home root)
  | None => real (resolve home ".pi/wiki/content")
  end.
Definition holds (outer inner : string) : bool :=
  bool_decide (inner = outer) || starts_with (to_chars (if ends_with [SLASH] (to_chars outer) then outer else outer +:+ "/")) (to_chars inner).
Definition walkRoot (path : string) : option string :=
  let home := real homedir in
  let content := contentRoot home in
  let at_ := real path in
  if bool_decide (at_ = content) then Some ("wiki content root " +:+ content)
  else if holds at_ home then Some ("home " +:+ home)
  else if holds at_ content then Some ("folder " +:+ at_ +:+ ", which holds the wiki content root " +:+ content)
  else None.

(** [$HOME] and [${HOME}] before a slash or the end, wherever they stand. *)
Definition home_at (l : chars) : option nat :=
  let r := drop 1 l in
  let b := if head_is "{"%char r then 1%nat else 0%nat in
  let r := drop b r in
  if head_is "$"%char l && starts_with (to_chars "HOME") r then
    let r := drop 4 r in
    let e := if head_is "}"%char r then 1%nat else 0%nat in
    let r := drop e r in
    if bool_decide (r = []) || head_is SLASH r then Some (5 + b + e)%nat else None
  else None.
Fixpoint home_chars (skip : nat) (l : chars) : chars :=
  match l with
  | [] => []
  | c :: r =>
      match skip with
      | S k => home_chars k r
      | O => match home_at l with Some n => to_chars homedir ++ home_chars (pred n) r | None => c :: home_chars 0 r end
      end
  end.
(** The folder a word walks: up to its first part with a pattern, when that part is stars only. *)
Definition wordPath (word cwd : string) : option string :=
  let expanded := home_chars 0 (to_chars (home_first homedir word)) in
  if bool_decide ("$"%char ∈ expanded) then None
  else
    let parts := split_on SLASH expanded in
    match find_index MAGIC parts with
    | None => Some (resolve cwd (of_chars expanded))
    | Some m =>
        if bool_decide (default [] (parts !! m) ∈ [["*"%char]; ["*"%char; "*"%char]]) then
          let front := of_chars (join_with SLASH (take m parts)) in
          Some (resolve cwd (if bool_decide (front = "") then (if head_is SLASH expanded then "/" else ".") else front))
        else None
    end.

(** ** Verdicts *)

Definition refuse (eff : list string) (what : string) : Verdict :=
  let command := words_join " " eff in
  mkVerdict "walk" command (PREFIX +:+ " `" +:+ clip300 command +:+ "` walks the whole " +:+ what +:+ ". " +:+ WALK_TAIL).
(** The first of the words that walks too much. *)
Fixpoint first_whole (cwd : string) (words : list string) : option string :=
  match words with
  | [] => None
  | w :: r => match wordPath w cwd ≫= walkRoot with Some what => Some what | None => first_whole cwd r end
  end.
(** [/\|/] once the double bars are taken out. *)
Fixpoint piped_in (l : chars) : bool :=
  match l with
  | [] => false
  | c :: r => if bool_decide (c = "|"%char) then match r with d :: r' => if bool_decide (d = "|"%char) then piped_in r' else true | [] => true end else piped_in r
  end.
Definition judge_command (inner : string -> list Verdict) (cwd : string) (piped : bool) (raw : list string) : list Verdict :=
  let eff := effective raw in
  let name := program eff in
  let args := drop 1 eff in
  if bool_decide (name = "timeout") then
    let rest := List.filter (fun a => negb (dashed a)) args in
    if (1 <? length rest)%nat then inner (words_join " " (drop 1 rest)) else []
  else if among SHELLS name then match shellScript eff with Some s => inner s | None => [] end
  else match first_whole cwd (roots name args piped) with Some what => [refuse eff what] | None => [] end.
Fixpoint judge (fuel : nat) (text cwd : string) : list Verdict :=
  match fuel with
  | O => []
  | S f =>
      let clean := stripHeredocs text in
      let x := lex clean in
      concat (map (judge_command (fun t => judge f t cwd) cwd (piped_in (to_chars clean))) (expandVars (commands x) []).1) ++ concat (map (fun t => judge f t cwd) (nested x))
  end.
Definition LEVELS : nat := 7.
Definition judgeWalk (text cwd : string) : list Verdict := if hinted HINT None (to_chars text) then judge LEVELS text cwd else [].
End Judge.
