(* ===== verification/WalkSpec.v ===== *)
(** * What the walk rule lets pass

    A folder is a whole walk exactly when home or the wiki content root lies in it or is it; a script the rule lets pass
    walks no such folder with the words it names, in whatever script of a shell they stand; and the forms that hide one. *)

From S2P Require Import Prelude Shell ShellSpec Paths Walk.
#[local] Open Scope string_scope.
#[local] Open Scope list_scope.
#[local] Open Scope Z_scope.

(** ** Folders in folders *)

(** The folder [b] is [a] or lies in it; both innermost first. *)
Definition inside (a b : list chars) : Prop := a `suffix_of` b.
Lemma path_chars at_ : at_ <> [] -> to_chars (path_of at_) = SLASH :: join_with SLASH (reverse at_).
Proof. destruct at_; [done|]. intros _. unfold path_of. by rewrite to_of_chars. Qed.
Lemma join_app c a b : a <> [] -> b <> [] -> join_with c (a ++ b) = join_with c a ++ c :: join_with c b.
Proof.
  intros Ha Hb. induction a as [|x a IH]; [done|]. destruct a as [|y a].
  - cbn [app]. destruct b as [|z b]; [done|]. done.
  - change (join_with c ((x :: y :: a) ++ b)) with (x ++ c :: join_with c ((y :: a) ++ b)). rewrite IH by done. cbn. by rewrite <- app_assoc.
Qed.
Lemma reverse_nonempty {A} (l : list A) : l <> [] -> reverse l <> [].
Proof. intros Hl E. apply Hl. rewrite <- (reverse_involutive l), E. done. Qed.
(** A path has no slash at its end but the root's. *)
Lemma path_end at_ : Forall name_ok at_ -> ends_with [SLASH] (to_chars (path_of at_)) = bool_decide (at_ = []).
Proof.
  intros Ha. destruct at_ as [|n at_]; [done|]. rewrite (bool_decide_eq_false_2 (n :: at_ = [])), path_chars, reverse_cons by done. apply Forall_cons in Ha as [(Hn & _ & _ & Hs) _].
  unfold ends_with. change (reverse [SLASH]) with [SLASH]. destruct n as [|c n _] using rev_ind; [done|].
  assert (E : exists x, join_with SLASH (reverse at_ ++ [n ++ [c]]) = x ++ [c]).
  { destruct (decide (at_ = [])) as [->|Hne]; [by exists n|]. rewrite join_app; [|by apply reverse_nonempty|done]. cbn [join_with]. eexists. by rewrite app_comm_cons, app_assoc. }
  destruct E as [x ->]. rewrite app_comm_cons, reverse_app. cbn [reverse rev_append app starts_with]. rewrite bool_decide_eq_false_2; [done|]. intros <-. apply Hs. set_solver.
Qed.
Lemma path_inj a b : Forall name_ok a -> Forall name_ok b -> path_of a = path_of b -> a = b.
Proof. intros Ha Hb E%(f_equal names). rewrite !names_path in E by done. by rewrite <- (reverse_involutive a), E, reverse_involutive. Qed.
(** The walk of a folder reaches exactly the folders inside it. *)
Lemma holds_inside a b : Forall name_ok a -> Forall name_ok b -> (holds (path_of a) (path_of b) = true <-> inside a b).
Proof.
  intros Ha Hb. unfold holds. rewrite path_end, orb_true_iff, bool_decide_eq_true, starts_with_iff by done. unfold inside. split.
  - intros [E|[r E]]; [apply path_inj in E as ->; done|]. destruct (decide (a = [])) as [->|Hne]; [by exists b; rewrite app_nil_r|].
    rewrite bool_decide_eq_false_2, to_chars_app, (path_chars a) in E by done. change (to_chars "/") with [SLASH] in E.
    destruct (decide (b = [])) as [->|Hbn]; [exfalso; apply (f_equal length) in E; cbn in E; rewrite !length_app in E; cbn in E; lia|].
    rewrite path_chars in E by done. injection E as E. apply (f_equal (split_on SLASH)) in E. rewrite <- app_assoc in E.
    assert (Hsep : forall l : list chars, Forall name_ok l -> Forall (fun w => SLASH ∉ w) (reverse l)) by (intros l Hl; apply Forall_reverse; eapply Forall_impl; [exact Hl|]; by intros x (_ & _ & _ & ?)).
    rewrite split_join in E; [|by apply reverse_nonempty|by apply Hsep].
    pose proof (join_split SLASH r) as Hr. change ([SLASH] ++ r) with (SLASH :: r) in E. rewrite <- Hr in E.
    rewrite <- join_app, split_join in E; [| | |by apply reverse_nonempty|apply split_on_nonempty].
    + exists (reverse (split_on SLASH r)). apply (f_equal reverse) in E. by rewrite reverse_app, !reverse_involutive in E.
    + intros [Hx _]%app_nil. by apply (reverse_nonempty a).
    + apply Forall_app. split; [by apply Hsep|]. apply Forall_forall. intros w. apply split_no_sep.
  - intros [x ->]. destruct (decide (x = [])) as [->|Hx]; [by left|]. right. destruct (decide (a = [])) as [->|Hne].
    + rewrite app_nil_r, path_chars by done. by eexists.
    + rewrite bool_decide_eq_false_2, to_chars_app, !path_chars by (done || by intros [_ ?]%app_nil). change (to_chars "/") with [SLASH].
      rewrite reverse_app, join_app by (by apply reverse_nonempty). exists (join_with SLASH (reverse x)). by rewrite <- app_assoc.
Qed.

(** A real path is a path as [resolve] leaves it. *)
Class DiskLaws `{Disk} := { real_law : forall p q, realpath p = Some q -> exists a, Forall name_ok a /\ q = path_of a }.

Section Spec.
Context `{DiskLaws}.

(** The folder [p] is [q] or holds it. *)
Definition holds_path (p q : string) : Prop := exists a b, Forall name_ok a /\ Forall name_ok b /\ p = path_of a /\ q = path_of b /\ inside a b.
(** A walk of the path would walk all of home or of the content root. *)
Definition whole (path : string) : Prop := holds_path (real path) (real homedir) \/ holds_path (real path) (contentRoot (real homedir)).

Lemma real_path p : exists a, Forall name_ok a /\ real p = path_of a.
Proof. unfold real. destruct (realpath p) as [q|] eqn:E; [by apply (real_law p)|eexists; split; [apply resolved_names|done]]. Qed.
Lemma content_path h : exists c, Forall name_ok c /\ contentRoot h = path_of c.
Proof. unfold contentRoot. case_match; apply real_path. Qed.
Lemma walkRoot_whole path : walkRoot path <> None <-> whole path.
Proof.
  unfold walkRoot, whole. destruct (real_path path) as (a & Ha & ->), (real_path homedir) as (h & Hh & ->), (content_path (path_of h)) as (c & Hc & ->). cbn zeta.
  assert (Hp : forall b, Forall name_ok b -> (holds_path (path_of a) (path_of b) <-> holds (path_of a) (path_of b) = true)).
  { intros b Hb. rewrite holds_inside by done. split; [|intros Hi; by exists a, b]. by intros (a' & b' & Ha' & Hb' & ->%path_inj & ->%path_inj & Hi). }
  rewrite !Hp by done. case_bool_decide as E.
  - apply path_inj in E as <-; [|done..]. split; [|done]. intros _. right. by apply holds_inside.
  - destruct (holds (path_of a) (path_of h)) eqn:E1; [split; [by left|done]|]. destruct (holds (path_of a) (path_of c)) eqn:E2; [split; [by right|done]|]. naive_solver.
Qed.
Lemma first_whole_none cwd words w path : first_whole cwd words = None -> w ∈ words -> wordPath w cwd = Some path -> ~ whole path.
Proof.
  intros Hf Hw Hp Hwh%walkRoot_whole. induction words as [|x words IH]; [by apply elem_of_nil in Hw|]. cbn [first_whole] in Hf. apply elem_of_cons in Hw as [<-|Hw].
  - rewrite Hp in Hf. cbn [mbind option_bind] in Hf. by destruct (walkRoot path).
  - apply IH; [|done]. by destruct (wordPath x cwd ≫= walkRoot).
Qed.

(** ** Scripts *)

Lemma hint_plain w : w ∈ HINT -> esc (to_chars w) = to_chars w.
Proof. unfold HINT. rewrite !elem_of_cons, elem_of_nil. by intros [->|[->|[->|[->|[->|[]]]]]]. Qed.
Lemma roots_walker name args piped w : w ∈ roots name args piped -> name ∈ HINT.
Proof.
  unfold roots, HINT. case_bool_decide as E1; [intros _; subst; by left|]. case_bool_decide as E2; [intros _; subst; right; by left|].
  destruct (among ["grep"; "egrep"; "fgrep"] name) eqn:E3; [|by intros ?%elem_of_nil]. apply bool_decide_eq_true in E3. intros _. do 2 right. exact E3.
Qed.
(** A walker is neither a shell nor [timeout], and its command sets no variables. *)
Lemma walker_facts argv : program (effective argv) ∈ HINT ->
  bool_decide (program (effective argv) = "timeout") = false /\ among SHELLS (program (effective argv)) = false /\ sets_only argv = false
  /\ exists w, w ∈ argv /\ basename w = program (effective argv).
Proof.
  intros Hn. assert (Hf : bool_decide (program (effective argv) = "timeout") = false /\ among SHELLS (program (effective argv)) = false).
  { revert Hn. generalize (program (effective argv)). intros n. unfold HINT. rewrite !elem_of_cons, elem_of_nil. by intros [->|[->|[->|[->|[->|[]]]]]]; vm_compute. }
  destruct Hf as [H1 H2]. split_and!; [done|done| |].
  - unfold sets_only. case_match eqn:Eh.
    + exfalso. destruct argv as [|x r]; [done|]. cbn [head default from_option id] in Eh. apply bool_decide_eq_true in Eh. rewrite effective_runs_id in Hn.
      * revert Hn Eh. unfold program. cbn [head default from_option id]. unfold HINT. rewrite !elem_of_cons, !elem_of_nil. intros Hb [->|[->|[->|[->|[]]]]]; vm_compute in Hb; naive_solver.
      * revert Eh. rewrite !elem_of_cons, elem_of_nil. by intros [->|[->|[->|[->|[]]]]].
    + apply andb_false_iff. destruct (decide (argv = [])) as [->|Hne]; [by left|right]. apply not_true_is_false. intros Ha. rewrite forallb_forall in Ha.
      pose proof (effective_go_runs (length argv) argv ltac:(lia)) as Hr. fold (effective argv) in Hr. destruct (effective argv) as [|x r] eqn:Ee; [by vm_compute in Hn; apply list_elem_of_In in Hn; cbn in Hn; naive_solver|].
      assert (Hx : assigns x = true) by (apply Ha, list_elem_of_In, effective_in; rewrite Ee; by left). unfold runs in Hr. by rewrite Hx in Hr.
  - destruct (effective argv) as [|x r] eqn:Ee; [by vm_compute in Hn; apply list_elem_of_In in Hn; cbn in Hn; naive_solver|]. exists x. split; [|done]. apply effective_in. rewrite Ee. by left.
Qed.
Lemma walk_level f text cwd : judge (S f) text cwd =
  let clean := stripHeredocs text in let x := lex clean in
  concat (map (judge_command (fun t => judge f t cwd) cwd (piped_in (to_chars clean))) (expandVars (commands x) []).1) ++ concat (map (fun t => judge f t cwd) (nested x)).
Proof. done. Qed.
Lemma walk_shell f sh t cwd : sh ∈ SHELLS -> t <> [] -> LT ∉ t -> judge (S f) (of_chars (quoted_words [sh; "-c"; of_chars t])) cwd = judge f (of_chars t) cwd.
Proof.
  intros Hsh Ht Hlt. assert (Hw : LT ∉ quoted_words [sh; "-c"; of_chars t]) by (change (LT ∉ wrapped [sh] t); apply no_lt_wrapped; [by apply Forall_singleton|done]).
  rewrite walk_level, strip_text by done. cbn zeta. rewrite lex_last_command by done. cbn [commands nested].
  assert (Hr : runs sh = true /\ bool_decide (basename sh = "timeout") = false /\ among SHELLS (basename sh) = true /\ sets_only [sh; "-c"; of_chars t] = false).
  { unfold sets_only. revert Hsh. unfold SHELLS at 1. rewrite !elem_of_cons, elem_of_nil. by intros [->|[->|[->|[->|[->|[->|[->|[]]]]]]]]; vm_compute. }
  destruct Hr as (Hr & Htm & Hs & Hso). rewrite expandVars_one by done. cbn [fst map concat]. rewrite !app_nil_r. unfold judge_command. rewrite effective_runs_id by done.
  change (program [sh; "-c"; of_chars t]) with (basename sh). rewrite Htm, Hs. unfold shellScript. cbn [drop after_c]. change (c_flag "-c") with true. cbn iota.
  rewrite bool_decide_eq_false_2; [done|]. by intros ?%of_chars_empty.
Qed.
Lemma walk_wrapped shells f t cwd : Forall (fun sh => sh ∈ SHELLS) shells -> t <> [] -> LT ∉ t ->
  judge (length shells + f) (of_chars (wrapped shells t)) cwd = judge f (of_chars t) cwd.
Proof.
  intros Hs Ht Hlt. induction Hs as [|sh shells Hsh Hs IH]; [done|]. cbn [wrapped length Nat.add]. rewrite walk_shell; [done|done|by apply wrapped_nonempty|by apply no_lt_wrapped].
Qed.

End Spec.

(** ** A box *)

#[local] Instance demo_disk : Disk := { homedir := "/home/u"; process_cwd := "/tmp"; realpath p := Some (resolve "/" p); configured_root := None }.
#[local] Instance demo_laws : DiskLaws.
Proof. constructor. intros p q [= <-]. eexists. split; [apply resolved_names|done]. Qed.
Definition demo_walk : list (list string * chars) := [(["cd"; "/tmp"], to_chars "&&"); (["sudo"; "find"; "-L"; "~/src"; "../.pi/wiki/content/apps"; "-name"; "x"], [";"%char])].

(** ** What gets past the rule *)

(** Four forms hide a walk of home from the rule, each beside the form it catches: a bar in a quoted pattern, by which the
    rule takes an [rg] without a path to read a pipe; a [cd] into the folder, which the rule does not follow; a loop's word; and a
    shell that [timeout] starts, whose words lose their quotes and flags. *)
Theorem forms_past_the_walk_rule :
  Forall (fun x => let '(cwd, caught, passes) := x in judgeWalk caught cwd <> [] /\ judgeWalk passes cwd = [])
    [("/home/u", "rg 'a.b'", "rg 'a|b'"); ("/tmp", "rg x ~", "cd ~ && rg x"); ("/tmp", "D=~; rg x $D", "for d in ~; do rg x $d; done");
     ("/home/u", "bash -c 'find .'", "timeout 5 bash -c 'find .'")].
Proof. repeat (apply Forall_cons; split; [split; [by vm_compute|by vm_compute]|]). by apply Forall_nil. Qed.
