(* ===== verification/PoolTurns.v ===== *)
(** * The turn queue of the account pool, as a run reads it and waits in it

    [packages/pi-pool/src/core/turns.ts]: where [turns.json] has a session ([placeIn]) and the wait of one run for its
    working slot ([admitWait]); [packages/pi-pool/src/durable/pool-provider.ts]: the place a run's page shows ([ticketIn]).

    The file is what it parses to, [TurnsFile], or nothing when it cannot be read or parsed.  [admitWait] is a state and
    its events: the pool calls in flight, the timer, the abort listener.  An ask is split at its await, and each pool call has
    two events: [Takes], the moment it changes the queue, and [Answered], its end.  A call that ends without having
    taken effect is one the pool refused or that was killed. *)

From S2P Require Import Prelude.
From Stdlib Require Import QArith.QArith_base.
#[local] Open Scope string_scope.
#[local] Open Scope list_scope.
#[local] Open Scope Z_scope.

(** ** The queue file *)

(** [tf_working] gives a session's kind when it is a string, [tf_queued] when it first asked. *)
Record TurnsFile := mkTurns { tf_working : list (string * option string); tf_queued : list (string * option Q); tf_owner : list string; tf_lead : list string }.

Inductive Part := PWorking (kind : option string) | PQueued | PGone.
Definition placeIn (turns : option TurnsFile) (sid : string) : option Part :=
  (fun t => match OMap.get sid (tf_working t) with
            | Some kind => PWorking kind
            | None => match OMap.get sid (tf_queued t) with Some _ => PQueued | None => PGone end
            end) <$> turns.

Inductive TicketPlace := TWorking (kind : option string) | TQueued (position total : Z) | TMarked | TNone.

(** JavaScript's [<=] on strings: by their units. *)
Fixpoint units_le (a b : chars) : bool :=
  match a, b with
  | [], _ => true
  | _ :: _, [] => false
  | c :: a', d :: b' => if code c =? code d then units_le a' b' else code c <? code d
  end.
Definition string_le (a b : string) : bool := units_le (to_chars a) (to_chars b).
(** [compare(a, b) <= 0] of the sort: lead sessions first, then first asked, then by name. *)
Definition rank_le (t : TurnsFile) (a b : string) : bool :=
  let lead s := if bool_decide (s ∈ tf_lead t) then 0 else 1 in
  let since s := nullish (OMap.get s (tf_queued t) ≫= id) 0%Q in
  if lead a =? lead b then match Qcompare (since a) (since b) with Lt => true | Gt => false | Eq => string_le a b end
  else lead a <? lead b.
Definition order (t : TurnsFile) : list string := sort_by (rank_le t) (OMap.keys (tf_queued t)).
Definition ticketIn (turns : option TurnsFile) (session : string) : TicketPlace :=
  let t := default (mkTurns [] [] [] []) turns in
  match OMap.get session (tf_working t) with
  | Some kind => TWorking kind
  | None =>
      if OMap.has session (tf_queued t) then
        TQueued (match find_index (fun s => bool_decide (s = session)) (order t) with Some i => Z.of_nat i + 1 | None => 0 end) (Z.of_nat (length (order t)))
      else if bool_decide (session ∈ tf_owner t) then TMarked else TNone
  end.

(** ** The order is a total order of the names *)

Lemma units_le_total a b : units_le a b = false -> units_le b a = true.
Proof.
  revert b. induction a as [|c a IH]; intros [|d b]; cbn; try done. destruct (code c =? code d) eqn:E.
  - apply Z.eqb_eq in E. rewrite E, Z.eqb_refl. apply IH.
  - apply Z.eqb_neq in E. intros H. destruct (code d =? code c) eqn:E'; [lia|]. apply Z.ltb_lt. apply Z.ltb_ge in H. lia.
Qed.
Lemma units_le_trans a b c : units_le a b = true -> units_le b c = true -> units_le a c = true.
Proof.
  revert b c. induction a as [|x a IH]; intros [|y b] [|z c]; cbn; try done.
  destruct (code x =? code y) eqn:E1, (code y =? code z) eqn:E2; rewrite ?Z.eqb_eq, ?Z.eqb_neq in *; intros H1 H2.
  - replace (code x =? code z) with true by (symmetry; apply Z.eqb_eq; lia). by apply (IH b).
  - replace (code x =? code z) with false by (symmetry; apply Z.eqb_neq; lia). apply Z.ltb_lt in H2. apply Z.ltb_lt. lia.
  - replace (code x =? code z) with false by (symmetry; apply Z.eqb_neq; lia). apply Z.ltb_lt in H1. apply Z.ltb_lt. lia.
  - apply Z.ltb_lt in H1, H2. replace (code x =? code z) with false by (symmetry; apply Z.eqb_neq; lia). apply Z.ltb_lt. lia.
Qed.
Lemma code_inj c d : code c = code d -> c = d.
Proof. unfold code. intros H%N2Z.inj. rewrite <- (Ascii.ascii_N_embedding c), <- (Ascii.ascii_N_embedding d). by rewrite H. Qed.
Lemma units_le_antisym a b : units_le a b = true -> units_le b a = true -> a = b.
Proof.
  revert b. induction a as [|c a IH]; intros [|d b]; cbn; try done. destruct (code c =? code d) eqn:E.
  - apply Z.eqb_eq in E. rewrite E, Z.eqb_refl. intros. f_equal; [by apply code_inj|by apply IH].
  - rewrite (Z.eqb_sym (code d)), E. rewrite !Z.ltb_lt. lia.
Qed.

Section Rank.
Context (t : TurnsFile).
Lemma rank_le_total a b : rank_le t a b = false -> rank_le t b a = true.
Proof.
  unfold rank_le. cbn zeta. set (la := if bool_decide (a ∈ tf_lead t) then 0 else 1). set (lb := if bool_decide (b ∈ tf_lead t) then 0 else 1).
  rewrite (Z.eqb_sym lb la). destruct (la =? lb) eqn:E; [|apply Z.eqb_neq in E; rewrite Z.ltb_ge, Z.ltb_lt; lia].
  rewrite <- (Qcompare_antisym (nullish (OMap.get a (tf_queued t) ≫= id) 0%Q)). destruct (Qcompare _ _); cbn; try done. apply units_le_total.
Qed.
Lemma rank_le_trans a b c : rank_le t a b = true -> rank_le t b c = true -> rank_le t a c = true.
Proof.
  unfold rank_le. cbn zeta. set (la := if bool_decide (a ∈ tf_lead t) then 0 else 1). set (lb := if bool_decide (b ∈ tf_lead t) then 0 else 1). set (lc := if bool_decide (c ∈ tf_lead t) then 0 else 1).
  generalize (nullish (OMap.get a (tf_queued t) ≫= id) 0%Q) (nullish (OMap.get b (tf_queued t) ≫= id) 0%Q) (nullish (OMap.get c (tf_queued t) ≫= id) 0%Q). intros qa qb qc.
  destruct (la =? lb) eqn:E1, (lb =? lc) eqn:E2; rewrite ?Z.eqb_eq, ?Z.eqb_neq, ?Z.ltb_lt in *; intros H1 H2.
  - replace (la =? lc) with true by (symmetry; apply Z.eqb_eq; lia).
    destruct (Qcompare_spec qa qb) as [Hab|Hab|Hab], (Qcompare_spec qb qc) as [Hbc|Hbc|Hbc]; try done.
    + rewrite <- Hbc, Hab, (proj1 (Qeq_alt qb qb) ltac:(reflexivity)). by apply (units_le_trans _ (to_chars b)).
    + rewrite (proj1 (Qlt_alt qa qc)); [done|by rewrite Hab].
    + rewrite (proj1 (Qlt_alt qa qc)); [done|by rewrite <- Hbc].
    + rewrite (proj1 (Qlt_alt qa qc)); [done|by apply (Qlt_trans _ qb)].
  - replace (la =? lc) with false by (symmetry; apply Z.eqb_neq; lia). apply Z.ltb_lt. lia.
  - replace (la =? lc) with false by (symmetry; apply Z.eqb_neq; lia). apply Z.ltb_lt. lia.
  - replace (la =? lc) with false by (symmetry; apply Z.eqb_neq; lia). apply Z.ltb_lt. lia.
Qed.
Lemma rank_le_antisym a b : rank_le t a b = true -> rank_le t b a = true -> a = b.
Proof.
  unfold rank_le. cbn zeta. set (la := if bool_decide (a ∈ tf_lead t) then 0 else 1). set (lb := if bool_decide (b ∈ tf_lead t) then 0 else 1).
  rewrite (Z.eqb_sym lb la). destruct (la =? lb) eqn:E; [|rewrite !Z.ltb_lt; lia].
  rewrite <- (Qcompare_antisym (nullish (OMap.get a (tf_queued t) ≫= id) 0%Q)). destruct (Qcompare _ _); cbn; try done. intros H1 H2.
  rewrite <- (of_to_chars a), <- (of_to_chars b). f_equal. by apply units_le_antisym.
Qed.
(** Who goes before whom: the lead sessions, then those that asked first, then by name. *)
Definition is_lead (s : string) : bool := bool_decide (s ∈ tf_lead t).
Definition asked (s : string) : Q := match OMap.get s (tf_queued t) with Some (Some q) => q | _ => 0%Q end.
Definition ahead (b a : string) : bool :=
  (is_lead a && negb (is_lead b))
  || (Bool.eqb (is_lead a) (is_lead b) && (negb (Qle_bool (asked b) (asked a)) || (Qeq_bool (asked a) (asked b) && negb (string_le b a)))).
Lemma string_le_total a b : string_le a b = false -> string_le b a = true.
Proof. apply units_le_total. Qed.
Lemma string_le_antisym a b : string_le a b = true -> string_le b a = true -> a = b.
Proof. intros H1 H2. rewrite <- (of_to_chars a), <- (of_to_chars b). f_equal. by apply units_le_antisym. Qed.
Lemma ahead_rank a b : ahead b a = rank_le t a b && negb (bool_decide (a = b)).
Proof.
  unfold ahead, rank_le, is_lead. cbn zeta. assert (Hq : forall s, nullish (OMap.get s (tf_queued t) ≫= id) 0%Q = asked s) by (intros s; unfold asked, nullish; by destruct (OMap.get s (tf_queued t)) as [[q|]|]).
  rewrite !Hq. assert (Ht : (negb (Qle_bool (asked b) (asked a)) || (Qeq_bool (asked a) (asked b) && negb (string_le b a)))
    = match Qcompare (asked a) (asked b) with Lt => true | Gt => false | Eq => string_le a b end && negb (bool_decide (a = b))).
  { destruct (Qcompare_spec (asked a) (asked b)) as [He|Hl|Hg].
    - rewrite (proj2 (Qle_bool_iff (asked b) (asked a))) by (rewrite He; apply Qle_refl). rewrite (proj2 (Qeq_bool_iff _ _) He). cbn. case_bool_decide as Heq.
      + subst. rewrite andb_false_r. destruct (string_le b b) eqn:E; [done|]. pose proof (string_le_total b b E). congruence.
      + rewrite andb_true_r. destruct (string_le b a) eqn:E; [|symmetry; by apply string_le_total]. destruct (string_le a b) eqn:E'; [|done]. by destruct Heq; apply string_le_antisym.
    - destruct (Qle_bool (asked b) (asked a)) eqn:E; [apply Qle_bool_iff in E; by destruct (Qlt_not_le _ _ Hl)|]. cbn. rewrite bool_decide_eq_false_2; [done|]. intros ->. by apply (Qlt_irrefl (asked b)).
    - rewrite (proj2 (Qle_bool_iff _ _)) by by apply Qlt_le_weak. destruct (Qeq_bool (asked a) (asked b)) eqn:E; [|done]. apply Qeq_bool_iff in E. rewrite E in Hg. by destruct (Qlt_irrefl (asked b)). }
  rewrite Ht. destruct (bool_decide (a ∈ tf_lead t)) eqn:Ea, (bool_decide (b ∈ tf_lead t)) eqn:Eb; cbn; try done.
  rewrite bool_decide_eq_false_2; [done|]. intros ->. congruence.
Qed.
End Rank.

Lemma find_index_middle {A} (f : A -> bool) l x r : Forall (fun y => f y = false) l -> f x = true -> find_index f (l ++ x :: r) = Some (length l).
Proof. intros Hl Hx. induction Hl as [|y l Hy _ IH]; cbn; [by rewrite Hx|]. by rewrite Hy, IH. Qed.
Lemma filter_yes {A} (f : A -> bool) l : Forall (fun y => f y = true) l -> List.filter f l = l.
Proof. induction 1 as [|y l Hy _ IH]; [done|]. cbn. by rewrite Hy, IH. Qed.
Lemma filter_no {A} (f : A -> bool) l : Forall (fun y => f y = false) l -> List.filter f l = [].
Proof. induction 1 as [|y l Hy _ IH]; [done|]. cbn. by rewrite Hy. Qed.
Lemma List_filter_perm {A} (f : A -> bool) l l' : Permutation l l' -> Permutation (List.filter f l) (List.filter f l').
Proof. induction 1; cbn; repeat case_match; try done; try (by constructor). by etransitivity. Qed.

(** A queued run's place is one more than the sessions ahead of it, and the total is the queue's length: whatever order
    the file lists them in, each queued session that holds no slot is shown the number of queued sessions that go before
    it (the lead ones first, then those that asked first, then by name), so no two runs are shown one place and the places
    are 1 to the total. *)
Theorem ticket_counts_those_ahead t session : NoDup (OMap.keys (tf_queued t)) -> session ∈ OMap.keys (tf_queued t) -> OMap.get session (tf_working t) = None ->
  ticketIn (Some t) session = TQueued (Z.of_nat (length (List.filter (ahead t session) (OMap.keys (tf_queued t)))) + 1) (Z.of_nat (length (OMap.keys (tf_queued t)))).
Proof.
  intros Hn Hin Hw. unfold ticketIn. cbn [default from_option id]. rewrite Hw.
  assert (Hhas : OMap.has session (tf_queued t) = true). { unfold OMap.has. destruct (OMap.get session (tf_queued t)) eqn:E; [done|]. by apply OMap.get_None in E. }
  rewrite Hhas. unfold order. rewrite sort_by_length. f_equal. set (l := sort_by (rank_le t) (OMap.keys (tf_queued t))).
  assert (Hp : Permutation l (OMap.keys (tf_queued t))) by apply sort_by_perm. rewrite <- (Permutation_length (List_filter_perm (ahead t session) _ _ Hp)).
  assert (Hs : StronglySorted (fun a b => rank_le t a b = true) l) by (apply sort_by_sorted; [apply rank_le_total|apply rank_le_trans]).
  assert (Hnd : NoDup l) by (by rewrite Hp). assert (Hl : session ∈ l) by (by rewrite Hp).
  apply list_elem_of_split in Hl as (l1 & l2 & El). rewrite El in Hs, Hnd |- *. apply NoDup_app in Hnd as (Hn1 & Hn12 & [Hn2 _]%NoDup_cons).
  assert (H1 : Forall (fun y => rank_le t y session = true /\ y <> session) l1).
  { apply Forall_forall. intros y Hy. split; [|intros ->; apply (Hn12 session Hy); by left].
    clear -Hs Hy. induction l1 as [|z l1 IH]; [by apply elem_of_nil in Hy|]. cbn in Hs. apply StronglySorted_inv in Hs as [Hs Hz].
    apply elem_of_cons in Hy as [->|Hy]; [|by apply IH]. rewrite Forall_forall in Hz. apply Hz. apply elem_of_app. right. by left. }
  assert (H2 : Forall (fun y => rank_le t y session = false \/ y = session) (session :: l2)).
  { apply Forall_cons. split; [by right|]. apply Forall_forall. intros y Hy. destruct (rank_le t y session) eqn:E; [|by left]. right. apply (rank_le_antisym t); [done|].
    clear -Hs Hy. induction l1 as [|z l1 IH]; cbn in Hs; apply StronglySorted_inv in Hs as [Hs Hz]; [rewrite Forall_forall in Hz; by apply Hz|by apply IH]. }
  rewrite find_index_middle.
  - rewrite List.filter_app, filter_yes, filter_no; [by rewrite app_nil_r| |].
    + eapply Forall_impl; [exact H2|]. intros y Hy. rewrite ahead_rank. apply andb_false_iff. destruct Hy as [->| ->]; [by left|right; by rewrite bool_decide_eq_true_2].
    + eapply Forall_impl; [exact H1|]. intros y [Hy Hne]. rewrite ahead_rank. by rewrite Hy, bool_decide_eq_false_2.
  - eapply Forall_impl; [exact H1|]. intros y [_ Hne]. by apply bool_decide_eq_false_2.
  - by apply bool_decide_eq_true_2.
Qed.
Lemma ticket_counts_those_ahead_witness :
  let t := mkTurns [] [("a", Some 5%Q); ("lead", Some 9%Q); ("b", Some 5%Q); ("c", None)] [] ["lead"] in
  map (ticketIn (Some t)) ["a"; "b"; "c"; "lead"] = [TQueued 3 4; TQueued 4 4; TQueued 2 4; TQueued 1 4].
Proof.
  intros t. assert (Hn : NoDup (OMap.keys (tf_queued t))) by (by apply (bool_decide_unpack _)). cbn [map].
  rewrite !(ticket_counts_those_ahead t) by (done || by apply (bool_decide_unpack _)). by vm_compute.
Defined.
