(* ===== verification/PoolWait.v ===== *)
(** * A run that waits for its working slot

    [admitWait] of [packages/pi-pool/src/core/turns.ts]: the asks, the reads of the queue file, the answer and the abort of
    one wait, as a state and its events, with what the pool's queue holds for the run beside it ([w_entry]).

    An ask is split at its await.  A pool call in flight takes effect at one moment ([Takes]) and ends at another
    ([Answered]); one that ends before it took effect was refused or killed.  [onQueued] may cancel the wait, as the
    extension's does when its session is gone.  What the pool does on its own to a queued run (its slot starts) is what
    the file says at the next read. *)

From S2P Require Import Prelude PoolTurns.
#[local] Open Scope string_scope.
#[local] Open Scope list_scope.
#[local] Open Scope Z_scope.

Definition WAIT_READ_MS : Z := 1000.
Definition WAIT_ASK_MS : Z := 30000.

(** [AdmitReply], and an answer that is no reply. *)
Inductive ReplyState := RAdmitted | RQueued | ROff | ROther (state : string).
Record AdmitReply := mkReply { ar_state : ReplyState; ar_kind : option string; ar_position : option Z; ar_total : option Z }.
Inductive Outcome := Replied (r : AdmitReply) | Stopped | Failed.

(** A pool call in flight: an ask (the first one, or a tick's), or a release (the stop's, whose end ends the wait, or another). *)
Inductive CallKind := Admit (first : bool) | Release (ends : bool).
Record Call := mkCall { c_id : nat; c_kind : CallKind; c_taken : bool }.
Record Wait := mkWait {
  w_done : option Outcome; w_stopped : bool; w_timer : bool; w_askedAt : Z; w_seen : Z;
  w_listening : bool; w_aborted : bool; w_calls : list Call; w_next : nat;
  w_queued : list AdmitReply;  (** what [onQueued] was told *)
  w_entry : bool; w_lost : nat (** releases that ended without effect *) }.

Definition with_done (o : Outcome) (w : Wait) : Wait :=
  mkWait (Some o) (w_stopped w) false (w_askedAt w) (w_seen w) false (w_aborted w) (w_calls w) (w_next w) (w_queued w) (w_entry w) (w_lost w).
Definition finish (o : Outcome) (w : Wait) : Wait := match w_done w with Some _ => w | None => with_done o w end.
Definition call (k : CallKind) (w : Wait) : Wait :=
  mkWait (w_done w) (w_stopped w) (w_timer w) (w_askedAt w) (w_seen w) (w_listening w) (w_aborted w) (w_calls w ++ [mkCall (w_next w) k false]) (S (w_next w)) (w_queued w) (w_entry w) (w_lost w).
Definition with_stopped (w : Wait) : Wait :=
  mkWait (w_done w) true (w_timer w) (w_askedAt w) (w_seen w) (w_listening w) (w_aborted w) (w_calls w) (w_next w) (w_queued w) (w_entry w) (w_lost w).
Definition is_over (w : Wait) : bool := match w_done w with Some _ => true | None => false end.
Definition stop (w : Wait) : Wait := if is_over w || w_stopped w then w else call (Release true) (with_stopped w).
Definition ask (first : bool) (now : Z) (w : Wait) : Wait :=
  call (Admit first) (mkWait (w_done w) (w_stopped w) (w_timer w) now (w_seen w) (w_listening w) (w_aborted w) (w_calls w) (w_next w) (w_queued w) (w_entry w) (w_lost w)).
Definition set_timer (w : Wait) : Wait :=
  if is_over w then w
  else mkWait (w_done w) (w_stopped w) true (w_askedAt w) (w_seen w) (w_listening w) (w_aborted w) (w_calls w) (w_next w) (w_queued w) (w_entry w) (w_lost w).
Definition tell (r : AdmitReply) (w : Wait) : Wait :=
  mkWait (w_done w) (w_stopped w) (w_timer w) (w_askedAt w) (w_seen w) (w_listening w) (w_aborted w) (w_calls w) (w_next w) (w_queued w ++ [r]) (w_entry w) (w_lost w).
Definition see (mtime : Z) (w : Wait) : Wait :=
  mkWait (w_done w) (w_stopped w) (w_timer w) (w_askedAt w) mtime (w_listening w) (w_aborted w) (w_calls w) (w_next w) (w_queued w) (w_entry w) (w_lost w).
Definition end_call (id : nat) (w : Wait) : Wait :=
  mkWait (w_done w) (w_stopped w) (w_timer w) (w_askedAt w) (w_seen w) (w_listening w) (w_aborted w) (List.filter (fun c => negb (Nat.eqb (c_id c) id)) (w_calls w)) (w_next w) (w_queued w) (w_entry w) (w_lost w).
Definition take_timer (w : Wait) : Wait :=
  mkWait (w_done w) (w_stopped w) false (w_askedAt w) (w_seen w) (w_listening w) (w_aborted w) (w_calls w) (w_next w) (w_queued w) (w_entry w) (w_lost w).
Definition abort (w : Wait) : Wait :=
  mkWait (w_done w) (w_stopped w) (w_timer w) (w_askedAt w) (w_seen w) (w_listening w) true (w_calls w) (w_next w) (w_queued w) (w_entry w) (w_lost w).

(** [placeIn] read from a file that holds the run. *)
Definition admitted (kind : option string) : Outcome := Replied (mkReply RAdmitted kind None None).
(** The rest of [ask] once its call answered: true when the wait is over.  [cancels] says whether [onQueued] cancels. *)
Definition ask_answered (reply : option AdmitReply) (place : option Part) (cancels : bool) (w : Wait) : bool * Wait :=
  if w_stopped w then (true, call (Release false) w)
  else match reply with
       | None =>
           match place with
           | Some (PWorking kind) => (true, finish (admitted kind) w)
           | Some PQueued => (false, w)
           | _ => (true, finish Failed w)
           end
       | Some r =>
           match ar_state r with
           | RQueued => (false, if cancels then stop (tell r w) else tell r w)
           | RAdmitted | ROff => (true, finish (Replied r) w)
           | ROther _ => (true, finish Failed w)
           end
       end.
(** What follows an ask, in the first one's [then] as in [tick]. *)
Definition after_ask (x : bool * Wait) : Wait := if x.1 then x.2 else set_timer x.2.

(** [tick]: [stat] is the file's time, nothing when it cannot be read. *)
Definition tick (now : Z) (stat : option Z) (place : option Part) (w : Wait) : Wait :=
  let w := take_timer w in
  if is_over w || w_stopped w then w
  else if w_aborted w then stop w
  else if WAIT_ASK_MS <=? now - w_askedAt w then ask false now w
  else match stat with
       | None => ask false now w
       | Some mtime =>
           if mtime =? w_seen w then set_timer w
           else let w := see mtime w in
                match place with
                | Some (PWorking kind) => finish (admitted kind) w
                | Some PGone => ask false now w
                | _ => set_timer w
                end
       end.

(** The call of [admitWait]; [aborted] says that its signal is aborted already, and [signal] that it has one. *)
Definition start (signal aborted : bool) (now : Z) : Wait := ask true now (mkWait None false false 0 0 signal aborted [] 0 [] false 0).

Inductive Event :=
| Abort
| Cancel
| Takes (id : nat)
| Answered (id : nat) (reply : option AdmitReply) (place : option Part) (cancels : bool)
| TimerFires (now : Z) (stat : option Z) (place : option Part).

Definition call_of (id : nat) (w : Wait) : option Call := List.find (fun c => Nat.eqb (c_id c) id) (w_calls w).
(** The queue takes a call: an admit gives the run an entry, a release takes it away. *)
Definition takes (id : nat) (w : Wait) : Wait :=
  match call_of id w with
  | Some c =>
      if c_taken c then w
      else mkWait (w_done w) (w_stopped w) (w_timer w) (w_askedAt w) (w_seen w) (w_listening w) (w_aborted w)
             (map (fun d => if Nat.eqb (c_id d) id then mkCall id (c_kind d) true else d) (w_calls w)) (w_next w) (w_queued w)
             (match c_kind c with Admit _ => true | Release _ => false end) (w_lost w)
  | None => w
  end.
Definition lose (c : Call) (w : Wait) : Wait :=
  if c_taken c then w
  else mkWait (w_done w) (w_stopped w) (w_timer w) (w_askedAt w) (w_seen w) (w_listening w) (w_aborted w) (w_calls w) (w_next w) (w_queued w) (w_entry w) (S (w_lost w)).
Definition answered (id : nat) (reply : option AdmitReply) (place : option Part) (cancels : bool) (w : Wait) : Wait :=
  match call_of id w with
  | Some c =>
      let w := end_call id w in
      match c_kind c with
      | Admit _ => after_ask (ask_answered reply place cancels w)
      | Release ends => let w := lose c w in if ends then finish Stopped w else w
      end
  | None => w
  end.
Definition step (ev : Event) (w : Wait) : Wait :=
  match ev with
  | Abort => if w_aborted w then w else if w_listening w then stop (abort w) else abort w
  | Cancel => stop w
  | Takes id => takes id w
  | Answered id reply place cancels => answered id reply place cancels w
  | TimerFires now stat place => if w_timer w then tick now stat place w else w
  end.
Definition steps (evs : list Event) (w : Wait) : Wait := fold_left (fun w ev => step ev w) evs w.

(** ** The invariant *)

Definition is_ask (c : Call) : bool := match c_kind c with Admit _ => true | Release _ => false end.
Definition is_end (c : Call) : bool := match c_kind c with Release true => true | _ => false end.
Definition ask_in_flight (w : Wait) : bool := existsb is_ask (w_calls w).
Definition end_in_flight (w : Wait) : bool := existsb is_end (w_calls w).
Definition asks (w : Wait) : nat := length (List.filter is_ask (w_calls w)).
(** A release that is to take the entry away: one that did not take effect yet. *)
Definition release_due (w : Wait) : bool := existsb (fun c => negb (is_ask c) && negb (c_taken c)) (w_calls w).

Record Inv (w : Wait) : Prop := mkInv {
  iv_ids : Forall (fun c => (c_id c < w_next w)%nat) (w_calls w);
  iv_nodup : NoDup (map c_id (w_calls w));
  iv_rel : Forall (fun c => is_ask c = false -> w_stopped w = true) (w_calls w);
  iv_asks : (asks w <= 1)%nat;
  iv_timer : w_timer w = true -> asks w = 0%nat;
  iv_waiting : w_done w = None -> w_stopped w = false -> w_timer w = true \/ ask_in_flight w = true;
  iv_stopping : w_stopped w = true -> w_done w = None -> end_in_flight w = true;
  iv_over : w_done w <> None -> w_timer w = false /\ w_listening w = false;
  iv_live : w_done w <> None -> w_stopped w = false -> asks w = 0%nat;
  iv_entry : w_stopped w = true -> w_lost w = 0%nat -> w_entry w = true -> ask_in_flight w = true \/ release_due w = true }.

Lemma asks_in_flight w : asks w = 0%nat <-> ask_in_flight w = false.
Proof. unfold asks, ask_in_flight. induction (w_calls w) as [|c l IH]; [done|]. cbn. destruct (is_ask c); cbn; [split; done|done]. Qed.
Lemma no_done w : w_done w = None <-> is_over w = false.
Proof. unfold is_over. by destruct (w_done w). Qed.

(** A new call. *)
Lemma call_counts k w : asks (call k w) = (asks w + (match k with Admit _ => 1 | Release _ => 0 end))%nat
  /\ ask_in_flight (call k w) = ask_in_flight w || match k with Admit _ => true | _ => false end
  /\ end_in_flight (call k w) = end_in_flight w || match k with Release true => true | _ => false end
  /\ release_due (call k w) = release_due w || match k with Release _ => true | _ => false end.
Proof.
  unfold asks, ask_in_flight, end_in_flight, release_due, call. cbn. rewrite !existsb_app, List.filter_app, length_app. cbn.
  destruct k as [first|[]]; unfold is_ask, is_end; cbn; rewrite ?orb_false_r; by split_and!.
Qed.
Lemma call_fresh k w : Forall (fun c => (c_id c < w_next w)%nat) (w_calls w) -> NoDup (map c_id (w_calls w)) ->
  Forall (fun c => (c_id c < w_next (call k w))%nat) (w_calls (call k w)) /\ NoDup (map c_id (w_calls (call k w))).
Proof.
  intros Hi Hn. cbn. split.
  - apply Forall_app. split; [eapply Forall_impl; [exact Hi|]; cbn; lia|apply Forall_singleton; cbn; lia].
  - rewrite map_app. apply NoDup_app. split_and!; [done| |by apply NoDup_singleton]. intros x Hx Hs. cbn in Hs. apply list_elem_of_singleton in Hs as ->.
    apply list_elem_of_In, in_map_iff in Hx as (c & Hc & Hin). rewrite Forall_forall in Hi. specialize (Hi c (proj2 (list_elem_of_In _ _) Hin)). cbn in Hi. lia.
Qed.
Lemma call_rel k w : Forall (fun c => is_ask c = false -> w_stopped w = true) (w_calls w) -> (is_ask (mkCall 0 k false) = false -> w_stopped w = true) ->
  Forall (fun c => is_ask c = false -> w_stopped (call k w) = true) (w_calls (call k w)).
Proof. intros Hr Hk. cbn. apply Forall_app. split; [done|]. by apply Forall_singleton. Qed.
Lemma stopped_rel (l : list Call) : Forall (fun c => is_ask c = false -> true = true) l.
Proof. by apply Forall_forall. Qed.
#[local] Hint Resolve stopped_rel : core.
Lemma Wait_stop w : Inv w -> Inv (stop w).
Proof.
  intros I. unfold stop. destruct (is_over w) eqn:Ho; [done|]. destruct (w_stopped w) eqn:Es; [done|]. cbn [orb].
  destruct I as [I1 I2 IR I3 I4 I5 I6 I7 I8 I9]. destruct (call_fresh (Release true) (with_stopped w) I1 I2) as [F1 F2].
  destruct (call_counts (Release true) (with_stopped w)) as (C1 & C2 & C3 & C4).
  assert (Hd : w_done w = None) by by apply no_done.
  constructor; try done; rewrite ?C1, ?C2, ?C3, ?C4, ?Nat.add_0_r, ?orb_true_r; try done; try (by right); cbn; intros; try done.
Qed.
Lemma Wait_finish o w : Inv w -> asks w = 0%nat -> Inv (finish o w).
Proof.
  intros I Ha. unfold finish. destruct (w_done w) eqn:Hd; [done|]. destruct I as [I1 I2 IR I3 I4 I5 I6 I7 I8 I9]. by constructor.
Qed.
Lemma Inv_finish_stopped w : Inv w -> w_stopped w = true -> Inv (finish Stopped w).
Proof.
  intros I Hs. unfold finish. destruct (w_done w) eqn:Hd; [done|]. destruct I as [I1 I2 IR I3 I4 I5 I6 I7 I8 I9]. constructor; try done. cbn. congruence.
Qed.

(** A state that waits for nothing yet, or no more: what the middle of an ask or a tick has. *)
Record Core (w : Wait) : Prop := mkCore {
  co_ids : Forall (fun c => (c_id c < w_next w)%nat) (w_calls w);
  co_nodup : NoDup (map c_id (w_calls w));
  co_rel : Forall (fun c => is_ask c = false -> w_stopped w = true) (w_calls w);
  co_asks : asks w = 0%nat;
  co_timer : w_timer w = false;
  co_stopping : w_stopped w = true -> w_done w = None -> end_in_flight w = true;
  co_over : w_done w <> None -> w_listening w = false;
  co_entry : w_stopped w = true -> w_lost w = 0%nat -> w_entry w = true -> release_due w = true }.
Lemma Core_stop w : Core w -> Core (stop w).
Proof.
  intros I. unfold stop. destruct (is_over w) eqn:Ho; [done|]. destruct (w_stopped w) eqn:Es; [done|]. cbn [orb]. destruct I as [I1 I2 IR I3 I4 I5 I6 I7].
  destruct (call_fresh (Release true) (with_stopped w) I1 I2) as [F1 F2]. destruct (call_counts (Release true) (with_stopped w)) as (C1 & C2 & C3 & C4).
  constructor; try done; rewrite ?C1, ?C3, ?C4, ?Nat.add_0_r, ?orb_true_r; try done.
Qed.
Lemma Core_Inv_stopped w : Core w -> w_stopped w = true -> Inv w.
Proof.
  intros [I1 I2 IR I3 I4 I5 I6 I7] Hs. constructor; try done; try lia.
  - congruence.
  - intros Hd. split; [done|by apply I6].
  - intros. right. by apply I7.
Qed.
Lemma Inv_set_timer w : Core w -> Inv (set_timer w).
Proof.
  intros [I1 I2 IR I3 I4 I5 I6 I7]. unfold set_timer. destruct (is_over w) eqn:Ho.
  - assert (w_done w <> None) by (intros H%no_done; congruence). constructor; try done; try lia; intros; try done; [split; [done|by apply I6]|right; by apply I7].
  - assert (Hd : w_done w = None) by by apply no_done. constructor; try done; unfold asks in *; cbn; try lia; intros; try done; try (by left). right; by apply I7.
Qed.
Lemma Inv_ask first now w : Core w -> w_stopped w = false -> w_done w = None -> Inv (ask first now w).
Proof.
  intros [I1 I2 IR I3 I4 I5 I6 I7] Hs Hd. unfold ask. set (w0 := mkWait _ _ _ _ _ _ _ _ _ _ _ _). destruct (call_fresh (Admit first) w0 I1 I2) as [F1 F2].
  destruct (call_counts (Admit first) w0) as (C1 & C2 & C3 & C4). change (asks w0) with (asks w) in C1. rewrite I3 in C1.
  constructor; try done; rewrite ?C1, ?C2, ?orb_true_r; try done; cbn; intros; try congruence; try lia; try (by right).
  by apply (call_rel (Admit first) w0 IR).
Qed.
Lemma Core_tell r w : Core w -> Core (tell r w).
Proof. by intros []. Qed.
Lemma Core_see m w : Core w -> Core (see m w).
Proof. by intros []. Qed.
Lemma Core_finish o w : Core w -> w_stopped w = false -> Inv (finish o w).
Proof.
  intros [I1 I2 IR I3 I4 I5 I6 I7] Hs. unfold finish. destruct (w_done w) as [o'|] eqn:Hd; (constructor; try done; unfold asks in *; cbn; try lia; intros; try done; try congruence).
  split; [done|by apply I6].
Qed.

(** ** Every step keeps it *)

Lemma call_of_split id w c : NoDup (map c_id (w_calls w)) -> call_of id w = Some c ->
  exists l1 l2, w_calls w = l1 ++ c :: l2 /\ c_id c = id /\ List.filter (fun d => negb (Nat.eqb (c_id d) id)) (w_calls w) = l1 ++ l2.
Proof.
  unfold call_of. intros Hn Hf. apply find_some in Hf as Hc. destruct Hc as [Hin Hid]. apply Nat.eqb_eq in Hid. apply list_elem_of_In, list_elem_of_split in Hin as (l1 & l2 & E).
  exists l1, l2. split_and!; [done|done|]. rewrite E, map_app in Hn. apply NoDup_app in Hn as (_ & Hd & [Hn _]%NoDup_cons).
  rewrite E, List.filter_app. cbn. rewrite Hid, Nat.eqb_refl. cbn.
  assert (Hk : forall l, (forall d, d ∈ l -> c_id d <> id) -> List.filter (fun d => negb (Nat.eqb (c_id d) id)) l = l).
  { induction l as [|d l IH]; [done|]. intros Hd'. cbn. rewrite (proj2 (Nat.eqb_neq _ _) (Hd' d ltac:(by left))). cbn. f_equal. apply IH. intros e He. apply Hd'. by right. }
  rewrite !Hk; [done| |]; intros d Hd' <-.
  - apply Hn. rewrite Hid. apply list_elem_of_In, in_map_iff. exists d. split; [done|by apply list_elem_of_In].
  - apply (Hd (c_id d)); [apply list_elem_of_In, in_map_iff; exists d; split; [done|by apply list_elem_of_In]|]. cbn. rewrite Hid. left.
Qed.

Lemma Inv_ask_answered id c first reply place cancels w : Inv w -> call_of id w = Some c -> c_kind c = Admit first ->
  Inv (after_ask (ask_answered reply place cancels (end_call id w))).
Proof.
  intros [I1 I2 IR I3 I4 I5 I6 I7 I8 I9] Hc Hk. destruct (call_of_split id w c I2 Hc) as (l1 & l2 & E & Hid & Hf).
  assert (Hask : is_ask c = true) by (unfold is_ask; by rewrite Hk). assert (Hend : is_end c = false) by (unfold is_end; by rewrite Hk).
  assert (Ha : asks w = S (asks (end_call id w))). { unfold asks. cbn [end_call w_calls]. rewrite Hf, E, !List.filter_app, !length_app. cbn [List.filter]. rewrite Hask. cbn [length]. lia. }
  assert (Ha0 : asks (end_call id w) = 0%nat) by lia. assert (Ht : w_timer w = false) by (destruct (w_timer w); [specialize (I4 eq_refl); lia|done]).
  rewrite E in I1, I2, IR. apply Forall_app in I1 as [I11 [_ I12]%Forall_cons], IR as [IR1 [_ IR2]%Forall_cons]. rewrite map_app in I2. cbn in I2.
  assert (F1 : Forall (fun c => (c_id c < w_next (end_call id w))%nat) (w_calls (end_call id w))) by (cbn; rewrite Hf; by apply Forall_app).
  assert (F2 : NoDup (map c_id (w_calls (end_call id w)))).
  { cbn. rewrite Hf, map_app. apply NoDup_app in I2 as (N1 & N2 & [_ N3]%NoDup_cons). apply NoDup_app. split_and!; [done| |done]. intros x Hx Hx'. apply (N2 x Hx). by right. }
  assert (F3 : Forall (fun c => is_ask c = false -> w_stopped (end_call id w) = true) (w_calls (end_call id w))) by (cbn; rewrite Hf; by apply Forall_app).
  assert (F4 : end_in_flight (end_call id w) = end_in_flight w). { unfold end_in_flight. cbn [end_call w_calls]. rewrite Hf, E, !existsb_app. cbn [existsb]. by rewrite Hend. }
  unfold ask_answered. destruct (w_stopped (end_call id w)) eqn:Es.
  - cbn [after_ask fst snd]. destruct (call_fresh (Release false) _ F1 F2) as [G1 G2]. destruct (call_counts (Release false) (end_call id w)) as (C1 & C2 & C3 & C4).
    constructor; try done; rewrite ?C1, ?C2, ?C3, ?C4, ?Ha0, ?orb_true_r, ?orb_false_r, ?F4; try done; try lia; try (by apply (call_rel (Release false) (end_call id w) F3)); try (by right).
    all: change (w_stopped (call (Release false) (end_call id w))) with (w_stopped (end_call id w)); rewrite Es; done.
  - assert (Hco : Core (end_call id w)).
    { constructor; try done; [by rewrite Es|congruence|intros Hd; by apply I7|congruence]. }
    assert (Hts : forall r, w_stopped (tell r (end_call id w)) = false) by done.
    destruct reply as [r|].
    + destruct (ar_state r); cbn [after_ask fst snd]; try (by apply Core_finish). apply Inv_set_timer. destruct cancels; [apply Core_stop|]; by apply Core_tell.
    + destruct place as [[kind| |]|]; cbn [after_ask fst snd]; try (by apply Core_finish). by apply Inv_set_timer.
Qed.

Lemma Inv_release_answered id c ends w : Inv w -> call_of id w = Some c -> c_kind c = Release ends ->
  Inv (if ends then finish Stopped (lose c (end_call id w)) else lose c (end_call id w)).
Proof.
  intros [I1 I2 IR I3 I4 I5 I6 I7 I8 I9] Hc Hk. destruct (call_of_split id w c I2 Hc) as (l1 & l2 & E & Hid & Hf).
  rewrite E in I1, I2, IR. apply Forall_app in I1 as [I11 [_ I12]%Forall_cons], IR as [IR1 [Hst IR2]%Forall_cons]. rewrite map_app in I2. cbn in I2.
  assert (Hask : is_ask c = false) by (unfold is_ask; by rewrite Hk). assert (Hs : w_stopped w = true) by by apply Hst. set (w' := lose c (end_call id w)).
  assert (Hcalls : w_calls w' = l1 ++ l2) by (unfold w', lose; destruct (c_taken c); cbn; exact Hf).
  assert (Hsame : w_done w' = w_done w /\ w_stopped w' = true /\ w_timer w' = w_timer w /\ w_listening w' = w_listening w /\ w_next w' = w_next w /\ w_entry w' = w_entry w)
    by (unfold w', lose; destruct (c_taken c); cbn; by split_and!).
  destruct Hsame as (S1 & S2 & S3 & S4 & S5 & S6).
  assert (Ha : asks w' = asks w /\ ask_in_flight w' = ask_in_flight w).
  { unfold asks, ask_in_flight. rewrite Hcalls, E, !List.filter_app, !existsb_app. cbn [List.filter existsb]. by rewrite Hask. }
  destruct Ha as [Ha Hfl].
  assert (Hent : w_lost w' = 0%nat -> w_entry w' = true -> ask_in_flight w' = true \/ release_due w' = true).
  { intros Hl He. rewrite Hfl. assert (Ht : c_taken c = true /\ w_lost w = 0%nat) by (revert Hl; unfold w', lose; destruct (c_taken c); cbn; done).
    destruct Ht as [Ht Hl']. rewrite S6 in He. destruct (I9 Hs Hl' He) as [?|Hr]; [by left|]. right. revert Hr. unfold release_due. rewrite Hcalls, E, !existsb_app. cbn [existsb]. by rewrite Ht, andb_false_r. }
  assert (Hids : Forall (fun c => (c_id c < w_next w')%nat) (w_calls w')) by (rewrite Hcalls, S5; by apply Forall_app).
  assert (Hnd : NoDup (map c_id (w_calls w'))).
  { rewrite Hcalls, map_app. apply NoDup_app in I2 as (N1 & N2 & [_ N3]%NoDup_cons). apply NoDup_app. split_and!; [done| |done]. intros x Hx Hx'. apply (N2 x Hx). by right. }
  assert (Hrel : Forall (fun c => is_ask c = false -> w_stopped w' = true) (w_calls w')) by (rewrite S2; apply stopped_rel).
  assert (Hgen : (ends = false \/ w_done w <> None) -> Inv w').
  { intros Hor. constructor; try done; rewrite ?S1, ?S2, ?S3, ?S4, ?Ha, ?Hfl; try done; try congruence.
    intros _ Hd. destruct Hor as [->|]; [|done]. specialize (I6 Hs Hd). revert I6. unfold end_in_flight. rewrite Hcalls, E, !existsb_app. cbn [existsb]. replace (is_end c) with false by (unfold is_end; by rewrite Hk). done. }
  destruct ends; [|apply Hgen; by left]. unfold finish. rewrite S1. destruct (w_done w) eqn:Hd; [apply Hgen; by right|].
  constructor; try done.
  - change (asks (with_done Stopped w')) with (asks w'). by rewrite Ha.
  - intros _. change (w_stopped (with_done Stopped w')) with (w_stopped w'). congruence.
Qed.

Lemma takes_calls id w c : call_of id w = Some c -> c_taken c = false ->
  let l' := map (fun d => if Nat.eqb (c_id d) id then mkCall id (c_kind d) true else d) (w_calls w) in
  NoDup (map c_id (w_calls w)) -> exists l1 l2, w_calls w = l1 ++ c :: l2 /\ l' = l1 ++ mkCall id (c_kind c) true :: l2.
Proof.
  intros Hc Ht l' Hn. unfold call_of in Hc. apply find_some in Hc as [Hin Hid]. apply Nat.eqb_eq in Hid. apply list_elem_of_In, list_elem_of_split in Hin as (l1 & l2 & E).
  exists l1, l2. split; [done|]. unfold l'. rewrite E in Hn |- *. rewrite map_app in Hn |- *. apply NoDup_app in Hn as (_ & Hd & [Hn _]%NoDup_cons). cbn. rewrite Hid, Nat.eqb_refl.
  assert (Hk : forall l, (forall d, d ∈ l -> c_id d <> id) -> map (fun d => if Nat.eqb (c_id d) id then mkCall id (c_kind d) true else d) l = l).
  { induction l as [|d l IH]; [done|]. intros Hd'. cbn. rewrite (proj2 (Nat.eqb_neq _ _) (Hd' d ltac:(by left))). f_equal. apply IH. intros e He. apply Hd'. by right. }
  rewrite !Hk; [done| |]; intros d Hd' <-.
  - apply Hn. rewrite Hid. apply list_elem_of_In, in_map_iff. exists d. split; [done|by apply list_elem_of_In].
  - apply (Hd (c_id d)); [apply list_elem_of_In, in_map_iff; exists d; split; [done|by apply list_elem_of_In]|]. cbn. rewrite Hid. left.
Qed.
Lemma Wait_takes id w : Inv w -> Inv (takes id w).
Proof.
  intros I. unfold takes. destruct (call_of id w) as [c|] eqn:Hc; [|done]. destruct (c_taken c) eqn:Ht; [done|]. destruct I as [I1 I2 IR I3 I4 I5 I6 I7 I8 I9].
  destruct (takes_calls id w c Hc Ht I2) as (l1 & l2 & E & E'). cbn zeta in E'. rewrite E'. clear E'.
  assert (Hid : c_id c = id) by (unfold call_of in Hc; apply find_some in Hc as [_ Hid]; by apply Nat.eqb_eq).
  assert (Hask : is_ask (mkCall id (c_kind c) true) = is_ask c) by done. assert (Hend : is_end (mkCall id (c_kind c) true) = is_end c) by done.
  unfold asks, ask_in_flight, end_in_flight in *. rewrite E in *. rewrite ?existsb_app, ?List.filter_app, ?length_app in *. cbn [existsb List.filter] in *.
  constructor; unfold asks, ask_in_flight, end_in_flight; cbn [w_done w_stopped w_timer w_listening w_calls w_next w_entry w_lost]; rewrite ?existsb_app, ?List.filter_app, ?length_app; cbn [existsb List.filter]; rewrite ?Hask, ?Hend; try done.
  - apply Forall_app in I1 as [? [? ?]%Forall_cons]. apply Forall_app. split; [done|]. apply Forall_cons. split; [cbn; lia|done].
  - rewrite !map_app in *. cbn in *. by rewrite <- Hid.
  - apply Forall_app in IR as [? [? ?]%Forall_cons]. apply Forall_app. split; [done|]. by apply Forall_cons.
  - by destruct (is_ask c).
  - by destruct (is_ask c).
  - by destruct (is_ask c).
  - intros _ _. destruct (c_kind c) eqn:Hk; [|done]. intros _. left. replace (is_ask c) with true by (unfold is_ask; by rewrite Hk). by rewrite orb_true_r.
Qed.

Lemma Wait_tick now stat place w : Inv w -> w_timer w = true -> Inv (tick now stat place w).
Proof.
  intros [I1 I2 IR I3 I4 I5 I6 I7 I8 I9] Ht. specialize (I4 Ht).
  assert (Hd : w_done w = None) by (destruct (w_done w) eqn:E; [destruct (I7 ltac:(done)); congruence|done]).
  assert (Hco : Core (take_timer w)).
  { constructor; try done. intros Hs Hl He. destruct (I9 Hs Hl He) as [Hf|?]; [|done]. apply asks_in_flight in I4. congruence. }
  unfold tick. change (is_over (take_timer w)) with (is_over w). change (w_stopped (take_timer w)) with (w_stopped w). rewrite (proj1 (no_done w) Hd). cbn [orb].
  destruct (w_stopped w) eqn:Es; [by apply Core_Inv_stopped|].
  assert (Hstop : Inv (stop (take_timer w))).
  { apply Core_Inv_stopped; [by apply Core_stop|]. unfold stop. change (is_over (take_timer w)) with (is_over w). rewrite (proj1 (no_done w) Hd). cbn. by rewrite Es. }
  destruct (w_aborted (take_timer w)); [done|]. destruct (WAIT_ASK_MS <=? _); [by apply Inv_ask|]. destruct stat as [m|]; [|by apply Inv_ask].
  destruct (m =? _); [by apply Inv_set_timer|]. assert (Hsee : Core (see m (take_timer w))) by by apply Core_see.
  destruct place as [[kind| |]|]; [by apply Core_finish|by apply Inv_set_timer|by apply Inv_ask|by apply Inv_set_timer].
Qed.
Lemma Wait_step ev w : Inv w -> Inv (step ev w).
Proof.
  intros I. destruct ev as [| |id|id reply place cancels|now stat place]; cbn [step].
  - destruct (w_aborted w); [done|]. assert (Ia : Inv (abort w)) by (destruct I; by constructor). destruct (w_listening w); [by apply Wait_stop|done].
  - by apply Wait_stop.
  - by apply Wait_takes.
  - unfold answered. destruct (call_of id w) as [c|] eqn:Hc; [|done]. destruct (c_kind c) eqn:Hk; [by eapply Inv_ask_answered|]. by apply (Inv_release_answered id c ends).
  - destruct (w_timer w) eqn:Ht; [by apply Wait_tick|done].
Qed.
Lemma Wait_start signal aborted now : Inv (start signal aborted now).
Proof.
  unfold start. apply Inv_ask; [|done|done]. by constructor; try done; apply NoDup_nil_2.
Qed.
Lemma Wait_steps evs w : Inv w -> Inv (steps evs w).
Proof. revert w. induction evs as [|ev evs IH]; intros w I; [done|]. cbn. by apply IH, Wait_step. Qed.

(** A result is the first one and stays. *)
Lemma step_done ev w o : Inv w -> w_done w = Some o -> w_done (step ev w) = Some o.
Proof.
  intros I Hd. assert (Ho : is_over w = true) by (unfold is_over; by rewrite Hd). assert (Hf : forall o' w', w_done w' = Some o -> w_done (finish o' w') = Some o) by (intros o' w' Hw; unfold finish; by rewrite Hw).
  destruct ev as [| |id|id reply place cancels|now stat place]; cbn [step].
  - destruct (w_aborted w); [done|]. destruct (w_listening w); [|done]. unfold stop. by replace (is_over (abort w)) with true.
  - unfold stop. by rewrite Ho.
  - unfold takes. by repeat case_match.
  - unfold answered. destruct (call_of id w) as [c|]; [|done]. destruct (c_kind c) as [first|ends].
    + unfold ask_answered. destruct (w_stopped (end_call id w)); [done|]. assert (Hs : is_over (end_call id w) = true) by done.
      destruct reply as [r|]; [destruct (ar_state r)|destruct place as [[k| |]|]]; cbn [after_ask fst snd]; try (by apply Hf).
      * unfold set_timer. destruct cancels; unfold stop; [replace (is_over (tell r (end_call id w))) with true by done|]; cbn [orb]; by replace (is_over (tell r (end_call id w))) with true by done.
      * unfold set_timer. by rewrite Hs.
    + assert (Hl : w_done (lose c (end_call id w)) = Some o) by (unfold lose; by destruct (c_taken c)). destruct ends; [by apply Hf|done].
  - destruct (iv_over w I) as [Ht _]; [congruence|]. by rewrite Ht.
Qed.

(** C32: A wait for a slot never hangs and never asks twice at once: in every state of every run, whatever the pool answers or
    fails to, whatever the file says and whenever the signal aborts or [onQueued] cancels, a wait with no result has its
    timer pending, its one ask in flight, or, once it is stopped, the release whose end is its result in flight; a wait
    with a result has no timer and no abort listener, and keeps its result. *)
Theorem wait_is_driven signal aborted now evs ev : let w := steps evs (start signal aborted now) in
  (w_done w = None -> w_timer w = true \/ ask_in_flight w = true \/ (w_stopped w = true /\ end_in_flight w = true))
  /\ (asks w <= 1)%nat /\ (w_timer w = true -> asks w = 0%nat)
  /\ (w_done w <> None -> w_timer w = false /\ w_listening w = false /\ w_done (step ev w) = w_done w).
Proof.
  intros w. pose proof (Wait_steps evs _ (Wait_start signal aborted now)) as I. fold w in I. split_and!.
  - intros Hd. destruct (w_stopped w) eqn:Hs; [right; right; split; [done|by apply (iv_stopping w I)]|]. destruct (iv_waiting w I Hd Hs); auto.
  - apply (iv_asks w I).
  - apply (iv_timer w I).
  - intros Hd. destruct (iv_over w I Hd) as [Ht Hl]. split_and!; [done|done|]. destruct (w_done w) eqn:E; [|done]. by apply step_done.
Qed.

(** A wait that is stopped leaves no entry in the queue: once it is aborted or cancelled, however its calls and an ask in
    flight at that moment cross, when no call is in flight any more it has its result and, unless the pool lost one of its
    releases, the queue holds no entry of the run. *)
Theorem stopped_wait_leaves_no_entry signal aborted now evs : let w := steps evs (start signal aborted now) in
  w_stopped w = true -> w_calls w = [] -> w_done w <> None /\ (w_lost w = 0%nat -> w_entry w = false).
Proof.
  intros w Hs Hc. pose proof (Wait_steps evs _ (Wait_start signal aborted now)) as I. fold w in I. split.
  - intros Hd. pose proof (iv_stopping w I Hs Hd) as He. unfold end_in_flight in He. by rewrite Hc in He.
  - intros Hl. destruct (w_entry w) eqn:He; [|done]. destruct (iv_entry w I Hs Hl He) as [H|H]; unfold ask_in_flight, release_due in H; by rewrite Hc in H.
Qed.
(** Aborted while its first ask is in flight, which the queue takes after the release. *)
Definition crossed : list Event :=
  [Abort; Takes 1; Answered 1 None None false; Takes 0; Answered 0 (Some (mkReply RQueued None (Some 2) (Some 5))) None false; Takes 2; Answered 2 None None false].
Lemma stopped_wait_leaves_no_entry_witness :
  w_done (steps crossed (start true false 0)) = Some Stopped /\ w_entry (steps (take 5 crossed) (start true false 0)) = true /\ w_entry (steps crossed (start true false 0)) = false.
Proof.
  destruct (stopped_wait_leaves_no_entry true false 0 crossed) as [_ H]; [by vm_compute|by vm_compute|]. split; [by vm_compute|]. split; [by vm_compute|]. apply H. by vm_compute.
Defined.

(** A wait that fails can leave its entry behind: when the ask took effect, its answer is lost and the file cannot be
    read at that moment, the wait ends as one with no entry, and the queue holds the run's entry with nothing to release it. *)
Theorem failed_wait_can_keep_its_entry :
  let w := steps [Takes 0; Answered 0 None None false] (start true false 0) in w_done w = Some Failed /\ w_entry w = true /\ w_calls w = [].
Proof. by vm_compute. Qed.
