(* ===== verification/Wake.v ===== *)
(** * Wakes: what a session waits for

    [legacy/prime/user-history/src/wakes.ts], the wake, its file format and what is read from a list of wakes, and
    [apps/chat/server/wakes.ts], which names a thread's conversation as a wake's session and arms wakes.

    Times are the numbers of the file, rationals; [now] is a whole number of milliseconds.  A file's value is the JSON
    tree [JSON.parse] gives.  The daemon's list (children and parents of a session) is an argument. *)

From S2P Require Import Prelude Json.
From Stdlib Require Import QArith.QArith_base QArith.Qround QArith.Qminmax.
#[local] Open Scope string_scope.
#[local] Open Scope list_scope.
#[local] Open Scope Z_scope.

(** ** Texts as numbers, [Number(s)]: nothing for [NaN] and the infinities *)

Definition digits_number (p : Ascii.ascii -> bool) (value : Ascii.ascii -> Z) (base : Z) (l : chars) : option Q :=
  if bool_decide (l = []) || negb (forallb p l) then None else Some (inject_Z (fold_left (fun acc c => base * acc + value c) l 0)).
Definition hex_value (c : Ascii.ascii) : Z := if is_digit c then digit_value c else code (lower c) - 87.
Definition is_hex (c : Ascii.ascii) : bool := is_digit c || ((97 <=? code (lower c)) && (code (lower c) <=? 102)).
Definition below (n : Z) (c : Ascii.ascii) : bool := is_digit c && (digit_value c <? n).
Definition minus (c : Ascii.ascii) : bool := bool_decide (c = "-"%char).
Definition plus (c : Ascii.ascii) : bool := bool_decide (c = "+"%char).
Definition dot (c : Ascii.ascii) : bool := bool_decide (c = "."%char).
(** The number behind a sign. *)
Definition signed {A} (read : chars -> option A) (negate : A -> A) (l : chars) : option A :=
  match l with c :: r => if minus c then negate <$> read r else if plus c then read r else read l | [] => read [] end.
(** The rest of a decimal after its digits: [e], a sign and digits. *)
Definition exponent (l : chars) : option Z :=
  match l with
  | [] => Some 0
  | c :: r => if bool_decide (lower c = "e"%char) then signed (fun d => if bool_decide (d = []) || negb (forallb is_digit d) then None else Some (digits_value d)) Z.opp r else None
  end.
Definition pow10 (e : Z) : Q := if 0 <=? e then inject_Z (10 ^ e) else Qinv (inject_Z (10 ^ (- e))).
Definition decimal (l : chars) : option Q :=
  let whole := take_while is_digit l in
  let rest := drop_while is_digit l in
  let dotted := match rest with c :: _ => dot c | [] => false end in
  let part := if dotted then take_while is_digit (drop 1 rest) else [] in
  let rest := if dotted then drop_while is_digit (drop 1 rest) else rest in
  if bool_decide (whole ++ part = []) then None
  else (fun e => Qmult (inject_Z (digits_value (whole ++ part))) (pow10 (e - Z.of_nat (length part)))) <$> exponent rest.
Definition number_of (s : string) : option Q :=
  let l := trim_chars (to_chars s) in
  match l with
  | [] => Some (inject_Z 0)
  | z :: x :: r =>
      if bool_decide (z = "0"%char) && bool_decide (lower x = "x"%char) then digits_number is_hex hex_value 16 r
      else if bool_decide (z = "0"%char) && bool_decide (lower x = "o"%char) then digits_number (below 8) digit_value 8 r
      else if bool_decide (z = "0"%char) && bool_decide (lower x = "b"%char) then digits_number (below 2) digit_value 2 r
      else signed decimal Qopp l
  | _ => signed decimal Qopp l
  end.
Example number_examples : map number_of ["12"; " -1.5e1 "; "0x1F"; "1e"; "Infinity"; "."; "--3"; "0b12"; ".5"]
  = [Some (inject_Z 12 * 1)%Q; Some (- (inject_Z 15 * inject_Z 1))%Q; Some (inject_Z 31); None; None; None; None; None; Some (inject_Z 5 * / inject_Z 10)%Q].
Proof. reflexivity. Qed.

Lemma decimal_digits l : forallb is_digit l = true -> l <> [] -> decimal l = Some (inject_Z (digits_value l) * 1)%Q.
Proof.
  intros Hd Hl. unfold decimal.
  assert (Hs : take_while is_digit l = l /\ drop_while is_digit l = []).
  { clear Hl. induction l as [|c l IH]; [done|]. cbn in Hd |- *. apply andb_true_iff in Hd as [Hc Hd]. rewrite Hc. destruct (IH Hd) as [-> ->]. done. }
  destruct Hs as [-> ->]. cbn [length]. rewrite app_nil_r, bool_decide_eq_false_2 by done. done.
Qed.

Lemma drop_space_digits l : forallb is_digit l = true -> drop_while is_space l = l.
Proof.
  destruct l as [|c l]; [done|]. cbn. intros [Hc _]%andb_true_iff. replace (is_space c) with false; [done|]. symmetry.
  unfold is_digit in Hc. unfold is_space. simp_ok. destruct (bool_decide_reflect (c = " "%char)); repeat (case_bool_decide; subst; cbn in *; try lia); lia.
Qed.
Lemma trim_digits l : forallb is_digit l = true -> trim_chars l = l.
Proof.
  intros Hl. unfold trim_chars. rewrite (drop_space_digits l) by done. rewrite drop_space_digits; [by apply reverse_involutive|].
  rewrite forallb_forall in Hl. apply forallb_forall. intros c Hc. apply Hl, list_elem_of_In, elem_of_reverse, list_elem_of_In, Hc.
Qed.
Lemma digit_is_no_letter c x : is_digit c = true -> (97 <=? code x) = true -> bool_decide (lower c = x) = false /\ minus c = false /\ plus c = false.
Proof.
  intros Hd Hx. unfold is_digit in Hd. simp_ok. split_and!; apply bool_decide_eq_false_2; intros Heq; [|subst c; vm_compute in *; intuition congruence..].
  unfold lower in Heq. replace ((65 <=? code c) && (code c <=? 90)) with false in Heq by lia. subst x. lia.
Qed.
(** The decimal text of a number reads back as it. *)
Lemma number_of_Z n : 0 <= n -> exists q, number_of (string_of_Z n) = Some q /\ integer_of q = Some n.
Proof.
  intros Hn. destruct (string_of_Z_digits n Hn) as (Hd & Hv & Hne). unfold number_of. set (l := to_chars (string_of_Z n)) in *. clearbody l.
  rewrite trim_digits by done. exists (inject_Z n * 1)%Q. split; [|unfold integer_of; cbn; by rewrite Z.mod_1_r, Z.div_1_r, Z.mul_1_r].
  assert (Hs : signed decimal Qopp l = Some (inject_Z n * 1)%Q).
  { destruct l as [|c r]; [done|]. cbn [signed]. pose proof Hd as Hc. cbn in Hc. apply andb_true_iff in Hc as [Hc _].
    destruct (digit_is_no_letter c "x"%char Hc eq_refl) as (_ & -> & ->). rewrite decimal_digits by done. by rewrite Hv. }
  destruct l as [|c [|x r]]; [done|done|]. cbn in Hd. apply andb_true_iff in Hd as [_ [Hx _]%andb_true_iff].
  destruct (digit_is_no_letter x "x"%char Hx eq_refl) as (-> & _), (digit_is_no_letter x "o"%char Hx eq_refl) as (-> & _), (digit_is_no_letter x "b"%char Hx eq_refl) as (-> & _).
  by rewrite !andb_false_r.
Qed.

(** ** The wake and its file *)

#[export] Instance Q_eq : EqDecision Q.
Proof. intros [a b] [c d]. destruct (decide (a = c)), (decide (b = d)); [left; congruence|right; congruence..]. Defined.
Inductive WakeOn :=
| OnRun (run : Z) (repo : option string) (attempt : option Z)
| OnTime (at_ : Q)
| OnCheck (command : string) (every at_ : Q).
#[export] Instance WakeOn_eq : EqDecision WakeOn.
Proof. solve_decision. Defined.
Record Wake := mkWake { w_session : string; w_root : option string; w_on : WakeOn; w_note : string; w_since : Q }.
#[export] Instance Wake_eq : EqDecision Wake.
Proof. solve_decision. Defined.

(** [/^[\w-]{1,128}$/], and [/^[\w.-]{1,160}$/] for a file's id. *)
Definition word (c : Ascii.ascii) : bool := is_digit c || ((97 <=? code (lower c)) && (code (lower c) <=? 122)) || bool_decide (c = "_"%char).
Definition SESSION (s : string) : bool :=
  let l := to_chars s in (1 <=? length l)%nat && (length l <=? 128)%nat && forallb (fun c => word c || minus c) l.
Definition FILE_ID (s : string) : bool :=
  let l := to_chars s in (1 <=? length l)%nat && (length l <=? 160)%nat && forallb (fun c => word c || dot c || minus c) l.

Definition MAX_SAFE : Z := 2 ^ 53 - 1.
(** [typeof v === "number" && Number.isSafeInteger(v) && v > low]. *)
Definition safe_over (low : Z) (v : option json) : option Z :=
  match v with
  | Some (JNum q) => match integer_of q with Some z => if (low <? z) && (z <=? MAX_SAFE) then Some z else None | None => None end
  | _ => None
  end.
Definition as_number (v : option json) : option Q := match v with Some (JNum q) => Some q | _ => None end.
Definition positive (q : Q) : bool := negb (Qle_bool q 0).
Definition nonempty (s : string) : bool := bool_decide (s <> "").

Definition parse_on (on : list (string * json)) : option WakeOn :=
  let kind := as_string (field on "kind") in
  match (if bool_decide (kind = Some "run") then safe_over 0 (field on "run") else None) with
  | Some run =>
      let repo := match as_string (field on "repo") with Some r => if nonempty r then Some r else None | None => None end in
      Some (OnRun run repo (safe_over 1 (field on "attempt")))
  | None =>
      match (if bool_decide (kind = Some "time") then as_number (field on "at") else None) with
      | Some at_ => Some (OnTime at_)
      | None =>
          if bool_decide (kind = Some "check") then
            match as_string (field on "command"), as_number (field on "every"), as_number (field on "at") with
            | Some command, Some every, Some at_ => if nonempty (trim command) && positive every then Some (OnCheck command every at_) else None
            | _, _, _ => None
            end
          else None
      end
  end.
Definition parseWake (value : json) : option Wake :=
  match value with
  | JObj fs =>
      match as_string (field fs "session"), as_object (field fs "on") with
      | Some session, Some on =>
          if SESSION session then
            let note := default "" (as_string (field fs "note")) in
            let since := default (inject_Z 0) (as_number (field fs "since")) in
            let root := match as_string (field fs "root") with Some r => if SESSION r && negb (bool_decide (r = session)) then Some r else None | None => None end in
            (fun on => mkWake session root on note since) <$> parse_on on
          else None
      | _, _ => None
      end
  | _ => None
  end.

Definition opt_field (k : string) (v : option json) : list (string * json) := match v with Some v => [(k, v)] | None => [] end.
Definition json_of_on (on : WakeOn) : json :=
  match on with
  | OnRun run repo attempt => JObj ([("kind", JStr "run"); ("run", JNum (inject_Z run))] ++ opt_field "repo" (JStr <$> repo) ++ opt_field "attempt" (JNum ∘ inject_Z <$> attempt))
  | OnTime at_ => JObj [("kind", JStr "time"); ("at", JNum at_)]
  | OnCheck command every at_ => JObj [("kind", JStr "check"); ("command", JStr command); ("every", JNum every); ("at", JNum at_)]
  end.
(** The file [armWake] writes: the fields of [parseWake]'s value in order. *)
Definition json_of_wake (w : Wake) : json :=
  JObj ([("session", JStr (w_session w))] ++ opt_field "root" (JStr <$> w_root w)
        ++ [("note", JStr (w_note w)); ("since", JNum (w_since w)); ("on", json_of_on (w_on w))]).

(** A wake as [parseWake] gives it. *)
Definition good_on (on : WakeOn) : Prop :=
  match on with
  | OnRun run repo attempt => 0 < run <= MAX_SAFE /\ repo <> Some "" /\ (forall a, attempt = Some a -> 1 < a <= MAX_SAFE)
  | OnTime _ => True
  | OnCheck command every _ => trim command <> "" /\ positive every = true
  end.
Record good_wake (w : Wake) : Prop := {
  gw_session : SESSION (w_session w) = true;
  gw_root : forall r, w_root w = Some r -> SESSION r = true /\ r <> w_session w;
  gw_on : good_on (w_on w) }.

Lemma safe_over_Some low v z : safe_over low v = Some z -> low < z <= MAX_SAFE.
Proof. unfold safe_over. intros. repeat case_match; simplify_eq. simp_ok. lia. Qed.
Lemma safe_over_Z low z : low < z <= MAX_SAFE -> safe_over low (Some (JNum (inject_Z z))) = Some z.
Proof. intros. unfold safe_over. rewrite integer_of_Z. replace (low <? z) with true by lia. by replace (z <=? MAX_SAFE) with true by lia. Qed.
Lemma parse_on_good fs on : parse_on fs = Some on -> good_on on.
Proof.
  unfold parse_on. intros H. repeat (case_match; simplify_eq; try done); simp_ok; cbn;
    try (match goal with H : safe_over 0 _ = Some _ |- _ => apply safe_over_Some in H end);
    split_and!; first [lia | intros a Ha; by apply safe_over_Some in Ha | done | intros ?; simplify_eq; by match goal with H : nonempty _ = true |- _ => vm_compute in H end
      | match goal with H : nonempty (trim _) = true |- _ => exact (bool_decide_eq_true_1 _ H) end].
Qed.
Lemma parseWake_good v w : parseWake v = Some w -> good_wake w.
Proof.
  unfold parseWake. intros H. destruct v as [| | | | |fs]; try done.
  destruct (as_string (field fs "session")) as [session|], (as_object (field fs "on")) as [on|]; try done. destruct (SESSION session) eqn:Es; [|done]. cbn zeta in H.
  destruct (parse_on on) as [on'|] eqn:E; [|done]. simplify_eq/=. constructor; cbn; [done| |by eapply parse_on_good].
  intros r Hr. destruct (as_string (field fs "root")) as [r'|]; [|done]. destruct (SESSION r') eqn:Er; [|done]. cbn [andb] in Hr. case_bool_decide; cbn in Hr; by simplify_eq.
Qed.
Lemma parse_json_of_on on : good_on on -> parse_on (match json_of_on on with JObj fs => fs | _ => [] end) = Some on.
Proof.
  destruct on as [run repo attempt|at_|command every at_]; cbn [json_of_on good_on].
  - intros (Hr & Hrepo & Ha). unfold parse_on. destruct repo as [r|], attempt as [a|]; cbn [opt_field fmap option_fmap option_map app]; lookups; cbn [as_string compose];
      rewrite (bool_decide_true (Some "run" = Some "run")), safe_over_Z by done; try (rewrite safe_over_Z by auto);
      try (match goal with |- context [nonempty ?r] => replace (nonempty r) with true by (symmetry; apply bool_decide_eq_true_2; congruence) end); reflexivity.
  - intros _. unfold parse_on. by lookups.
  - intros [Hc He]. unfold parse_on. lookups. cbn [as_string as_number]. rewrite He. replace (nonempty (trim command)) with true by (symmetry; by apply bool_decide_eq_true_2). reflexivity.
Qed.
(** A wake that was read is written as a file that reads back as it. *)
Lemma parse_json_of_wake w : good_wake w -> parseWake (json_of_wake w) = Some w.
Proof.
  intros [Hs Hr Ho]. destruct w as [session root on note since]. cbn in *. pose proof (parse_json_of_on _ Ho) as Hon.
  unfold json_of_wake, parseWake. destruct root as [r|]; cbn [opt_field fmap option_fmap option_map app w_session w_root w_on w_note w_since]; lookups; cbn [as_string].
  - destruct (Hr r eq_refl) as [H1 H2]. destruct (json_of_on on) as [| | | | |fs] eqn:E; try (by destruct on). cbn iota in Hon. cbn [as_object]. rewrite Hs, H1, bool_decide_eq_false_2, Hon by done. done.
  - destruct (json_of_on on) as [| | | | |fs] eqn:E; try (by destruct on). cbn iota in Hon. cbn [as_object]. by rewrite Hs, Hon.
Qed.

(** ** A thread's conversation as a wake's session *)

(** The text of a whole number: from [10^21] on one with an exponent, of which only the sign matters here, since no
    session name holds one. *)
Definition number_text (n : Z) : string := if Z.abs n <? 10 ^ 21 then string_of_Z n else "e+".
Definition wakeSession (thread : string) (conversation : Z) : string := thread +:+ "--" +:+ number_text conversation.

(** [lastIndexOf("--")]. *)
Fixpoint last_dashes (l : chars) : option nat :=
  match l with
  | [] => None
  | c :: r => match last_dashes r with Some i => Some (S i) | None => if starts_with (to_chars "--") l then Some O else None end
  end.
Definition wakeTarget (session : string) : string * Z :=
  match last_dashes (to_chars session) with
  | Some (S _ as at_) =>
      match number_of (of_chars (drop (at_ + 2) (to_chars session))) ≫= integer_of with
      | Some n => if 1 <=? n then (of_chars (take at_ (to_chars session)), n) else (session, 1)
      | None => (session, 1)
      end
  | _ => (session, 1)
  end.

Lemma last_dashes_app t l i : last_dashes l = Some i -> last_dashes (t ++ l) = Some (length t + i)%nat.
Proof. intros Hl. induction t as [|c t IH]; [done|]. cbn [app last_dashes length]. by rewrite IH. Qed.
Lemma dash_is_no_digit c r l : is_digit c = true -> starts_with ("-"%char :: r) (c :: l) = false.
Proof. intros Hc. cbn [starts_with]. destruct (decide ("-"%char = c)) as [<-|]; [done|by rewrite bool_decide_eq_false_2]. Qed.
Lemma last_dashes_digits l : forallb is_digit l = true -> last_dashes l = None /\ last_dashes ("-"%char :: l) = None /\ last_dashes ("-"%char :: "-"%char :: l) = Some O.
Proof.
  intros Hl. assert (H1 : last_dashes l = None).
  { induction l as [|c l IH]; [done|]. cbn in Hl. apply andb_true_iff in Hl as [Hc Hl]. cbn [last_dashes]. rewrite IH by done. change (to_chars "--") with ("-"%char :: to_chars "-"). by rewrite (dash_is_no_digit c (to_chars "-")). }
  assert (H2 : last_dashes ("-"%char :: l) = None).
  { cbn [last_dashes]. rewrite H1. destruct l as [|c l]; [done|]. cbn in Hl. apply andb_true_iff in Hl as [Hc _].
    change (starts_with (to_chars "--") ("-"%char :: c :: l)) with (starts_with ["-"%char] (c :: l)). by rewrite (dash_is_no_digit c []). }
  split_and!; [done|done|]. change (last_dashes ("-"%char :: "-"%char :: l)) with (match last_dashes ("-"%char :: l) with Some i => Some (S i) | None => Some O end). by rewrite H2.
Qed.
(** The ticker hands a wake back to the conversation that armed it. *)
Lemma wakeTarget_wakeSession thread n : thread <> "" -> 1 <= n < 10 ^ 21 -> wakeTarget (wakeSession thread n) = (thread, n).
Proof.
  intros Ht Hn. unfold wakeTarget, wakeSession, number_text. replace (Z.abs n <? 10 ^ 21) with true by lia.
  destruct (string_of_Z_digits n ltac:(lia)) as (Hd & _ & _). rewrite !to_chars_app.
  destruct (last_dashes_digits _ Hd) as (_ & _ & H2). change (to_chars "--" ++ ?l) with ("-"%char :: "-"%char :: l).
  rewrite (last_dashes_app (to_chars thread) _ _ H2), Nat.add_0_r. destruct (length (to_chars thread)) as [|k] eqn:Hk; [by destruct thread|].
  assert (Hdrop : forall r, drop (S k + 2) (to_chars thread ++ "-"%char :: "-"%char :: r) = r).
  { intros r. rewrite drop_app_ge by lia. by replace (S k + 2 - length (to_chars thread))%nat with 2%nat by lia. }
  rewrite Hdrop, <- Hk, take_app_length. destruct (number_of_Z n ltac:(lia)) as (q & Hq & Hi). unfold of_chars, to_chars. rewrite !String.string_of_list_ascii_of_string, Hq.
  cbn [mbind option_bind]. rewrite Hi. by replace (1 <=? n) with true by lia.
Qed.

(** [Number(v)] of a parsed value. *)
Fixpoint to_number (v : json) : option Q :=
  match v with
  | JNull => Some (inject_Z 0)
  | JBool b => Some (inject_Z (if b then 1 else 0))
  | JNum q => Some q
  | JStr s => number_of s
  | JArr [] => Some (inject_Z 0)
  | JArr [JBool _] => None
  | JArr [v] => to_number v
  | JArr _ | JObj _ => None
  end.

(** [.replace(/^It is \S+\.\s*/, "")]: [\S+\.] ends at the last dot of the run that is not its first character. *)
Fixpoint last_dot (l : chars) : option nat :=
  match l with [] => None | c :: r => match last_dot r with Some i => Some (S i) | None => if dot c then Some O else None end end.
Definition strip_time (text : string) : string :=
  let l := to_chars text in
  if starts_with (to_chars "It is ") l then
    match last_dot (take_while (fun c => negb (is_space c)) (drop 6 l)) with
    | Some (S i) => of_chars (drop_while is_space (drop (S (S i)) (drop 6 l)))
    | _ => text
    end
  else text.
Example strip_time_examples : map strip_time ["It is 2026-10-20T09:00:00.000Z. Look at p4."; "It is late"; "It is 12.5. a. b"] = ["Look at p4."; "It is late"; "a. b"].
Proof. reflexivity. Qed.

Definition ARM_ERROR : string :=
  "A wake needs on={kind: " +:+ dquote +:+ "run" +:+ dquote +:+ ", run} or {kind: " +:+ dquote +:+ "time" +:+ dquote +:+ ", at} or {kind: "
  +:+ dquote +:+ "check" +:+ dquote +:+ ", command, every, at}, with times in epoch ms.".
(** The conversation of a request. *)
Definition arm_conversation (body : list (string * json)) : Z :=
  match as_number (field body "conversation") ≫= integer_of with Some n => if 1 <=? n then n else 1 | None => 1 end.
(** The value [parseArm] gives [parseWake].  A time that is no number is refused there, as an absent one is. *)
Definition arm_value (thread : string) (body : list (string * json)) (now : Z) : json :=
  let session := wakeSession thread (arm_conversation body) in
  let legacy := match field body "on", field body "at" with None, Some at_ => Some at_ | _, _ => None end in
  let on := match legacy with Some at_ => Some (JObj (("kind", JStr "time") :: opt_field "at" (JNum <$> to_number at_))) | None => field body "on" end in
  let note := match legacy with Some _ => strip_time <$> as_string (field body "text") | None => as_string (field body "note") end in
  JObj (("session", JStr session) :: opt_field "on" on ++ [("note", JStr (default "" note)); ("since", JNum (default (inject_Z now) (as_number (field body "since"))))]).
(** [Math.round]. *)
Definition round (q : Q) : Z := Qfloor (q + (1 # 2)).
Definition parseArm (thread : string) (body : list (string * json)) (now : Z) : result (string * Wake) :=
  match parseWake (arm_value thread body now) with
  | None => Throw ARM_ERROR
  | Some wake =>
      let key := match w_on wake with
                 | OnRun run _ _ => "run-" +:+ number_text run
                 | OnTime at_ => "time-" +:+ number_text (round (at_ / inject_Z 1000))
                 | OnCheck _ _ _ => "check-" +:+ number_text now
                 end in
      let id := match as_string (field body "id") with Some id => if FILE_ID id then Some id else None | None => None end in
      Ok (default (wakeSession thread (arm_conversation body) +:+ "-" +:+ key) id, wake)
  end.
(** [armWake]: the file's name and value. *)
Definition armWake (thread : string) (body : list (string * json)) (now : Z) : result (string * json) :=
  '(id, wake) ← parseArm thread body now; Ok (id +:+ ".json", json_of_wake wake).
(** What [adoptOldWakes] writes over a file, from its value. *)
Definition adoptOldWake (old : json) (now : Z) : option json :=
  match old with
  | JObj fs =>
      match as_string (field fs "thread"), field fs "on", field fs "session" with
      | Some thread, None, None => match parseArm thread fs now with Ok (_, wake) => Some (json_of_wake wake) | Throw _ => None end
      | _, _, _ => None
      end
  | _ => None
  end.

(** ** What a due wake says *)

(** [new Date(t).toISOString()], which throws outside the range of dates. *)
Class WakeClock := { toISO : Q -> result string }.

Record CheckResult := mkCheck { ok : bool; output : string }.
Inductive RunState :=
| Going
| Done (conclusion : string) (attempt endedAt : option Z) (url label : string) (why : option string)
| Unread (error : string).
#[export] Instance CheckResult_eq : EqDecision CheckResult.
Proof. solve_decision. Defined.
#[export] Instance RunState_eq : EqDecision RunState.
Proof. solve_decision. Defined.

Definition CHECK_TAIL : nat := 1500.
Definition TICK_MS : Z := 30000.
Definition RUN_LOOK_MS : Z := 2 * 60000.
Definition UNREADABLE_MS : Z := 10 * 60000.
Definition RUN_WAKE_DUE_MS : Z := RUN_LOOK_MS + TICK_MS.
Definition RERUN_GAP_MS : Z := 120 * 60000.
Definition rerunMissed (w : Wake) (state : option RunState) (now : Z) : bool :=
  match w_on w, state with
  | OnRun _ _ attempt, Some (Done _ reached endedAt _ _ _) =>
      (default 1 reached <? default 1 attempt) && match endedAt with Some e => RERUN_GAP_MS <=? now - e | None => false end
  | _, _ => false
  end.

Definition if_text (s : string) (f : string -> string) : string := if nonempty s then f s else "".
Definition slice_end (n : nat) (s : string) : string := of_chars (drop (length (to_chars s) - n) (to_chars s)).
Definition slice_to (n : nat) (s : string) : string := of_chars (take n (to_chars s)).
Definition squash (s : string) : string := of_chars (trim_chars (collapse false (to_chars s))).
Definition per (a : Q) (unit : Z) : Z := round (a / inject_Z unit).
Definition tick_quoted (s : string) : string := "`" +:+ s +:+ "`".
Definition POLL_HINT : string :=
  "If this wake only looks whether something happened and then sets another wake, set board.wake(check=" +:+ dquote +:+ "<shell command that exits 0 once it happened>"
  +:+ dquote +:+ ", at=<deadline>) instead: the chat service runs the command every few minutes and wakes you only once it passes, so no turn or kernel is spent on each look.".

Section Texts.
Context `{WakeClock}.
Definition stampOf (t : Q) : result string := s ← toISO t; Ok (slice_to 19 s +:+ "Z").
Definition endedLine (endedAt : option Z) (setAt : Q) : result string :=
  match endedAt with
  | None => Ok ""
  | Some e =>
      let before := per (setAt - inject_Z e) 60000 in
      at_ ← stampOf (inject_Z e);
      rest ← (if 1 <=? before then s ← stampOf setAt; Ok (", " +:+ number_text before +:+ " min before you set this wake at " +:+ s) else Ok "");
      Ok ("It ended at " +:+ at_ +:+ rest +:+ ". ")
  end.
Definition in_repo (repo : option string) : string := match repo with Some r => " in " +:+ r | None => "" end.
(** The text of a finished run; the last part alone has its blanks squashed. *)
Definition run_text (w : Wake) (run : Z) (repo : option string) (wanted : option Z) (state : option RunState) (now : Z) (note : string) : result string :=
  let head := "[wake] Run " +:+ number_text run +:+ in_repo repo in
  match state with
  | Some (Unread error) =>
      Ok (head +:+ " could not be read for " +:+ number_text (per (inject_Z UNREADABLE_MS) 60000) +:+ " min: " +:+ error +:+ ". "
          +:+ "If it runs in another repo than the CI cache's, set board.wake(run=" +:+ number_text run +:+ ", repo=" +:+ dquote +:+ "owner/name" +:+ dquote +:+ ") again." +:+ note)
  | Some (Done conclusion attempt endedAt url label why) =>
      if rerunMissed w state now then
        ended ← match endedAt with None => Ok "" | Some e => s ← toISO (inject_Z e); Ok (" at " +:+ slice_to 16 s +:+ "Z") end;
        Ok (head +:+ ": you waited for attempt " +:+ match wanted with Some a => number_text a | None => "undefined" end +:+ ", but the rerun never started. "
            +:+ "Attempt " +:+ number_text (default 1 attempt) +:+ " ended " +:+ conclusion +:+ ended +:+ if_text label (fun l => " (" +:+ l +:+ ")") +:+ " and no rerun followed in "
            +:+ number_text (per (inject_Z (now - default now endedAt)) 3600000) +:+ " h. "
            +:+ squash (url +:+ " Wake on the run that replaced it, or set board.wake again once a rerun starts. You set this wake with board.wake." +:+ note))
      else
        let about := String.concat ", " (List.filter nonempty [match attempt with Some a => "attempt " +:+ number_text a | None => "" end; label]) in
        let rerun := match attempt with
                     | Some a => if bool_decide (conclusion = "success") then ""
                                 else " A rerun keeps this run id: to wait for its next attempt, set board.wake(run=" +:+ number_text run +:+ ", attempt=" +:+ number_text (a + 1) +:+ ")."
                     | None => "" end in
        ended ← endedLine endedAt (w_since w);
        Ok (head +:+ " finished: " +:+ conclusion +:+ if_text about (fun a => " (" +:+ a +:+ ")") +:+ ". "
            +:+ squash (ended +:+ match why with Some y => if_text y (fun y => y +:+ " ") | None => "" end +:+ url +:+ rerun +:+ " You set this wake with board.wake." +:+ note))
  | _ => Ok (head +:+ " finished: unknown. " +:+ squash (" You set this wake with board.wake." +:+ note))
  end.
Definition wakeText (w : Wake) (state : option RunState) (now : Z) (check : option CheckResult) : result string :=
  let note := if_text (w_note w) (fun n => " Your note: " +:+ n) in
  match w_on w with
  | OnRun run repo attempt => run_text w run repo attempt state now note
  | OnTime at_ =>
      n ← toISO (inject_Z now); t ← toISO at_;
      Ok ("[wake] It is " +:+ n +:+ ", the time you set with board.wake (" +:+ t +:+ ")." +:+ note +:+ " " +:+ POLL_HINT)
  | OnCheck command _ at_ =>
      let printed := match check with Some c => trim (output c) | None => "" end in
      let said := if_text printed (fun p => " printed: " +:+ slice_end CHECK_TAIL p) in
      n ← toISO (inject_Z now);
      match check with
      | Some (mkCheck true _) => Ok ("[wake] Your board.wake check passed at " +:+ n +:+ ": " +:+ tick_quoted command +:+ " exited 0." +:+ if_text said (fun s => " It" +:+ s) +:+ note)
      | _ =>
          t ← toISO at_;
          Ok ("[wake] It is " +:+ n +:+ ", the deadline you set with board.wake (" +:+ t +:+ "), and your check " +:+ tick_quoted command +:+ " never exited 0"
              +:+ match check with Some _ => "" | None => " (it never ran)" end +:+ "."
              +:+ match check with Some _ => " Its last run" +:+ (if nonempty said then said else " printed nothing") | None => "" end +:+ note)
      end
  end.
End Texts.

(** ** Lists of wakes *)

Definition WAKE_LATE_MS : Z := 2 * 60000.
Definition on_at (on : WakeOn) : option Q := match on with OnRun _ _ _ => None | OnTime t | OnCheck _ _ t => Some t end.
Definition after (now : Z) (t : Q) : bool := negb (Qle_bool t (inject_Z now)).
(** The wakes the service still owes; [tickedAt] is the time the file [TICKED] says. *)
Definition owedWakes (wakes : list Wake) (tickedAt : option Z) (now : Z) : list Wake :=
  let ticking := match tickedAt with Some t => now - t <=? WAKE_LATE_MS | None => false end in
  List.filter (fun w => match on_at (w_on w) with None => true | Some t => after now t || ticking end) wakes.
(** [pendingWakes]: [files] are the values of the wake files that could be read and parsed as JSON. *)
Definition pendingWakes (files : list json) (tickedAt : option Z) (now : Z) : list Wake := owedWakes (omap parseWake files) tickedAt now.

Definition wake_key (w : Wake) : Q := default (inject_Z 0) (on_at (w_on w)).
Definition by_time (ws : list Wake) : list Wake := sort_by (fun a b => Qle_bool (wake_key a) (wake_key b)) ws.
(** ["a, b and c"]. *)
Definition and_list (what : list string) : string :=
  match last what with
  | Some z => if (1 <? length what)%nat then String.concat ", " (removelast what) +:+ " and " +:+ z else z
  | None => "undefined"
  end.
Section Labels.
Context `{WakeClock}.
Definition clockOf (t : Q) : result string := s ← toISO t; Ok (of_chars (take 5 (drop 11 (to_chars s))) +:+ "Z").
Definition wakeLabel (ws : list Wake) : result string :=
  what ← mapM (fun w => match w_on w with
                        | OnTime t => c ← clockOf t; Ok ("at " +:+ c)
                        | OnCheck _ _ t => c ← clockOf t; Ok ("on a check by " +:+ c)
                        | OnRun run repo _ => Ok ("on run " +:+ number_text run +:+ in_repo repo)
                        end) (by_time ws);
  Ok ((if bool_decide (length what = 1%nat) then "a board.wake" else "board.wakes") +:+ " " +:+ and_list what).
Definition wakeWait (ws : list Wake) : result string :=
  what ← mapM (fun w => match w_on w with
                        | OnTime t => clockOf t
                        | OnCheck _ _ t => c ← clockOf t; Ok ("a check by " +:+ c)
                        | OnRun run _ _ => Ok ("run " +:+ number_text run)
                        end) (by_time ws);
  let what := unique what in
  Ok ("waits for " +:+ match what with [] => "a board.wake" | _ => and_list what end).
End Labels.

(** ** The submit of a due wake, [startThreadWakes]'s [deliver] *)

Record WakeSubmit := mkWakeSubmit { ws_thread : string; ws_conversation : option Z; ws_text : string; ws_requestId : string * Q }.
(** The request id as the session and the time its text is made of. *)
Definition wake_submit (session text : string) (setAt : Q) : WakeSubmit :=
  let '(thread, conversation) := wakeTarget session in
  mkWakeSubmit thread (if conversation =? 1 then None else Some conversation) text (session, setAt).

(** ** Theorems *)

Lemma parseWake_fields fs w : parseWake (JObj fs) = Some w -> as_string (field fs "session") = Some (w_session w) /\ w_since w = default (inject_Z 0) (as_number (field fs "since")).
Proof.
  unfold parseWake. intros H. destruct (as_string (field fs "session")) as [session|], (as_object (field fs "on")) as [on|]; try done.
  destruct (SESSION session); [|done]. destruct (parse_on on); by simplify_eq/=.
Qed.
Lemma arm_value_wake thread body now w : parseWake (arm_value thread body now) = Some w -> w_session w = wakeSession thread (arm_conversation body).
Proof. intros [H _]%parseWake_fields. revert H. lookups. cbn [as_string]. by intros [= <-]. Qed.
Lemma arm_conversation_pos body : 1 <= arm_conversation body.
Proof. unfold arm_conversation. repeat case_match; lia. Qed.
Lemma session_has_no_plus thread n : SESSION (wakeSession thread n) = true -> Z.abs n < 10 ^ 21.
Proof.
  unfold SESSION, wakeSession, number_text. destruct (Z.abs n <? 10 ^ 21) eqn:E; [lia|]. rewrite !to_chars_app. intros [_ H]%andb_true_iff.
  rewrite !forallb_app in H. by rewrite !andb_false_r in H.
Qed.
(** C33: A wake that [armWake] takes goes back where it came from: whatever the request says, the file it writes is read by the
    ticker as the very wake that was parsed, and the session in it names the thread and the conversation of the
    request, so the submit of the wake goes to that conversation of that thread. *)
Theorem armed_wakes_come_back thread body now name file :
  thread <> "" -> armWake thread body now = Ok (name, file) ->
  exists w, parseWake file = Some w
  /\ wakeTarget (w_session w) = (thread, arm_conversation body)
  /\ (forall text setAt, ws_thread (wake_submit (w_session w) text setAt) = thread
      /\ default 1 (ws_conversation (wake_submit (w_session w) text setAt)) = arm_conversation body).
Proof.
  intros Ht H. unfold armWake, parseArm in H. destruct (parseWake (arm_value thread body now)) as [w|] eqn:E; [|done]. cbn in H. simplify_eq.
  exists w. pose proof (parseWake_good _ _ E) as Hg. pose proof (arm_value_wake _ _ _ _ E) as Hs. split; [by apply parse_json_of_wake|].
  assert (Hw : wakeTarget (w_session w) = (thread, arm_conversation body)).
  { rewrite Hs. apply wakeTarget_wakeSession; [done|]. split; [apply arm_conversation_pos|]. destruct Hg as [Hg _ _]. rewrite Hs in Hg. apply session_has_no_plus in Hg. lia. }
  split; [done|]. intros text setAt. unfold wake_submit. rewrite Hw. cbn. split; [done|]. destruct (arm_conversation body =? 1) eqn:E1; cbn; lia.
Qed.
Definition demo_arm : list (string * json) :=
  [("conversation", JNum (inject_Z 3)); ("on", JObj [("kind", JStr "run"); ("run", JNum (inject_Z 42)); ("attempt", JNum (inject_Z 2))]); ("note", JStr "p4")].
Lemma armed_wakes_come_back_witness :
  exists w, parseWake (json_of_wake (mkWake "a-b----3" None (OnRun 42 None (Some 2)) "p4" (inject_Z 7))) = Some w /\ wakeTarget (w_session w) = ("a-b--", 3).
Proof.
  destruct (armed_wakes_come_back "a-b--" demo_arm 7 "a-b----3-run-42.json" (json_of_wake (mkWake "a-b----3" None (OnRun 42 None (Some 2)) "p4" (inject_Z 7))) ltac:(done) ltac:(reflexivity)) as (w & H1 & H2 & _).
  by exists w.
Defined.

(** Old wake files of one conversation that are rewritten in the same millisecond get one request id, whatever their times. *)
Theorem adopted_wakes_share_an_id thread at1 at2 now f1 f2 w1 w2 :
  let old at_ := JObj [("id", JStr "x"); ("thread", JStr thread); ("at", JNum at_); ("text", JStr "t")] in
  adoptOldWake (old at1) now = Some f1 -> adoptOldWake (old at2) now = Some f2 -> parseWake f1 = Some w1 -> parseWake f2 = Some w2 ->
  forall t1 t2, ws_requestId (wake_submit (w_session w1) t1 (w_since w1)) = ws_requestId (wake_submit (w_session w2) t2 (w_since w2)).
Proof.
  cbn zeta. assert (Hall : forall at_ f w, adoptOldWake (JObj [("id", JStr "x"); ("thread", JStr thread); ("at", JNum at_); ("text", JStr "t")]) now = Some f ->
    parseWake f = Some w -> w_session w = wakeSession thread 1 /\ w_since w = inject_Z now).
  { intros at_ f w Ha Hp. unfold adoptOldWake in Ha. revert Ha. lookups. cbn [as_string]. unfold parseArm.
    destruct (parseWake (arm_value _ _ _)) as [w'|] eqn:E; [|done]. intros [= <-]. rewrite (parse_json_of_wake w') in Hp by (by eapply parseWake_good). simplify_eq.
    split; [by apply arm_value_wake in E|]. apply parseWake_fields in E as [_ ->]. unfold arm_value. by lookups. }
  intros H1 H2 P1 P2 t1 t2. destruct (Hall _ _ _ H1 P1) as [S1 N1], (Hall _ _ _ H2 P2) as [S2 N2]. unfold wake_submit. rewrite S1, S2, N1, N2.
  by destruct (wakeTarget _).
Qed.
