(* ===== verification/WakeTree.v ===== *)
(** * The wakes of a session's tree

    [treeWakes] and [treeWakeIndex] of [legacy/prime/user-history/src/wakes.ts]: the wakes of a session and of every
    session below it, found down from the session or for every session at once up from each wake.  The daemon's list is two
    arguments, the children of a session and its parent.  The loops run while they find new sessions, so they carry fuel, and
    the theorem says how much is enough. *)

From S2P Require Import Prelude Json Wake.
From Stdlib Require QArith.QArith_base.
#[local] Open Scope string_scope.
#[local] Open Scope list_scope.

Section Tree.
Context (below : string -> list string) (above : string -> option string).

(** [set.add(x)]. *)
Definition add_new (l : list string) (x : string) : list string := if bool_decide (x ∈ l) then l else l ++ [x].
(** The loop of [treeSessions]: the set is walked in order while it grows; [i] is the next place. *)
Fixpoint walk_down (fuel i : nat) (sessions : list string) : option (list string) :=
  match fuel with
  | O => None
  | S fuel => match sessions !! i with None => Some sessions | Some id => walk_down fuel (S i) (fold_left add_new (below id) sessions) end
  end.
Definition treeSessions (fuel : nat) (session : string) : option (list string) := walk_down fuel 0 [session].

(** [wakeIndex]. *)
Definition index_place (index : list (string * list nat)) (p : nat * Wake) : list (string * list nat) :=
  OMap.set (w_session p.2) (default [] (OMap.get (w_session p.2) index) ++ [p.1]) index.
Definition wakeIndex (wakes : list Wake) : list (string * list nat) := fold_left index_place (zip (seq 0 (length wakes)) wakes) [].
Definition treeWakes (fuel : nat) (session : string) (wakes : list Wake) : option (list Wake) :=
  let index := wakeIndex wakes in
  if bool_decide (index = []) then Some []
  else (fun sessions => omap (fun at_ => wakes !! at_) (sort_by Nat.leb (flat_map (fun id => default [] (OMap.get id index)) sessions))) <$> treeSessions fuel session.

(** The loop of [treeWakeIndex] from one wake's session up. *)
Fixpoint walk_up (fuel : nat) (seen : list string) (id : option string) (wake : Wake) (index : list (string * list Wake)) : option (list (string * list Wake)) :=
  match fuel with
  | O => None
  | S fuel =>
      match id with
      | None => Some index
      | Some id =>
          if bool_decide (id ∈ seen) then Some index
          else walk_up fuel (id :: seen) (above id) wake (OMap.set id (default [] (OMap.get id index) ++ [wake]) index)
      end
  end.
Fixpoint index_up (fuel : nat) (wakes : list Wake) (index : list (string * list Wake)) : option (list (string * list Wake)) :=
  match wakes with
  | [] => Some index
  | w :: wakes => walk_up fuel [] (Some (w_session w)) w index ≫= index_up fuel wakes
  end.
Definition treeWakeIndex (fuel : nat) (wakes : list Wake) : option (list (string * list Wake)) := index_up fuel wakes [].

(** ** The walk down *)

(** [x] is [s] or a session below it. *)
Definition under (s x : string) : Prop := rtc (fun a b => above a = Some b) x s.
Context (U : list string).
Context (Hbelow : forall p c, c ∈ below p <-> above c = Some p).
Context (HU : forall c p, above c = Some p -> c ∈ U /\ p ∈ U).

Lemma elem_add_new l x y : y ∈ add_new l x <-> y ∈ l \/ y = x.
Proof. unfold add_new. case_bool_decide; [naive_solver|]. rewrite elem_of_app, list_elem_of_singleton. done. Qed.
Lemma add_all xs l : (forall y, y ∈ fold_left add_new xs l <-> y ∈ l \/ y ∈ xs) /\ (NoDup l -> NoDup (fold_left add_new xs l)) /\ l `prefix_of` fold_left add_new xs l.
Proof.
  revert l. induction xs as [|x xs IH]; intros l; cbn [fold_left]; [split_and!; [set_solver|done|done]|]. destruct (IH (add_new l x)) as (H1 & H2 & H3). split_and!.
  - intros y. rewrite H1, elem_add_new, elem_of_cons. naive_solver.
  - intros Hl. apply H2. unfold add_new. case_bool_decide; [done|]. apply NoDup_app. split_and!; [done|set_solver|apply NoDup_singleton].
  - etrans; [|exact H3]. unfold add_new. case_bool_decide; [done|]. by apply prefix_app_r.
Qed.

(** The set so far: of [s]'s tree, with the children of every session before place [i]. *)
Record Walked (s : string) (i : nat) (l : list string) : Prop := {
  wk_start : s ∈ l;
  wk_nodup : NoDup l;
  wk_under : forall x, x ∈ l -> under s x;
  wk_closed : forall j p c, (j < i)%nat -> l !! j = Some p -> above c = Some p -> c ∈ l }.
Lemma walked_step s i l id : Walked s i l -> l !! i = Some id -> Walked s (S i) (fold_left add_new (below id) l).
Proof.
  intros [H1 H2 H3 H4] Hi. destruct (add_all (below id) l) as (Ha & Hn & Hp). constructor.
  - apply Ha. by left.
  - by apply Hn.
  - intros x [Hx|Hx]%Ha; [by apply H3|]. apply Hbelow in Hx. eapply rtc_l; [exact Hx|]. apply H3. by eapply list_elem_of_lookup_2.
  - intros j p c Hj Hl Hc. apply Ha. assert (Hlj : (j < length l)%nat) by (apply lookup_lt_Some in Hi; lia).
    destruct Hp as [k Hk]. rewrite Hk, lookup_app_l in Hl by done. destruct (decide (j = i)) as [->|Hne].
    + right. simplify_eq. by apply Hbelow.
    + left. eapply (H4 j); [lia|done|done].
Qed.
Lemma under_in_U s x : s ∈ U -> under s x -> x ∈ U.
Proof. intros Hs H. inversion H as [|? y ? Hy]; subst; [done|]. by apply HU in Hy as [? _]. Qed.
Lemma walk_down_spec s fuel i l : s ∈ U -> Walked s i l -> (i <= length l)%nat -> (length U < fuel + i)%nat ->
  exists l', walk_down fuel i l = Some l' /\ NoDup l' /\ forall x, x ∈ l' <-> under s x.
Proof.
  intros Hs. revert i l. induction fuel as [|fuel IH]; intros i l Hw Hi Hf.
  - exfalso. assert (length l <= length U)%nat; [|lia]. apply submseteq_length, NoDup_submseteq; [by destruct Hw|]. intros x Hx. eapply under_in_U; [done|]. by eapply wk_under.
  - cbn [walk_down]. destruct (l !! i) as [id|] eqn:E.
    + assert (Hlen : (i < length l)%nat) by (by eapply lookup_lt_Some). apply IH; [by apply walked_step| |lia].
      destruct (add_all (below id) l) as (_ & _ & Hp). apply prefix_length in Hp. lia.
    + exists l. apply lookup_ge_None in E. destruct Hw as [H1 H2 H3 H4]. split_and!; [done|done|]. intros x. split; [apply H3|].
      unfold under. intros Hx. revert x Hx. apply rtc_ind_l; [done|]. intros x y Hxy _ IHx.
      apply list_elem_of_lookup in IHx as [j Hj]. eapply (H4 j); [apply lookup_lt_Some in Hj; lia|done|done].
Qed.
Lemma treeSessions_spec fuel s : s ∈ U -> (length U < fuel)%nat -> exists l, treeSessions fuel s = Some l /\ NoDup l /\ forall x, x ∈ l <-> under s x.
Proof.
  intros Hs Hf. apply walk_down_spec; [done| |cbn; lia|lia]. constructor; [by left|apply NoDup_singleton| |lia].
  intros x ->%list_elem_of_singleton. apply rtc_refl.
Qed.

(** ** The walk up *)

Definition held (y : string) (index : list (string * list Wake)) : list Wake := default [] (OMap.get y index).
Lemma walk_up_spec wake fuel : forall seen id index, NoDup seen -> (forall x, x ∈ seen -> x ∈ U) -> (forall x, id = Some x -> x ∈ U) -> (length U < fuel + length seen)%nat ->
  exists index' (vis : list string), walk_up fuel seen id wake index = Some index'
  /\ (forall y, held y index' = held y index ++ (if bool_decide (y ∈ vis) then [wake] else []))
  /\ (forall y, y ∈ vis -> (y ∉ seen) /\ (exists x, id = Some x /\ under y x))
  /\ (forall x, id = Some x -> x ∈ vis \/ x ∈ seen)
  /\ (forall y p, y ∈ vis -> above y = Some p -> p ∈ vis \/ p ∈ seen).
Proof.
  induction fuel as [|fuel IH]; intros seen id index Hnd Hin Hid Hf.
  - exfalso. assert (length seen <= length U)%nat; [|lia]. by apply submseteq_length, NoDup_submseteq.
  - cbn [walk_up]. assert (Hstop : forall i : list (string * list Wake), exists index' (vis : list string), Some i = Some index' /\ (forall y, held y index' = held y i ++ (if bool_decide (y ∈ vis) then [wake] else []))
      /\ vis = []).
    { intros i. exists i, []. split_and!; [done| |done]. intros y. by rewrite bool_decide_eq_false_2, app_nil_r by set_solver. }
    destruct id as [x|]; [case_bool_decide as Hx|].
    + destruct (Hstop index) as (i & vis & H1 & H2 & ->). exists i, []. split_and!; [done|done|set_solver|naive_solver|set_solver].
    + destruct (IH (x :: seen) (above x) (OMap.set x (default [] (OMap.get x index) ++ [wake]) index)) as (i & vis & H1 & H2 & H3 & H4 & H5).
      * by apply NoDup_cons.
      * intros y [->|Hy]%elem_of_cons; [by apply Hid|by apply Hin].
      * intros y Hy. by apply HU in Hy as [_ ?].
      * cbn [length]. lia.
      * exists i, (x :: vis). split; [done|]. split_and!.
        -- intros y. rewrite H2. unfold held. rewrite OMap.get_set. case_decide as Hyx; [subst y|].
           ++ cbn [default]. rewrite bool_decide_eq_false_2, bool_decide_eq_true_2, app_nil_r; [done|by left|]. intros Hv. destruct (H3 _ Hv) as [Hv' _]. apply Hv'. by left.
           ++ f_equal. apply (f_equal (fun b : bool => if b then [wake] else [])). apply bool_decide_ext. set_solver.
        -- intros y [->|Hy]%elem_of_cons; [split; [done|]; exists x; split; [done|apply rtc_refl]|]. destruct (H3 _ Hy) as [Hn (p & Hp & Hu)]. split; [set_solver|].
           exists x. split; [done|]. eapply rtc_l; [exact Hp|exact Hu].
        -- intros y [= ->]. left. by left.
        -- intros y p [->|Hy]%elem_of_cons Hp; [destruct (H4 _ Hp) as [?|?]|destruct (H5 _ _ Hy Hp) as [?|?]]; set_solver.
    + destruct (Hstop index) as (i & vis & H1 & H2 & ->). exists i, []. split_and!; [done|done|set_solver|naive_solver|set_solver].
Qed.
(** One wake is put in the list of each session above its own, and of its own, once. *)
Lemma walk_up_all wake fuel index : w_session wake ∈ U -> (length U < fuel)%nat -> exists index', walk_up fuel [] (Some (w_session wake)) wake index = Some index'
  /\ forall s (l : list string), (forall x, x ∈ l <-> under s x) -> held s index' = held s index ++ (if bool_decide (w_session wake ∈ l) then [wake] else []).
Proof.
  intros Hw Hf. destruct (walk_up_spec wake fuel [] (Some (w_session wake)) index) as (i & vis & H1 & H2 & H3 & H4 & H5);
    [constructor|by intros ? ?%elem_of_nil|naive_solver|cbn; lia|].
  exists i. split; [done|]. intros s l Hl. rewrite H2. f_equal. apply (f_equal (fun b : bool => if b then [wake] else [])). apply bool_decide_ext. rewrite Hl. split.
  - intros Hs. destruct (H3 _ Hs) as [_ (x & [= <-] & Hu)]. exact Hu.
  - unfold under. intros Hu. assert (Hc : forall a b, rtc (fun a b => above a = Some b) a b -> a ∈ vis -> b ∈ vis).
    { induction 1 as [|a b c Hab _ IH]; [done|]. intros Ha. apply IH. destruct (H5 _ _ Ha Hab) as [?|?%elem_of_nil]; done. }
    eapply Hc; [exact Hu|]. destruct (H4 _ eq_refl) as [?|?%elem_of_nil]; done.
Qed.
Lemma index_up_spec fuel wakes : (forall w, w ∈ wakes -> w_session w ∈ U) -> (length U < fuel)%nat -> forall index, exists index', index_up fuel wakes index = Some index'
  /\ forall s (l : list string), (forall x, x ∈ l <-> under s x) -> held s index' = held s index ++ List.filter (fun w => bool_decide (w_session w ∈ l)) wakes.
Proof.
  intros Hin Hf. induction wakes as [|w wakes IH]; intros index; cbn [index_up].
  - exists index. split; [done|]. intros. cbn. by rewrite app_nil_r.
  - destruct (walk_up_all w fuel index) as (i & -> & Hi); [apply Hin; by left|done|]. cbn [mbind option_bind].
    destruct (IH ltac:(intros ? ?; apply Hin; by right) i) as (i' & -> & Hi'). exists i'. split; [done|]. intros s l Hl.
    rewrite (Hi' s l Hl), (Hi s l Hl), <- app_assoc. f_equal. cbn [List.filter]. by case_bool_decide.
Qed.

(** ** The places of a tree's wakes *)

Definition placed (wakes : list Wake) : list (nat * Wake) := zip (seq 0 (length wakes)) wakes.
Lemma index_places ps index id : default [] (OMap.get id (fold_left index_place ps index)) = default [] (OMap.get id index) ++ map fst (List.filter (fun p => bool_decide (w_session p.2 = id)) ps).
Proof.
  revert index. induction ps as [|p ps IH]; intros index; cbn [fold_left]; [cbn; by rewrite app_nil_r|]. rewrite IH. unfold index_place. rewrite OMap.get_set. cbn [List.filter].
  case_decide as Hd.
  - subst id. rewrite bool_decide_eq_true_2 by done. cbn [from_option map]. unfold id. by rewrite <- app_assoc.
  - by rewrite bool_decide_eq_false_2 by congruence.
Qed.
Lemma filter_split {A} (p q : A -> bool) l : (forall x, p x = true -> q x = true -> False) -> List.filter (fun x => p x || q x) l ≡ₚ List.filter p l ++ List.filter q l.
Proof.
  intros Hpq. induction l as [|x l IH]; [done|]. cbn [List.filter]. specialize (Hpq x). destruct (p x), (q x); cbn [orb]; [by destruct Hpq| | |done]; rewrite IH; [done|apply Permutation_middle].
Qed.
Lemma gather_places (ls : list string) (ps : list (nat * Wake)) : NoDup ls ->
  flat_map (fun id => map fst (List.filter (fun p => bool_decide (w_session p.2 = id)) ps)) ls ≡ₚ map fst (List.filter (fun p => bool_decide (w_session p.2 ∈ ls)) ps).
Proof.
  induction 1 as [|id ls Hid Hnd IH]; cbn [flat_map].
  - rewrite (filter_ext _ (fun _ => false)), filter_false; [done|]. intros p. apply bool_decide_eq_false_2, not_elem_of_nil.
  - rewrite IH, <- map_app, <- filter_split.
    + apply Permutation_map. erewrite filter_ext; [reflexivity|]. intros p. cbn beta. apply eq_true_iff_eq. rewrite orb_true_iff, !bool_decide_eq_true, elem_of_cons. done.
    + intros p ?%bool_decide_eq_true ?%bool_decide_eq_true. congruence.
Qed.
Lemma placed_sorted wakes k : StronglySorted (fun a b => Nat.leb a b = true) (seq k (length (wakes : list Wake))).
Proof.
  revert k. induction (length wakes) as [|n IH]; intros k; cbn [seq]; constructor; [apply IH|]. apply Forall_forall. intros x Hx%elem_of_seq. apply Nat.leb_le. lia.
Qed.
Lemma filter_placed_sorted p wakes : StronglySorted (fun a b => Nat.leb a b = true) (map fst (List.filter p (placed wakes))).
Proof.
  unfold placed. generalize (placed_sorted wakes 0). generalize 0%nat as k. induction wakes as [|w wakes IH]; intros k Hs; [constructor|]. cbn [length seq zip_with List.filter] in *.
  apply StronglySorted_inv in Hs as [Hs Hk]. specialize (IH (S k) Hs). change (zip_with pair (seq (S k) (length wakes)) wakes) with (zip (seq (S k) (length wakes)) wakes).
  destruct (p (k, w)); [|done]. cbn [map]. constructor; [done|]. rewrite Forall_forall in Hk |- *. intros x (q & -> & Hq)%list_elem_of_fmap. apply Hk.
  apply list_elem_of_In, filter_In in Hq as [Hq _]. apply list_elem_of_In in Hq. destruct q as [a b]. cbn. by apply elem_of_zip_l in Hq.
Qed.
Lemma wakes_at_places p wakes : omap (fun i => wakes !! i) (map fst (List.filter p (placed wakes))) = map snd (List.filter p (placed wakes)).
Proof.
  assert (Hall : forall q, q ∈ List.filter p (placed wakes) -> wakes !! q.1 = Some q.2).
  { intros [i w] Hq%list_elem_of_In%filter_In. destruct Hq as [Hq%list_elem_of_In _]. apply list_elem_of_lookup in Hq as [j Hj]. apply lookup_zip_with_Some in Hj as (a & b & [= -> ->] & Ha & Hb).
    by apply lookup_seq in Ha as [-> _]. }
  induction (List.filter p (placed wakes)) as [|q l IH]; [done|]. cbn [map]. change (omap ?f (q.1 :: ?r)) with (match f q.1 with Some y => y :: omap f r | None => omap f r end). cbn beta. rewrite Hall by (by left). f_equal. apply IH. intros. apply Hall. by right.
Qed.
Lemma filter_placed (f : Wake -> bool) wakes : map snd (List.filter (fun p => f p.2) (placed wakes)) = List.filter f wakes.
Proof.
  unfold placed. generalize 0%nat as k. induction wakes as [|w wakes IH]; intros k; [done|]. cbn [length seq zip_with List.filter snd].
  destruct (f w); cbn [map snd]; f_equal; apply IH.
Qed.
Lemma tree_places l wakes : NoDup l -> omap (fun i => wakes !! i) (sort_by Nat.leb (flat_map (fun id => default [] (OMap.get id (wakeIndex wakes))) l))
  = List.filter (fun w => bool_decide (w_session w ∈ l)) (wakes : list Wake).
Proof.
  intros Hnd. rewrite <- (filter_placed (fun w => bool_decide (w_session w ∈ l))), <- wakes_at_places. f_equal.
  apply (StronglySorted_unique_strong (fun a b => Nat.leb a b = true)).
  - intros a b _ _ Ha%Nat.leb_le Hb%Nat.leb_le. lia.
  - apply sort_by_sorted; [intros ? ? ?%Nat.leb_gt; apply Nat.leb_le; lia|intros ? ? ? ?%Nat.leb_le ?%Nat.leb_le; apply Nat.leb_le; lia].
  - apply filter_placed_sorted.
  - rewrite sort_by_perm, <- gather_places by done. unfold wakeIndex. erewrite flat_map_ext; [reflexivity|]. intros id. cbn beta. by rewrite index_places.
Qed.
Lemma wakeIndex_nil wakes : wakeIndex wakes = [] -> wakes = [].
Proof.
  intros H. destruct wakes as [|w wakes]; [done|]. exfalso.
  assert (Hi : default [] (OMap.get (w_session w) (wakeIndex (w :: wakes))) <> []); [|by rewrite H in Hi].
  unfold wakeIndex. rewrite index_places. cbn [length seq zip_with OMap.get from_option app List.filter snd]. by rewrite bool_decide_eq_true_2.
Qed.
(** C34: The two ways to a tree's wakes agree and both end: over a list of the daemon in which a session's children are those
    whose parent it is, with cycles or without, both loops end within one round more than there are sessions, and
    what [treeWakeIndex] holds for a session, built up from each wake, is what [treeWakes] finds down from that session:
    the wakes of the session and of all below it, each once, in the order of the list. *)
Theorem tree_index_is_tree_wakes fuel wakes : (length U < fuel)%nat -> (forall w, w ∈ wakes -> w_session w ∈ U) ->
  exists index, treeWakeIndex fuel wakes = Some index
  /\ forall s, s ∈ U -> exists tree : list string, (forall x, x ∈ tree <-> under s x)
     /\ treeWakes fuel s wakes = Some (default [] (OMap.get s index))
     /\ default [] (OMap.get s index) = List.filter (fun w => bool_decide (w_session w ∈ tree)) wakes.
Proof.
  intros Hf Hw. destruct (index_up_spec fuel wakes Hw Hf []) as (index & Hi & Hall). exists index. split; [exact Hi|]. intros s Hs.
  destruct (treeSessions_spec fuel s Hs Hf) as (l & Hl & Hnd & Hu). exists l. pose proof (Hall s l Hu) as Hheld. unfold held in Hheld. cbn [OMap.get default app] in Hheld.
  split_and!; [done| |exact Hheld]. unfold treeWakes. case_bool_decide as Hnil.
  - apply wakeIndex_nil in Hnil. subst wakes. cbn in Hheld. by rewrite Hheld.
  - rewrite Hl. cbn [fmap option_fmap option_map]. rewrite tree_places by done. by rewrite Hheld.
Qed.
End Tree.

Definition demo_below (s : string) : list string := if String.eqb s "root" then ["a"; "b"] else if String.eqb s "a" then ["c"] else [].
Definition demo_above (s : string) : option string := if String.eqb s "a" then Some "root" else if String.eqb s "b" then Some "root" else if String.eqb s "c" then Some "a" else None.
Definition demo_wakes : list Wake := map (fun s => mkWake s None (OnRun 1 None None) "" (QArith_base.inject_Z 0)) ["b"; "c"; "root"; "a"; "c"].
Lemma tree_index_is_tree_wakes_witness :
  exists index, treeWakeIndex demo_above 6 demo_wakes = Some index /\ treeWakes demo_below 6 "a" demo_wakes = Some (default [] (OMap.get "a" index)).
Proof.
  destruct (tree_index_is_tree_wakes demo_below demo_above ["root"; "a"; "b"; "c"]) with (fuel := 6%nat) (wakes := demo_wakes) as (index & H1 & H2).
  - intros p c. unfold demo_below, demo_above. repeat match goal with |- context [String.eqb ?x ?y] => destruct (String.eqb_spec x y); subst end; set_solver.
  - intros c p. unfold demo_above. repeat match goal with |- context [String.eqb ?x ?y] => destruct (String.eqb_spec x y); subst end; set_solver.
  - cbn. lia.
  - intros w Hw. unfold demo_wakes in Hw. apply list_elem_of_fmap in Hw as (s & -> & Hs). cbn [w_session]. set_solver.
  - exists index. split; [done|]. destruct (H2 "a") as (tree & _ & H & _); [set_solver|done].
Defined.
