(* ===== verification/WakeTick.v ===== *)
(** * The wake ticker

Class [Wakes] of [legacy/prime/user-history/src/wakes.ts], which [apps/chat/server/wakes.ts] starts on its own wake
folder.  A pass is cut at its awaits: it reads the folder's files one by one, then takes the files no
other pass handles, in groups by session and kind, and each group goes on by itself: it waits for the reads of its runs,
runs its checks, hands what is due to the host in one message and removes those files.  A read of a run ([look]) is
shared by the groups that want it while it is under way.

The steps say which await ends next and with what.  [dir] is the folder as its JSON files' values, nothing for
a text that does not parse; anyone may write into it at any moment.  A submit in flight takes effect ([Takes]) before it is
answered or not at all, and a crash forgets everything but the folder and the host.  [taken], [run_reads] and
[check_runs] are what happened so far: the messages the host took, the reads of runs and the runs of checks.  Log lines and the
progress stamp's content are outside; the moment the stamp is awaited is a step. *)

From S2P Require Import Prelude Json Wake.
From Stdlib Require Import QArith.QArith_base QArith.Qminmax.
#[local] Open Scope string_scope.
#[local] Open Scope list_scope.
#[local] Open Scope Z_scope.

(** ** Lists of things with a number of their own: the promises, passes and groups under way *)

Section Keyed.
Context {A : Type} (key : A -> nat).
Definition named (n : nat) (l : list A) : option A := List.find (fun x => Nat.eqb (key x) n) l.
Definition upd (x : A) (l : list A) : list A := map (fun y => if Nat.eqb (key y) (key x) then x else y) l.
Definition without (n : nat) (l : list A) : list A := List.filter (fun y => negb (Nat.eqb (key y) n)) l.

Lemma named_Some n l x : named n l = Some x -> x ∈ l /\ key x = n.
Proof. intros [H1 H2]%find_some. split; [by apply list_elem_of_In|by apply Nat.eqb_eq]. Qed.
Lemma named_nodup x l : NoDup (map key l) -> x ∈ l -> named (key x) l = Some x.
Proof.
  intros Hnd Hx. unfold named. destruct (List.find _ l) as [y|] eqn:E.
  - apply named_Some in E as [Hy Hk]. f_equal. by apply (nodup_key key l).
  - apply list_elem_of_In in Hx. apply (find_none _ _ E) in Hx. by rewrite Nat.eqb_refl in Hx.
Qed.
Lemma elem_upd x l y : y ∈ upd x l -> y = x \/ (y ∈ l /\ key y <> key x).
Proof. intros (z & -> & Hz)%list_elem_of_fmap. destruct (Nat.eqb_spec (key z) (key x)); auto. Qed.
Lemma upd_elem x l : x ∈ l -> x ∈ upd x l.
Proof. intros Hx. apply list_elem_of_fmap. exists x. by rewrite Nat.eqb_refl. Qed.
Lemma upd_other x l y : y ∈ l -> key y <> key x -> y ∈ upd x l.
Proof. intros Hy Hk. apply list_elem_of_fmap. exists y. by destruct (Nat.eqb_spec (key y) (key x)). Qed.
Lemma upd_put x x0 l : x0 ∈ l -> key x0 = key x -> x ∈ upd x l.
Proof. intros Hx Hk. apply list_elem_of_fmap. exists x0. by rewrite Hk, Nat.eqb_refl. Qed.
Lemma keys_upd x l : map key (upd x l) = map key l.
Proof. unfold upd. rewrite map_map. apply map_ext. intros y. by destruct (Nat.eqb_spec (key y) (key x)). Qed.
Lemma elem_without n l y : y ∈ without n l <-> y ∈ l /\ key y <> n.
Proof. unfold without. rewrite !list_elem_of_In, filter_In. destruct (Nat.eqb_spec (key y) n); cbn; naive_solver. Qed.
Lemma keys_without n l : NoDup (map key l) -> NoDup (map key (without n l)).
Proof.
  induction l as [|x l IH]; [done|]. intros [Hx Hl]%NoDup_cons. cbn. destruct (Nat.eqb (key x) n); cbn; [by apply IH|]. apply NoDup_cons. split; [|by apply IH].
  intros (y & Hy & [Hin _]%elem_without)%list_elem_of_fmap. apply Hx. rewrite Hy. by apply list_elem_of_fmap_2.
Qed.
Lemma map_upd {B} (f : A -> B) x x0 l : NoDup (map key l) -> x0 ∈ l -> key x0 = key x -> f x0 = f x -> map f (upd x l) = map f l.
Proof.
  intros Hnd Hin Hk Hf. unfold upd. rewrite map_map. apply map_ext_in. intros y Hy%list_elem_of_In. destruct (Nat.eqb_spec (key y) (key x)) as [He|]; [|done].
  rewrite <- Hf. f_equal. apply (nodup_key key l); congruence.
Qed.
Lemma without_perm x l : NoDup (map key l) -> x ∈ l -> l ≡ₚ x :: without (key x) l.
Proof.
  induction l as [|y l IH]; [by intros _ ?%elem_of_nil|]. intros [Hy Hl]%NoDup_cons [->|Hx]%elem_of_cons; cbn.
  - rewrite Nat.eqb_refl. cbn. f_equiv. unfold without. rewrite (filter_ext_in _ (fun _ => true)); [by rewrite filter_true|].
    intros z Hz%list_elem_of_In. destruct (Nat.eqb_spec (key z) (key y)) as [He|]; [|done]. destruct Hy. rewrite <- He. by apply list_elem_of_fmap_2.
  - destruct (Nat.eqb_spec (key y) (key x)) as [He|]; [destruct Hy; rewrite He; by apply list_elem_of_fmap_2|]. cbn. rewrite Permutation_swap, <- IH by done. done.
Qed.
Lemma upd_perm x x0 l : NoDup (map key l) -> x0 ∈ l -> key x0 = key x -> upd x l ≡ₚ x :: without (key x) l.
Proof.
  intros Hnd Hin Hk. rewrite (without_perm x (upd x l)); [|by rewrite keys_upd|by eapply upd_put]. f_equiv.
  assert (without (key x) (upd x l) = without (key x) l) as ->; [|done]. clear. induction l as [|y l IH]; [done|]. cbn.
  destruct (Nat.eqb_spec (key y) (key x)) as [He|He]; [by rewrite Nat.eqb_refl|]. destruct (Nat.eqb_spec (key y) (key x)); [done|]. cbn. by f_equal.
Qed.
Lemma sum_without (f : A -> nat) x l : NoDup (map key l) -> x ∈ l -> list_sum (map f l) = (f x + list_sum (map f (without (key x) l)))%nat.
Proof. intros Hnd Hin. by rewrite (without_perm x l) at 1. Qed.
End Keyed.

(** ** State *)

Record Due := mkDue { d_file : string; d_wake : Wake; d_state : option RunState; d_check : option CheckResult }.
Record Message := mkMessage { v_session : string; v_text : string; v_root : option string; v_setAt : Q; v_due : list Due; v_now : Z }.

Inductive LookPhase := LStamp | LState | LReturns (state : option RunState).
Record Look := mkLook { l_id : nat; l_run : Z; l_now : Z; l_phase : LookPhase }.

(** Where a group is: the reads it waits for, the progress stamp after them, a check ([asked] when its command runs), the message
    the host was given, the files to remove, the last progress stamp. *)
Inductive Phase :=
| GReads (looks : list (Z * nat))
| GRead (looks : list (Z * nat))
| GCheck (looks : list (Z * nat)) (rest : list (string * Wake)) (due : list Due) (asked : bool)
| GSend (message : Message) (took : bool)
| GRemove (rest : list string) (message : Message)
| GMoved.
Record Group := mkGroup { g_id : nat; g_now : Z; g_items : list (string * Wake); g_phase : Phase }.
(** A pass that still reads files; [p_removing] is one it removes as no wake. *)
Record Pass := mkPass { p_id : nat; p_now : Z; p_rest : list string; p_parsed : list (string * Wake); p_removing : option string }.

(** The fields of the class. *)
Record Wakes := mkWakes {
  looked : list (Z * (option string * Z)); failing : list (Z * (Z * string)); handling : list string;
  reading : list (Z * nat); checked : list (string * (Z * CheckResult)) }.
Definition new_wakes : Wakes := mkWakes [] [] [] [] [].
Record World := mkWorld {
  dir : list (string * option json); wakes : Wakes; passes : list Pass; groups : list Group; looks : list Look;
  results : list (nat * option RunState); next : nat;
  taken : list Message; run_reads : list (Z * Z * RunState); check_runs : list (string * Wake * Z * CheckResult) }.
Definition new_world : World := mkWorld [] new_wakes [] [] [] [] 0 [] [] [].

Definition with_wakes (f : Wakes -> Wakes) (w : World) : World :=
  mkWorld (dir w) (f (wakes w)) (passes w) (groups w) (looks w) (results w) (next w) (taken w) (run_reads w) (check_runs w).
Definition with_dir (f : list (string * option json) -> list (string * option json)) (w : World) : World :=
  mkWorld (f (dir w)) (wakes w) (passes w) (groups w) (looks w) (results w) (next w) (taken w) (run_reads w) (check_runs w).
Definition with_passes (f : list Pass -> list Pass) (w : World) : World :=
  mkWorld (dir w) (wakes w) (f (passes w)) (groups w) (looks w) (results w) (next w) (taken w) (run_reads w) (check_runs w).
Definition with_groups (f : list Group -> list Group) (w : World) : World :=
  mkWorld (dir w) (wakes w) (passes w) (f (groups w)) (looks w) (results w) (next w) (taken w) (run_reads w) (check_runs w).
Definition with_looks (f : list Look -> list Look) (w : World) : World :=
  mkWorld (dir w) (wakes w) (passes w) (groups w) (f (looks w)) (results w) (next w) (taken w) (run_reads w) (check_runs w).
Definition bump (w : World) : World :=
  mkWorld (dir w) (wakes w) (passes w) (groups w) (looks w) (results w) (S (next w)) (taken w) (run_reads w) (check_runs w).

Definition set_looked (run : Z) (v : option string * Z) (k : Wakes) : Wakes := mkWakes (OMap.set run v (looked k)) (failing k) (handling k) (reading k) (checked k).
Definition set_failing (f : list (Z * (Z * string)) -> list (Z * (Z * string))) (k : Wakes) : Wakes := mkWakes (looked k) (f (failing k)) (handling k) (reading k) (checked k).
Definition set_handling (f : list string -> list string) (k : Wakes) : Wakes := mkWakes (looked k) (failing k) (f (handling k)) (reading k) (checked k).
Definition set_reading (f : list (Z * nat) -> list (Z * nat)) (k : Wakes) : Wakes := mkWakes (looked k) (failing k) (handling k) (f (reading k)) (checked k).
Definition set_checked (file : string) (v : Z * CheckResult) (k : Wakes) : Wakes := mkWakes (looked k) (failing k) (handling k) (reading k) (OMap.set file v (checked k)).

Definition put_group (g : Group) (w : World) : World := with_groups (upd g_id g) w.
Definition in_phase (p : Phase) (g : Group) : Group := mkGroup (g_id g) (g_now g) (g_items g) p.
Definition put_look (l : Look) (w : World) : World := with_looks (upd l_id l) w.
Definition look_to (p : LookPhase) (l : Look) : Look := mkLook (l_id l) (l_run l) (l_now l) p.
Definition put_pass (p : Pass) (w : World) : World := with_passes (upd p_id p) w.

(** ** [look] and [read] *)

Definition is_run (on : WakeOn) : option Z := match on with OnRun run _ _ => Some run | _ => None end.
(** [look] after its stamp: a run read less than RUN_LOOK_MS ago whose stamp did not move is not read. *)
Definition look_on (l : Look) (stamp : option string) (w : World) : World :=
  let quiet := match OMap.get (l_run l) (looked (wakes w)) with
               | Some (last, at_) => (l_now l - at_ <? RUN_LOOK_MS) && (bool_decide (stamp = None) || bool_decide (stamp = last))
               | None => false
               end in
  if quiet then put_look (look_to (LReturns None) l) w
  else put_look (look_to LState l) (with_wakes (set_looked (l_run l) (stamp, l_now l)) w).
(** [look] after the read. *)
Definition look_read (l : Look) (state : RunState) (w : World) : World :=
  let w := mkWorld (dir w) (wakes w) (passes w) (groups w) (looks w) (results w) (next w) (taken w) (run_reads w ++ [(l_run l, l_now l, state)]) (check_runs w) in
  let fail f := match state with
                | Unread error => if OMap.has (l_run l) f then f else OMap.set (l_run l) (l_now l, error) f
                | _ => OMap.del (l_run l) f
                end in
  put_look (look_to (LReturns (Some state)) l) (with_wakes (set_failing fail) w).
(** The read's [finally], and its value for whoever waits. *)
Definition look_returns (l : Look) (state : option RunState) (w : World) : World :=
  let w := with_wakes (set_reading (OMap.del (l_run l))) (with_looks (without l_id (l_id l)) w) in
  mkWorld (dir w) (wakes w) (passes w) (groups w) (looks w) ((l_id l, state) :: results w) (next w) (taken w) (run_reads w) (check_runs w).
(** A run in a repo of its own has no stamp, so its read begins at once. *)
Definition read (run : Z) (repo : option string) (now : Z) (w : World) : nat * World :=
  match OMap.get run (reading (wakes w)) with
  | Some id => (id, w)
  | None =>
      let l := mkLook (next w) run now LStamp in
      let w := with_looks (fun ls => ls ++ [l]) (bump w) in
      let w := match repo with Some _ => look_on l None w | None => w end in
      (l_id l, with_wakes (set_reading (OMap.set run (l_id l))) w)
  end.

(** ** A group *)

Definition run_of (items : list (string * Wake)) (run : Z) : option (option string) :=
  (fun x => match w_on x.2 with OnRun _ repo _ => repo | _ => None end) <$> List.find (fun x => bool_decide (is_run (w_on x.2) = Some run)) items.
Fixpoint read_all (runs : list Z) (items : list (string * Wake)) (now : Z) (w : World) : list (Z * nat) * World :=
  match runs with
  | [] => ([], w)
  | run :: runs =>
      let '(id, w) := read run (default None (run_of items run)) now w in
      let '(rest, w) := read_all runs items now w in ((run, id) :: rest, w)
  end.
Definition start_group (now : Z) (items : list (string * Wake)) (w : World) : World :=
  let '(ids, w) := read_all (unique (omap (fun x => is_run (w_on x.2)) items)) items now w in
  with_groups (fun gs => gs ++ [mkGroup (next w) now items (GReads ids)]) (bump w).

(** [states.get(run) ?? null]. *)
Definition state_of (ids : list (Z * nat)) (run : Z) (w : World) : option RunState := OMap.get run ids ≫= fun id => default None (OMap.get id (results w)).
(** A run wake's state when it is due. *)
Definition due_state (wake : Wake) (run : Z) (wanted : option Z) (state : option RunState) (now : Z) (w : World) : option RunState :=
  let read_as := match state with
                 | Some (Done _ reached _ _ _ _) => if (default 1 reached <? default 1 wanted) && negb (rerunMissed wake state now) then None else state
                 | _ => None
                 end in
  match OMap.get run (failing (wakes w)) with
  | Some (since, error) => if UNREADABLE_MS <=? now - since then Some (Unread error) else read_as
  | None => read_as
  end.
Definition past (now : Z) (t : Q) : bool := Qle_bool t (inject_Z now).

Definition max_since (due : list Due) : Q :=
  match due with [] => inject_Z 0 | d :: due => fold_left (fun m e => Qmax m (w_since (d_wake e))) due (w_since (d_wake d)) end.

Section Ticker.
Context `{WakeClock}.

(** [send] up to the submit; nothing when a text throws. *)
Definition message_of (due : list Due) (now : Z) : option Message :=
  match mapM (fun d => wakeText (d_wake d) (d_state d) now (d_check d)) due with
  | Ok texts => Some (mkMessage (match due with d :: _ => w_session (d_wake d) | [] => "" end) (String.concat nl texts) (head (omap (fun d => w_root (d_wake d)) due)) (max_since due) due now)
  | Throw _ => None
  end.
(** [handling.delete] for each file of the group, and its end. *)
Definition end_group (g : Group) (w : World) : World :=
  with_groups (without g_id (g_id g)) (with_wakes (set_handling (List.filter (fun f => negb (bool_decide (f ∈ map fst (g_items g)))))) w).
Definition send (g : Group) (due : list Due) (w : World) : World :=
  match due with
  | [] => end_group g w
  | _ => put_group (in_phase (match message_of due (g_now g) with Some m => GSend m false | None => GMoved end) g) w
  end.
(** The loop over a group's wakes, up to its next check. *)
Fixpoint group_loop (g : Group) (ids : list (Z * nat)) (rest : list (string * Wake)) (due : list Due) (w : World) : World :=
  match rest with
  | [] => send g due w
  | (file, wake) :: rest' =>
      match w_on wake with
      | OnRun run _ wanted =>
          match due_state wake run wanted (state_of ids run w) (g_now g) w with
          | Some state => group_loop g ids rest' (due ++ [mkDue file wake (Some state) None]) w
          | None => group_loop g ids rest' due w
          end
      | OnTime at_ => group_loop g ids rest' (if past (g_now g) at_ then due ++ [mkDue file wake None None] else due) w
      | OnCheck _ every _ =>
          let recent := match OMap.get file (checked (wakes w)) with Some (at_, _) => negb (Qle_bool every (inject_Z (g_now g - at_))) | None => false end in
          put_group (in_phase (GCheck ids rest due (negb recent)) g) w
      end
  end.
(** The check at the head is answered; one that was not asked gives no result. *)
Definition check_answered (g : Group) (ids : list (Z * nat)) (rest : list (string * Wake)) (due : list Due) (asked : bool) (r : CheckResult) (w : World) : World :=
  match rest with
  | [] => w
  | (file, wake) :: rest =>
      let w := if asked then let w := with_wakes (set_checked file (g_now g, r)) w in
                 mkWorld (dir w) (wakes w) (passes w) (groups w) (looks w) (results w) (next w) (taken w) (run_reads w) (check_runs w ++ [(file, wake, g_now g, r)])
               else w in
      let ready := (asked && ok r) || match on_at (w_on wake) with Some t => past (g_now g) t | None => false end in
      let last := if asked then Some r else snd <$> OMap.get file (checked (wakes w)) in
      group_loop g ids rest (if ready then due ++ [mkDue file wake None last] else due) w
  end.

(** ** A pass *)

Definition group_key (x : string * Wake) : string * nat := (w_session x.2, match w_on x.2 with OnRun _ _ _ => 0 | OnTime _ => 1 | OnCheck _ _ _ => 2 end)%nat.
Definition group_items (items : list (string * Wake)) : list (list (string * Wake)) :=
  OMap.vals (fold_left (fun m x => OMap.set (group_key x) (default [] (OMap.get (group_key x) m) ++ [x]) m) items []).
(** What follows the last file, up to the next await of every group. *)
Definition settle (now : Z) (parsed : list (string * Wake)) (w : World) : World :=
  let runs := omap (fun x => is_run (w_on x.2)) parsed in
  let k := wakes w in
  let k := mkWakes (List.filter (fun x => bool_decide (x.1 ∈ runs)) (looked k)) (List.filter (fun x => bool_decide (x.1 ∈ runs)) (failing k)) (handling k) (reading k)
             (List.filter (fun x => bool_decide (x.1 ∈ map fst parsed)) (checked k)) in
  let mine := List.filter (fun x => negb (bool_decide (x.1 ∈ handling k))) parsed in
  fold_left (fun w items => start_group now items w) (group_items mine) (with_wakes (fun _ => set_handling (fun h => h ++ map fst mine) k) w).
Definition drop_pass (p : Pass) (w : World) : World := with_passes (without p_id (p_id p)) w.
(** The pass goes on to its next file, or settles. *)
Definition next_file (p : Pass) (w : World) : World :=
  match p_rest p with
  | [] => settle (p_now p) (p_parsed p) (drop_pass p w)
  | _ => put_pass p w
  end.
Definition JSON_EXT : chars := to_chars ".json".
(** [tick] once the folder is listed, or cannot be. *)
Definition begin (now : Z) (listed : bool) (w : World) : World :=
  let names := if listed then sort_by String.leb (List.filter (fun n => ends_with JSON_EXT (to_chars n)) (map fst (dir w))) else [] in
  let p := mkPass (next w) now names [] None in
  next_file p (with_passes (fun ps => ps ++ [p]) (bump w)).
(** A file is read, or the read fails. *)
Definition read_file (p : Pass) (readable : bool) (w : World) : World :=
  match p_rest p with
  | [] => w
  | name :: rest =>
      match (if readable then match OMap.get name (dir w) with Some (Some value) => parseWake value | _ => None end else None) with
      | Some wake => next_file (mkPass (p_id p) (p_now p) rest (p_parsed p ++ [(name, wake)]) None) w
      | None =>
          if bool_decide (name ∈ handling (wakes w)) then next_file (mkPass (p_id p) (p_now p) rest (p_parsed p) None) w
          else put_pass (mkPass (p_id p) (p_now p) rest (p_parsed p) (Some name)) w
      end
  end.
(** That file is removed; a removal that fails ends the pass. *)
Definition removed (p : Pass) (name : string) (good : bool) (w : World) : World :=
  if negb good then drop_pass p w
  else next_file (mkPass (p_id p) (p_now p) (p_rest p) (p_parsed p) None) (with_dir (OMap.del name) w).

(** ** Steps *)

Inductive Event :=
| Write (name : string) (value : option json)
| Begin (now : Z) (listed : bool)
| ReadFile (id : nat) (readable : bool)
| Removed (id : nat) (good : bool)
| LookStamp (id : nat) (stamp : option string)
| LookState (id : nat) (state : RunState)
| LookReturns (id : nat)
| GroupGo (id : nat)
| CheckAnswered (id : nat) (r : CheckResult)
| Takes (id : nat)
| SendAnswered (id : nat) (good : bool)
| FileRemoved (id : nat) (good : bool)
| Crash.

Definition take_message (g : Group) (m : Message) (w : World) : World :=
  let w := put_group (in_phase (GSend m true) g) w in
  mkWorld (dir w) (wakes w) (passes w) (groups w) (looks w) (results w) (next w) (taken w ++ [m]) (run_reads w) (check_runs w).
Definition remove_next (g : Group) (rest : list string) (m : Message) (w : World) : World :=
  put_group (in_phase (match rest with [] => GMoved | _ => GRemove rest m end) g) w.
Definition pass_of (id : nat) (w : World) : option Pass := named p_id id (passes w).
Definition look_of (id : nat) (w : World) : option Look := named l_id id (looks w).
Definition group_of (id : nat) (w : World) : option Group := named g_id id (groups w).

(** A step of the pass, the look or the group with that id, when it is where the event says. *)
Definition step (w : World) (ev : Event) : World :=
  match ev with
  | Write name value => with_dir (OMap.set name value) w
  | Begin now listed => begin now listed w
  | ReadFile id readable => match pass_of id w with Some p => match p_removing p with None => read_file p readable w | Some _ => w end | None => w end
  | Removed id good => match pass_of id w with Some p => match p_removing p with Some name => removed p name good w | None => w end | None => w end
  | LookStamp id stamp => match look_of id w with Some l => match l_phase l with LStamp => look_on l stamp w | _ => w end | None => w end
  | LookState id state => match look_of id w with Some l => match l_phase l with LState => look_read l state w | _ => w end | None => w end
  | LookReturns id => match look_of id w with Some l => match l_phase l with LReturns state => look_returns l state w | _ => w end | None => w end
  | GroupGo id =>
      match group_of id w with
      | Some g =>
          match g_phase g with
          | GReads ids =>
              if forallb (fun x => OMap.has x.2 (results w)) ids then match ids with [] => group_loop g ids (g_items g) [] w | _ => put_group (in_phase (GRead ids) g) w end else w
          | GRead ids => group_loop g ids (g_items g) [] w
          | GMoved => end_group g w
          | _ => w
          end
      | None => w
      end
  | CheckAnswered id r => match group_of id w with Some g => match g_phase g with GCheck ids rest due asked => check_answered g ids rest due asked r w | _ => w end | None => w end
  | Takes id => match group_of id w with Some g => match g_phase g with GSend m false => take_message g m w | _ => w end | None => w end
  | SendAnswered id good =>
      match group_of id w with
      | Some g => match g_phase g with
                  | GSend m took => if good then if took then remove_next g (map d_file (v_due m)) m w else w else put_group (in_phase GMoved g) w
                  | _ => w
                  end
      | None => w
      end
  | FileRemoved id good =>
      match group_of id w with
      | Some g => match g_phase g with
                  | GRemove (f :: rest) m => if good then remove_next g rest m (with_dir (OMap.del f) w) else put_group (in_phase GMoved g) w
                  | _ => w
                  end
      | None => w
      end
  | Crash => mkWorld (dir w) new_wakes [] [] [] [] (next w) (taken w) (run_reads w) (check_runs w)
  end.
Definition steps (w : World) (evs : list Event) : World := fold_left step evs w.
Definition run (evs : list Event) : World := steps new_world evs.
End Ticker.
