(* ===== verification/WakeTickSpec.v ===== *)
(** * What the wake ticker guarantees

    Invariants of every run of the ticker of WakeTick.v: what a read under way stands for ([Reads]), which group holds a file
    ([Held]), and why a message says a wake is due ([justified]); then the theorems. *)

From S2P Require Import Prelude Json Wake WakeTick.
From Stdlib Require Import QArith.QArith_base.
#[local] Open Scope string_scope.
#[local] Open Scope list_scope.
#[local] Open Scope Z_scope.

(** ** Why a wake is due *)

Definition finished (wake : Wake) (wanted : option Z) (state : RunState) (now : Z) : Prop :=
  match state with Done _ reached _ _ _ _ => default 1 wanted <= default 1 reached \/ rerunMissed wake (Some state) now = true | _ => False end.
(** A time wake: its time came.  A check wake: its command, run in this pass, exited 0, or its deadline came.  A run wake: a read of its
    run said that the wanted attempt finished, or that its rerun never began, or one UNREADABLE_MS before failed with the
    error the message quotes. *)
Definition justified (w : World) (now : Z) (d : Due) : Prop :=
  match w_on (d_wake d) with
  | OnTime t => past now t = true
  | OnCheck _ _ t => past now t = true \/ exists r, d_check d = Some r /\ ok r = true /\ (d_file d, d_wake d, now, r) ∈ check_runs w
  | OnRun run _ wanted =>
      exists state, d_state d = Some state
      /\ ((exists t, (run, t, state) ∈ run_reads w) /\ finished (d_wake d) wanted state now
          \/ exists since error, state = Unread error /\ UNREADABLE_MS <= now - since /\ (run, since, state) ∈ run_reads w)
  end.
(** What happened stays. *)
Record grows (w w' : World) : Prop := {
  gr_reads : forall x, x ∈ run_reads w -> x ∈ run_reads w';
  gr_checks : forall x, x ∈ check_runs w -> x ∈ check_runs w';
  gr_taken : forall m, m ∈ taken w -> m ∈ taken w' }.
#[export] Instance grows_refl : Reflexive grows.
Proof. by constructor. Qed.
#[export] Instance grows_trans : Transitive grows.
Proof. intros a b c [] []. constructor; auto. Qed.
Lemma justified_grows w w' now d : grows w w' -> justified w now d -> justified w' now d.
Proof. intros [Hr Hc _]. unfold justified. destruct (w_on (d_wake d)); [|done|]; naive_solver. Qed.

(** ** Reads of runs *)

Lemma get_cons {K V} `{EqDecision K} (k k' : K) (v : V) m : OMap.get k ((k', v) :: m) = if decide (k = k') then Some v else OMap.get k m.
Proof. done. Qed.

(** The promise [id] is a read of [run]: under way, or settled with a state that was read. *)
Definition read_of (w : World) (run : Z) (id : nat) : Prop :=
  (exists l, l ∈ looks w /\ l_id l = id /\ l_run l = run)
  \/ exists r, OMap.get id (results w) = Some r /\ forall state, r = Some state -> exists t, (run, t, state) ∈ run_reads w.
Record Reads (w : World) : Prop := {
  rd_next : forall l, l ∈ looks w -> (l_id l < next w)%nat;
  rd_done : forall id r, OMap.get id (results w) = Some r -> (id < next w)%nat;
  rd_nodup : NoDup (map l_id (looks w));
  rd_apart : forall l, l ∈ looks w -> OMap.get (l_id l) (results w) = None;
  rd_value : forall l state, l ∈ looks w -> l_phase l = LReturns (Some state) -> (l_run l, l_now l, state) ∈ run_reads w;
  rd_shared : forall run id, OMap.get run (reading (wakes w)) = Some id -> exists l, l ∈ looks w /\ l_id l = id /\ l_run l = run;
  rd_failing : forall run since error, OMap.get run (failing (wakes w)) = Some (since, error) -> (run, since, Unread error) ∈ run_reads w }.
(** Nothing but the reads changes, and a read stays one. *)
Record only_reads (w w' : World) : Prop := {
  or_dir : dir w' = dir w;
  or_groups : groups w' = groups w;
  or_passes : passes w' = passes w;
  or_taken : taken w' = taken w;
  or_checks : check_runs w' = check_runs w;
  or_handling : handling (wakes w') = handling (wakes w);
  or_next : (next w <= next w')%nat;
  or_reads : forall x, x ∈ run_reads w -> x ∈ run_reads w';
  or_read : forall run id, read_of w run id -> read_of w' run id }.
#[export] Instance only_reads_refl : Reflexive only_reads.
Proof. constructor; auto. Qed.
#[export] Instance only_reads_trans : Transitive only_reads.
Proof. intros a b c [] []. constructor; try congruence; try lia; auto. Qed.
Lemma only_reads_grows w w' : only_reads w w' -> grows w w'.
Proof. intros H. constructor; [apply (or_reads _ _ H)|intros x; by rewrite (or_checks _ _ H)|intros x; by rewrite (or_taken _ _ H)]. Qed.

(** A look in its place goes on: what was true of it stays, with its new phase. *)
Lemma put_look_reads w l l0 p : Reads w -> l0 ∈ looks w -> l = look_to p l0 ->
  (forall state, p = LReturns (Some state) -> (l_run l, l_now l, state) ∈ run_reads w) ->
  Reads (put_look l w) /\ only_reads w (put_look l w).
Proof.
  intros HR Hin -> Hv. set (l := look_to p l0). assert (Hback : forall k, k ∈ looks (put_look l w) -> exists k', k' ∈ looks w /\ l_id k' = l_id k /\ l_run k' = l_run k).
  { intros k [->|[Hk _]]%elem_upd; [by exists l0|by exists k]. }
  assert (Hforth : forall k, k ∈ looks w -> exists k', k' ∈ looks (put_look l w) /\ l_id k' = l_id k /\ l_run k' = l_run k).
  { intros k Hk. destruct (decide (l_id k = l_id l)) as [He|He]; [|exists k; split; [by apply upd_other|done]].
    assert (k = l0) as -> by (apply (nodup_key l_id (looks w)); [apply (rd_nodup _ HR)|done|done|done]). exists l. split; [by eapply upd_put|done]. }
  split.
  - constructor; cbn [looks results next run_reads wakes put_look with_looks].
    + intros k (k' & Hk & <- & _)%Hback. by apply (rd_next _ HR).
    + apply (rd_done _ HR).
    + rewrite keys_upd. apply (rd_nodup _ HR).
    + intros k (k' & Hk & <- & _)%Hback. by apply (rd_apart _ HR).
    + intros k state [->|[Hk _]]%elem_upd Hp; [by apply Hv|by apply (rd_value _ HR)].
    + intros run id (k & Hk & <- & <-)%(rd_shared _ HR). destruct (Hforth k Hk) as (k' & ? & ? & ?). by exists k'.
    + apply (rd_failing _ HR).
  - constructor; try done. intros run id [(k & Hk & <- & <-)|Hr]; [|by right]. left. destruct (Hforth k Hk) as (k' & ? & ? & ?). by exists k'.
Qed.
Lemma with_wakes_reads f w : Reads w -> (forall run id, OMap.get run (reading (f (wakes w))) = Some id -> exists l, l ∈ looks w /\ l_id l = id /\ l_run l = run) ->
  (forall run since error, OMap.get run (failing (f (wakes w))) = Some (since, error) -> (run, since, Unread error) ∈ run_reads w) -> Reads (with_wakes f w).
Proof. intros [] H1 H2. by constructor. Qed.
Lemma with_wakes_only f w : handling (f (wakes w)) = handling (wakes w) -> only_reads w (with_wakes f w).
Proof. intros H. by constructor. Qed.
Lemma look_on_reads w l stamp : Reads w -> l ∈ looks w -> Reads (look_on l stamp w) /\ only_reads w (look_on l stamp w).
Proof.
  intros HR Hin. unfold look_on. match goal with |- context [if ?b then _ else _] => destruct b end.
  - by eapply put_look_reads.
  - assert (HR' : Reads (with_wakes (set_looked (l_run l) (stamp, l_now l)) w)) by (apply with_wakes_reads; [done|apply (rd_shared _ HR)|apply (rd_failing _ HR)]).
    destruct (put_look_reads _ (look_to LState l) l LState HR') as [H1 H2]; [done|done|done|]. split; [done|]. etrans; [|exact H2]. by apply with_wakes_only.
Qed.
Lemma look_read_reads w l state : Reads w -> l ∈ looks w -> Reads (look_read l state w) /\ only_reads w (look_read l state w).
Proof.
  intros HR Hin. unfold look_read. set (w1 := mkWorld _ _ _ _ _ _ _ _ _ _). assert (Hsub : forall x, x ∈ run_reads w -> x ∈ run_reads w1) by (intros x Hx; apply elem_of_app; by left).
  assert (H1 : Reads w1) by (destruct HR; constructor; cbn; auto; intros; apply elem_of_app; left; eauto).
  assert (O1 : only_reads w w1).
  { constructor; try done. intros run id [Hl|(r & Hr & Hs)]; [by left|right]. exists r. split; [done|]. intros s Es. destruct (Hs s Es) as [t Ht]. exists t. by apply Hsub. }
  set (f := set_failing _). assert (H2 : Reads (with_wakes f w1)).
  { apply with_wakes_reads; [done|apply (rd_shared _ H1)|]. intros run since error He. cbn in He. destruct state as [|c a e u lb y|msg].
    - rewrite OMap.get_del in He. case_decide; [done|]. by apply (rd_failing _ H1).
    - rewrite OMap.get_del in He. case_decide; [done|]. by apply (rd_failing _ H1).
    - destruct (OMap.has (l_run l) (failing (wakes w))); [by apply (rd_failing _ H1)|]. rewrite OMap.get_set in He. case_decide; [|by apply (rd_failing _ H1)].
      simplify_eq. apply elem_of_app. right. by left. }
  destruct (put_look_reads _ (look_to (LReturns (Some state)) l) l (LReturns (Some state)) H2) as [H3 O3]; [done|done| |].
  { intros s [= <-]. cbn. apply elem_of_app. right. by left. }
  split; [done|]. etrans; [exact O1|]. etrans; [|exact O3]. by apply with_wakes_only.
Qed.
Lemma look_returns_reads w l state : Reads w -> l ∈ looks w -> l_phase l = LReturns state -> Reads (look_returns l state w) /\ only_reads w (look_returns l state w).
Proof.
  intros HR Hin Hp. unfold look_returns. split.
  - constructor; cbn [looks results next run_reads wakes with_wakes with_looks set_reading reading failing].
    + intros k [Hk _]%elem_without. by apply (rd_next _ HR).
    + intros id r. rewrite get_cons. case_decide; [intros; subst; by apply (rd_next _ HR)|apply (rd_done _ HR)].
    + apply keys_without, (rd_nodup _ HR).
    + intros k [Hk Hne]%elem_without. rewrite get_cons, decide_False by done. by apply (rd_apart _ HR).
    + intros k s [Hk _]%elem_without. by apply (rd_value _ HR).
    + intros run id. rewrite OMap.get_del. case_decide as Hr; [done|]. intros (k & Hk & <- & <-)%(rd_shared _ HR). exists k. split; [|done]. apply elem_without. split; [done|].
      intros He. apply Hr. f_equal. by apply (nodup_key l_id (looks w)); [apply (rd_nodup _ HR)|..].
    + apply (rd_failing _ HR).
  - constructor; try done. intros run id [(k & Hk & <- & <-)|(r & Hr & Hs)].
    + destruct (decide (l_id k = l_id l)) as [He|He].
      * right. exists state. split; [cbn [results]; by rewrite get_cons, decide_True|]. intros s ->. assert (k = l) as -> by (by apply (nodup_key l_id (looks w)); [apply (rd_nodup _ HR)|..]).
        exists (l_now l). by apply (rd_value _ HR).
      * left. exists k. split; [|done]. by apply elem_without.
    + right. exists r. split; [|done]. cbn [results]. rewrite get_cons, decide_False; [done|]. intros ->. by rewrite (rd_apart _ HR l Hin) in Hr.
Qed.
Lemma look_on_results l stamp w : results (look_on l stamp w) = results w.
Proof. unfold look_on. by match goal with |- context [if ?b then _ else _] => destruct b end. Qed.
Lemma read_reads run repo now w : Reads w -> let '(id, w') := read run repo now w in Reads w' /\ only_reads w w' /\ read_of w' run id.
Proof.
  intros HR. unfold read. destruct (OMap.get run (reading (wakes w))) as [id|] eqn:E.
  - split_and!; [done|done|]. left. by apply (rd_shared _ HR).
  - set (l := mkLook (next w) run now LStamp). set (w1 := with_looks _ (bump w)).
    assert (Hl : l ∈ looks w1) by (apply elem_of_app; right; by left).
    assert (H1 : Reads w1).
    { constructor; cbn.
      - intros k [Hk| ->%list_elem_of_singleton]%elem_of_app; [apply (rd_next _ HR) in Hk; lia|cbn; lia].
      - intros id r Hid%(rd_done _ HR). lia.
      - rewrite map_app. apply NoDup_app. split_and!; [apply (rd_nodup _ HR)| |apply NoDup_singleton]. intros n (k & -> & Hk)%list_elem_of_fmap ?%list_elem_of_singleton. apply (rd_next _ HR) in Hk. cbn in *. lia.
      - intros k [Hk| ->%list_elem_of_singleton]%elem_of_app; [by apply (rd_apart _ HR)|]. cbn. destruct (OMap.get (next w) (results w)) eqn:Er; [|done]. apply (rd_done _ HR) in Er. lia.
      - intros k s [Hk| ->%list_elem_of_singleton]%elem_of_app; [by apply (rd_value _ HR)|done].
      - intros r id (k & Hk & ? & ?)%(rd_shared _ HR). exists k. split; [apply elem_of_app; by left|done].
      - apply (rd_failing _ HR). }
    assert (O1 : only_reads w w1).
    { constructor; try done; cbn; [lia|]. intros r id [(k & Hk & ? & ?)|Hr]; [left; exists k; split; [apply elem_of_app; by left|done]|by right]. }
    assert (Hread : read_of w1 run (l_id l)) by (left; by exists l).
    set (w2 := match repo with Some _ => look_on l None w1 | None => w1 end).
    assert (H2 : Reads w2 /\ only_reads w1 w2) by (unfold w2; destruct repo; [by apply look_on_reads|done]).
    destruct H2 as [H2 O2]. assert (Hin : exists k, k ∈ looks w2 /\ l_id k = l_id l /\ l_run k = run).
    { destruct (or_read _ _ O2 _ _ Hread) as [?|(r & Hr & _)]; [done|]. exfalso. assert (Hn : OMap.get (l_id l) (results w1) = None) by by apply (rd_apart _ H1).
      assert (Hw : results w2 = results w1) by (unfold w2; destruct repo; [apply look_on_results|done]). rewrite Hw in Hr. congruence. }
    assert (O3 : only_reads w2 (with_wakes (set_reading (OMap.set run (l_id l))) w2)) by by apply with_wakes_only.
    split_and!.
    + apply with_wakes_reads; [done| |apply (rd_failing _ H2)]. intros r id Hid. cbn in Hid. rewrite OMap.get_set in Hid. case_decide; [by simplify_eq|]. by apply (rd_shared _ H2).
    + etrans; [exact O1|]; etrans; [exact O2|exact O3].
    + apply (or_read _ _ O3), (or_read _ _ O2), Hread.
Qed.

(** ** Groups *)

Definition good_due (w : World) (g : Group) (d : Due) : Prop := (d_file d, d_wake d) ∈ g_items g /\ justified w (g_now g) d.
(** A message of a group: of its pass, for what is due of it, to the session of each of them. *)
Record good_message (w : World) (g : Group) (m : Message) : Prop := {
  gm_due : v_due m <> [];
  gm_now : v_now m = g_now g;
  gm_good : Forall (good_due w g) (v_due m);
  gm_session : Forall (fun d => w_session (d_wake d) = v_session m) (v_due m) }.
Definition all_read (w : World) (ids : list (Z * nat)) : Prop := Forall (fun x => read_of w x.1 x.2) ids.
Definition at_check (rest : list (string * Wake)) : Prop := match rest with (_, wake) :: _ => exists command every t, w_on wake = OnCheck command every t | [] => False end.
Definition phase_ok (w : World) (g : Group) : Prop :=
  match g_phase g with
  | GReads ids | GRead ids => all_read w ids
  | GCheck ids rest due _ => all_read w ids /\ at_check rest /\ (forall x, x ∈ rest -> x ∈ g_items g) /\ Forall (good_due w g) due
  | GSend m took => good_message w g m /\ (took = true -> m ∈ taken w)
  | GRemove rest m => good_message w g m /\ m ∈ taken w /\ rest <> [] /\ (forall f, f ∈ rest -> f ∈ map d_file (v_due m))
  | GMoved => True
  end.
Definition files (gs : list Group) : list string := flat_map (fun g => map fst (g_items g)) gs.
Definition one_session (items : list (string * Wake)) : Prop := forall x y, x ∈ items -> y ∈ items -> w_session x.2 = w_session y.2.
(** [todo] is what a pass took and has not made a group of. *)
Record Held (todo : list (list (string * Wake))) (w : World) : Prop := {
  hd_ids : NoDup (map g_id (groups w));
  hd_next : forall g, g ∈ groups w -> (g_id g < next w)%nat;
  hd_files : handling (wakes w) ≡ₚ files (groups w) ++ flat_map (map fst) todo;
  hd_nodup : NoDup (handling (wakes w));
  hd_phase : forall g, g ∈ groups w -> phase_ok w g;
  hd_session : forall g, g ∈ groups w -> one_session (g_items g);
  hd_taken : forall m, m ∈ taken w -> v_due m <> [] /\ Forall (fun d => justified w (v_now m) d /\ w_session (d_wake d) = v_session m) (v_due m) }.

Lemma good_due_grows w w' g d : grows w w' -> good_due w g d -> good_due w' g d.
Proof. intros Hg [H1 H2]. split; [done|]. by eapply justified_grows. Qed.
Lemma phase_ok_grows w w' g : grows w w' -> (forall run id, read_of w run id -> read_of w' run id) -> phase_ok w g -> phase_ok w' g.
Proof.
  intros Hg Hr. assert (Hall : forall ids, all_read w ids -> all_read w' ids) by (intros ids H; eapply Forall_impl; [exact H|]; cbn; auto).
  assert (Hdue : forall due, Forall (good_due w g) due -> Forall (good_due w' g) due) by (intros due H; eapply Forall_impl; [exact H|]; intros; by eapply good_due_grows).
  assert (Hmsg : forall m, good_message w g m -> good_message w' g m) by (intros m []; constructor; auto).
  unfold phase_ok. destruct (g_phase g); [auto|auto|naive_solver| |  |done].
  - intros [? Ht]. split; [auto|]. intros. by apply (gr_taken _ _ Hg), Ht.
  - intros (? & ? & ? & ?). split_and!; auto. by apply (gr_taken _ _ Hg).
Qed.
(** What the groups' invariant reads off a world besides its groups and its files. *)
Lemma held_frame todo w w' : grows w w' -> (forall run id, read_of w run id -> read_of w' run id) -> groups w' = groups w -> handling (wakes w') = handling (wakes w) ->
  (next w <= next w')%nat -> taken w' = taken w -> Held todo w -> Held todo w'.
Proof.
  intros Hg Hr Hgs Hh Hn Ht [H1 H2 H3 H4 H5 H7 H6]. constructor; rewrite ?Hgs, ?Hh, ?Ht; auto.
  - intros g Hin%H2. lia.
  - intros g Hin. eapply phase_ok_grows; eauto.
  - intros m Hm. destruct (H6 m Hm) as [? Hd]. split; [done|]. eapply Forall_impl; [exact Hd|]. intros d [? ?]. split; [by eapply justified_grows|done].
Qed.
Lemma held_only todo w w' : only_reads w w' -> Held todo w -> Held todo w'.
Proof. intros H. apply held_frame; [by apply only_reads_grows|apply (or_read _ _ H)|apply (or_groups _ _ H)|apply (or_handling _ _ H)|apply (or_next _ _ H)|apply (or_taken _ _ H)]. Qed.
Lemma files_upd g p gs : NoDup (map g_id gs) -> g ∈ gs -> files (upd g_id (in_phase p g) gs) = files gs.
Proof.
  intros Hnd Hin. unfold files. rewrite !flat_map_concat_map. f_equal. by apply (map_upd g_id _ _ g).
Qed.
Lemma put_group_held todo w g p : Held todo w -> g ∈ groups w -> phase_ok w (in_phase p g) -> Held todo (put_group (in_phase p g) w).
Proof.
  intros [H1 H2 H3 H4 H5 H7 H6] Hin Hp. constructor; cbn [groups wakes next taken put_group with_groups]; auto.
  - by rewrite keys_upd.
  - intros h [->|[Hh _]]%elem_upd; [exact (H2 g Hin)|by apply H2].
  - by rewrite files_upd.
  - intros h Hh. apply elem_upd in Hh as [->|[Hh _]]; (apply (phase_ok_grows w); [by constructor|done|]); [exact Hp|exact (H5 h Hh)].
  - intros h [->|[Hh _]]%elem_upd; [exact (H7 g Hin)|exact (H7 h Hh)].
Qed.
#[local] Instance filter_perm {A} (f : A -> bool) : Proper (Permutation ==> Permutation) (List.filter f).
Proof. induction 1; cbn; repeat case_match; try done; [by f_equiv|apply Permutation_swap|by etrans]. Qed.
Lemma end_group_held todo w g : Held todo w -> g ∈ groups w -> Held todo (end_group g w).
Proof.
  intros [H1 H2 H3 H4 H5 H7 H6] Hin. constructor; cbn [groups wakes next taken end_group with_groups with_wakes set_handling handling]; auto.
  - by apply keys_without.
  - intros h [Hh _]%elem_without. by apply H2.
  - assert (Hp : handling (wakes w) ≡ₚ map fst (g_items g) ++ (files (without g_id (g_id g) (groups w)) ++ flat_map (map fst) todo)).
    { rewrite H3, app_assoc. f_equiv. unfold files. by rewrite (without_perm g_id g (groups w) H1 Hin) at 1. }
    rewrite Hp in H4 |- *. apply NoDup_app in H4 as (_ & Hd & _). rewrite List.filter_app.
    rewrite (filter_ext_in _ (fun _ => false) (map fst _)), filter_false; [|intros f Hf%list_elem_of_In; by rewrite bool_decide_eq_true_2].
    rewrite (filter_ext_in _ (fun _ => true) (_ ++ _)), filter_true; [done|]. intros f Hf%list_elem_of_In. rewrite bool_decide_eq_false_2; [done|]. intros Hf'. by apply (Hd f).
  - by apply NoDup_ListNoDup, List.NoDup_filter, NoDup_ListNoDup.
  - intros h [Hh _]%elem_without. apply (phase_ok_grows w); [by constructor|done|]. exact (H5 h Hh).
  - intros h [Hh _]%elem_without. exact (H7 h Hh).
Qed.

(** How many answers a group still needs at most. *)
Definition group_work (g : Group) : nat :=
  match g_phase g with
  | GReads _ => 2 * length (g_items g) + 6
  | GRead _ => 2 * length (g_items g) + 5
  | GCheck _ rest due _ => 2 * length rest + length due + 4
  | GSend m took => length (v_due m) + (if took then 2 else 3)
  | GRemove rest _ => length rest + 1
  | GMoved => 1
  end.

Section Steps.
Context `{WakeClock}.

Lemma message_of_due due now m : message_of due now = Some m -> v_due m = due /\ v_now m = now /\ v_session m = match due with d :: _ => w_session (d_wake d) | [] => "" end.
Proof. unfold message_of. destruct (mapM _ due); [|done]. by intros [= <-]. Qed.
Lemma state_of_read ids run w state : all_read w ids -> Reads w -> state_of ids run w = Some state -> exists t, (run, t, state) ∈ run_reads w.
Proof.
  intros Hall HR. unfold state_of. destruct (OMap.get run ids) as [id|] eqn:E; [|done]. cbn. destruct (OMap.get id (results w)) as [r|] eqn:Er; [|done]. cbn. intros ->.
  apply OMap.get_elem in E. unfold all_read in Hall. rewrite Forall_forall in Hall. pose proof (Hall _ E) as Hid. cbn in Hid. destruct Hid as [(l & Hl & <- & _)|(r & Hr & Hs)]; [by rewrite (rd_apart _ HR l Hl) in Er|].
  simplify_eq. by apply Hs.
Qed.
Lemma due_state_justified w ids wake run wanted now state : all_read w ids -> Reads w -> due_state wake run wanted (state_of ids run w) now w = Some state ->
  (exists t, (run, t, state) ∈ run_reads w) /\ finished wake wanted state now
  \/ exists since error, state = Unread error /\ UNREADABLE_MS <= now - since /\ (run, since, state) ∈ run_reads w.
Proof.
  intros Hall HR. unfold due_state. set (read_as := match state_of ids run w with Some (Done _ _ _ _ _ _) => _ | _ => None end).
  assert (Hread : read_as = Some state -> (exists t, (run, t, state) ∈ run_reads w) /\ finished wake wanted state now).
  { unfold read_as. destruct (state_of ids run w) as [[|c reached e u lb y|]|] eqn:E; [done| |done|done]. intros Hs. destruct (_ && _) eqn:Eb; [done|]. simplify_eq.
    split; [by eapply state_of_read|]. cbn. apply andb_false_iff in Eb as [?%Z.ltb_ge|?%negb_false_iff]; [by left|by right]. }
  destruct (OMap.get run (failing (wakes w))) as [[since error]|] eqn:Ef; [|auto]. destruct (UNREADABLE_MS <=? now - since) eqn:El; [|auto].
  intros [= <-]. right. exists since, error. split_and!; [done|lia|]. by apply (rd_failing _ HR).
Qed.

Lemma send_cases g due w : one_session (g_items g) -> Forall (good_due w g) due ->
  send g due w = end_group g w \/ exists p, send g due w = put_group (in_phase p g) w /\ phase_ok w (in_phase p g) /\ (group_work (in_phase p g) <= length due + 3)%nat.
Proof.
  intros Hses Hdue. unfold send. destruct due as [|d due]; [by left|]. right. destruct (message_of _ _) as [m|] eqn:E.
  - apply message_of_due in E as (Hd & Hn & Hs). exists (GSend m false). split_and!; [done| |cbn; rewrite Hd; done]. split; [|done]. constructor; [by rewrite Hd|done|by rewrite Hd|].
    rewrite Hd, Hs. rewrite Forall_forall in Hdue |- *. intros e He. apply (Hses (d_file e, d_wake e) (d_file d, d_wake d)); [by apply Hdue|]. apply Hdue. by left.
  - exists GMoved. split_and!; [done|done|cbn; lia].
Qed.
Lemma group_loop_cases g ids rest due w : Reads w -> one_session (g_items g) -> all_read w ids -> (forall x, x ∈ rest -> x ∈ g_items g) -> Forall (good_due w g) due ->
  group_loop g ids rest due w = end_group g w
  \/ exists p, group_loop g ids rest due w = put_group (in_phase p g) w /\ phase_ok w (in_phase p g) /\ (group_work (in_phase p g) <= 2 * length rest + length due + 4)%nat.
Proof.
  intros HR Hses Hall. revert due. induction rest as [|[file wake] rest IH]; intros due Hin Hdue.
  - cbn [group_loop length]. destruct (send_cases g due w Hses Hdue) as [?|(p & ? & ? & ?)]; [by left|right]. exists p. split_and!; [done|done|lia].
  - assert (Hin' : forall x, x ∈ rest -> x ∈ g_items g) by (intros; apply Hin; by right). assert (Hhd : (file, wake) ∈ g_items g) by (apply Hin; by left).
    assert (Hskip : group_loop g ids rest due w = end_group g w \/ exists p, group_loop g ids rest due w = put_group (in_phase p g) w /\ phase_ok w (in_phase p g)
      /\ (group_work (in_phase p g) <= 2 * length ((file, wake) :: rest) + length due + 4)%nat).
    { destruct (IH due Hin' Hdue) as [?|(p & ? & ? & ?)]; [by left|right]. exists p. cbn [length]. split_and!; [done|done|lia]. }
    assert (Htake : forall state check, good_due w g (mkDue file wake state check) ->
      let due' := due ++ [mkDue file wake state check] in group_loop g ids rest due' w = end_group g w \/ exists p, group_loop g ids rest due' w = put_group (in_phase p g) w /\ phase_ok w (in_phase p g)
      /\ (group_work (in_phase p g) <= 2 * length ((file, wake) :: rest) + length due + 4)%nat).
    { intros state check Hd. destruct (IH (due ++ [mkDue file wake state check]) Hin') as [?|(p & ? & ? & Hw)]; [by apply Forall_app; split; [|apply Forall_singleton]|by left|right].
      exists p. rewrite length_app in Hw. cbn [length] in *. split_and!; [done|done|lia]. }
    cbn [group_loop]. destruct (w_on wake) as [run repo wanted|t|command every t] eqn:Eon.
    + destruct (due_state _ _ _ _ _ _) as [state|] eqn:Es; [|exact Hskip]. apply Htake. split; [done|]. unfold justified. cbn [d_wake d_state]. rewrite Eon. exists state. split; [done|].
      by eapply due_state_justified.
    + destruct (past (g_now g) t) eqn:Ep; [|exact Hskip]. apply Htake. split; [done|]. unfold justified. cbn [d_wake]. by rewrite Eon.
    + right. eexists. split; [done|]. split; [|cbn [group_work g_phase in_phase]; lia]. cbn. split_and!; [done|by do 3 eexists|done|done].
Qed.

(** A step of the groups that leaves the reads as they are. *)
Lemma reads_put_group g w : Reads w -> Reads (put_group g w).
Proof. intros []. by constructor. Qed.
Lemma reads_end_group g w : Reads w -> Reads (end_group g w).
Proof. intros []. by constructor. Qed.
Lemma group_loop_inv todo g ids rest due w : Reads w -> Held todo w -> g ∈ groups w -> all_read w ids -> (forall x, x ∈ rest -> x ∈ g_items g) -> Forall (good_due w g) due ->
  Reads (group_loop g ids rest due w) /\ Held todo (group_loop g ids rest due w).
Proof.
  intros HR HH Hin Hall Hrest Hdue. destruct (group_loop_cases g ids rest due w HR (hd_session _ _ HH g Hin) Hall Hrest Hdue) as [->|(p & -> & Hp & _)].
  - split; [by apply reads_end_group|by apply end_group_held].
  - split; [by apply reads_put_group|by apply put_group_held].
Qed.

(** The groups' own state, which a check's result is not part of. *)
Definition ran_check (file : string) (wake : Wake) (now : Z) (r : CheckResult) (w : World) : World :=
  let w := with_wakes (set_checked file (now, r)) w in
  mkWorld (dir w) (wakes w) (passes w) (groups w) (looks w) (results w) (next w) (taken w) (run_reads w) (check_runs w ++ [(file, wake, now, r)]).
Lemma ran_check_inv todo file wake now r w : Reads w -> Held todo w -> Reads (ran_check file wake now r w) /\ Held todo (ran_check file wake now r w).
Proof.
  intros HR HH. split; [destruct HR; by constructor|]. apply (held_frame todo w); [|done|done|done|done|done|done].
  constructor; [done| |done]. intros x Hx. apply elem_of_app. by left.
Qed.
Lemma check_answered_cases g ids rest due asked r w : Reads w -> one_session (g_items g) -> phase_ok w g -> g_phase g = GCheck ids rest due asked ->
  exists file wake rest' due' w', rest = (file, wake) :: rest' /\ check_answered g ids rest due asked r w = group_loop g ids rest' due' w'
  /\ (w' = w \/ w' = ran_check file wake (g_now g) r w) /\ all_read w' ids /\ (forall x, x ∈ rest' -> x ∈ g_items g) /\ Forall (good_due w' g) due' /\ (length due' <= length due + 1)%nat.
Proof.
  intros HR Hses Hok Hp. unfold phase_ok in Hok. rewrite Hp in Hok. destruct Hok as (Hall & Hat & Hin & Hdue). destruct rest as [|[file wake] rest]; [done|]. destruct Hat as (command & every & t & Eon).
  set (w' := if asked then ran_check file wake (g_now g) r w else w).
  assert (Hg : grows w w') by (unfold w'; destruct asked; [|done]; constructor; [done| |done]; intros x Hx; apply elem_of_app; by left).
  assert (Hr : forall run id, read_of w run id -> read_of w' run id) by (unfold w'; by destruct asked).
  exists file, wake, rest. unfold check_answered. rewrite Eon. cbn [on_at]. fold w'.
  match goal with |- context [group_loop _ _ _ (if ?b then due ++ [?d] else due)] => set (ready := b); set (dd := d) end. exists (if ready then due ++ [dd] else due), w'.
  assert (Hdue' : Forall (good_due w' g) due) by (eapply Forall_impl; [exact Hdue|]; intros; by eapply good_due_grows).
  split_and!; [done|done|unfold w'; destruct asked; auto|eapply Forall_impl; [exact Hall|]; cbn; auto|intros; apply Hin; by right| |destruct ready; rewrite ?length_app; cbn; lia].
  destruct ready eqn:Er; [|done]. apply Forall_app. split; [done|]. apply Forall_singleton. split; [apply Hin; by left|]. unfold justified. cbn [dd d_wake d_check d_file].
  rewrite Eon. apply orb_true_iff in Er as [[Ha Hok']%andb_true_iff|?]; [|by left]. right. exists r. unfold w'. rewrite Ha in *. split_and!; [done|done|]. apply elem_of_app. right. by left.
Qed.

(** ** A pass *)

Lemma get_filter_key {V} (q : Z -> bool) run (m : list (Z * V)) v : OMap.get run (List.filter (fun x => q x.1) m) = Some v -> OMap.get run m = Some v.
Proof.
  induction m as [|[k x] m IH]; [done|]. cbn [List.filter fst]. rewrite get_cons. destruct (q k) eqn:Eq; [rewrite get_cons; by case_decide|]. intros Hf. case_decide as Hk; [|by apply IH].
  subst k. exfalso. clear IH. induction m as [|[k y] m IH]; [done|]. cbn [List.filter fst] in Hf. destruct (q k) eqn:Eq'; [rewrite get_cons in Hf|by apply IH]. case_decide; [subst; congruence|by apply IH].
Qed.
Lemma concat_set {K V} `{EqDecision K} (k : K) (x : V) m : concat (OMap.vals (OMap.set k (default [] (OMap.get k m) ++ [x]) m)) ≡ₚ concat (OMap.vals m) ++ [x].
Proof.
  induction m as [|[k' l] m IH]; [done|]. rewrite get_cons. change (OMap.set k ?v ((k', l) :: m)) with (if decide (k = k') then (k, v) :: m else (k', l) :: OMap.set k v m).
  case_decide as Hk; cbn [OMap.vals map concat snd from_option]; [unfold id; rewrite <- !app_assoc; f_equiv; apply Permutation_app_comm|]. rewrite <- app_assoc. f_equiv. exact IH.
Qed.
Lemma group_items_spec items : concat (group_items items) ≡ₚ items /\ (forall l, l ∈ group_items items -> one_session l).
Proof.
  unfold group_items. set (f := fun (m : list (string * nat * list (string * Wake))) x => OMap.set (group_key x) (default [] (OMap.get (group_key x) m) ++ [x]) m).
  assert (Hall : forall m, (forall k l, (k, l) ∈ m -> forall x, x ∈ l -> group_key x = k) -> concat (OMap.vals (fold_left f items m)) ≡ₚ concat (OMap.vals m) ++ items
    /\ (forall k l, (k, l) ∈ fold_left f items m -> forall x, x ∈ l -> group_key x = k)).
  { induction items as [|x items IH]; intros m Hm; cbn [fold_left]; [by rewrite app_nil_r|]. destruct (IH (f m x)) as [H1 H2].
    - intros k l [He|Hl]%OMap.elem_set y Hy; [|by eapply Hm]. simplify_eq. apply elem_of_app in Hy as [Hy| ->%list_elem_of_singleton]; [|done].
      destruct (OMap.get (group_key x) m) as [l|] eqn:E; [|by apply elem_of_nil in Hy]. by apply OMap.get_elem in E; eapply Hm.
    - split; [|exact H2]. rewrite H1. unfold f. rewrite concat_set, <- app_assoc. done. }
  destruct (Hall []) as [H1 H2]; [by intros k l ?%elem_of_nil|]. split; [exact H1|]. intros l (kl & -> & Hl)%list_elem_of_fmap x y Hx Hy. destruct kl as [k l]. cbn in *.
  pose proof (H2 _ _ Hl _ Hx) as Ex. pose proof (H2 _ _ Hl _ Hy) as Ey. unfold group_key in *. congruence.
Qed.

Lemma read_all_spec runs items now w : Reads w -> let '(ids, w') := read_all runs items now w in Reads w' /\ only_reads w w' /\ all_read w' ids.
Proof.
  revert w. induction runs as [|run runs IH]; intros w HR; cbn [read_all]; [split_and!; [done|done|constructor]|].
  pose proof (read_reads run (default None (run_of items run)) now w HR) as Hr. destruct (read _ _ _ _) as [id w1]. destruct Hr as (R1 & O1 & Hid).
  specialize (IH w1 R1). destruct (read_all runs items now w1) as [ids w2]. destruct IH as (R2 & O2 & Hall). split_and!; [done|by etrans|]. constructor; [|done]. by apply (or_read _ _ O2).
Qed.
(** What a pass's end changes besides the reads: groups of what it read. *)
Record makes_groups (parsed : list (string * Wake)) (w w' : World) : Prop := {
  mg_dir : dir w' = dir w;
  mg_passes : passes w' = passes w;
  mg_taken : taken w' = taken w;
  mg_next : (next w <= next w')%nat;
  mg_groups : forall g, g ∈ groups w' -> g ∈ groups w \/ ((exists ids, g_phase g = GReads ids) /\ forall x, x ∈ g_items g -> x ∈ parsed) }.
Lemma makes_groups_trans parsed a b c : makes_groups parsed a b -> makes_groups parsed b c -> makes_groups parsed a c.
Proof. intros [] []. constructor; try congruence; [lia|]. naive_solver. Qed.
Lemma start_group_inv now items todo w : Reads w -> Held (items :: todo) w -> one_session items ->
  Reads (start_group now items w) /\ Held todo (start_group now items w) /\ makes_groups items w (start_group now items w).
Proof.
  intros HR HH Hses. unfold start_group. set (runs := unique _). pose proof (read_all_spec runs items now w HR) as Hr. destruct (read_all _ _ _ _) as [ids w1]. destruct Hr as (R1 & O1 & Hids).
  pose proof (held_only _ _ _ O1 HH) as [H1 H2 H3 H4 H5 H7 H6]. set (g := mkGroup (next w1) now items (GReads ids)). split_and!.
  - destruct R1 as [Q1 Q2 Q3 Q4 Q5 Q6 Q7]. constructor; cbn; [intros l Hl%Q1; lia|intros id r Hid%Q2; lia|done..].
  - constructor; cbn [groups next wakes taken with_groups bump].
    + rewrite map_app. apply NoDup_app. split_and!; [done| |apply NoDup_singleton]. intros n (h & -> & Hh)%list_elem_of_fmap ?%list_elem_of_singleton. apply H2 in Hh. cbn in *. lia.
    + intros h [Hh%H2| ->%list_elem_of_singleton]%elem_of_app; cbn; lia.
    + rewrite H3. unfold files. rewrite flat_map_app. cbn [flat_map g_items g]. by rewrite app_nil_r, app_assoc.
    + done.
    + intros h Hh. apply (phase_ok_grows w1); [by constructor|done|]. apply elem_of_app in Hh as [Hh| ->%list_elem_of_singleton]; [by apply H5|done].
    + intros h [Hh| ->%list_elem_of_singleton]%elem_of_app; [by apply H7|done].
    + intros m Hm. exact (H6 m Hm).
  - constructor; cbn [dir passes taken next groups with_groups bump]; [apply (or_dir _ _ O1)|apply (or_passes _ _ O1)|apply (or_taken _ _ O1)|pose proof (or_next _ _ O1); lia|].
    intros h [Hh| ->%list_elem_of_singleton]%elem_of_app; [left; by rewrite <- (or_groups _ _ O1)|right]. split; [by eexists|done].
Qed.
Lemma start_groups_inv parsed now todo w : Reads w -> Held todo w -> (forall l, l ∈ todo -> one_session l /\ forall x, x ∈ l -> x ∈ parsed) ->
  let w' := fold_left (fun w items => start_group now items w) todo w in Reads w' /\ Held [] w' /\ makes_groups parsed w w'.
Proof.
  revert w. induction todo as [|items todo IH]; intros w HR HH Hall; cbn [fold_left].
  - split_and!; [done|done|]. constructor; auto.
  - destruct (Hall items) as [Hs Hp]; [by left|]. destruct (start_group_inv now items todo w HR HH Hs) as (R1 & H1 & M1).
    destruct (IH _ R1 H1) as (R2 & H2 & M2); [intros; apply Hall; by right|]. split_and!; [done|done|]. eapply makes_groups_trans; [|exact M2].
    destruct M1. constructor; auto. intros g Hg. destruct (mg_groups0 g Hg) as [?|[? ?]]; [by left|right; split; [done|auto]].
Qed.
Lemma settle_inv now parsed w : Reads w -> Held [] w -> NoDup (map fst parsed) ->
  Reads (settle now parsed w) /\ Held [] (settle now parsed w) /\ makes_groups parsed w (settle now parsed w).
Proof.
  intros HR HH Hnd. unfold settle. set (runs := omap _ parsed). set (k := mkWakes _ _ _ _ _). set (mine := List.filter _ parsed).
  set (w1 := with_wakes _ w). destruct (group_items_spec mine) as [Hperm Hses].
  assert (Hsub : forall x, x ∈ mine -> x ∈ parsed /\ x.1 ∉ handling (wakes w)).
  { intros x [Hx Hb]%list_elem_of_In%filter_In. apply negb_true_iff, bool_decide_eq_false in Hb. by apply list_elem_of_In in Hx. }
  assert (R1 : Reads w1).
  { apply with_wakes_reads; [done|exact (rd_shared _ HR)|]. intros run since error He. cbn in He. exact (rd_failing _ HR _ _ _ (get_filter_key (fun r => bool_decide (r ∈ runs)) _ _ _ He)). }
  assert (H1 : Held (group_items mine) w1).
  { assert (Hf : flat_map (map fst) (group_items mine) ≡ₚ map fst mine) by (rewrite flat_map_concat_map, <- concat_map; by apply Permutation_map).
    destruct HH as [G1 G2 G3 G4 G5 G7 G6]. cbn in G3. rewrite app_nil_r in G3. constructor; auto; cbn [groups wakes w1 with_wakes set_handling handling k].
    - rewrite Hf. by f_equiv.
    - apply NoDup_app. split_and!; [done| |].
      + intros f Hh (x & -> & Hx)%list_elem_of_fmap. by apply Hsub in Hx as [_ ?].
      + apply NoDup_ListNoDup. clear -Hnd. unfold mine. clear mine. induction parsed as [|x l IH]; [constructor|]. apply NoDup_cons in Hnd as [Hx Hl]. cbn [List.filter].
        match goal with |- context [if ?b then _ else _] => destruct b end; [|by apply IH]. cbn [map]. constructor; [|by apply IH]. intros Hin. apply Hx. apply list_elem_of_In in Hin.
        apply list_elem_of_fmap in Hin as (y & Hy & Hin). rewrite Hy. apply list_elem_of_fmap_2. apply list_elem_of_In, filter_In in Hin as [Hin _]. by apply list_elem_of_In.
    - intros g Hg. apply (phase_ok_grows w); [by constructor|done|by apply G5]. }
  destruct (start_groups_inv parsed now (group_items mine) w1 R1 H1) as (R2 & H2 & M2).
  - intros l Hl. split; [by apply Hses|]. intros x Hx. apply Hsub. rewrite <- Hperm. apply list_elem_of_In, in_concat. exists l. by rewrite <- !list_elem_of_In.
  - split_and!; [done|done|]. destruct M2. by constructor.
Qed.

(** ** The invariant of a run *)

Record Inv (w : World) : Prop := {
  iv_reads : Reads w;
  iv_held : Held [] w;
  iv_ids : NoDup (map p_id (passes w));
  iv_next : forall p, p ∈ passes w -> (p_id p < next w)%nat;
  iv_names : forall p, p ∈ passes w -> NoDup (map fst (p_parsed p) ++ p_rest p);
  iv_dir : NoDup (map fst (dir w)) }.
(** A step that leaves the passes and the folder as they are. *)
Lemma inv_frame w w' : Inv w -> Reads w' -> Held [] w' -> passes w' = passes w -> (next w <= next w')%nat -> NoDup (map fst (dir w')) -> Inv w'.
Proof. intros [R H1 P1 P2 P3 P4] R' H' Hp Hn Hd. constructor; rewrite ?Hp; auto. intros p Hin%P2. lia. Qed.
Lemma inv_only w w' : only_reads w w' -> Reads w' -> Inv w -> Inv w'.
Proof.
  intros O R' HI. apply (inv_frame w); [done|done|by eapply held_only, HI|apply (or_passes _ _ O)|apply (or_next _ _ O)|]. rewrite (or_dir _ _ O). apply HI.
Qed.
Lemma with_passes_inv w f : Inv w -> NoDup (map p_id (f (passes w))) -> (forall p, p ∈ f (passes w) -> (p_id p < next w)%nat /\ NoDup (map fst (p_parsed p) ++ p_rest p)) -> Inv (with_passes f w).
Proof.
  intros [R H1 P1 P2 P3 P4] Hnd Hall. constructor; auto; [by destruct R|apply (held_frame [] w); auto; by constructor| |]; intros p Hp; by apply Hall.
Qed.
Lemma drop_pass_inv w p : Inv w -> Inv (drop_pass p w).
Proof. intros HI. apply with_passes_inv; [done|apply keys_without, HI|]. intros q [Hq _]%elem_without. split; [by apply (iv_next _ HI)|by apply (iv_names _ HI)]. Qed.
(** What a pass that goes on changes: itself, or groups of what it read. *)
Record goes_on (p : Pass) (w w' : World) : Prop := {
  go_dir : dir w' = dir w;
  go_taken : taken w' = taken w;
  go_passes : forall q, q ∈ passes w' -> q = p \/ q ∈ passes w;
  go_groups : forall g, g ∈ groups w' -> g ∈ groups w \/ ((exists ids, g_phase g = GReads ids) /\ forall x, x ∈ g_items g -> x ∈ p_parsed p) }.
Lemma put_pass_inv w p p0 : Inv w -> p0 ∈ passes w -> p_id p0 = p_id p -> NoDup (map fst (p_parsed p) ++ p_rest p) -> Inv (put_pass p w) /\ goes_on p w (put_pass p w).
Proof.
  intros HI Hin Hid Hnd. split.
  - apply with_passes_inv; [done|rewrite keys_upd; apply HI|]. intros q [->|[Hq _]]%elem_upd; [rewrite <- Hid; split; [by apply (iv_next _ HI)|done]|].
    split; [by apply (iv_next _ HI)|by apply (iv_names _ HI)].
  - constructor; auto. intros q [->|[Hq _]]%elem_upd; auto.
Qed.
Lemma next_file_inv w p p0 : Inv w -> p0 ∈ passes w -> p_id p0 = p_id p -> NoDup (map fst (p_parsed p) ++ p_rest p) -> Inv (next_file p w) /\ goes_on p w (next_file p w).
Proof.
  intros HI Hin Hid Hnd. unfold next_file. destruct (p_rest p) as [|f rest] eqn:Er; [|apply (put_pass_inv _ _ p0); rewrite ?Er; done].
  pose proof (drop_pass_inv w p HI) as HI'. rewrite app_nil_r in Hnd. destruct (settle_inv (p_now p) (p_parsed p) (drop_pass p w)) as (R & H1 & M); [apply HI'|apply HI'|done|]. split.
  - apply (inv_frame (drop_pass p w)); [done|done|done|apply (mg_passes _ _ _ M)|apply (mg_next _ _ _ M)|]. rewrite (mg_dir _ _ _ M). apply HI'.
  - constructor; [apply (mg_dir _ _ _ M)|apply (mg_taken _ _ _ M)| |apply (mg_groups _ _ _ M)]. intros q. rewrite (mg_passes _ _ _ M). intros [Hq _]%elem_without. by right.
Qed.
Lemma begin_inv w now listed : Inv w -> exists p, Inv (begin now listed w) /\ goes_on p w (begin now listed w) /\ p_parsed p = [] /\ p_removing p = None /\ (forall f, f ∈ p_rest p -> f ∈ map fst (dir w)).
Proof.
  intros HI. unfold begin. set (names := if listed then _ else _). set (p := mkPass (next w) now names [] None).
  assert (Hnames : NoDup names /\ forall f, f ∈ names -> f ∈ map fst (dir w)).
  { unfold names. destruct listed; [|split; [constructor|by intros ? ?%elem_of_nil]]. split.
    - rewrite sort_by_perm. apply NoDup_ListNoDup, List.NoDup_filter, NoDup_ListNoDup, HI.
    - intros f. rewrite elem_sort_by, !list_elem_of_In, filter_In. by intros [? _]. }
  destruct Hnames as [Hnd Hsub]. exists p.
  assert (HI1 : Inv (bump w)).
  { destruct HI as [R H1 P1 P2 P3 P4]. constructor; auto; cbn.
    - destruct R as [Q1 Q2 Q3 Q4 Q5 Q6 Q7]. constructor; cbn; [intros l Hl%Q1; lia|intros id r Hid%Q2; lia|done..].
    - apply (held_frame [] w); auto; [by constructor|cbn; lia].
    - intros q Hq%P2. lia. }
  assert (HI2 : Inv (with_passes (fun ps => ps ++ [p]) (bump w))).
  { apply with_passes_inv; [done| |].
    - cbn. rewrite map_app. apply NoDup_app. split_and!; [apply HI| |apply NoDup_singleton]. intros n (q & -> & Hq)%list_elem_of_fmap ?%list_elem_of_singleton. apply (iv_next _ HI) in Hq. cbn in *. lia.
    - intros q [Hq| ->%list_elem_of_singleton]%elem_of_app; [split; [by apply (iv_next _ HI1)|by apply (iv_names _ HI)]|]. cbn. split; [lia|done]. }
  destruct (next_file_inv _ p p HI2) as [H3 [G1 G2 G3 G4]]; [apply elem_of_app; right; by left|done|done|]. split_and!; [done| |done|done|done].
  constructor; auto. intros q Hq. destruct (G3 q Hq) as [?|[?| ->%list_elem_of_singleton]%elem_of_app]; auto.
Qed.
(** One file more. *)
Lemma read_file_inv w p readable : Inv w -> p ∈ passes w -> exists q, Inv (read_file p readable w) /\ goes_on q w (read_file p readable w)
  /\ (forall f, f ∈ p_rest q -> f ∈ p_rest p)
  /\ (forall x, x ∈ p_parsed q -> x ∈ p_parsed p \/ (x.1 ∈ p_rest p /\ exists v, OMap.get x.1 (dir w) = Some (Some v) /\ parseWake v = Some x.2))
  /\ (forall f, p_removing q = Some f -> p_removing p = Some f \/ (f ∈ p_rest p /\ (readable = true -> forall v, OMap.get f (dir w) = Some (Some v) -> parseWake v = None))).
Proof.
  intros HI Hin. unfold read_file. pose proof (iv_names _ HI p Hin) as Hnd. destruct (p_rest p) as [|name rest] eqn:Er.
  - exists p. split_and!; [done|constructor; auto|rewrite Er; auto|auto|auto].
  - assert (Hnd' : NoDup (map fst (p_parsed p) ++ rest)) by (apply NoDup_app in Hnd as (N1 & N2 & [_ N3]%NoDup_cons); apply NoDup_app; split_and!; [done|set_solver|done]).
    destruct (if readable then _ else _) as [wake|] eqn:E.
    + set (q := mkPass _ _ _ _ _). exists q. destruct (next_file_inv w q p HI Hin) as [H1 H2]; [done| |].
      * cbn. rewrite map_app, <- app_assoc. exact Hnd.
      * split_and!; [done|done|intros; by right| |done]. cbn. intros x [Hx| ->%list_elem_of_singleton]%elem_of_app; [by left|right]. split; [by left|]. cbn.
        destruct readable; [|done]. destruct (OMap.get name (dir w)) as [[v|]|]; [|done|done]. by exists v.
    + set (w' := if bool_decide (name ∈ handling (wakes w)) then _ else _).
      assert (Hgone : readable = true -> forall v, OMap.get name (dir w) = Some (Some v) -> parseWake v = None) by (intros -> v Hv; by rewrite Hv in E).
      unfold w'. clear w'. case_bool_decide as Hh; set (q := mkPass _ _ _ _ _); exists q.
      * destruct (next_file_inv w q p HI Hin) as [H1 H2]; [done|done|]. split_and!; [done|done|intros; by right|auto|done].
      * destruct (put_pass_inv w q p HI Hin) as [H1 H2]; [done|done|]. split_and!; [done|done|intros; by right|auto|]. cbn. intros f [= <-]. right. split; [by left|done].
Qed.

Lemma with_dir_inv w f : Inv w -> NoDup (map fst (f (dir w))) -> Inv (with_dir f w).
Proof. intros HI Hnd. apply (inv_frame w); auto; [destruct (iv_reads _ HI); by constructor|]. apply (held_frame [] w); auto; [by constructor|apply HI]. Qed.
(** A group that is somewhere else now. *)
Lemma put_group_inv w g p : Inv w -> g ∈ groups w -> phase_ok w (in_phase p g) -> Inv (put_group (in_phase p g) w).
Proof. intros HI Hin Hp. apply (inv_frame w); auto; [apply reads_put_group, HI|apply put_group_held; [apply HI|done..]|apply HI]. Qed.
Lemma end_group_inv w g : Inv w -> g ∈ groups w -> Inv (end_group g w).
Proof. intros HI Hin. apply (inv_frame w); auto; [apply reads_end_group, HI|apply end_group_held; [apply HI|done]|apply HI]. Qed.
Lemma group_loop_all_inv w g ids rest due : Inv w -> g ∈ groups w -> all_read w ids -> (forall x, x ∈ rest -> x ∈ g_items g) -> Forall (good_due w g) due -> Inv (group_loop g ids rest due w).
Proof.
  intros HI Hin Hall Hrest Hdue. destruct (group_loop_cases g ids rest due w (iv_reads _ HI) (hd_session _ _ (iv_held _ HI) g Hin) Hall Hrest Hdue) as [->|(p & -> & Hp & _)].
  - by apply end_group_inv.
  - by apply put_group_inv.
Qed.
Lemma ran_check_all_inv w file wake now r : Inv w -> Inv (ran_check file wake now r w).
Proof. intros HI. destruct (ran_check_inv [] file wake now r w (iv_reads _ HI) (iv_held _ HI)). by apply (inv_frame w); auto; apply HI. Qed.
Lemma check_answered_inv w g ids rest due asked r : Inv w -> g ∈ groups w -> g_phase g = GCheck ids rest due asked -> Inv (check_answered g ids rest due asked r w).
Proof.
  intros HI Hin Hp. destruct (check_answered_cases g ids rest due asked r w (iv_reads _ HI) (hd_session _ _ (iv_held _ HI) g Hin) (hd_phase _ _ (iv_held _ HI) g Hin) Hp)
    as (file & wake & rest' & due' & w' & -> & -> & Hw' & Hall & Hrest & Hdue & _).
  apply group_loop_all_inv; [|by destruct Hw' as [->| ->]|done..]. destruct Hw' as [->| ->]; [done|by apply ran_check_all_inv].
Qed.
Lemma take_message_inv w g m : Inv w -> g ∈ groups w -> g_phase g = GSend m false -> Inv (take_message g m w).
Proof.
  intros HI Hin Hp. pose proof (hd_phase _ _ (iv_held _ HI) g Hin) as Hok. unfold phase_ok in Hok. rewrite Hp in Hok. destruct Hok as [Hm _].
  set (wt := mkWorld (dir w) (wakes w) (passes w) (groups w) (looks w) (results w) (next w) (taken w ++ [m]) (run_reads w) (check_runs w)).
  assert (Hg : grows w wt) by (constructor; [done|done|]; intros x Hx; apply elem_of_app; by left).
  assert (HI' : Inv wt).
  { apply (inv_frame w); auto; [destruct (iv_reads _ HI); by constructor| |apply HI]. destruct (iv_held _ HI) as [H1 H2 H3 H4 H5 H7 H6]. constructor; auto.
    - intros h Hh. apply (phase_ok_grows w); [done|done|by apply H5].
    - intros x [Hx| ->%list_elem_of_singleton]%elem_of_app; [exact (H6 x Hx)|]. destruct Hm as [M1 M2 M3 M4]. split; [done|].
      rewrite Forall_forall in M3, M4 |- *. intros d Hd. split; [|by apply M4]. rewrite M2. by apply M3. }
  change (take_message g m w) with (put_group (in_phase (GSend m true) g) wt). apply put_group_inv; [done|done|]. split; [|intros _; apply elem_of_app; right; by left].
  destruct Hm. by constructor.
Qed.
Lemma remove_next_inv w g m rest : Inv w -> g ∈ groups w -> good_message w g m -> m ∈ taken w -> (forall f, f ∈ rest -> f ∈ map d_file (v_due m)) -> Inv (remove_next g rest m w).
Proof. intros HI Hin Hm Ht Hf. unfold remove_next. apply put_group_inv; [done|done|]. destruct rest; [done|]. split_and!; [|done..]. destruct Hm. by constructor. Qed.
Lemma wake_step_inv w ev : Inv w -> Inv (step w ev).
Proof.
  intros HI. destruct ev as [name value|now listed|id readable|id good|id stamp|id state|id|id|id r|id|id good|id good|]; cbn [step].
  - apply with_dir_inv; [done|]. apply OMap.set_NoDup, HI.
  - by destruct (begin_inv w now listed HI) as (? & ? & _).
  - destruct (pass_of id w) as [p|] eqn:E; [|done]. apply named_Some in E as [Hin <-]. destruct (p_removing p); [done|]. by destruct (read_file_inv w p readable HI Hin) as (? & ? & _).
  - destruct (pass_of id w) as [p|] eqn:E; [|done]. apply named_Some in E as [Hin <-]. destruct (p_removing p) as [name|]; [|done]. unfold removed. destruct good; cbn [negb]; [|by apply drop_pass_inv].
    assert (HI' : Inv (with_dir (OMap.del name) w)) by (apply with_dir_inv; [done|apply OMap.del_NoDup, HI]). eapply next_file_inv; [done|exact Hin|done|exact (iv_names _ HI p Hin)].
  - destruct (look_of id w) as [l|] eqn:E; [|done]. apply named_Some in E as [Hin <-]. destruct (l_phase l); [|done..].
    destruct (look_on_reads w l stamp (iv_reads _ HI) Hin) as [R O]. by apply (inv_only w).
  - destruct (look_of id w) as [l|] eqn:E; [|done]. apply named_Some in E as [Hin <-]. destruct (l_phase l); [done| |done].
    destruct (look_read_reads w l state (iv_reads _ HI) Hin) as [R O]. by apply (inv_only w).
  - destruct (look_of id w) as [l|] eqn:E; [|done]. apply named_Some in E as [Hin <-]. destruct (l_phase l) eqn:Hp; [done|done|].
    destruct (look_returns_reads w l state (iv_reads _ HI) Hin Hp) as [R O]. by apply (inv_only w).
  - destruct (group_of id w) as [g|] eqn:E; [|done]. apply named_Some in E as [Hin <-]. pose proof (hd_phase _ _ (iv_held _ HI) g Hin) as Hok. unfold phase_ok in Hok.
    destruct (g_phase g) as [ids|ids|ids rest due asked|m took|rest m|]; try done.
    + destruct (forallb _ ids); [|done]. destruct ids; [by apply group_loop_all_inv|by apply put_group_inv].
    + by apply group_loop_all_inv.
    + by apply end_group_inv.
  - destruct (group_of id w) as [g|] eqn:E; [|done]. apply named_Some in E as [Hin <-]. destruct (g_phase g) eqn:Hp; try done. by apply check_answered_inv.
  - destruct (group_of id w) as [g|] eqn:E; [|done]. apply named_Some in E as [Hin <-]. destruct (g_phase g) as [| | |m took| |] eqn:Hp; try done. destruct took; [done|]. by apply take_message_inv.
  - destruct (group_of id w) as [g|] eqn:E; [|done]. apply named_Some in E as [Hin <-]. pose proof (hd_phase _ _ (iv_held _ HI) g Hin) as Hok. unfold phase_ok in Hok.
    destruct (g_phase g) as [| | |m took| |]; try done. destruct Hok as [Hm Ht]. destruct good; [|by apply put_group_inv]. destruct took; [|done]. apply remove_next_inv; auto.
  - destruct (group_of id w) as [g|] eqn:E; [|done]. apply named_Some in E as [Hin <-]. pose proof (hd_phase _ _ (iv_held _ HI) g Hin) as Hok. unfold phase_ok in Hok.
    destruct (g_phase g) as [| | | |[|f rest] m|]; try done. destruct Hok as (Hm & Ht & _ & Hf). destruct good; [|by apply put_group_inv].
    assert (HI' : Inv (with_dir (OMap.del f) w)) by (apply with_dir_inv; [done|apply OMap.del_NoDup, HI]). apply remove_next_inv; auto.
    + destruct Hm. by constructor.
    + intros; apply Hf; by right.
  - destruct HI as [R [H1 H2 H3 H4 H5 H7 H6] P1 P2 P3 P4]. constructor; [constructor| | | | |exact P4]; cbn; try done; try constructor; cbn; try done; try (intros; by match goal with Hx : _ ∈ [] |- _ => apply elem_of_nil in Hx end); try constructor.
Qed.

Lemma run_inv evs : Inv (run evs).
Proof.
  unfold run, steps. assert (Hgen : forall w, Inv w -> Inv (fold_left step evs w)) by (induction evs; cbn [fold_left]; intros; auto using wake_step_inv).
  apply Hgen. constructor; [constructor|constructor|..]; cbn; try (by intros ? ?%elem_of_nil); try apply NoDup_nil_2; try done. by intros ? ? ?%elem_of_nil.
Qed.

(** ** A file that is written once *)

Section Once.
Context (f : string) (v : json) (wk : Wake) (Hwk : parseWake v = Some wk).
Definition delivered (w : World) : Prop := exists m d, m ∈ taken w /\ d ∈ v_due m /\ d_file d = f /\ d_wake d = wk.
Definition as_written (l : list (string * Wake)) : Prop := forall x, x ∈ l -> x.1 = f -> x.2 = wk.
Definition good_pass (b : bool) (w : World) (p : Pass) : Prop :=
  (f ∈ p_rest p -> b = true) /\ (p_removing p = Some f -> delivered w) /\ as_written (p_parsed p).
(** [b] says whether the file was written. *)
Record Once (b : bool) (w : World) : Prop := {
  oc_dir : OMap.get f (dir w) = None \/ (b = true /\ OMap.get f (dir w) = Some (Some v));
  oc_kept : b = true -> OMap.get f (dir w) = Some (Some v) \/ delivered w;
  oc_pass : forall p, p ∈ passes w -> good_pass b w p;
  oc_items : forall g, g ∈ groups w -> as_written (g_items g) }.
Lemma once_frame b w w' : Once b w -> OMap.get f (dir w') = OMap.get f (dir w) -> (forall m, m ∈ taken w -> m ∈ taken w') ->
  (forall p, p ∈ passes w' -> p ∈ passes w \/ good_pass b w' p) -> (forall g, g ∈ groups w' -> (exists h, h ∈ groups w /\ g_items h = g_items g) \/ as_written (g_items g)) -> Once b w'.
Proof.
  intros [H1 H2 H3 H4] Hd Ht Hp Hg. assert (Hdel : delivered w -> delivered w') by (intros (m & d & ? & ?); exists m, d; auto). constructor.
  - by rewrite Hd.
  - rewrite Hd. intros Hb. destruct (H2 Hb); auto.
  - intros p Hin. destruct (Hp p Hin) as [Hin'|?]; [|done]. destruct (H3 p Hin') as (? & ? & ?). split_and!; auto.
  - intros g Hin. destruct (Hg g Hin) as [(h & Hh & <-)|?]; auto.
Qed.
Lemma once_groups b w w' : Once b w -> dir w' = dir w -> (forall m, m ∈ taken w -> m ∈ taken w') -> passes w' = passes w ->
  (forall g, g ∈ groups w' -> exists h, h ∈ groups w /\ g_items h = g_items g) -> Once b w'.
Proof. intros HO Hd Ht Hp Hg. apply (once_frame b w); [done|by rewrite Hd|done|rewrite Hp; auto|auto]. Qed.
Lemma once_only b w w' : only_reads w w' -> Once b w -> Once b w'.
Proof. intros O HO. apply (once_groups b w); [done|apply (or_dir _ _ O)|intros m; by rewrite (or_taken _ _ O)|apply (or_passes _ _ O)|]. rewrite (or_groups _ _ O). eauto. Qed.
Lemma once_put b w g p : Once b w -> g ∈ groups w -> Once b (put_group (in_phase p g) w).
Proof. intros HO Hin. apply (once_groups b w); auto. intros h [->|[Hh _]]%elem_upd; [by exists g|by exists h]. Qed.
Lemma once_end b w g : Once b w -> Once b (end_group g w).
Proof. intros HO. apply (once_groups b w); auto. intros h [Hh _]%elem_without. by exists h. Qed.
Lemma once_loop b w g ids rest due : Inv w -> Once b w -> g ∈ groups w -> all_read w ids -> (forall x, x ∈ rest -> x ∈ g_items g) -> Forall (good_due w g) due -> Once b (group_loop g ids rest due w).
Proof.
  intros HI HO Hin Hall Hrest Hdue. destruct (group_loop_cases g ids rest due w (iv_reads _ HI) (hd_session _ _ (iv_held _ HI) g Hin) Hall Hrest Hdue) as [->|(p & -> & _)].
  - by apply once_end.
  - by apply once_put.
Qed.
Lemma once_goes b p w w' : Once b w -> goes_on p w w' -> good_pass b w p -> Once b w'.
Proof.
  intros HO [G1 G2 G3 G4] Hp. apply (once_frame b w); [done|by rewrite G1|by rewrite G2| |].
  - intros q [->|?]%G3; [right|by left]. destruct Hp as (? & Hr & ?). split_and!; auto. intros (m & d & ?)%Hr. exists m, d. by rewrite G2.
  - intros g [Hg|[_ Hg]]%G4; [left; by exists g|right]. intros x Hx. by apply Hp, Hg.
Qed.
(** The group's files are removed after its message was taken. *)
Lemma removed_delivered b w g rest m : Inv w -> Once b w -> g ∈ groups w -> g_phase g = GRemove (f :: rest) m -> delivered w.
Proof.
  intros HI HO Hin Hp. pose proof (hd_phase _ _ (iv_held _ HI) g Hin) as Hok. unfold phase_ok in Hok. rewrite Hp in Hok. destruct Hok as (Hm & Ht & _ & Hf).
  destruct (proj1 (list_elem_of_fmap _ _ _) (Hf f ltac:(by left))) as (d & Hd & Hin'). exists m, d. split_and!; [done|done|done|]. pose proof (gm_good _ _ _ Hm) as Hg. rewrite Forall_forall in Hg.
  destruct (Hg d Hin') as [Hi _]. by apply (oc_items _ _ HO g Hin _ Hi).
Qed.
Lemma once_del b w name : Once b w -> (name = f -> delivered w) -> Once b (with_dir (OMap.del name) w).
Proof.
  intros [H1 H2 H3 H4] Hdel. constructor; cbn [dir with_dir]; [| |exact H3|exact H4]; rewrite OMap.get_del; case_decide as Hf; auto.
Qed.
Lemma once_step b w ev : Inv w -> Once b w -> (forall id readable, ev = ReadFile id readable -> readable = true) -> (forall value, ev = Write f value -> b = false /\ value = Some v) ->
  Once (b || match ev with Write name _ => bool_decide (name = f) | _ => false end) (step w ev).
Proof.
  intros HI HO Hread Hwrite. destruct ev as [name value|now listed|id readable|id good|id stamp|id state|id|id|id r|id|id good|id good|]; cbn [step]; rewrite ?orb_false_r.
  - case_bool_decide as Hn; rewrite ?orb_false_r, ?orb_true_r.
    + subst name. destruct (Hwrite value eq_refl) as [-> ->]. destruct HO as [H1 H2 H3 H4]. constructor; cbn [dir with_dir]; rewrite ?OMap.get_set_eq; auto.
      intros p Hp. destruct (H3 p Hp) as (? & ? & ?). by split_and!.
    + apply (once_frame b w); auto; [cbn; by rewrite OMap.get_set_ne|]. eauto.
  - destruct (begin_inv w now listed HI) as (p & _ & G & Hp & Hr & Hs). apply (once_goes b p w); [done|done|]. split_and!.
    + intros Hin%Hs. destruct (oc_dir _ _ HO) as [Hn|[? _]]; [|done]. apply OMap.get_None in Hn. done.
    + by rewrite Hr.
    + rewrite Hp. by intros x ?%elem_of_nil.
  - destruct (pass_of id w) as [p|] eqn:E; [|done]. apply named_Some in E as [Hin <-]. destruct (p_removing p) eqn:Er; [done|].
    assert (readable = true) as -> by (by eapply Hread). destruct (read_file_inv w p true HI Hin) as (q & _ & G & Hrest & Hpar & Hrem). apply (once_goes b q w); [done|done|].
    destruct (oc_pass _ _ HO p Hin) as (P1 & P2 & P3). split_and!.
    + intros Hf. by apply P1, Hrest.
    + intros Hf. destruct (Hrem f Hf) as [?|[Hf' Hv]]; [congruence|]. destruct (oc_kept _ _ HO (P1 Hf')) as [Hd|?]; [|done]. by rewrite (Hv eq_refl v Hd) in Hwk.
    + intros x Hx Hxf. destruct (Hpar x Hx) as [?|(_ & v' & Hv' & Hp')]; [by apply P3|]. rewrite Hxf in Hv'. destruct (oc_dir _ _ HO) as [?|[_ ?]]; congruence.
  - destruct (pass_of id w) as [p|] eqn:E; [|done]. apply named_Some in E as [Hin <-]. destruct (p_removing p) as [name|] eqn:Er; [|done]. destruct (oc_pass _ _ HO p Hin) as (P1 & P2 & P3).
    unfold removed. destruct good; cbn [negb].
    + set (q := mkPass _ _ _ _ _). assert (HI' : Inv (with_dir (OMap.del name) w)) by (apply with_dir_inv; [done|apply OMap.del_NoDup, HI]).
      destruct (next_file_inv _ q p HI' Hin) as [_ G]; [done|exact (iv_names _ HI p Hin)|]. apply (once_goes b q (with_dir (OMap.del name) w)); [|done|by split_and!].
      apply once_del; [done|]. intros ->. by apply P2.
    + apply (once_frame b w); auto; [|eauto]. intros q [Hq _]%elem_without. by left.
  - destruct (look_of id w) as [l|] eqn:E; [|done]. apply named_Some in E as [Hin <-]. destruct (l_phase l); [|done..]. eapply once_only; [|done]. by apply look_on_reads, Hin; apply HI.
  - destruct (look_of id w) as [l|] eqn:E; [|done]. apply named_Some in E as [Hin <-]. destruct (l_phase l); [done| |done]. eapply once_only; [|done]. by apply look_read_reads, Hin; apply HI.
  - destruct (look_of id w) as [l|] eqn:E; [|done]. apply named_Some in E as [Hin <-]. destruct (l_phase l) eqn:Hp; [done|done|]. eapply once_only; [|done]. by apply look_returns_reads; [apply HI|..].
  - destruct (group_of id w) as [g|] eqn:E; [|done]. apply named_Some in E as [Hin <-]. pose proof (hd_phase _ _ (iv_held _ HI) g Hin) as Hok. unfold phase_ok in Hok.
    destruct (g_phase g) as [ids|ids|ids rest due asked|m took|rest m|]; try done.
    + destruct (forallb _ ids); [|done]. destruct ids; [by apply once_loop|by apply once_put].
    + by apply once_loop.
    + by apply once_end.
  - destruct (group_of id w) as [g|] eqn:E; [|done]. apply named_Some in E as [Hin <-]. destruct (g_phase g) as [| |ids rest due asked| | |] eqn:Hp; try done.
    destruct (check_answered_cases g ids rest due asked r w (iv_reads _ HI) (hd_session _ _ (iv_held _ HI) g Hin) (hd_phase _ _ (iv_held _ HI) g Hin) Hp)
      as (file & wake & rest' & due' & w' & -> & -> & [->| ->] & Hall & Hrest & Hdue & _); [by apply once_loop|].
    apply once_loop; [by apply ran_check_all_inv| |done..]. apply (once_groups b w); auto. eauto.
  - destruct (group_of id w) as [g|] eqn:E; [|done]. apply named_Some in E as [Hin <-]. destruct (g_phase g) as [| | |m took| |] eqn:Hp; try done. destruct took; [done|].
    apply (once_groups b w); [done|done| |done|]; [intros x Hx; apply elem_of_app; by left|]. intros h [->|[Hh _]]%elem_upd; [by exists g|by exists h].
  - destruct (group_of id w) as [g|] eqn:E; [|done]. apply named_Some in E as [Hin <-]. destruct (g_phase g) as [| | |m took| |] eqn:Hp; try done. destruct good; [|by apply once_put].
    destruct took; [|done]. by apply once_put.
  - destruct (group_of id w) as [g|] eqn:E; [|done]. apply named_Some in E as [Hin <-]. destruct (g_phase g) as [| | | |[|f' rest] m|] eqn:Hp; try done. destruct good; [|by apply once_put].
    apply once_put; [|done]. apply once_del; [done|]. intros ->. by eapply removed_delivered.
  - destruct HO as [H1 H2 _ _]. constructor; cbn; [done|done|by intros ? ?%elem_of_nil..].
Qed.
End Once.
End Steps.
