(* ===== verification/WakeRuns.v ===== *)
(** * Runs of the wake ticker

    The theorems over every run of WakeTick.v, from the invariant of WakeTickSpec.v, each with a run that has its
    hypotheses; and three runs in which a wake is lost, sent twice or sent late. *)

From S2P Require Import Prelude Json Wake WakeTick WakeTickSpec.
From Stdlib Require Import QArith.QArith_base.
#[local] Open Scope string_scope.
#[local] Open Scope list_scope.
#[local] Open Scope Z_scope.

(** ** What is still to be answered *)

Definition look_work (l : Look) : nat := match l_phase l with LStamp => 3 | LState => 2 | LReturns _ => 1 end.
Definition work (w : World) : nat := list_sum (map group_work (groups w)) + list_sum (map look_work (looks w)).
(** The end of an await of a group or of a read: all but a new pass, a file of a pass, a write into the folder and a crash. *)
Definition answer (ev : Event) : bool :=
  match ev with Write _ _ | Begin _ _ | ReadFile _ _ | Removed _ _ | Crash => false | _ => true end.

Section Work.
Context `{WakeClock}.
Lemma work_put_group w g p : Inv w -> g ∈ groups w -> (group_work (in_phase p g) < group_work g)%nat -> (work (put_group (in_phase p g) w) < work w)%nat.
Proof.
  intros HI Hin Hlt. pose proof (hd_ids _ _ (iv_held _ HI)) as Hnd. unfold work. cbn [groups looks put_group with_groups].
  rewrite (upd_perm g_id (in_phase p g) g) by done. rewrite (sum_without g_id group_work g (groups w)) by done. cbn [map list_sum g_id in_phase foldr]. unfold list_sum in *. cbn [foldr]. lia.
Qed.
Lemma work_end_group w g : Inv w -> g ∈ groups w -> (0 < group_work g)%nat -> (work (end_group g w) < work w)%nat.
Proof.
  intros HI Hin Hlt. pose proof (hd_ids _ _ (iv_held _ HI)) as Hnd. unfold work. cbn [groups looks end_group with_groups with_wakes].
  rewrite (sum_without g_id group_work g (groups w)) by done. lia.
Qed.
Lemma work_put_look w l p : Inv w -> l ∈ looks w -> (look_work (look_to p l) < look_work l)%nat -> (work (put_look (look_to p l) w) < work w)%nat.
Proof.
  intros HI Hin Hlt. pose proof (rd_nodup _ (iv_reads _ HI)) as Hnd. unfold work. cbn [groups looks put_look with_looks].
  rewrite (upd_perm l_id (look_to p l) l) by done. rewrite (sum_without l_id look_work l (looks w)) by done. cbn [map l_id look_to]. unfold list_sum in *. cbn [foldr]. lia.
Qed.
Lemma work_loop w0 w g ids rest due : Inv w -> g ∈ groups w -> all_read w ids -> (forall x, x ∈ rest -> x ∈ g_items g) -> Forall (good_due w g) due ->
  work w = work w0 -> (2 * length rest + length due + 4 < group_work g)%nat -> (work (group_loop g ids rest due w) < work w0)%nat.
Proof.
  intros HI Hin Hall Hrest Hdue Hw Hlt. rewrite <- Hw. destruct (group_loop_cases g ids rest due w (iv_reads _ HI) (hd_session _ _ (iv_held _ HI) g Hin) Hall Hrest Hdue) as [->|(p & -> & _ & Hp)].
  - apply work_end_group; [done..|lia].
  - apply work_put_group; [done..|lia].
Qed.
Lemma work_check w g ids rest due asked r : Inv w -> g ∈ groups w -> g_phase g = GCheck ids rest due asked -> (work (check_answered g ids rest due asked r w) < work w)%nat.
Proof.
  intros HI Hin Hp. destruct (check_answered_cases g ids rest due asked r w (iv_reads _ HI) (hd_session _ _ (iv_held _ HI) g Hin) (hd_phase _ _ (iv_held _ HI) g Hin) Hp)
    as (file & wake & rest' & due' & w' & Hr & -> & Hw' & Hall & Hrest & Hdue & Hlen). subst rest.
  apply work_loop; [|by destruct Hw' as [->| ->]|done|done|done|by destruct Hw' as [->| ->]|unfold group_work; rewrite Hp; cbn [length]; lia].
  destruct Hw' as [->| ->]; [done|by apply ran_check_all_inv].
Qed.
Lemma answer_lowers_work w ev : Inv w -> answer ev = true -> step w ev = w \/ (work (step w ev) < work w)%nat.
Proof.
  intros HI Ha. destruct ev as [name value|now listed|id readable|id good|id stamp|id state|id|id|id r|id|id good|id good|]; try done; cbn [step]; clear Ha.
  1-3: destruct (look_of id w) as [l|] eqn:E; [|by left]; apply named_Some in E as [Hin <-]; destruct (l_phase l) as [| |s] eqn:Hp; try (by left); right.
  - unfold look_on. match goal with |- context [if ?b then _ else _] => destruct b end; [|set (w1 := with_wakes _ w); change (work w) with (work w1)];
      apply work_put_look; try done; try (unfold look_work; rewrite Hp; cbn; lia).
    by apply (inv_only w); [apply with_wakes_only|apply with_wakes_reads; [apply HI|exact (rd_shared _ (iv_reads _ HI))|exact (rd_failing _ (iv_reads _ HI))]|].
  - pose proof (rd_nodup _ (iv_reads _ HI)) as Hnd. unfold look_read, work. cbn [groups looks put_look with_looks with_wakes].
    rewrite (upd_perm l_id _ l) by done. rewrite (sum_without l_id look_work l (looks w)) by done. unfold list_sum. cbn [map foldr l_id look_to].
    assert (Hw : look_work l = 2%nat) by (unfold look_work; by rewrite Hp). rewrite Hw. unfold look_work at 1. cbn [l_phase look_to]. lia.
  - pose proof (rd_nodup _ (iv_reads _ HI)) as Hnd. unfold look_returns, work. cbn [groups looks with_looks with_wakes].
    rewrite (sum_without l_id look_work l (looks w)) by done.
    assert (Hw : look_work l = 1%nat) by (unfold look_work; by rewrite Hp). lia.
  - destruct (group_of id w) as [g|] eqn:E; [|by left]. apply named_Some in E as [Hin <-]. pose proof (hd_phase _ _ (iv_held _ HI) g Hin) as Hok. unfold phase_ok in Hok.
    destruct (g_phase g) as [ids|ids|ids rest due asked|m took|rest m|] eqn:Hp; try (by left).
    + destruct (forallb _ ids); [|by left]. right. destruct ids.
      * apply work_loop; [done..|unfold group_work; rewrite Hp; cbn; lia].
      * apply work_put_group; [done..|]. unfold group_work. cbn. rewrite Hp. lia.
    + right. apply work_loop; [done..|unfold group_work; rewrite Hp; cbn; lia].
    + right. apply work_end_group; [done..|unfold group_work; rewrite Hp; lia].
  - destruct (group_of id w) as [g|] eqn:E; [|by left]. apply named_Some in E as [Hin <-]. destruct (g_phase g) eqn:Hp; try (by left). right. by apply work_check.
  - destruct (group_of id w) as [g|] eqn:E; [|by left]. apply named_Some in E as [Hin <-]. destruct (g_phase g) as [| | |m took| |] eqn:Hp; try (by left). destruct took; [by left|]. right.
    change (work (take_message g m w)) with (work (put_group (in_phase (GSend m true) g) w)). apply work_put_group; [done..|]. unfold group_work. rewrite Hp. cbn. lia.
  - destruct (group_of id w) as [g|] eqn:E; [|by left]. apply named_Some in E as [Hin <-]. destruct (g_phase g) as [| | |m took| |] eqn:Hp; try (by left). destruct good; [destruct took; [|by left]|]; right.
    + unfold remove_next. apply work_put_group; [done..|]. unfold group_work. rewrite Hp. cbn [g_phase in_phase]. pose proof (length_map d_file (v_due m)) as Hl. destruct (map d_file (v_due m)) as [|y l]; cbn [g_phase length] in *; lia.
    + apply work_put_group; [done..|]. unfold group_work. rewrite Hp. cbn. destruct took; lia.
  - destruct (group_of id w) as [g|] eqn:E; [|by left]. apply named_Some in E as [Hin <-]. destruct (g_phase g) as [| | | |[|f rest] m|] eqn:Hp; try (by left). right.
    assert (Hg : forall p w', groups w' = groups w -> looks w' = looks w -> (group_work (in_phase p g) < group_work g)%nat -> (work (put_group (in_phase p g) w') < work w)%nat).
    { intros p w' H1 H2 Hlt. assert (Heq : work (put_group (in_phase p g) w') = work (put_group (in_phase p g) w)) by (unfold work; cbn; by rewrite H1, H2). rewrite Heq. by apply work_put_group. }
    destruct good; [unfold remove_next|]; apply Hg; try done; unfold group_work; rewrite Hp; cbn; [destruct rest; cbn; lia|lia].
Qed.
Lemma look_goes_on w l : Inv w -> l ∈ looks w -> exists ev, answer ev = true /\ (work (step w ev) < work w)%nat.
Proof.
  intros HI Hin. set (ev := match l_phase l with LStamp => LookStamp (l_id l) None | LState => LookState (l_id l) Going | LReturns _ => LookReturns (l_id l) end).
  assert (Ha : answer ev = true) by (unfold ev; by destruct (l_phase l)). exists ev. split; [done|]. destruct (answer_lowers_work w ev HI Ha) as [He|?]; [|done]. exfalso.
  assert (Hl : look_of (l_id l) w = Some l) by (apply named_nodup; [apply HI|done]).
  assert (Hstay : forall p, upd l_id (look_to p l) (looks w) = looks w -> p = l_phase l).
  { intros p Hput. assert (Hin' : look_to p l ∈ looks w) by (rewrite <- Hput; by eapply upd_put). change p with (l_phase (look_to p l)). f_equal.
    by apply (nodup_key l_id (looks w)); [apply HI|..]. }
  unfold ev in He. apply (f_equal looks) in He. destruct (l_phase l) eqn:Hp; cbn [step] in He; rewrite Hl, Hp in He.
  - unfold look_on in He. match type of He with context [if ?b then _ else _] => destruct b end; by apply Hstay in He.
  - by apply Hstay in He.
  - cbn in He. rewrite <- He in Hin. by apply elem_without in Hin as [_ ?].
Qed.
(** A group that is under way waits for something that is under way. *)
Lemma group_goes_on w g : Inv w -> g ∈ groups w -> exists ev, answer ev = true /\ (work (step w ev) < work w)%nat.
Proof.
  intros HI Hin. assert (Hg : group_of (g_id g) w = Some g) by (apply named_nodup; [apply HI|done]).
  pose proof (hd_phase _ _ (iv_held _ HI) g Hin) as Hok. unfold phase_ok in Hok.
  destruct (g_phase g) as [ids|ids|ids rest due asked|m took|rest m|] eqn:Hp.
  - destruct (forallb (fun x => OMap.has x.2 (results w)) ids) eqn:Ef.
    + exists (GroupGo (g_id g)). split; [done|]. cbn [step]. rewrite Hg, Hp, Ef. destruct ids.
      * apply work_loop; [done..|unfold group_work; rewrite Hp; cbn; lia].
      * apply work_put_group; [done..|]. unfold group_work. rewrite Hp. cbn. lia.
    + assert (Hx : exists x, x ∈ ids /\ OMap.get x.2 (results w) = None).
      { clear -Ef. induction ids as [|x ids IH]; [done|]. cbn in Ef. apply andb_false_iff in Ef as [Ef|Ef].
        - exists x. split; [by left|]. unfold OMap.has in Ef. by destruct (OMap.get x.2 (results w)).
        - destruct (IH Ef) as (y & ? & ?). exists y. split; [by right|done]. }
      destruct Hx as (x & Hx & Hn). unfold all_read in Hok. rewrite Forall_forall in Hok. destruct (Hok x Hx) as [(l & Hl & _)|(r & Hr & _)]; [by eapply look_goes_on|congruence].
  - exists (GroupGo (g_id g)). split; [done|]. cbn [step]. rewrite Hg, Hp. apply work_loop; [done..|unfold group_work; rewrite Hp; cbn; lia].
  - exists (CheckAnswered (g_id g) (mkCheck false "")). split; [done|]. cbn [step]. rewrite Hg, Hp. by apply work_check.
  - destruct took; [exists (SendAnswered (g_id g) false)|exists (Takes (g_id g))]; (split; [done|]); cbn [step]; rewrite Hg, Hp.
    + apply work_put_group; [done..|]. unfold group_work. rewrite Hp. cbn. lia.
    + change (work (take_message g m w)) with (work (put_group (in_phase (GSend m true) g) w)). apply work_put_group; [done..|]. unfold group_work. rewrite Hp. cbn. lia.
  - destruct Hok as (_ & _ & Hne & _). destruct rest as [|f rest]; [done|]. exists (FileRemoved (g_id g) false). split; [done|]. cbn [step]. rewrite Hg, Hp.
    apply work_put_group; [done..|]. unfold group_work. rewrite Hp. cbn. lia.
  - exists (GroupGo (g_id g)). split; [done|]. cbn [step]. rewrite Hg, Hp. apply work_end_group; [done..|unfold group_work; rewrite Hp; lia].
Qed.

(** ** The theorems *)

(** C35: Nothing wakes a session early: in every run, whatever the order of passes, reads, checks, submits, writes into the
    folder and crashes, every wake in a message the host took was due when its pass began: its time had come, its check exited 0 in
    that pass or reached its deadline, or a read of its run had said that the wanted attempt finished or never began, or
    had failed ten minutes before with the error the message quotes.  And every wake in the message is of the session it goes to. *)
Theorem wakes_go_only_when_due evs m : m ∈ taken (run evs) ->
  v_due m <> [] /\ Forall (fun d => justified (run evs) (v_now m) d /\ w_session (d_wake d) = v_session m) (v_due m).
Proof. apply (hd_taken _ _ (iv_held _ (run_inv evs))). Qed.

(** Two passes never handle one file: in every run the set [handling] is exactly the files of the groups under way, each of them
    in one group and once in it, so no file stays in the set after its group and no two groups send one file at once. *)
Theorem one_group_per_file evs : NoDup (files (groups (run evs))) /\ handling (wakes (run evs)) ≡ₚ files (groups (run evs)).
Proof.
  destruct (iv_held _ (run_inv evs)) as [_ _ Hf Hn _ _ _]. cbn in Hf. rewrite app_nil_r in Hf. split; [by rewrite <- Hf|done].
Qed.

(** C36: A wake's file leaves the folder only after the wake was handed over: when a name is written once, with a file that is a
    wake, and no read of a file fails, then at every later moment of every run, through any passes beside each other, failed
    submits, failed removals and crashes, the file is in the folder as it was written or a message the host took
    holds that very wake. *)
Theorem wake_files_leave_only_delivered f v wk evs1 evs2 :
  parseWake v = Some wk -> (forall value, Write f value ∉ evs1 ++ evs2) -> (forall id, ReadFile id false ∉ evs1 ++ evs2) ->
  let w := run (evs1 ++ Write f (Some v) :: evs2) in OMap.get f (dir w) = Some (Some v) \/ delivered f wk w.
Proof.
  intros Hwk Hw Hr w. assert (Hgen : forall b evs w0, (forall value, Write f value ∉ evs) -> (forall id, ReadFile id false ∉ evs) -> Inv w0 -> Once f v wk b w0 -> Inv (steps w0 evs) /\ Once f v wk b (steps w0 evs)).
  { intros b evs. induction evs as [|ev evs IH]; intros w0 H1 H2 HI HO; [done|]. apply IH; [set_solver|set_solver|by apply wake_step_inv|].
    replace b with (b || match ev with Write name _ => bool_decide (name = f) | _ => false end).
    - apply once_step; [done..| |].
      + intros id readable ->. destruct readable; [done|]. exfalso. apply (H2 id). by left.
      + intros value ->. exfalso. apply (H1 value). by left.
    - destruct ev; try apply orb_false_r. rewrite bool_decide_eq_false_2; [apply orb_false_r|]. intros ->. apply (H1 value). by left. }
  assert (HO : Once f v wk false new_world) by (constructor; cbn; [by left|done|by intros ? ?%elem_of_nil..]).
  destruct (Hgen false evs1 new_world) as [I1 O1]; [set_solver|set_solver|exact (run_inv [])|done|].
  assert (O2 : Once f v wk true (step (steps new_world evs1) (Write f (Some v)))).
  { pose proof (once_step f v wk Hwk false _ (Write f (Some v)) I1 O1) as Hs. cbn [orb] in Hs. rewrite bool_decide_eq_true_2 in Hs by done. apply Hs; [done|]. by intros value [= <-]. }
  destruct (Hgen true evs2 _ ltac:(set_solver) ltac:(set_solver) (wake_step_inv _ (Write f (Some v)) I1) O2) as [_ O3].
  unfold w, run, steps in *. rewrite fold_left_app. cbn [fold_left]. by apply (oc_kept _ _ _ _ _ O3).
Qed.

(** No file is handled for ever: at every moment of every run an answer that comes (of a stamp, a read, a check, a submit, a
    removal) either finds nothing waiting for it or lowers what is still to be answered, and while a group holds a file there is
    an answer that does.  So from the last pass on the calls that answer end every group, and then [handling] is empty. *)
Theorem handling_ends evs :
  let w := run evs in
  (forall ev, answer ev = true -> step w ev = w \/ (work (step w ev) < work w)%nat)
  /\ (handling (wakes w) <> [] -> exists ev, answer ev = true /\ (work (step w ev) < work w)%nat)
  /\ exists answers, Forall (fun ev => answer ev = true) answers /\ (length answers <= work w)%nat /\ handling (wakes (run (evs ++ answers))) = [].
Proof.
  intros w. pose proof (run_inv evs) as HI. fold w in HI.
  assert (Hgo : forall w0, Inv w0 -> handling (wakes w0) <> [] -> exists ev, answer ev = true /\ (work (step w0 ev) < work w0)%nat).
  { intros w0 H0 Hne. destruct (groups w0) as [|g gs] eqn:Eg.
    - destruct (iv_held _ H0) as [_ _ Hf _ _ _ _]. rewrite Eg in Hf. by apply Permutation_nil_r in Hf.
    - apply (group_goes_on w0 g); [done|]. rewrite Eg. by left. }
  split_and!; [by intros; apply answer_lowers_work|by apply Hgo|].
  unfold run, steps in *. assert (Hgen : forall n w0, Inv w0 -> (work w0 <= n)%nat -> exists answers, Forall (fun ev => answer ev = true) answers /\ (length answers <= n)%nat /\ handling (wakes (fold_left step answers w0)) = []).
  { induction n as [n IH] using lt_wf_ind. intros w0 H0 Hn. destruct (decide (handling (wakes w0) = [])) as [He|He]; [exists []; cbn; split_and!; [constructor|lia|done]|].
    destruct (Hgo w0 H0 He) as (ev & Ha & Hlt). destruct (IH (work (step w0 ev)) ltac:(lia) (step w0 ev) (wake_step_inv w0 ev H0) ltac:(lia)) as (answers & H1 & H2 & H3).
    exists (ev :: answers). cbn. split_and!; [by constructor|lia|done]. }
  destruct (Hgen (work w) w HI ltac:(lia)) as (answers & H1 & H2 & H3). exists answers. split_and!; [done|done|]. by rewrite fold_left_app.
Qed.
End Work.

(** ** Runs *)

(** [toISOString] for the runs below: the milliseconds as text, and a throw outside the range of dates. *)
#[local] Instance demo_clock : WakeClock := {| toISO := fun q => let t := round q in if Z.abs t <=? 8640000000000000 then Ok (string_of_Z t) else Throw "Invalid time value" |}.
Definition wake_file (on : WakeOn) (since : Z) : json := json_of_wake (mkWake "s--2" None on "n" (inject_Z since)).
Definition finished_run (attempt : Z) : RunState := Done "success" (Some attempt) (Some 5) "u" "l" None.
(** A run wake from its file to the host: the pass is 0, the read 1, the group 2. *)
Definition run_wake : list Event :=
  [Begin 10 true; ReadFile 0 true; LookStamp 1 None; LookState 1 (finished_run 1); LookReturns 1; GroupGo 2; GroupGo 2; Takes 2; SendAnswered 2 true; FileRemoved 2 true; GroupGo 2].
Definition demo_evs : list Event := Write "a.json" (Some (wake_file (OnRun 7 None None) 1)) :: run_wake.
Definition demo_message : Message := default (mkMessage "" "" None (inject_Z 0) [] 0) (head (taken (run demo_evs))).
Lemma wakes_go_only_when_due_witness :
  taken (run demo_evs) = [demo_message] /\ v_session demo_message = "s--2"
  /\ Forall (fun d => justified (run demo_evs) (v_now demo_message) d /\ w_session (d_wake d) = v_session demo_message) (v_due demo_message).
Proof.
  assert (Ht : taken (run demo_evs) = [demo_message]) by (vm_compute; reflexivity). split_and!; [done|vm_compute; reflexivity|].
  destruct (wakes_go_only_when_due demo_evs demo_message) as [_ Hd]; [rewrite Ht; by left|exact Hd].
Defined.
Lemma wake_files_leave_only_delivered_witness :
  OMap.get "a.json" (dir (run demo_evs)) = None /\ delivered "a.json" (mkWake "s--2" None (OnRun 7 None None) "n" (inject_Z 1)) (run demo_evs).
Proof.
  assert (Hd : OMap.get "a.json" (dir (run demo_evs)) = None) by (vm_compute; reflexivity). split; [done|].
  destruct (wake_files_leave_only_delivered "a.json" (wake_file (OnRun 7 None None) 1) (mkWake "s--2" None (OnRun 7 None None) "n" (inject_Z 1)) [] run_wake) as [He|H]; [reflexivity| | | |exact H].
  - intros value. cbn. repeat (apply not_elem_of_cons; split; [done|]). apply not_elem_of_nil.
  - intros id. cbn. repeat (apply not_elem_of_cons; split; [done|]). apply not_elem_of_nil.
  - cbn [app] in He. change (Write "a.json" (Some (wake_file (OnRun 7 None None) 1)) :: run_wake) with demo_evs in He. congruence.
Defined.

Definition sent_files (w : World) : list (Q * list string) := map (fun m => (v_setAt m, map d_file (v_due m))) (taken w).
(** A pass that read a wake's file before an earlier pass removed it takes it once that pass is done, and sends it again; the second
    message has fewer wakes and so another request id. *)
Definition late_pass : list Event :=
  [Write "a.json" (Some (wake_file (OnTime (inject_Z 5)) 1)); Write "b.json" (Some (wake_file (OnTime (inject_Z 5)) 2));
   Begin 10 true; ReadFile 0 true; ReadFile 0 true; GroupGo 1; Takes 1; Begin 20 true; ReadFile 2 true; SendAnswered 1 true; FileRemoved 1 true; FileRemoved 1 true; GroupGo 1;
   ReadFile 2 true; Removed 2 true; GroupGo 3; Takes 3].
Theorem late_pass_sends_again : sent_files (run late_pass) = [(inject_Z 2, ["a.json"; "b.json"]); (inject_Z 1, ["a.json"])].
Proof. vm_compute. reflexivity. Qed.
(** A wake that is set again under its name while a pass handles the file is removed with it: the wake for attempt 2 of a run is
    gone and was never sent. *)
Definition set_again : list Event :=
  [Write "a.json" (Some (wake_file (OnRun 7 None None) 1)); Begin 10 true; ReadFile 0 true; LookStamp 1 None; LookState 1 (finished_run 1);
   Write "a.json" (Some (wake_file (OnRun 7 None (Some 2)) 9)); LookReturns 1; GroupGo 2; GroupGo 2; Takes 2; SendAnswered 2 true; FileRemoved 2 true; GroupGo 2].
Theorem wake_set_again_is_lost : dir (run set_again) = [] /\ sent_files (run set_again) = [(inject_Z 1, ["a.json"])].
Proof. by vm_compute. Qed.
(** One failed read of a wake's file removes the wake. *)
Theorem unreadable_wake_is_lost :
  let w := run [Write "a.json" (Some (wake_file (OnTime (inject_Z 50)) 1)); Begin 10 true; ReadFile 0 false; Removed 0 true] in dir w = [] /\ taken w = [].
Proof. by vm_compute. Qed.
(** A finished run whose message the host refused is not sent at the next tick, nor at any until the run may be read again. *)
Definition quiet_pass (k : nat) (now : Z) : list Event := [Begin now true; ReadFile k true; LookStamp (S k) None; LookReturns (S k); GroupGo (S (S k)); GroupGo (S (S k))].
Definition refused_send : list Event :=
  [Write "a.json" (Some (wake_file (OnRun 7 None None) 1)); Begin 0 true; ReadFile 0 true; LookStamp 1 None; LookState 1 (finished_run 1); LookReturns 1; GroupGo 2; GroupGo 2; SendAnswered 2 false; GroupGo 2]
  ++ quiet_pass 3 30000 ++ quiet_pass 6 60000 ++ quiet_pass 9 90000.
Theorem refused_run_waits_for_its_read :
  let w := run refused_send in map fst (dir w) = ["a.json"] /\ groups w = [] /\ looks w = [] /\ run_reads w = [(7, 0, finished_run 1)] /\ next w = 12%nat.
Proof. by vm_compute. Qed.
(** A time wake whose time is no date is due at once, and its text throws in every pass: the other due wakes of its session stay with it. *)
Definition bad_time : list Event :=
  [Write "a.json" (Some (wake_file (OnTime (inject_Z (-(10 ^ 17)))) 1)); Write "b.json" (Some (wake_file (OnTime (inject_Z 5)) 2));
   Begin 10 true; ReadFile 0 true; ReadFile 0 true; GroupGo 1; GroupGo 1; Begin 20 true; ReadFile 2 true; ReadFile 2 true; GroupGo 3; GroupGo 3].
Theorem bad_time_holds_its_session : taken (run bad_time) = [] /\ map fst (dir (run bad_time)) = ["a.json"; "b.json"] /\ groups (run bad_time) = [] /\ next (run bad_time) = 4%nat.
Proof. by vm_compute. Qed.
