(* ===== verification/WakeRead.v ===== *)
(** * How the wake ticker reads a run, and where it runs a check

    [readRunState], [cacheWatch] and [waking] of [legacy/prime/user-history/src/wakes.ts], and [checkThread] and [boxCheck] of
    [apps/chat/server/wakes.ts].  The programs the service runs ([ci-run-status], [gh]) are an argument: what a command with its
    arguments prints, or the message of its error.  So are [JSON.parse] of a text, [Date.parse] of a value's text, and the path of
    the real gh.  A command that is run twice with one read prints the same. *)

From S2P Require Import Prelude Json Wake WakeTick.
From Stdlib Require Import QArith.QArith_base.
#[local] Open Scope string_scope.
#[local] Open Scope list_scope.
#[local] Open Scope Z_scope.

Fixpoint includes_chars (sub l : chars) : bool := starts_with sub l || match l with [] => false | _ :: r => includes_chars sub r end.
Definition includes (sub s : string) : bool := includes_chars (to_chars sub) (to_chars s).

Definition CI_CACHE_REPO : string := "sieu-n/auto-sns-agent".
Definition OTHER_RUN_REPOS : list string := ["sieu-n/slack-green"; "sieu-n/sieun-pi"].
Definition NO_RESULT : string := "ghost, no result".
Definition NO_RESULT_WHY : string := "The CI cache reads it as a ghost or a jobless run, so it will not report a result: rerun it or push again if you still need one.".
Definition NOT_CACHED (message : string) : bool := includes " is not in the cache " message.
Definition DEAD_CACHE (message : string) : bool := includes " has not moved since " message.
Definition NO_SUCH_RUN (message : string) : bool := includes "HTTP 404" message.
Definition CACHE_INTERVAL_S : Z := 30.
Definition STALE_CYCLES : Z := 3.

(** ** Reading a run *)

Class CI := {
  exec : string -> list string -> result string;
  parse_json : string -> result json;
  date_of : option json -> option Z;
  REAL_GH : string }.

Section Read.
Context `{CI}.
Definition RUN_FIELDS : string := "status,conclusion,attempt,url,workflowName,headBranch,updatedAt".
Definition gh (run : Z) (repo bin : string) : result string := exec bin ["run"; "view"; number_text run; "--repo"; repo; "--json"; RUN_FIELDS].
(** [anyRepo]'s loop; [missing] is the last error of a repo that has no such run. *)
Fixpoint any_repo (run : Z) (bin missing : string) (repos : list string) : result string :=
  match repos with
  | [] => Throw missing
  | repo :: repos =>
      match gh run repo bin with
      | Ok text => Ok text
      | Throw e => if NO_SUCH_RUN e then any_repo run bin e repos else Throw e
      end
  end.
Definition anyRepo (run : Z) (bin : string) : result string := any_repo run bin "undefined" (CI_CACHE_REPO :: OTHER_RUN_REPOS).
(** The text, and whether it is the cache's. *)
Definition cached (run : Z) (stale : bool) : result (string * bool) :=
  if stale then text ← anyRepo run REAL_GH; Ok (text, false)
  else match exec "ci-run-status" [number_text run] with
       | Ok text => Ok (text, true)
       | Throw e =>
           if NOT_CACHED e then text ← anyRepo run "gh"; Ok (text, false)
           else if DEAD_CACHE e then text ← anyRepo run REAL_GH; Ok (text, false)
           else Throw e
       end.
(** The fields of a parsed value: a property of [null] throws, any other value without fields has none. *)
Definition fields_of (v : json) : result (list (string * json)) :=
  match v with JObj fs => Ok fs | JNull => Throw "Cannot read properties of null" | _ => Ok [] end.
Definition status_of (fs : list (string * json)) : option string := as_string (field fs "status").
Definition state_from (fs : list (string * json)) : RunState :=
  let ghost := bool_decide (status_of fs = Some NO_RESULT) in
  if negb (bool_decide (status_of fs = Some "completed")) && negb ghost then Going
  else
    let workflow := default (default "" (as_string (field fs "workflowName"))) (as_string (field fs "workflow")) in
    let branch := default "" (as_string (field fs "headBranch")) in
    Done (if ghost then "no result" else default "unknown" (as_string (field fs "conclusion"))) (safe_over 0 (field fs "attempt")) (date_of (field fs "updatedAt"))
      (default "" (as_string (field fs "url"))) (String.concat " on " (List.filter nonempty [workflow; branch])) (if ghost then Some NO_RESULT_WHY else None).
Definition readRunState (run : Z) (repo : option string) (stale : bool) : result RunState :=
  '(text, from_cache) ← match repo with Some repo => text ← gh run repo "gh"; Ok (text, false) | None => cached run stale end;
  raw ← parse_json text;
  fs ← (if from_cache then fields_of raw else Ok []);
  raw ← (if from_cache && bool_decide (status_of fs = Some "completed") then parse_json (match gh run CI_CACHE_REPO REAL_GH with Ok latest => latest | Throw _ => text end) else Ok raw);
  fs ← fields_of raw;
  Ok (state_from fs).
(** What [look] makes of it. *)
Definition read_answer (r : result RunState) : RunState := match r with Ok s => s | Throw e => Unread e end.

Lemma any_repo_Ok run bin missing repos text : any_repo run bin missing repos = Ok text <->
  exists before repo after, repos = before ++ repo :: after /\ gh run repo bin = Ok text /\ Forall (fun r => exists e, gh run r bin = Throw e /\ NO_SUCH_RUN e = true) before.
Proof.
  revert missing. induction repos as [|repo repos IH]; intros missing; cbn [any_repo].
  - split; [done|]. by intros ([] & ? & ? & ? & _).
  - destruct (gh run repo bin) as [t|e] eqn:E.
    + split.
      * intros [= ->]. by exists [], repo, repos.
      * intros ([|b before] & r & after & [= -> Hr] & Hg & Hf); [congruence|]. apply Forall_cons in Hf as [(e & He & _) _]. congruence.
    + destruct (NO_SUCH_RUN e) eqn:En.
      * rewrite IH. split; intros (before & r & after & Hr & Hg & Hf).
        -- exists (repo :: before), r, after. subst repos. split_and!; [done|done|]. apply Forall_cons. split; [by exists e|done].
        -- destruct before as [|b before]; [simplify_eq/=; congruence|]. simplify_eq/=. apply Forall_cons in Hf as [_ Hf]. by exists before, r, after.
      * split; [done|]. intros (before & r & after & Hr & Hg & Hf). destruct before as [|b before]; simplify_eq/=; [congruence|]. apply Forall_cons in Hf as [(e' & He' & Hn) _]. congruence.
Qed.
(** The read of a run with no repo of its own, told by cases: a stale cache is not asked; a finished run of the cache is
    answered by gh's latest attempt when gh can be read and gives JSON, and stays as the cache has it when gh fails; a run
    the cache has not is answered by the first repo that has it ([any_repo_Ok]); and a run with a repo of its own never asks the cache. *)
Theorem readRunState_cases run text v fs :
  exec "ci-run-status" [number_text run] = Ok text -> parse_json text = Ok v -> fields_of v = Ok fs ->
  (status_of fs <> Some "completed" -> readRunState run None false = Ok (state_from fs))
  /\ (status_of fs = Some "completed" ->
      (forall e, gh run CI_CACHE_REPO REAL_GH = Throw e -> readRunState run None false = Ok (state_from fs))
      /\ (forall latest v' fs', gh run CI_CACHE_REPO REAL_GH = Ok latest -> parse_json latest = Ok v' -> fields_of v' = Ok fs' -> readRunState run None false = Ok (state_from fs')))
  /\ (forall repo, readRunState run (Some repo) true = readRunState run (Some repo) false).
Proof.
  intros He Hp Hf. unfold readRunState, cached. rewrite He. cbn [mbind result_bind]. rewrite Hp. cbn [mbind result_bind]. rewrite Hf. cbn [mbind result_bind andb]. split_and!.
  - intros Hs. rewrite bool_decide_eq_false_2 by done. cbn [mbind result_bind]. by rewrite Hf.
  - intros Hs. rewrite bool_decide_eq_true_2 by done. split.
    + intros e ->. cbn [mbind result_bind]. rewrite Hp. cbn [mbind result_bind]. by rewrite Hf.
    + intros latest v' fs' -> Hp' Hf'. rewrite Hp'. cbn [mbind result_bind]. by rewrite Hf'.
  - done.
Qed.
(** With a stale cache no state comes from [ci-run-status]: any two services that differ in its answer alone read the run alike. *)
Lemma stale_asks_gh run text : cached run true = Ok (text, false) <-> anyRepo run REAL_GH = Ok text.
Proof. unfold cached. destruct (anyRepo run REAL_GH); cbn; naive_solver. Qed.
End Read.

(** ** The cache's heartbeat *)

Record CacheBeat := mkBeat { fetchedAt : Z; intervalSeconds : Q; beat_error : option string }.
Definition parseBeat (date_parse : string -> option Z) (value : json) : option CacheBeat :=
  match value with
  | JObj fs =>
      match as_string (field fs "fetchedAt") ≫= date_parse with
      | Some at_ =>
          let interval := match as_number (field fs "intervalSeconds") with Some q => if Wake.positive q then q else inject_Z CACHE_INTERVAL_S | None => inject_Z CACHE_INTERVAL_S end in
          Some (mkBeat at_ interval (match as_string (field fs "error") with Some e => if nonempty e then Some e else None | None => None end))
      | None => None
      end
  | _ => None
  end.
Definition beatStale (b : CacheBeat) (now : Z) : bool := negb (Qle_bool (inject_Z (now - fetchedAt b)) (inject_Z STALE_CYCLES * intervalSeconds b * inject_Z 1000)).
(** [cacheWatch]: whether the cache is stale, and the line logged: that it went stale ([true]) or is fresh again. *)
Definition cacheWatch (was : bool) (read : option CacheBeat) (now : Z) : bool * option bool :=
  let stale := match read with Some b => beatStale b now | None => false end in
  (stale, if negb (Bool.eqb stale was) && match read with Some _ => true | None => false end then Some stale else None).
Fixpoint watch (was : bool) (reads : list (option CacheBeat * Z)) : list bool :=
  match reads with [] => [] | (r, now) :: reads => let '(was, line) := cacheWatch was r now in option_list line ++ watch was reads end.
(** The lines alternate while the heartbeat can be read; a heartbeat that cannot be read ends a stale spell without a line. *)
Theorem watch_alternates was reads : Forall (fun r => is_Some r.1) reads -> forall i a b, watch was reads !! i = Some a -> watch was reads !! S i = Some b -> b = negb a.
Proof.
  assert (Hhead : forall reads was a, Forall (fun r => is_Some r.1) reads -> watch was reads !! 0%nat = Some a -> a = negb was).
  { induction reads0 as [|[r now] l IH]; intros was0 a Hs Ha; [done|]. apply Forall_cons in Hs as [[b Hb] Hs]. cbn in Hb. subst r. cbn [watch cacheWatch] in Ha.
    destruct (beatStale b now), was0; cbn in Ha; simplify_eq; try done; by apply IH in Ha. }
  intros Hs. revert was. induction reads as [|[r now] l IH]; intros was i a b Ha Hb; [done|]. apply Forall_cons in Hs as [[bt Hbt] Hs]. cbn in Hbt. subst r. cbn [watch cacheWatch] in Ha, Hb.
  destruct (negb _ && _); [|by eapply (IH Hs); [exact Ha|exact Hb]]. destruct i as [|i]; [|by eapply (IH Hs); [exact Ha|exact Hb]].
  cbn in Ha, Hb. simplify_eq. by apply Hhead in Hb.
Qed.

(** ** Where a check runs *)

(** [checkThread], on the values of the wake files in the folder's order; a file that is no JSON is not among them. *)
Definition check_of (v : json) : option (string * string) :=
  match v with
  | JObj fs =>
      match as_object (field fs "on"), as_string (field fs "session") with
      | Some on, Some session => if bool_decide (as_string (field on "kind") = Some "check") then (fun c => (c, session)) <$> as_string (field on "command") else None
      | _, _ => None
      end
  | _ => None
  end.
Definition checkThread (files : list json) (command : string) : option string :=
  (fun cs => (wakeTarget cs.2).1) <$> List.find (fun cs => bool_decide (cs.1 = command)) (omap check_of files).
(** [boxCheck]: the run of the thread's box, or this box's. *)
Definition boxCheck {A} (files : list json) (checkOn : string -> option (string -> A)) (runCheck : string -> A) (command : string) : A :=
  match checkThread files command with
  | Some thread => if nonempty thread then match checkOn thread with Some remote => remote command | None => runCheck command end else runCheck command
  | None => runCheck command
  end.
(** [waking]. *)
Definition waking (names : list string) (session : string) : bool :=
  existsb (fun n => starts_with (to_chars (session +:+ "-")) (to_chars n) && ends_with JSON_EXT (to_chars n)) names.

Lemma check_of_wake w command every t : w_on w = OnCheck command every t -> check_of (json_of_wake w) = Some (command, w_session w).
Proof.
  intros Hon. unfold check_of, json_of_wake. destruct w as [session root on note since]. cbn in Hon |- *. subst on. destruct root as [r|]; cbn [opt_field fmap option_fmap option_map app]; lookups; cbn [as_object as_string json_of_on]; lookups;
    cbn [as_string]; by rewrite bool_decide_eq_true_2.
Qed.
(** A check of a thread's wake runs on that thread's box when its command is its own among the wakes: then [checkThread] finds the
    thread that armed it. *)
Theorem own_command_runs_on_its_box {A} files checkOn (runCheck : string -> A) thread conversation w command every t :
  thread <> "" -> 1 <= conversation < 10 ^ 21 -> w_session w = wakeSession thread conversation -> w_on w = OnCheck command every t ->
  json_of_wake w ∈ files -> (forall v session, v ∈ files -> check_of v = Some (command, session) -> session = w_session w) ->
  boxCheck files checkOn runCheck command = match checkOn thread with Some remote => remote command | None => runCheck command end.
Proof.
  intros Ht Hc Hs Hon Hin Honly. unfold boxCheck, checkThread.
  assert (Hf : exists s, List.find (fun cs => bool_decide (cs.1 = command)) (omap check_of files) = Some (command, s) /\ s = w_session w).
  { destruct (List.find _ _) as [[c s]|] eqn:E.
    - apply find_some in E as [E Hb]. apply bool_decide_eq_true in Hb. cbn in Hb. subst c. exists s. split; [done|]. apply list_elem_of_In, list_elem_of_omap in E as (v & Hv & Hcv). by eapply Honly.
    - exfalso. assert (Hm : (command, w_session w) ∈ omap check_of files) by (apply list_elem_of_omap; exists (json_of_wake w); split; [done|by eapply check_of_wake]).
      apply list_elem_of_In in Hm. apply (find_none _ _ E) in Hm. cbn in Hm. by apply bool_decide_eq_false in Hm. }
  destruct Hf as (s & -> & ->). cbn [fmap option_fmap option_map snd]. rewrite Hs, wakeTarget_wakeSession by done. cbn [fst]. unfold nonempty. by rewrite bool_decide_eq_true_2.
Qed.
