(* ===== verification/Wire.v ===== *)
(** * The host's socket

    [packages/pi-host/src]: [protocol.ts] (a command's line and the answers), the connection of [server.ts] and the client of
    [client.ts].  Both ends cut what arrives at its newlines, in whatever pieces it comes.  The server starts each command
    as its line is complete and answers when the host has, in any order; the client matches an answer to its request by id.

    JSON texts are the language's ([JsonText]): [stringify] and [parse] with what the two ends rely on.  What the host
    answers, and what it writes by itself, comes with the events. *)

From S2P Require Import Prelude Json.
#[local] Open Scope string_scope.
#[local] Open Scope list_scope.
#[local] Open Scope Z_scope.

Definition NL : Ascii.ascii := "010"%char.
(** [JSON.stringify] and [JSON.parse], where a text that is no JSON has no value. *)
Class JsonText := { stringify : json -> chars; parse : chars -> option json }.
(** A value of the language: no object in it has a key twice. *)
Fixpoint distinct (v : json) : bool :=
  match v with
  | JArr l => forallb distinct l
  | JObj fs => bool_decide (NoDup (OMap.keys fs)) && forallb (fun f => distinct f.2) fs
  | _ => true
  end.
(** A value's text is parsed back, holds no newline and no space at its ends, and is not empty. *)
Class JsonLaws `{JsonText} := {
  parse_stringify v : distinct v = true -> parse (stringify v) = Some v;
  stringify_line v : NL ∉ stringify v;
  stringify_trim v : trim_chars (stringify v) = stringify v;
  stringify_some v : stringify v <> []
}.

(** ** protocol.ts *)

(** A field that is left out when it is undefined, and [{...fields, key: value}]. *)
Definition opt_field (k : string) (v : option json) : list (string * json) := match v with Some x => [(k, x)] | None => [] end.
Definition put_field (k : string) (v : option json) (fs : list (string * json)) : list (string * json) :=
  match v with Some x => OMap.set k x fs | None => OMap.del k fs end.
Definition ok (id : option json) (command : string) (data : option json) : json :=
  JObj (opt_field "id" id ++ [("type", JStr "response"); ("command", JStr command); ("success", JBool true)] ++ opt_field "data" data).
Definition fail (id : option json) (command error : string) (errorInfo : option json) : json :=
  JObj (opt_field "id" id ++ [("type", JStr "response"); ("command", JStr command); ("success", JBool false); ("error", JStr error)] ++ opt_field "errorInfo" errorInfo).
Definition unknownCommand (type : string) : string :=
  "Unknown daemon command: " +:+ type +:+ ". pi-host serves a subset of the Prime v7 protocol (packages/pi-host/src/protocol.ts).".
Definition HOST_COMMANDS : list string :=
  ["list"; "list_saved_sessions"; "roster_subscribe"; "roster_unsubscribe"; "create"; "attach"; "detach"; "kill"; "rename"; "set_session_name";
   "rename_saved_session"; "archive_saved_session"; "prompt"; "steer"; "follow_up"; "abort"; "abort_bash"; "abort_compaction"; "abort_retry"; "abort_branch_summary";
   "abort_and_clear_queue"; "clear_queue"; "resume_queue"; "append_custom_message"; "mutate_queued_message"; "send_message"; "get_state";
   "get_connection_state"; "get_messages"; "get_queue"; "get_session_stats"; "get_commands"; "get_model_catalog"; "get_available_models";
   "get_session_header"; "get_session_context"; "get_last_assistant_text"; "get_system_prompt"; "get_rlm_children"; "wait_for_idle"; "set_model";
   "set_thinking_level"; "set_steering_mode"; "set_follow_up_mode"; "set_auto_compaction"; "set_auto_retry"; "compact"; "reload";
   "cancel_rlm_child"; "delete_rlm_subagent"; "cron_list"; "heartbeats_list"; "heartbeat_get"; "heartbeat_set"; "heartbeat_update";
   "heartbeat_manage"; "cron_add"; "cron_cancel"; "ack_result"; "shutdown"].

(** What a line holds: a command's fields with its id and its client, or what is wrong with it. *)
Inductive Parsed :=
| Command (fields : list (string * json)) (id clientId : option string)
| Wrong (error : string) (id : option string).
(** The fields of a value of type object: an array has none of those asked for. *)
Definition object_fields (v : option json) : option (list (string * json)) :=
  match v with Some (JObj fs) => Some fs | Some (JArr _) => Some [] | _ => None end.

Section Wire.
Context {T : JsonText}.

Definition parseCommandLine (line : chars) : Parsed :=
  match parse line with
  | None => Wrong "The line is not JSON." None
  | Some value =>
      match object_fields (Some value) with
      | None => Wrong "The line is not a JSON object." None
      | Some wire =>
          let id := as_string (field wire "id") in
          match as_string (field wire "type") with
          | None => Wrong "The command has no type." id
          | Some ty =>
              if bool_decide (ty = "command") then
                match object_fields (field wire "command") with
                | Some command =>
                    match as_string (field command "type") with
                    | Some _ => Command (put_field "id" (JStr <$> id) command) id (as_string (field wire "clientId"))
                    | None => Wrong "The envelope has no command type." id
                    end
                | None => Wrong "The envelope has no command type." id
                end
              else Command wire id None
          end
      end
  end.

(** [`${JSON.stringify(v)}\n`]. *)
Definition line_of (v : json) : chars := stringify v ++ [NL].
(** The complete lines of a buffer, and what is left after the last newline. *)
Fixpoint take_lines (l : chars) : list chars * chars :=
  match l with
  | [] => ([], [])
  | c :: r =>
      let '(ls, rest) := take_lines r in
      if bool_decide (c = NL) then ([] :: ls, rest) else match ls with [] => ([], c :: rest) | x :: xs => ((c :: x) :: xs, rest) end
  end.

(** ** server.ts *)

(** A command that runs: the id its fields name, the id it was parsed with and its type. *)
Record Running := mkRunning { r_id : option json; r_parsed : option string; r_type : string }.
(** A connection: what came after the last newline, and the commands the host has not answered, by the order they began. *)
Record Conn := mkConn { n_buffer : chars; n_begun : nat; n_running : list (nat * Running); n_open : bool }.
(** How the host's handler ends: with data, with a failure's text, with nothing, or thrown out of it. *)
Inductive Reply := Done (data : option json) | Refused (error : string) (info : option json) | Nothing | Thrown (error : string).

(** [write]: nothing is written once the socket is closed. *)
Definition write (n : Conn) (v : json) : chars := if n_open n then line_of v else [].
(** One line of [receive], with the text it writes at once. *)
Definition run_line (line : chars) (n : Conn) : Conn * chars :=
  let line := trim_chars line in
  if bool_decide (line = []) then (n, [])
  else
    match parseCommandLine line with
    | Wrong e id => (n, write n (fail (JStr <$> id) "unknown" e None))
    | Command fs id _ => (mkConn (n_buffer n) (S (n_begun n)) (n_running n ++ [(n_begun n, mkRunning (field fs "id") id (default "" (as_string (field fs "type"))))]) (n_open n), [])
    end.
Fixpoint run_lines (ls : list chars) (n : Conn) : Conn * chars :=
  match ls with
  | [] => (n, [])
  | x :: r => let '(n, out) := run_line x n in let '(n, more) := run_lines r n in (n, out ++ more)
  end.
Definition receive (chunk : chars) (n : Conn) : Conn * chars :=
  let '(ls, rest) := take_lines (n_buffer n ++ chunk) in
  run_lines ls (mkConn rest (n_begun n) (n_running n) (n_open n)).
(** [PiHost.handle] ends for a command: the durable half knows its own types, and another that is none of the host's is refused. *)
Definition answer (durable : string -> bool) (c : Running) (r : Reply) : option json :=
  if negb (durable (r_type c)) && negb (bool_decide (r_type c ∈ HOST_COMMANDS)) then Some (fail (r_id c) (r_type c) (unknownCommand (r_type c)) None)
  else match r with
       | Done data => Some (ok (r_id c) (r_type c) data)
       | Refused e info => Some (fail (r_id c) (r_type c) e info)
       | Nothing => None
       | Thrown e => Some (fail (JStr <$> r_parsed c) (r_type c) e None)
       end.
Definition reply (durable : string -> bool) (k : nat) (r : Reply) (n : Conn) : Conn * chars :=
  match OMap.get k (n_running n) with
  | Some c => (mkConn (n_buffer n) (n_begun n) (OMap.del k (n_running n)) (n_open n), match answer durable c r with Some v => write n v | None => [] end)
  | None => (n, [])
  end.

(** ** client.ts *)

(** A client: its buffer, the ids it gave out, the requests that wait with their command, those settled, the other lines, and
    the waits for a line. *)
Inductive Outcome := Answered (response : json) | TimedOut.
Record Client := mkClient {
  c_buffer : chars; c_next : Z; c_pending : list (string * string); c_settled : list (string * Outcome);
  c_lines : list json; c_waits : Z; c_waiters : list (Z * (json -> bool)); c_met : list (Z * option json)
}.
Definition fresh_client : Client := mkClient [] 0 [] [] [] 0 [] [].
Definition nth_id (k : Z) : string := "t" +:+ string_of_Z k.
(** [request]: the client after it and the value it writes. *)
Definition request (command : list (string * json)) (c : Client) : Client * json :=
  let id := nth_id (c_next c + 1) in
  (mkClient (c_buffer c) (c_next c + 1) (OMap.set id (default "" (as_string (field command "type"))) (c_pending c)) (c_settled c) (c_lines c) (c_waits c) (c_waiters c) (c_met c),
   JObj (put_field "id" (Some (JStr id)) command)).
(** The timer of a request. *)
Definition time_out (id : string) (c : Client) : Client :=
  if OMap.has id (c_pending c)
  then mkClient (c_buffer c) (c_next c) (OMap.del id (c_pending c)) (c_settled c ++ [(id, TimedOut)]) (c_lines c) (c_waits c) (c_waiters c) (c_met c)
  else c.
Definition fields_of (v : json) : list (string * json) := match v with JObj fs => fs | _ => [] end.
(** The request a line answers. *)
Definition answers (line : json) (c : Client) : option string :=
  if bool_decide (as_string (field (fields_of line) "type") = Some "response") then
    match as_string (field (fields_of line) "id") with
    | Some id => if negb (bool_decide (id = "")) && OMap.has id (c_pending c) then Some id else None
    | None => None
    end
  else None.
Definition take_line (line : json) (c : Client) : Client :=
  match answers line c with
  | Some id => mkClient (c_buffer c) (c_next c) (OMap.del id (c_pending c)) (c_settled c ++ [(id, Answered line)]) (c_lines c) (c_waits c) (c_waiters c) (c_met c)
  | None =>
      mkClient (c_buffer c) (c_next c) (c_pending c) (c_settled c) (c_lines c ++ [line]) (c_waits c)
        (List.filter (fun w => negb (w.2 line)) (c_waiters c)) (c_met c ++ map (fun w => (w.1, Some line)) (List.filter (fun w => w.2 line) (c_waiters c)))
  end.
Definition with_buffer (b : chars) (c : Client) : Client :=
  mkClient b (c_next c) (c_pending c) (c_settled c) (c_lines c) (c_waits c) (c_waiters c) (c_met c).
Definition unread (ls : list chars) (rest : chars) : chars := concat (map (fun l => l ++ [NL]) ls) ++ rest.
(** The loop of [receive]: a line that is no JSON throws before the buffer moves past it, and [null] after. *)
Fixpoint take_all (ls : list chars) (rest : chars) (c : Client) : Client * bool :=
  match ls with
  | [] => (with_buffer rest c, false)
  | x :: r => match parse x with
              | Some JNull => (with_buffer (unread r rest) c, true)
              | Some v => take_all r rest (take_line v c)
              | None => (with_buffer (unread ls rest) c, true)
              end
  end.
Definition client_receive (chunk : chars) (c : Client) : Client * bool :=
  let '(ls, rest) := take_lines (c_buffer c ++ chunk) in take_all ls rest c.
(** [waitFor]: a line seen before settles it at once. *)
Definition wait_for (test : json -> bool) (c : Client) : Client :=
  match List.find test (c_lines c) with
  | Some line => mkClient (c_buffer c) (c_next c) (c_pending c) (c_settled c) (c_lines c) (c_waits c + 1) (c_waiters c) (c_met c ++ [(c_waits c, Some line)])
  | None => mkClient (c_buffer c) (c_next c) (c_pending c) (c_settled c) (c_lines c) (c_waits c + 1) (c_waiters c ++ [(c_waits c, test)]) (c_met c)
  end.
Definition wait_out (k : Z) (c : Client) : Client :=
  if existsb (fun w => bool_decide (w.1 = k)) (c_waiters c)
  then mkClient (c_buffer c) (c_next c) (c_pending c) (c_settled c) (c_lines c) (c_waits c) (List.filter (fun w => negb (bool_decide (w.1 = k))) (c_waiters c)) (c_met c ++ [(k, None)])
  else c.

(** ** Both ends *)

(** A client and its connection with the bytes on their way to each; whether the client's [receive] ever threw. *)
Record Link := mkLink { client : Client; conn : Conn; up : chars; down : chars; threw : bool }.
Definition connected : Link := mkLink fresh_client (mkConn [] 0 [] true) [] [] false.
(** What happens: a request, a timer, a wait and its timer, bytes that arrive, the host's answer, a line of the host's own, and the end of the socket. *)
Inductive Event :=
| Request (command : list (string * json))
| Timer (id : string)
| Wait (test : json -> bool)
| WaitTimer (k : Z)
| Up (n : nat)
| Down (n : nat)
| Answer (k : nat) (r : Reply)
| Write (v : json)
| Closed.
Definition step (durable : string -> bool) (e : Event) (w : Link) : Link :=
  match e with
  | Request command => let '(c, v) := request command (client w) in mkLink c (conn w) (up w ++ line_of v) (down w) (threw w)
  | Timer id => mkLink (time_out id (client w)) (conn w) (up w) (down w) (threw w)
  | Wait test => mkLink (wait_for test (client w)) (conn w) (up w) (down w) (threw w)
  | WaitTimer k => mkLink (wait_out k (client w)) (conn w) (up w) (down w) (threw w)
  | Up n => let '(s, out) := receive (take n (up w)) (conn w) in mkLink (client w) s (drop n (up w)) (down w ++ out) (threw w)
  | Down n => let '(c, t) := client_receive (take n (down w)) (client w) in mkLink c (conn w) (up w) (drop n (down w)) (threw w || t)
  | Answer k r => let '(s, out) := reply durable k r (conn w) in mkLink (client w) s (up w) (down w ++ out) (threw w)
  | Write v => mkLink (client w) (conn w) (up w) (down w ++ write (conn w) v) (threw w)
  | Closed => mkLink (client w) (mkConn (n_buffer (conn w)) (n_begun (conn w)) (n_running (conn w)) false) (up w) (down w) (threw w)
  end.
Definition steps (durable : string -> bool) (evs : list Event) (w : Link) : Link := fold_left (fun w e => step durable e w) evs w.
End Wire.
