(* ===== verification/WireSpec.v ===== *)
(** * What the socket promises

    However the bytes are cut on their way, both ends read the lines that were written; a request settles once, with the
    host's answer to that request or its timer; and once every byte has come and the host has answered, none waits. *)

From S2P Require Import Prelude Json Wire.
#[local] Open Scope string_scope.
#[local] Open Scope list_scope.
#[local] Open Scope Z_scope.

Section Spec.
Context `{JsonLaws}.

(** ** Framing *)

Lemma take_lines_none l : NL ∉ l -> take_lines l = ([], l).
Proof.
  induction l as [|c l IH]; [done|]. rewrite not_elem_of_cons. intros [Hc Hl]. cbn [take_lines]. rewrite IH by done. by rewrite bool_decide_eq_false_2.
Qed.
Lemma take_lines_one l r : NL ∉ l -> take_lines (l ++ NL :: r) = (l :: (take_lines r).1, (take_lines r).2).
Proof.
  intros Hl. induction l as [|c l IH]; cbn [app take_lines].
  - destruct (take_lines r). by rewrite bool_decide_eq_true_2.
  - apply not_elem_of_cons in Hl as [Hc Hl]. rewrite IH by done. by rewrite bool_decide_eq_false_2.
Qed.
Definition text_of (vs : list json) : chars := concat (map line_of vs).
Lemma text_cons v vs : text_of (v :: vs) = stringify v ++ NL :: text_of vs.
Proof. unfold text_of. cbn [map concat]. unfold line_of. by rewrite <- app_assoc. Qed.
Lemma text_app vs ws : text_of (vs ++ ws) = text_of vs ++ text_of ws.
Proof. unfold text_of. by rewrite map_app, concat_app. Qed.
Lemma text_one v : text_of [v] = line_of v.
Proof. apply app_nil_r. Qed.
(** A buffer and the bytes still to come, when together they are these lines. *)
Definition framed (b q : chars) (vs : list json) : Prop := (NL ∉ b) /\ b ++ q = text_of vs.
Lemma framed_more b q vs v : framed b q vs -> framed b (q ++ line_of v) (vs ++ [v]).
Proof. intros [Hb Hq]. split; [done|]. by rewrite app_assoc, Hq, text_app, text_one. Qed.
Lemma framed_empty b vs : framed b [] vs -> vs = [].
Proof.
  intros [Hb Hq]. rewrite app_nil_r in Hq. destruct vs as [|v vs]; [done|]. rewrite text_cons in Hq. destruct Hb. rewrite Hq. set_solver.
Qed.
(** Any cut of the text gives the first lines, whole, and frames the rest. *)
Lemma take_lines_text p q vs : p ++ q = text_of vs ->
  exists vs1 vs2, vs = vs1 ++ vs2 /\ (take_lines p).1 = map stringify vs1 /\ framed (take_lines p).2 q vs2.
Proof.
  revert p. induction vs as [|v vs IH]; intros p Hp.
  - apply app_nil in Hp as [-> ->]. exists [], []. split_and!; [done|done|]. split; [by intros ?%elem_of_nil|done].
  - rewrite text_cons in Hp. destruct (decide (length p <= length (stringify v))%nat) as [Hl|Hl].
    + assert (Hn : NL ∉ p).
      { intros Hin. apply (stringify_line v). apply (f_equal (take (length p))) in Hp. rewrite take_app_length, take_app_le in Hp by lia. rewrite Hp in Hin. by eapply elem_of_take_weaken || (apply elem_of_take in Hin as (i & Hi & _); by eapply list_elem_of_lookup_2). }
      exists [], (v :: vs). rewrite take_lines_none by done. split_and!; [done|done|]. split; [done|by rewrite text_cons].
    + assert (E : exists p', p = stringify v ++ NL :: p' /\ p' ++ q = text_of vs).
      { exists (drop (S (length (stringify v))) p). assert (Ht : take (S (length (stringify v))) p = stringify v ++ [NL]).
        { apply (f_equal (take (S (length (stringify v))))) in Hp. rewrite take_app_le in Hp by lia. rewrite Hp.
          replace (S (length (stringify v))) with (length (stringify v ++ [NL])) by (rewrite length_app; cbn; lia). change (NL :: text_of vs) with ([NL] ++ text_of vs). by rewrite app_assoc, take_app_length. }
        assert (Hp' : p = stringify v ++ NL :: drop (S (length (stringify v))) p).
        { rewrite <- (take_drop (S (length (stringify v))) p) at 1. rewrite Ht. by rewrite <- app_assoc. }
        split; [done|]. rewrite Hp' in Hp. rewrite <- app_assoc in Hp. apply app_inv_head in Hp. by injection Hp. }
      destruct E as (p' & -> & Hp'). destruct (IH p' Hp') as (vs1 & vs2 & -> & H1 & H2). exists (v :: vs1), vs2.
      rewrite take_lines_one by apply stringify_line. cbn [fst snd]. split_and!; [done|by rewrite H1|done].
Qed.
(** Bytes that come in two pieces are read as in one. *)
Lemma take_lines_pieces a b : (NL ∉ (take_lines a).2) /\ take_lines (a ++ b) = ((take_lines a).1 ++ (take_lines ((take_lines a).2 ++ b)).1, (take_lines ((take_lines a).2 ++ b)).2).
Proof.
  induction a as [|c a IH]; [split; [by intros ?%elem_of_nil|cbn; by destruct (take_lines b)]|]. destruct IH as [Hn IH]. cbn [app take_lines]. rewrite IH.
  destruct (take_lines a) as [ls rest]. cbn [fst snd] in *. case_bool_decide as Hc; [done|]. destruct ls as [|x ls]; cbn [fst snd app take_lines].
  - split; [by rewrite not_elem_of_cons|]. destruct (take_lines (rest ++ b)) as [[|y ys] z]; cbn [fst snd]; by rewrite bool_decide_eq_false_2.
  - done.
Qed.

(** ** Requests *)

Definition type_of (command : list (string * json)) : string := default "" (as_string (field command "type")).
(** The requests of a run, numbered on from [k], each with the type of its command. *)
Fixpoint asks (k : Z) (evs : list Event) : list (string * string) :=
  match evs with
  | [] => []
  | Request command :: r => (nth_id (k + 1), type_of command) :: asks (k + 1) r
  | _ :: r => asks k r
  end.
(** Every command names a type and is no envelope, and what the host writes by itself is no response. *)
Definition own_line (v : json) : Prop := v <> JNull /\ as_string (field (fields_of v) "type") <> Some "response".
Definition valid (e : Event) : Prop :=
  match e with
  | Request command => distinct (JObj command) = true /\ exists ty, field command "type" = Some (JStr ty) /\ ty <> "command"
  | Write v => distinct v = true /\ own_line v
  | Answer _ (Done (Some v)) | Answer _ (Refused _ (Some v)) => distinct v = true
  | _ => True
  end.
(** The socket stays open and no command ends without an answer. *)
Definition keeps (e : Event) : Prop := match e with Closed | Answer _ Nothing => False | _ => True end.

Definition request_line (id ty : string) (v : json) : Prop :=
  distinct v = true /\ exists fs, v = JObj fs /\ field fs "id" = Some (JStr id) /\ field fs "type" = Some (JStr ty) /\ ty <> "command".
Definition response_to (id ty : string) (v : json) : Prop :=
  exists fs, v = JObj fs /\ field fs "id" = Some (JStr id) /\ field fs "type" = Some (JStr "response") /\ field fs "command" = Some (JStr ty).
Definition for_request (id ty : string) (c : Running) : Prop := c = mkRunning (Some (JStr id)) (Some id) ty.

Lemma nth_id_inj j k : nth_id j = nth_id k -> j = k.
Proof. unfold nth_id. intros E%(inj (String.append "t")). by apply (inj pretty) in E. Qed.
Lemma nth_id_some k : nth_id k <> "".
Proof. done. Qed.

Lemma distinct_put k v fs : distinct (JObj fs) = true -> distinct v = true -> distinct (JObj (put_field k (Some v) fs)) = true.
Proof.
  cbn [distinct put_field]. rewrite !andb_true_iff, !bool_decide_eq_true, !forallb_forall. intros [Hn Hf] Hv. split; [by apply OMap.set_NoDup|].
  intros x Hx%list_elem_of_In. apply OMap.elem_set in Hx as [->|Hx]; [done|]. by apply Hf, list_elem_of_In.
Qed.

(** ** One end at a time *)

Lemma parse_request id ty v : request_line id ty v -> exists fs, parseCommandLine (stringify v) = Command fs (Some id) None /\ field fs "id" = Some (JStr id) /\ field fs "type" = Some (JStr ty).
Proof.
  intros (Hd & fs & -> & Hid & Hty & Hne). exists fs. split; [|done]. unfold parseCommandLine. rewrite parse_stringify by done. cbn [object_fields]. rewrite Hty, Hid. cbn [as_string].
  by rewrite bool_decide_eq_false_2.
Qed.
Lemma run_request id ty v n : request_line id ty v ->
  exists c, for_request id ty c /\ run_line (stringify v) n = (mkConn (n_buffer n) (S (n_begun n)) (n_running n ++ [(n_begun n, c)]) (n_open n), []).
Proof.
  intros (fs & Hp & Hid & Hty)%parse_request. unfold run_line. rewrite stringify_trim, bool_decide_eq_false_2 by apply stringify_some. rewrite Hp, Hid, Hty. by eexists.
Qed.
(** The server starts one command per line, in order, and writes nothing. *)
Lemma run_requests vs n : Forall (fun v => exists id ty, request_line id ty v) vs ->
  exists cs, Forall2 (fun v c => exists id ty, request_line id ty v /\ for_request id ty c.2) vs cs /\ map fst cs = seq (n_begun n) (length vs)
    /\ run_lines (map stringify vs) n = (mkConn (n_buffer n) (n_begun n + length vs) (n_running n ++ cs) (n_open n), []).
Proof.
  intros Hv. revert n. induction Hv as [|v vs (id & ty & Hr) _ IH]; intros n.
  - exists []. split_and!; [constructor|done|]. cbn. rewrite app_nil_r, Nat.add_0_r. by destruct n.
  - destruct (run_request id ty v n Hr) as (c & Hc & E). cbn [map run_lines]. rewrite E.
    destruct (IH (mkConn (n_buffer n) (S (n_begun n)) (n_running n ++ [(n_begun n, c)]) (n_open n))) as (cs & Hcs & Hk & E'). cbn [n_buffer n_begun n_running n_open] in *.
    exists ((n_begun n, c) :: cs). split_and!; [apply Forall2_cons; split; [by exists id, ty|exact Hcs]|cbn; by rewrite Hk|]. rewrite E'. cbn [length app]. by rewrite <- app_assoc, Nat.add_succ_r.
Qed.
Lemma answer_response durable id ty c r v : for_request id ty c -> answer durable c r = Some v -> response_to id ty v.
Proof.
  intros -> Ha. unfold answer in Ha. cbn [r_type r_id r_parsed] in Ha.
  assert (Hok : forall d, response_to id ty (ok (Some (JStr id)) ty d)) by (intros d; eexists; by split_and!).
  assert (Hfail : forall e i, response_to id ty (fail (Some (JStr id)) ty e i)) by (intros e i; eexists; by split_and!).
  destruct (_ && _); [by injection Ha as <-|]. destruct r; try done; injection Ha as <-; first [apply Hok|apply Hfail].
Qed.
Lemma answer_distinct durable id ty c k r v : for_request id ty c -> valid (Answer k r) -> answer durable c r = Some v -> distinct v = true.
Proof.
  intros -> Hr Ha. unfold answer in Ha. cbn [r_type r_id r_parsed] in Ha.
  destruct (_ && _); [by injection Ha as <-|]. destruct r as [[d|]|e [i|]| |e]; try done; injection Ha as <-; cbn in Hr |- *; by rewrite ?Hr.
Qed.
Lemma answer_some durable c r : r <> Nothing -> exists v, answer durable c r = Some v.
Proof. intros Hr. unfold answer. destruct (_ && _); [by eexists|]. destruct r; [by eexists..|done|by eexists]. Qed.

(** What the client must be, for the requests [A] made. *)
Record client_ok (A : list (string * string)) (c : Client) : Prop := {
  ck_ids : forall id, id ∈ map fst A -> exists k, id = nth_id k /\ k <= c_next c;
  ck_asked : NoDup (map fst A);
  ck_pending : NoDup (OMap.keys (c_pending c));
  ck_settled : NoDup (map fst (c_settled c));
  ck_either : forall id, id ∈ OMap.keys (c_pending c) -> id ∉ map fst (c_settled c);
  ck_all : forall id, id ∈ map fst A <-> id ∈ OMap.keys (c_pending c) \/ id ∈ map fst (c_settled c);
  ck_answered : forall id r, (id, Answered r) ∈ c_settled c -> exists ty, (id, ty) ∈ A /\ response_to id ty r
}.
(** A line the server may write: a response to a request, or a line of its own. *)
Definition telling (A : list (string * string)) (v : json) : Prop := distinct v = true /\ ((exists id ty, (id, ty) ∈ A /\ response_to id ty v) \/ own_line v).

Lemma telling_not_null A v : telling A v -> v <> JNull.
Proof. intros [_ [(id & ty & _ & fs & -> & _)|[Hv _]]]; done. Qed.
Lemma has_id id (m : list (string * string)) : OMap.has id m = true <-> id ∈ OMap.keys m.
Proof. unfold OMap.has. destruct (OMap.get id m) eqn:E; [split; [intros _|done]|split; [done|intros Hin; by apply OMap.get_None in E]]. apply OMap.get_elem in E. by apply (list_elem_of_fmap_2 fst) in E. Qed.
(** A line of the server settles the request it answers when that waits, and no other. *)
Lemma take_line_ok A v c : client_ok A c -> telling A v -> client_ok A (take_line v c) /\ c_buffer (take_line v c) = c_buffer c /\ c_next (take_line v c) = c_next c
  /\ (forall id, id ∈ OMap.keys (c_pending (take_line v c)) -> id ∈ OMap.keys (c_pending c) /\ ~ exists ty, response_to id ty v).
Proof.
  intros Hc Ht. unfold take_line. destruct (answers v c) as [id|] eqn:Ea.
  - unfold answers in Ea. case_bool_decide as Hty; [|done]. destruct (as_string (field (fields_of v) "id")) as [id'|] eqn:Eid; [|done].
    destruct (_ && _) eqn:Eb; [|done]. injection Ea as ->. apply andb_true_iff in Eb as [_ Hp%has_id].
    assert (Hr : exists ty, (id, ty) ∈ A /\ response_to id ty v).
    { destruct Ht as [_ [(id' & ty & Hin & fs & -> & Hi & Hx)|[_ Hn]]]; [|done]. cbn [fields_of] in Eid. rewrite Hi in Eid. injection Eid as ->. exists ty. split; [done|]. by exists fs. }
    destruct Hc as [H1 H2 H3 H4 H5 H6 H7]. split_and!; [|done|done|].
    + constructor; cbn [c_pending c_settled c_next].
      * done.
      * done.
      * by apply OMap.del_NoDup.
      * rewrite map_app. apply NoDup_app. split_and!; [done| |by apply NoDup_singleton]. intros x Hx ->%list_elem_of_singleton. by apply (H5 id).
      * intros x [Hne Hx]%OMap.elem_keys_del. rewrite map_app, elem_of_app. intros [Hs|Hs%list_elem_of_singleton]; [by apply (H5 x)|done].
      * intros x. rewrite H6, OMap.elem_keys_del, map_app, elem_of_app. cbn [map fst]. rewrite list_elem_of_singleton. destruct (decide (x = id)) as [->|Hne]; naive_solver.
      * intros x r. rewrite elem_of_app, list_elem_of_singleton. intros [Hin|[= -> ->]]; [by apply H7|done].
    + cbn [c_pending]. intros x [Hne Hx]%OMap.elem_keys_del. split; [done|]. intros (ty & fs & -> & Hi & _). cbn [fields_of] in Eid. rewrite Hi in Eid. by injection Eid as ->.
  - split_and!; [by destruct Hc; constructor|done|done|]. cbn [c_pending]. intros x Hx. split; [done|]. intros (ty & fs & -> & Hi & Hrt & _).
    unfold answers in Ea. cbn [fields_of] in Ea. rewrite Hrt, Hi in Ea. cbn [as_string] in Ea. rewrite bool_decide_eq_true_2 in Ea by done.
    rewrite (proj2 (has_id x _) Hx), andb_true_r in Ea. case_bool_decide as Ex; [|done]. subst x.
    assert (Hin : "" ∈ map fst A) by (apply (ck_all _ _ Hc); by left). destruct (ck_ids _ _ Hc _ Hin) as (k & Hk & _). by apply (nth_id_some k).
Qed.
Lemma take_all_ok A ws rest c : client_ok A c -> Forall (telling A) ws ->
  exists c', take_all (map stringify ws) rest c = (c', false) /\ client_ok A c' /\ c_buffer c' = rest /\ c_next c' = c_next c
    /\ (forall id, id ∈ OMap.keys (c_pending c') -> id ∈ OMap.keys (c_pending c) /\ ~ exists ty w, w ∈ ws /\ response_to id ty w).
Proof.
  intros Hc Hw. revert c Hc. induction Hw as [|v ws Hv _ IH]; intros c Hc.
  - exists (with_buffer rest c). split_and!; [done|by destruct Hc; constructor|done|done|]. intros id Hid. split; [done|]. by intros (ty & w & ?%elem_of_nil & _).
  - cbn [map take_all]. rewrite parse_stringify by apply Hv. pose proof (telling_not_null A v Hv) as Hn. destruct (take_line_ok A v c Hc Hv) as (Hc' & Hb & Hx & Hp).
    destruct (IH (take_line v c) Hc') as (c' & E & Hok & Hb' & Hx' & Hp'). exists c'. split_and!; [by destruct v|done|done|by rewrite Hx'|].
    intros id Hid. destruct (Hp' id Hid) as [H1 H2]. destruct (Hp id H1) as [H3 H4]. split; [done|]. intros (ty & w & [->|Hin]%elem_of_cons & Hr); naive_solver.
Qed.

(** ** Both ends *)

(** Where the answer of a waiting request is: its line is on its way, its command runs, or the response is on its way back. *)
Definition on_the_way (id : string) (vs ws : list json) (running : list (nat * Running)) : Prop :=
  (exists ty v, v ∈ vs /\ request_line id ty v) \/ (exists ty x, x ∈ running /\ for_request id ty x.2) \/ (exists ty v, v ∈ ws /\ response_to id ty v).
Definition asking (A : list (string * string)) (v : json) : Prop := exists id ty, (id, ty) ∈ A /\ request_line id ty v.
Definition runs_for (A : list (string * string)) (x : nat * Running) : Prop := exists id ty, (id, ty) ∈ A /\ for_request id ty x.2.
(** The link in a run whose requests are [A], with the lines under way; [L] says that the run loses nothing. *)
Record linked (L : Prop) (A : list (string * string)) (w : Link) (vs ws : list json) : Prop := {
  lk_up : framed (n_buffer (conn w)) (up w) vs;
  lk_down : framed (c_buffer (client w)) (down w) ws;
  lk_asking : Forall (asking A) vs;
  lk_telling : Forall (telling A) ws;
  lk_running : Forall (runs_for A) (n_running (conn w));
  lk_begun : NoDup (OMap.keys (n_running (conn w))) /\ Forall (fun x => (x.1 < n_begun (conn w))%nat) (n_running (conn w));
  lk_client : client_ok A (client w);
  lk_threw : threw w = false;
  lk_open : L -> n_open (conn w) = true;
  lk_way : L -> forall id, id ∈ OMap.keys (c_pending (client w)) -> on_the_way id vs ws (n_running (conn w))
}.

Lemma telling_more A x v : telling A v -> telling (A ++ [x]) v.
Proof. intros [Hd [(id & ty & Hin & Hr)|Ho]]; (split; [done|]); [left; exists id, ty; set_solver|by right]. Qed.
Lemma asking_more A x v : asking A v -> asking (A ++ [x]) v.
Proof. intros (id & ty & Hin & Hr). exists id, ty. set_solver. Qed.
Lemma runs_for_more A x y : runs_for A y -> runs_for (A ++ [x]) y.
Proof. intros (id & ty & Hin & Hr). exists id, ty. set_solver. Qed.
(** What the server writes joins the lines on their way, or nothing when it is closed. *)
Lemma framed_write b q ws n v : framed b q ws -> exists ws', framed b (q ++ write n v) (ws ++ ws') /\ (forall x, x ∈ ws' -> x = v) /\ (n_open n = true -> v ∈ ws').
Proof.
  intros Hf. unfold write. destruct (n_open n).
  - exists [v]. split_and!; [by apply framed_more|by intros x ->%list_elem_of_singleton|intros _; by left].
  - exists []. rewrite !app_nil_r. split_and!; [done|by intros x ?%elem_of_nil|done].
Qed.

Lemma linked_request L A w vs ws command ty : linked L A w vs ws -> distinct (JObj command) = true -> field command "type" = Some (JStr ty) -> ty <> "command" ->
  exists vs', linked L (A ++ [(nth_id (c_next (client w) + 1), type_of command)]) (step (fun _ => false) (Request command) w) vs' ws.
Proof.
  intros [H1 H2 H3 H4 H5 H6 H7 H8 H9 H10] Hd Hty Hne. assert (Et : type_of command = ty) by (unfold type_of; by rewrite Hty).
  set (id := nth_id (c_next (client w) + 1)). set (v := JObj (put_field "id" (Some (JStr id)) command)).
  assert (Hr : request_line id ty v).
  { split; [by apply distinct_put|]. eexists. split; [done|]. unfold field. cbn [put_field]. rewrite OMap.get_set_eq, OMap.get_set_ne by done. done. }
  assert (Hnew : id ∉ map fst A) by (intros (k & Hk%nth_id_inj & Hle)%(ck_ids _ _ H7); lia).
  exists (vs ++ [v]). cbn [step request]. fold id v. rewrite Et. constructor; cbn [client conn up down threw c_buffer c_pending c_next c_settled].
  - by apply framed_more.
  - done.
  - apply Forall_app. split; [eapply Forall_impl; [exact H3|]; intros; by apply asking_more|]. apply Forall_singleton. exists id, ty. set_solver.
  - eapply Forall_impl; [exact H4|]. intros; by apply telling_more.
  - eapply Forall_impl; [exact H5|]. intros; by apply runs_for_more.
  - done.
  - destruct H7 as [K1 K2 K3 K4 K5 K6 K7]. unfold type_of in Et. constructor; cbn [c_pending c_settled c_next].
    + intros x. rewrite map_app, elem_of_app. intros [(k & -> & Hk)%K1|Hx%list_elem_of_singleton]; [exists k; split; [done|lia]|]. exists (c_next (client w) + 1). split; [done|lia].
    + rewrite map_app. apply NoDup_app. split_and!; [done| |by apply NoDup_singleton]. intros x Hx ->%list_elem_of_singleton. done.
    + by apply OMap.set_NoDup.
    + done.
    + intros x [->|Hx]%OMap.elem_keys_set; [|by apply K5]. intros Hx. apply Hnew, K6. by right.
    + intros x. rewrite map_app, elem_of_app, K6, OMap.elem_keys_set. cbn [map fst]. rewrite list_elem_of_singleton. naive_solver.
    + intros x r (ty' & Hin & Hx)%K7. exists ty'. set_solver.
  - done.
  - done.
  - intros HL x [->|Hx]%OMap.elem_keys_set; [left; exists ty, v; set_solver|]. destruct (H10 HL x Hx) as [(t & u & Hu & Hr')|[Hrun|Hws]]; [left; exists t, u; set_solver|right; by left|right; by right].
Qed.
Lemma linked_up L A w vs ws n : linked L A w vs ws -> exists vs', linked L A (step (fun _ => false) (Up n) w) vs' ws.
Proof.
  intros [H1 H2 H3 H4 H5 H6 H7 H8 H9 H10]. destruct H1 as [Hn Ht]. rewrite <- (take_drop n (up w)), app_assoc in Ht.
  destruct (take_lines_text _ _ _ Ht) as (vs1 & vs2 & -> & El & Hf). apply Forall_app in H3 as [H3a H3b]. exists vs2. cbn [step]. unfold receive.
  destruct (take_lines (n_buffer (conn w) ++ take n (up w))) as [ls rest]. cbn [fst snd] in *. subst ls.
  destruct (run_requests vs1 (mkConn rest (n_begun (conn w)) (n_running (conn w)) (n_open (conn w)))) as (cs & Hcs & Hk & E).
  { eapply Forall_impl; [exact H3a|]. intros v (id & ty & _ & Hr). by exists id, ty. }
  rewrite E. cbn [n_buffer n_begun n_running n_open] in *. constructor; cbn [client conn up down threw n_buffer n_begun n_running n_open]; try done.
  - by rewrite app_nil_r.
  - apply Forall_app. split; [done|]. clear -Hcs H3a. revert H3a. induction Hcs as [|v c vs cs (id & ty & Hr & Hc) _ IH]; [constructor|].
    intros [(id' & ty' & Hin & Hr') H3]%Forall_cons. apply Forall_cons. split; [|by apply IH]. exists id, ty. split; [|done].
    destruct Hr as (_ & fs & -> & Hi & Hty & _), Hr' as (_ & fs' & [= <-] & Hi' & Hty' & _). rewrite Hi in Hi'. rewrite Hty in Hty'. by injection Hi' as ->; injection Hty' as ->.
  - destruct H6 as [H6a H6b]. unfold OMap.keys in *. rewrite map_app, Hk. split.
    + apply NoDup_app. split_and!; [done| |by apply NoDup_ListNoDup, seq_NoDup]. intros k (x & -> & Hx)%list_elem_of_fmap Hs%list_elem_of_In%in_seq. rewrite Forall_forall in H6b. specialize (H6b x Hx). lia.
    + apply Forall_app. split; [eapply Forall_impl; [exact H6b|]; cbn; intros; lia|]. apply Forall_forall. intros x Hx. assert (Hin : x.1 ∈ map fst cs) by (by apply list_elem_of_fmap_2).
      rewrite Hk in Hin. apply list_elem_of_In, in_seq in Hin. lia.
  - intros HL id Hid. destruct (H10 HL id Hid) as [(ty & v & [Hv|Hv]%elem_of_app & Hr)|[(ty & x & Hx & Hr)|Hw]]; [|left; by exists ty, v|right; left; exists ty, x; set_solver|right; by right].
    right. left. clear -Hcs Hv Hr. induction Hcs as [|v' c vs cs (id' & ty' & Hr' & Hc) _ IH]; [by apply elem_of_nil in Hv|]. apply elem_of_cons in Hv as [->|Hv].
    + exists ty', c. split; [set_solver|]. destruct Hr as (_ & fs & -> & Hi & _), Hr' as (_ & fs' & [= <-] & Hi' & _). rewrite Hi in Hi'. by injection Hi' as ->.
    + destruct (IH Hv) as (t & x & Hx & Hf). exists t, x. set_solver.
Qed.
Lemma linked_down L A w vs ws n : linked L A w vs ws -> exists ws', linked L A (step (fun _ => false) (Down n) w) vs ws'.
Proof.
  intros [H1 H2 H3 H4 H5 H6 H7 H8 H9 H10]. destruct H2 as [Hn Ht]. rewrite <- (take_drop n (down w)), app_assoc in Ht.
  destruct (take_lines_text _ _ _ Ht) as (ws1 & ws2 & -> & El & Hf). apply Forall_app in H4 as [H4a H4b]. exists ws2. cbn [step]. unfold client_receive.
  destruct (take_lines (c_buffer (client w) ++ take n (down w))) as [ls rest]. cbn [fst snd] in *. subst ls.
  destruct (take_all_ok A ws1 rest (client w) H7 H4a) as (c' & -> & Hok & Hb & Hx & Hp). constructor; cbn [client conn up down threw]; try done.
  - by rewrite Hb.
  - by rewrite H8.
  - intros HL id Hid. destruct (Hp id Hid) as [Hid' Hno]. destruct (H10 HL id Hid') as [Hv|[Hr|(ty & v & [Hv|Hv]%elem_of_app & Hr)]]; [by left|right; by left| |right; right; by exists ty, v].
    destruct Hno. by exists ty, v.
Qed.
Lemma linked_answer L A w vs ws durable k r : linked L A w vs ws -> valid (Answer k r) -> (L -> r <> Nothing) -> exists ws', linked L A (step durable (Answer k r) w) vs ws'.
Proof.
  intros [H1 H2 H3 H4 H5 H6 H7 H8 H9 H10] Hva Hr. cbn [step]. unfold reply. destruct (OMap.get k (n_running (conn w))) as [c|] eqn:Eg.
  2: { exists ws. by constructor; cbn [client conn up down threw]; rewrite ?app_nil_r. }
  pose proof (OMap.get_elem _ _ _ Eg) as Hin. assert (Hc : runs_for A (k, c)) by (rewrite Forall_forall in H5; by apply H5). destruct Hc as (id & ty & HA & Hc). cbn [snd] in Hc.
  assert (Hws : exists ws', framed (c_buffer (client w)) (down w ++ match answer durable c r with Some v => write (conn w) v | None => [] end) (ws ++ ws')
    /\ Forall (fun v => distinct v = true /\ response_to id ty v) ws' /\ (L -> exists v, v ∈ ws')).
  { destruct (answer durable c r) as [v|] eqn:Ea.
    - destruct (framed_write _ _ _ (conn w) v H2) as (ws' & Hf & Hall & Hsome). exists ws'. split_and!; [done| |intros HL; exists v; by apply Hsome, H9].
      apply Forall_forall. intros x ->%Hall. split; [by eapply answer_distinct|by eapply answer_response].
    - exists []. rewrite !app_nil_r. split_and!; [done|constructor|]. intros HL. destruct (answer_some durable c r (Hr HL)) as [v Hv]. by rewrite Hv in Ea. }
  destruct Hws as (ws' & Hf & Hall & Hsome). exists (ws ++ ws'). constructor; cbn [client conn up down threw n_buffer n_begun n_running n_open]; try done.
  - apply Forall_app. split; [done|]. eapply Forall_impl; [exact Hall|]. intros v [Hd Hv]. split; [done|]. left. by exists id, ty.
  - apply Forall_forall. intros x Hx%OMap.elem_del. rewrite Forall_forall in H5. by apply H5.
  - destruct H6 as [H6a H6b]. split; [by apply OMap.del_NoDup|]. apply Forall_forall. intros x Hx%OMap.elem_del. rewrite Forall_forall in H6b. by apply H6b.
  - intros HL x Hx. destruct (H10 HL x Hx) as [Hv|[(t & y & Hy & Hfy)|(t & v & Hv & Hrv)]]; [by left| |right; right; exists t, v; set_solver].
    destruct (decide (y.1 = k)) as [Ek|Hne].
    + right. right. destruct (Hsome HL) as [v Hv]. destruct y as [k' c']. cbn [fst snd] in *. subst k'. apply (OMap.elem_get _ _ _ (proj1 H6)) in Hy. rewrite Eg in Hy. injection Hy as ->.
      unfold for_request in *. assert (Et : t = ty) by congruence. assert (Ex : x = id) by congruence. subst t x. exists ty, v. rewrite Forall_forall in Hall. split; [set_solver|by apply Hall].
    + right. left. exists t, y. split; [|done]. destruct y as [k' c']. cbn [fst] in Hne. apply OMap.get_elem. rewrite OMap.get_del_ne by done. by apply OMap.elem_get; [apply H6|].
Qed.

Lemma linked_step L A w vs ws durable e : linked L A w vs ws -> valid e -> (L -> keeps e) ->
  exists vs' ws', linked L (A ++ asks (c_next (client w)) [e]) (step durable e w) vs' ws' /\ c_next (client (step durable e w)) = (c_next (client w) + Z.of_nat (length (asks 0 [e]))).
Proof.
  intros Hl Hv Hk. destruct e as [command|id|test|k|n|n|k r|v|]; cbn [asks length]; rewrite ?app_nil_r, ?Z.add_0_r.
  - destruct Hv as (Hd & ty & Hty & Hne). destruct (linked_request L A w vs ws command ty Hl Hd Hty Hne) as [vs' H']. by exists vs', ws.
  - exists vs, ws. destruct Hl as [H1 H2 H3 H4 H5 H6 H7 H8 H9 H10]. cbn [step]. unfold time_out. destruct (OMap.has id (c_pending (client w))) eqn:Eh; [|by split].
    apply has_id in Eh. split; [|done]. constructor; cbn [client conn up down threw c_buffer c_pending]; try done.
    + destruct H7 as [K1 K2 K3 K4 K5 K6 K7]. constructor; cbn [c_pending c_settled c_next]; try done.
      * by apply OMap.del_NoDup.
      * rewrite map_app. apply NoDup_app. split_and!; [done| |by apply NoDup_singleton]. intros x Hx ->%list_elem_of_singleton. by apply (K5 id).
      * intros x [Hne Hx]%OMap.elem_keys_del. rewrite map_app, elem_of_app. intros [Hs|Hs%list_elem_of_singleton]; [by apply (K5 x)|done].
      * intros x. rewrite K6, OMap.elem_keys_del, map_app, elem_of_app. cbn [map fst]. rewrite list_elem_of_singleton. destruct (decide (x = id)) as [->|Hne]; naive_solver.
      * intros x r. rewrite elem_of_app, list_elem_of_singleton. intros [Hin|[=]]. by apply K7.
    + intros HL x [_ Hx]%OMap.elem_keys_del. by apply H10.
  - exists vs, ws. destruct Hl as [H1 H2 H3 H4 H5 H6 [K1 K2 K3 K4 K5 K6 K7] H8 H9 H10]. cbn [step]. unfold wait_for. destruct (List.find test (c_lines (client w))); split; try done; by constructor.
  - exists vs, ws. destruct Hl as [H1 H2 H3 H4 H5 H6 [K1 K2 K3 K4 K5 K6 K7] H8 H9 H10]. cbn [step]. unfold wait_out. destruct (existsb _ _); split; try done; by constructor.
  - destruct (linked_up L A w vs ws n Hl) as [vs' H']. exists vs', ws. cbn [step] in *. destruct (receive _ _). by split.
  - destruct (linked_down L A w vs ws n Hl) as [ws' H']. exists vs, ws'. split; [done|]. destruct Hl as [H1 H2 H3 H4 H5 H6 H7 H8 H9 H10].
    destruct H2 as [_ Ht]. rewrite <- (take_drop n (down w)), app_assoc in Ht. destruct (take_lines_text _ _ _ Ht) as (ws1 & ws2 & -> & El & _). apply Forall_app in H4 as [H4a _].
    cbn [step]. unfold client_receive. destruct (take_lines _) as [ls rest]. cbn [fst] in El. subst ls. destruct (take_all_ok A ws1 rest (client w) H7 H4a) as (c1 & -> & _ & _ & Hx & _). exact Hx.
  - destruct (linked_answer L A w vs ws durable k r Hl Hv) as [ws' H']; [intros HL ->; by apply Hk|]. exists vs, ws'. split; [done|]. cbn [step]. by destruct (reply _ _ _ _).
  - destruct Hl as [H1 H2 H3 H4 H5 H6 H7 H8 H9 H10]. destruct (framed_write _ _ _ (conn w) v H2) as (ws' & Hf & Hall & _). exists vs, (ws ++ ws'). split; [|done].
    constructor; cbn [step client conn up down threw]; try done.
    + apply Forall_app. split; [done|]. apply Forall_forall. intros x ->%Hall. split; [apply Hv|right; apply Hv].
    + intros HL id Hid. destruct (H10 HL id Hid) as [?|[?|(ty & u & Hu & Hr)]]; [by left|right; by left|right; right; exists ty, u; set_solver].
  - exists vs, ws. split; [|done]. destruct Hl as [H1 H2 H3 H4 H5 H6 H7 H8 H9 H10]. constructor; cbn [step client conn up down threw n_buffer n_running n_open]; try done.
    intros HL. by destruct (Hk HL).
Qed.
Lemma asks_cons k e evs : asks k (e :: evs) = asks k [e] ++ asks (k + Z.of_nat (length (asks 0 [e]))) evs.
Proof. destruct e; cbn [asks length app]; by rewrite ?Z.add_0_r. Qed.
Lemma linked_steps L A w vs ws durable evs : linked L A w vs ws -> Forall valid evs -> (L -> Forall keeps evs) ->
  exists vs' ws', linked L (A ++ asks (c_next (client w)) evs) (steps durable evs w) vs' ws'.
Proof.
  intros Hl Hv. revert A w vs ws Hl. induction Hv as [|e evs He _ IH]; intros A w vs ws Hl Hk; [exists vs, ws; by rewrite app_nil_r|].
  destruct (linked_step L A w vs ws durable e Hl He) as (vs1 & ws1 & Hl1 & Hn); [intros HL; by apply Hk in HL as [? _]%Forall_cons|].
  destruct (IH _ _ _ _ Hl1) as (vs2 & ws2 & Hl2); [intros HL; by apply Hk in HL as [_ ?]%Forall_cons|].
  exists vs2, ws2. rewrite asks_cons, app_assoc. rewrite Hn in Hl2. exact Hl2.
Qed.
Lemma linked_connected L : linked L [] connected [] [].
Proof.
  assert (Hf : framed [] [] []) by (split; [by intros ?%elem_of_nil|done]). constructor; try done; try (by constructor).
  - split; [apply NoDup_nil_2|by constructor].
  - constructor; cbn; try apply NoDup_nil_2; try (by intros ? ?%elem_of_nil); try (by intros ? ? ?%elem_of_nil); try (by intros ?; rewrite !elem_of_nil; naive_solver).
  - by intros _ ? ?%elem_of_nil.
Qed.

(** C40: Requests get their own answers.  In every run of a client and its connection to the host, whatever pieces the bytes of
    both directions come in and in whatever order the host answers, times out or writes lines of its own: no line the server writes makes
    the client throw; a request settles at most once, by its timer or by a response to its own id that names the
    type of its own command; and when the socket stays open and the host answers each command, then once every byte
    has come and no command runs, every request has settled. *)
Theorem requests_get_their_answers durable evs : Forall valid evs ->
  let w := steps durable evs connected in
  threw w = false /\ NoDup (map fst (c_settled (client w)))
  /\ (forall id r, (id, Answered r) ∈ c_settled (client w) -> exists ty, (id, ty) ∈ asks 0 evs /\ response_to id ty r)
  /\ (Forall keeps evs -> up w = [] -> down w = [] -> n_running (conn w) = [] -> forall id ty, (id, ty) ∈ asks 0 evs -> id ∈ map fst (c_settled (client w))).
Proof.
  intros Hv w. destruct (linked_steps (Forall keeps evs) [] connected [] [] durable evs (linked_connected _) Hv) as (vs & ws & Hl); [done|].
  cbn [app connected client fresh_client c_next] in Hl. fold w in Hl. destruct Hl as [H1 H2 _ _ _ _ H7 H8 _ H10]. split_and!; [done|apply H7|apply H7|].
  intros Hk Hu Hd Hr id ty Hin%(list_elem_of_fmap_2 fst). cbn [fst] in Hin. apply (ck_all _ _ H7) in Hin as [Hin|Hin]; [|done]. exfalso.
  rewrite Hu in H1. rewrite Hd in H2. apply framed_empty in H1 as ->. apply framed_empty in H2 as ->. rewrite Hr in H10.
  destruct (H10 Hk id Hin) as [(t & v & Hx%elem_of_nil & _)|[(t & x & Hx%elem_of_nil & _)|(t & v & Hx%elem_of_nil & _)]]; done.
Qed.
End Spec.

(** ** A bad line *)

(** A line that is no JSON stops the client for good: it throws in the handler before the buffer moves past the line, so
    every later chunk throws at the same line, and neither a response nor a line after it is read. *)
Theorem bad_line_stops_the_client `{JsonText} x rest c chunk : NL ∉ x -> parse x = None -> c_buffer c = x ++ NL :: rest ->
  client_receive chunk c = (with_buffer (c_buffer c ++ chunk) c, true).
Proof.
  intros Hx Hp Hb. unfold client_receive. rewrite Hb, <- app_assoc. cbn [app]. rewrite take_lines_one by done.
  destruct (take_lines (rest ++ chunk)) as [ls r] eqn:E. cbn [fst snd take_all]. rewrite Hp. f_equal. f_equal. unfold unread. cbn [map concat]. rewrite <- !app_assoc. cbn [app]. f_equal. f_equal.
  revert ls r E. generalize (rest ++ chunk). intros l. induction l as [|d l IH]; intros ls r E; cbn [take_lines] in E; [by injection E as <- <-|].
  destruct (take_lines l) as [ls' r'] eqn:E'. specialize (IH _ _ eq_refl). case_bool_decide as Hd.
  - injection E as <- <-. cbn [map concat app]. subst d. by rewrite IH.
  - destruct ls' as [|y ys]; injection E as <- <-; cbn [map concat app] in *; by rewrite IH.
Qed.

(** ** A text for JSON *)

(** Any text with the laws will do: here the digits of a number that codes the value. *)
Fixpoint tree_of (v : json) : gen_tree (bool + (Z * positive) + string) :=
  match v with
  | JNull => GenNode 0 []
  | JBool b => GenLeaf (inl (inl b))
  | JNum q => GenLeaf (inl (inr (QArith_base.Qnum q, QArith_base.Qden q)))
  | JStr s => GenLeaf (inr s)
  | JArr l => GenNode 1 (map tree_of l)
  | JObj fs => GenNode 2 (map (fun f => GenNode 3 [GenLeaf (inr f.1); tree_of f.2]) fs)
  end.
Fixpoint json_of (t : gen_tree (bool + (Z * positive) + string)) : json :=
  match t with
  | GenLeaf (inl (inl b)) => JBool b
  | GenLeaf (inl (inr q)) => JNum (QArith_base.Qmake q.1 q.2)
  | GenLeaf (inr s) => JStr s
  | GenNode 1 l => JArr (map json_of l)
  | GenNode 2 l => JObj (map (fun t => match t with GenNode _ [GenLeaf (inr k); v] => (k, json_of v) | _ => ("", JNull) end) l)
  | GenNode _ _ => JNull
  end.
Lemma json_of_tree v : json_of (tree_of v) = v.
Proof.
  induction v as [|b|[n d]|s|l IH|fs IH] using json_induction; cbn; try done.
  - f_equal. induction IH as [|x l Hx _ IHl]; [done|]. cbn. by rewrite Hx, IHl.
  - f_equal. induction IH as [|[k x] l Hx _ IHl]; [done|]. cbn in *. by rewrite Hx, IHl.
Qed.
#[local] Instance demo_text : JsonText := {
  stringify v := to_chars (string_of_Z (Zpos (encode (tree_of v))));
  parse l := if negb (bool_decide (l = [])) && forallb is_digit l then match digits_value l with Zpos p => json_of <$> decode p | _ => None end else None
}.
#[local] Instance demo_json : JsonLaws.
Proof.
  assert (Hd : forall v, forallb is_digit (stringify v) = true /\ digits_value (stringify v) = Zpos (encode (tree_of v)) /\ stringify v <> []) by (intros v; by apply string_of_Z_digits).
  assert (Hc : forall v c, c ∈ stringify v -> is_digit c = true) by (intros v c Hc%list_elem_of_In; destruct (Hd v) as [Ha _]; rewrite forallb_forall in Ha; by apply Ha).
  constructor; intros v.
  - intros _. destruct (Hd v) as (H1 & H2 & H3). unfold parse. cbn [demo_text]. rewrite H1, H2, bool_decide_eq_false_2 by done. cbn [negb andb]. rewrite decode_encode. cbn. by rewrite json_of_tree.
  - by intros Hn%Hc.
  - destruct (Hd v) as (_ & _ & H3). destruct (stringify v) as [|c l] eqn:E; [done|]. assert (Hs : forall c, c ∈ stringify v -> is_space c = false).
    { intros x Hx%Hc. revert Hx. unfold is_digit, is_space. rewrite andb_true_iff, !Z.leb_le. intros [H4 H5]. repeat (apply orb_false_iff; split); try (apply andb_false_iff); lia. }
    destruct (last (c :: l)) as [d|] eqn:El; [|by apply last_None in El]. apply (trim_chars_id _ c d); [done|done|apply Hs; rewrite E; by left|].
    apply Hs. rewrite E. apply last_Some in El as [l' ->]. set_solver.
  - by apply Hd.
Qed.

Definition all_bytes : nat := Z.to_nat 100000.
Definition demo_run : list Event :=
  [Request [("type", JStr "list")]; Request [("type", JStr "zap")]; Up 5; Up all_bytes; Answer 1 Nothing; Down 9; Answer 0 (Done None); Write (JObj [("type", JStr "hello")]); Down all_bytes].
#[local] Abbreviation demo_end := (steps (fun _ => false) demo_run connected).
Lemma demo_valid : Forall valid demo_run.
Proof.
  apply Forall_cons. split; [split; [vm_compute; reflexivity|by exists "list"]|]. apply Forall_cons. split; [split; [vm_compute; reflexivity|by exists "zap"]|].
  do 5 (apply Forall_cons; split; [exact I|]). apply Forall_cons. split; [split; [vm_compute; reflexivity|by split; [|vm_compute]]|]. apply Forall_singleton. exact I.
Qed.
Lemma requests_get_their_answers_witness :
  map fst (c_settled (client demo_end)) = ["t2"; "t1"] /\ length (c_lines (client demo_end)) = 1%nat
  /\ threw demo_end = false /\ (forall id r, (id, Answered r) ∈ c_settled (client demo_end) -> exists ty, (id, ty) ∈ [("t1", "list"); ("t2", "zap")] /\ response_to id ty r).
Proof.
  pose proof (requests_get_their_answers (fun _ => false) demo_run demo_valid) as W. cbv zeta in W. destruct W as (H1 & _ & H2 & _). split_and!; [vm_compute; reflexivity|vm_compute; reflexivity|exact H1|].
  intros id r Hin. destruct (H2 id r Hin) as (ty & Ha & Hr). exists ty. split; [|done]. change (asks 0 demo_run) with [("t1", "list"); ("t2", "zap")] in Ha. exact Ha.
Defined.
